(* ===== verification/_CoqProject ===== *)
-Q . S2P
Prelude.v
Bytes.v
Mem.v
Bitops.v
Bitmap.v
BitmapMaps.v
BitmapAlloc.v
LibString.v
LibStringCorrect.v
LibStringProps.v
LibStringTokens.v
LibStringTheorems.v
PosixAcl.v
Groups.v
Sem.v
Cipher.v
Tea.v
Serpent.v
SerpentCorrect.v
SerpentKey.v
SerpentLaws.v
CryptoOps.v
Modes.v
ModesCorrect.v
ModesLoops.v
ModesTheorems.v
Scatterwalk.v
ScatterwalkCorrect.v
BlkcipherWalk.v
BlkcipherWalkCorrect.v
ModesRequest.v
ModesRequestCorrect.v
ModesRequestStart.v
ModesRequestTheorems.v
ModesRequestErrors.v
Rbtree.v
RbtreeRepr.v
RbtreeInsert.v
RbtreeIter.v
RbtreeErase.v
RbtreeRemove.v
RbtreeTheorems.v
Timerqueue.v
TimerqueueCorrect.v
Kfifo.v
KfifoCorrect.v
KfifoTheorems.v
KfifoRecords.v
KfifoUser.v
Locks.v
LocksIntervals.v
LocksRepr.v
LocksSteps.v
LocksEvolve.v
LocksPosix.v
LocksState.v
LocksFile.v
LocksCalls.v
LocksLockFile.v
LocksFlock.v
LocksSystem.v
LocksRuns.v
LocksTheorems.v
