(* ===== verification/Prelude.v ===== *)
(** * Linux 2.6.39 core routines: a verification library

    The repository builds a small i386 system from [linux-2.6.39] and
    [busybox-1.35.0].  This library models parts of the kernel that the rest of
    it leans on, as executable definitions, and proves what makes them correct.

    ** How the code is modelled

    [unsigned long], [unsigned int] and pointers have 32 bits ([ARCH=i386]). A C
    integer is its value in [Z]; whatever can leave its range is reduced
    explicitly ([u8], [u16], [u32], [u64], [s16], [.<<]), or checked where it
    leaves the range of [int] ([c_int], [int_shl]). Undefined behaviour (an
    access outside of an object, a division by zero, a [NULL] or dangling
    pointer, an [int] overflow) and [BUG()] are [None] in the option monad;
    error codes are values, and so is the stop of a [BUG_ON] where a theorem
    says that it stops a call ([LibString.ending]). A shift by the full width,
    which two functions perform, is a parameter ([Bitmap.shl_over]). Loops are
    [c_loop] (with fuel; [None] when it runs out), [c_for] and [c_for_all];
    every theorem that says that code returns proves that the fuel given in the
    definition is enough: it is the size of what the loop walks over (the bytes
    left, the nodes of the tree, the words of the bitmap), plus one. Memory is,
    by component, a list of words (bitmaps), a flat memory of bytes with
    addresses as pointers ([Mem]: strings, crypto, ring buffers), or a finite
    map from addresses to nodes (trees). Code of other parts that a component
    only calls (allocators, block ciphers behind the crypto API, copies to and
    from user space, security modules) is an argument, with what is relied on as
    a named hypothesis or a class.

    ** The parts

    - Prelude ([Prelude], [Bytes], [Mem]): C integers and loops, little-endian
      bytes, memory.
    - Bits and bitmaps, [lib/find_next_bit.c], [lib/hweight.c], [lib/bitmap.c] and
      their headers.  [Bitops]: searches and population counts equal to their
      bitwise definitions.  [Bitmap]: predicates, bitwise operations, shifts,
      ranges.  [BitmapMaps]: ordinals, remap, onto, fold.  [BitmapAlloc]: first
      fit of aligned areas, the region allocator.
    - Strings and memory areas, [lib/string.c], [lib/ctype.c].  [LibString] models
      every function; [LibStringCorrect], [LibStringProps], [LibStringTokens] and
      [LibStringTheorems] prove them, with overlap, bounds of the sized copies,
      orders, searches and the splitting of [strsep].
    - POSIX access control lists, [fs/posix_acl.c], [fs/xattr_acl.c].  [PosixAcl]:
      validity is exactly what [posix_acl_valid] accepts, permission checks refine
      the POSIX algorithm, creation and chmod keep ACL and mode in step, the
      extended attribute round trip.
    - Supplementary groups, [kernel/groups.c].  [Groups]: the Shell sort sorts, the
      binary search in the two-level array answers exactly for the members.
    - System V semaphores, [ipc/sem.c].  [Sem]: operation arrays are atomic, and in
      every state reachable by [semop], [semctl], exits and timeouts no sleeper
      that could run is left sleeping.
    - Ciphers, [crypto/tea.c], [crypto/serpent.c].  [Cipher] is the interface (a
      class of block ciphers whose decryption inverts encryption); [Tea] and
      [Serpent]* are instances; the unrolled Serpent equals the published one.
    - Modes of operation, [crypto/ecb.c], [cbc.c], [pcbc.c], [ctr.c],
      [algapi.c].  [CryptoOps], [Modes]*: the loops, against any cipher of the
      interface.  [Scatterwalk]*, [BlkcipherWalk]*: the cursor over scatter lists
      and the walk that cuts requests into chunks.  [ModesRequest]*: whole
      requests; they compute the mode over the bytes of the lists for every
      layout and alignment, decryption inverts encryption, and the error paths.
    - Red-black trees, [lib/rbtree.c].  [Rbtree] is the code on nodes in memory;
      [RbtreeRepr] relates states to trees with a hole (a zipper), one step of the
      code to one step on the shape; [RbtreeInsert], [RbtreeErase],
      [RbtreeRemove], [RbtreeIter] follow the operations; [RbtreeTheorems] states
      them on the list of the nodes, with the logarithmic depth.
    - Timer queues, [lib/timerqueue.c], on top of the trees.  [Timerqueue],
      [TimerqueueCorrect]: any sequence of operations refines a sorted list.
    - Ring buffers, [kernel/kfifo.c].  [Kfifo] is the code; [KfifoCorrect] the
      bytes of a ring; [KfifoTheorems] the queue, for calls one after another and
      for one reader and one writer without a lock (a step relation, by rule
      induction); [KfifoRecords] records; [KfifoUser] copies that fault.
    - File locks, [fs/locks.c].  [Locks] is the code, POSIX and BSD locks with
      their lists and queues in one memory.  [LocksIntervals]: byte ranges.
      [LocksRepr]: the shape that a memory stands for; [LocksSteps] and
      [LocksEvolve]: one list operation as a step on the shape; [LocksPosix]: the
      loop that merges and splits ranges; [LocksState]: the invariant;
      [LocksFile], [LocksCalls], [LocksLockFile], [LocksFlock]: the calls.
      [LocksSystem]: tasks that ask, sleep, are woken or interrupted and return,
      as a step relation with its invariant; [LocksRuns]: runs by computation;
      [LocksTheorems]: what calls do to the locked bytes, exclusion, no lost
      wake-ups, termination, deadlock detection and two races.

    Components meet at interfaces: the modes use any instance of the cipher
    class, requests run the loops of the modes inside the walk, the timer queue
    uses the trees only through the list of their nodes, the ring buffer, the
    walk and the modes use [memcpy] of the strings component.

    ** Not modelled

    Drivers, the network stack, file systems other than ACLs and file locks, memory
    management, the scheduler, interrupt and architecture code: their behaviour
    is that of hardware, or of concurrent code spread over too many files for a
    faithful model of a part to stand alone.  [busybox-1.35.0] and the init
    scripts are user space programs around system calls.  Within the modelled
    files, what is left out is named in the manifest: locking and RCU around
    operations that are modelled as atomic, printing, tracing, module
    registration, [seq_file] and [/proc] output, the preparation of DMA lists,
    leases, mandatory locks and the conversion of [fcntl] arguments; requests
    for file locks come without the callbacks of a lock manager. *)

From Stdlib Require Export ZArith Lia Bool Btauto.
From stdpp Require Export base tactics decidable numbers list option.

#[global] Set Default Goal Selector "!".
Open Scope Z_scope.

(** ** C words

    The kernel of this repository is built with [ARCH=i386], so
    [unsigned long], [unsigned int] and pointers are 32 bits wide.  A C
    unsigned value is its value in [Z]; every operation that can leave the
    range is followed by an explicit reduction. *)

Declare Scope c_scope.
Delimit Scope c_scope with c.

Definition BITS_PER_LONG : Z := 32.

Definition u8 (x : Z) : Z := x mod 2 ^ 8.
Definition u16 (x : Z) : Z := x mod 2 ^ 16.
Definition u32 (x : Z) : Z := x mod 2 ^ 32.
Definition u64 (x : Z) : Z := x mod 2 ^ 64.

(** Two's-complement reading of the low bits: conversion to [short], [int]
    and [long long]. *)
Definition s16 (x : Z) : Z := (x + 2 ^ 15) mod 2 ^ 16 - 2 ^ 15.
Definition s32 (x : Z) : Z := (x + 2 ^ 31) mod 2 ^ 32 - 2 ^ 31.
Definition s64 (x : Z) : Z := (x + 2 ^ 63) mod 2 ^ 64 - 2 ^ 63.

Definition U32_MAX : Z := 2 ^ 32 - 1.
Definition INT_MAX : Z := 2 ^ 31 - 1.

Definition not32 (x : Z) : Z := Z.lxor x (Z.ones 32).
Definition shl32 (x n : Z) : Z := u32 (Z.shiftl x n).

Notation "a .& b" := (Z.land a b) (at level 40, left associativity) : c_scope.
Notation "a .^ b" := (Z.lxor a b) (at level 45, left associativity) : c_scope.
Notation "a .| b" := (Z.lor a b) (at level 48, left associativity) : c_scope.
Notation "a '.<<' n" := (shl32 a n) (at level 38, left associativity) : c_scope.
Notation "a '.>>' n" := (Z.shiftr a n) (at level 38, left associativity) : c_scope.
Notation ".~ a" := (not32 a) (at level 30, right associativity) : c_scope.

(** C truth value of an integer. *)
Definition truthy (x : Z) : bool := negb (x =? 0).
Definition of_bool (b : bool) : Z := if b then 1 else 0.

(** Values that fit in an unsigned word. *)
Definition is_u32 (x : Z) : Prop := 0 <= x < 2 ^ 32.

(** Error numbers ([include/asm-generic/errno-base.h], [errno.h]). *)
Definition EPERM : Z := 1.
Definition ENOENT : Z := 2.
Definition EIO : Z := 5.
Definition E2BIG : Z := 7.
Definition EAGAIN : Z := 11.
Definition ENOMEM : Z := 12.
Definition EACCES : Z := 13.
Definition EFAULT : Z := 14.
Definition EBUSY : Z := 16.
Definition EINVAL : Z := 22.
Definition ENOSPC : Z := 28.
Definition ERANGE : Z := 34.
Definition EIDRM : Z := 43.
Definition EOVERFLOW : Z := 75.

(** ** Undefined behaviour and partial correctness

    Code that touches arrays runs in the option monad: [None] stands for an
    access outside the array (or, in a loop, for fuel that ran out), so a
    theorem [wp m Q] says that [m] is defined, terminates, and its result
    satisfies [Q]. *)

Definition wp {A} (m : option A) (Q : A -> Prop) : Prop :=
  match m with Some a => Q a | None => False end.

Lemma wp_bind {A B} (m : option A) (f : A -> option B) (Q : B -> Prop) :
  wp m (fun a => wp (f a) Q) -> wp (m ≫= f) Q.
Proof. by destruct m. Qed.

Lemma wp_mono {A} (m : option A) (P Q : A -> Prop) :
  wp m P -> (forall a, P a -> Q a) -> wp m Q.
Proof. destruct m; simpl; auto. Qed.

(** As a rewrite rule: unlike reduction it does not look into the rest of the
    computation. *)
Lemma bind_Some_eq {A B} (f : A -> option B) (x : A) : (Some x ≫= f) = f x.
Proof. done. Qed.

Lemma wp_elim {A} (m : option A) (Q : A -> Prop) :
  wp m Q -> exists a, m = Some a /\ Q a.
Proof. destruct m; simpl; [eauto | done]. Qed.

Lemma wp_intro {A} (m : option A) (a : A) (Q : A -> Prop) :
  m = Some a -> Q a -> wp m Q.
Proof. by intros ->. Qed.

(** [int] arithmetic: a result outside the range of [int] is undefined, and so
    is a shift by a negative count or by the width. *)
Definition c_int (x : Z) : option Z :=
  if (- 2 ^ 31 <=? x) && (x <=? INT_MAX) then Some x else None.

Definition int_shl (x n : Z) : option Z :=
  if (0 <=? n) && (n <? 32) then c_int (Z.shiftl x n) else None.

Lemma c_int_Some x : - 2 ^ 31 <= x <= INT_MAX -> c_int x = Some x.
Proof. intros [H1 H2]. unfold c_int. by rewrite (proj2 (Z.leb_le _ _) H1), (proj2 (Z.leb_le _ _) H2). Qed.

Lemma int_shl_1 n : 0 <= n <= 30 -> int_shl 1 n = Some (2 ^ n).
Proof.
  intros Hn. unfold int_shl. rewrite (proj2 (Z.leb_le 0 n)), (proj2 (Z.ltb_lt n 32)) by lia. simpl.
  rewrite Z.shiftl_mul_pow2, Z.mul_1_l by lia. apply c_int_Some.
  pose proof (Z.pow_le_mono_r 2 n 30 ltac:(lia) ltac:(lia)). pose proof (Z.pow_nonneg 2 n).
  unfold INT_MAX. lia.
Qed.

(** ** Arrays indexed by C integers *)

Definition arr_get {A} (a : list A) (i : Z) : option A :=
  if 0 <=? i then a !! Z.to_nat i else None.

Definition arr_set {A} (a : list A) (i : Z) (x : A) : option (list A) :=
  if (0 <=? i) && (i <? Z.of_nat (length a)) then Some (<[Z.to_nat i := x]> a)
  else None.

(** Total read used in specifications. *)
Definition zth (a : list Z) (i : Z) : Z := default 0 (arr_get a i).

Lemma arr_get_Some {A} (a : list A) i :
  0 <= i < Z.of_nat (length a) -> exists x, arr_get a i = Some x.
Proof.
  intros [H1 H2]. unfold arr_get. rewrite (proj2 (Z.leb_le 0 i) H1).
  apply lookup_lt_is_Some. lia.
Qed.

Lemma arr_get_range {A} (a : list A) i x :
  arr_get a i = Some x -> 0 <= i < Z.of_nat (length a).
Proof.
  unfold arr_get. destruct (Z.leb_spec 0 i); [|done].
  intros Hx%lookup_lt_Some. lia.
Qed.

Lemma arr_get_zth a i :
  0 <= i < Z.of_nat (length a) -> arr_get a i = Some (zth a i).
Proof. intros H. unfold zth. by destruct (arr_get_Some a i H) as [x ->]. Qed.

Lemma arr_set_Some {A} (a : list A) i x :
  0 <= i < Z.of_nat (length a) -> arr_set a i x = Some (<[Z.to_nat i := x]> a).
Proof.
  intros [H1 H2]. unfold arr_set.
  by rewrite (proj2 (Z.leb_le 0 i) H1), (proj2 (Z.ltb_lt i _) H2).
Qed.

Lemma arr_get_insert_eq {A} (a : list A) i x :
  0 <= i < Z.of_nat (length a) -> arr_get (<[Z.to_nat i := x]> a) i = Some x.
Proof.
  intros [H1 H2]. unfold arr_get. rewrite (proj2 (Z.leb_le 0 i) H1).
  apply list_lookup_insert_eq. lia.
Qed.

Lemma arr_get_insert_ne {A} (a : list A) i j x :
  0 <= i -> i <> j -> arr_get (<[Z.to_nat i := x]> a) j = arr_get a j.
Proof.
  intros Hi Hne. unfold arr_get. destruct (Z.leb_spec 0 j); [|done].
  apply list_lookup_insert_ne. lia.
Qed.

Lemma zth_insert_eq a i x :
  0 <= i < Z.of_nat (length a) -> zth (<[Z.to_nat i := x]> a) i = x.
Proof. intros H. unfold zth. by rewrite arr_get_insert_eq. Qed.

Lemma zth_insert_ne a i j x :
  0 <= i -> i <> j -> zth (<[Z.to_nat i := x]> a) j = zth a j.
Proof. intros H1 H2. unfold zth. by rewrite arr_get_insert_ne. Qed.

Lemma arr_get_nat {A} (l : list A) k : arr_get l (Z.of_nat k) = l !! k.
Proof. unfold arr_get. rewrite (proj2 (Z.leb_le 0 _)) by lia. by rewrite Nat2Z.id. Qed.

Lemma arr_get_lookup {A} (l : list A) i x : 0 <= i -> arr_get l i = Some x -> l !! Z.to_nat i = Some x.
Proof. intros Hi. unfold arr_get. by rewrite (proj2 (Z.leb_le 0 i)). Qed.

Lemma lookup_zth (l : list Z) i : 0 <= i < Z.of_nat (length l) -> l !! Z.to_nat i = Some (zth l i).
Proof. intros Hi. apply arr_get_lookup; [lia | by apply arr_get_zth]. Qed.

Lemma wp_get (a : list Z) i (Q : Z -> Prop) :
  0 <= i < Z.of_nat (length a) -> Q (zth a i) -> wp (arr_get a i) Q.
Proof. intros H HQ. by rewrite arr_get_zth. Qed.

Lemma wp_set {A} (a : list A) i x (Q : list A -> Prop) :
  0 <= i < Z.of_nat (length a) -> Q (<[Z.to_nat i := x]> a) ->
  wp (arr_set a i x) Q.
Proof. intros H HQ. by rewrite arr_set_Some. Qed.

(** ** Loops

    [c_loop] is a C loop whose body either continues ([inl]) or leaves the
    loop with a result ([inr]); [c_for] is a counted loop with early exit. *)

Fixpoint c_loop {S R} (fuel : nat) (body : S -> option (S + R)) (s : S) : option R :=
  match fuel with
  | O => None
  | Datatypes.S fuel =>
      match body s with
      | None => None
      | Some (inl s') => c_loop fuel body s'
      | Some (inr r) => Some r
      end
  end.

Fixpoint c_for_n {S R} (n : nat) (k : Z) (body : Z -> S -> option (S + R)) (s : S)
    : option (S + R) :=
  match n with
  | O => Some (inl s)
  | Datatypes.S n =>
      match body k s with
      | None => None
      | Some (inl s') => c_for_n n (k + 1) body s'
      | Some (inr r) => Some (inr r)
      end
  end.

(** [for (k = lo; k < hi; k++) body]. *)
Definition c_for {S R} (lo hi : Z) (body : Z -> S -> option (S + R)) (s : S)
    : option (S + R) :=
  c_for_n (Z.to_nat (hi - lo)) lo body s.

(** A counted loop without early exit. *)
Definition c_for_all {S} (lo hi : Z) (body : Z -> S -> option S) (s : S) : option S :=
  r ← c_for lo hi (fun k s => s' ← body k s; Some (@inl S Empty_set s')) s;
  match r with inl s' => Some s' | inr e => match e : Empty_set with end end.

Lemma c_loop_inv {S R} (I : S -> Prop) (m : S -> Z) (Q : R -> Prop)
    (body : S -> option (S + R)) :
  (forall s, I s -> 0 <= m s) ->
  (forall s, I s ->
     wp (body s) (fun x => match x with
                           | inl s' => I s' /\ m s' < m s
                           | inr r => Q r end)) ->
  forall fuel s, I s -> m s < Z.of_nat fuel -> wp (c_loop fuel body s) Q.
Proof.
  intros Hpos Hstep fuel. induction fuel as [|fuel IH]; intros s Hs Hm; simpl.
  - specialize (Hpos s Hs). lia.
  - specialize (Hstep s Hs). destruct (body s) as [[s'|r]|]; simpl in *; [|done..].
    destruct Hstep as [HI Hlt]. apply IH; [done | lia].
Qed.

(** A loop whose states are known: [f k] after [k] iterations, and [n] of them. *)
Lemma c_loop_trace {S R} (n : nat) (f : nat -> S) (body : S -> option (S + R)) s r fuel :
  s = f 0%nat -> (forall k, (k < n)%nat -> body (f k) = Some (inl (f (Datatypes.S k)))) ->
  body (f n) = Some (inr r) -> (n < fuel)%nat -> c_loop fuel body s = Some r.
Proof.
  intros -> Hstep Hend. revert f Hstep Hend fuel. induction n as [|n IH]; intros f Hstep Hend [|fuel] Hf; try lia.
  - simpl. by rewrite Hend.
  - simpl. rewrite (Hstep 0%nat) by lia. apply (IH (fun k => f (Datatypes.S k))); [|done|lia].
    intros k Hk. apply Hstep. lia.
Qed.

Lemma c_for_inv {S R} (I : Z -> S -> Prop) (Q : R -> Prop)
    (body : Z -> S -> option (S + R)) lo hi s :
  lo <= hi -> I lo s ->
  (forall k s, lo <= k < hi -> I k s ->
     wp (body k s) (fun x => match x with
                             | inl s' => I (k + 1) s'
                             | inr r => Q r end)) ->
  wp (c_for lo hi body s) (fun x => match x with
                                    | inl s' => I hi s'
                                    | inr r => Q r end).
Proof.
  intros Hle HI Hstep. unfold c_for.
  remember (Z.to_nat (hi - lo)) as n eqn:Hn.
  revert lo s Hle HI Hn Hstep.
  induction n as [|n IH]; intros lo s Hle HI Hn Hstep; simpl.
  - replace hi with lo by lia. done.
  - pose proof (Hstep lo s ltac:(lia) HI) as Hb.
    destruct (body lo s) as [[s'|r]|]; simpl in *; [|done..].
    apply IH; [lia | done | lia |]. intros k s0 Hk. apply Hstep. lia.
Qed.

Lemma c_for_all_inv {S} (I : Z -> S -> Prop) (body : Z -> S -> option S) lo hi s :
  lo <= hi -> I lo s ->
  (forall k s, lo <= k < hi -> I k s -> wp (body k s) (I (k + 1))) ->
  wp (c_for_all lo hi body s) (I hi).
Proof.
  intros Hle HI Hstep. unfold c_for_all. apply wp_bind.
  eapply wp_mono; [eapply (c_for_inv I (fun _ => False)); [done..|]|].
  - intros k s0 Hk Hs. specialize (Hstep k s0 Hk Hs).
    destruct (body k s0); simpl in *; done.
  - intros [s'|[]]; simpl; done.
Qed.

(** Two loops whose bodies agree up to a translation of the exit value. *)
Lemma c_for_exit_map {S R R'} (h : R -> R') (body : Z -> S -> option (S + R))
    (body' : Z -> S -> option (S + R')) lo hi s :
  (forall k s, body' k s = sum_map id h <$> body k s) ->
  c_for lo hi body' s = sum_map id h <$> c_for lo hi body s.
Proof.
  intros Hb. unfold c_for. generalize (Z.to_nat (hi - lo)) as n. intros n.
  revert lo s. induction n as [|n IH]; intros lo s; simpl; [done|].
  rewrite Hb. destruct (body lo s) as [[s'|r]|]; simpl; [apply IH | done..].
Qed.

Lemma c_for_ext {S R} (body body' : Z -> S -> option (S + R)) lo hi s :
  (forall k s, body' k s = body k s) -> c_for lo hi body' s = c_for lo hi body s.
Proof.
  intros Hb. rewrite (c_for_exit_map id body body'); [by destruct (c_for _ _ _ _) as [[]|]|].
  intros k t. rewrite Hb. by destruct (body k t) as [[]|].
Qed.

Lemma arr_get_fmap {A B} (f : A -> B) (l : list A) i : arr_get (f <$> l) i = f <$> arr_get l i.
Proof. unfold arr_get. destruct (0 <=? i); [apply list_lookup_fmap | done]. Qed.

Lemma c_for_all_first_None {S} (body : Z -> S -> option S) lo hi s :
  lo < hi -> body lo s = None -> c_for_all lo hi body s = None.
Proof.
  intros Hlt Hb. unfold c_for_all, c_for. destruct (Z.to_nat (hi - lo)) eqn:E; [lia|].
  simpl. by rewrite Hb.
Qed.

(** ** Loops over all elements of an array

    [list_run] reads the elements in order with early exit; [map_run] also
    replaces each element as it is visited. *)

Fixpoint list_run {A S R} (f : Z -> A -> S -> S + R) (i : Z) (l : list A) (s : S) : S + R :=
  match l with
  | [] => inl s
  | x :: l => match f i x s with inl s' => list_run f (i + 1) l s' | inr r => inr r end
  end.

Fixpoint map_run {A S R} (f : Z -> A -> S -> (A * S) + R) (i : Z) (l : list A) (s : S)
    : (list A * S) + (list A * R) :=
  match l with
  | [] => inl ([], s)
  | x :: l =>
      match f i x s with
      | inr r => inr (x :: l, r)
      | inl (x', s') =>
          match map_run f (i + 1) l s' with
          | inl (l', s'') => inl (x' :: l', s'')
          | inr (l', r) => inr (x' :: l', r)
          end
      end
  end.

Lemma arr_get_middle {A} (pre l : list A) x :
  arr_get (pre ++ x :: l) (Z.of_nat (length pre)) = Some x.
Proof.
  unfold arr_get. rewrite (proj2 (Z.leb_le 0 _)) by lia. rewrite Nat2Z.id.
  by apply list_lookup_middle.
Qed.

Lemma arr_set_middle {A} (pre l : list A) x y :
  arr_set (pre ++ x :: l) (Z.of_nat (length pre)) y = Some (pre ++ y :: l).
Proof.
  rewrite arr_set_Some by (rewrite length_app; simpl; lia). f_equal.
  rewrite Nat2Z.id, insert_app_r_alt, Nat.sub_diag by lia. done.
Qed.

Lemma arr_get_off {A} (pre l : list A) k i : i = Z.of_nat (length pre) + Z.of_nat k ->
  arr_get (pre ++ l) i = l !! k.
Proof.
  intros ->. unfold arr_get. rewrite (proj2 (Z.leb_le 0 _)) by lia.
  rewrite lookup_app_r by lia. f_equal. lia.
Qed.

Lemma arr_set_off {A} (pre l : list A) k i x : i = Z.of_nat (length pre) + Z.of_nat k ->
  (k < length l)%nat -> arr_set (pre ++ l) i x = Some (pre ++ <[k := x]> l).
Proof.
  intros -> Hk. rewrite arr_set_Some by (rewrite length_app; lia). f_equal.
  rewrite insert_app_r_alt by lia. do 2 f_equal. lia.
Qed.

Lemma c_for_list_from {A S R} (f : Z -> A -> S -> S + R) (body : Z -> S -> option (S + R))
    (pre l : list A) s :
  (forall i x s, arr_get (pre ++ l) i = Some x -> body i s = Some (f i x s)) ->
  c_for (Z.of_nat (length pre)) (Z.of_nat (length (pre ++ l))) body s =
  Some (list_run f (Z.of_nat (length pre)) l s).
Proof.
  unfold c_for. rewrite length_app.
  replace (Z.to_nat _) with (length l) by lia.
  revert pre s. induction l as [|x l IH]; intros pre s Hbody; simpl; [done|].
  rewrite (Hbody _ x) by apply arr_get_middle. destruct (f _ x s) as [s'|r]; [|done].
  replace (Z.of_nat (length pre) + 1) with (Z.of_nat (length (pre ++ [x])))
    by (rewrite length_app; simpl; lia).
  apply IH. intros i y s0. rewrite <- app_assoc. apply Hbody.
Qed.

Lemma c_for_list {A S R} (f : Z -> A -> S -> S + R) (body : Z -> S -> option (S + R)) (l : list A) s :
  (forall i x s, arr_get l i = Some x -> body i s = Some (f i x s)) ->
  c_for 0 (Z.of_nat (length l)) body s = Some (list_run f 0 l s).
Proof. apply (c_for_list_from f body []). Qed.

Lemma c_for_map {A S R} (f : Z -> A -> S -> (A * S) + R)
    (body : Z -> list A * S -> option ((list A * S) + (list A * R))) (l : list A) s :
  (forall i l x s, arr_get l i = Some x ->
     body i (l, s) = Some (match f i x s with
                           | inl (x', s') => inl (<[Z.to_nat i := x']> l, s')
                           | inr r => inr (l, r) end)) ->
  c_for 0 (Z.of_nat (length l)) body (l, s) = Some (map_run f 0 l s).
Proof.
  intros Hbody. unfold c_for. rewrite Z.sub_0_r, Nat2Z.id.
  enough (forall pre, c_for_n (length l) (Z.of_nat (length pre)) body (pre ++ l, s) =
    Some (match map_run f (Z.of_nat (length pre)) l s with
          | inl (l', s') => inl (pre ++ l', s') | inr (l', r) => inr (pre ++ l', r) end)) as H.
  { specialize (H []). simpl in H. change (Z.of_nat 0) with 0 in H. rewrite H. by destruct (map_run f 0 l s) as [[l' s']|[l' r]]. }
  revert s. induction l as [|x l IH]; intros s pre; simpl; [done|].
  rewrite (Hbody _ _ x) by apply arr_get_middle.
  destruct (f _ x s) as [[x' s']|r]; [|done].
  rewrite Nat2Z.id, insert_app_r_alt, Nat.sub_diag by lia. simpl.
  replace (Z.of_nat (length pre) + 1) with (Z.of_nat (length (pre ++ [x'])))
    by (rewrite length_app; simpl; lia).
  replace (pre ++ x' :: l) with ((pre ++ [x']) ++ l) by by rewrite <- app_assoc.
  rewrite IH.
  destruct (map_run f _ l s') as [[l' s'']|[l' r]]; by rewrite <- app_assoc.
Qed.

(** Counted loops without early exit over an array, forwards and backwards. *)
Fixpoint opt_fold {A S} (f : A -> S -> option S) (l : list A) (s : S) : option S :=
  match l with
  | [] => Some s
  | x :: l => s' ← f x s; opt_fold f l s'
  end.

Lemma opt_fold_app {A S} (f : A -> S -> option S) l1 l2 s :
  opt_fold f (l1 ++ l2) s = (s' ← opt_fold f l1 s; opt_fold f l2 s').
Proof. revert s. induction l1 as [|x l1 IH]; intros s; simpl; [done|]. by destruct (f x s); simpl. Qed.

(** A loop that overwrites the elements of [old] with those of [vals]. *)
Lemma c_for_all_fill {A} (vals pre old suf : list A) (body : Z -> list A -> option (list A)) lo hi :
  lo = Z.of_nat (length pre) -> hi = lo + Z.of_nat (length vals) -> length old = length vals ->
  (forall k a x, vals !! k = Some x -> body (lo + Z.of_nat k) a = arr_set a (lo + Z.of_nat k) x) ->
  c_for_all lo hi body (pre ++ old ++ suf) = Some (pre ++ vals ++ suf).
Proof.
  intros -> -> Hl Hbody.
  set (lo := Z.of_nat (length pre)) in *.
  destruct (wp_elim (c_for_all lo (lo + Z.of_nat (length vals)) body (pre ++ old ++ suf))
    (fun a => a = pre ++ vals ++ suf)) as (r & -> & ->); [|done].
  eapply wp_mono; [apply (c_for_all_inv
    (fun i a => a = pre ++ take (Z.to_nat (i - lo)) vals ++ drop (Z.to_nat (i - lo)) old ++ suf)); [lia|..]|].
  - by rewrite Z.sub_diag.
  - intros i a Hi ->. remember (Z.to_nat (i - lo)) as k eqn:Hk. assert (i = lo + Z.of_nat k) as -> by lia.
    destruct (lookup_lt_is_Some_2 vals k) as [x Hx]; [lia|].
    destruct (lookup_lt_is_Some_2 old k) as [y Hy]; [lia|].
    rewrite (Hbody k _ x Hx), (drop_S old y k Hy).
    replace (Z.to_nat (lo + Z.of_nat k + 1 - lo)) with (S k) by lia.
    rewrite (take_S_r vals k x Hx), (app_assoc pre (take k vals)). cbn [app].
    rewrite (arr_set_off (pre ++ take k vals) _ 0) by (rewrite ?length_app, ?length_take; simpl; lia).
    cbn [insert list_insert wp]. by rewrite <- !app_assoc.
  - intros a ->. replace (Z.to_nat (lo + Z.of_nat (length vals) - lo)) with (length vals) by lia.
    by rewrite take_ge, drop_ge by lia.
Qed.

Lemma c_for_all_list {A S} (f : A -> S -> option S) (body : Z -> S -> option S) (l : list A) s :
  (forall i x s, arr_get l i = Some x -> body i s = f x s) ->
  c_for_all 0 (Z.of_nat (length l)) body s = opt_fold f l s.
Proof.
  intros Hbody. unfold c_for_all, c_for. rewrite Z.sub_0_r, Nat2Z.id.
  enough (forall l' pre s, l = pre ++ l' ->
    (r ← c_for_n (length l') (Z.of_nat (length pre))
           (fun k s => s' ← body k s; Some (@inl S Empty_set s')) s;
     match r with inl s' => Some s' | inr e => match e : Empty_set with end end) = opt_fold f l' s)
    as H by by apply (H l []).
  induction l' as [|x l' IH]; intros pre s0 ->; simpl; [done|].
  rewrite (Hbody _ x) by apply arr_get_middle. destruct (f x s0) as [s'|]; simpl; [|done].
  replace (Z.of_nat (length pre) + 1) with (Z.of_nat (length (pre ++ [x])))
    by (rewrite length_app; simpl; lia).
  apply IH. by rewrite <- app_assoc.
Qed.

Lemma arr_get_rev {A} (l l2 : list A) i x : arr_get (rev l) i = Some x ->
  arr_get (l ++ l2) (Z.of_nat (length l) - 1 - i) = Some x.
Proof.
  intros H. pose proof (arr_get_range _ _ _ H) as Hr. rewrite length_rev in Hr.
  unfold arr_get in *. rewrite !(proj2 (Z.leb_le 0 _)) in * by lia.
  rewrite rev_alt in H. change (rev_append l []) with (reverse l) in H.
  rewrite reverse_lookup in H by lia. rewrite lookup_app_l by lia. rewrite <- H. f_equal. lia.
Qed.

Lemma c_for_all_rev {A S} (f : A -> S -> option S) (body : Z -> S -> option S) (l l2 : list A) s :
  (forall i x s, arr_get (l ++ l2) (Z.of_nat (length l) - 1 - i) = Some x -> body i s = f x s) ->
  c_for_all 0 (Z.of_nat (length l)) body s = opt_fold f (rev l) s.
Proof.
  intros Hbody. rewrite <- (length_rev l). apply c_for_all_list.
  intros i x s0 Hx. apply Hbody. by apply arr_get_rev.
Qed.

(** ** Bit-level lemmas *)

Create HintDb bits discriminated.

Lemma testbit_u32 x i : 0 <= i < 32 -> Z.testbit (u32 x) i = Z.testbit x i.
Proof. intros. apply Z.mod_pow2_bits_low. lia. Qed.

Lemma testbit_u32_high x i : 32 <= i -> Z.testbit (u32 x) i = false.
Proof. intros. apply Z.mod_pow2_bits_high. lia. Qed.

Lemma u32_range x : is_u32 (u32 x).
Proof. apply Z.mod_pos_bound. lia. Qed.

Lemma u32_small x : is_u32 x -> u32 x = x.
Proof. intros. by apply Z.mod_small. Qed.

Lemma testbit_above x w i : 0 <= x < 2 ^ w -> 0 <= w <= i -> Z.testbit x i = false.
Proof.
  intros Hx Hi. rewrite <- (Z.mod_small x (2 ^ w)) by done.
  apply Z.mod_pow2_bits_high. lia.
Qed.

Lemma is_u32_testbit x :
  is_u32 x <-> 0 <= x /\ forall i, 32 <= i -> Z.testbit x i = false.
Proof.
  split.
  - intros H. split; [apply H|]. intros i Hi. apply (testbit_above x 32); [done|lia].
  - intros [H0 Hb]. split; [done|].
    rewrite <- (Z.mod_small x (2 ^ (Z.max 32 (Z.log2 x + 1)))).
    + replace (x mod 2 ^ Z.max 32 (Z.log2 x + 1)) with (x mod 2 ^ 32).
      * apply Z.mod_pos_bound. lia.
      * apply Z.bits_inj'. intros i Hi.
        destruct (Z.lt_ge_cases i 32).
        -- rewrite !Z.mod_pow2_bits_low by lia. done.
        -- rewrite Z.mod_pow2_bits_high by lia.
           destruct (Z.lt_ge_cases i (Z.max 32 (Z.log2 x + 1))).
           ++ rewrite Z.mod_pow2_bits_low by lia. by rewrite Hb.
           ++ by rewrite Z.mod_pow2_bits_high by lia.
    + split; [done|]. destruct (Z.eq_dec x 0) as [->|].
      { apply Z.pow_pos_nonneg; lia. }
      pose proof (Z.log2_spec x ltac:(lia)) as [_ Hl].
      eapply Z.lt_le_trans; [exact Hl|]. apply Z.pow_le_mono_r; lia.
Qed.

Lemma testbit_not32 x i : 0 <= i < 32 -> Z.testbit (not32 x) i = negb (Z.testbit x i).
Proof.
  intros. unfold not32. rewrite Z.lxor_spec, Z.ones_spec_low by lia. by destruct Z.testbit.
Qed.

Lemma testbit_shl32 x n i :
  0 <= i < 32 -> Z.testbit (shl32 x n) i = Z.testbit x (i - n).
Proof. intros. unfold shl32. rewrite testbit_u32 by lia. by rewrite Z.shiftl_spec by lia. Qed.

Lemma is_u32_land_l x y : is_u32 x -> 0 <= y -> is_u32 (Z.land x y).
Proof.
  rewrite !is_u32_testbit. intros [Hx Hb] Hy. split; [apply Z.land_nonneg; lia|].
  intros i Hi. by rewrite Z.land_spec, Hb.
Qed.

Lemma is_u32_land x y : is_u32 x -> is_u32 y -> is_u32 (Z.land x y).
Proof. intros ? [??]. by apply is_u32_land_l. Qed.

Lemma is_u32_lor x y : is_u32 x -> is_u32 y -> is_u32 (Z.lor x y).
Proof.
  rewrite !is_u32_testbit. intros [Hx Hb] [Hy Hc].
  split; [apply Z.lor_nonneg; lia|]. intros i Hi. by rewrite Z.lor_spec, Hb, Hc.
Qed.

Lemma is_u32_lxor x y : is_u32 x -> is_u32 y -> is_u32 (Z.lxor x y).
Proof.
  rewrite !is_u32_testbit. intros [Hx Hb] [Hy Hc].
  split; [apply Z.lxor_nonneg; lia|]. intros i Hi. by rewrite Z.lxor_spec, Hb, Hc.
Qed.

Lemma is_u32_shiftr x n : is_u32 x -> 0 <= n -> is_u32 (Z.shiftr x n).
Proof.
  rewrite !is_u32_testbit. intros [Hx Hb] Hn. split; [by apply Z.shiftr_nonneg|].
  intros i Hi. rewrite Z.shiftr_spec by lia. apply Hb. lia.
Qed.

Lemma is_u32_ones : is_u32 (Z.ones 32).
Proof. done. Qed.

Lemma is_u32_not32 x : is_u32 x -> is_u32 (not32 x).
Proof. intros. apply is_u32_lxor; [done | apply is_u32_ones]. Qed.

Lemma is_u32_shl32 x n : is_u32 (shl32 x n).
Proof. apply u32_range. Qed.

#[export] Hint Resolve u32_range is_u32_land is_u32_lor is_u32_lxor is_u32_shiftr
  is_u32_not32 is_u32_shl32 is_u32_ones : bits.

(** Two words are equal when their 32 bits are. *)
Lemma u32_ext x y :
  is_u32 x -> is_u32 y ->
  (forall i, 0 <= i < 32 -> Z.testbit x i = Z.testbit y i) -> x = y.
Proof.
  rewrite !is_u32_testbit. intros [Hx Hb] [Hy Hc] H. apply Z.bits_inj'. intros i Hi.
  destruct (Z.lt_ge_cases i 32); [by apply H | by rewrite Hb, Hc].
Qed.

Lemma u32_zero_iff x :
  is_u32 x -> x = 0 <-> forall i, 0 <= i < 32 -> Z.testbit x i = false.
Proof.
  intros Hx. split.
  - intros -> i _. apply Z.bits_0.
  - intros H. apply u32_ext; [done | done |]. intros i Hi. by rewrite H, Z.bits_0.
Qed.

Lemma truthy_false x : truthy x = false <-> x = 0.
Proof. unfold truthy. destruct (Z.eqb_spec x 0); simpl; split; congruence. Qed.

Lemma truthy_true x : truthy x = true <-> x <> 0.
Proof. unfold truthy. destruct (Z.eqb_spec x 0); simpl; split; congruence. Qed.

Lemma land_le_l a b : 0 <= a -> 0 <= Z.land a b <= a.
Proof.
  intros Ha. split; [apply Z.land_nonneg; by left|].
  assert (Z.land a b + Z.ldiff a b = a) as E.
  { rewrite Z.add_nocarry_lor.
    - apply Z.bits_inj'. intros i Hi. rewrite Z.lor_spec, Z.land_spec, Z.ldiff_spec. btauto.
    - apply Z.bits_inj'. intros i Hi. rewrite !Z.land_spec, Z.ldiff_spec, Z.bits_0. btauto. }
  assert (0 <= Z.ldiff a b) by (apply Z.ldiff_nonneg; by left). lia.
Qed.

Lemma land_le_r a b : 0 <= b -> 0 <= Z.land a b <= b.
Proof. intros Hb. rewrite Z.land_comm. by apply land_le_l. Qed.

(** ** Tactics *)

(** Turn boolean comparisons met in the goal or in a hypothesis into case
    distinctions on the corresponding propositions. *)
Ltac zcase :=
  match goal with
  | |- context [?a <? ?b] => destruct (Z.ltb_spec a b)
  | |- context [?a <=? ?b] => destruct (Z.leb_spec a b)
  | |- context [?a =? ?b] => destruct (Z.eqb_spec a b)
  end.

(** One step of symbolic execution of a monadic computation. *)
Ltac wp_step :=
  match goal with
  | |- wp (mbind _ _) _ => apply wp_bind
  | |- wp (arr_get _ _) _ => apply wp_get
  | |- wp (arr_set _ _ _) _ => apply wp_set
  | |- wp (Some _) _ => simpl
  end.

(** Close goals about [u32] of values known to be in range. *)
Ltac u32_simpl :=
  repeat match goal with
  | |- context [u32 ?x] => rewrite (u32_small x) by (unfold is_u32; lia)
  end.

Lemma c_loop_ext {S R} fuel (b1 b2 : S -> option (S + R)) s :
  (forall s, b1 s = b2 s) -> c_loop fuel b1 s = c_loop fuel b2 s.
Proof.
  intros H. revert s. induction fuel as [|fuel IH]; intros s; simpl; [done|].
  rewrite H. destruct (b2 s) as [[s'|r]|]; auto.
Qed.

Lemma arr_get_map {A B} (f : A -> B) (a : list A) i :
  arr_get (map f a) i = f <$> arr_get a i.
Proof. unfold arr_get. destruct (0 <=? i); [apply list_lookup_fmap | done]. Qed.

(** ** Exhaustive checks over small ranges *)

Lemma forallb_range (P : Z -> bool) n :
  forallb P (seqZ 0 n) = true -> forall a, 0 <= a < n -> P a = true.
Proof.
  intros H a Ha. rewrite forallb_forall in H. apply H.
  apply list_elem_of_In, elem_of_seqZ. lia.
Qed.

(** ** Counting *)

(** Number of indices in [lo, lo + n) where [P] holds. *)
Fixpoint count_bits (P : Z -> bool) (lo : Z) (n : nat) : Z :=
  match n with
  | O => 0
  | S n => of_bool (P lo) + count_bits P (lo + 1) n
  end.

Lemma count_bits_ext P Q lo n :
  (forall i, lo <= i < lo + Z.of_nat n -> P i = Q i) -> count_bits P lo n = count_bits Q lo n.
Proof.
  revert lo. induction n as [|n IH]; intros lo H; [done|]. cbn [count_bits].
  rewrite (H lo) by lia. f_equal. apply IH. intros i Hi. apply H. lia.
Qed.

Lemma count_bits_app P lo n m :
  count_bits P lo (n + m) = count_bits P lo n + count_bits P (lo + Z.of_nat n) m.
Proof.
  revert lo. induction n as [|n IH]; intros lo; cbn [count_bits Nat.add].
  - by replace (lo + Z.of_nat 0) with lo by lia.
  - rewrite IH. replace (lo + 1 + Z.of_nat n) with (lo + Z.of_nat (S n)) by lia. lia.
Qed.

Lemma count_bits_shift P lo k n :
  count_bits P (lo + k) n = count_bits (fun i => P (i + k)) lo n.
Proof.
  revert lo. induction n as [|n IH]; intros lo; [done|]. cbn [count_bits].
  rewrite <- IH. by replace (lo + k + 1) with (lo + 1 + k) by lia.
Qed.

Lemma count_bits_bounds P lo n : 0 <= count_bits P lo n <= Z.of_nat n.
Proof.
  revert lo. induction n as [|n IH]; intros lo; cbn [count_bits]; [lia|].
  specialize (IH (lo + 1)). unfold of_bool. destruct (P lo); lia.
Qed.

Lemma count_bits_none P lo n :
  (forall i, lo <= i < lo + Z.of_nat n -> P i = false) -> count_bits P lo n = 0.
Proof.
  intros H. rewrite (count_bits_ext P (fun _ => false)) by done. clear H. revert lo.
  induction n as [|n IH]; intros lo; [done|]. cbn [count_bits]. by rewrite IH.
Qed.

(** ** Early return

    [c_seq m k] runs a loop that may return from the function ([inr]) and
    otherwise continues with [k]. *)
Definition c_seq {S R} (m : option (S + R)) (k : S -> option R) : option R :=
  match m with
  | Some (inl s) => k s
  | Some (inr r) => Some r
  | None => None
  end.

Lemma wp_seq {S R} (m : option (S + R)) (k : S -> option R) (Q : R -> Prop) :
  wp m (fun x => match x with inl s => wp (k s) Q | inr r => Q r end) ->
  wp (c_seq m k) Q.
Proof. destruct m as [[s|r]|]; done. Qed.

(** A C function that returns 1 or 0 according to [P]. *)
Definition decides (P : Prop) (r : Z) : Prop := (r = 1 /\ P) \/ (r = 0 /\ ~ P).

Lemma decides_iff P Q r : (P <-> Q) -> decides P r -> decides Q r.
Proof. unfold decides. tauto. Qed.

(** Discharge the leading conjuncts of the goal that [tac] solves. *)
Tactic Notation "conj_by" tactic(tac) :=
  repeat match goal with |- _ /\ _ => split; [solve [tac]|] end.

(** Bounded search: either [P] fails on the whole range or some index
    satisfies it. *)
Lemma range_search (P : Z -> bool) lo hi :
  (forall i, lo <= i < hi -> P i = false) \/ (exists i, lo <= i < hi /\ P i = true).
Proof.
  destruct (existsb P (seqZ lo (hi - lo))) eqn:E.
  - right. apply existsb_exists in E as (i & Hin & Hi).
    apply list_elem_of_In, elem_of_seqZ in Hin. exists i. split; [lia | done].
  - left. intros i Hi. destruct (P i) eqn:Ei; [|done].
    assert (existsb P (seqZ lo (hi - lo)) = true) as E'; [|congruence].
    apply existsb_exists. exists i. split; [|done]. apply list_elem_of_In, elem_of_seqZ. lia.
Qed.

(** Side conditions about concrete data: the definitions registered in
    [concrete] are unfolded, what remains is linear arithmetic. *)
Create HintDb concrete.
#[export] Hint Unfold is_u32 : concrete.

Ltac concrete :=
  repeat (autounfold with concrete;
    match goal with
    | |- _ /\ _ => split
    | |- Forall _ _ => constructor
    end);
  first [lia | reflexivity | simpl; lia | vm_compute; intros; discriminate].

Lemma not32_sub x : is_u32 x -> not32 x = 2 ^ 32 - 1 - x.
Proof.
  intros [H1 H2]. unfold not32. assert (Z.log2 x < 32) as Hl by (destruct (Z.eq_dec x 0) as [->|]; [done|]; apply Z.log2_lt_pow2; lia).
  rewrite <- Z.ldiff_ones_l_low, <- Z.sub_nocarry_ldiff by (done || by apply Z.ldiff_ones_r_low). by rewrite Z.ones_equiv.
Qed.

(** Rounding down to a multiple of a power of two. *)
Lemma land_not32_mask x k : is_u32 x -> 0 <= k -> Z.land x (not32 (2 ^ k - 1)) = x - x mod 2 ^ k.
Proof.
  intros Hx Hk. transitivity (Z.ldiff x (Z.ones k)).
  - apply Z.bits_inj'. intros i Hi. rewrite Z.land_spec, Z.ldiff_spec, Z.ones_equiv, <- Z.sub_1_r.
    destruct (decide (i < 32)) as [Hlt|Hge]; [by rewrite testbit_not32 by lia|].
    apply is_u32_testbit in Hx as [_ Hx]. by rewrite Hx by lia.
  - rewrite Z.ldiff_ones_r, Z.shiftl_mul_pow2, Z.shiftr_div_pow2 by lia.
    pose proof (Z.pow_pos_nonneg 2 k ltac:(lia) Hk). rewrite (Z.mod_eq x) by lia. lia.
Qed.
