(* ===== verification/Bytes.v ===== *)
(** * Byte buffers

    A buffer is a list of bytes, each a number below 256.  Little-endian
    accesses ([le16_to_cpu], [le32_to_cpu], [cpu_to_le32] on a cast pointer),
    the words of a block, and the exclusive or of two buffers. *)

From S2P Require Import Prelude.
Open Scope c_scope.

(** Little-endian accesses to a byte buffer. *)
Definition get_le16 (b : list Z) (p : Z) : option Z :=
  b0 ← arr_get b p; b1 ← arr_get b (p + 1); Some (b0 + 256 * b1).
Definition get_le32 (b : list Z) (p : Z) : option Z :=
  lo ← get_le16 b p; hi ← get_le16 b (p + 2); Some (lo + 65536 * hi).
Definition put_le16 (b : list Z) (p v : Z) : option (list Z) :=
  b ← arr_set b p (v mod 256); arr_set b (p + 1) (v / 256 mod 256).
Definition put_le32 (b : list Z) (p v : Z) : option (list Z) :=
  b ← put_le16 b p (v mod 65536); put_le16 b (p + 2) (v / 65536 mod 65536).

(** The bytes of a value. *)
Definition le16_bytes (v : Z) : list Z := [v mod 256; v / 256 mod 256].
Definition le32_bytes (v : Z) : list Z :=
  le16_bytes (v mod 65536) ++ le16_bytes (v / 65536 mod 65536).

Lemma put_le16_off pre a b suf p v : p = Z.of_nat (length pre) ->
  put_le16 (pre ++ a :: b :: suf) p v = Some (pre ++ le16_bytes v ++ suf).
Proof.
  intros ->. unfold put_le16.
  rewrite (arr_set_off _ _ 0) by (simpl; lia). simpl.
  rewrite (arr_set_off _ _ 1) by (simpl; lia). done.
Qed.

Lemma put_le32_off pre a b c d suf p v : p = Z.of_nat (length pre) ->
  put_le32 (pre ++ a :: b :: c :: d :: suf) p v = Some (pre ++ le32_bytes v ++ suf).
Proof.
  intros ->. unfold put_le32. rewrite put_le16_off by done. cbn [mbind option_bind].
  replace (pre ++ le16_bytes (v mod 65536) ++ c :: d :: suf)
    with ((pre ++ le16_bytes (v mod 65536)) ++ c :: d :: suf) by by rewrite <- app_assoc.
  rewrite put_le16_off by (rewrite length_app; simpl; lia). by rewrite <- !app_assoc.
Qed.

Lemma get_le16_off pre v suf p : p = Z.of_nat (length pre) -> 0 <= v < 2 ^ 16 ->
  get_le16 (pre ++ le16_bytes v ++ suf) p = Some v.
Proof.
  intros -> Hv. unfold get_le16. rewrite (arr_get_off pre _ 0 (Z.of_nat (length pre))) by lia. simpl.
  rewrite (arr_get_off pre _ 1) by (simpl; lia). simpl. f_equal. Z.div_mod_to_equations. lia.
Qed.

Lemma get_le32_off pre v suf p : p = Z.of_nat (length pre) -> is_u32 v ->
  get_le32 (pre ++ le32_bytes v ++ suf) p = Some v.
Proof.
  intros -> Hv. unfold get_le32, le32_bytes, is_u32 in *.
  rewrite <- app_assoc, (get_le16_off pre _ _ (Z.of_nat (length pre)))
    by first [done | Z.div_mod_to_equations; lia]. cbn [mbind option_bind].
  rewrite app_assoc, get_le16_off.
  - simpl. f_equal. Z.div_mod_to_equations. lia.
  - rewrite length_app. simpl. lia.
  - Z.div_mod_to_equations. lia.
Qed.


(** ** Bytes and words *)

Definition is_byte (x : Z) : Prop := 0 <= x < 256.

(** A buffer of [n] bytes. *)
Definition block (n : nat) (b : list Z) : Prop := length b = n /\ Forall is_byte b.

Lemma land_lxor_distr x y m : Z.land (x .^ y) m = Z.land x m .^ Z.land y m.
Proof.
  apply Z.bits_inj'. intros i Hi. rewrite !Z.land_spec, !Z.lxor_spec, !Z.land_spec.
  by destruct (Z.testbit x i), (Z.testbit y i), (Z.testbit m i).
Qed.

Lemma is_byte_land x : is_byte (Z.land x 255).
Proof. unfold is_byte. change 255 with (Z.ones 8). rewrite Z.land_ones by lia. by apply Z.mod_pos_bound. Qed.

Lemma byte_land x : is_byte x -> Z.land x 255 = x.
Proof. unfold is_byte. intros Hx. change 255 with (Z.ones 8). rewrite Z.land_ones by lia. apply Z.mod_small. lia. Qed.

Lemma is_byte_lxor x y : is_byte x -> is_byte y -> is_byte (x .^ y).
Proof. intros Hx Hy. rewrite <- (byte_land x Hx), <- (byte_land y Hy), <- land_lxor_distr. apply is_byte_land. Qed.

Lemma le32_bytes_eq v : is_u32 v -> le32_bytes v =
  [Z.land v 255; Z.land (Z.shiftr v 8) 255; Z.land (Z.shiftr v 16) 255; Z.land (Z.shiftr v 24) 255].
Proof.
  intros Hv. unfold le32_bytes, le16_bytes, is_u32 in *. change 255 with (Z.ones 8).
  rewrite !Z.land_ones, !Z.shiftr_div_pow2 by lia.
  change (2 ^ 8) with 256. change (2 ^ 16) with 65536. change (2 ^ 24) with 16777216. simpl.
  repeat (apply (f_equal2 cons); [Z.div_mod_to_equations; lia|]). done.
Qed.

Lemma length_le32_bytes v : length (le32_bytes v) = 4%nat.
Proof. done. Qed.

Lemma le32_bytes_byte v : Forall is_byte (le32_bytes v).
Proof.
  unfold le32_bytes, le16_bytes, is_byte. simpl.
  repeat constructor; Z.div_mod_to_equations; lia.
Qed.

Lemma block_le32 v : block 4 (le32_bytes v).
Proof. split; [done | apply le32_bytes_byte]. Qed.

Lemma le32_of_bytes a b c d : Forall is_byte [a; b; c; d] -> exists v, is_u32 v /\ [a; b; c; d] = le32_bytes v.
Proof.
  intros H. rewrite !Forall_cons_iff in H. unfold is_byte in H. exists (a + 256 * b + 65536 * (c + 256 * d)).
  split; [unfold is_u32; lia|]. unfold le32_bytes, le16_bytes. simpl.
  repeat (apply (f_equal2 cons); [Z.div_mod_to_equations; lia|]). done.
Qed.

Lemma le32_bytes_inj x y : is_u32 x -> is_u32 y -> le32_bytes x = le32_bytes y -> x = y.
Proof.
  unfold is_u32, le32_bytes, le16_bytes. simpl. intros Hx Hy [= H1 H2 H3 H4]. Z.div_mod_to_equations. lia.
Qed.

(** A buffer whose length is a multiple of four is a sequence of words. *)
Lemma block_words n b : block (4 * n) b ->
  exists ws, length ws = n /\ Forall is_u32 ws /\ b = concat (map le32_bytes ws).
Proof.
  revert b. induction n as [|n IH]; intros b [Hl Hb].
  { exists []. by destruct b. }
  destruct b as [|x0 [|x1 [|x2 [|x3 b]]]]; simpl in Hl; try lia.
  apply (Forall_app _ [x0; x1; x2; x3] b) in Hb as [H4 Hb].
  destruct (le32_of_bytes _ _ _ _ H4) as (w & Hw & E).
  destruct (IH b) as (ws & Hn & Hws & ->); [split; [lia | done]|].
  exists (w :: ws). split; [simpl; lia|]. split; [by constructor|]. simpl map. cbn [concat]. by rewrite <- E.
Qed.

Lemma block_of_words ws : block (4 * length ws) (concat (map le32_bytes ws)).
Proof.
  induction ws as [|w ws [IHl IHb]]; [done|]. simpl map. cbn [concat]. split.
  - rewrite length_app, IHl. simpl. lia.
  - apply Forall_app. split; [apply le32_bytes_byte | done].
Qed.

(** ** Exclusive or *)

Definition xor_bytes (a b : list Z) : list Z := zip_with Z.lxor a b.

Lemma le32_xor x y : is_u32 x -> is_u32 y -> le32_bytes (x .^ y) = xor_bytes (le32_bytes x) (le32_bytes y).
Proof.
  intros Hx Hy. rewrite !le32_bytes_eq by auto using is_u32_lxor. unfold xor_bytes. simpl.
  by rewrite !Z.shiftr_lxor, !land_lxor_distr.
Qed.

Lemma length_words ws : length (concat (map le32_bytes ws)) = (4 * length ws)%nat.
Proof. apply block_of_words. Qed.

(** Reading a word of a buffer of words. *)
Lemma get_le32_words ws i w p : p = 4 * Z.of_nat i -> Forall is_u32 ws -> ws !! i = Some w ->
  get_le32 (concat (map le32_bytes ws)) p = Some w.
Proof.
  intros -> Hws Hi. pose proof (lookup_lt_Some _ _ _ Hi) as Hlt.
  assert (is_u32 w) as Hw by (rewrite Forall_forall in Hws; apply Hws, list_elem_of_In; by eapply list_elem_of_lookup_2).
  rewrite <- (take_drop_middle ws i w Hi), map_app, concat_app. cbn [map concat].
  apply get_le32_off; [|done]. rewrite length_words, length_take. lia.
Qed.

(** ** Reversing the bytes of a word *)

Definition swab32 (x : Z) : Z :=
  ((x .& 0x000000ff) .<< 24) .| ((x .& 0x0000ff00) .<< 8) .|
  ((x .& 0x00ff0000) .>> 8) .| ((x .& 0xff000000) .>> 24).

Lemma swab32_bytes x : is_u32 x -> is_u32 (swab32 x) /\ le32_bytes (swab32 x) = rev (le32_bytes x).
Proof.
  intros Hx. assert (is_u32 (swab32 x)) as Hs.
  { unfold swab32. repeat apply is_u32_lor; try apply is_u32_shl32; try apply is_u32_shiftr;
      try (apply is_u32_land_l; done); lia. }
  split; [done|]. rewrite !le32_bytes_eq by done. cbn [rev app].
  repeat apply (f_equal2 cons); try done.
  all: apply Z.bits_inj'; intros i Hi; rewrite !Z.land_spec.
  all: destruct (Z.ltb_spec i 8) as [Hlt|Hge];
    [|by rewrite (testbit_above 255 8 i), !andb_false_r by lia].
  all: unfold swab32; rewrite ?Z.shiftr_spec, !Z.lor_spec, !testbit_shl32, !Z.shiftr_spec, !Z.land_spec by lia.
  all: rewrite <- (Z2Nat.id i Hi); assert (Z.to_nat i < 8)%nat as Hk by lia; revert Hk.
  all: generalize (Z.to_nat i); intros k Hk; clear - Hk.
  all: do 8 (destruct k as [|k]; [simpl; by rewrite ?andb_true_r, ?andb_false_r, ?orb_false_r|]); lia.
Qed.
