(* ===== verification/Mem.v ===== *)
(** * Memory

    A flat memory of bytes with addresses as pointers, for the code that works
    through pointers into buffers that may be the same: a load of an address
    outside the memory is undefined.  [rd] and [wr] read and write a range;
    the lemmas say what a write leaves alone. *)

From S2P Require Import Prelude Bytes.
Open Scope c_scope.

Definition mem := list Z.

Definition rd (m : mem) (p n : Z) : list Z := take (Z.to_nat n) (drop (Z.to_nat p) m).
Definition wr (m : mem) (p : Z) (b : list Z) : mem :=
  take (Z.to_nat p) m ++ b ++ drop (Z.to_nat p + length b) m.

(** The size of a range, and of the memory. *)
Definition blen {A} (b : list A) : Z := Z.of_nat (length b).
Definition in_mem (m : mem) (p n : Z) : Prop := 0 <= p /\ 0 <= n /\ p + n <= blen m.
Definition disjoint (p n q k : Z) : Prop := p + n <= q \/ q + k <= p.

(** Equal loop states, component by component. *)
Ltac state_eq :=
  repeat match goal with
  | |- ?x = ?x => reflexivity
  | |- Some _ = Some _ => apply f_equal
  | |- inl _ = inl _ => apply f_equal
  | |- inr _ = inr _ => apply f_equal
  | |- (_, _) = (_, _) => apply (f_equal2 pair)
  end; try first [lia | reflexivity].

Lemma blen_nonneg {A} (b : list A) : 0 <= blen b.
Proof. unfold blen. lia. Qed.

Lemma blen_app {A} (a b : list A) : blen (a ++ b) = blen a + blen b.
Proof. unfold blen. rewrite length_app. lia. Qed.

Lemma blen_cons {A} (x : A) b : blen (x :: b) = 1 + blen b.
Proof. unfold blen. cbn [length]. lia. Qed.

Lemma blen_nil {A} : blen (@nil A) = 0.
Proof. done. Qed.

Lemma blen_rd m p n : in_mem m p n -> blen (rd m p n) = n.
Proof. unfold in_mem, blen, rd. intros (? & ? & ?). rewrite length_take, length_drop. lia. Qed.

Lemma blen_wr m p b : in_mem m p (blen b) -> blen (wr m p b) = blen m.
Proof. unfold in_mem, blen, wr. intros (? & ? & ?). rewrite !length_app, length_take, length_drop. lia. Qed.

Lemma in_mem_wr m p b q n : in_mem m p (blen b) -> in_mem (wr m p b) q n <-> in_mem m q n.
Proof. intros H. unfold in_mem. by rewrite (blen_wr m p b H). Qed.

(** ** Single bytes *)

Lemma arr_get_out {A} (m : list A) i : ~ 0 <= i < blen m -> arr_get m i = None.
Proof.
  intros H. unfold arr_get, blen in *. destruct (Z.leb_spec 0 i); [|done]. apply lookup_ge_None_2. lia.
Qed.

Lemma mem_ext {A} (a b : list A) : blen a = blen b -> (forall i, 0 <= i < blen a -> arr_get a i = arr_get b i) -> a = b.
Proof.
  intros Hl H. apply list_eq. intros k. unfold blen in *. destruct (decide (k < length a)%nat) as [Hk|Hk].
  - rewrite <- !arr_get_nat. apply H. lia.
  - by rewrite !lookup_ge_None_2 by lia.
Qed.

Lemma arr_get_rd m p n i : in_mem m p n -> 0 <= i < n -> arr_get (rd m p n) i = arr_get m (p + i).
Proof.
  intros (? & ? & ?) Hi. unfold rd, arr_get. rewrite !(proj2 (Z.leb_le 0 _)) by lia.
  rewrite lookup_take_lt, lookup_drop by lia. f_equal. lia.
Qed.

Lemma arr_get_wr_in m p b i : in_mem m p (blen b) -> p <= i < p + blen b -> arr_get (wr m p b) i = arr_get b (i - p).
Proof.
  unfold in_mem, blen. intros (? & ? & ?) Hi. unfold wr, arr_get. rewrite !(proj2 (Z.leb_le 0 _)) by lia.
  assert (length (take (Z.to_nat p) m) = Z.to_nat p) as Hl by (rewrite length_take; lia).
  rewrite lookup_app_r, lookup_app_l by (rewrite ?Hl; lia). f_equal. rewrite Hl. lia.
Qed.

Lemma arr_get_wr_out m p b i : in_mem m p (blen b) -> ~ p <= i < p + blen b -> arr_get (wr m p b) i = arr_get m i.
Proof.
  unfold in_mem, blen. intros (? & ? & ?) Hi. unfold wr, arr_get. destruct (Z.leb_spec 0 i); [|done].
  assert (length (take (Z.to_nat p) m) = Z.to_nat p) as Hl by (rewrite length_take; lia).
  destruct (Z.ltb_spec i p).
  - by rewrite lookup_app_l, lookup_take_lt by lia.
  - rewrite lookup_app_r, lookup_app_r, lookup_drop by (rewrite ?Hl; lia). f_equal. rewrite Hl. lia.
Qed.

Lemma arr_get_app {A} (a b : list A) i :
  arr_get (a ++ b) i = if i <? blen a then arr_get a i else arr_get b (i - blen a).
Proof.
  unfold arr_get, blen. destruct (Z.ltb_spec i (Z.of_nat (length a))).
  - destruct (Z.leb_spec 0 i); [|done]. by rewrite lookup_app_l by lia.
  - rewrite !(proj2 (Z.leb_le 0 _)), lookup_app_r by lia. f_equal. lia.
Qed.

(** Reading and writing one byte. *)
Lemma arr_set_wr m p v : in_mem m p 1 -> arr_set m p v = Some (wr m p [v]).
Proof.
  unfold in_mem, blen. intros (? & ? & ?). rewrite arr_set_Some by lia. f_equal. unfold wr.
  rewrite insert_take_drop by lia. cbn [app length]. do 3 f_equal. lia.
Qed.

Lemma arr_get_rd1 m p : in_mem m p 1 -> exists x, arr_get m p = Some x /\ rd m p 1 = [x].
Proof.
  unfold in_mem, blen. intros (? & ? & ?). destruct (lookup_lt_is_Some_2 m (Z.to_nat p)) as [x Hx]; [lia|].
  exists x. unfold arr_get, rd. rewrite (proj2 (Z.leb_le 0 _)), (drop_S _ _ _ Hx) by lia. done.
Qed.

(** ** Ranges *)

Ltac mem_len :=
  unfold disjoint in *; rewrite ?in_mem_wr in *;
  unfold in_mem in *; rewrite ?blen_app, ?blen_cons, ?blen_nil in *; rewrite ?blen_rd, ?blen_wr in *;
  unfold in_mem in *; try lia.

Lemma rd_wr_same m p b n : in_mem m p (blen b) -> n = blen b -> rd (wr m p b) p n = b.
Proof.
  intros H ->. assert (in_mem (wr m p b) p (blen b)) as H' by (by apply in_mem_wr).
  apply mem_ext; [by rewrite blen_rd|]. intros i Hi. rewrite blen_rd in Hi by done.
  rewrite arr_get_rd, arr_get_wr_in by (done || lia). f_equal. lia.
Qed.

Lemma rd_wr_other m p b q n : in_mem m p (blen b) -> in_mem m q n -> disjoint p (blen b) q n ->
  rd (wr m p b) q n = rd m q n.
Proof.
  intros H Hq Hd. assert (in_mem (wr m p b) q n) as H' by (by apply in_mem_wr).
  apply mem_ext; [by rewrite !blen_rd|]. intros i Hi. rewrite blen_rd in Hi by done.
  rewrite !arr_get_rd, arr_get_wr_out by (done || (unfold disjoint in *; lia)). done.
Qed.

Lemma rd_rd m p n q k : in_mem m p n -> 0 <= q -> 0 <= k -> q + k <= n -> rd (rd m p n) q k = rd m (p + q) k.
Proof.
  intros H Hq Hk Hn. assert (in_mem m (p + q) k) as H1 by (unfold in_mem in *; lia).
  assert (in_mem (rd m p n) q k) as H2 by (unfold in_mem in *; rewrite blen_rd by done; lia).
  apply mem_ext; [by rewrite !blen_rd|]. intros i Hi. rewrite blen_rd in Hi by done.
  rewrite !arr_get_rd by (done || lia). f_equal. lia.
Qed.

Lemma rd_app m p a b n : in_mem m p n -> 0 <= a -> 0 <= b -> n = a + b -> rd m p n = rd m p a ++ rd m (p + a) b.
Proof.
  intros H Ha Hb ->. assert (in_mem m p a /\ in_mem m (p + a) b) as [H1 H2] by (unfold in_mem in *; lia).
  apply mem_ext; [by rewrite blen_app, !blen_rd|]. intros i Hi. rewrite blen_rd in Hi by done.
  rewrite arr_get_app, blen_rd by done. destruct (Z.ltb_spec i a); rewrite !arr_get_rd by (done || lia); [done|].
  f_equal. lia.
Qed.

Lemma rd_0 m p : rd m p 0 = [].
Proof. done. Qed.

Lemma wr_nil m p : in_mem m p 0 -> wr m p [] = m.
Proof.
  intros H. apply mem_ext; [by apply blen_wr|]. intros i _. by rewrite arr_get_wr_out by (done || (rewrite blen_nil; lia)).
Qed.

Lemma wr_rd m p n : in_mem m p n -> wr m p (rd m p n) = m.
Proof.
  intros H. assert (in_mem m p (blen (rd m p n))) as H' by (by rewrite blen_rd).
  apply mem_ext; [by apply blen_wr|]. intros i Hi. destruct (decide (p <= i < p + n)) as [Hin|Hout].
  - rewrite arr_get_wr_in, arr_get_rd by (done || (rewrite ?blen_rd by done; lia)). f_equal. lia.
  - by rewrite arr_get_wr_out by (done || (rewrite ?blen_rd by done; lia)).
Qed.

Lemma wr_wr_same m p a b : in_mem m p (blen a) -> blen a = blen b -> wr (wr m p a) p b = wr m p b.
Proof.
  intros H Hl. assert (in_mem m p (blen b)) as Hb by (by rewrite <- Hl).
  assert (in_mem (wr m p a) p (blen b)) as H' by (by apply in_mem_wr).
  apply mem_ext; [by rewrite !blen_wr|]. intros i _. destruct (decide (p <= i < p + blen b)) as [Hin|Hout].
  - by rewrite !arr_get_wr_in by done.
  - rewrite !arr_get_wr_out by (done || (rewrite ?Hl; lia)). done.
Qed.

Lemma wr_comm m p a q b : in_mem m p (blen a) -> in_mem m q (blen b) -> disjoint p (blen a) q (blen b) ->
  wr (wr m p a) q b = wr (wr m q b) p a.
Proof.
  intros Ha Hb Hd. assert (in_mem (wr m p a) q (blen b)) as H1 by (by apply in_mem_wr).
  assert (in_mem (wr m q b) p (blen a)) as H2 by (by apply in_mem_wr). unfold disjoint in Hd.
  apply mem_ext; [by rewrite !blen_wr|]. intros i _.
  destruct (decide (p <= i < p + blen a)) as [Hp|Hp]; destruct (decide (q <= i < q + blen b)) as [Hq|Hq].
  - lia.
  - rewrite (arr_get_wr_in _ p a), (arr_get_wr_out _ q b), (arr_get_wr_in _ p a) by done. done.
  - rewrite (arr_get_wr_in _ q b), (arr_get_wr_out _ p a), (arr_get_wr_in _ q b) by done. done.
  - rewrite !arr_get_wr_out by done. done.
Qed.

Lemma wr_app m p a b q : in_mem m p (blen a + blen b) -> q = p + blen a ->
  wr (wr m p a) q b = wr m p (a ++ b).
Proof.
  intros H ->. pose proof (blen_nonneg a). pose proof (blen_nonneg b).
  assert (in_mem m p (blen a)) as Ha by (unfold in_mem in *; lia).
  assert (in_mem (wr m p a) (p + blen a) (blen b)) as Hb by (apply in_mem_wr; [done|]; unfold in_mem in *; lia).
  assert (in_mem m p (blen (a ++ b))) as Hab by (by rewrite blen_app).
  apply mem_ext; [by rewrite !blen_wr|]. intros i _.
  destruct (decide (p <= i < p + blen (a ++ b))) as [Hin|Hout].
  - rewrite blen_app in Hin. rewrite (arr_get_wr_in m p (a ++ b)), arr_get_app by (rewrite ?blen_app; done).
    destruct (Z.ltb_spec (i - p) (blen a)).
    + by rewrite arr_get_wr_out, arr_get_wr_in by (done || lia).
    + rewrite arr_get_wr_in by (done || lia). f_equal. lia.
  - rewrite blen_app in Hout. rewrite !arr_get_wr_out by (done || (rewrite ?blen_app; lia)). done.
Qed.

(** Part of a range that has been written. *)
Lemma rd_wr_sub m p b q n : in_mem m p (blen b) -> p <= q -> 0 <= n -> q + n <= p + blen b ->
  rd (wr m p b) q n = rd b (q - p) n.
Proof.
  intros H Hq Hn Hb. assert (in_mem (wr m p b) p (blen b)) as H' by (by apply in_mem_wr).
  rewrite <- (rd_wr_same m p b (blen b) H eq_refl) at 2. rewrite rd_rd by (done || lia). f_equal. lia.
Qed.
