(* ===== verification/Bitops.v ===== *)
(** * Bit operations

    [include/asm-generic/bitops/*.h] ([__ffs], [__fls], [fls], [ffz],
    [__set_bit], [test_bit], ...), [lib/find_next_bit.c],
    [lib/find_last_bit.c] and [lib/hweight.c].

    A C array of [unsigned long] is a [list Z] of words; [abit a i] is the
    i-th bit of such an array, and the searches are specified by [next_in]. *)

From S2P Require Import Prelude.
Open Scope c_scope.

(** ** Data and specification vocabulary *)

Definition ULONG_MAX : Z := Z.ones 32.
Definition BIT_WORD (nr : Z) : Z := nr / BITS_PER_LONG.
Definition BIT_MASK (nr : Z) : Z := 1 .<< (nr mod BITS_PER_LONG).
Definition BITS_TO_LONGS (nr : Z) : Z := (nr + BITS_PER_LONG - 1) / BITS_PER_LONG.

(** Every element is a machine word. *)
Definition words (a : list Z) : Prop := Forall is_u32 a.
#[export] Hint Unfold words : concrete.

Definition abit (a : list Z) (i : Z) : bool := Z.testbit (zth a (i / 32)) (i mod 32).

(** [r] is the first index of [lo, hi) where [P] holds, [hi] if there is none. *)
Definition next_in (P : Z -> bool) (lo hi r : Z) : Prop :=
  (hi <= lo /\ r = hi) \/
  (lo <= r <= hi /\ (forall i, lo <= i < r -> P i = false) /\ (r < hi -> P r = true)).

(** ** Definitions *)

(** One halving step of the searches: [if (!(word & mask)) { num += k; word >>= k; }]. *)
Definition __ffs (word : Z) : Z :=
  let num := 0 in
  let '(num, word) := if word .& 0xffff =? 0 then (num + 16, word .>> 16) else (num, word) in
  let '(num, word) := if word .& 0xff =? 0 then (num + 8, word .>> 8) else (num, word) in
  let '(num, word) := if word .& 0xf =? 0 then (num + 4, word .>> 4) else (num, word) in
  let '(num, word) := if word .& 0x3 =? 0 then (num + 2, word .>> 2) else (num, word) in
  if word .& 0x1 =? 0 then num + 1 else num.

Definition __fls (word : Z) : Z :=
  let num := BITS_PER_LONG - 1 in
  let '(num, word) :=
    if word .& (ULONG_MAX .<< (BITS_PER_LONG - 16)) =? 0 then (num - 16, word .<< 16) else (num, word) in
  let '(num, word) :=
    if word .& (ULONG_MAX .<< (BITS_PER_LONG - 8)) =? 0 then (num - 8, word .<< 8) else (num, word) in
  let '(num, word) :=
    if word .& (ULONG_MAX .<< (BITS_PER_LONG - 4)) =? 0 then (num - 4, word .<< 4) else (num, word) in
  let '(num, word) :=
    if word .& (ULONG_MAX .<< (BITS_PER_LONG - 2)) =? 0 then (num - 2, word .<< 2) else (num, word) in
  if word .& (ULONG_MAX .<< (BITS_PER_LONG - 1)) =? 0 then num - 1 else num.

Definition fls (x : Z) : Z :=
  let r := 32 in
  if x =? 0 then 0 else
  let '(x, r) := if x .& 0xffff0000 =? 0 then (x .<< 16, r - 16) else (x, r) in
  let '(x, r) := if x .& 0xff000000 =? 0 then (x .<< 8, r - 8) else (x, r) in
  let '(x, r) := if x .& 0xf0000000 =? 0 then (x .<< 4, r - 4) else (x, r) in
  let '(x, r) := if x .& 0xc0000000 =? 0 then (x .<< 2, r - 2) else (x, r) in
  if x .& 0x80000000 =? 0 then r - 1 else r.

Definition fls64 (x : Z) : Z :=
  let h := u32 (Z.shiftr x 32) in
  if truthy h then fls h + 32 else fls (u32 x).

Definition ffz (x : Z) : Z := __ffs (.~ x).

(** Non-atomic bit accesses.  [set_bit]/[clear_bit] of the sequential model
    are the same functions. *)
Definition __set_bit (nr : Z) (addr : list Z) : option (list Z) :=
  let mask := BIT_MASK nr in
  w ← arr_get addr (BIT_WORD nr);
  arr_set addr (BIT_WORD nr) (w .| mask).

Definition __clear_bit (nr : Z) (addr : list Z) : option (list Z) :=
  let mask := BIT_MASK nr in
  w ← arr_get addr (BIT_WORD nr);
  arr_set addr (BIT_WORD nr) (w .& .~ mask).

Definition __change_bit (nr : Z) (addr : list Z) : option (list Z) :=
  let mask := BIT_MASK nr in
  w ← arr_get addr (BIT_WORD nr);
  arr_set addr (BIT_WORD nr) (w .^ mask).

Definition __test_and_set_bit (nr : Z) (addr : list Z) : option (Z * list Z) :=
  let mask := BIT_MASK nr in
  old ← arr_get addr (BIT_WORD nr);
  addr' ← arr_set addr (BIT_WORD nr) (old .| mask);
  Some (of_bool (truthy (old .& mask)), addr').

Definition __test_and_clear_bit (nr : Z) (addr : list Z) : option (Z * list Z) :=
  let mask := BIT_MASK nr in
  old ← arr_get addr (BIT_WORD nr);
  addr' ← arr_set addr (BIT_WORD nr) (old .& .~ mask);
  Some (of_bool (truthy (old .& mask)), addr').

Definition __test_and_change_bit (nr : Z) (addr : list Z) : option (Z * list Z) :=
  let mask := BIT_MASK nr in
  old ← arr_get addr (BIT_WORD nr);
  addr' ← arr_set addr (BIT_WORD nr) (old .^ mask);
  Some (of_bool (truthy (old .& mask)), addr').

Definition test_bit (nr : Z) (addr : list Z) : option Z :=
  w ← arr_get addr (BIT_WORD nr);
  Some (1 .& (w .>> (nr .& (BITS_PER_LONG - 1)))).

(** [lib/hweight.c], where [unsigned int] arithmetic wraps.  [asm/bitops.h] of
    x86 defines [ARCH_HAS_FAST_MULTIPLIER], so the branch that sums the byte
    counts by one multiplication is the one compiled for i386;
    [__sw_hweight32_shifts] is the other branch of the [#ifdef]. *)
Definition __sw_hweight32 (w : Z) : Z :=
  let w := u32 (w - ((w .>> 1) .& 0x55555555)) in
  let w := u32 ((w .& 0x33333333) + ((w .>> 2) .& 0x33333333)) in
  let w := (u32 (w + (w .>> 4))) .& 0x0f0f0f0f in
  u32 (w * 0x01010101) .>> 24.

Definition __sw_hweight32_shifts (w : Z) : Z :=
  let res := u32 (w - ((w .>> 1) .& 0x55555555)) in
  let res := u32 ((res .& 0x33333333) + ((res .>> 2) .& 0x33333333)) in
  let res := (u32 (res + (res .>> 4))) .& 0x0F0F0F0F in
  let res := u32 (res + (res .>> 8)) in
  u32 (res + (res .>> 16)) .& 0x000000FF.

Definition __sw_hweight16 (w : Z) : Z :=
  let res := u32 (w - ((w .>> 1) .& 0x5555)) in
  let res := u32 ((res .& 0x3333) + ((res .>> 2) .& 0x3333)) in
  let res := (u32 (res + (res .>> 4))) .& 0x0F0F in
  u32 (res + (res .>> 8)) .& 0x00FF.

Definition __sw_hweight8 (w : Z) : Z :=
  let res := u32 (w - ((w .>> 1) .& 0x55)) in
  let res := u32 ((res .& 0x33) + ((res .>> 2) .& 0x33)) in
  u32 (res + (res .>> 4)) .& 0x0F.

Definition __sw_hweight64 (w : Z) : Z :=
  u32 (__sw_hweight32 (u32 (w .>> 32)) + __sw_hweight32 (u32 w)).

Definition hweight_long (w : Z) : Z := __sw_hweight32 w.

(** *** [lib/find_next_bit.c] *)

(** The label [found_first:] and what follows it in [find_next_bit]. *)
Definition find_next_bit_found_first (result size tmp : Z) : Z :=
  let tmp := tmp .& (ULONG_MAX .>> (BITS_PER_LONG - size)) in
  if tmp =? 0 then u32 (result + size) else u32 (result + __ffs tmp).

(** The [while] loop and the tail of [find_next_bit]. *)
Definition find_next_bit_scan (addr : list Z) (fuel : nat) (p result size : Z) : option Z :=
  c_loop fuel (fun '(p, result, size) =>
    if truthy (size .& .~ (BITS_PER_LONG - 1)) then
      tmp ← arr_get addr p;
      if truthy tmp then Some (inr (u32 (result + __ffs tmp)))
      else Some (inl (p + 1, u32 (result + BITS_PER_LONG), u32 (size - BITS_PER_LONG)))
    else if size =? 0 then Some (inr result)
    else
      tmp ← arr_get addr p;
      Some (inr (find_next_bit_found_first result size tmp)))
    (p, result, size).

Definition find_next_bit (addr : list Z) (size offset : Z) : option Z :=
  let p := BIT_WORD offset in
  let result := offset .& .~ (BITS_PER_LONG - 1) in
  if size <=? offset then Some size else
  let fuel := S (Z.to_nat (BIT_WORD size)) in
  let size := u32 (size - result) in
  let offset := offset mod BITS_PER_LONG in
  if truthy offset then
    tmp ← arr_get addr p;
    let tmp := tmp .& (ULONG_MAX .<< offset) in
    if size <? BITS_PER_LONG then Some (find_next_bit_found_first result size tmp)
    else if truthy tmp then Some (u32 (result + __ffs tmp))
    else find_next_bit_scan addr fuel (p + 1) (u32 (result + BITS_PER_LONG)) (u32 (size - BITS_PER_LONG))
  else find_next_bit_scan addr fuel p result size.

Definition find_next_zero_bit_found_first (result size tmp : Z) : Z :=
  let tmp := tmp .| (ULONG_MAX .<< size) in
  if tmp =? ULONG_MAX then u32 (result + size) else u32 (result + ffz tmp).

Definition find_next_zero_bit_scan (addr : list Z) (fuel : nat) (p result size : Z) : option Z :=
  c_loop fuel (fun '(p, result, size) =>
    if truthy (size .& .~ (BITS_PER_LONG - 1)) then
      tmp ← arr_get addr p;
      if truthy (.~ tmp) then Some (inr (u32 (result + ffz tmp)))
      else Some (inl (p + 1, u32 (result + BITS_PER_LONG), u32 (size - BITS_PER_LONG)))
    else if size =? 0 then Some (inr result)
    else
      tmp ← arr_get addr p;
      Some (inr (find_next_zero_bit_found_first result size tmp)))
    (p, result, size).

Definition find_next_zero_bit (addr : list Z) (size offset : Z) : option Z :=
  let p := BIT_WORD offset in
  let result := offset .& .~ (BITS_PER_LONG - 1) in
  if size <=? offset then Some size else
  let fuel := S (Z.to_nat (BIT_WORD size)) in
  let size := u32 (size - result) in
  let offset := offset mod BITS_PER_LONG in
  if truthy offset then
    tmp ← arr_get addr p;
    let tmp := tmp .| (ULONG_MAX .>> (BITS_PER_LONG - offset)) in
    if size <? BITS_PER_LONG then Some (find_next_zero_bit_found_first result size tmp)
    else if truthy (.~ tmp) then Some (u32 (result + ffz tmp))
    else find_next_zero_bit_scan addr fuel (p + 1) (u32 (result + BITS_PER_LONG)) (u32 (size - BITS_PER_LONG))
  else find_next_zero_bit_scan addr fuel p result size.

Definition find_first_bit (addr : list Z) (size : Z) : option Z :=
  c_loop (S (Z.to_nat (BIT_WORD size))) (fun '(p, result, size) =>
    if truthy (size .& .~ (BITS_PER_LONG - 1)) then
      tmp ← arr_get addr p;
      if truthy tmp then Some (inr (u32 (result + __ffs tmp)))
      else Some (inl (p + 1, u32 (result + BITS_PER_LONG), u32 (size - BITS_PER_LONG)))
    else if size =? 0 then Some (inr result)
    else
      tmp ← arr_get addr p;
      let tmp := tmp .& (ULONG_MAX .>> (BITS_PER_LONG - size)) in
      if tmp =? 0 then Some (inr (u32 (result + size)))
      else Some (inr (u32 (result + __ffs tmp))))
    (0, 0, size).

Definition find_first_zero_bit (addr : list Z) (size : Z) : option Z :=
  c_loop (S (Z.to_nat (BIT_WORD size))) (fun '(p, result, size) =>
    if truthy (size .& .~ (BITS_PER_LONG - 1)) then
      tmp ← arr_get addr p;
      if truthy (.~ tmp) then Some (inr (u32 (result + ffz tmp)))
      else Some (inl (p + 1, u32 (result + BITS_PER_LONG), u32 (size - BITS_PER_LONG)))
    else if size =? 0 then Some (inr result)
    else
      tmp ← arr_get addr p;
      let tmp := tmp .| (ULONG_MAX .<< size) in
      if tmp =? ULONG_MAX then Some (inr (u32 (result + size)))
      else Some (inr (u32 (result + ffz tmp))))
    (0, 0, size).

(** [lib/find_last_bit.c]. *)
Definition find_last_bit (addr : list Z) (size : Z) : option Z :=
  let words := size / BITS_PER_LONG in
  let scan := c_loop (S (Z.to_nat words)) (fun words =>
    if truthy words then
      let words := words - 1 in
      tmp ← arr_get addr words;
      if truthy tmp then Some (inr (u32 (words * BITS_PER_LONG + __fls tmp)))
      else Some (inl words)
    else Some (inr size)) in
  if truthy (size .& (BITS_PER_LONG - 1)) then
    w ← arr_get addr words;
    let tmp := w .& (ULONG_MAX .>> (BITS_PER_LONG - (size .& (BITS_PER_LONG - 1)))) in
    if truthy tmp then Some (u32 (words * BITS_PER_LONG + __fls tmp))
    else scan words
  else scan words.

(** ** Words *)

Lemma ULONG_MAX_u32 : is_u32 ULONG_MAX.
Proof. done. Qed.
#[export] Hint Resolve ULONG_MAX_u32 : bits.

Lemma testbit_ULONG_MAX i : 0 <= i < 32 -> Z.testbit ULONG_MAX i = true.
Proof. intros. apply Z.ones_spec_low. lia. Qed.

Lemma testbit_ones_shr k i : 0 <= k <= 32 -> 0 <= i ->
  Z.testbit (ULONG_MAX .>> (32 - k)) i = (i <? k).
Proof.
  intros Hk Hi. rewrite Z.shiftr_spec by lia. unfold ULONG_MAX.
  destruct (Z.ltb_spec i k).
  - apply Z.ones_spec_low. lia.
  - apply Z.ones_spec_high. lia.
Qed.

Lemma testbit_ones_shl k i : 0 <= k -> 0 <= i < 32 ->
  Z.testbit (ULONG_MAX .<< k) i = (k <=? i).
Proof.
  intros Hk Hi. rewrite testbit_shl32 by lia. unfold ULONG_MAX.
  destruct (Z.leb_spec k i).
  - apply Z.ones_spec_low. lia.
  - apply Z.testbit_neg_r. lia.
Qed.

(** The mask [~(BITS_PER_LONG-1)] rounds down to a word boundary. *)
Lemma land_not_31 x : is_u32 x -> x .& .~ (BITS_PER_LONG - 1) = 32 * (x / 32).
Proof.
  intros Hx. replace (32 * (x / 32)) with (Z.shiftl (Z.shiftr x 5) 5).
  2:{ rewrite Z.shiftl_mul_pow2, Z.shiftr_div_pow2 by lia. change (2 ^ 5) with 32. lia. }
  apply Z.bits_inj'. intros i Hi. rewrite Z.land_spec, Z.shiftl_spec by lia.
  destruct (Z.lt_ge_cases i 5).
  - rewrite (Z.testbit_neg_r _ (i - 5)) by lia. rewrite testbit_not32 by lia.
    change (BITS_PER_LONG - 1) with (Z.ones 5). rewrite Z.ones_spec_low by lia.
    apply andb_false_r.
  - rewrite Z.shiftr_spec by lia. replace (i - 5 + 5) with i by lia.
    destruct (Z.lt_ge_cases i 32).
    + rewrite testbit_not32 by lia. change (BITS_PER_LONG - 1) with (Z.ones 5).
      rewrite Z.ones_spec_high by lia. apply andb_true_r.
    + rewrite (proj2 (proj1 (is_u32_testbit x) Hx)) by lia. done.
Qed.

Lemma land_31 x : x .& (BITS_PER_LONG - 1) = x mod 32.
Proof. change (BITS_PER_LONG - 1) with (Z.ones 5). rewrite Z.land_ones by lia. done. Qed.

(** *** [__ffs] *)

(** Loop invariant of the binary search in [__ffs]: the low [num] bits of the
    original word are zero, [word] is what remains, and its low [w] bits are
    not all zero. *)
Definition ffs_inv (w0 : Z) (w : Z) (st : Z * Z) : Prop :=
  let '(num, word) := st in
  0 <= num /\ word = Z.shiftr w0 num /\
  (forall j, 0 <= j < num -> Z.testbit w0 j = false) /\ word .& Z.ones w <> 0.

Lemma land_ones_0 x k : 0 <= k ->
  x .& Z.ones k = 0 <-> forall j, 0 <= j < k -> Z.testbit x j = false.
Proof.
  intros Hk. split.
  - intros H j Hj. assert (Z.testbit (x .& Z.ones k) j = false) as Hb
      by (rewrite H; apply Z.bits_0).
    rewrite Z.land_spec, Z.ones_spec_low, andb_true_r in Hb by lia. done.
  - intros H. apply Z.bits_inj'. intros j Hj. rewrite Z.land_spec, Z.bits_0.
    destruct (Z.lt_ge_cases j k).
    + by rewrite H by lia.
    + rewrite Z.ones_spec_high by lia. apply andb_false_r.
Qed.

Lemma ffs_step w0 k num word :
  0 < k -> ffs_inv w0 (2 * k) (num, word) ->
  ffs_inv w0 k (if word .& Z.ones k =? 0 then (num + k, word .>> k) else (num, word)).
Proof.
  intros Hk (Hn & -> & Hlow & Hnz). destruct (Z.eqb_spec (Z.shiftr w0 num .& Z.ones k) 0) as [E|E].
  - pose proof (proj1 (land_ones_0 _ k ltac:(lia)) E) as E'.
    split; [lia|]. split; [by rewrite Z.shiftr_shiftr by lia|]. split.
    + intros j Hj. destruct (Z.lt_ge_cases j num); [apply Hlow; lia|].
      specialize (E' (j - num) ltac:(lia)). rewrite Z.shiftr_spec in E' by lia.
      by replace (j - num + num) with j in E' by lia.
    + intros H. apply Hnz. apply land_ones_0; [lia|]. intros j Hj.
      destruct (Z.lt_ge_cases j k); [apply E'; lia|].
      pose proof (proj1 (land_ones_0 _ k ltac:(lia)) H (j - k) ltac:(lia)) as Hj'.
      rewrite Z.shiftr_spec in Hj' by lia. by replace (j - k + k) with j in Hj' by lia.
  - done.
Qed.

Lemma __ffs_spec w :
  is_u32 w -> w <> 0 ->
  0 <= __ffs w < 32 /\ Z.testbit w (__ffs w) = true /\
  forall j, 0 <= j < __ffs w -> Z.testbit w j = false.
Proof.
  intros Hw Hnz. unfold __ffs.
  assert (ffs_inv w 32 (0, w)) as I0.
  { split; [lia|]. split; [by rewrite Z.shiftr_0_r|]. split; [lia|].
    rewrite Z.land_ones by lia. by rewrite Z.mod_small. }
  apply (ffs_step w 16) in I0; [|lia]. change (Z.ones 16) with 0xffff in I0.
  destruct (if w .& 0xffff =? 0 then _ else _) as [n1 w1].
  apply (ffs_step w 8) in I0; [|lia]. change (Z.ones 8) with 0xff in I0.
  destruct (if w1 .& 0xff =? 0 then _ else _) as [n2 w2].
  apply (ffs_step w 4) in I0; [|lia]. change (Z.ones 4) with 0xf in I0.
  destruct (if w2 .& 0xf =? 0 then _ else _) as [n3 w3].
  apply (ffs_step w 2) in I0; [|lia]. change (Z.ones 2) with 0x3 in I0.
  destruct (if w3 .& 0x3 =? 0 then _ else _) as [n4 w4].
  apply (ffs_step w 1) in I0; [|lia]. change (Z.ones 1) with 0x1 in I0.
  assert (forall n, ffs_inv w 1 (n, Z.shiftr w n) -> 0 <= n < 32 /\
    Z.testbit w n = true /\ forall j, 0 <= j < n -> Z.testbit w j = false) as Hfin.
  { intros n (Hn & _ & Hlow & H1).
    assert (Z.testbit w n = true) as Ht.
    { destruct (Z.testbit w n) eqn:E; [done|]. exfalso. apply H1. apply land_ones_0; [lia|].
      intros j Hj. rewrite Z.shiftr_spec by lia. replace (j + n) with n by lia. done. }
    split; [|done]. split; [done|]. destruct (Z.lt_ge_cases n 32); [done|].
    rewrite (proj2 (proj1 (is_u32_testbit w) Hw)) in Ht by lia. done. }
  destruct (w4 .& 0x1 =? 0); destruct I0 as (Hn & Hw' & I'); apply Hfin;
    (split; [done | split; [done | split; [apply I' | rewrite <- Hw'; apply I']]]).
Qed.

(** *** [__fls] and [fls] *)

Lemma land_top_0 x k : 0 <= k <= 32 ->
  x .& (ULONG_MAX .<< (32 - k)) = 0 <->
  forall j, 32 - k <= j < 32 -> Z.testbit x j = false.
Proof.
  intros Hk. split.
  - intros H j Hj. assert (Z.testbit (x .& (ULONG_MAX .<< (32 - k))) j = false) as Hb
      by (rewrite H; apply Z.bits_0).
    rewrite Z.land_spec, testbit_ones_shl in Hb by lia.
    rewrite (proj2 (Z.leb_le _ _)), andb_true_r in Hb by lia. done.
  - intros H. apply Z.bits_inj'. intros j Hj. rewrite Z.land_spec, Z.bits_0.
    destruct (Z.lt_ge_cases j 32).
    + rewrite testbit_ones_shl by lia. destruct (Z.leb_spec (32 - k) j).
      * by rewrite H by lia.
      * apply andb_false_r.
    + unfold shl32. rewrite testbit_u32_high by lia. apply andb_false_r.
Qed.

(** Invariant of the binary search from the top. *)
Definition fls_inv (w0 : Z) (w : Z) (st : Z * Z) : Prop :=
  let '(num, word) := st in
  num < 32 /\ (forall i, 0 <= i < 32 -> Z.testbit word i = Z.testbit w0 (i - (31 - num))) /\
  (forall j, num < j < 32 -> Z.testbit w0 j = false) /\
  word .& (ULONG_MAX .<< (32 - w)) <> 0.

Lemma fls_step w0 k num word :
  0 < k <= 16 -> fls_inv w0 (2 * k) (num, word) ->
  fls_inv w0 k (if word .& (ULONG_MAX .<< (32 - k)) =? 0 then (num - k, word .<< k) else (num, word)).
Proof.
  intros Hk (Hn & Hw & Hhi & Hnz).
  destruct (Z.eqb_spec (word .& (ULONG_MAX .<< (32 - k))) 0) as [E|E]; [|done].
  pose proof (proj1 (land_top_0 _ k ltac:(lia)) E) as E'.
  assert (forall i, 0 <= i < 32 ->
    Z.testbit (word .<< k) i = Z.testbit w0 (i - (31 - (num - k)))) as Hw'.
  { intros i Hi. rewrite testbit_shl32 by lia. destruct (Z.lt_ge_cases i k).
    - rewrite (Z.testbit_neg_r _ (i - k)) by lia. symmetry. apply Z.testbit_neg_r. lia.
    - rewrite Hw by lia. f_equal. lia. }
  split; [lia|]. split; [done|]. split.
  - intros j Hj. destruct (Z.lt_ge_cases num j); [apply Hhi; lia|].
    specialize (E' (j + (31 - num)) ltac:(lia)). rewrite Hw in E' by lia.
    by replace (j + (31 - num) - (31 - num)) with j in E' by lia.
  - intros H. apply Hnz. apply land_top_0; [lia|]. intros j Hj.
    destruct (Z.lt_ge_cases j (32 - k)); [|apply E'; lia].
    pose proof (proj1 (land_top_0 _ k ltac:(lia)) H (j + k) ltac:(lia)) as Hj'.
    rewrite testbit_shl32 in Hj' by lia. by replace (j + k - k) with j in Hj' by lia.
Qed.

Lemma __fls_spec w :
  is_u32 w -> w <> 0 ->
  0 <= __fls w < 32 /\ Z.testbit w (__fls w) = true /\
  forall j, __fls w < j < 32 -> Z.testbit w j = false.
Proof.
  intros Hu Hnz. unfold __fls, BITS_PER_LONG.
  assert (fls_inv w 32 (32 - 1, w)) as I0.
  { split; [lia|]. split; [intros i Hi; f_equal; lia|]. split; [lia|].
    intros H. apply Hnz. apply u32_zero_iff; [done|]. intros i Hi.
    apply (proj1 (land_top_0 _ 32 ltac:(lia)) H). lia. }
  apply (fls_step w 16) in I0; [|lia].
  destruct (if w .& _ =? 0 then _ else _) as [n1 w1].
  apply (fls_step w 8) in I0; [|lia].
  destruct (if w1 .& _ =? 0 then _ else _) as [n2 w2].
  apply (fls_step w 4) in I0; [|lia].
  destruct (if w2 .& _ =? 0 then _ else _) as [n3 w3].
  apply (fls_step w 2) in I0; [|lia].
  destruct (if w3 .& _ =? 0 then _ else _) as [n4 w4].
  apply (fls_step w 1) in I0; [|lia].
  assert (forall n word, fls_inv w 1 (n, word) -> 0 <= n < 32 /\
    Z.testbit w n = true /\ forall j, n < j < 32 -> Z.testbit w j = false) as Hfin.
  { intros n word (Hn & Hw & Hhi & H1).
    assert (Z.testbit w n = true) as Ht.
    { destruct (Z.testbit w n) eqn:E; [done|]. exfalso. apply H1. apply land_top_0; [lia|].
      intros j Hj. rewrite Hw by lia. replace (j - (31 - n)) with n by lia. done. }
    split; [|done]. split; [|done]. destruct (Z.lt_ge_cases n 0); [|done].
    rewrite Z.testbit_neg_r in Ht by lia. done. }
  destruct (w4 .& _ =? 0); eapply Hfin; exact I0.
Qed.

(** [fls] is the 1-based position of the most significant bit, 0 for 0. *)
Lemma fls_fls x : x <> 0 -> fls x = __fls x + 1.
Proof.
  intros Hx. unfold fls, __fls. rewrite (proj2 (Z.eqb_neq x 0) Hx).
  change (ULONG_MAX .<< (BITS_PER_LONG - 16)) with 0xffff0000.
  change (ULONG_MAX .<< (BITS_PER_LONG - 8)) with 0xff000000.
  change (ULONG_MAX .<< (BITS_PER_LONG - 4)) with 0xf0000000.
  change (ULONG_MAX .<< (BITS_PER_LONG - 2)) with 0xc0000000.
  change (ULONG_MAX .<< (BITS_PER_LONG - 1)) with 0x80000000.
  unfold BITS_PER_LONG.
  repeat match goal with |- context [if ?b then _ else _] => destruct b; simpl end; lia.
Qed.

(** ** Arrays of words *)

Lemma words_zth a i : words a -> is_u32 (zth a i).
Proof.
  intros Ha. unfold zth, arr_get. destruct (0 <=? i); [|done].
  destruct (a !! Z.to_nat i) as [x|] eqn:E; simpl; [|done].
  by apply (proj1 (Forall_lookup _ _) Ha _ _ E).
Qed.
#[export] Hint Resolve words_zth : bits.

Lemma words_insert a i x : words a -> is_u32 x -> words (<[i := x]> a).
Proof. intros Ha Hx. by apply Forall_insert. Qed.
#[export] Hint Resolve words_insert : bits.

Lemma abit_word a p b : 0 <= b < 32 -> abit a (32 * p + b) = Z.testbit (zth a p) b.
Proof.
  intros Hb. unfold abit. rewrite Z.mul_comm.
  rewrite Z.div_add_l, Z.div_small, Z.add_0_r by lia.
  rewrite Z.add_comm, Z.mod_add, Z.mod_small by lia. done.
Qed.

Lemma abit_split a i : abit a i = Z.testbit (zth a (i / 32)) (i mod 32).
Proof. done. Qed.

(** Position [i] in terms of its word and offset. *)
Lemma bit_decomp i : i = 32 * (i / 32) + i mod 32 /\ 0 <= i mod 32 < 32.
Proof. split; [apply Z.div_mod; lia | apply Z.mod_pos_bound; lia]. Qed.

Lemma abit_insert a p x i :
  0 <= p < Z.of_nat (length a) ->
  abit (<[Z.to_nat p := x]> a) i = if i / 32 =? p then Z.testbit x (i mod 32) else abit a i.
Proof.
  intros Hp. unfold abit. destruct (Z.eqb_spec (i / 32) p) as [->|].
  - by rewrite zth_insert_eq.
  - rewrite zth_insert_ne by lia. done.
Qed.

(** [next_in] determines its result. *)
Lemma next_in_unique P lo hi r r' : next_in P lo hi r -> next_in P lo hi r' -> r = r'.
Proof.
  intros [[? ->]|(Hr & Hf & Ht)] [[? ->]|(Hr' & Hf' & Ht')]; try lia.
  destruct (Z.lt_trichotomy r r') as [Hlt|[|Hlt]]; [|done|].
  - rewrite Hf' in Ht by lia. specialize (Ht ltac:(lia)). done.
  - rewrite Hf in Ht' by lia. specialize (Ht' ltac:(lia)). done.
Qed.

Lemma next_in_ext P Q lo hi r :
  (forall i, lo <= i < hi -> P i = Q i) -> next_in P lo hi r -> next_in Q lo hi r.
Proof.
  intros H [[? ?]|(Hr & Hf & Ht)]; [by left|]. right. split; [done|]. split.
  - intros i Hi. rewrite <- H by lia. apply Hf. lia.
  - intros Hlt. rewrite <- H by lia. auto.
Qed.

(** *** The scanning loop *)

Lemma find_next_bit_found_first_spec addr size p tmp lo :
  is_u32 tmp -> 0 <= lo -> 0 <= p -> lo < 32 * p + 32 -> lo < size -> is_u32 size ->
  0 < size - 32 * p < 32 ->
  (forall i, lo <= i < 32 * p -> abit addr i = false) ->
  (forall b, 0 <= b < 32 -> Z.testbit tmp b = (lo <=? 32 * p + b) && Z.testbit (zth addr p) b) ->
  next_in (abit addr) lo size (find_next_bit_found_first (32 * p) (size - 32 * p) tmp).
Proof.
  intros Ht Hlo0 Hp Hlo Hls Hs Hrem Hpre Htmp. unfold find_next_bit_found_first. unfold is_u32 in Hs.
  set (m := tmp .& _).
  assert (is_u32 m) as Hm by (subst m; unfold BITS_PER_LONG; auto with bits lia).
  assert (forall b, 0 <= b < 32 -> Z.testbit m b =
    (lo <=? 32 * p + b) && (32 * p + b <? size) && abit addr (32 * p + b)) as Hmb.
  { intros b Hb. subst m. rewrite Z.land_spec, Htmp, testbit_ones_shr by lia.
    rewrite abit_word by lia.
    replace (b <? size - 32 * p) with (32 * p + b <? size)
      by (destruct (Z.ltb_spec b (size - 32 * p)), (Z.ltb_spec (32 * p + b) size); lia).
    btauto. }
  right. destruct (Z.eqb_spec m 0) as [E|E].
  - rewrite u32_small by (unfold is_u32; lia). replace (32 * p + (size - 32 * p)) with size by lia.
    split; [lia|]. split; [|lia]. intros i Hi.
    destruct (Z.lt_ge_cases i (32 * p)); [apply Hpre; lia|].
    specialize (Hmb (i - 32 * p) ltac:(lia)). rewrite E, Z.bits_0 in Hmb.
    replace (32 * p + (i - 32 * p)) with i in Hmb by lia.
    rewrite (proj2 (Z.leb_le lo i)), (proj2 (Z.ltb_lt i size)) in Hmb by lia. done.
  - destruct (__ffs_spec m Hm E) as (Hr & Hbit & Hlow).
    pose proof (Hmb _ Hr) as Hb. rewrite Hbit in Hb.
    destruct (Z.leb_spec lo (32 * p + __ffs m)); [|done].
    destruct (Z.ltb_spec (32 * p + __ffs m) size); [|done]. simpl in Hb.
    rewrite u32_small by (unfold is_u32; lia). split; [lia|]. split; [|done].
    intros i Hi. destruct (Z.lt_ge_cases i (32 * p)); [apply Hpre; lia|].
    specialize (Hmb (i - 32 * p) ltac:(lia)). rewrite Hlow in Hmb by lia.
    replace (32 * p + (i - 32 * p)) with i in Hmb by lia.
    rewrite (proj2 (Z.leb_le lo i)), (proj2 (Z.ltb_lt i size)) in Hmb by lia. done.
Qed.

(** Leaving through [found_middle]: the first set bit is in the current word. *)
Lemma found_middle_spec addr size p tmp lo :
  is_u32 tmp -> tmp <> 0 -> 0 <= lo -> 0 <= p -> is_u32 size -> 32 * p + 32 <= size ->
  (forall i, lo <= i < 32 * p -> abit addr i = false) ->
  (forall b, 0 <= b < 32 -> Z.testbit tmp b = (lo <=? 32 * p + b) && Z.testbit (zth addr p) b) ->
  next_in (abit addr) lo size (u32 (32 * p + __ffs tmp)).
Proof.
  intros Ht Hnz Hlo0 Hp Hs Hrem Hpre Htmp. unfold is_u32 in Hs.
  destruct (__ffs_spec tmp Ht Hnz) as (Hr & Hbit & Hlow).
  rewrite u32_small by (unfold is_u32; lia).
  pose proof (Htmp _ Hr) as Hb. rewrite Hbit in Hb.
  destruct (Z.leb_spec lo (32 * p + __ffs tmp)); [|done]. simpl in Hb.
  right. split; [lia|]. split; [|intros _; by rewrite abit_word].
  intros i Hi. destruct (Z.lt_ge_cases i (32 * p)); [apply Hpre; lia|].
  specialize (Htmp (i - 32 * p) ltac:(lia)). rewrite Hlow in Htmp by lia.
  rewrite <- abit_word in Htmp by lia.
  replace (32 * p + (i - 32 * p)) with i in Htmp by lia.
  rewrite (proj2 (Z.leb_le lo i)) in Htmp by lia. done.
Qed.

Lemma find_next_bit_scan_spec addr size lo p fuel :
  words addr -> 0 <= lo -> 0 <= p -> lo <= 32 * p <= size -> is_u32 size ->
  size <= 32 * Z.of_nat (length addr) -> lo < size \/ lo = 0 ->
  (forall i, lo <= i < 32 * p -> abit addr i = false) ->
  (size - 32 * p) / 32 < Z.of_nat fuel ->
  wp (find_next_bit_scan addr fuel p (32 * p) (size - 32 * p)) (next_in (abit addr) lo size).
Proof.
  intros Ha Hlo0 Hp Hlo Hs Hlen Hls Hpre Hfuel. unfold find_next_bit_scan.
  apply (c_loop_inv (fun '(p, result, sz) =>
    0 <= p /\ result = 32 * p /\ sz = size - 32 * p /\ lo <= 32 * p <= size /\
    (forall i, lo <= i < 32 * p -> abit addr i = false))
    (fun '(p, result, sz) => sz / 32)); [| |by repeat split; try lia|done].
  { intros [[p' result] sz] (? & ? & -> & ? & ?). apply Z.div_pos; lia. }
  clear p Hp Hlo Hpre Hfuel.
  intros [[p result] sz] (Hp & -> & -> & Hlo & Hpre). unfold is_u32 in Hs.
  rewrite land_not_31 by (unfold is_u32; lia).
  destruct (truthy (32 * ((size - 32 * p) / 32))) eqn:E.
  - apply truthy_true in E. assert (32 <= size - 32 * p) as Hge.
    { destruct (Z.lt_ge_cases (size - 32 * p) 32); [|lia].
      rewrite Z.div_small in E by lia. lia. }
    wp_step. wp_step; [lia|]. destruct (truthy (zth addr p)) eqn:Et; simpl.
    + apply truthy_true in Et. apply found_middle_spec; auto with bits; [lia|].
      intros b Hb. rewrite (proj2 (Z.leb_le lo (32 * p + b))) by lia. done.
    + apply truthy_false in Et. unfold BITS_PER_LONG. u32_simpl. split.
      * repeat split; [lia..|]. intros i Hi.
        destruct (Z.lt_ge_cases i (32 * p)); [apply Hpre; lia|].
        replace i with (32 * p + (i - 32 * p)) by lia. rewrite abit_word by lia.
        rewrite Et. apply Z.bits_0.
      * Z.div_mod_to_equations. lia.
  - apply truthy_false in E. assert (size - 32 * p < 32) as Hlt.
    { pose proof (Z.mod_pos_bound (size - 32 * p) 32 ltac:(lia)).
      pose proof (Z.div_mod (size - 32 * p) 32 ltac:(lia)). lia. }
    destruct (Z.eqb_spec (size - 32 * p) 0) as [E0|E0]; simpl.
    + replace size with (32 * p) by lia. right. split; [lia|]. split; [done | lia].
    + wp_step. wp_step; [lia|]. simpl. apply find_next_bit_found_first_spec; auto with bits; try lia.
      intros b Hb. rewrite (proj2 (Z.leb_le lo (32 * p + b))) by lia. done.
Qed.

(** ** The searches *)

Lemma find_next_bit_ok addr size offset :
  words addr -> is_u32 size -> is_u32 offset -> size <= 32 * Z.of_nat (length addr) ->
  wp (find_next_bit addr size offset) (next_in (abit addr) offset size).
Proof.
  intros Ha Hs Ho Hlen. unfold find_next_bit. rewrite land_not_31 by done.
  unfold is_u32 in Hs, Ho.
  destruct (Z.leb_spec size offset); simpl; [by left; lia|].
  destruct (bit_decomp offset) as [Hd Hm].
  unfold BIT_WORD, BITS_PER_LONG. set (p := offset / 32) in *. set (b := offset mod 32) in *.
  assert (0 <= p) by (apply Z.div_pos; lia). u32_simpl.
  assert ((size - 32 * p) / 32 < Z.of_nat (S (Z.to_nat (size / 32)))) as Hfuel.
  { rewrite Nat2Z.inj_succ, Z2Nat.id by (apply Z.div_pos; lia).
    assert ((size - 32 * p) / 32 <= size / 32) by (apply Z.div_le_mono; lia). lia. }
  destruct (truthy b) eqn:Eb.
  - apply truthy_true in Eb. wp_step. wp_step; [lia|].
    assert (forall k, 0 <= k < 32 -> Z.testbit (zth addr p .& (ULONG_MAX .<< b)) k =
      (offset <=? 32 * p + k) && Z.testbit (zth addr p) k) as Htmp.
    { intros k Hk. rewrite Z.land_spec, testbit_ones_shl by lia.
      replace (offset <=? 32 * p + k) with (b <=? k)
        by (destruct (Z.leb_spec b k), (Z.leb_spec offset (32 * p + k)); lia).
      apply andb_comm. }
    destruct (Z.ltb_spec (size - 32 * p) 32); simpl.
    + apply find_next_bit_found_first_spec; auto with bits; lia.
    + destruct (truthy _) eqn:Et; simpl.
      * apply truthy_true in Et. apply found_middle_spec; auto with bits; lia.
      * apply truthy_false in Et.
        replace (32 * p + 32) with (32 * (p + 1)) by lia.
        replace (size - 32 * p - 32) with (size - 32 * (p + 1)) by lia. u32_simpl.
        apply find_next_bit_scan_spec; auto; try lia.
        { intros i Hi. specialize (Htmp (i - 32 * p) ltac:(lia)).
          rewrite Et, Z.bits_0 in Htmp. rewrite (proj2 (Z.leb_le _ _)) in Htmp by lia.
          rewrite <- abit_word in Htmp by lia.
          by replace (32 * p + (i - 32 * p)) with i in Htmp by lia. }
        eapply Z.le_lt_trans; [|exact Hfuel]. apply Z.div_le_mono; lia.
  - apply truthy_false in Eb. apply find_next_bit_scan_spec; auto; lia.
Qed.

Lemma find_first_bit_next addr size :
  is_u32 size -> find_first_bit addr size = find_next_bit addr size 0.
Proof.
  intros Hs. unfold find_first_bit, find_next_bit. unfold is_u32 in Hs.
  destruct (Z.leb_spec size 0) as [H|H].
  - replace size with 0 by lia. done.
  - change (0 .& _) with 0. change (0 mod BITS_PER_LONG) with 0. change (BIT_WORD 0) with 0.
    simpl truthy. rewrite Z.sub_0_r, u32_small by done. unfold find_next_bit_scan.
    apply c_loop_ext. intros [[p result] sz]. destruct (truthy _); [done|].
    destruct (sz =? 0); [done|]. destruct (arr_get addr p) as [t|]; simpl; [|done].
    unfold find_next_bit_found_first. by destruct (_ =? 0).
Qed.

Lemma find_first_bit_ok addr size :
  words addr -> is_u32 size -> size <= 32 * Z.of_nat (length addr) ->
  wp (find_first_bit addr size) (next_in (abit addr) 0 size).
Proof. intros. rewrite find_first_bit_next by done. by apply find_next_bit_ok. Qed.

(** *** Searching for zeros is searching the complement *)

Lemma not32_lor_shl t k : is_u32 t -> 0 <= k <= 32 ->
  .~ (t .| (ULONG_MAX .<< k)) = .~ t .& (ULONG_MAX .>> (32 - k)).
Proof.
  intros Ht Hk. apply u32_ext; auto with bits lia. intros i Hi.
  rewrite testbit_not32, Z.lor_spec, Z.land_spec, testbit_not32, testbit_ones_shl,
    testbit_ones_shr by lia.
  destruct (Z.leb_spec k i), (Z.ltb_spec i k); try lia; btauto.
Qed.

Lemma not32_lor_shr t k : is_u32 t -> 0 <= k <= 32 ->
  .~ (t .| (ULONG_MAX .>> (32 - k))) = .~ t .& (ULONG_MAX .<< k).
Proof.
  intros Ht Hk. apply u32_ext; auto with bits lia. intros i Hi.
  rewrite testbit_not32, Z.lor_spec, Z.land_spec, testbit_not32, testbit_ones_shl,
    testbit_ones_shr by lia.
  destruct (Z.leb_spec k i), (Z.ltb_spec i k); try lia; btauto.
Qed.

Lemma not32_zero_iff t : is_u32 t -> .~ t = 0 <-> t = ULONG_MAX.
Proof.
  intros Ht. unfold not32. rewrite Z.lxor_eq_0_iff. done.
Qed.

Lemma find_next_zero_bit_found_first_not result size t :
  is_u32 t -> 0 <= size <= 32 ->
  find_next_zero_bit_found_first result size t = find_next_bit_found_first result size (.~ t).
Proof.
  intros Ht Hs. unfold find_next_zero_bit_found_first, find_next_bit_found_first, ffz.
  unfold BITS_PER_LONG. rewrite <- not32_lor_shl by done.
  assert (is_u32 (t .| (ULONG_MAX .<< size))) as Hu by auto with bits.
  pose proof (not32_zero_iff _ Hu) as Hz.
  destruct (Z.eqb_spec (t .| (ULONG_MAX .<< size)) ULONG_MAX) as [E|E];
    destruct (Z.eqb_spec (.~ (t .| (ULONG_MAX .<< size))) 0) as [E'|E']; tauto.
Qed.

Lemma arr_get_u32 a i t : words a -> arr_get a i = Some t -> is_u32 t.
Proof.
  intros Ha E. pose proof (words_zth a i Ha) as H. unfold zth in H. by rewrite E in H.
Qed.

Lemma find_next_zero_bit_scan_not addr fuel p result size :
  words addr -> is_u32 size ->
  find_next_zero_bit_scan addr fuel p result size =
  find_next_bit_scan (map not32 addr) fuel p result size.
Proof.
  intros Ha. unfold find_next_zero_bit_scan, find_next_bit_scan.
  revert p result size. induction fuel as [|fuel IH]; intros p result size Hs; [done|].
  cbn [c_loop]. rewrite arr_get_map. rewrite !land_not_31 by done.
  destruct (truthy (32 * (size / 32))) eqn:E.
  - destruct (arr_get addr p) as [t|]; simpl; [|done].
    destruct (truthy (.~ t)); [done|]. apply IH. apply u32_range.
  - destruct (size =? 0); [done|].
    destruct (arr_get addr p) as [t|] eqn:Et; simpl; [|done].
    apply truthy_false in E. rewrite find_next_zero_bit_found_first_not; [done| |].
    + by eapply arr_get_u32.
    + unfold is_u32 in Hs. Z.div_mod_to_equations. lia.
Qed.

(** [find_next_zero_bit] on a bitmap is [find_next_bit] on its complement. *)
Lemma find_next_zero_bit_not addr size offset :
  words addr -> is_u32 size -> is_u32 offset ->
  find_next_zero_bit addr size offset = find_next_bit (map not32 addr) size offset.
Proof.
  intros Ha Hs Ho. unfold find_next_zero_bit, find_next_bit.
  destruct (size <=? offset); [done|]. rewrite arr_get_map.
  pose proof (Z.mod_pos_bound offset BITS_PER_LONG ltac:(done)) as Hm.
  destruct (truthy (offset mod BITS_PER_LONG)) eqn:Eb.
  - destruct (arr_get addr (BIT_WORD offset)) as [t|] eqn:Et; simpl; [|done].
    assert (is_u32 t) by (by eapply arr_get_u32). unfold BITS_PER_LONG in *.
    rewrite <- (not32_lor_shr t) by (done || lia).
    destruct (Z.ltb_spec (u32 (size - offset .& .~ (32 - 1))) 32).
    + rewrite find_next_zero_bit_found_first_not; [done | auto with bits lia |].
      pose proof (u32_range (size - offset .& .~ (32 - 1))) as Hr. unfold is_u32 in Hr. lia.
    + destruct (truthy (.~ _)); [reflexivity|]. apply find_next_zero_bit_scan_not; auto with bits.
  - apply find_next_zero_bit_scan_not; auto with bits.
Qed.

Lemma abit_map_not32 a i :
  0 <= i < 32 * Z.of_nat (length a) -> abit (map not32 a) i = negb (abit a i).
Proof.
  intros Hi. unfold abit, zth. rewrite arr_get_map.
  assert (0 <= i / 32 < Z.of_nat (length a)) as Hr by (Z.div_mod_to_equations; lia).
  destruct (arr_get_Some a _ Hr) as [w ->]. simpl. apply testbit_not32.
  apply Z.mod_pos_bound. lia.
Qed.

Lemma words_map_not32 a : words a -> words (map not32 a).
Proof. intros Ha. apply Forall_fmap. eapply Forall_impl; [|exact Ha]. apply is_u32_not32. Qed.

Lemma find_next_zero_bit_ok addr size offset :
  words addr -> is_u32 size -> is_u32 offset -> size <= 32 * Z.of_nat (length addr) ->
  wp (find_next_zero_bit addr size offset) (next_in (fun i => negb (abit addr i)) offset size).
Proof.
  intros Ha Hs Ho Hlen. rewrite find_next_zero_bit_not by done.
  eapply wp_mono; [apply find_next_bit_ok; auto using words_map_not32; by rewrite length_map|].
  intros r. apply next_in_ext. intros i Hi. unfold is_u32 in Ho. apply abit_map_not32. lia.
Qed.

Lemma find_first_zero_bit_next addr size :
  words addr -> is_u32 size -> find_first_zero_bit addr size = find_next_zero_bit addr size 0.
Proof.
  intros Ha Hs. unfold find_first_zero_bit, find_next_zero_bit. unfold is_u32 in Hs.
  destruct (Z.leb_spec size 0) as [H|H].
  - replace size with 0 by lia. done.
  - change (0 .& _) with 0. change (0 mod BITS_PER_LONG) with 0. change (BIT_WORD 0) with 0.
    simpl truthy. rewrite Z.sub_0_r, u32_small by done. unfold find_next_zero_bit_scan.
    apply c_loop_ext. intros [[p result] sz]. destruct (truthy _); [done|].
    destruct (sz =? 0); [done|]. destruct (arr_get addr p) as [t|]; simpl; [|done].
    unfold find_next_zero_bit_found_first. by destruct (_ =? ULONG_MAX).
Qed.

(** [r] is the last index below [size] where [P] holds, [size] if there is none. *)
Definition last_in (P : Z -> bool) (size r : Z) : Prop :=
  (r = size /\ forall i, 0 <= i < size -> P i = false) \/
  (0 <= r < size /\ P r = true /\ forall i, r < i < size -> P i = false).

Lemma find_last_bit_word addr size p tmp :
  is_u32 tmp -> tmp <> 0 -> 0 <= p -> is_u32 size -> 32 * p < size ->
  (forall i, 32 * p + 32 <= i < size -> abit addr i = false) ->
  (forall b, 0 <= b < 32 -> Z.testbit tmp b = (32 * p + b <? size) && Z.testbit (zth addr p) b) ->
  last_in (abit addr) size (u32 (p * BITS_PER_LONG + __fls tmp)).
Proof.
  intros Ht Hnz Hp Hs Hlt Hpost Htmp. unfold is_u32 in Hs.
  destruct (__fls_spec tmp Ht Hnz) as (Hr & Hbit & Hhi).
  pose proof (Htmp _ Hr) as Hb. rewrite Hbit in Hb.
  destruct (Z.ltb_spec (32 * p + __fls tmp) size); [|done]. simpl in Hb.
  replace (p * BITS_PER_LONG + __fls tmp) with (32 * p + __fls tmp) by (unfold BITS_PER_LONG; lia).
  rewrite u32_small by (unfold is_u32; lia).
  right. split; [lia|]. split; [by rewrite abit_word|]. intros i Hi.
  destruct (Z.lt_ge_cases i (32 * p + 32)); [|apply Hpost; lia].
  specialize (Htmp (i - 32 * p) ltac:(lia)). rewrite Hhi in Htmp by lia.
  rewrite <- abit_word in Htmp by lia.
  replace (32 * p + (i - 32 * p)) with i in Htmp by lia.
  rewrite (proj2 (Z.ltb_lt i size)) in Htmp by lia. done.
Qed.

Lemma find_last_bit_ok addr size :
  words addr -> is_u32 size -> size <= 32 * Z.of_nat (length addr) ->
  wp (find_last_bit addr size) (last_in (abit addr) size).
Proof.
  intros Ha Hs Hlen. unfold find_last_bit. rewrite land_31.
  destruct (bit_decomp size) as [Hd Hm]. unfold is_u32 in Hs.
  set (n := size / BITS_PER_LONG). change (size / 32) with n in Hd.
  assert (0 <= n) by (apply Z.div_pos; [lia|done]).
  assert (forall k, 0 <= k <= n -> (forall i, 32 * k <= i < size -> abit addr i = false) ->
    forall fuel, k < Z.of_nat fuel -> wp (c_loop fuel (fun words : Z =>
      if truthy words then
        tmp ← arr_get addr (words - 1);
        if truthy tmp then Some (inr (u32 ((words - 1) * BITS_PER_LONG + __fls tmp)))
        else Some (inl (words - 1))
      else Some (inr size)) k) (last_in (abit addr) size)) as Hscan.
  { intros k Hk Hpost fuel Hf.
    apply (c_loop_inv (fun k => 0 <= k <= n /\ forall i, 32 * k <= i < size -> abit addr i = false)
      (fun k => k)); [lia| |done|done].
    clear k Hk Hpost Hf. intros k [Hk Hpost]. destruct (truthy k) eqn:E.
    - apply truthy_true in E. wp_step. wp_step; [lia|].
      destruct (truthy (zth addr (k - 1))) eqn:Et; simpl.
      + apply truthy_true in Et. apply find_last_bit_word; auto with bits; try lia.
        { intros i Hi. apply Hpost. lia. }
        intros b Hb. rewrite (proj2 (Z.ltb_lt _ _)) by lia. done.
      + apply truthy_false in Et. split; [|lia]. split; [lia|]. intros i Hi.
        destruct (Z.lt_ge_cases i (32 * k)); [|apply Hpost; lia].
        replace i with (32 * (k - 1) + (i - 32 * (k - 1))) by lia.
        rewrite abit_word by lia. rewrite Et. apply Z.bits_0.
    - apply truthy_false in E. simpl. left. split; [done|]. intros i Hi. apply Hpost. lia. }
  destruct (truthy (size mod 32)) eqn:E.
  - apply truthy_true in E. wp_step. wp_step; [lia|].
    assert (forall b, 0 <= b < 32 ->
      Z.testbit (zth addr n .& (ULONG_MAX .>> (BITS_PER_LONG - size mod 32))) b =
      (32 * n + b <? size) && Z.testbit (zth addr n) b) as Htmp.
    { intros b Hb. unfold BITS_PER_LONG. rewrite Z.land_spec, testbit_ones_shr by lia.
      replace (32 * n + b <? size) with (b <? size mod 32)
        by (destruct (Z.ltb_spec b (size mod 32)), (Z.ltb_spec (32 * n + b) size); lia).
      apply andb_comm. }
    destruct (truthy (zth addr n .& _)) eqn:Et.
    + simpl. apply truthy_true in Et. apply find_last_bit_word; auto with bits; try lia.
      unfold BITS_PER_LONG. auto with bits lia.
    + apply truthy_false in Et. apply Hscan; [lia| |lia]. intros i Hi.
      specialize (Htmp (i - 32 * n) ltac:(lia)). rewrite Et, Z.bits_0 in Htmp.
      rewrite <- abit_word in Htmp by lia.
      replace (32 * n + (i - 32 * n)) with i in Htmp by lia.
      rewrite (proj2 (Z.ltb_lt i size)) in Htmp by lia. done.
  - apply truthy_false in E. apply Hscan; [lia|lia|lia].
Qed.

(** ** Single-bit updates *)

Lemma testbit_BIT_MASK nr i :
  0 <= i < 32 -> Z.testbit (BIT_MASK nr) i = (i =? nr mod 32).
Proof.
  intros Hi. unfold BIT_MASK, BITS_PER_LONG. rewrite testbit_shl32 by lia.
  destruct (Z.eqb_spec i (nr mod 32)) as [->|Hne].
  - by rewrite Z.sub_diag.
  - pose proof (Z.mod_pos_bound nr 32 ltac:(lia)).
    destruct (Z.lt_ge_cases i (nr mod 32)); [apply Z.testbit_neg_r; lia|].
    apply (testbit_above 1 1); lia.
Qed.

Lemma BIT_MASK_u32 nr : is_u32 (BIT_MASK nr).
Proof. apply is_u32_shl32. Qed.
#[export] Hint Resolve BIT_MASK_u32 : bits.

Lemma bit_pos_eqb i nr : (i / 32 =? nr / 32) && (i mod 32 =? nr mod 32) = (i =? nr).
Proof.
  destruct (bit_decomp i) as [Hi _], (bit_decomp nr) as [Hn _].
  destruct (Z.eqb_spec i nr) as [->|Hne]; [by rewrite !Z.eqb_refl|].
  destruct (Z.eqb_spec (i / 32) (nr / 32)), (Z.eqb_spec (i mod 32) (nr mod 32)); try done.
  exfalso. apply Hne. lia.
Qed.

(** A read-modify-write of one word that changes exactly bit [nr]. *)
Lemma rmw_bit a nr v (f : bool -> bool) :
  words a -> 0 <= nr < 32 * Z.of_nat (length a) ->
  is_u32 v ->
  (forall b, 0 <= b < 32 -> Z.testbit v b =
     if b =? nr mod 32 then f (Z.testbit (zth a (nr / 32)) b) else Z.testbit (zth a (nr / 32)) b) ->
  wp (arr_set a (BIT_WORD nr) v) (fun a' =>
    words a' /\ length a' = length a /\
    forall i, abit a' i = if i =? nr then f (abit a i) else abit a i).
Proof.
  intros Ha Hnr Hv Hbits. unfold BIT_WORD, BITS_PER_LONG.
  assert (0 <= nr / 32 < Z.of_nat (length a)) as Hp by (Z.div_mod_to_equations; lia).
  wp_step; [done|]. split; [by apply words_insert|]. split; [apply length_insert|].
  intros i. rewrite abit_insert by done. rewrite <- (bit_pos_eqb i nr).
  destruct (Z.eqb_spec (i / 32) (nr / 32)) as [E|E]; [|done]. simpl.
  rewrite Hbits by (apply Z.mod_pos_bound; lia). unfold abit. by rewrite E.
Qed.

Lemma bit_word_range (a : list Z) nr :
  0 <= nr < 32 * Z.of_nat (length a) -> 0 <= BIT_WORD nr < Z.of_nat (length a).
Proof. intros. unfold BIT_WORD, BITS_PER_LONG. Z.div_mod_to_equations. lia. Qed.

Lemma __set_bit_ok a nr :
  words a -> 0 <= nr < 32 * Z.of_nat (length a) ->
  wp (__set_bit nr a) (fun a' =>
    words a' /\ length a' = length a /\ forall i, abit a' i = (i =? nr) || abit a i).
Proof.
  intros Ha Hnr. unfold __set_bit. wp_step. wp_step; [by apply bit_word_range|].
  eapply wp_mono; [apply (rmw_bit a nr _ (fun _ => true)); auto with bits|].
  - intros b Hb. rewrite Z.lor_spec, testbit_BIT_MASK by done.
    unfold BIT_WORD, BITS_PER_LONG. destruct (_ =? _); btauto.
  - intros a' (? & ? & H). split; [done|]. split; [done|]. intros i. rewrite H.
    by destruct (i =? nr).
Qed.

Lemma __clear_bit_ok a nr :
  words a -> 0 <= nr < 32 * Z.of_nat (length a) ->
  wp (__clear_bit nr a) (fun a' =>
    words a' /\ length a' = length a /\ forall i, abit a' i = negb (i =? nr) && abit a i).
Proof.
  intros Ha Hnr. unfold __clear_bit. wp_step. wp_step; [by apply bit_word_range|].
  eapply wp_mono; [apply (rmw_bit a nr _ (fun _ => false)); auto with bits|].
  - intros b Hb. rewrite Z.land_spec, testbit_not32, testbit_BIT_MASK by done.
    unfold BIT_WORD, BITS_PER_LONG. destruct (_ =? _); btauto.
  - intros a' (? & ? & H). split; [done|]. split; [done|]. intros i. rewrite H.
    by destruct (i =? nr).
Qed.

Lemma test_bit_ok a nr :
  words a -> 0 <= nr < 32 * Z.of_nat (length a) ->
  test_bit nr a = Some (of_bool (abit a nr)).
Proof.
  intros Ha Hnr. unfold test_bit.
  rewrite arr_get_zth by (by apply bit_word_range). simpl. f_equal.
  rewrite land_31, Z.land_comm. change 1 with (Z.ones 1). rewrite Z.land_ones by lia.
  change (2 ^ 1) with 2. rewrite <- Z.bit0_mod.
  rewrite Z.shiftr_spec, Z.add_0_l by lia. by unfold abit, BIT_WORD, BITS_PER_LONG, Z.b2z, of_bool.
Qed.

Lemma masked_bit w nr : is_u32 w ->
  of_bool (truthy (w .& BIT_MASK nr)) = of_bool (Z.testbit w (nr mod 32)).
Proof.
  intros Hw. f_equal. pose proof (Z.mod_pos_bound nr 32 ltac:(lia)) as Hm.
  destruct (Z.testbit w (nr mod 32)) eqn:E.
  - apply truthy_true. intros H0.
    assert (Z.testbit (w .& BIT_MASK nr) (nr mod 32) = true) as Ht
      by by rewrite Z.land_spec, testbit_BIT_MASK, E, Z.eqb_refl by done.
    by rewrite H0, Z.bits_0 in Ht.
  - apply truthy_false. apply u32_zero_iff; [auto with bits|]. intros i Hi.
    rewrite Z.land_spec, testbit_BIT_MASK by done.
    destruct (Z.eqb_spec i (nr mod 32)) as [->|]; [by rewrite E | apply andb_false_r].
Qed.

(** The read-modify-write pattern of [__test_and_set_bit],
    [__test_and_clear_bit] and [__test_and_change_bit]. *)
Lemma test_and_update_ok a nr (op : Z -> Z) (f : bool -> bool) :
  words a -> 0 <= nr < 32 * Z.of_nat (length a) ->
  (forall w, is_u32 w -> is_u32 (op w)) ->
  (forall w b, is_u32 w -> 0 <= b < 32 -> Z.testbit (op w) b =
     if b =? nr mod 32 then f (Z.testbit w b) else Z.testbit w b) ->
  wp (old ← arr_get a (BIT_WORD nr);
      a' ← arr_set a (BIT_WORD nr) (op old);
      Some (of_bool (truthy (old .& BIT_MASK nr)), a')) (fun '(r, a') =>
    r = of_bool (abit a nr) /\ words a' /\ length a' = length a /\
    forall i, abit a' i = if i =? nr then f (abit a i) else abit a i).
Proof.
  intros Ha Hnr Hop Hf. wp_step. wp_step; [by apply bit_word_range|]. wp_step.
  assert (is_u32 (zth a (BIT_WORD nr))) by auto with bits.
  eapply wp_mono; [apply (rmw_bit a nr _ f); [done | done | by apply Hop |]|].
  - intros b Hb. by apply Hf.
  - intros a' H'. simpl. split; [|done]. rewrite masked_bit by done. done.
Qed.

Lemma __test_and_set_bit_ok a nr :
  words a -> 0 <= nr < 32 * Z.of_nat (length a) ->
  wp (__test_and_set_bit nr a) (fun '(r, a') =>
    r = of_bool (abit a nr) /\ words a' /\ length a' = length a /\
    forall i, abit a' i = if i =? nr then true else abit a i).
Proof.
  intros Ha Hnr. apply (test_and_update_ok a nr _ (fun _ => true)); try done; [auto with bits|].
  intros w b Hw Hb. rewrite Z.lor_spec, testbit_BIT_MASK by done. destruct (_ =? _); btauto.
Qed.

Lemma __test_and_clear_bit_ok a nr :
  words a -> 0 <= nr < 32 * Z.of_nat (length a) ->
  wp (__test_and_clear_bit nr a) (fun '(r, a') =>
    r = of_bool (abit a nr) /\ words a' /\ length a' = length a /\
    forall i, abit a' i = if i =? nr then false else abit a i).
Proof.
  intros Ha Hnr. apply (test_and_update_ok a nr _ (fun _ => false)); try done; [auto with bits|].
  intros w b Hw Hb. rewrite Z.land_spec, testbit_not32, testbit_BIT_MASK by done.
  destruct (_ =? _); btauto.
Qed.

Lemma __test_and_change_bit_ok a nr :
  words a -> 0 <= nr < 32 * Z.of_nat (length a) ->
  wp (__test_and_change_bit nr a) (fun '(r, a') =>
    r = of_bool (abit a nr) /\ words a' /\ length a' = length a /\
    forall i, abit a' i = if i =? nr then negb (abit a i) else abit a i).
Proof.
  intros Ha Hnr. apply (test_and_update_ok a nr _ negb); try done; [auto with bits|].
  intros w b Hw Hb. rewrite Z.lxor_spec, testbit_BIT_MASK by done. destruct (_ =? _); btauto.
Qed.

Lemma __change_bit_ok a nr :
  words a -> 0 <= nr < 32 * Z.of_nat (length a) ->
  wp (__change_bit nr a) (fun a' =>
    words a' /\ length a' = length a /\ forall i, abit a' i = xorb (i =? nr) (abit a i)).
Proof.
  intros Ha Hnr. unfold __change_bit. wp_step. wp_step; [by apply bit_word_range|].
  eapply wp_mono; [apply (rmw_bit a nr _ negb); auto with bits|].
  - intros b Hb. rewrite Z.lxor_spec, testbit_BIT_MASK by done.
    unfold BIT_WORD, BITS_PER_LONG. destruct (_ =? _); btauto.
  - intros a' (? & ? & H). split; [done|]. split; [done|]. intros i. rewrite H.
    destruct (i =? nr); btauto.
Qed.

(** ** Hamming weight *)

(** The three folding steps shared by the [__sw_hweight*] functions, before
    the per-byte counts are summed. *)
Definition hw_fold (m1 m2 m4 w : Z) : Z :=
  let res := w - ((w .>> 1) .& m1) in
  let res := (res .& m2) + ((res .>> 2) .& m2) in
  (res + (res .>> 4)) .& m4.

Lemma shiftr_byte_split a b k : 0 <= a < 256 -> 0 <= k <= 8 ->
  Z.shiftr (a + 256 * b) k = Z.shiftr a k + 2 ^ (8 - k) * b.
Proof.
  intros Ha Hk. rewrite !Z.shiftr_div_pow2 by lia.
  assert (256 = 2 ^ (8 - k) * 2 ^ k) as ->.
  { rewrite <- Z.pow_add_r by lia. by replace (8 - k + k) with 8 by lia. }
  replace (2 ^ (8 - k) * 2 ^ k * b) with (2 ^ (8 - k) * b * 2 ^ k) by ring.
  apply Z.div_add. lia.
Qed.

Lemma testbit_byte_split a b i : 0 <= a < 256 -> 0 <= i ->
  Z.testbit (a + 256 * b) i = if i <? 8 then Z.testbit a i else Z.testbit b (i - 8).
Proof.
  intros Ha Hi. replace (a + 256 * b) with (Z.lor a (Z.shiftl b 8)).
  - rewrite Z.lor_spec, Z.shiftl_spec by lia. destruct (Z.ltb_spec i 8).
    + rewrite (Z.testbit_neg_r b) by lia. apply orb_false_r.
    + rewrite (testbit_above a 8) by lia. done.
  - rewrite <- Z.lxor_lor, <- Z.add_nocarry_lxor.
    + rewrite Z.shiftl_mul_pow2 by lia. lia.
    + apply Z.bits_inj'. intros j Hj. rewrite Z.land_spec, Z.shiftl_spec, Z.bits_0 by lia.
      destruct (Z.lt_ge_cases j 8).
      * rewrite (Z.testbit_neg_r b) by lia. apply andb_false_r.
      * rewrite (testbit_above a 8) by lia. done.
    + apply Z.bits_inj'. intros j Hj. rewrite Z.land_spec, Z.shiftl_spec, Z.bits_0 by lia.
      destruct (Z.lt_ge_cases j 8).
      * rewrite (Z.testbit_neg_r b) by lia. apply andb_false_r.
      * rewrite (testbit_above a 8) by lia. done.
Qed.

(** A shift within a byte followed by a mask that hides the bits coming from
    the byte above acts on each byte separately. *)
Lemma land_shr_byte_split a b m M k : 0 <= a < 256 -> 0 <= k <= 8 -> 0 <= m < 2 ^ (8 - k) ->
  Z.shiftr (a + 256 * b) k .& (m + 256 * M) =
  (Z.shiftr a k .& m) + 256 * (Z.shiftr b k .& M).
Proof.
  intros Ha Hk Hm.
  assert (2 ^ (8 - k) <= 2 ^ 8) by (apply Z.pow_le_mono_r; lia).
  assert (0 <= Z.shiftr a k .& m < 256) as Hr.
  { pose proof (land_le_r (Z.shiftr a k) m ltac:(lia)). lia. }
  apply Z.bits_inj'. intros i Hi.
  rewrite Z.land_spec, Z.shiftr_spec, !testbit_byte_split by lia.
  destruct (Z.ltb_spec i 8).
  - rewrite Z.land_spec, Z.shiftr_spec by lia. destruct (Z.ltb_spec (i + k) 8); [done|].
    rewrite (testbit_above m (8 - k) i), !andb_false_r by lia. done.
  - destruct (Z.ltb_spec (i + k) 8); [lia|]. rewrite Z.land_spec, Z.shiftr_spec by lia.
    f_equal. f_equal. lia.
Qed.

Lemma land_byte_split a b m M : 0 <= a < 256 -> 0 <= m < 256 ->
  (a + 256 * b) .& (m + 256 * M) = (a .& m) + 256 * (b .& M).
Proof.
  intros Ha Hm. pose proof (land_shr_byte_split a b m M 0 Ha ltac:(lia) ltac:(lia)) as H.
  by rewrite !Z.shiftr_0_r in H.
Qed.

(** The intermediate result of [hw_fold]: nibble counts. *)
Definition hw_nib (m1 m2 w : Z) : Z :=
  let res := w - ((w .>> 1) .& m1) in (res .& m2) + ((res .>> 2) .& m2).

Lemma hw_nib_byte a : 0 <= a < 256 ->
  0 <= a - ((a .>> 1) .& 0x55) < 256 /\
  0 <= hw_nib 0x55 0x33 a <= 68 /\ hw_nib 0x55 0x33 a mod 16 <= 4 /\
  hw_nib 0x55 0x33 a / 16 <= 4 /\
  hw_fold 0x55 0x33 0x0f a = count_bits (Z.testbit a) 0 8.
Proof.
  intros Ha. pose (P := fun a => (0 <=? a - ((a .>> 1) .& 0x55)) && (a - ((a .>> 1) .& 0x55) <? 256) &&
    (0 <=? hw_nib 0x55 0x33 a) && (hw_nib 0x55 0x33 a <=? 68) &&
    (hw_nib 0x55 0x33 a mod 16 <=? 4) && (hw_nib 0x55 0x33 a / 16 <=? 4) &&
    (hw_fold 0x55 0x33 0x0f a =? count_bits (Z.testbit a) 0 8)).
  assert (P a = true) as HP by (apply (forallb_range P 256); [vm_compute; reflexivity | done]).
  unfold P in HP. rewrite !andb_true_iff, !Z.leb_le, !Z.ltb_lt, Z.eqb_eq in HP. lia.
Qed.

Lemma hw_nib_split a b m1 m2 : 0 <= a < 256 ->
  hw_nib (0x55 + 256 * m1) (0x33 + 256 * m2) (a + 256 * b) =
  hw_nib 0x55 0x33 a + 256 * hw_nib m1 m2 b.
Proof.
  intros Ha. destruct (hw_nib_byte a Ha) as (H1 & _). unfold hw_nib.
  rewrite (land_shr_byte_split a b 0x55 m1 1) by lia.
  replace (a + 256 * b - ((a .>> 1 .& 0x55) + 256 * (b .>> 1 .& m1)))
    with ((a - (a .>> 1 .& 0x55)) + 256 * (b - (b .>> 1 .& m1))) by lia.
  rewrite land_byte_split, land_shr_byte_split by lia. lia.
Qed.

(** What the fold step needs to know of the upper bytes. *)
Lemma hw_fold_split a b m1 m2 m4 : 0 <= a < 256 ->
  0 <= hw_nib m1 m2 b -> hw_nib m1 m2 b mod 16 <= 4 ->
  hw_fold (0x55 + 256 * m1) (0x33 + 256 * m2) (0x0f + 256 * m4) (a + 256 * b) =
  count_bits (Z.testbit a) 0 8 + 256 * hw_fold m1 m2 m4 b.
Proof.
  intros Ha Hb0 Hb. destruct (hw_nib_byte a Ha) as (_ & H2 & H3 & H4 & <-).
  unfold hw_fold. fold (hw_nib (0x55 + 256 * m1) (0x33 + 256 * m2) (a + 256 * b)).
  rewrite hw_nib_split by done. fold (hw_nib 0x55 0x33 a) (hw_nib m1 m2 b).
  set (x := hw_nib 0x55 0x33 a) in *. set (y := hw_nib m1 m2 b) in *.
  rewrite shiftr_byte_split by lia. change (2 ^ (8 - 4)) with 16.
  rewrite !Z.shiftr_div_pow2 by lia. change (2 ^ 4) with 16.
  assert (0 <= y mod 16) by (apply Z.mod_pos_bound; lia).
  assert (0 <= x mod 16) by (apply Z.mod_pos_bound; lia).
  assert (0 <= x / 16) by (apply Z.div_pos; lia).
  pose proof (Z.div_mod y 16 ltac:(lia)). pose proof (Z.div_mod x 16 ltac:(lia)).
  replace (x + 256 * y + (x / 16 + 16 * y))
    with ((x + x / 16 + 16 * (y mod 16)) + 256 * (y + y / 16)) by lia.
  rewrite land_byte_split by lia. f_equal.
  change 15 with (Z.ones 4). rewrite !Z.land_ones by lia.
  rewrite Z.mul_comm. apply Z.mod_add. lia.
Qed.

Lemma hw_fold_bounds m1 m2 m4 w : 0 <= m4 -> 0 <= hw_fold m1 m2 m4 w.
Proof. intros. unfold hw_fold. apply Z.land_nonneg. by right. Qed.

(** A word as its four bytes. *)
Lemma word_bytes w : is_u32 w -> exists a b c d,
  w = a + 256 * (b + 256 * (c + 256 * d)) /\
  0 <= a < 256 /\ 0 <= b < 256 /\ 0 <= c < 256 /\ 0 <= d < 256.
Proof.
  intros Hw. unfold is_u32 in Hw.
  exists (w mod 256), (w / 256 mod 256), (w / 65536 mod 256), (w / 16777216).
  repeat split; Z.div_mod_to_equations; lia.
Qed.

Lemma hw_nib_word2 a b : 0 <= a < 256 -> 0 <= b < 256 ->
  0 <= hw_nib 0x5555 0x3333 (a + 256 * b) <= 17476 /\
  hw_nib 0x5555 0x3333 (a + 256 * b) mod 16 <= 4.
Proof.
  intros Ha Hb. change 0x5555 with (0x55 + 256 * 0x55). change 0x3333 with (0x33 + 256 * 0x33).
  rewrite hw_nib_split by done.
  destruct (hw_nib_byte a Ha) as (_ & ? & ? & ? & _), (hw_nib_byte b Hb) as (_ & ? & ? & ? & _).
  replace (256 * hw_nib 0x55 0x33 b) with (16 * hw_nib 0x55 0x33 b * 16) by lia.
  rewrite Z.mod_add by lia. lia.
Qed.

Lemma hw_nib_word3 a b c : 0 <= a < 256 -> 0 <= b < 256 -> 0 <= c < 256 ->
  0 <= hw_nib 0x555555 0x333333 (a + 256 * (b + 256 * c)) <= 4473924 /\
  hw_nib 0x555555 0x333333 (a + 256 * (b + 256 * c)) mod 16 <= 4.
Proof.
  intros Ha Hb Hc. change 0x555555 with (0x55 + 256 * 0x5555).
  change 0x333333 with (0x33 + 256 * 0x3333). rewrite hw_nib_split by done.
  destruct (hw_nib_byte a Ha) as (_ & ? & ? & ? & _), (hw_nib_word2 b c Hb Hc) as (? & ?).
  replace (256 * hw_nib 0x5555 0x3333 (b + 256 * c))
    with (16 * hw_nib 0x5555 0x3333 (b + 256 * c) * 16) by lia.
  rewrite Z.mod_add by lia. lia.
Qed.

Lemma count_bits_byte_split a b n : 0 <= a < 256 ->
  count_bits (Z.testbit (a + 256 * b)) 0 (8 + n) =
  count_bits (Z.testbit a) 0 8 + count_bits (Z.testbit b) 0 n.
Proof.
  intros Ha. rewrite count_bits_app. f_equal.
  - apply count_bits_ext. intros i Hi. rewrite testbit_byte_split by lia.
    rewrite (proj2 (Z.ltb_lt i 8)) by lia. done.
  - change (0 + Z.of_nat 8) with (0 + 8). rewrite count_bits_shift. apply count_bits_ext.
    intros i Hi. rewrite testbit_byte_split by lia.
    rewrite (proj2 (Z.ltb_ge (i + 8) 8)) by lia. f_equal. lia.
Qed.

Lemma hw_first_step_u32 w : is_u32 w -> is_u32 (w - ((w .>> 1) .& 0x55555555)).
Proof.
  intros Hw. unfold is_u32 in *.
  assert (0 <= w .>> 1 .& 0x55555555 <= w .>> 1) as H.
  { apply land_le_l. apply Z.shiftr_nonneg. lia. }
  rewrite Z.shiftr_div_pow2 in * by lia. Z.div_mod_to_equations. lia.
Qed.

(** The three folding steps at 32 bits leave in each byte of the word the
    number of bits set in that byte of the argument. *)
Lemma hw_byte_counts w : is_u32 w -> exists ca cb cc cd,
  (let r := u32 (w - ((w .>> 1) .& 0x55555555)) in
   let r := u32 ((r .& 0x33333333) + ((r .>> 2) .& 0x33333333)) in
   u32 (r + (r .>> 4)) .& 0x0f0f0f0f) = ca + 256 * (cb + 256 * (cc + 256 * cd)) /\
  0 <= ca <= 8 /\ 0 <= cb <= 8 /\ 0 <= cc <= 8 /\ 0 <= cd <= 8 /\
  count_bits (Z.testbit w) 0 32 = ca + cb + cc + cd.
Proof.
  intros Hw. cbv zeta. rewrite (u32_small (w - _)) by (by apply hw_first_step_u32).
  destruct (word_bytes w Hw) as (a & b & c & d & -> & Ha & Hb & Hc & Hd).
  fold (hw_nib 0x55555555 0x33333333 (a + 256 * (b + 256 * (c + 256 * d)))).
  assert (hw_nib 0x55555555 0x33333333 (a + 256 * (b + 256 * (c + 256 * d))) =
    hw_nib 0x55 0x33 a + 256 * hw_nib 0x555555 0x333333 (b + 256 * (c + 256 * d))) as En.
  { change 0x55555555 with (0x55 + 256 * 0x555555). change 0x33333333 with (0x33 + 256 * 0x333333).
    by rewrite hw_nib_split. }
  destruct (hw_nib_byte a Ha) as (_ & ? & ? & ? & _).
  destruct (hw_nib_word3 b c d Hb Hc Hd) as (? & ?).
  rewrite (u32_small (hw_nib _ _ _)) by (rewrite En; unfold is_u32; lia).
  assert (hw_fold 0x55555555 0x33333333 0x0f0f0f0f (a + 256 * (b + 256 * (c + 256 * d))) =
    count_bits (Z.testbit a) 0 8 + 256 * (count_bits (Z.testbit b) 0 8 +
    256 * (count_bits (Z.testbit c) 0 8 + 256 * count_bits (Z.testbit d) 0 8))) as Ef.
  { change 0x55555555 with (0x55 + 256 * 0x555555). change 0x33333333 with (0x33 + 256 * 0x333333).
    change 0x0f0f0f0f with (0x0f + 256 * 0x0f0f0f).
    destruct (hw_nib_word2 c d Hc Hd) as (? & ?), (hw_nib_byte d Hd) as (_ & ? & ? & ? & <-).
    rewrite hw_fold_split by (done || lia). do 2 f_equal.
    change 0x555555 with (0x55 + 256 * 0x5555). change 0x333333 with (0x33 + 256 * 0x3333).
    change 0x0f0f0f with (0x0f + 256 * 0x0f0f).
    rewrite hw_fold_split by (done || lia). do 2 f_equal.
    change 0x5555 with (0x55 + 256 * 0x55). change 0x3333 with (0x33 + 256 * 0x33).
    change 0x0f0f with (0x0f + 256 * 0x0f).
    by rewrite hw_fold_split by (done || lia). }
  unfold hw_fold in Ef. fold (hw_nib 0x55555555 0x33333333 (a + 256 * (b + 256 * (c + 256 * d)))) in Ef.
  rewrite (u32_small (hw_nib _ _ _ + _)).
  2:{ rewrite En, Z.shiftr_div_pow2 by lia. unfold is_u32. Z.div_mod_to_equations. lia. }
  rewrite Ef. clear Ef En.
  exists (count_bits (Z.testbit a) 0 8), (count_bits (Z.testbit b) 0 8),
    (count_bits (Z.testbit c) 0 8), (count_bits (Z.testbit d) 0 8).
  pose proof (count_bits_bounds (Z.testbit a) 0 8). pose proof (count_bits_bounds (Z.testbit b) 0 8).
  pose proof (count_bits_bounds (Z.testbit c) 0 8). pose proof (count_bits_bounds (Z.testbit d) 0 8).
  change 32%nat with (8 + (8 + (8 + 8)))%nat. rewrite !count_bits_byte_split by done. lia.
Qed.

(** The multiplication adds the four byte counts up in the highest byte. *)
Lemma __sw_hweight32_ok w :
  is_u32 w -> __sw_hweight32 w = count_bits (Z.testbit w) 0 32.
Proof.
  intros Hw. destruct (hw_byte_counts w Hw) as (ca & cb & cc & cd & E & ? & ? & ? & ? & ->).
  cbv zeta in E. unfold __sw_hweight32. cbv zeta. rewrite E, Z.shiftr_div_pow2 by lia. unfold u32.
  change (2 ^ 32) with 4294967296. change (2 ^ 24) with 16777216.
  replace ((ca + 256 * (cb + 256 * (cc + 256 * cd))) * 0x01010101) with
    (ca + 256 * (ca + cb) + 65536 * (ca + cb + cc) + (ca + cb + cc + cd) * 16777216 +
     (cb + cc + cd + 256 * (cc + cd) + 65536 * cd) * 4294967296) by lia.
  rewrite Z.mod_add, Z.mod_small, Z.div_add, Z.div_small by lia. lia.
Qed.

Lemma __sw_hweight32_shifts_ok w :
  is_u32 w -> __sw_hweight32_shifts w = count_bits (Z.testbit w) 0 32.
Proof.
  intros Hw. destruct (hw_byte_counts w Hw) as (ca & cb & cc & cd & E & ? & ? & ? & ? & ->).
  cbv zeta in E. unfold __sw_hweight32_shifts. cbv zeta. rewrite E. clear E.
  rewrite !Z.shiftr_div_pow2 by lia. change (2 ^ 8) with 256. change (2 ^ 16) with 65536.
  replace ((ca + 256 * (cb + 256 * (cc + 256 * cd))) / 256) with (cb + 256 * (cc + 256 * cd))
    by (Z.div_mod_to_equations; lia).
  rewrite (u32_small (ca + _ + _)) by (unfold is_u32; lia).
  replace ((ca + 256 * (cb + 256 * (cc + 256 * cd)) + (cb + 256 * (cc + 256 * cd))) / 65536)
    with ((cc + cd) + 256 * cd) by (Z.div_mod_to_equations; lia).
  rewrite u32_small by (unfold is_u32; lia). change 0xff with (Z.ones 8).
  rewrite Z.land_ones by lia. change (2 ^ 8) with 256. Z.div_mod_to_equations. lia.
Qed.

Lemma __sw_hweight8_ok w : 0 <= w < 2 ^ 8 -> __sw_hweight8 w = count_bits (Z.testbit w) 0 8.
Proof.
  intros Hw. apply Z.eqb_eq. revert w Hw.
  apply (forallb_range (fun w => __sw_hweight8 w =? count_bits (Z.testbit w) 0 8)).
  vm_compute. done.
Qed.

Lemma __sw_hweight16_ok w : 0 <= w < 2 ^ 16 -> __sw_hweight16 w = count_bits (Z.testbit w) 0 16.
Proof.
  intros Hw. unfold __sw_hweight16.
  assert (is_u32 (w - ((w .>> 1) .& 0x5555))) as H1.
  { assert (0 <= w .>> 1 .& 0x5555 <= w .>> 1) by (apply land_le_l, Z.shiftr_nonneg; lia).
    rewrite Z.shiftr_div_pow2 in * by lia. unfold is_u32. Z.div_mod_to_equations. lia. }
  rewrite (u32_small (w - _)) by done. clear H1.
  assert (exists a b, w = a + 256 * b /\ 0 <= a < 256 /\ 0 <= b < 256) as (a & b & -> & Ha & Hb).
  { exists (w mod 256), (w / 256). Z.div_mod_to_equations. lia. }
  fold (hw_nib 0x5555 0x3333 (a + 256 * b)). destruct (hw_nib_word2 a b Ha Hb) as (? & _).
  rewrite (u32_small (hw_nib _ _ _)) by (unfold is_u32; lia).
  rewrite (u32_small (hw_nib _ _ _ + _)).
  2:{ rewrite Z.shiftr_div_pow2 by lia. unfold is_u32. Z.div_mod_to_equations. lia. }
  change ((hw_nib 0x5555 0x3333 (a + 256 * b) + (hw_nib 0x5555 0x3333 (a + 256 * b) .>> 4)) .& 0x0f0f)
    with (hw_fold 0x5555 0x3333 0x0f0f (a + 256 * b)).
  destruct (hw_nib_byte b Hb) as (_ & ? & ? & ? & Eb).
  change 0x5555 with (0x55 + 256 * 0x55). change 0x3333 with (0x33 + 256 * 0x33).
  change 0x0f0f with (0x0f + 256 * 0x0f). rewrite hw_fold_split, Eb by (done || lia).
  change 16%nat with (8 + 8)%nat. rewrite count_bits_byte_split by done.
  pose proof (count_bits_bounds (Z.testbit a) 0 8). pose proof (count_bits_bounds (Z.testbit b) 0 8).
  rewrite Z.shiftr_div_pow2 by lia. change (2 ^ 8) with 256.
  rewrite u32_small by (unfold is_u32; Z.div_mod_to_equations; lia).
  change 0xff with (Z.ones 8). rewrite Z.land_ones by lia. change (2 ^ 8) with 256.
  Z.div_mod_to_equations. lia.
Qed.

Lemma __sw_hweight64_ok w :
  0 <= w < 2 ^ 64 -> __sw_hweight64 w = count_bits (Z.testbit w) 0 64.
Proof.
  intros Hw. unfold __sw_hweight64. change 64%nat with (32 + 32)%nat. rewrite count_bits_app.
  rewrite !__sw_hweight32_ok by apply u32_range.
  pose proof (count_bits_bounds (Z.testbit (u32 (w .>> 32))) 0 32).
  pose proof (count_bits_bounds (Z.testbit (u32 w)) 0 32).
  rewrite u32_small by (unfold is_u32; lia). rewrite Z.add_comm. f_equal.
  - apply count_bits_ext. intros i Hi. by rewrite testbit_u32 by lia.
  - change (0 + Z.of_nat 32) with (0 + 32). rewrite count_bits_shift. apply count_bits_ext.
    intros i Hi. rewrite testbit_u32, Z.shiftr_spec by lia. done.
Qed.

(** ** Properties *)

(** C36: The bit searches of [lib/find_next_bit.c] and [lib/find_last_bit.c] return on
    every bitmap of at least [size] bits, without reading outside it:
    [find_next_bit] the first set bit at or after [offset] (and [size] when
    there is none), [find_next_zero_bit] the first clear bit, [find_first_bit]
    and [find_first_zero_bit] the same from bit 0, [find_last_bit] the last
    set bit. *)
Theorem bit_searches_correct addr size offset :
  words addr -> is_u32 size -> is_u32 offset -> size <= 32 * Z.of_nat (length addr) ->
  wp (find_next_bit addr size offset) (next_in (abit addr) offset size) /\
  wp (find_next_zero_bit addr size offset) (next_in (fun i => negb (abit addr i)) offset size) /\
  wp (find_first_bit addr size) (next_in (abit addr) 0 size) /\
  wp (find_first_zero_bit addr size) (next_in (fun i => negb (abit addr i)) 0 size) /\
  wp (find_last_bit addr size) (last_in (abit addr) size).
Proof.
  intros Ha Hs Ho Hl. split; [by apply find_next_bit_ok|]. split; [by apply find_next_zero_bit_ok|].
  split; [by apply find_first_bit_ok|]. split; [|by apply find_last_bit_ok].
  rewrite find_first_zero_bit_next by done. by apply find_next_zero_bit_ok.
Qed.

Lemma bit_searches_correct_witness :
  wp (find_next_bit [0; 6] 64 3) (next_in (abit [0; 6]) 3 64).
Proof. apply bit_searches_correct; concrete. Defined.

(** The population counts of [lib/hweight.c] equal the number of set bits
    of their argument at each width; at 32 bits in both configurations of the
    file, the byte counts summed by a multiplication (as compiled for x86) or
    by shifts and additions. *)
Theorem hweight_correct w :
  (0 <= w < 2 ^ 8 -> __sw_hweight8 w = count_bits (Z.testbit w) 0 8) /\
  (0 <= w < 2 ^ 16 -> __sw_hweight16 w = count_bits (Z.testbit w) 0 16) /\
  (0 <= w < 2 ^ 32 -> __sw_hweight32 w = count_bits (Z.testbit w) 0 32) /\
  (0 <= w < 2 ^ 32 -> __sw_hweight32_shifts w = count_bits (Z.testbit w) 0 32) /\
  (0 <= w < 2 ^ 64 -> __sw_hweight64 w = count_bits (Z.testbit w) 0 64).
Proof.
  auto 7 using __sw_hweight8_ok, __sw_hweight16_ok, __sw_hweight32_ok, __sw_hweight32_shifts_ok,
    __sw_hweight64_ok.
Qed.

Lemma hweight_correct_witness : __sw_hweight32 0xdeadbeef = 24.
Proof. rewrite (proj1 (proj2 (proj2 (hweight_correct 0xdeadbeef)))); concrete. Defined.

(** Each single-bit access of [asm-generic/bitops/non-atomic.h] changes
    bit [nr] as it says and no other bit, and the [test_and_] forms return the
    bit's previous value. *)
Theorem single_bit_ops_correct a nr :
  words a -> 0 <= nr < 32 * Z.of_nat (length a) ->
  test_bit nr a = Some (of_bool (abit a nr)) /\
  wp (__set_bit nr a) (fun a' => words a' /\ length a' = length a /\
    forall i, abit a' i = (i =? nr) || abit a i) /\
  wp (__clear_bit nr a) (fun a' => words a' /\ length a' = length a /\
    forall i, abit a' i = negb (i =? nr) && abit a i) /\
  wp (__change_bit nr a) (fun a' => words a' /\ length a' = length a /\
    forall i, abit a' i = xorb (i =? nr) (abit a i)) /\
  wp (__test_and_set_bit nr a) (fun '(r, a') => r = of_bool (abit a nr) /\
    words a' /\ length a' = length a /\
    forall i, abit a' i = if i =? nr then true else abit a i) /\
  wp (__test_and_clear_bit nr a) (fun '(r, a') => r = of_bool (abit a nr) /\
    words a' /\ length a' = length a /\
    forall i, abit a' i = if i =? nr then false else abit a i) /\
  wp (__test_and_change_bit nr a) (fun '(r, a') => r = of_bool (abit a nr) /\
    words a' /\ length a' = length a /\
    forall i, abit a' i = if i =? nr then negb (abit a i) else abit a i).
Proof.
  intros Ha Hnr.
  auto 10 using test_bit_ok, __set_bit_ok, __clear_bit_ok, __change_bit_ok,
    __test_and_set_bit_ok, __test_and_clear_bit_ok, __test_and_change_bit_ok.
Qed.

Lemma single_bit_ops_correct_witness : test_bit 33 [0; 6] = Some 1.
Proof. apply (single_bit_ops_correct [0; 6] 33); concrete. Defined.
