(* ===== verification/Bitmap.v ===== *)
(** * Bitmaps

    [lib/bitmap.c]: operations on arrays of [unsigned long] seen as arrays of
    bits.  Each operation is translated word by word; its theorem states what
    it does to each bit ([Bitops.abit]), that it stays inside the array, and
    what happens to the unused bits of the last word.

    Destination and sources may be the same array (the kernel calls
    [bitmap_and(dst, dst, src, n)], and [__bitmap_parse] shifts in place): a
    source operand is [option (list Z)], where [None] stands for the
    destination itself, read in its current state. *)

From S2P Require Import Prelude Bitops.
Open Scope c_scope.

(** ** Definitions *)

Definition BITMAP_LAST_WORD_MASK (nbits : Z) : Z :=
  if truthy (nbits mod BITS_PER_LONG)
  then u32 ((1 .<< (nbits mod BITS_PER_LONG)) - 1) else ULONG_MAX.

Definition BITMAP_FIRST_WORD_MASK (start : Z) : Z :=
  ULONG_MAX .<< (start mod BITS_PER_LONG).

(** A source operand, possibly the destination itself. *)
Definition operand (src : option (list Z)) (dst : list Z) : list Z := default dst src.

Definition __bitmap_empty (bitmap : list Z) (bits : Z) : option Z :=
  let lim := bits / BITS_PER_LONG in
  c_seq (c_for 0 lim (fun k _ =>
    w ← arr_get bitmap k;
    if truthy w then Some (inr 0) else Some (inl tt)) tt) (fun _ =>
  if truthy (bits mod BITS_PER_LONG) then
    w ← arr_get bitmap lim;
    if truthy (w .& BITMAP_LAST_WORD_MASK bits) then Some 0 else Some 1
  else Some 1).

Definition __bitmap_full (bitmap : list Z) (bits : Z) : option Z :=
  let lim := bits / BITS_PER_LONG in
  c_seq (c_for 0 lim (fun k _ =>
    w ← arr_get bitmap k;
    if truthy (.~ w) then Some (inr 0) else Some (inl tt)) tt) (fun _ =>
  if truthy (bits mod BITS_PER_LONG) then
    w ← arr_get bitmap lim;
    if truthy (.~ w .& BITMAP_LAST_WORD_MASK bits) then Some 0 else Some 1
  else Some 1).

Definition __bitmap_equal (bitmap1 bitmap2 : list Z) (bits : Z) : option Z :=
  let lim := bits / BITS_PER_LONG in
  c_seq (c_for 0 lim (fun k _ =>
    w1 ← arr_get bitmap1 k;
    w2 ← arr_get bitmap2 k;
    if negb (w1 =? w2) then Some (inr 0) else Some (inl tt)) tt) (fun _ =>
  if truthy (bits mod BITS_PER_LONG) then
    w1 ← arr_get bitmap1 lim;
    w2 ← arr_get bitmap2 lim;
    if truthy ((w1 .^ w2) .& BITMAP_LAST_WORD_MASK bits) then Some 0 else Some 1
  else Some 1).

Definition __bitmap_intersects (bitmap1 bitmap2 : list Z) (bits : Z) : option Z :=
  let lim := bits / BITS_PER_LONG in
  c_seq (c_for 0 lim (fun k _ =>
    w1 ← arr_get bitmap1 k;
    w2 ← arr_get bitmap2 k;
    if truthy (w1 .& w2) then Some (inr 1) else Some (inl tt)) tt) (fun _ =>
  if truthy (bits mod BITS_PER_LONG) then
    w1 ← arr_get bitmap1 lim;
    w2 ← arr_get bitmap2 lim;
    if truthy ((w1 .& w2) .& BITMAP_LAST_WORD_MASK bits) then Some 1 else Some 0
  else Some 0).

Definition __bitmap_subset (bitmap1 bitmap2 : list Z) (bits : Z) : option Z :=
  let lim := bits / BITS_PER_LONG in
  c_seq (c_for 0 lim (fun k _ =>
    w1 ← arr_get bitmap1 k;
    w2 ← arr_get bitmap2 k;
    if truthy (w1 .& .~ w2) then Some (inr 0) else Some (inl tt)) tt) (fun _ =>
  if truthy (bits mod BITS_PER_LONG) then
    w1 ← arr_get bitmap1 lim;
    w2 ← arr_get bitmap2 lim;
    if truthy ((w1 .& .~ w2) .& BITMAP_LAST_WORD_MASK bits) then Some 0 else Some 1
  else Some 1).

Definition __bitmap_complement (dst : list Z) (src : option (list Z)) (bits : Z) : option (list Z) :=
  let lim := bits / BITS_PER_LONG in
  dst ← c_for_all 0 lim (fun k dst =>
    w ← arr_get (operand src dst) k;
    arr_set dst k (.~ w)) dst;
  if truthy (bits mod BITS_PER_LONG) then
    w ← arr_get (operand src dst) lim;
    arr_set dst lim (.~ w .& BITMAP_LAST_WORD_MASK bits)
  else Some dst.

(** [memset(&dst[from], 0, n * sizeof(unsigned long))]. *)
Definition zero_words (dst : list Z) (from n : Z) : option (list Z) :=
  c_for_all from (from + n) (fun k dst => arr_set dst k 0) dst.

(** A shift by [n <= BITS_PER_LONG].  C leaves a shift by the full width
    undefined; [over x] is what it gives for [x]: [None] by the standard,
    [Some x] on x86, whose shifts take their count modulo 32. *)
Definition shl_over (over : Z -> option Z) (x n : Z) : option Z :=
  if n <? BITS_PER_LONG then Some (x .<< n) else over x.

Definition shr_over (over : Z -> option Z) (x n : Z) : option Z :=
  if n <? BITS_PER_LONG then Some (x .>> n) else over x.

Definition __bitmap_shift_right (over : Z -> option Z) (dst : list Z) (src : option (list Z))
    (shift bits : Z) : option (list Z) :=
  let lim := BITS_TO_LONGS bits in
  let left := bits mod BITS_PER_LONG in
  let off := shift / BITS_PER_LONG in
  let rem := shift mod BITS_PER_LONG in
  let mask := u32 ((1 .<< left) - 1) in
  dst ← c_for_all 0 (lim - off) (fun k dst =>
    upper ←
      (if (rem =? 0) || (lim <=? off + k + 1) then Some 0
       else
         upper ← arr_get (operand src dst) (off + k + 1);
         Some (if (off + k + 1 =? lim - 1) && truthy left then upper .& mask else upper));
    lower ← arr_get (operand src dst) (off + k);
    let lower := if truthy left && (off + k =? lim - 1) then lower .& mask else lower in
    upper ← shl_over over upper (BITS_PER_LONG - rem);
    let v := upper .| (lower .>> rem) in
    arr_set dst k (if truthy left && (k =? lim - 1) then v .& mask else v)) dst;
  if truthy off then zero_words dst (lim - off) off else Some dst.

(** The loop of [__bitmap_shift_left] counts [k] down from [lim - off - 1];
    iteration [j] handles [k = lim - off - 1 - j]. *)
Definition __bitmap_shift_left (over : Z -> option Z) (dst : list Z) (src : option (list Z))
    (shift bits : Z) : option (list Z) :=
  let lim := BITS_TO_LONGS bits in
  let left := bits mod BITS_PER_LONG in
  let off := shift / BITS_PER_LONG in
  let rem := shift mod BITS_PER_LONG in
  dst ← c_for_all 0 (lim - off) (fun j dst =>
    let k := lim - off - 1 - j in
    lower ← (if truthy rem && (0 <? k) then arr_get (operand src dst) (k - 1) else Some 0);
    upper ← arr_get (operand src dst) k;
    let upper := if truthy left && (k =? lim - 1) then upper .& u32 ((1 .<< left) - 1) else upper in
    lower ← shr_over over lower (BITS_PER_LONG - rem);
    let v := lower .| (upper .<< rem) in
    arr_set dst (k + off)
      (if truthy left && (k + off =? lim - 1) then v .& u32 ((1 .<< left) - 1) else v)) dst;
  if truthy off then zero_words dst 0 off else Some dst.

Definition __bitmap_and (dst : list Z) (bitmap1 bitmap2 : option (list Z)) (bits : Z)
    : option (Z * list Z) :=
  let nr := BITS_TO_LONGS bits in
  '(result, dst) ← c_for_all 0 nr (fun k '(result, dst) =>
    w1 ← arr_get (operand bitmap1 dst) k;
    w2 ← arr_get (operand bitmap2 dst) k;
    dst' ← arr_set dst k (w1 .& w2);
    Some (result .| (w1 .& w2), dst')) (0, dst);
  Some (of_bool (truthy result), dst).

Definition __bitmap_or (dst : list Z) (bitmap1 bitmap2 : option (list Z)) (bits : Z)
    : option (list Z) :=
  let nr := BITS_TO_LONGS bits in
  c_for_all 0 nr (fun k dst =>
    w1 ← arr_get (operand bitmap1 dst) k;
    w2 ← arr_get (operand bitmap2 dst) k;
    arr_set dst k (w1 .| w2)) dst.

Definition __bitmap_xor (dst : list Z) (bitmap1 bitmap2 : option (list Z)) (bits : Z)
    : option (list Z) :=
  let nr := BITS_TO_LONGS bits in
  c_for_all 0 nr (fun k dst =>
    w1 ← arr_get (operand bitmap1 dst) k;
    w2 ← arr_get (operand bitmap2 dst) k;
    arr_set dst k (w1 .^ w2)) dst.

Definition __bitmap_andnot (dst : list Z) (bitmap1 bitmap2 : option (list Z)) (bits : Z)
    : option (Z * list Z) :=
  let nr := BITS_TO_LONGS bits in
  '(result, dst) ← c_for_all 0 nr (fun k '(result, dst) =>
    w1 ← arr_get (operand bitmap1 dst) k;
    w2 ← arr_get (operand bitmap2 dst) k;
    dst' ← arr_set dst k (w1 .& .~ w2);
    Some (result .| (w1 .& .~ w2), dst')) (0, dst);
  Some (of_bool (truthy result), dst).

Definition __bitmap_weight (bitmap : list Z) (bits : Z) : option Z :=
  let lim := bits / BITS_PER_LONG in
  w ← c_for_all 0 lim (fun k w =>
    v ← arr_get bitmap k;
    Some (w + hweight_long v)) 0;
  if truthy (bits mod BITS_PER_LONG) then
    v ← arr_get bitmap lim;
    Some (w + hweight_long (v .& BITMAP_LAST_WORD_MASK bits))
  else Some w.

(** [bitmap_set] and [bitmap_clear]: state [(p, nr, bits_to_set, mask, map)]. *)
Definition bitmap_set (map : list Z) (start nr : Z) : option (list Z) :=
  let p := BIT_WORD start in
  let size := start + nr in
  let bits_to_set := BITS_PER_LONG - start mod BITS_PER_LONG in
  let mask_to_set := BITMAP_FIRST_WORD_MASK start in
  c_loop (S (Z.to_nat nr)) (fun '(p, nr, bits_to_set, mask_to_set, map) =>
    if 0 <=? nr - bits_to_set then
      w ← arr_get map p;
      map' ← arr_set map p (w .| mask_to_set);
      Some (inl (p + 1, nr - bits_to_set, BITS_PER_LONG, ULONG_MAX, map'))
    else if truthy nr then
      let mask_to_set := mask_to_set .& BITMAP_LAST_WORD_MASK size in
      w ← arr_get map p;
      map' ← arr_set map p (w .| mask_to_set);
      Some (inr map')
    else Some (inr map))
    (p, nr, bits_to_set, mask_to_set, map).

Definition bitmap_clear (map : list Z) (start nr : Z) : option (list Z) :=
  let p := BIT_WORD start in
  let size := start + nr in
  let bits_to_clear := BITS_PER_LONG - start mod BITS_PER_LONG in
  let mask_to_clear := BITMAP_FIRST_WORD_MASK start in
  c_loop (S (Z.to_nat nr)) (fun '(p, nr, bits_to_clear, mask_to_clear, map) =>
    if 0 <=? nr - bits_to_clear then
      w ← arr_get map p;
      map' ← arr_set map p (w .& .~ mask_to_clear);
      Some (inl (p + 1, nr - bits_to_clear, BITS_PER_LONG, ULONG_MAX, map'))
    else if truthy nr then
      let mask_to_clear := mask_to_clear .& BITMAP_LAST_WORD_MASK size in
      w ← arr_get map p;
      map' ← arr_set map p (w .& .~ mask_to_clear);
      Some (inr map')
    else Some (inr map))
    (p, nr, bits_to_clear, mask_to_clear, map).

(** [bitmap_zero], [bitmap_fill], [bitmap_copy] of [include/linux/bitmap.h]
    (the branch for a size that is not a small constant). *)
Definition bitmap_zero (dst : list Z) (nbits : Z) : option (list Z) :=
  zero_words dst 0 (BITS_TO_LONGS nbits).

Definition bitmap_fill (dst : list Z) (nbits : Z) : option (list Z) :=
  let nlongs := BITS_TO_LONGS nbits in
  dst ← c_for_all 0 (nlongs - 1) (fun k dst => arr_set dst k ULONG_MAX) dst;
  arr_set dst (nlongs - 1) (BITMAP_LAST_WORD_MASK nbits).

Definition bitmap_copy (dst : list Z) (src : option (list Z)) (nbits : Z) : option (list Z) :=
  c_for_all 0 (BITS_TO_LONGS nbits) (fun k dst =>
    w ← arr_get (operand src dst) k; arr_set dst k w) dst.

(** Little-endian i386: [cpu_to_le32] is the identity. *)
Definition cpu_to_le32 (x : Z) : Z := x.

Definition bitmap_copy_le (dst : list Z) (src : list Z) (nbits : Z) : option (list Z) :=
  c_for_all 0 (nbits / BITS_PER_LONG) (fun i d =>
    w ← arr_get src i; arr_set d i (cpu_to_le32 w)) dst.

(** ** Masks *)

Lemma shl_1_sub_1 n : 0 <= n < 32 -> u32 ((1 .<< n) - 1) = Z.ones n.
Proof.
  intros Hn. unfold shl32. rewrite Z.shiftl_mul_pow2, Z.mul_1_l by lia.
  assert (0 < 2 ^ n < 2 ^ 32).
  { split; [apply Z.pow_pos_nonneg; lia | apply Z.pow_lt_mono_r; lia]. }
  rewrite (u32_small (2 ^ n)) by (unfold is_u32; lia).
  rewrite u32_small by (unfold is_u32; lia). by rewrite Z.ones_equiv.
Qed.

Lemma LAST_WORD_MASK_u32 nbits : is_u32 (BITMAP_LAST_WORD_MASK nbits).
Proof. unfold BITMAP_LAST_WORD_MASK. destruct (truthy _); auto with bits. Qed.
#[export] Hint Resolve LAST_WORD_MASK_u32 : bits.

Lemma testbit_LAST_WORD_MASK nbits b : 0 <= b < 32 ->
  Z.testbit (BITMAP_LAST_WORD_MASK nbits) b = (nbits mod 32 =? 0) || (b <? nbits mod 32).
Proof.
  intros Hb. unfold BITMAP_LAST_WORD_MASK, truthy, BITS_PER_LONG.
  pose proof (Z.mod_pos_bound nbits 32 ltac:(lia)).
  destruct (Z.eqb_spec (nbits mod 32) 0); simpl; [by apply testbit_ULONG_MAX|].
  rewrite shl_1_sub_1 by lia. destruct (Z.ltb_spec b (nbits mod 32)).
  - apply Z.ones_spec_low. lia.
  - apply Z.ones_spec_high. lia.
Qed.

Lemma BITS_TO_LONGS_spec bits :
  0 <= bits -> bits <= 32 * BITS_TO_LONGS bits < bits + 32 /\ 0 <= BITS_TO_LONGS bits.
Proof. intros. unfold BITS_TO_LONGS, BITS_PER_LONG. Z.div_mod_to_equations. lia. Qed.

Lemma BITS_TO_LONGS_eq bits : 0 <= bits ->
  BITS_TO_LONGS bits = bits / 32 + (if truthy (bits mod 32) then 1 else 0).
Proof.
  intros. unfold BITS_TO_LONGS, BITS_PER_LONG, truthy.
  destruct (Z.eqb_spec (bits mod 32) 0); simpl; Z.div_mod_to_equations; lia.
Qed.

(** ** Predicates *)

(** The common shape of [__bitmap_empty] and its siblings: a scan of the full
    words of a word-valued function [g], then of the masked last word. *)
Lemma test_words_ok (g : Z -> Z) (body : Z -> unit -> option (unit + Z)) tail bits yes no :
  (forall k, is_u32 (g k)) -> 0 <= bits ->
  (forall k, 0 <= k < bits / 32 ->
     body k tt = Some (if truthy (g k) then inr no else inl tt)) ->
  tail = Some (if truthy (bits mod 32) && truthy (g (bits / 32) .& BITMAP_LAST_WORD_MASK bits)
               then no else yes) ->
  wp (c_seq (c_for 0 (bits / 32) body tt) (fun _ => tail)) (fun r =>
    (r = yes /\ forall i, 0 <= i < bits -> Z.testbit (g (i / 32)) (i mod 32) = false) \/
    (r = no /\ exists i, 0 <= i < bits /\ Z.testbit (g (i / 32)) (i mod 32) = true)).
Proof.
  intros Hg Hbits Hbody ->. apply wp_seq.
  destruct (bit_decomp bits) as [Hd Hm].
  assert (0 <= bits / 32) as Hlim by (apply Z.div_pos; lia).
  assert (forall k b, 0 <= b < 32 -> (32 * k + b) / 32 = k /\ (32 * k + b) mod 32 = b) as Hkb
    by (intros; Z.div_mod_to_equations; lia).
  assert (forall w, is_u32 w -> w <> 0 -> exists b, 0 <= b < 32 /\ Z.testbit w b = true) as Hex.
  { intros w Hw Hnz. destruct (__ffs_spec w Hw Hnz) as (? & ? & _). eauto. }
  eapply wp_mono.
  { apply (c_for_inv (fun k _ => forall j, 0 <= j < k -> g j = 0)
      (fun r => r = no /\ exists k, 0 <= k < bits / 32 /\ g k <> 0)); [done | lia |].
    intros k [] Hk Hpre. rewrite Hbody by done. destruct (truthy (g k)) eqn:E; simpl.
    - apply truthy_true in E. eauto.
    - apply truthy_false in E. intros j Hj.
      destruct (Z.eq_dec j k) as [->|]; [done | apply Hpre; lia]. }
  intros [u|r]; simpl.
  - intros Hz. set (last := g (bits / 32) .& BITMAP_LAST_WORD_MASK bits).
    assert (is_u32 last) as Hl by (subst last; auto with bits).
    destruct (truthy (bits mod 32) && truthy last) eqn:E.
    + right. split; [done|]. apply andb_prop in E as [E1 E2].
      apply truthy_true in E1, E2. destruct (Hex last Hl E2) as (b & Hb & Ht).
      subst last. rewrite Z.land_spec, testbit_LAST_WORD_MASK in Ht by done.
      apply andb_prop in Ht as [Ht1 Ht2].
      rewrite (proj2 (Z.eqb_neq _ _) E1) in Ht2. simpl in Ht2. apply Z.ltb_lt in Ht2.
      exists (32 * (bits / 32) + b). destruct (Hkb (bits / 32) b Hb) as [-> ->]. split; [lia|done].
    + left. split; [done|]. intros i Hi. destruct (bit_decomp i) as [Hdi Hmi].
      destruct (Z.lt_ge_cases (i / 32) (bits / 32)).
      { rewrite Hz; [apply Z.bits_0|]. split; [apply Z.div_pos; lia | done]. }
      assert (i / 32 = bits / 32) as Eq by lia. rewrite Eq.
      assert (bits mod 32 <> 0) as Hnz by lia. rewrite (proj2 (truthy_true _) Hnz) in E.
      simpl in E. apply truthy_false in E.
      assert (Z.testbit last (i mod 32) = false) as Hb by (rewrite E; apply Z.bits_0).
      subst last. rewrite Z.land_spec, testbit_LAST_WORD_MASK in Hb by done.
      rewrite (proj2 (Z.ltb_lt (i mod 32) (bits mod 32))), orb_true_r, andb_true_r in Hb by lia.
      done.
  - intros [-> (k & Hk & Hnz)]. right. split; [done|].
    destruct (Hex _ (Hg k) Hnz) as (b & Hb & Ht). exists (32 * k + b).
    destruct (Hkb k b Hb) as [-> ->]. split; [lia | done].
Qed.

(** Read every word mentioned in the goal. *)
Ltac get_words :=
  repeat match goal with
  | |- context [arr_get ?a ?k] =>
      rewrite (arr_get_zth a k) by (unfold BITS_PER_LONG in *; Z.div_mod_to_equations; lia)
  end; cbn [mbind option_bind].

Ltac last_word :=
  unfold BITS_PER_LONG;
  match goal with |- context [truthy (?b mod 32)] => destruct (truthy (b mod 32)) eqn:?E end; simpl; [|reflexivity];
  match goal with E : truthy _ = true |- _ => apply truthy_true in E end;
  get_words; by destruct (truthy _).

Section unary_predicates.
Context (a1 : list Z) (bits : Z) (Ha1 : words a1).
Context (Hb : 0 <= bits) (Hl1 : bits <= 32 * Z.of_nat (length a1)).

Lemma __bitmap_empty_ok :
  wp (__bitmap_empty a1 bits) (decides (forall i, 0 <= i < bits -> abit a1 i = false)).
Proof.
  eapply wp_mono; [apply (test_words_ok (zth a1) _ _ bits 1 0); auto with bits|].
  - intros k Hk. get_words. by destruct (truthy _).
  - last_word.
  - intros r [[-> H]|[-> (i & Hi & Ht)]]; [by left | right].
    split; [done|]. intros H. specialize (H i Hi). unfold abit in H. congruence.
Qed.

Lemma __bitmap_full_ok :
  wp (__bitmap_full a1 bits) (decides (forall i, 0 <= i < bits -> abit a1 i = true)).
Proof.
  eapply wp_mono; [apply (test_words_ok (fun k => .~ zth a1 k) _ _ bits 1 0); auto with bits|].
  - intros k Hk. get_words. by destruct (truthy _).
  - last_word.
  - intros r [[-> H]|[-> (i & Hi & Ht)]]; [left | right].
    + split; [done|]. intros i Hi. specialize (H i Hi).
      rewrite testbit_not32 in H by (apply Z.mod_pos_bound; lia).
      by apply negb_false_iff in H.
    + split; [done|]. intros H. specialize (H i Hi). unfold abit in H.
      rewrite testbit_not32, H in Ht by (apply Z.mod_pos_bound; lia). done.
Qed.

End unary_predicates.

Section binary_predicates.
Context (a1 a2 : list Z) (bits : Z) (Ha1 : words a1) (Ha2 : words a2).
Context (Hb : 0 <= bits) (Hl1 : bits <= 32 * Z.of_nat (length a1)).
Context (Hl2 : bits <= 32 * Z.of_nat (length a2)).

Lemma __bitmap_equal_ok :
  wp (__bitmap_equal a1 a2 bits) (decides (forall i, 0 <= i < bits -> abit a1 i = abit a2 i)).
Proof.
  eapply wp_mono; [apply (test_words_ok (fun k => zth a1 k .^ zth a2 k) _ _ bits 1 0); auto with bits|].
  - intros k Hk. get_words. unfold truthy.
    destruct (Z.eqb_spec (zth a1 k) (zth a2 k)) as [->|Hne].
    + by rewrite Z.lxor_nilpotent.
    + by rewrite (proj2 (Z.eqb_neq _ 0)) by (by rewrite Z.lxor_eq_0_iff).
  - last_word.
  - intros r [[-> H]|[-> (i & Hi & Ht)]]; [left | right]; (split; [done|]).
    + intros i Hi. specialize (H i Hi). rewrite Z.lxor_spec in H.
      by apply xorb_eq in H.
    + intros H. specialize (H i Hi). unfold abit in H.
      rewrite Z.lxor_spec, H, xorb_nilpotent in Ht. done.
Qed.

Lemma __bitmap_intersects_ok :
  wp (__bitmap_intersects a1 a2 bits)
     (decides (exists i, 0 <= i < bits /\ abit a1 i = true /\ abit a2 i = true)).
Proof.
  eapply wp_mono; [apply (test_words_ok (fun k => zth a1 k .& zth a2 k) _ _ bits 0 1); auto with bits|].
  - intros k Hk. get_words. by destruct (truthy _).
  - last_word.
  - intros r [[-> H]|[-> (i & Hi & Ht)]]; [right | left]; (split; [done|]).
    + intros (i & Hi & H1 & H2). specialize (H i Hi). unfold abit in *.
      rewrite Z.land_spec, H1, H2 in H. done.
    + exists i. rewrite Z.land_spec in Ht. apply andb_prop in Ht. done.
Qed.

Lemma __bitmap_subset_ok :
  wp (__bitmap_subset a1 a2 bits)
     (decides (forall i, 0 <= i < bits -> abit a1 i = true -> abit a2 i = true)).
Proof.
  eapply wp_mono; [apply (test_words_ok (fun k => zth a1 k .& .~ zth a2 k) _ _ bits 1 0); auto with bits|].
  - intros k Hk. get_words. by destruct (truthy _).
  - last_word.
  - intros r [[-> H]|[-> (i & Hi & Ht)]]; [left | right]; (split; [done|]).
    + intros i Hi H1. specialize (H i Hi). unfold abit in *.
      rewrite Z.land_spec, testbit_not32, H1 in H by (apply Z.mod_pos_bound; lia).
      by apply negb_false_iff in H.
    + intros H. rewrite Z.land_spec, testbit_not32 in Ht by (apply Z.mod_pos_bound; lia).
      apply andb_prop in Ht as [H1 H2]. specialize (H i Hi H1). unfold abit in H. by rewrite H in H2.
Qed.
End binary_predicates.

(** ** Word-by-word updates *)

Lemma words_intro a :
  (forall j, 0 <= j < Z.of_nat (length a) -> is_u32 (zth a j)) -> words a.
Proof.
  intros H. apply Forall_lookup. intros i x Hx.
  pose proof (lookup_lt_Some _ _ _ Hx). specialize (H (Z.of_nat i) ltac:(lia)).
  unfold zth, arr_get in H. rewrite (proj2 (Z.leb_le 0 _)), Nat2Z.id, Hx in H by lia. done.
Qed.

(** [d] is [d0] with the words of [lo, hi) replaced by [f]. *)
Definition updated (d0 d : list Z) (lo hi : Z) (f : Z -> Z) : Prop :=
  length d = length d0 /\
  forall j, zth d j = if (lo <=? j) && (j <? hi) then f j else zth d0 j.

Lemma updated_refl d0 lo f : updated d0 d0 lo lo f.
Proof.
  split; [done|]. intros j. destruct (Z.leb_spec lo j), (Z.ltb_spec j lo); simpl; done || lia.
Qed.

Lemma updated_words d0 d lo hi f :
  words d0 -> (forall k, is_u32 (f k)) -> updated d0 d lo hi f -> words d.
Proof.
  intros H0 Hf [_ H]. apply words_intro. intros j _. rewrite H.
  destruct (_ && _); auto with bits.
Qed.

Lemma updated_abit d0 d lo hi f i :
  updated d0 d lo hi f ->
  abit d i = if (lo <=? i / 32) && (i / 32 <? hi) then Z.testbit (f (i / 32)) (i mod 32)
             else abit d0 i.
Proof. intros [_ H]. unfold abit. rewrite H. by destruct (_ && _). Qed.

(** Writing the next word upwards, and downwards. *)
Lemma updated_up d0 d lo k f :
  updated d0 d lo k f -> lo <= k -> 0 <= k < Z.of_nat (length d0) ->
  updated d0 (<[Z.to_nat k := f k]> d) lo (k + 1) f.
Proof.
  intros [Hl H] Hlo Hk. split; [by rewrite length_insert|]. intros j.
  destruct (Z.eq_dec k j) as [<-|Hne].
  - rewrite zth_insert_eq by lia.
    by rewrite (proj2 (Z.leb_le lo k)), (proj2 (Z.ltb_lt k (k + 1))) by lia.
  - rewrite zth_insert_ne, H by lia.
    by replace (j <? k + 1) with (j <? k)
      by (destruct (Z.ltb_spec j k), (Z.ltb_spec j (k + 1)); done || lia).
Qed.

Lemma updated_down d0 d k hi f :
  updated d0 d (k + 1) hi f -> k < hi -> 0 <= k < Z.of_nat (length d0) ->
  updated d0 (<[Z.to_nat k := f k]> d) k hi f.
Proof.
  intros [Hl H] Hhi Hk. split; [by rewrite length_insert|]. intros j.
  destruct (Z.eq_dec k j) as [<-|Hne].
  - rewrite zth_insert_eq by lia.
    by rewrite (proj2 (Z.leb_le k k)), (proj2 (Z.ltb_lt k hi)) by lia.
  - rewrite zth_insert_ne, H by lia.
    by replace (k + 1 <=? j) with (k <=? j)
      by (destruct (Z.leb_spec k j), (Z.leb_spec (k + 1) j); done || lia).
Qed.

Lemma update_loop_up (f : Z -> Z) (body : Z -> list Z -> option (list Z)) d0 lo hi :
  0 <= lo <= hi -> hi <= Z.of_nat (length d0) ->
  (forall k d, lo <= k < hi -> updated d0 d lo k f -> body k d = arr_set d k (f k)) ->
  wp (c_for_all lo hi body d0) (fun d => updated d0 d lo hi f).
Proof.
  intros Hlo Hhi Hbody.
  apply (c_for_all_inv (fun k d => updated d0 d lo k f)); [lia | apply updated_refl |].
  intros k d Hk Hd. rewrite Hbody by done. destruct Hd as [Hl Hd].
  wp_step; [lia|]. apply updated_up; [done | lia | lia].
Qed.

Lemma update_loop_down (f : Z -> Z) (body : Z -> list Z -> option (list Z)) d0 n off :
  0 <= n -> 0 <= off -> off + n <= Z.of_nat (length d0) ->
  (forall j d, 0 <= j < n -> updated d0 d (off + n - j) (off + n) f ->
     body j d = arr_set d (off + n - 1 - j) (f (off + n - 1 - j))) ->
  wp (c_for_all 0 n body d0) (fun d => updated d0 d off (off + n) f).
Proof.
  intros Hn Hoff Hlen Hbody.
  eapply wp_mono; [apply (c_for_all_inv (fun j d => updated d0 d (off + n - j) (off + n) f))|].
  - done.
  - rewrite Z.sub_0_r. apply updated_refl.
  - intros j d Hj Hd. rewrite Hbody by done. pose proof Hd as [Hl _].
    wp_step; [lia|]. replace (off + n - (j + 1)) with (off + n - 1 - j) by lia.
    apply updated_down; [|lia|lia]. by replace (off + n - 1 - j + 1) with (off + n - j) by lia.
  - intros d. by replace (off + n - n) with off by lia.
Qed.

(** Reading an operand at an index that the loop has not written yet. *)
Lemma operand_unwritten src d0 d lo hi f k :
  updated d0 d lo hi f -> (k < lo \/ hi <= k) ->
  0 <= k < Z.of_nat (length (operand src d0)) ->
  arr_get (operand src d) k = Some (zth (operand src d0) k).
Proof.
  intros [Hl H] Hk Hr. destruct src as [s|]; simpl in *; [by apply arr_get_zth|].
  rewrite arr_get_zth by lia. rewrite H. f_equal.
  destruct (Z.leb_spec lo k), (Z.ltb_spec k hi); simpl; done || lia.
Qed.

Lemma operand_words src d : words d -> (forall s, src = Some s -> words s) -> words (operand src d).
Proof. destruct src; simpl; auto. Qed.
#[export] Hint Resolve operand_words : bits.

Lemma zero_words_ok d from n :
  0 <= from -> 0 <= n -> from + n <= Z.of_nat (length d) ->
  wp (zero_words d from n) (fun d' => updated d d' from (from + n) (fun _ => 0)).
Proof. intros. apply update_loop_up; [lia | lia |]. done. Qed.

(** Inside the words of a bitmap of [bits] bits. *)
Lemma in_words bits i : 0 <= bits -> 0 <= i ->
  (0 <=? i / 32) && (i / 32 <? BITS_TO_LONGS bits) = (i <? 32 * BITS_TO_LONGS bits).
Proof.
  intros. destruct (Z.leb_spec 0 (i / 32)), (Z.ltb_spec (i / 32) (BITS_TO_LONGS bits)),
    (Z.ltb_spec i (32 * BITS_TO_LONGS bits)); simpl; Z.div_mod_to_equations; done || lia.
Qed.

(** A binary word operation applied to whole words, with its effect on bits. *)
Section wordwise.
Context (op : Z -> Z -> Z) (bop : bool -> bool -> bool).
Context (Hop : forall x y, is_u32 x -> is_u32 y -> is_u32 (op x y)).
Context (Hbop : forall x y i, 0 <= i < 32 ->
           Z.testbit (op x y) i = bop (Z.testbit x i) (Z.testbit y i)).

Lemma wordwise_bits d d' s1 s2 bits :
  words d -> words (operand s1 d) -> words (operand s2 d) -> 0 <= bits ->
  updated d d' 0 (BITS_TO_LONGS bits) (fun k => op (zth (operand s1 d) k) (zth (operand s2 d) k)) ->
  words d' /\ length d' = length d /\
  forall i, 0 <= i -> abit d' i =
    if i <? 32 * BITS_TO_LONGS bits then bop (abit (operand s1 d) i) (abit (operand s2 d) i)
    else abit d i.
Proof.
  intros Hd H1 H2 Hb Hu.
  split; [apply (updated_words _ _ _ _ _ Hd) in Hu; [done|]; intros k; apply Hop; auto with bits|].
  split; [apply Hu|].
  intros i Hi. rewrite (updated_abit _ _ _ _ _ _ Hu), in_words by done.
  destruct (_ <? _); [|done]. apply Hbop. apply Z.mod_pos_bound. done.
Qed.
End wordwise.

(** The hypotheses shared by the word-wise operations. *)
Definition fits (bits : Z) (a : list Z) : Prop := words a /\ bits <= 32 * Z.of_nat (length a).
#[export] Hint Unfold fits : concrete.

Lemma fits_longs bits (a : list Z) : 0 <= bits -> fits bits a ->
  BITS_TO_LONGS bits <= Z.of_nat (length a).
Proof. intros Hb [_ H]. unfold BITS_TO_LONGS, BITS_PER_LONG. Z.div_mod_to_equations. lia. Qed.

Lemma fits_words bits a : fits bits a -> words a.
Proof. by intros []. Qed.
#[export] Hint Resolve fits_words : bits.

(** ** Boolean operations *)

Section binary_ops.
Context (dst : list Z) (s1 s2 : option (list Z)) (bits : Z).
Context (Hb : 0 <= bits) (Hd : fits bits dst).
Context (H1 : fits bits (operand s1 dst)) (H2 : fits bits (operand s2 dst)).

Local Abbreviation n := (BITS_TO_LONGS bits).

Local Lemma n_nonneg : 0 <= n.
Proof. apply BITS_TO_LONGS_spec. done. Qed.
Local Lemma n_dst : n <= Z.of_nat (length dst).
Proof. by apply fits_longs. Qed.

(** Both operand reads of iteration [k]. *)
Local Lemma read_operands d k f :
  0 <= k < n -> updated dst d 0 k f ->
  arr_get (operand s1 d) k = Some (zth (operand s1 dst) k) /\
  arr_get (operand s2 d) k = Some (zth (operand s2 dst) k).
Proof.
  intros Hk Hu. pose proof (fits_longs _ _ Hb H1). pose proof (fits_longs _ _ Hb H2).
  split; (eapply operand_unwritten; [exact Hu | lia | lia]).
Qed.

Lemma wordwise_loop (op : Z -> Z -> Z) :
  wp (c_for_all 0 n (fun k d =>
        w1 ← arr_get (operand s1 d) k;
        w2 ← arr_get (operand s2 d) k;
        arr_set d k (op w1 w2)) dst)
     (fun d' => updated dst d' 0 n (fun k => op (zth (operand s1 dst) k) (zth (operand s2 dst) k))).
Proof.
  pose proof n_nonneg. pose proof n_dst.
  apply update_loop_up; [lia | lia |]. intros k d Hk Hu.
  by destruct (read_operands d k _ Hk Hu) as [-> ->].
Qed.

Lemma __bitmap_or_ok :
  wp (__bitmap_or dst s1 s2 bits) (fun d' => words d' /\ length d' = length dst /\
    forall i, 0 <= i -> abit d' i =
      if i <? 32 * n then abit (operand s1 dst) i || abit (operand s2 dst) i else abit dst i).
Proof.
  eapply wp_mono; [apply (wordwise_loop Z.lor)|]. intros d' Hu.
  apply (wordwise_bits Z.lor orb) with (s1 := s1) (s2 := s2); eauto with bits.
  intros. apply Z.lor_spec.
Qed.

Lemma __bitmap_xor_ok :
  wp (__bitmap_xor dst s1 s2 bits) (fun d' => words d' /\ length d' = length dst /\
    forall i, 0 <= i -> abit d' i =
      if i <? 32 * n then xorb (abit (operand s1 dst) i) (abit (operand s2 dst) i) else abit dst i).
Proof.
  eapply wp_mono; [apply (wordwise_loop Z.lxor)|]. intros d' Hu.
  apply (wordwise_bits Z.lxor xorb) with (s1 := s1) (s2 := s2); eauto with bits.
  intros. apply Z.lxor_spec.
Qed.

(** The loop of [__bitmap_and] and [__bitmap_andnot], which also accumulates
    the words it writes. *)
Lemma wordwise_acc_loop (op : Z -> Z -> Z) :
  (forall x y, is_u32 x -> is_u32 y -> is_u32 (op x y)) ->
  wp (c_for_all 0 n (fun k '(result, d) =>
        w1 ← arr_get (operand s1 d) k;
        w2 ← arr_get (operand s2 d) k;
        d' ← arr_set d k (op w1 w2);
        Some (result .| op w1 w2, d')) (0, dst))
     (fun '(result, d') =>
        updated dst d' 0 n (fun k => op (zth (operand s1 dst) k) (zth (operand s2 dst) k)) /\
        (result = 0 <-> forall k, 0 <= k < n -> op (zth (operand s1 dst) k) (zth (operand s2 dst) k) = 0)).
Proof.
  intros Hop. pose proof n_nonneg. pose proof n_dst.
  set (f := fun k => op (zth (operand s1 dst) k) (zth (operand s2 dst) k)).
  apply (c_for_all_inv (fun k '(result, d) => updated dst d 0 k f /\
    (result = 0 <-> forall j, 0 <= j < k -> f j = 0))); [lia | |].
  { split; [apply updated_refl|]. split; [lia | done]. }
  intros k [result d] Hk [Hu Hr]. destruct (read_operands d k f Hk Hu) as [-> ->].
  cbn [mbind option_bind]. fold (f k). pose proof Hu as [Hl _].
  wp_step. wp_step; [lia|]. simpl. split; [apply updated_up; [done | lia | lia]|].
  rewrite Z.lor_eq_0_iff, Hr. split.
  - intros [Hj Hfk] j Hlt. destruct (Z.eq_dec j k) as [->|]; [done | apply Hj; lia].
  - intros Hj. split; [intros j Hlt; apply Hj; lia | apply Hj; lia].
Qed.

Local Lemma acc_decides (op : Z -> Z -> Z) bop result :
  (forall x y, is_u32 x -> is_u32 y -> is_u32 (op x y)) ->
  (forall x y i, 0 <= i < 32 -> Z.testbit (op x y) i = bop (Z.testbit x i) (Z.testbit y i)) ->
  (result = 0 <-> forall k, 0 <= k < n -> op (zth (operand s1 dst) k) (zth (operand s2 dst) k) = 0) ->
  decides (exists i, 0 <= i < 32 * n /\ bop (abit (operand s1 dst) i) (abit (operand s2 dst) i) = true)
          (of_bool (truthy result)).
Proof.
  intros Hop Hbop Hr.
  assert (result = 0 <-> forall i, 0 <= i < 32 * n ->
    bop (abit (operand s1 dst) i) (abit (operand s2 dst) i) = false) as Hr'.
  { rewrite Hr. split.
    - intros Hz i Hi. unfold abit. rewrite <- Hbop by (apply Z.mod_pos_bound; lia).
      rewrite Hz; [apply Z.bits_0 | Z.div_mod_to_equations; lia].
    - intros Hz k Hk. apply u32_zero_iff; [apply Hop; eauto with bits|]. intros b Hbb.
      rewrite Hbop by done. specialize (Hz (32 * k + b) ltac:(lia)).
      by rewrite !abit_word in Hz by done. }
  destruct (truthy result) eqn:E; [left | right]; (split; [done|]).
  - apply truthy_true in E.
    assert (exists k, 0 <= k < n /\ op (zth (operand s1 dst) k) (zth (operand s2 dst) k) <> 0) as (k & Hk & Hnz).
    { destruct (range_search (fun k => truthy (op (zth (operand s1 dst) k) (zth (operand s2 dst) k))) 0 n)
        as [Hz|(k & Hk & Ht)].
      - exfalso. apply E, Hr. intros k Hk. by apply truthy_false, Hz.
      - exists k. split; [done|]. by apply truthy_true. }
    destruct (__ffs_spec (op (zth (operand s1 dst) k) (zth (operand s2 dst) k))) as (Hf & Ht & _);
      [apply Hop; eauto with bits | done |].
    exists (32 * k + __ffs (op (zth (operand s1 dst) k) (zth (operand s2 dst) k))).
    rewrite !abit_word, <- Hbop by done. split; [lia | done].
  - apply truthy_false in E. intros (i & Hi & Ht). rewrite (proj1 Hr' E i Hi) in Ht. done.
Qed.

Lemma __bitmap_and_ok :
  wp (__bitmap_and dst s1 s2 bits) (fun '(r, d') => words d' /\ length d' = length dst /\
    (forall i, 0 <= i -> abit d' i =
       if i <? 32 * n then abit (operand s1 dst) i && abit (operand s2 dst) i else abit dst i) /\
    decides (exists i, 0 <= i < 32 * n /\ abit (operand s1 dst) i && abit (operand s2 dst) i = true) r).
Proof.
  unfold __bitmap_and. wp_step.
  eapply wp_mono; [apply (wordwise_acc_loop Z.land); eauto with bits|].
  intros [result d'] [Hu Hr]. simpl.
  destruct (wordwise_bits Z.land andb) with (d := dst) (d' := d') (s1 := s1) (s2 := s2) (bits := bits)
    as (? & ? & ?); eauto with bits; [intros; apply Z.land_spec|].
  repeat split; try done. apply (acc_decides Z.land andb); eauto with bits.
  intros. apply Z.land_spec.
Qed.

Lemma __bitmap_andnot_ok :
  wp (__bitmap_andnot dst s1 s2 bits) (fun '(r, d') => words d' /\ length d' = length dst /\
    (forall i, 0 <= i -> abit d' i =
       if i <? 32 * n then abit (operand s1 dst) i && negb (abit (operand s2 dst) i) else abit dst i) /\
    decides (exists i, 0 <= i < 32 * n /\ abit (operand s1 dst) i && negb (abit (operand s2 dst) i) = true) r).
Proof.
  assert (forall x y i, 0 <= i < 32 ->
    Z.testbit (x .& .~ y) i = Z.testbit x i && negb (Z.testbit y i)) as Hop.
  { intros. by rewrite Z.land_spec, testbit_not32. }
  unfold __bitmap_andnot. wp_step.
  eapply wp_mono; [apply (wordwise_acc_loop (fun x y => x .& .~ y)); eauto with bits|].
  intros [result d'] [Hu Hr]. simpl.
  destruct (wordwise_bits (fun x y => x .& .~ y) (fun x y => x && negb y))
    with (d := dst) (d' := d') (s1 := s1) (s2 := s2) (bits := bits)
    as (? & ? & ?); eauto with bits.
  repeat split; try done.
  apply (acc_decides (fun x y => x .& .~ y) (fun x y => x && negb y)); eauto with bits.
Qed.
End binary_ops.

(** ** Complement, zero, fill *)

Lemma bitmap_zero_ok dst bits :
  0 <= bits -> fits bits dst ->
  wp (bitmap_zero dst bits) (fun d' => words d' /\ length d' = length dst /\
    forall i, 0 <= i -> abit d' i = if i <? 32 * BITS_TO_LONGS bits then false else abit dst i).
Proof.
  intros Hb Hd. pose proof (BITS_TO_LONGS_spec bits Hb). pose proof (fits_longs _ _ Hb Hd).
  eapply wp_mono; [apply zero_words_ok; lia|]. intros d' Hu. rewrite Z.add_0_l in Hu.
  split; [by apply (updated_words dst d' 0 (BITS_TO_LONGS bits) (fun _ => 0)); [apply Hd| |]|].
  split; [apply Hu|]. intros i Hi. rewrite (updated_abit _ _ _ _ _ _ Hu), in_words by done.
  destruct (_ <? _); [apply Z.bits_0 | done].
Qed.

(** The last word of a bitmap with a partial last word. *)
Lemma partial_last bits : 0 <= bits -> truthy (bits mod 32) = true ->
  BITS_TO_LONGS bits = bits / 32 + 1.
Proof. intros Hb E. rewrite BITS_TO_LONGS_eq by done. by rewrite E. Qed.

Lemma whole_last bits : 0 <= bits -> truthy (bits mod 32) = false ->
  BITS_TO_LONGS bits = bits / 32.
Proof. intros Hb E. rewrite BITS_TO_LONGS_eq by done. rewrite E. lia. Qed.

(** A word of index [k], masked when it is the last one, shows only the bits
    below [bits]. *)
Lemma masked_word_bit bits k b w :
  0 <= bits -> 0 <= b < 32 -> k = bits / 32 ->
  Z.testbit (w .& BITMAP_LAST_WORD_MASK bits) b =
  Z.testbit w b && ((bits mod 32 =? 0) || (32 * k + b <? bits)).
Proof.
  intros Hb0 Hb ->. rewrite Z.land_spec, testbit_LAST_WORD_MASK by done.
  destruct (bit_decomp bits) as [Hd Hm].
  replace (b <? bits mod 32) with (32 * (bits / 32) + b <? bits); [done|].
  destruct (Z.ltb_spec b (bits mod 32)), (Z.ltb_spec (32 * (bits / 32) + b) bits); done || lia.
Qed.

Lemma __bitmap_complement_ok dst src bits :
  0 <= bits -> fits bits dst -> fits bits (operand src dst) ->
  wp (__bitmap_complement dst src bits) (fun d' => words d' /\ length d' = length dst /\
    forall i, 0 <= i -> abit d' i =
      if i <? bits then negb (abit (operand src dst) i)
      else if i <? 32 * BITS_TO_LONGS bits then false else abit dst i).
Proof.
  intros Hb Hd Hs. pose proof (BITS_TO_LONGS_spec bits Hb) as [Hn Hn0].
  pose proof (fits_longs _ _ Hb Hd). pose proof (fits_longs _ _ Hb Hs).
  destruct (bit_decomp bits) as [Hdec Hmod].
  set (f := fun k => .~ zth (operand src dst) k .&
                     (if k <? bits / 32 then ULONG_MAX else BITMAP_LAST_WORD_MASK bits)).
  assert (forall k, is_u32 (f k)) as Hf.
  { intros k. subst f. destruct Hs. simpl. destruct (_ <? _); auto with bits. }
  assert (0 <= bits / 32) by (apply Z.div_pos; lia).
  unfold __bitmap_complement, BITS_PER_LONG. wp_step.
  eapply wp_mono; [apply (update_loop_up f); [lia | |]|].
  - destruct (truthy (bits mod 32)) eqn:E; [rewrite (partial_last _ Hb E) in * | rewrite (whole_last _ Hb E) in *]; lia.
  - intros k d Hk Hu. rewrite (operand_unwritten _ _ _ _ _ _ k Hu); [|lia|].
    + simpl. unfold f. rewrite (proj2 (Z.ltb_lt k (bits / 32))) by lia. f_equal.
      apply u32_ext; [destruct Hs; auto with bits.. |]. intros i Hi.
      by rewrite Z.land_spec, testbit_ULONG_MAX, andb_true_r by done.
    + destruct (truthy (bits mod 32)) eqn:E; [rewrite (partial_last _ Hb E) in * | rewrite (whole_last _ Hb E) in *]; lia.
  - intros d Hu.
    assert (forall d', updated dst d' 0 (BITS_TO_LONGS bits) f -> words d' /\ length d' = length dst /\
      forall i, 0 <= i -> abit d' i =
        if i <? bits then negb (abit (operand src dst) i)
        else if i <? 32 * BITS_TO_LONGS bits then false else abit dst i) as Hfin.
    { intros d' Hu'. split; [apply (updated_words _ _ _ _ _ (fits_words _ _ Hd)) in Hu'; done|].
      split; [apply Hu'|]. intros i Hi. rewrite (updated_abit _ _ _ _ _ _ Hu'), in_words by done.
      destruct (bit_decomp i) as [Hdi Hmi].
      destruct (Z.ltb_spec i (32 * BITS_TO_LONGS bits)); [|by rewrite (proj2 (Z.ltb_ge i bits)) by lia].
      unfold f. rewrite Z.land_spec, testbit_not32 by done. fold (abit (operand src dst) i).
      destruct (Z.ltb_spec (i / 32) (bits / 32)).
      - rewrite testbit_ULONG_MAX, andb_true_r by done.
        rewrite (proj2 (Z.ltb_lt i bits)) by lia. done.
      - rewrite testbit_LAST_WORD_MASK by done.
        destruct (truthy (bits mod 32)) eqn:E;
          [rewrite (partial_last _ Hb E) in * | rewrite (whole_last _ Hb E) in *; lia].
        apply truthy_true in E. rewrite (proj2 (Z.eqb_neq _ _) E). simpl.
        destruct (Z.ltb_spec (i mod 32) (bits mod 32)), (Z.ltb_spec i bits); try lia; btauto. }
    destruct (truthy (bits mod 32)) eqn:E.
    + rewrite (partial_last _ Hb E) in *.
      rewrite (operand_unwritten _ _ _ _ _ _ (bits / 32) Hu) by lia. simpl. pose proof Hu as [Hl _].
      wp_step; [lia|]. apply Hfin.
      replace (.~ zth (operand src dst) (bits / 32) .& BITMAP_LAST_WORD_MASK bits) with (f (bits / 32)).
      * apply updated_up; [done | lia | lia].
      * unfold f. rewrite (proj2 (Z.ltb_ge (bits / 32) (bits / 32))) by lia. done.
    + simpl. apply Hfin. by rewrite (whole_last _ Hb E).
Qed.

(** ** Shifts *)

(** The bits a shift may read: those of the bitmap proper. *)
Definition src_bit (src : list Z) (bits i : Z) : bool := (i <? bits) && abit src i.

Lemma masked_read_bit src bits k b :
  0 <= bits -> 0 <= b < 32 -> 0 <= k < BITS_TO_LONGS bits ->
  Z.testbit (if truthy (bits mod 32) && (k =? BITS_TO_LONGS bits - 1)
             then zth src k .& u32 ((1 .<< (bits mod 32)) - 1) else zth src k) b =
  src_bit src bits (32 * k + b).
Proof.
  intros Hb0 Hb Hk. unfold src_bit. rewrite abit_word by done.
  destruct (bit_decomp bits) as [Hd Hm]. pose proof (BITS_TO_LONGS_spec bits Hb0) as [Hn _].
  destruct (truthy (bits mod 32)) eqn:E; simpl.
  - rewrite (partial_last _ Hb0 E) in *. destruct (Z.eqb_spec k (bits / 32 + 1 - 1)).
    + rewrite shl_1_sub_1, Z.land_spec by lia.
      destruct (Z.ltb_spec (32 * k + b) bits).
      * rewrite Z.ones_spec_low by lia. btauto.
      * rewrite Z.ones_spec_high by lia. btauto.
    + rewrite (proj2 (Z.ltb_lt (32 * k + b) bits)) by lia. done.
  - rewrite (whole_last _ Hb0 E) in *. rewrite (proj2 (Z.ltb_lt (32 * k + b) bits)) by lia. done.
Qed.

Lemma masked_read_u32 src (c : bool) k m :
  words src -> is_u32 m -> is_u32 (if c then zth src k .& m else zth src k).
Proof. intros. destruct c; auto with bits. Qed.
#[export] Hint Resolve masked_read_u32 : bits.

(** Bit [b] of the word assembled from two adjacent source words. *)
Lemma shr_join_bit upper lower rem b :
  is_u32 upper -> is_u32 lower -> 0 <= rem < 32 -> 0 <= b < 32 ->
  Z.testbit ((upper .<< (32 - rem)) .| (lower .>> rem)) b =
  if b + rem <? 32 then Z.testbit lower (b + rem) else Z.testbit upper (b + rem - 32).
Proof.
  intros Hu Hl Hr Hb. rewrite Z.lor_spec, testbit_shl32, Z.shiftr_spec by lia.
  destruct (Z.ltb_spec (b + rem) 32).
  - by rewrite (Z.testbit_neg_r upper) by lia.
  - rewrite (testbit_above lower 32 (b + rem)) by (done || lia). rewrite orb_false_r. f_equal. lia.
Qed.

Lemma shl_join_bit lower upper rem b :
  is_u32 lower -> 0 <= rem < 32 -> 0 <= b < 32 ->
  Z.testbit ((lower .>> (32 - rem)) .| (upper .<< rem)) b =
  if b <? rem then Z.testbit lower (b + 32 - rem) else Z.testbit upper (b - rem).
Proof.
  intros Hl Hr Hb. rewrite Z.lor_spec, testbit_shl32, Z.shiftr_spec by lia.
  destruct (Z.ltb_spec b rem).
  - rewrite (Z.testbit_neg_r upper), orb_false_r by lia. f_equal. lia.
  - rewrite (testbit_above lower 32) by (done || lia). done.
Qed.

Lemma updated_join d0 d1 d2 lo m hi f g :
  lo <= m <= hi -> updated d0 d1 lo m f -> updated d1 d2 m hi g ->
  updated d0 d2 lo hi (fun j => if j <? m then f j else g j).
Proof.
  intros Hm [Hl1 H1] [Hl2 H2]. split; [congruence|]. intros j. rewrite H2, H1.
  destruct (Z.leb_spec m j), (Z.ltb_spec j hi), (Z.leb_spec lo j), (Z.ltb_spec j m); simpl; done || lia.
Qed.

Lemma updated_join' d0 d1 d2 lo m hi f g :
  lo <= m <= hi -> updated d0 d1 m hi f -> updated d1 d2 lo m g ->
  updated d0 d2 lo hi (fun j => if j <? m then g j else f j).
Proof.
  intros Hm [Hl1 H1] [Hl2 H2]. split; [congruence|]. intros j. rewrite H2, H1.
  destruct (Z.leb_spec m j), (Z.ltb_spec j hi), (Z.leb_spec lo j), (Z.ltb_spec j m); simpl; done || lia.
Qed.

(** A bitmap whose words were all rewritten, with every bit accounted for. *)
Lemma updated_bits dst d' bits f (g : Z -> bool) :
  words dst -> 0 <= bits -> (forall k, is_u32 (f k)) ->
  (forall k b, 0 <= k < BITS_TO_LONGS bits -> 0 <= b < 32 -> Z.testbit (f k) b = g (32 * k + b)) ->
  updated dst d' 0 (BITS_TO_LONGS bits) f ->
  words d' /\ length d' = length dst /\
  forall i, 0 <= i -> abit d' i = if i <? 32 * BITS_TO_LONGS bits then g i else abit dst i.
Proof.
  intros Hd Hb Hf Hg Hu. split; [by apply (updated_words _ _ _ _ _ Hd) in Hu|]. split; [apply Hu|].
  intros i Hi. rewrite (updated_abit _ _ _ _ _ _ Hu), in_words by done.
  destruct (Z.ltb_spec i (32 * BITS_TO_LONGS bits)); [|done].
  destruct (bit_decomp i) as [Hdi Hmi]. rewrite Hg by (done || lia). by rewrite <- Hdi.
Qed.

Section shifts.
Context (over : Z -> option Z) (dst : list Z) (src : option (list Z)) (shift bits : Z).
Context (Hb : 0 <= bits) (Hsh : 0 <= shift).
Context (Hd : fits bits dst) (Hs : fits bits (operand src dst)).

Local Abbreviation lim := (BITS_TO_LONGS bits).
Local Abbreviation S := (operand src dst).
Local Abbreviation off := (shift / 32).
Local Abbreviation rem := (shift mod 32).
Local Abbreviation lmask := (u32 ((1 .<< (bits mod 32)) - 1)).

Context (Hoff : off <= lim).

(** The value [__bitmap_shift_right] stores in word [k]. *)
Definition shr_word (k : Z) : Z :=
  let upper :=
    if (rem =? 0) || (lim <=? off + k + 1) then 0
    else if truthy (bits mod 32) && (off + k + 1 =? lim - 1)
         then zth S (off + k + 1) .& lmask else zth S (off + k + 1) in
  let lower :=
    if truthy (bits mod 32) && (off + k =? lim - 1)
    then zth S (off + k) .& lmask else zth S (off + k) in
  let v := (upper .<< (32 - rem)) .| (lower .>> rem) in
  if truthy (bits mod 32) && (k =? lim - 1) then v .& lmask else v.

Lemma shr_word_u32 k : is_u32 (shr_word k).
Proof.
  unfold shr_word. pose proof (Z.mod_pos_bound shift 32 ltac:(lia)).
  pose proof (fits_words _ _ Hs). destruct (truthy _ && (k =? lim - 1)); auto with bits lia.
  all: repeat (apply is_u32_land || apply is_u32_lor || apply is_u32_shiftr); auto with bits lia.
Qed.

Lemma shr_word_bit k b : 0 <= k < lim - off -> 0 <= b < 32 ->
  Z.testbit (shr_word k) b = src_bit S bits (32 * k + b + shift).
Proof.
  intros Hk Hbb. pose proof (fits_words _ _ Hs) as Hw.
  destruct (bit_decomp shift) as [Hds Hms]. pose proof (BITS_TO_LONGS_spec bits Hb) as [Hn _].
  assert (0 <= off) by (apply Z.div_pos; lia).
  unfold shr_word. set (upper := if _ || _ then 0 else _). set (lower := if _ && (off + k =? _) then _ else _).
  assert (is_u32 upper) as Hu by (subst upper; destruct (_ || _); [done | auto with bits]).
  assert (is_u32 lower) as Hl by (subst lower; auto with bits).
  set (v := (upper .<< (32 - rem)) .| (lower .>> rem)).
  assert (Z.testbit v b = src_bit S bits (32 * k + b + shift)) as Hv.
  { subst v. rewrite shr_join_bit by (done || lia). destruct (Z.ltb_spec (b + rem) 32).
    - subst lower. rewrite masked_read_bit by lia. f_equal. lia.
    - subst upper. rewrite (proj2 (Z.eqb_neq rem 0)) by lia. simpl.
      destruct (Z.leb_spec lim (off + k + 1)).
      + unfold src_bit. rewrite (proj2 (Z.ltb_ge _ bits)) by lia. apply Z.bits_0.
      + rewrite masked_read_bit by lia. f_equal. lia. }
  destruct (truthy (bits mod 32)) eqn:E; simpl; [|done].
  destruct (Z.eqb_spec k (lim - 1)); [|done].
  rewrite (partial_last _ Hb E) in *. destruct (bit_decomp bits) as [Hdb Hmb].
  rewrite shl_1_sub_1, Z.land_spec, Hv by lia. destruct (Z.lt_ge_cases b (bits mod 32)).
  - rewrite Z.ones_spec_low by lia. apply andb_true_r.
  - rewrite Z.ones_spec_high, andb_false_r by lia. unfold src_bit.
    by rewrite (proj2 (Z.ltb_ge _ bits)) by lia.
Qed.

(** A shift by whole words shifts 0 by the full width, once for each word. *)
Definition shift_defined : Prop := rem <> 0 \/ lim <= off \/ over 0 = Some 0.

Lemma over_shift_ok x : shift_defined -> off < lim -> (rem = 0 -> x = 0) ->
  shl_over over x (32 - rem) = Some (x .<< (32 - rem)) /\
  shr_over over x (32 - rem) = Some (x .>> (32 - rem)).
Proof.
  intros Hdef Hk Hx. unfold shl_over, shr_over, BITS_PER_LONG.
  pose proof (Z.mod_pos_bound shift 32 ltac:(lia)).
  destruct (Z.ltb_spec (32 - rem) 32); [done|]. assert (rem = 0) as E by lia.
  rewrite (Hx E), E. destruct Hdef as [?|[?|Ho]]; [lia | lia | done].
Qed.

Lemma over_shift_undefined x : rem = 0 -> over x = None ->
  shl_over over x (32 - rem) = None /\ shr_over over x (32 - rem) = None.
Proof. intros E Ho. by rewrite E. Qed.

Lemma __bitmap_shift_right_ok : shift_defined ->
  wp (__bitmap_shift_right over dst src shift bits) (fun d' => words d' /\ length d' = length dst /\
    forall i, 0 <= i -> abit d' i =
      if i <? 32 * lim then src_bit S bits (i + shift) else abit dst i).
Proof.
  pose proof (BITS_TO_LONGS_spec bits Hb) as [Hn Hn0].
  pose proof (fits_longs _ _ Hb Hd). pose proof (fits_longs _ _ Hb Hs).
  assert (0 <= off) by (apply Z.div_pos; lia). destruct (bit_decomp shift) as [Hds Hms].
  intros Hdef. unfold __bitmap_shift_right, BITS_PER_LONG. wp_step.
  eapply wp_mono; [apply (update_loop_up shr_word); [lia | lia |]|].
  - intros k d Hk Hu. unfold shr_word.
    destruct (Z.eqb_spec rem 0) as [Er|Er]; simpl.
    + rewrite (operand_unwritten _ _ _ _ _ _ (off + k) Hu) by lia. simpl.
      by rewrite (proj1 (over_shift_ok 0 Hdef ltac:(lia) ltac:(done))).
    + destruct (Z.leb_spec lim (off + k + 1)); simpl.
      * rewrite (operand_unwritten _ _ _ _ _ _ (off + k) Hu) by lia. simpl.
        by rewrite (proj1 (over_shift_ok 0 Hdef ltac:(lia) ltac:(done))).
      * rewrite (operand_unwritten _ _ _ _ _ _ (off + k + 1) Hu) by lia. simpl.
        rewrite (operand_unwritten _ _ _ _ _ _ (off + k) Hu) by lia. simpl.
        rewrite (fun x H => proj1 (over_shift_ok x Hdef ltac:(lia) H)) by done.
        by rewrite (andb_comm (off + k + 1 =? lim - 1)).
  - intros d Hu.
    assert (forall d' g, updated dst d' 0 lim (fun j => if j <? lim - off then shr_word j else g) ->
      g = 0 -> words d' /\ length d' = length dst /\ forall i, 0 <= i -> abit d' i =
        if i <? 32 * lim then src_bit S bits (i + shift) else abit dst i) as Hfin.
    { intros d' g Hu' ->. eapply (updated_bits _ _ _ _ (fun i => src_bit S bits (i + shift)) (fits_words _ _ Hd) Hb);
        [| |exact Hu'].
      - intros k. cbn beta. destruct (_ <? _); [apply shr_word_u32 | done].
      - intros k b Hk Hbb. simpl. destruct (Z.ltb_spec k (lim - off)).
        + apply shr_word_bit; lia.
        + unfold src_bit. rewrite (proj2 (Z.ltb_ge _ bits)) by lia. apply Z.bits_0. }
    destruct (truthy off) eqn:Eo.
    + pose proof Hu as [Hl _]. eapply wp_mono; [apply zero_words_ok; lia|].
      intros d' Hu'. apply (Hfin d' 0); [|done].
      eapply updated_join; [lia | exact Hu |]. by replace (lim - off + off) with lim in Hu' by lia.
    + apply truthy_false in Eo. simpl. apply (Hfin d 0); [|done].
      destruct Hu as [Hl Hu]. split; [done|]. intros j. rewrite Hu. rewrite Eo, Z.sub_0_r.
      by destruct (0 <=? j), (j <? lim).
Qed.

(** The value [__bitmap_shift_left] stores in word [m = k + off]. *)
Definition shl_word (m : Z) : Z :=
  let k := m - off in
  let lower := if truthy rem && (0 <? k) then zth S (k - 1) else 0 in
  let upper := if truthy (bits mod 32) && (k =? lim - 1) then zth S k .& lmask else zth S k in
  let v := (lower .>> (32 - rem)) .| (upper .<< rem) in
  if truthy (bits mod 32) && (m =? lim - 1) then v .& lmask else v.

Lemma shl_word_u32 m : is_u32 (shl_word m).
Proof.
  unfold shl_word. pose proof (Z.mod_pos_bound shift 32 ltac:(lia)).
  pose proof (fits_words _ _ Hs). destruct (truthy (bits mod 32) && (m =? lim - 1)).
  all: repeat (apply is_u32_land || apply is_u32_lor || apply is_u32_shiftr); auto with bits lia.
  all: destruct (truthy rem && _); auto with bits; done.
Qed.

Lemma shl_word_bit m b : off <= m < lim -> 0 <= b < 32 ->
  Z.testbit (shl_word m) b =
  (shift <=? 32 * m + b) && (32 * m + b <? bits) && abit S (32 * m + b - shift).
Proof.
  intros Hm Hbb. pose proof (fits_words _ _ Hs) as Hw.
  destruct (bit_decomp shift) as [Hds Hms]. pose proof (BITS_TO_LONGS_spec bits Hb) as [Hn _].
  destruct (bit_decomp bits) as [Hdb Hmb].
  assert (0 <= off) by (apply Z.div_pos; lia).
  unfold shl_word. set (k := m - off). set (lower := if truthy rem && _ then _ else 0).
  set (upper := if truthy (bits mod 32) && (k =? _) then _ else _).
  assert (is_u32 lower) as Hl by (subst lower; destruct (truthy rem && _); [auto with bits | done]).
  set (v := (lower .>> (32 - rem)) .| (upper .<< rem)).
  assert (Z.testbit v b = (shift <=? 32 * m + b) && (32 * m + b - shift <? bits) && abit S (32 * m + b - shift)) as Hv.
  { subst v. rewrite shl_join_bit by (done || lia). destruct (Z.ltb_spec b rem).
    - subst lower. rewrite (proj2 (truthy_true rem)) by lia. simpl.
      destruct (Z.ltb_spec 0 k).
      + rewrite (proj2 (Z.leb_le shift _)) by lia. rewrite (proj2 (Z.ltb_lt _ bits)) by lia.
        simpl. rewrite <- abit_word by lia. f_equal. lia.
      + rewrite (proj2 (Z.leb_gt shift _)) by lia. apply Z.bits_0.
    - subst upper. rewrite masked_read_bit by lia. unfold src_bit.
      rewrite (proj2 (Z.leb_le shift _)) by lia. simpl. by replace (32 * k + (b - rem)) with (32 * m + b - shift) by lia. }
  assert (forall c, (32 * m + b <? bits) = c -> c = true \/ (truthy (bits mod 32) = true /\ m = lim - 1 /\ bits mod 32 <= b)) as Hc.
  { intros c <-. destruct (Z.ltb_spec (32 * m + b) bits); [by left | right].
    destruct (truthy (bits mod 32)) eqn:E; [rewrite (partial_last _ Hb E) in * | rewrite (whole_last _ Hb E) in *];
      (split; [done || lia | split; lia]) || lia. }
  destruct (Hc _ eq_refl) as [Hin|(E & Em & Hge)].
  - rewrite Hin. apply Z.ltb_lt in Hin.
    assert (Z.testbit v b = (shift <=? 32 * m + b) && true && abit S (32 * m + b - shift)) as Hv'.
    { rewrite Hv. destruct (Z.leb_spec shift (32 * m + b)); [|done].
      by rewrite (proj2 (Z.ltb_lt _ bits)) by lia. }
    destruct (truthy (bits mod 32)) eqn:E; simpl; [|done].
    destruct (Z.eqb_spec m (lim - 1)); [|done].
    rewrite (partial_last _ Hb E) in *. rewrite shl_1_sub_1, Z.land_spec by lia.
    rewrite Z.ones_spec_low, andb_true_r by lia. done.
  - rewrite E, Em, Z.eqb_refl. simpl. rewrite shl_1_sub_1, Z.land_spec by lia.
    rewrite Z.ones_spec_high, andb_false_r by lia.
    rewrite (partial_last _ Hb E) in *. rewrite (proj2 (Z.ltb_ge _ bits)) by lia. btauto.
Qed.

Lemma __bitmap_shift_left_ok : shift_defined ->
  wp (__bitmap_shift_left over dst src shift bits) (fun d' => words d' /\ length d' = length dst /\
    forall i, 0 <= i -> abit d' i =
      if i <? 32 * lim then (shift <=? i) && (i <? bits) && abit S (i - shift) else abit dst i).
Proof.
  pose proof (BITS_TO_LONGS_spec bits Hb) as [Hn Hn0].
  pose proof (fits_longs _ _ Hb Hd). pose proof (fits_longs _ _ Hb Hs).
  assert (0 <= off) by (apply Z.div_pos; lia). destruct (bit_decomp shift) as [Hds Hms].
  intros Hdef. unfold __bitmap_shift_left, BITS_PER_LONG. wp_step.
  eapply wp_mono; [apply (update_loop_down shl_word _ _ (lim - off) off); [lia | lia | lia |]|].
  - intros j d Hj Hu. replace (off + (lim - off)) with lim in * by lia.
    set (k := lim - off - 1 - j). unfold shl_word.
    replace (lim - 1 - j) with (k + off) by lia. replace (k + off - off) with k by lia.
    destruct (truthy rem && (0 <? k)) eqn:El; simpl.
    + apply andb_prop in El as [Er%truthy_true Ek]. apply Z.ltb_lt in Ek.
      rewrite (operand_unwritten _ _ _ _ _ _ (k - 1) Hu) by lia. simpl.
      rewrite (operand_unwritten _ _ _ _ _ _ k Hu) by lia. simpl.
      by rewrite (fun x H => proj2 (over_shift_ok x Hdef ltac:(lia) H)) by done.
    + rewrite (operand_unwritten _ _ _ _ _ _ k Hu) by lia. simpl.
      by rewrite (proj2 (over_shift_ok 0 Hdef ltac:(lia) ltac:(done))).
  - intros d Hu. replace (off + (lim - off)) with lim in * by lia.
    assert (forall d', updated dst d' 0 lim (fun j => if j <? off then 0 else shl_word j) ->
      words d' /\ length d' = length dst /\ forall i, 0 <= i -> abit d' i =
        if i <? 32 * lim then (shift <=? i) && (i <? bits) && abit S (i - shift) else abit dst i) as Hfin.
    { intros d' Hu'. eapply (updated_bits _ _ _ _ (fun i => (shift <=? i) && (i <? bits) && abit S (i - shift)) (fits_words _ _ Hd) Hb);
        [| |exact Hu'].
      - intros k. cbn beta. destruct (_ <? _); [done | apply shl_word_u32].
      - intros k b Hk Hbb. simpl. destruct (Z.ltb_spec k off).
        + rewrite (proj2 (Z.leb_gt shift _)) by lia. apply Z.bits_0.
        + apply shl_word_bit; lia. }
    destruct (truthy off) eqn:Eo.
    + pose proof Hu as [Hl _]. eapply wp_mono; [apply zero_words_ok; lia|].
      intros d' Hu'. apply Hfin. eapply updated_join'; [lia | exact Hu |]. done.
    + apply truthy_false in Eo. simpl. apply Hfin.
      destruct Hu as [Hl Hu]. split; [done|]. intros j. rewrite Hu, Eo.
      destruct (Z.leb_spec 0 j), (Z.ltb_spec j lim), (Z.ltb_spec j 0); simpl; done || lia.
Qed.

(** Without a meaning for the shift by the full width, a shift by whole words
    fails at its first word. *)
Lemma whole_word_shift_undefined : rem = 0 -> off < lim -> over 0 = None ->
  __bitmap_shift_right over dst src shift bits = None /\
  __bitmap_shift_left over dst src shift bits = None.
Proof.
  intros Er Ho Hov. destruct (over_shift_undefined 0 Er Hov) as [El Eh].
  pose proof (BITS_TO_LONGS_spec bits Hb) as [Hn Hn0]. pose proof (fits_longs _ _ Hb Hs).
  assert (0 <= off) by (apply Z.div_pos; lia).
  rewrite Er in El, Eh. unfold __bitmap_shift_right, __bitmap_shift_left, BITS_PER_LONG. rewrite Er.
  split; (rewrite c_for_all_first_None; [done | lia |]); simpl;
    rewrite arr_get_zth by lia; simpl; [by rewrite El | by rewrite Eh].
Qed.
End shifts.

(** ** Weight *)

Lemma hweight_word a k : words a ->
  hweight_long (zth a k) = count_bits (abit a) (32 * k) 32.
Proof.
  intros Ha. unfold hweight_long. rewrite __sw_hweight32_ok by auto with bits.
  replace (32 * k) with (0 + 32 * k) by lia. rewrite count_bits_shift.
  apply count_bits_ext. intros i Hi. rewrite Z.add_comm. by rewrite abit_word by lia.
Qed.

Lemma __bitmap_weight_ok a bits :
  0 <= bits -> fits bits a ->
  __bitmap_weight a bits = Some (count_bits (abit a) 0 (Z.to_nat bits)).
Proof.
  intros Hb Ha. pose proof (fits_words _ _ Ha) as Hw. destruct Ha as [_ Hlen].
  destruct (bit_decomp bits) as [Hd Hm].
  assert (0 <= bits / 32) by (apply Z.div_pos; lia).
  enough (wp (__bitmap_weight a bits) (fun r => r = count_bits (abit a) 0 (Z.to_nat bits))) as H1.
  { apply wp_elim in H1 as (r & -> & ->). done. }
  unfold __bitmap_weight, BITS_PER_LONG. wp_step.
  eapply wp_mono; [apply (c_for_all_inv (fun k w => w = count_bits (abit a) 0 (Z.to_nat (32 * k))));
    [lia | done |]|].
  - intros k w Hk ->. wp_step. wp_step; [lia|]. simpl. rewrite hweight_word by done.
    replace (Z.to_nat (32 * (k + 1))) with (Z.to_nat (32 * k) + 32)%nat by lia.
    rewrite count_bits_app. do 2 f_equal. lia.
  - intros w ->. destruct (truthy (bits mod 32)) eqn:E.
    + apply truthy_true in E. wp_step. wp_step; [lia|]. simpl.
      unfold hweight_long. rewrite __sw_hweight32_ok by auto with bits.
      replace (Z.to_nat bits) with (Z.to_nat (32 * (bits / 32)) + Z.to_nat (bits mod 32))%nat by lia.
      rewrite (count_bits_app (abit a)). f_equal.
      replace 32%nat with (Z.to_nat (bits mod 32) + Z.to_nat (32 - bits mod 32))%nat at 1 by lia.
      rewrite count_bits_app. rewrite (count_bits_none _ (0 + _)).
      * rewrite Z.add_0_r. rewrite count_bits_shift. apply count_bits_ext. intros i Hi.
        rewrite (masked_word_bit bits (bits / 32)) by lia.
        rewrite (proj2 (Z.ltb_lt _ bits)), orb_true_r, andb_true_r by lia.
        rewrite <- abit_word by lia. f_equal. lia.
      * intros i Hi. rewrite (masked_word_bit bits (bits / 32)) by lia.
        rewrite (proj2 (Z.eqb_neq _ 0)), (proj2 (Z.ltb_ge _ bits)) by lia. simpl. btauto.
    + apply truthy_false in E. simpl. f_equal. lia.
Qed.

(** ** Setting and clearing ranges *)

(** [bitmap_set] and [bitmap_clear] differ only in the operation applied to a
    word under a mask: [v] is the value the masked bits get. *)
Section range_fill.
Context (op : Z -> Z -> Z) (v : bool).
Context (Hop : forall w m, is_u32 w -> is_u32 m -> is_u32 (op w m)).
Context (Hbit : forall w m b, 0 <= b < 32 ->
           Z.testbit (op w m) b = if Z.testbit m b then v else Z.testbit w b).

Lemma fill_word map p m lo hi :
  words map -> 0 <= p < Z.of_nat (length map) -> is_u32 m ->
  32 * p <= lo -> hi <= 32 * p + 32 ->
  (forall b, 0 <= b < 32 -> Z.testbit m b = (lo <=? 32 * p + b) && (32 * p + b <? hi)) ->
  wp (w ← arr_get map p; arr_set map p (op w m)) (fun map' =>
    words map' /\ length map' = length map /\
    forall i, abit map' i = if (lo <=? i) && (i <? hi) then v else abit map i).
Proof.
  intros Ha Hp Hm Hlo Hhi Hmask. wp_step. wp_step; [done|]. wp_step; [done|].
  split; [apply words_insert; auto with bits|]. split; [apply length_insert|].
  intros i. rewrite abit_insert by done. destruct (bit_decomp i) as [Hd Hmi].
  destruct (Z.eqb_spec (i / 32) p) as [Ep|Ep].
  - rewrite Hbit, Hmask by done. rewrite <- Ep, <- Hd. by rewrite <- abit_split.
  - destruct (Z.leb_spec lo i), (Z.ltb_spec i hi); simpl; try done. exfalso. apply Ep. lia.
Qed.

Definition fill_loop (map : list Z) (start nr : Z) : option (list Z) :=
  let size := start + nr in
  c_loop (S (Z.to_nat nr)) (fun '(p, nr, bts, mask, map) =>
    if 0 <=? nr - bts then
      w ← arr_get map p;
      map' ← arr_set map p (op w mask);
      Some (inl (p + 1, nr - bts, BITS_PER_LONG, ULONG_MAX, map'))
    else if truthy nr then
      let mask := mask .& BITMAP_LAST_WORD_MASK size in
      w ← arr_get map p;
      map' ← arr_set map p (op w mask);
      Some (inr map')
    else Some (inr map))
    (BIT_WORD start, nr, BITS_PER_LONG - start mod BITS_PER_LONG,
     BITMAP_FIRST_WORD_MASK start, map).

Lemma wp_fill_word {B} map p m lo hi (k : list Z -> option B) (Q : B -> Prop) :
  words map -> 0 <= p < Z.of_nat (length map) -> is_u32 m ->
  32 * p <= lo -> hi <= 32 * p + 32 ->
  (forall b, 0 <= b < 32 -> Z.testbit m b = (lo <=? 32 * p + b) && (32 * p + b <? hi)) ->
  (forall map', words map' -> length map' = length map ->
     (forall i, abit map' i = if (lo <=? i) && (i <? hi) then v else abit map i) ->
     wp (k map') Q) ->
  wp (w ← arr_get map p; map' ← arr_set map p (op w m); k map') Q.
Proof.
  intros Ha Hp Hm Hlo Hhi Hmask Hk.
  pose proof (fill_word map p m lo hi Ha Hp Hm Hlo Hhi Hmask) as H.
  apply wp_elim in H as (map' & E & H1 & H2 & H3).
  destruct (arr_get map p) as [w|]; simpl in *; [|done]. rewrite E. simpl. by apply Hk.
Qed.

Lemma fill_loop_ok map0 start nr0 :
  words map0 -> 0 <= start -> 0 <= nr0 -> start + nr0 <= 32 * Z.of_nat (length map0) ->
  wp (fill_loop map0 start nr0) (fun map' =>
    words map' /\ length map' = length map0 /\
    forall i, abit map' i = if (start <=? i) && (i <? start + nr0) then v else abit map0 i).
Proof.
  intros Ha Hs Hn Hlen. unfold fill_loop. destruct (bit_decomp start) as [Hd Hm].
  apply (c_loop_inv (fun '(p, nr, bts, mask, map) =>
      0 < bts <= 32 /\ 0 <= nr /\ 0 <= p /\ start <= 32 * p + (32 - bts) /\
      32 * p + (32 - bts) + nr = start + nr0 /\ is_u32 mask /\
      (forall b, 0 <= b < 32 -> Z.testbit mask b = (32 - bts <=? b)) /\
      words map /\ length map = length map0 /\
      (forall i, abit map i = if (start <=? i) && (i <? 32 * p + (32 - bts)) then v else abit map0 i))
    (fun '(p, nr, bts, mask, map) => nr)).
  - intros [[[[p nr] bts] mask] map]. tauto.
  - intros [[[[p nr] bts] mask] map]
      (Hbts & Hnr & Hp & Hpos & Hend & Hmu & Hmask & Hw & Hl & Hbits).
    assert (forall b, (32 - bts <=? b) = (32 * p + (32 - bts) <=? 32 * p + b)) as Hsh
      by (intros; zcase; zcase; done || lia).
    destruct (Z.leb_spec 0 (nr - bts)).
    + apply (wp_fill_word map p mask (32 * p + (32 - bts)) (32 * p + 32)); [done | lia | done | lia | lia | |].
      { intros b Hb. rewrite Hmask, Hsh by done. rewrite (proj2 (Z.ltb_lt _ (32 * p + 32))) by lia.
        by rewrite andb_true_r. }
      intros map' Hw' Hl' Hb'. simpl. unfold BITS_PER_LONG. split; [|lia].
      conj_by (first [lia | auto with bits]). split.
      { intros b Hb. rewrite testbit_ULONG_MAX by done. zcase; done || lia. }
      split; [done|]. split; [congruence|]. intros i. rewrite Hb', Hbits.
      repeat zcase; simpl; done || lia.
    + destruct (truthy nr) eqn:E.
      * apply truthy_true in E.
        assert ((start + nr0) / 32 = p) as Ep by (Z.div_mod_to_equations; lia).
        apply (wp_fill_word map p _ (32 * p + (32 - bts)) (start + nr0));
          [done | lia | auto with bits | lia | lia | |].
        { intros b Hb. rewrite (masked_word_bit _ p) by (done || lia). rewrite Hmask, Hsh by done.
          rewrite (proj2 (Z.eqb_neq _ 0)) by (Z.div_mod_to_equations; lia). done. }
        intros map' Hw' Hl' Hb'. simpl. split; [done|]. split; [congruence|].
        intros i. rewrite Hb', Hbits. repeat zcase; simpl; done || lia.
      * apply truthy_false in E. simpl. split; [done|]. split; [done|].
        intros i. rewrite Hbits. by replace (start + nr0) with (32 * p + (32 - bts)) by lia.
  - unfold BIT_WORD, BITS_PER_LONG.
    assert (0 <= start / 32) by (apply Z.div_pos; lia).
    conj_by lia. unfold BITMAP_FIRST_WORD_MASK, BITS_PER_LONG.
    split; [auto with bits|]. split.
    { intros b Hb. rewrite testbit_ones_shl by lia. zcase; zcase; done || lia. }
    split; [done|]. split; [done|]. intros i. repeat zcase; simpl; done || lia.
  - lia.
Qed.
End range_fill.

Lemma bitmap_set_ok map start nr :
  words map -> 0 <= start -> 0 <= nr -> start + nr <= 32 * Z.of_nat (length map) ->
  wp (bitmap_set map start nr) (fun map' =>
    words map' /\ length map' = length map /\
    forall i, abit map' i = if (start <=? i) && (i <? start + nr) then true else abit map i).
Proof.
  intros. apply (fill_loop_ok Z.lor true); auto with bits.
  intros w m b Hb. rewrite Z.lor_spec. destruct (Z.testbit m b); btauto.
Qed.

Lemma bitmap_clear_ok map start nr :
  words map -> 0 <= start -> 0 <= nr -> start + nr <= 32 * Z.of_nat (length map) ->
  wp (bitmap_clear map start nr) (fun map' =>
    words map' /\ length map' = length map /\
    forall i, abit map' i = if (start <=? i) && (i <? start + nr) then false else abit map i).
Proof.
  intros. apply (fill_loop_ok (fun w m => w .& .~ m) false); auto with bits.
  intros w m b Hb. rewrite Z.land_spec, testbit_not32 by done. destruct (Z.testbit m b); btauto.
Qed.

(** ** [bitmap_fill], [bitmap_copy], [bitmap_copy_le] *)

Lemma bitmap_fill_ok dst bits :
  0 < bits -> fits bits dst ->
  wp (bitmap_fill dst bits) (fun d' => words d' /\ length d' = length dst /\
    forall i, 0 <= i -> abit d' i = if i <? 32 * BITS_TO_LONGS bits then i <? bits else abit dst i).
Proof.
  intros Hb Hd. pose proof (BITS_TO_LONGS_spec bits ltac:(lia)). pose proof (fits_longs bits dst ltac:(lia) Hd).
  unfold bitmap_fill. wp_step.
  eapply wp_mono; [apply (update_loop_up (fun _ => ULONG_MAX)); [lia | lia | done]|].
  intros d' [Hl Hu]. set (n := BITS_TO_LONGS bits) in *. wp_step; [lia|].
  assert (words d') as Hw.
  { apply (updated_words dst d' 0 (n - 1) (fun _ => ULONG_MAX)); [apply Hd | done | done]. }
  split; [apply words_insert; [done | auto with bits]|].
  split; [by rewrite length_insert|]. intros i Hi. rewrite abit_insert by lia.
  destruct (bit_decomp i) as [Ei Hm], (bit_decomp bits) as [Eb Hmb].
  destruct (Z.eqb_spec (i / 32) (n - 1)) as [E|E].
  - rewrite (proj2 (Z.ltb_lt i (32 * n))) by lia. rewrite testbit_LAST_WORD_MASK by lia.
    destruct (Z.eqb_spec (bits mod 32) 0); simpl.
    + symmetry. apply Z.ltb_lt. lia.
    + destruct (Z.ltb_spec (i mod 32) (bits mod 32)), (Z.ltb_spec i bits); done || lia.
  - unfold abit. rewrite Hu.
    destruct (Z.leb_spec 0 (i / 32)), (Z.ltb_spec (i / 32) (n - 1)), (Z.ltb_spec i (32 * n)),
      (Z.ltb_spec i bits); simpl; try (exfalso; lia); try done.
    change ULONG_MAX with (Z.ones 32). rewrite Z.ones_spec_low by lia. done.
Qed.

(** Copying [n] words of [src] to [dst]. *)
Lemma copy_words_ok dst src n :
  0 <= n <= Z.of_nat (length dst) -> n <= Z.of_nat (length (operand src dst)) ->
  words dst -> words (operand src dst) ->
  wp (c_for_all 0 n (fun k d => w ← arr_get (operand src d) k; arr_set d k w) dst) (fun d' =>
    words d' /\ length d' = length dst /\
    forall i, 0 <= i -> abit d' i = if i <? 32 * n then abit (operand src dst) i else abit dst i).
Proof.
  intros Hn Hs Hd Hw. eapply wp_mono.
  { apply (update_loop_up (zth (operand src dst))); [lia | lia |]. intros k d Hk Hu.
    rewrite (operand_unwritten _ _ _ _ _ _ k Hu) by lia. done. }
  intros d' Hu. split; [eapply updated_words; [apply Hd | | exact Hu]; auto with bits|].
  split; [apply Hu|]. intros i Hi. rewrite (updated_abit _ _ _ _ _ _ Hu).
  destruct (Z.leb_spec 0 (i / 32)), (Z.ltb_spec (i / 32) n), (Z.ltb_spec i (32 * n));
    simpl; try (exfalso; Z.div_mod_to_equations; lia); done.
Qed.

Lemma bitmap_copy_ok dst src bits :
  0 <= bits -> fits bits dst -> fits bits (operand src dst) ->
  wp (bitmap_copy dst src bits) (fun d' => words d' /\ length d' = length dst /\
    forall i, 0 <= i -> abit d' i =
      if i <? 32 * BITS_TO_LONGS bits then abit (operand src dst) i else abit dst i).
Proof.
  intros Hb Hd Hs. pose proof (BITS_TO_LONGS_spec bits Hb).
  pose proof (fits_longs _ _ Hb Hd). pose proof (fits_longs _ _ Hb Hs).
  apply copy_words_ok; [lia | lia | apply Hd | apply Hs].
Qed.

(** [bitmap_copy_le] copies only the whole words below [nbits]: the bits of a
    partial last word are not transferred. *)
Lemma bitmap_copy_le_ok dst src bits :
  0 <= bits -> fits bits dst -> fits bits src ->
  wp (bitmap_copy_le dst src bits) (fun d' => words d' /\ length d' = length dst /\
    forall i, 0 <= i -> abit d' i = if i <? 32 * (bits / 32) then abit src i else abit dst i).
Proof.
  intros Hb [Hd Hdl] [Hs Hsl].
  apply (copy_words_ok dst (Some src)); [Z.div_mod_to_equations; lia | | done | done].
  simpl. Z.div_mod_to_equations. lia.
Qed.

(** ** Properties *)

(** The comparisons of [lib/bitmap.c] decide, on the first [bits] bits and
    whatever the unused bits of the last word hold, emptiness, fullness,
    equality, intersection and inclusion, and [__bitmap_weight] counts the set
    bits. *)
Theorem bitmap_predicates_correct a1 a2 bits :
  0 <= bits -> fits bits a1 -> fits bits a2 ->
  wp (__bitmap_empty a1 bits) (decides (forall i, 0 <= i < bits -> abit a1 i = false)) /\
  wp (__bitmap_full a1 bits) (decides (forall i, 0 <= i < bits -> abit a1 i = true)) /\
  wp (__bitmap_equal a1 a2 bits) (decides (forall i, 0 <= i < bits -> abit a1 i = abit a2 i)) /\
  wp (__bitmap_intersects a1 a2 bits)
     (decides (exists i, 0 <= i < bits /\ abit a1 i = true /\ abit a2 i = true)) /\
  wp (__bitmap_subset a1 a2 bits)
     (decides (forall i, 0 <= i < bits -> abit a1 i = true -> abit a2 i = true)) /\
  __bitmap_weight a1 bits = Some (count_bits (abit a1) 0 (Z.to_nat bits)).
Proof.
  intros Hb H1 H2. pose proof H1 as [? ?]. pose proof H2 as [? ?].
  auto 10 using __bitmap_empty_ok, __bitmap_full_ok, __bitmap_equal_ok, __bitmap_intersects_ok,
    __bitmap_subset_ok, __bitmap_weight_ok.
Qed.

Lemma bitmap_predicates_correct_witness : __bitmap_weight [0xff; 0x1f] 36 = Some 12.
Proof. apply (bitmap_predicates_correct [0xff; 0x1f] [0; 0] 36); concrete. Defined.

(** The bitwise operations of [lib/bitmap.c] compute, on the words of the
    bitmaps and with any operand being the destination itself, conjunction,
    disjunction, exclusive or, difference and complement bit by bit, and leave
    the words beyond untouched; [__bitmap_and] and [__bitmap_andnot] return
    whether the resulting words are not all zero. *)
Theorem bitmap_bitwise_correct dst s1 s2 bits :
  0 <= bits -> fits bits dst -> fits bits (operand s1 dst) -> fits bits (operand s2 dst) ->
  let lim := 32 * BITS_TO_LONGS bits in
  let a := abit (operand s1 dst) in
  let b := abit (operand s2 dst) in
  let result (f : Z -> bool) d' := words d' /\ length d' = length dst /\
    forall i, 0 <= i -> abit d' i = if i <? lim then f i else abit dst i in
  wp (__bitmap_or dst s1 s2 bits) (result (fun i => a i || b i)) /\
  wp (__bitmap_xor dst s1 s2 bits) (result (fun i => xorb (a i) (b i))) /\
  wp (__bitmap_and dst s1 s2 bits) (fun '(r, d') => result (fun i => a i && b i) d' /\
    decides (exists i, 0 <= i < lim /\ a i && b i = true) r) /\
  wp (__bitmap_andnot dst s1 s2 bits) (fun '(r, d') => result (fun i => a i && negb (b i)) d' /\
    decides (exists i, 0 <= i < lim /\ a i && negb (b i) = true) r) /\
  wp (__bitmap_complement dst s1 bits) (result (fun i => (i <? bits) && negb (a i))).
Proof.
  intros Hb Hd H1 H2. cbn zeta.
  split; [by apply __bitmap_or_ok|]. split; [by apply __bitmap_xor_ok|].
  split; [eapply wp_mono; [by apply __bitmap_and_ok|]; intros [r d'] (? & ? & ? & ?); done|].
  split; [eapply wp_mono; [by apply __bitmap_andnot_ok|]; intros [r d'] (? & ? & ? & ?); done|].
  eapply wp_mono; [by apply __bitmap_complement_ok|]. intros d' (? & ? & H).
  split; [done|]. split; [done|]. intros i Hi. rewrite H by done.
  pose proof (BITS_TO_LONGS_spec bits Hb).
  destruct (Z.ltb_spec i bits), (Z.ltb_spec i (32 * BITS_TO_LONGS bits)); done || lia.
Qed.

Lemma bitmap_bitwise_correct_witness :
  wp (__bitmap_or [1; 2] (Some [4; 0]) None 40) (fun d' => words d' /\ length d' = 2%nat /\
    forall i, 0 <= i -> abit d' i = if i <? 64 then abit [4; 0] i || abit [1; 2] i else abit [1; 2] i).
Proof. apply (bitmap_bitwise_correct [1; 2] (Some [4; 0]) None 40); concrete. Defined.

(** [__bitmap_shift_right] and [__bitmap_shift_left] move every bit by
    [shift] positions, shift in zeros, drop what leaves the first [bits] bits
    and ignore the unused bits of the source's last word, in place or not, for
    any shift of at most the words of the bitmap that is not a multiple of
    [BITS_PER_LONG].  For a multiple they shift 0 by [BITS_PER_LONG]: the same
    result where the machine gives 0 for that, and undefined otherwise. *)
Theorem bitmap_shifts_correct over dst src shift bits :
  0 <= bits -> 0 <= shift -> shift / 32 <= BITS_TO_LONGS bits ->
  fits bits dst -> fits bits (operand src dst) ->
  let a := abit (operand src dst) in
  (shift mod 32 <> 0 \/ BITS_TO_LONGS bits <= shift / 32 \/ over 0 = Some 0 ->
   wp (__bitmap_shift_right over dst src shift bits) (fun d' =>
     words d' /\ length d' = length dst /\ forall i, 0 <= i -> abit d' i =
       if i <? 32 * BITS_TO_LONGS bits then (i + shift <? bits) && a (i + shift) else abit dst i) /\
   wp (__bitmap_shift_left over dst src shift bits) (fun d' =>
     words d' /\ length d' = length dst /\ forall i, 0 <= i -> abit d' i =
       if i <? 32 * BITS_TO_LONGS bits
       then (shift <=? i) && (i <? bits) && a (i - shift) else abit dst i)) /\
  (shift mod 32 = 0 -> shift / 32 < BITS_TO_LONGS bits -> over 0 = None ->
   __bitmap_shift_right over dst src shift bits = None /\
   __bitmap_shift_left over dst src shift bits = None).
Proof.
  intros Hb Hsh Hoff Hd Hs. split; [|by apply whole_word_shift_undefined].
  intros Hdef. split; [by apply __bitmap_shift_right_ok | by apply __bitmap_shift_left_ok].
Qed.

Lemma bitmap_shifts_correct_witness :
  wp (__bitmap_shift_right (fun _ => None) [3; 1] None 33 40) (fun d' => words d' /\ length d' = 2%nat /\
    forall i, 0 <= i -> abit d' i =
      if i <? 64 then (i + 33 <? 40) && abit [3; 1] (i + 33) else abit [3; 1] i) /\
  wp (__bitmap_shift_left Some [3; 1] None 32 40) (fun d' => words d' /\ length d' = 2%nat /\
    forall i, 0 <= i -> abit d' i =
      if i <? 64 then (32 <=? i) && (i <? 40) && abit [3; 1] (i - 32) else abit [3; 1] i) /\
  __bitmap_shift_left (fun _ => None) [3; 1] None 32 40 = None.
Proof.
  split; [|split].
  - apply (bitmap_shifts_correct (fun _ => None) [3; 1] None 33 40); first [by left | concrete].
  - apply (bitmap_shifts_correct Some [3; 1] None 32 40); first [by right; right | concrete].
  - apply (bitmap_shifts_correct (fun _ => None) [3; 1] None 32 40); concrete.
Defined.

(** [bitmap_set] and [bitmap_clear] give the bits [start, start + nr) the
    value 1, respectively 0, and keep every other bit. *)
Theorem bitmap_set_clear_correct map start nr :
  words map -> 0 <= start -> 0 <= nr -> start + nr <= 32 * Z.of_nat (length map) ->
  let result v map' := words map' /\ length map' = length map /\
    forall i, abit map' i = if (start <=? i) && (i <? start + nr) then v else abit map i in
  wp (bitmap_set map start nr) (result true) /\ wp (bitmap_clear map start nr) (result false).
Proof. intros. split; [by apply bitmap_set_ok | by apply bitmap_clear_ok]. Qed.

Lemma bitmap_set_clear_correct_witness :
  wp (bitmap_set [0; 0] 30 5) (fun map' => words map' /\ length map' = 2%nat /\
    forall i, abit map' i = if (30 <=? i) && (i <? 30 + 5) then true else abit [0; 0] i).
Proof. apply (bitmap_set_clear_correct [0; 0] 30 5); concrete. Defined.

(** The value returned by [__bitmap_and] depends on the unused bits of the
    last word: two bitmaps of one bit that do not intersect, as
    [__bitmap_intersects] reports, give a nonzero [__bitmap_and]. *)
Theorem bitmap_and_reports_unused_bits :
  (exists d', __bitmap_and [0] (Some [2]) (Some [2]) 1 = Some (1, d')) /\
  __bitmap_intersects [2] [2] 1 = Some 0.
Proof. split; [eexists|]; vm_compute; done. Qed.
