(* ===== verification/BitmapMaps.v ===== *)
(** * Position maps between bitmaps

    The part of [lib/bitmap.c] that treats bitmaps as relations between bit
    positions: [bitmap_pos_to_ord] and [bitmap_ord_to_pos] (rank and select),
    [bitmap_remap], [bitmap_bitremap], [bitmap_onto] and [bitmap_fold], with
    the iterator [for_each_set_bit] of [include/linux/bitops.h].  The map
    operands [old], [new], [relmap] are arrays distinct from [dst]. *)

From S2P Require Import Prelude Bitops Bitmap.
Open Scope c_scope.

(** ** Definitions *)

(** [for_each_set_bit(bit, addr, size)] of [include/linux/bitops.h]. *)
Definition for_each_set_bit {S} (addr : list Z) (size : Z) (body : Z -> S -> option S) (s : S)
    : option S :=
  bit ← find_first_bit addr size;
  c_loop (Datatypes.S (Z.to_nat size)) (fun '(bit, s) =>
    if bit <? size then
      s' ← body bit s;
      bit' ← find_next_bit addr size (bit + 1);
      Some (inl (bit', s'))
    else Some (inr s)) (bit, s).

(** [BUG_ON(i != pos)] is an undefined result. *)
Definition bitmap_pos_to_ord (buf : list Z) (pos bits : Z) : option Z :=
  if (pos <? 0) || (bits <=? pos) then Some (-1) else
  t ← test_bit pos buf;
  if negb (truthy t) then Some (-1) else
  i ← find_first_bit buf bits;
  '(i, ord) ← c_loop (S (Z.to_nat bits)) (fun '(i, ord) =>
    if i <? pos then
      i' ← find_next_bit buf bits (i + 1);
      Some (inl (i', ord + 1))
    else Some (inr (i, ord))) (i, 0);
  if negb (i =? pos) then None else Some ord.

Definition bitmap_ord_to_pos (buf : list Z) (ord bits : Z) : option Z :=
  if (0 <=? ord) && (ord <? bits) then
    i ← find_first_bit buf bits;
    '(i, ord) ← c_loop (S (Z.to_nat ord)) (fun '(i, ord) =>
      if (i <? bits) && (0 <? ord) then
        i' ← find_next_bit buf bits (i + 1);
        Some (inl (i', ord - 1))
      else Some (inr (i, ord))) (i, ord);
    if (i <? bits) && (ord =? 0) then Some i else Some 0
  else Some 0.

(** [src = None] is the call with [dst == src], which returns at once. *)
Definition bitmap_remap (dst : list Z) (src : option (list Z)) (old new : list Z) (bits : Z)
    : option (list Z) :=
  match src with
  | None => Some dst
  | Some src =>
      dst ← bitmap_zero dst bits;
      w ← __bitmap_weight new bits;
      for_each_set_bit src bits (fun oldbit dst =>
        n ← bitmap_pos_to_ord old oldbit bits;
        if (n <? 0) || (w =? 0) then __set_bit oldbit dst
        else
          p ← bitmap_ord_to_pos new (Z.rem n w) bits;
          __set_bit p dst) dst
  end.

Definition bitmap_bitremap (oldbit : Z) (old new : list Z) (bits : Z) : option Z :=
  w ← __bitmap_weight new bits;
  n ← bitmap_pos_to_ord old oldbit bits;
  if (n <? 0) || (w =? 0) then Some oldbit
  else bitmap_ord_to_pos new (Z.rem n w) bits.

Definition bitmap_onto (dst : list Z) (orig : option (list Z)) (relmap : list Z) (bits : Z)
    : option (list Z) :=
  match orig with
  | None => Some dst
  | Some orig =>
      dst ← bitmap_zero dst bits;
      '(m, dst) ← for_each_set_bit relmap bits (fun n '(m, dst) =>
        t ← test_bit m orig;
        dst' ← (if truthy t then __set_bit n dst else Some dst);
        Some (m + 1, dst')) (0, dst);
      Some dst
  end.

(** [oldbit % sz] is undefined for [sz == 0]. *)
Definition bitmap_fold (dst : list Z) (orig : option (list Z)) (sz bits : Z) : option (list Z) :=
  match orig with
  | None => Some dst
  | Some orig =>
      dst ← bitmap_zero dst bits;
      for_each_set_bit orig bits (fun oldbit dst =>
        if sz =? 0 then None else __set_bit (Z.rem oldbit sz) dst) dst
  end.

#[local] Arguments c_loop : simpl never.
#[local] Arguments wp {A} !m Q /.

(** ** Rank *)

(** Number of set positions below [k]: the ordinal of position [k]. *)
Definition rank (P : Z -> bool) (k : Z) : Z := count_bits P 0 (Z.to_nat k).

Lemma rank_0 P : rank P 0 = 0.
Proof. done. Qed.

Lemma rank_succ P k : 0 <= k -> rank P (k + 1) = rank P k + of_bool (P k).
Proof.
  intros Hk. unfold rank. replace (Z.to_nat (k + 1)) with (Z.to_nat k + 1)%nat by lia.
  rewrite count_bits_app. f_equal. cbn [count_bits]. rewrite Z2Nat.id by lia.
  rewrite Z.add_0_l. lia.
Qed.

Lemma rank_split P k j : 0 <= k <= j ->
  rank P j = rank P k + count_bits P k (Z.to_nat (j - k)).
Proof.
  intros Hk. unfold rank. replace (Z.to_nat j) with (Z.to_nat k + Z.to_nat (j - k))%nat by lia.
  rewrite count_bits_app. rewrite Z2Nat.id by lia. by rewrite Z.add_0_l.
Qed.

Lemma rank_mono P k j : 0 <= k <= j -> rank P k <= rank P j.
Proof.
  intros Hk. rewrite (rank_split P k j) by done.
  pose proof (count_bits_bounds P k (Z.to_nat (j - k))). lia.
Qed.

Lemma rank_skip P k j : 0 <= k <= j -> (forall i, k <= i < j -> P i = false) -> rank P j = rank P k.
Proof.
  intros Hk H. rewrite (rank_split P k j) by done.
  rewrite count_bits_none; [lia|]. intros i Hi. apply H. lia.
Qed.

Lemma rank_nonneg P k : 0 <= rank P k.
Proof. apply count_bits_bounds. Qed.

Lemma rank_le P k : 0 <= k -> rank P k <= k.
Proof. intros. pose proof (count_bits_bounds P 0 (Z.to_nat k)). unfold rank. lia. Qed.

(** A set position is determined by its ordinal. *)
Lemma rank_inj P i j :
  0 <= i -> 0 <= j -> P i = true -> P j = true -> rank P i = rank P j -> i = j.
Proof.
  intros Hi Hj Pi Pj E. destruct (Z.lt_trichotomy i j) as [Hlt|[|Hlt]]; [|done|]; exfalso.
  - pose proof (rank_mono P (i + 1) j ltac:(lia)). rewrite rank_succ, Pi in * by lia. simpl in *. lia.
  - pose proof (rank_mono P (j + 1) i ltac:(lia)). rewrite rank_succ, Pj in * by lia. simpl in *. lia.
Qed.

(** ** The iterator *)

Lemma for_each_set_bit_inv {S} (I : Z -> S -> Prop) addr size (body : Z -> S -> option S) s0 :
  fits size addr -> is_u32 (size + 1) -> 0 <= size ->
  I 0 s0 ->
  (forall k s, 0 <= k < size -> abit addr k = false -> I k s -> I (k + 1) s) ->
  (forall k s, 0 <= k < size -> abit addr k = true -> I k s -> wp (body k s) (I (k + 1))) ->
  wp (for_each_set_bit addr size body s0) (I size).
Proof.
  intros [Ha Hlen] Hsz Hs0 HI0 Hskip Hstep. unfold is_u32 in Hsz.
  assert (forall lo hi s, 0 <= lo <= hi -> hi <= size ->
    (forall i, lo <= i < hi -> abit addr i = false) -> I lo s -> I hi s) as Hskips.
  { intros lo hi s Hlo Hhi Hz HI. remember (Z.to_nat (hi - lo)) as n eqn:Hn.
    revert lo Hlo Hz HI Hn. induction n as [|n IH]; intros lo Hlo Hz HI Hn.
    - by replace hi with lo by lia.
    - apply (IH (lo + 1)); [lia | intros i Hi; apply Hz; lia | | lia].
      apply Hskip; [lia | apply Hz; lia | done]. }
  unfold for_each_set_bit. wp_step.
  eapply wp_mono; [apply find_first_bit_ok; unfold is_u32; done || lia|]. intros bit Hbit.
  apply (c_loop_inv (fun '(bit, s) => 0 <= bit <= size /\ I bit s /\ (bit < size -> abit addr bit = true))
    (fun '(bit, s) => size - bit)).
  - intros [b s]. lia.
  - intros [b s] (Hb & HI & Ht). destruct (Z.ltb_spec b size).
    + wp_step. eapply wp_mono; [apply Hstep; [lia | auto | done]|]. intros s' HI'.
      wp_step. eapply wp_mono; [apply find_next_bit_ok; unfold is_u32; done || lia|].
      intros b' Hb'. simpl.
      destruct Hb' as [[? ->]|(Hr & Hz & Ht')].
      * replace (b + 1) with size in HI' by lia. split; [|lia]. split; [lia|]. split; [done | lia].
      * split; [|lia]. split; [lia|]. split; [|done]. apply (Hskips (b + 1)); done || lia.
    + simpl. by replace size with b by lia.
  - destruct Hbit as [[? ->]|(Hr & Hz & Ht')].
    + replace 0 with size in HI0 by lia. split; [lia|]. split; [done | lia].
    + split; [lia|]. split; [|done]. apply (Hskips 0); done || lia.
  - destruct Hbit as [[? ->]|(Hr & Hz & Ht')]; lia.
Qed.

(** ** Rank and select *)

Lemma bitmap_pos_to_ord_ok buf pos bits :
  fits bits buf -> 0 <= bits -> is_u32 (bits + 1) ->
  bitmap_pos_to_ord buf pos bits =
  Some (if (0 <=? pos) && (pos <? bits) && abit buf pos then rank (abit buf) pos else -1).
Proof.
  intros [Ha Hlen] Hb Hu. unfold is_u32 in Hu.
  enough (wp (bitmap_pos_to_ord buf pos bits) (fun r =>
    r = if (0 <=? pos) && (pos <? bits) && abit buf pos then rank (abit buf) pos else -1)) as H.
  { apply wp_elim in H as (r & -> & ->). done. }
  unfold bitmap_pos_to_ord.
  destruct (Z.ltb_spec pos 0); simpl; [by rewrite (proj2 (Z.leb_gt 0 pos)) by lia|].
  rewrite (proj2 (Z.leb_le 0 pos)) by lia. simpl.
  destruct (Z.leb_spec bits pos); simpl; [by rewrite (proj2 (Z.ltb_ge pos bits)) by lia|].
  rewrite (proj2 (Z.ltb_lt pos bits)) by lia. simpl.
  rewrite test_bit_ok by (done || lia). simpl.
  destruct (abit buf pos) eqn:Ep; simpl; [|done].
  wp_step. eapply wp_mono; [apply find_first_bit_ok; unfold is_u32; done || lia|]. intros i0 Hi0.
  wp_step. eapply wp_mono.
  { apply (c_loop_inv (fun '(i, ord) => 0 <= i <= pos /\ abit buf i = true /\ ord = rank (abit buf) i)
      (fun '(i, ord) => pos - i) (fun '(i, ord) => i = pos /\ ord = rank (abit buf) pos)).
    - intros [i ord]. lia.
    - intros [i ord] (Hi & Hbi & ->). destruct (Z.ltb_spec i pos).
      + wp_step. eapply wp_mono; [apply find_next_bit_ok; unfold is_u32; done || lia|].
        intros i' [[? ?]|(Hr & Hz & Ht)]; [lia|]. simpl.
        assert (i' <= pos) as Hle.
        { destruct (Z.lt_ge_cases pos i'); [|done]. rewrite Hz in Ep by lia. done. }
        split; [|lia]. split; [lia|]. split; [apply Ht; lia|].
        rewrite (rank_skip _ (i + 1) i') by (done || lia). by rewrite rank_succ, Hbi by lia.
      + simpl. by replace i with pos by lia.
    - destruct Hi0 as [[? ?]|(Hr & Hz & Ht)]; [lia|].
      assert (i0 <= pos) as Hle.
      { destruct (Z.lt_ge_cases pos i0); [|done]. rewrite Hz in Ep by lia. done. }
      split; [lia|]. split; [apply Ht; lia|]. by rewrite (rank_skip _ 0 i0) by (done || lia).
    - destruct Hi0 as [[? ?]|(Hr & Hz & Ht)]; lia. }
  intros [i ord] [-> ->]. rewrite Z.eqb_refl. done.
Qed.

(** [p] is the position of the [ord]-th set bit. *)
Definition is_select (P : Z -> bool) (bits ord p : Z) : Prop :=
  0 <= p < bits /\ P p = true /\ rank P p = ord.

Lemma bitmap_ord_to_pos_ok buf ord bits :
  fits bits buf -> 0 <= bits -> is_u32 (bits + 1) ->
  wp (bitmap_ord_to_pos buf ord bits) (fun p =>
    (0 <= ord < rank (abit buf) bits -> is_select (abit buf) bits ord p) /\
    (~ 0 <= ord < rank (abit buf) bits -> p = 0)).
Proof.
  intros [Ha Hlen] Hb Hu. unfold is_u32 in Hu. unfold bitmap_ord_to_pos.
  pose proof (rank_le (abit buf) bits Hb) as Hrb.
  destruct (Z.leb_spec 0 ord); simpl; [|lia].
  destruct (Z.ltb_spec ord bits); simpl; [|lia].
  wp_step. eapply wp_mono; [apply find_first_bit_ok; unfold is_u32; done || lia|]. intros i0 Hi0.
  wp_step. eapply wp_mono.
  { apply (c_loop_inv (fun '(i, o) => 0 <= i <= bits /\ 0 <= o /\
        (i < bits -> abit buf i = true) /\ rank (abit buf) i + o = ord)
      (fun '(i, o) => o)
      (fun '(i, o) => 0 <= i <= bits /\ (i < bits -> abit buf i = true) /\ 0 <= o /\
        rank (abit buf) i + o = ord /\ (i = bits \/ o = 0))).
    - intros [i o]. lia.
    - intros [i o] (Hi & Ho & Ht & Hrank).
      destruct (Z.ltb_spec i bits), (Z.ltb_spec 0 o); simpl; try (repeat split; done || lia).
      wp_step. eapply wp_mono; [apply find_next_bit_ok; unfold is_u32; done || lia|].
      intros i' Hi'. simpl. split; [|lia].
      assert (i + 1 <= i' <= bits /\ (forall j, i + 1 <= j < i' -> abit buf j = false) /\
              (i' < bits -> abit buf i' = true)) as (Hr & Hz & Ht')
        by (destruct Hi' as [[? ->]|?]; [repeat split; lia | done]).
      split; [lia|]. split; [lia|]. split; [done|].
      rewrite (rank_skip _ (i + 1) i'), rank_succ, Ht by (done || lia). simpl. lia.
    - assert (0 <= i0 <= bits /\ (forall j, 0 <= j < i0 -> abit buf j = false) /\
              (i0 < bits -> abit buf i0 = true)) as (Hr & Hz & Ht')
        by (destruct Hi0 as [[? ->]|?]; [repeat split; lia | done]).
      split; [lia|]. split; [lia|]. split; [done|].
      rewrite (rank_skip _ 0 i0), rank_0 by (done || lia). lia.
    - lia. }
  intros [i o] (Hi & Ht & Ho & Hrank & Hend).
  destruct (Z.ltb_spec i bits); simpl.
  - assert (o = 0) as -> by lia. simpl. split.
    + intros _. split; [lia|]. split; [auto | lia].
    + intros Hn. exfalso. apply Hn. pose proof (rank_mono (abit buf) (i + 1) bits ltac:(lia)).
      rewrite rank_succ, Ht in * by lia. simpl in *. lia.
  - replace i with bits in Hrank by lia. split; [lia | done].
Qed.

(** ** Remapping *)

(** Where [bitmap_bitremap] sends position [i]. *)
Definition remap_spec (old new : list Z) (bits i p : Z) : Prop :=
  let w := rank (abit new) bits in
  if (0 <=? i) && (i <? bits) && abit old i && negb (w =? 0)
  then is_select (abit new) bits (rank (abit old) i mod w) p
  else p = i.

Lemma remap_spec_fun old new bits i p q :
  remap_spec old new bits i p -> remap_spec old new bits i q -> p = q.
Proof.
  unfold remap_spec. destruct (_ && _); [|congruence].
  intros (Hp & Tp & Rp) (Hq & Tq & Rq). apply (rank_inj (abit new)); done || lia.
Qed.

Lemma bitmap_bitremap_ok oldbit old new bits :
  fits bits old -> fits bits new -> 0 <= bits -> is_u32 (bits + 1) ->
  wp (bitmap_bitremap oldbit old new bits) (remap_spec old new bits oldbit).
Proof.
  intros Hold Hnew Hb Hu. unfold bitmap_bitremap, remap_spec.
  rewrite __bitmap_weight_ok by done. simpl. rewrite bitmap_pos_to_ord_ok by done. simpl.
  change (count_bits (abit new) 0 (Z.to_nat bits)) with (rank (abit new) bits).
  pose proof (rank_nonneg (abit new) bits). pose proof (rank_nonneg (abit old) oldbit).
  destruct ((0 <=? oldbit) && (oldbit <? bits) && abit old oldbit) eqn:E; simpl; [|done].
  rewrite (proj2 (Z.ltb_ge (rank (abit old) oldbit) 0)) by done. simpl.
  destruct (Z.eqb_spec (rank (abit new) bits) 0) as [|Hw]; simpl; [done|].
  eapply wp_mono; [by apply bitmap_ord_to_pos_ok|]. intros p [Hp _].
  rewrite Z.rem_mod_nonneg in Hp by lia. apply Hp. apply Z.mod_pos_bound. lia.
Qed.

(** ** Images of a bitmap

    [d'] is [dst] with its first [bits] bits, and the unused bits of the last
    word, replaced by the image of [src] under the relation [R]. *)

Definition image_of (R : Z -> Z -> Prop) (src dst : list Z) (bits : Z) (d' : list Z) : Prop :=
  words d' /\ length d' = length dst /\
  (forall i, 0 <= i < 32 * BITS_TO_LONGS bits ->
     abit d' i = true <-> exists k, 0 <= k < bits /\ abit src k = true /\ R k i) /\
  (forall i, 32 * BITS_TO_LONGS bits <= i -> abit d' i = abit dst i).

Lemma image_loop (R : Z -> Z -> Prop) src dst bits (body : Z -> list Z -> option (list Z)) :
  fits bits src -> fits bits dst -> 0 <= bits -> is_u32 (bits + 1) ->
  (forall k p q, R k p -> R k q -> p = q) ->
  (forall k d, 0 <= k < bits -> abit src k = true -> fits bits d ->
    wp (body k d) (fun d' => exists p, R k p /\ 0 <= p < bits /\ words d' /\
      length d' = length d /\ forall i, abit d' i = (i =? p) || abit d i)) ->
  wp (d ← bitmap_zero dst bits; for_each_set_bit src bits body d) (image_of R src dst bits).
Proof.
  intros Hsrc Hdst Hb Hu HR Hbody. wp_step.
  eapply wp_mono; [by apply bitmap_zero_ok|]. intros d0 (Hw0 & Hl0 & Hd0).
  pose proof (BITS_TO_LONGS_spec bits Hb) as HL. destruct Hdst as [_ Hdl].
  eapply wp_mono.
  { apply (for_each_set_bit_inv (fun k d => words d /\ length d = length dst /\
      (forall i, 0 <= i < 32 * BITS_TO_LONGS bits ->
        abit d i = true <-> exists k', 0 <= k' < k /\ abit src k' = true /\ R k' i) /\
      (forall i, 32 * BITS_TO_LONGS bits <= i -> abit d i = abit dst i))); try done.
    - split; [done|]. split; [done|]. split; intros i Hi; rewrite Hd0 by lia.
      + rewrite (proj2 (Z.ltb_lt _ _)) by lia. split; [done|]. intros (k' & ? & _). lia.
      + by rewrite (proj2 (Z.ltb_ge _ _)) by lia.
    - intros k d Hk Hsk (Hw & Hl & Hin & Hout). split; [done|]. split; [done|]. split; [|done].
      intros i Hi. rewrite Hin by done. split; intros (k' & Hk' & Ht & HRk).
      + exists k'. split; [lia | done].
      + exists k'. split; [|done]. destruct (Z.eq_dec k' k) as [->|]; [congruence | lia].
    - intros k d Hk Hsk (Hw & Hl & Hin & Hout).
      eapply wp_mono; [apply Hbody; try done; split; [done | rewrite Hl; lia]|].
      intros d' (p & Hp & Hpb & Hw' & Hl' & Hd'). split; [done|]. split; [congruence|].
      split; intros i Hi; rewrite Hd'.
      + rewrite orb_true_iff, Hin, Z.eqb_eq by done. split.
        * intros [-> |(k' & Hk' & HH)]; [exists k; split; [lia | done] | exists k'; split; [lia | done]].
        * intros (k' & Hk' & Ht & HRk). destruct (Z.eq_dec k' k) as [->|].
          -- left. by apply (HR k).
          -- right. exists k'. split; [lia | done].
      + rewrite (proj2 (Z.eqb_neq i p)) by lia. by apply Hout. }
  intros d' H. exact H.
Qed.

(** Setting one bit of an array with room for it. *)
Lemma set_bit_step (R : Z -> Z -> Prop) k p d bits :
  fits bits d -> 0 <= p < bits -> R k p ->
  wp (__set_bit p d) (fun d' => exists p, R k p /\ 0 <= p < bits /\ words d' /\
      length d' = length d /\ forall i, abit d' i = (i =? p) || abit d i).
Proof.
  intros [Hw Hl] Hp HR. eapply wp_mono; [apply __set_bit_ok; done || lia|]. intros d' ?.
  exists p. done.
Qed.

Lemma remap_spec_range old new bits i p :
  0 <= i < bits -> remap_spec old new bits i p -> 0 <= p < bits.
Proof.
  unfold remap_spec. intros Hi. destruct (_ && _); [intros (? & _); done | by intros ->].
Qed.

Lemma bitmap_remap_ok dst src old new bits :
  fits bits dst -> fits bits src -> fits bits old -> fits bits new ->
  0 <= bits -> is_u32 (bits + 1) ->
  wp (bitmap_remap dst (Some src) old new bits) (image_of (remap_spec old new bits) src dst bits).
Proof.
  intros Hdst Hsrc Hold Hnew Hb Hu. unfold bitmap_remap.
  rewrite (__bitmap_weight_ok new bits) by done. simpl.
  apply image_loop; try done; [apply remap_spec_fun|].
  intros k d Hk Hsk Hd.
  pose proof (bitmap_bitremap_ok k old new bits Hold Hnew Hb Hu) as Hbr.
  unfold bitmap_bitremap in Hbr. rewrite (__bitmap_weight_ok new bits) in Hbr by done. simpl in Hbr.
  destruct (bitmap_pos_to_ord old k bits) as [n|]; [|done]. simpl in Hbr |- *.
  destruct ((n <? 0) || _); simpl in Hbr.
  - apply set_bit_step; done || lia.
  - destruct (bitmap_ord_to_pos _ _ _) as [p|]; [|done]. simpl in Hbr |- *.
    apply set_bit_step; [done | by eapply remap_spec_range | done].
Qed.

Lemma bitmap_fold_ok dst orig sz bits :
  fits bits dst -> fits bits orig -> 0 <= bits -> is_u32 (bits + 1) -> 0 < sz <= bits ->
  wp (bitmap_fold dst (Some orig) sz bits) (image_of (fun k i => i = k mod sz) orig dst bits).
Proof.
  intros Hdst Ho Hb Hu Hsz. unfold bitmap_fold.
  apply image_loop; try done; [congruence|].
  intros k d Hk Hsk Hd. rewrite (proj2 (Z.eqb_neq sz 0)) by lia.
  rewrite Z.rem_mod_nonneg by lia. pose proof (Z.mod_pos_bound k sz).
  apply (set_bit_step (fun k i => i = k mod sz)); done || lia.
Qed.

Lemma bitmap_onto_ok dst orig relmap bits :
  fits bits dst -> fits bits orig -> fits bits relmap -> 0 <= bits -> is_u32 (bits + 1) ->
  wp (bitmap_onto dst (Some orig) relmap bits) (fun d' =>
    words d' /\ length d' = length dst /\
    (forall n, 0 <= n < 32 * BITS_TO_LONGS bits ->
       abit d' n = (n <? bits) && abit relmap n && abit orig (rank (abit relmap) n)) /\
    (forall i, 32 * BITS_TO_LONGS bits <= i -> abit d' i = abit dst i)).
Proof.
  intros Hdst [Ho Hol] Hrel Hb Hu. unfold bitmap_onto. wp_step.
  eapply wp_mono; [by apply bitmap_zero_ok|]. intros d0 (Hw0 & Hl0 & Hd0).
  pose proof (BITS_TO_LONGS_spec bits Hb) as HL. destruct Hdst as [_ Hdl].
  wp_step. eapply wp_mono.
  { apply (for_each_set_bit_inv (fun k '(m, d) => m = rank (abit relmap) k /\
      words d /\ length d = length dst /\
      (forall n, 0 <= n < 32 * BITS_TO_LONGS bits ->
        abit d n = (n <? k) && abit relmap n && abit orig (rank (abit relmap) n)) /\
      (forall i, 32 * BITS_TO_LONGS bits <= i -> abit d i = abit dst i))); try done.
    - do 3 (split; [done|]). split; intros i Hi; rewrite Hd0 by lia.
      + rewrite (proj2 (Z.ltb_lt i _)) by lia. by rewrite (proj2 (Z.ltb_ge i 0)) by lia.
      + by rewrite (proj2 (Z.ltb_ge _ _)) by lia.
    - intros k [m d] Hk Hrk (-> & Hw & Hl & Hin & Hout).
      rewrite rank_succ, Hrk, Z.add_0_r by lia. do 3 (split; [done|]). split; [|done].
      intros n Hn. rewrite Hin by done.
      destruct (Z.ltb_spec n k), (Z.ltb_spec n (k + 1)); try lia; try done.
      replace n with k by lia. by rewrite Hrk.
    - intros k [m d] Hk Hrk (-> & Hw & Hl & Hin & Hout).
      pose proof (rank_nonneg (abit relmap) k). pose proof (rank_le (abit relmap) k ltac:(lia)).
      rewrite test_bit_ok by (done || lia). simpl.
      destruct (abit orig (rank (abit relmap) k)) eqn:E; simpl.
      + wp_step. eapply wp_mono; [apply __set_bit_ok; done || lia|]. intros d' (Hw' & Hl' & Hd').
        simpl. rewrite rank_succ, Hrk by lia. split; [done|]. split; [done|].
        split; [congruence|]. split; intros n Hn; rewrite Hd'.
        * rewrite Hin by done.
          destruct (Z.eqb_spec n k) as [->|]; [by rewrite Hrk, E, (proj2 (Z.ltb_lt k (k + 1))) by lia|].
          destruct (Z.ltb_spec n k), (Z.ltb_spec n (k + 1)); done || lia.
        * rewrite (proj2 (Z.eqb_neq n k)) by lia. by apply Hout.
      + rewrite rank_succ, Hrk by lia. do 3 (split; [done|]). split; [|done].
        intros n Hn. rewrite Hin by done.
        destruct (Z.ltb_spec n k), (Z.ltb_spec n (k + 1)); try lia; try done.
        replace n with k by lia. by rewrite E, !andb_false_r. }
  intros [m d] (_ & H). exact H.
Qed.

(** ** Properties *)

(** [bitmap_pos_to_ord] and [bitmap_ord_to_pos] are inverse: the position
    of the ordinal of a set bit is that bit, and the ordinal of the position
    of the [ord]-th set bit is [ord], for every ordinal below the weight. *)
Theorem pos_ord_roundtrip buf bits :
  fits bits buf -> 0 <= bits -> is_u32 (bits + 1) ->
  (forall pos, 0 <= pos < bits -> abit buf pos = true ->
     (ord ← bitmap_pos_to_ord buf pos bits; bitmap_ord_to_pos buf ord bits) = Some pos) /\
  (forall w ord, __bitmap_weight buf bits = Some w -> 0 <= ord < w ->
     (pos ← bitmap_ord_to_pos buf ord bits; bitmap_pos_to_ord buf pos bits) = Some ord).
Proof.
  intros Hf Hb Hu. split.
  - intros pos Hpos Ht. rewrite bitmap_pos_to_ord_ok by done.
    rewrite (proj2 (Z.leb_le 0 pos)), (proj2 (Z.ltb_lt pos bits)), Ht by lia. simpl.
    pose proof (bitmap_ord_to_pos_ok buf (rank (abit buf) pos) bits Hf Hb Hu) as H.
    apply wp_elim in H as (p & -> & Hp & _). f_equal.
    pose proof (rank_nonneg (abit buf) pos).
    pose proof (rank_mono (abit buf) (pos + 1) bits ltac:(lia)).
    rewrite rank_succ, Ht in * by lia. simpl in *.
    destruct Hp as (? & ? & ?); [lia|]. apply (rank_inj (abit buf)); done || lia.
  - intros w ord Hw Hord. rewrite __bitmap_weight_ok in Hw by done. injection Hw as <-.
    pose proof (bitmap_ord_to_pos_ok buf ord bits Hf Hb Hu) as H.
    apply wp_elim in H as (p & -> & Hp & _). destruct (Hp Hord) as (? & Ht & Hr). simpl.
    rewrite bitmap_pos_to_ord_ok by done.
    by rewrite (proj2 (Z.leb_le 0 p)), (proj2 (Z.ltb_lt p bits)), Ht, <- Hr by lia.
Qed.

Lemma pos_ord_roundtrip_witness :
  (ord ← bitmap_pos_to_ord [0xf0] 6 8; bitmap_ord_to_pos [0xf0] ord 8) = Some 6.
Proof. refine (proj1 (pos_ord_roundtrip [0xf0] 8 _ _ _) 6 _ _); concrete. Defined.

(** [bitmap_remap] computes the image of the source under the map that
    [bitmap_bitremap] applies to single positions: bit [i] of the result is
    set exactly when some set bit of the source is sent to [i]; a position
    that is set in [old] goes to the position of the same ordinal, modulo the
    weight of [new], in [new], and every other position to itself. *)
Theorem bitmap_remap_image dst src old new bits :
  fits bits dst -> fits bits src -> fits bits old -> fits bits new ->
  0 <= bits -> is_u32 (bits + 1) ->
  wp (bitmap_remap dst (Some src) old new bits)
     (image_of (fun k i => bitmap_bitremap k old new bits = Some i) src dst bits) /\
  (forall k, wp (bitmap_bitremap k old new bits) (remap_spec old new bits k)).
Proof.
  intros Hdst Hsrc Hold Hnew Hb Hu. split; [|intros k; by apply bitmap_bitremap_ok].
  eapply wp_mono; [by apply bitmap_remap_ok|]. intros d' (Hw & Hl & Hin & Hout).
  split; [done|]. split; [done|]. split; [|done]. intros i Hi. rewrite Hin by done.
  split; intros (k & Hk & Ht & HR); exists k; (split; [done|]); (split; [done|]);
    destruct (wp_elim _ _ (bitmap_bitremap_ok k old new bits Hold Hnew Hb Hu)) as (p & E & Hp).
  - rewrite E. f_equal. by eapply remap_spec_fun.
  - rewrite HR in E. by injection E as ->.
Qed.

Lemma bitmap_remap_image_witness : bitmap_bitremap 5 [0xf0] [0x1e00] 16 = Some 10.
Proof.
  destruct (bitmap_remap_image [0] [0] [0xf0] [0x1e00] 16) as [_ H];
    [concrete | concrete | concrete | concrete | concrete | concrete |].
  destruct (wp_elim _ _ (H 5)) as (p & E & _). rewrite E. vm_compute in E. exact (eq_sym E).
Defined.

(** [bitmap_onto] sets bit [n] exactly when [n] is set in [relmap] and the
    ordinal of [n] in [relmap] is set in [orig]; [bitmap_fold] is the image of
    [orig] under reduction modulo [sz]. *)
Theorem bitmap_onto_fold_correct dst orig relmap sz bits :
  fits bits dst -> fits bits orig -> fits bits relmap -> 0 <= bits -> is_u32 (bits + 1) ->
  wp (bitmap_onto dst (Some orig) relmap bits) (fun d' =>
    words d' /\ length d' = length dst /\
    (forall n, 0 <= n < 32 * BITS_TO_LONGS bits ->
       abit d' n = (n <? bits) && abit relmap n && abit orig (rank (abit relmap) n)) /\
    (forall i, 32 * BITS_TO_LONGS bits <= i -> abit d' i = abit dst i)) /\
  (0 < sz <= bits ->
   wp (bitmap_fold dst (Some orig) sz bits) (image_of (fun k i => i = k mod sz) orig dst bits)).
Proof. intros. split; [by apply bitmap_onto_ok | intros; by apply bitmap_fold_ok]. Qed.

Lemma bitmap_onto_fold_correct_witness :
  wp (bitmap_fold [0] (Some [0x21]) 4 8) (image_of (fun k i => i = k mod 4) [0x21] [0] 8).
Proof. apply (bitmap_onto_fold_correct [0] [0x21] [0] 4 8); concrete. Defined.
