(* ===== verification/BitmapAlloc.v ===== *)
(** * Allocation in bitmaps

    [bitmap_find_next_zero_area] (first fit of an aligned run of zero bits)
    and the power-of-two region allocator [bitmap_find_free_region],
    [bitmap_allocate_region], [bitmap_release_region] of [lib/bitmap.c]. *)

From S2P Require Import Prelude Bitops Bitmap.
Open Scope c_scope.

(** ** Definitions *)

Definition __ALIGN_MASK (x mask : Z) : Z := u32 (x + mask) .& .~ mask.

(** [goto again] is the loop; its state is [start]. *)
Definition bitmap_find_next_zero_area (map : list Z) (size start nr align_mask : Z) : option Z :=
  c_loop (S (Z.to_nat size)) (fun start =>
    index ← find_next_zero_bit map size start;
    let index := __ALIGN_MASK index align_mask in
    let end_ := u32 (index + nr) in
    if size <? end_ then Some (inr end_) else
    i ← find_next_bit map end_ index;
    if i <? end_ then Some (inl (u32 (i + 1))) else Some (inr index))
    start.

Inductive reg_op := REG_OP_ISFREE | REG_OP_ALLOC | REG_OP_RELEASE.

Definition __reg_op (bitmap : list Z) (pos order : Z) (op : reg_op) : option (Z * list Z) :=
  nbits_reg ← int_shl 1 order;
  let index := pos / BITS_PER_LONG in
  let offset := pos - index * BITS_PER_LONG in
  let nlongs_reg := BITS_TO_LONGS nbits_reg in
  let nbitsinlong := Z.min nbits_reg BITS_PER_LONG in
  let mask := 1 .<< (nbitsinlong - 1) in
  let mask := u32 (mask + (mask - 1)) in
  let mask := mask .<< offset in
  match op with
  | REG_OP_ISFREE =>
      r ← c_for 0 nlongs_reg (fun i _ =>
        w ← arr_get bitmap (index + i);
        if truthy (w .& mask) then Some (inr tt) else Some (inl tt)) tt;
      match r with
      | inr _ => Some (0, bitmap)
      | inl _ => Some (1, bitmap)
      end
  | REG_OP_ALLOC =>
      bitmap ← c_for_all 0 nlongs_reg (fun i bitmap =>
        w ← arr_get bitmap (index + i);
        arr_set bitmap (index + i) (w .| mask)) bitmap;
      Some (0, bitmap)
  | REG_OP_RELEASE =>
      bitmap ← c_for_all 0 nlongs_reg (fun i bitmap =>
        w ← arr_get bitmap (index + i);
        arr_set bitmap (index + i) (w .& .~ mask)) bitmap;
      Some (0, bitmap)
  end.

Definition bitmap_find_free_region (bitmap : list Z) (bits order : Z) : option (Z * list Z) :=
  c_loop (S (Z.to_nat bits)) (fun pos =>
    size ← int_shl 1 order;
    end_ ← c_int (pos + size);
    if end_ <=? bits then
      '(free, _) ← __reg_op bitmap pos order REG_OP_ISFREE;
      if negb (truthy free) then Some (inl end_)
      else
        '(_, bitmap') ← __reg_op bitmap pos order REG_OP_ALLOC;
        Some (inr (pos, bitmap'))
    else Some (inr (- ENOMEM, bitmap))) 0.

Definition bitmap_release_region (bitmap : list Z) (pos order : Z) : option (list Z) :=
  '(_, bitmap') ← __reg_op bitmap pos order REG_OP_RELEASE;
  Some bitmap'.

Definition bitmap_allocate_region (bitmap : list Z) (pos order : Z) : option (Z * list Z) :=
  '(free, _) ← __reg_op bitmap pos order REG_OP_ISFREE;
  if negb (truthy free) then Some (- EBUSY, bitmap)
  else
    '(_, bitmap') ← __reg_op bitmap pos order REG_OP_ALLOC;
    Some (0, bitmap').

(** ** Alignment *)

Lemma ALIGN_MASK_spec x k : 0 <= k <= 31 -> 0 <= x -> x + (2 ^ k - 1) < 2 ^ 32 ->
  let y := __ALIGN_MASK x (2 ^ k - 1) in
  x <= y < x + 2 ^ k /\ (2 ^ k | y) /\
  (forall a, (2 ^ k | a) -> x <= a -> y <= a).
Proof.
  intros Hk Hx Hov y. assert (0 < 2 ^ k) as Hp by (apply Z.pow_pos_nonneg; lia).
  assert (y = 2 ^ k * ((x + (2 ^ k - 1)) / 2 ^ k)) as Hy.
  { subst y. unfold __ALIGN_MASK. rewrite u32_small by (unfold is_u32; lia).
    replace (2 ^ k * ((x + (2 ^ k - 1)) / 2 ^ k)) with (Z.shiftl (Z.shiftr (x + (2 ^ k - 1)) k) k)
      by (rewrite Z.shiftl_mul_pow2, Z.shiftr_div_pow2 by lia; lia).
    assert (is_u32 (x + (2 ^ k - 1))) as Hu by (unfold is_u32; lia).
    replace (2 ^ k - 1) with (Z.ones k) in * by (rewrite Z.ones_equiv; lia).
    apply Z.bits_inj'. intros i Hi. rewrite Z.land_spec, Z.shiftl_spec by lia.
    destruct (Z.lt_ge_cases i k).
    - rewrite (Z.testbit_neg_r _ (i - k)), testbit_not32, Z.ones_spec_low by lia. apply andb_false_r.
    - rewrite Z.shiftr_spec by lia. replace (i - k + k) with i by lia.
      destruct (Z.lt_ge_cases i 32).
      + rewrite testbit_not32, Z.ones_spec_high by lia. apply andb_true_r.
      + by rewrite (proj2 (proj1 (is_u32_testbit _) Hu)) by lia. }
  clearbody y. subst y.
  pose proof (Z.div_mod (x + (2 ^ k - 1)) (2 ^ k) ltac:(lia)) as Hdm.
  pose proof (Z.mod_pos_bound (x + (2 ^ k - 1)) (2 ^ k) Hp).
  set (q := (x + (2 ^ k - 1)) / 2 ^ k) in *.
  split; [lia|]. split; [apply Z.divide_factor_l|].
  intros a [c ->] Hc. rewrite (Z.mul_comm c). apply Z.mul_le_mono_nonneg_l; [lia|].
  destruct (Z.lt_ge_cases c q) as [Hlt|]; [|done]. exfalso.
  assert (c * 2 ^ k <= (q - 1) * 2 ^ k) by (apply Z.mul_le_mono_nonneg_r; lia). lia.
Qed.

(** ** First fit of an aligned zero area *)

(** [a] is the start of a free run of [nr] bits, aligned to [2^k], inside the
    first [size] bits. *)
Definition free_area (map : list Z) (size nr k a : Z) : Prop :=
  (2 ^ k | a) /\ a + nr <= size /\ forall i, a <= i < a + nr -> abit map i = false.

Lemma bitmap_find_next_zero_area_ok map size start nr k :
  words map -> size <= 32 * Z.of_nat (length map) -> 0 <= start -> 0 < nr ->
  0 <= k <= 31 -> 0 <= size -> size + nr + 2 ^ k < 2 ^ 32 -> start < 2 ^ 32 ->
  wp (bitmap_find_next_zero_area map size start nr (2 ^ k - 1)) (fun r =>
    (r <= size /\ start <= r /\ free_area map size nr k r /\
     forall a, start <= a < r -> ~ free_area map size nr k a) \/
    (size < r /\ forall a, start <= a -> ~ free_area map size nr k a)).
Proof.
  intros Ha Hlen Hs0 Hnr Hk Hsz Hov Hst. unfold bitmap_find_next_zero_area.
  assert (0 < 2 ^ k) by (apply Z.pow_pos_nonneg; lia).
  apply (c_loop_inv (fun s => start <= s /\ s < 2 ^ 32 /\
      forall a, start <= a < s -> ~ free_area map size nr k a)
    (fun s => Z.max 0 (size - s))); [lia| |split; [lia|split; [done|lia]]|lia].
  intros s (Hs & Hs32 & Hnone). wp_step.
  eapply wp_mono; [apply find_next_zero_bit_ok; unfold is_u32; done || lia|].
  intros z Hz. 
  assert (z <= size) as Hzs by (destruct Hz as [[??]|(?&?&?)]; lia).
  assert (0 <= z) as Hz0 by (destruct Hz as [[??]|(?&?&?)]; lia).
  destruct (ALIGN_MASK_spec z k Hk Hz0 ltac:(lia)) as (Hidx & Hdiv & Hmin).
  set (index := __ALIGN_MASK z (2 ^ k - 1)) in *.
  assert (forall a, s <= a -> free_area map size nr k a -> index <= a) as Hlow.
  { intros a Has (Hda & Hend & Hfree). apply Hmin; [done|].
    destruct Hz as [[? ->]|(Hzr & Hzf & _)]; [lia|].
    destruct (Z.lt_ge_cases a z); [|done]. specialize (Hzf a ltac:(lia)).
    rewrite Hfree in Hzf by lia. done. }
  rewrite u32_small by (unfold is_u32; lia).
  assert (forall a, start <= a < index -> ~ free_area map size nr k a) as Hbelow.
  { intros a Hstart Hfa. destruct (Z.lt_ge_cases a s); [apply (Hnone a); [lia|done]|].
    specialize (Hlow a ltac:(lia) Hfa). lia. }
  destruct (Z.ltb_spec size (index + nr)).
  - simpl. right. split; [lia|]. intros a Has Hfa.
    destruct (Z.lt_ge_cases a index); [apply (Hbelow a); [lia|done]|].
    destruct Hfa as (_ & Hend & _). lia.
  - wp_step. eapply wp_mono; [apply find_next_bit_ok; unfold is_u32; done || lia|].
    intros i Hi. destruct Hi as [[? ->]|(Hir & Hif & Hit)]; [lia|].
    assert (s <= index).
    { destruct Hz as [[? ->]|(?&?&?)]; lia. }
    destruct (Z.ltb_spec i (index + nr)) as [Hlt|Hge]; simpl.
    + rewrite u32_small by (unfold is_u32; lia). split; [|lia]. split; [lia|]. split; [lia|].
      intros a Hia Hfa. destruct (Z.lt_ge_cases a index); [apply (Hbelow a); [lia|done]|].
      destruct Hfa as (_ & _ & Hfree). specialize (Hfree i ltac:(lia)).
      rewrite Hit in Hfree by done. done.
    + left. split; [lia|]. split; [lia|]. split; [|done].
      split; [done|]. split; [lia|]. intros j Hj. apply Hif. lia.
Qed.

(** ** Power-of-two regions *)

Section region.
Context (pos order : Z) (Ho : 0 <= order <= 30) (Hpos : 0 <= pos) (Hal : (2 ^ order | pos)).

Definition reg_nlongs : Z := BITS_TO_LONGS (2 ^ order).
Definition reg_mask : Z :=
  let nbitsinlong := Z.min (2 ^ order) BITS_PER_LONG in
  let mask := 1 .<< (nbitsinlong - 1) in
  let mask := u32 (mask + (mask - 1)) in
  mask .<< (pos - pos / BITS_PER_LONG * BITS_PER_LONG).

Lemma reg_mask_full n : 0 < n <= 32 ->
  u32 ((1 .<< (n - 1)) + ((1 .<< (n - 1)) - 1)) = Z.ones n.
Proof.
  intros Hn. unfold shl32. rewrite Z.shiftl_mul_pow2, Z.mul_1_l by lia.
  assert (0 < 2 ^ (n - 1) <= 2 ^ 31).
  { split; [apply Z.pow_pos_nonneg; lia | apply Z.pow_le_mono_r; lia]. }
  rewrite (u32_small (2 ^ (n - 1))) by (unfold is_u32; lia).
  rewrite u32_small by (unfold is_u32; lia). rewrite Z.ones_equiv.
  replace (2 ^ n) with (2 * 2 ^ (n - 1)); [lia|].
  rewrite <- Z.pow_succ_r by lia. f_equal. lia.
Qed.

Lemma reg_mask_u32 : is_u32 reg_mask.
Proof. apply is_u32_shl32. Qed.

(** Either the region lies inside one word, or it is a run of whole words. *)
Lemma reg_shape :
  (order < 5 /\ reg_nlongs = 1 /\ pos mod 32 + 2 ^ order <= 32) \/
  (5 <= order /\ 32 * reg_nlongs = 2 ^ order /\ pos mod 32 = 0).
Proof.
  unfold reg_nlongs, BITS_TO_LONGS, BITS_PER_LONG. destruct Hal as [c ->].
  destruct (Z.lt_ge_cases order 5).
  - left. assert (order = 0 \/ order = 1 \/ order = 2 \/ order = 3 \/ order = 4) as Hc by lia.
    destruct Hc as [-> | [-> | [-> | [-> | ->]]]]; split_and!; try lia; simpl;
      Z.div_mod_to_equations; lia.
  - right. replace (2 ^ order) with (32 * 2 ^ (order - 5)).
    2:{ change 32 with (2 ^ 5). rewrite <- Z.pow_add_r by lia. f_equal. lia. }
    set (q := 2 ^ (order - 5)). split; [done|]. split.
    + replace (32 * q + 32 - 1) with (31 + q * 32) by lia. rewrite Z.div_add by lia. change (31 / 32) with 0. lia.
    + replace (c * (32 * q)) with (c * q * 32) by lia. apply Z.mod_mul. lia.
Qed.

Lemma reg_mask_bit j b : 0 <= j < reg_nlongs -> 0 <= b < 32 ->
  Z.testbit reg_mask b =
  (pos <=? 32 * (pos / 32 + j) + b) && (32 * (pos / 32 + j) + b <? pos + 2 ^ order).
Proof.
  intros Hj Hb. unfold reg_mask, BITS_PER_LONG.
  assert (1 <= 2 ^ order) by (pose proof (Z.pow_pos_nonneg 2 order); lia).
  rewrite reg_mask_full by lia. rewrite testbit_shl32 by done.
  destruct (bit_decomp pos) as [Hd Hm].
  replace (pos - pos / 32 * 32) with (pos mod 32) by lia.
  destruct reg_shape as [(? & Hn & Hfit)|(? & Hn & H0)].
  - rewrite Hn in Hj. assert (j = 0) as -> by lia. rewrite Z.min_l by lia.
    destruct (Z.lt_ge_cases b (pos mod 32)).
    { rewrite Z.testbit_neg_r, (proj2 (Z.leb_gt pos _)) by lia. done. }
    rewrite (proj2 (Z.leb_le pos _)) by lia. simpl.
    destruct (Z.ltb_spec (32 * (pos / 32 + 0) + b) (pos + 2 ^ order)).
    + apply Z.ones_spec_low. lia.
    + apply Z.ones_spec_high. lia.
  - rewrite H0, Z.sub_0_r, Z.min_r by lia. rewrite Z.ones_spec_low by lia.
    rewrite (proj2 (Z.leb_le pos _)), (proj2 (Z.ltb_lt _ (pos + 2 ^ order))) by lia. done.
Qed.

Lemma reg_word i : pos <= i < pos + 2 ^ order -> 0 <= i / 32 - pos / 32 < reg_nlongs.
Proof.
  intros Hi. destruct reg_shape as [(? & -> & Hfit)|(? & Hn & H0)];
    destruct (bit_decomp pos) as [Hd Hm]; destruct (bit_decomp i) as [Hdi Hmi]; lia.
Qed.

Lemma reg_in_array (bitmap : list Z) j :
  pos + 2 ^ order <= 32 * Z.of_nat (length bitmap) -> 0 <= j < reg_nlongs ->
  0 <= pos / 32 + j < Z.of_nat (length bitmap).
Proof.
  intros Hlen Hj. assert (0 <= pos / 32) by (apply Z.div_pos; lia).
  destruct (bit_decomp pos) as [Hd Hm].
  assert (0 < 2 ^ order) by (apply Z.pow_pos_nonneg; lia).
  destruct reg_shape as [(Ho5 & Hn & Hfit)|(Ho5 & Hn & Hm0)]; lia.
Qed.

Lemma reg_isfree_ok bitmap :
  words bitmap -> pos + 2 ^ order <= 32 * Z.of_nat (length bitmap) ->
  wp (__reg_op bitmap pos order REG_OP_ISFREE) (fun '(r, bitmap') => bitmap' = bitmap /\
    decides (forall i, pos <= i < pos + 2 ^ order -> abit bitmap i = false) r).
Proof.
  intros Ha Hlen. unfold __reg_op. rewrite int_shl_1 by done. cbn [mbind option_bind]. fold reg_mask reg_nlongs. wp_step.
  eapply wp_mono; [apply (c_for_inv
    (fun k _ => forall j, 0 <= j < k -> zth bitmap (pos / 32 + j) .& reg_mask = 0)
    (fun _ => exists j, 0 <= j < reg_nlongs /\ zth bitmap (pos / 32 + j) .& reg_mask <> 0))|].
  - apply BITS_TO_LONGS_spec. apply Z.pow_nonneg. lia.
  - lia.
  - intros k [] Hk Hpre. wp_step. wp_step; [by apply reg_in_array|]. unfold BITS_PER_LONG.
    destruct (truthy _) eqn:E; simpl.
    + apply truthy_true in E. eauto.
    + apply truthy_false in E. intros j Hj. destruct (Z.eq_dec j k) as [->|]; [done | apply Hpre; lia].
  - intros [[]|[]]; simpl.
    + intros Hz. split; [done|]. left. split; [done|]. intros i Hi.
      pose proof (reg_word i Hi) as Hw. specialize (Hz _ Hw).
      replace (pos / 32 + (i / 32 - pos / 32)) with (i / 32) in Hz by lia.
      assert (Z.testbit (zth bitmap (i / 32) .& reg_mask) (i mod 32) = false) as Hb
        by (rewrite Hz; apply Z.bits_0).
      destruct (bit_decomp i) as [Hdi Hmi].
      rewrite Z.land_spec, (reg_mask_bit _ _ Hw Hmi) in Hb.
      replace (32 * (pos / 32 + (i / 32 - pos / 32)) + i mod 32) with i in Hb by lia.
      rewrite (proj2 (Z.leb_le pos i)), (proj2 (Z.ltb_lt i _)), andb_true_r in Hb by lia. done.
    + intros (j & Hj & Hnz). split; [done|]. right. split; [done|]. intros Hfree.
      destruct (__ffs_spec _ ltac:(apply is_u32_land; [by apply words_zth | apply reg_mask_u32]) Hnz)
        as (Hr & Ht & _).
      set (b := __ffs _) in *. rewrite Z.land_spec, (reg_mask_bit j b Hj Hr) in Ht.
      rewrite <- abit_word in Ht by done. apply andb_prop in Ht as [Ht1 Ht2].
      apply andb_prop in Ht2 as [Hl Hh]. apply Z.leb_le in Hl. apply Z.ltb_lt in Hh.
      rewrite Hfree in Ht1 by lia. done.
Qed.

(** The update loops of [REG_OP_ALLOC] and [REG_OP_RELEASE]. *)
Lemma reg_update_ok (op : Z -> Z -> Z) (v : bool) bitmap :
  (forall w m, is_u32 w -> is_u32 m -> is_u32 (op w m)) ->
  (forall w m b, 0 <= b < 32 ->
     Z.testbit (op w m) b = if Z.testbit m b then v else Z.testbit w b) ->
  words bitmap -> pos + 2 ^ order <= 32 * Z.of_nat (length bitmap) ->
  wp (c_for_all 0 reg_nlongs (fun i bitmap =>
        w ← arr_get bitmap (pos / 32 + i);
        arr_set bitmap (pos / 32 + i) (op w reg_mask)) bitmap)
     (fun bitmap' => words bitmap' /\ length bitmap' = length bitmap /\
        forall i, abit bitmap' i = if (pos <=? i) && (i <? pos + 2 ^ order) then v else abit bitmap i).
Proof.
  intros Hop Hbit Ha Hlen.
  eapply wp_mono; [apply (c_for_all_inv (fun k d => words d /\ length d = length bitmap /\
    forall i, abit d i = if (pos / 32 <=? i / 32) && (i / 32 <? pos / 32 + k) &&
      (pos <=? i) && (i <? pos + 2 ^ order) then v else abit bitmap i))|].
  - apply BITS_TO_LONGS_spec. apply Z.pow_nonneg. lia.
  - split; [done|]. split; [done|]. intros i. repeat zcase; simpl; done || lia.
  - intros k d Hk (Hw & Hl & Hbits). pose proof (reg_in_array bitmap k Hlen Hk) as Hin.
    wp_step. wp_step; [lia|]. wp_step; [lia|].
    split; [apply words_insert; [done | apply Hop; [by apply words_zth | apply reg_mask_u32]]|].
    split; [by rewrite length_insert|]. intros i. rewrite abit_insert by lia.
    destruct (bit_decomp i) as [Hdi Hmi]. destruct (Z.eqb_spec (i / 32) (pos / 32 + k)) as [E|E].
    + rewrite Hbit, (reg_mask_bit k (i mod 32)) by done. rewrite <- E, <- Hdi. rewrite <- abit_split, Hbits.
      rewrite (proj2 (Z.leb_le (pos / 32) (i / 32))), (proj2 (Z.ltb_lt (i / 32) (pos / 32 + (k + 1)))) by lia.
      rewrite (proj2 (Z.ltb_ge (i / 32) (pos / 32 + k))) by lia. done.
    + rewrite Hbits. replace (i / 32 <? pos / 32 + (k + 1)) with (i / 32 <? pos / 32 + k); [done|].
      zcase; zcase; done || lia.
  - intros d (Hw & Hl & Hbits). split; [done|]. split; [done|]. intros i. rewrite Hbits.
    destruct (Z.leb_spec pos i), (Z.ltb_spec i (pos + 2 ^ order)); try by rewrite ?andb_false_r.
    pose proof (reg_word i ltac:(lia)). rewrite (proj2 (Z.leb_le _ _)), (proj2 (Z.ltb_lt _ _)) by lia. done.
Qed.

Lemma reg_alloc_ok bitmap :
  words bitmap -> pos + 2 ^ order <= 32 * Z.of_nat (length bitmap) ->
  wp (__reg_op bitmap pos order REG_OP_ALLOC) (fun '(r, bitmap') => r = 0 /\
    words bitmap' /\ length bitmap' = length bitmap /\
    forall i, abit bitmap' i = if (pos <=? i) && (i <? pos + 2 ^ order) then true else abit bitmap i).
Proof.
  intros Ha Hlen. unfold __reg_op. rewrite int_shl_1 by done. cbn [mbind option_bind]. fold reg_mask reg_nlongs. wp_step.
  eapply wp_mono; [apply (reg_update_ok Z.lor true); auto with bits|].
  - intros w m b Hb. rewrite Z.lor_spec. destruct (Z.testbit m b); btauto.
  - intros d Hd. simpl. done.
Qed.

Lemma reg_release_ok bitmap :
  words bitmap -> pos + 2 ^ order <= 32 * Z.of_nat (length bitmap) ->
  wp (bitmap_release_region bitmap pos order) (fun bitmap' =>
    words bitmap' /\ length bitmap' = length bitmap /\
    forall i, abit bitmap' i = if (pos <=? i) && (i <? pos + 2 ^ order) then false else abit bitmap i).
Proof.
  intros Ha Hlen. unfold bitmap_release_region, __reg_op. rewrite int_shl_1 by done.
  cbn [mbind option_bind]. fold reg_mask reg_nlongs. wp_step. wp_step.
  eapply wp_mono; [apply (reg_update_ok (fun w m => w .& .~ m) false); auto with bits|].
  - intros w m b Hb. rewrite Z.land_spec, testbit_not32 by done. destruct (Z.testbit m b); btauto.
  - intros d Hd. simpl. done.
Qed.

Lemma bitmap_allocate_region_ok bitmap :
  words bitmap -> pos + 2 ^ order <= 32 * Z.of_nat (length bitmap) ->
  wp (bitmap_allocate_region bitmap pos order) (fun '(r, bitmap') =>
    (r = 0 /\ (forall i, pos <= i < pos + 2 ^ order -> abit bitmap i = false) /\
     words bitmap' /\ length bitmap' = length bitmap /\
     forall i, abit bitmap' i = if (pos <=? i) && (i <? pos + 2 ^ order) then true else abit bitmap i) \/
    (r = - EBUSY /\ bitmap' = bitmap /\ exists i, pos <= i < pos + 2 ^ order /\ abit bitmap i = true)).
Proof.
  intros Ha Hlen. unfold bitmap_allocate_region. wp_step.
  eapply wp_mono; [by apply reg_isfree_ok|]. intros [r b'] [-> [[-> Hf]|[-> Hf]]]; simpl.
  - wp_step. eapply wp_mono; [by apply reg_alloc_ok|]. intros [r d] (_ & Hd). simpl. left. done.
  - right. split; [done|]. split; [done|].
    by destruct (range_search (abit bitmap) pos (pos + 2 ^ order)).
Qed.
End region.

(** ** The region allocator *)

(** A free region of [2^order] bits, aligned, inside the bitmap. *)
Definition free_region (bitmap : list Z) (bits order pos : Z) : Prop :=
  0 <= pos /\ free_area bitmap bits (2 ^ order) order pos.

(** The scan computes the end of the region that follows the last one tried as
    an [int], so it needs room for one more region, or a free one to stop at. *)
Definition scan_fits (bitmap : list Z) (bits order : Z) : Prop :=
  bits + 2 ^ order <= INT_MAX \/ exists a, free_region bitmap bits order a.

(** Regions of one order are aligned, so one that does not begin before [pos]
    begins at [pos] or after its end. *)
Lemma region_at_or_after order pos a :
  0 <= order -> (2 ^ order | pos) -> (2 ^ order | a) -> pos <= a -> a = pos \/ pos + 2 ^ order <= a.
Proof.
  intros Ho [c ->] [d ->] Hle. assert (0 < 2 ^ order) by (apply Z.pow_pos_nonneg; lia).
  destruct (Z.lt_ge_cases c d); [right; nia | left; f_equal; nia].
Qed.

Lemma bitmap_find_free_region_ok bitmap bits order :
  fits bits bitmap -> 0 <= bits <= INT_MAX -> 0 <= order <= 30 -> scan_fits bitmap bits order ->
  wp (bitmap_find_free_region bitmap bits order) (fun '(r, bitmap') =>
    (free_region bitmap bits order r /\
     (forall a, a < r -> ~ free_region bitmap bits order a) /\
     words bitmap' /\ length bitmap' = length bitmap /\
     forall i, abit bitmap' i = if (r <=? i) && (i <? r + 2 ^ order) then true else abit bitmap i) \/
    (r = - ENOMEM /\ bitmap' = bitmap /\ forall a, ~ free_region bitmap bits order a)).
Proof.
  intros [Ha Hlen] Hb Ho Hscan. unfold bitmap_find_free_region.
  assert (0 < 2 ^ order) as Hp by (apply Z.pow_pos_nonneg; lia).
  apply (c_loop_inv (fun pos => 0 <= pos <= bits /\ (2 ^ order | pos) /\
      (forall a, a < pos -> ~ free_region bitmap bits order a))
    (fun pos => bits - pos)); [lia| | |lia].
  2:{ split; [lia|]. split; [apply Z.divide_0_r|]. intros a Ha' [? _]. lia. }
  intros pos (Hpos & Hdiv & Hnone). rewrite int_shl_1, bind_Some_eq by done.
  assert (pos + 2 ^ order <= INT_MAX) as Hmax.
  { destruct Hscan as [?|[a Hfr]]; [lia|].
    destruct (Z.lt_ge_cases a pos) as [Hlt|?]; [by destruct (Hnone a Hlt)|].
    destruct Hfr as (_ & _ & ? & _). lia. }
  rewrite c_int_Some, bind_Some_eq by lia.
  destruct (Z.leb_spec (pos + 2 ^ order) bits) as [Hfit|Hfit].
  - wp_step. eapply wp_mono; [apply reg_isfree_ok; done || lia|].
    intros [r b'] [-> [[-> Hf]|[-> Hf]]]; simpl.
    + wp_step. eapply wp_mono; [apply reg_alloc_ok; done || lia|].
      intros [r d] (_ & Hd). simpl. left. repeat split; try done; lia || apply Hd.
    + split; [|lia]. split; [lia|]. split; [by apply Z.divide_add_r; [|apply Z.divide_refl]|].
      intros a Ha' Hfr. destruct (Z.lt_ge_cases a pos); [by apply (Hnone a)|].
      destruct Hfr as (Ha0 & Hda & Hend & Hfree).
      destruct (region_at_or_after order pos a ltac:(lia) Hdiv Hda ltac:(lia)) as [->|?]; [done | lia].
  - simpl. right. split; [done|]. split; [done|]. intros a Hfr.
    destruct (Z.lt_ge_cases a pos); [by apply (Hnone a)|].
    destruct Hfr as (_ & _ & Hend & _). lia.
Qed.

(** ** Properties *)

(** C25: [bitmap_find_next_zero_area] returns the lowest position at or after
    [start], aligned to [2 ^ k], at which [nr] zero bits fit below [size], and
    a value above [size] exactly when there is no such position; the search
    terminates. *)
Theorem find_next_zero_area_first_fit map size start nr k :
  words map -> size <= 32 * Z.of_nat (length map) -> 0 <= start < 2 ^ 32 -> 0 < nr ->
  0 <= k <= 31 -> 0 <= size -> size + nr + 2 ^ k < 2 ^ 32 ->
  wp (bitmap_find_next_zero_area map size start nr (2 ^ k - 1)) (fun r =>
    (r <= size /\ start <= r /\ free_area map size nr k r /\
     forall a, start <= a < r -> ~ free_area map size nr k a) \/
    (size < r /\ forall a, start <= a -> ~ free_area map size nr k a)).
Proof. intros. apply bitmap_find_next_zero_area_ok; done || lia. Qed.

Lemma find_next_zero_area_first_fit_witness :
  wp (bitmap_find_next_zero_area [0x13] 32 0 3 3) (fun r =>
    (r <= 32 /\ 0 <= r /\ free_area [0x13] 32 3 2 r /\
     forall a, 0 <= a < r -> ~ free_area [0x13] 32 3 2 a) \/
    (32 < r /\ forall a, 0 <= a -> ~ free_area [0x13] 32 3 2 a)).
Proof. apply (find_next_zero_area_first_fit [0x13] 32 0 3 2); concrete. Defined.

(** C22: The region allocator: [bitmap_find_free_region] claims the lowest free
    aligned region of [2 ^ order] bits or reports [-ENOMEM] and changes nothing
    exactly when there is none; a claimed region was free, a second
    [bitmap_allocate_region] of it fails with [-EBUSY], and
    [bitmap_release_region] restores every bit of the bitmap.  The scan adds
    the size of a region to an [int] position: it is defined if there is a free
    region, or [int] has room for one more region after the bitmap. *)
Theorem region_alloc_release bitmap bits order :
  fits bits bitmap -> 0 <= bits <= INT_MAX -> 0 <= order <= 30 ->
  bits + 2 ^ order <= INT_MAX \/ (exists a, free_region bitmap bits order a) ->
  wp (bitmap_find_free_region bitmap bits order) (fun '(r, bitmap') =>
    (free_region bitmap bits order r /\
     (forall a, a < r -> ~ free_region bitmap bits order a) /\
     (forall i, abit bitmap' i = if (r <=? i) && (i <? r + 2 ^ order) then true else abit bitmap i) /\
     bitmap_allocate_region bitmap' r order = Some (- EBUSY, bitmap') /\
     wp (bitmap_release_region bitmap' r order) (fun bitmap'' =>
       length bitmap'' = length bitmap /\ forall i, abit bitmap'' i = abit bitmap i)) \/
    (r = - ENOMEM /\ bitmap' = bitmap /\ forall a, ~ free_region bitmap bits order a)).
Proof.
  intros Hf Hb Ho Hscan. eapply wp_mono; [by apply bitmap_find_free_region_ok|].
  intros [r bitmap'] [(Hfree & Hmin & Hw & Hl & Hbits)|?]; [left | by right].
  split; [done|]. split; [done|]. split; [done|].
  destruct Hfree as (Hr & Hal & Hend & Hz), Hf as [_ Hfl].
  assert (0 < 2 ^ order) by (apply Z.pow_pos_nonneg; lia).
  split.
  - pose proof (bitmap_allocate_region_ok r order Ho Hr Hal bitmap' Hw ltac:(lia)) as H'.
    apply wp_elim in H' as ([r' b'] & -> & [(_ & Hz' & _)|(-> & -> & _)]); [|done].
    specialize (Hz' r ltac:(lia)). rewrite Hbits in Hz'.
    by rewrite (proj2 (Z.leb_le r r)), (proj2 (Z.ltb_lt r (r + 2 ^ order))) in Hz' by lia.
  - eapply wp_mono; [apply reg_release_ok; done || lia|].
    intros b'' (_ & Hl' & Hb''). split; [congruence|]. intros i. rewrite Hb'', Hbits.
    destruct (Z.leb_spec r i), (Z.ltb_spec i (r + 2 ^ order)); simpl; try done.
    symmetry. apply Hz. lia.
Qed.

Lemma region_alloc_release_witness :
  wp (bitmap_find_free_region [0x13] 32 2) (fun '(r, bitmap') =>
    (free_region [0x13] 32 2 r /\
     (forall a, a < r -> ~ free_region [0x13] 32 2 a) /\
     (forall i, abit bitmap' i = if (r <=? i) && (i <? r + 2 ^ 2) then true else abit [0x13] i) /\
     bitmap_allocate_region bitmap' r 2 = Some (- EBUSY, bitmap') /\
     wp (bitmap_release_region bitmap' r 2) (fun bitmap'' =>
       length bitmap'' = 1%nat /\ forall i, abit bitmap'' i = abit [0x13] i)) \/
    (r = - ENOMEM /\ bitmap' = [0x13] /\ forall a, ~ free_region [0x13] 32 2 a)).
Proof. apply (region_alloc_release [0x13] 32 2); first [by left | concrete]. Defined.
