(* ===== verification/LibString.v ===== *)
(** * Strings and memory areas

    [lib/string.c] with the character classes of [lib/ctype.c], on the flat
    memory of [Mem].  Pointers are addresses, [char] is a byte and [size_t] has
    32 bits.  Functions that write give the new memory and the pointer they
    return.  Every loop moves a pointer towards the end of the memory or counts
    down, so the fuel is never used up before an access faults. *)

From S2P Require Import Prelude Bytes Mem.
Open Scope c_scope.

(** ** Character classes *)

Definition _U : Z := 0x01.
Definition _L : Z := 0x02.
Definition _D : Z := 0x04.
Definition _C : Z := 0x08.
Definition _P : Z := 0x10.
Definition _S : Z := 0x20.
Definition _X : Z := 0x40.
Definition _SP : Z := 0x80.

Definition _ctype : list Z := Eval vm_compute in
  [_C; _C; _C; _C; _C; _C; _C; _C;
   _C; _C .| _S; _C .| _S; _C .| _S; _C .| _S; _C .| _S; _C; _C;
   _C; _C; _C; _C; _C; _C; _C; _C;
   _C; _C; _C; _C; _C; _C; _C; _C;
   _S .| _SP; _P; _P; _P; _P; _P; _P; _P;
   _P; _P; _P; _P; _P; _P; _P; _P;
   _D; _D; _D; _D; _D; _D; _D; _D;
   _D; _D; _P; _P; _P; _P; _P; _P;
   _P; _U .| _X; _U .| _X; _U .| _X; _U .| _X; _U .| _X; _U .| _X; _U;
   _U; _U; _U; _U; _U; _U; _U; _U;
   _U; _U; _U; _U; _U; _U; _U; _U;
   _U; _U; _U; _P; _P; _P; _P; _P;
   _P; _L .| _X; _L .| _X; _L .| _X; _L .| _X; _L .| _X; _L .| _X; _L;
   _L; _L; _L; _L; _L; _L; _L; _L;
   _L; _L; _L; _L; _L; _L; _L; _L;
   _L; _L; _L; _P; _P; _P; _P; _C;
   0; 0; 0; 0; 0; 0; 0; 0; 0; 0; 0; 0; 0; 0; 0; 0;
   0; 0; 0; 0; 0; 0; 0; 0; 0; 0; 0; 0; 0; 0; 0; 0;
   _S .| _SP; _P; _P; _P; _P; _P; _P; _P; _P; _P; _P; _P; _P; _P; _P; _P;
   _P; _P; _P; _P; _P; _P; _P; _P; _P; _P; _P; _P; _P; _P; _P; _P;
   _U; _U; _U; _U; _U; _U; _U; _U; _U; _U; _U; _U; _U; _U; _U; _U;
   _U; _U; _U; _U; _U; _U; _U; _P; _U; _U; _U; _U; _U; _U; _U; _L;
   _L; _L; _L; _L; _L; _L; _L; _L; _L; _L; _L; _L; _L; _L; _L; _L;
   _L; _L; _L; _L; _L; _L; _L; _P; _L; _L; _L; _L; _L; _L; _L; _L].

Definition __ismask (x : Z) : Z := zth _ctype (u8 x).
Definition isspace (c : Z) : bool := truthy (__ismask c .& _S).
Definition isupper (c : Z) : bool := truthy (__ismask c .& _U).
Definition islower (c : Z) : bool := truthy (__ismask c .& _L).

Definition __tolower (c : Z) : Z := if isupper c then u8 (c - (65 - 97)) else c.
Definition __toupper (c : Z) : Z := if islower c then u8 (c - (97 - 65)) else c.
Definition tolower (c : Z) : Z := __tolower c.

(** ** Memory areas *)

Definition NULL : Z := 0.

(** Enough fuel for a loop that moves a pointer, and for one that counts. *)
Definition scan_fuel (m : mem) : nat := S (length m).
Definition count_fuel (count : Z) : nat := S (Z.to_nat count).

Definition memset (m : mem) (s c count : Z) : option (mem * Z) :=
  m ← c_loop (count_fuel count) (fun '(m, xs, count) =>
        if truthy count then
          m ← arr_set m xs (u8 c);
          Some (inl (m, xs + 1, count - 1))
        else Some (inr m)) (m, s, count);
  Some (m, s).

(** The loop that copies upwards, and the one that copies downwards. *)
Definition copy_up (m : mem) (tmp s count : Z) : option mem :=
  c_loop (count_fuel count) (fun '(m, tmp, s, count) =>
    if truthy count then
      c ← arr_get m s;
      m ← arr_set m tmp c;
      Some (inl (m, tmp + 1, s + 1, count - 1))
    else Some (inr m)) (m, tmp, s, count).

Definition copy_down (m : mem) (tmp s count : Z) : option mem :=
  c_loop (count_fuel count) (fun '(m, tmp, s, count) =>
    if truthy count then
      c ← arr_get m (s - 1);
      m ← arr_set m (tmp - 1) c;
      Some (inl (m, tmp - 1, s - 1, count - 1))
    else Some (inr m)) (m, tmp, s, count).

Definition memcpy (m : mem) (dest src count : Z) : option (mem * Z) :=
  m ← copy_up m dest src count;
  Some (m, dest).

Definition memmove (m : mem) (dest src count : Z) : option (mem * Z) :=
  if dest <=? src then
    m ← copy_up m dest src count;
    Some (m, dest)
  else
    m ← copy_down m (dest + count) (src + count) count;
    Some (m, dest).

Definition memcmp (m : mem) (cs ct count : Z) : option Z :=
  c_loop (count_fuel count) (fun '(su1, su2, count) =>
    if 0 <? count then
      a ← arr_get m su1;
      b ← arr_get m su2;
      let res := a - b in
      if truthy res then Some (inr res) else Some (inl (su1 + 1, su2 + 1, count - 1))
    else Some (inr 0)) (cs, ct, count).

Definition memscan (m : mem) (addr c size : Z) : option Z :=
  c_loop (count_fuel size) (fun '(p, size) =>
    if truthy size then
      b ← arr_get m p;
      if b =? c then Some (inr p) else Some (inl (p + 1, size - 1))
    else Some (inr p)) (addr, size).

Definition memchr (m : mem) (s c n : Z) : option Z :=
  c_loop (count_fuel n) (fun '(p, n) =>
    if truthy n then
      b ← arr_get m p;
      if u8 c =? b then Some (inr p) else Some (inl (p + 1, n - 1))
    else Some (inr NULL)) (s, n).

(** ** Strings: length and character search *)

Definition strlen (m : mem) (s : Z) : option Z :=
  sc ← c_loop (scan_fuel m) (fun sc =>
         c ← arr_get m sc;
         if truthy c then Some (inl (sc + 1)) else Some (inr sc)) s;
  Some (u32 (sc - s)).

Definition strnlen (m : mem) (s count : Z) : option Z :=
  sc ← c_loop (count_fuel count) (fun '(sc, count) =>
         if truthy count then
           c ← arr_get m sc;
           if truthy c then Some (inl (sc + 1, count - 1)) else Some (inr sc)
         else Some (inr sc)) (s, count);
  Some (u32 (sc - s)).

Definition strchr (m : mem) (s c : Z) : option Z :=
  c_loop (scan_fuel m) (fun s =>
    x ← arr_get m s;
    if x =? u8 c then Some (inr s)
    else if x =? 0 then Some (inr NULL)
    else Some (inl (s + 1))) s.

Definition strrchr (m : mem) (s c : Z) : option Z :=
  l ← strlen m s;
  c_loop (scan_fuel m) (fun p =>
    x ← arr_get m p;
    if x =? u8 c then Some (inr p)
    else
      let p := u32 (p - 1) in
      if s <=? p then Some (inl p) else Some (inr NULL)) (s + l).

Definition strnchr (m : mem) (s count c : Z) : option Z :=
  c_loop (count_fuel count) (fun '(s, count) =>
    if truthy count then
      x ← arr_get m s;
      if truthy x then
        if x =? u8 c then Some (inr s) else Some (inl (s + 1, count - 1))
      else Some (inr NULL)
    else Some (inr NULL)) (s, count).

(** ** Copying and appending *)

(** The loop that copies up to and including the terminator. *)
Definition strcpy_loop (m : mem) (dest src : Z) : option mem :=
  c_loop (scan_fuel m) (fun '(m, dest, src) =>
    c ← arr_get m src;
    m ← arr_set m dest c;
    if truthy c then Some (inl (m, dest + 1, src + 1)) else Some (inr m)) (m, dest, src).

(** The loop that moves [dest] to its terminator. *)
Definition str_end (m : mem) (dest : Z) : option Z :=
  c_loop (scan_fuel m) (fun dest =>
    c ← arr_get m dest;
    if truthy c then Some (inl (dest + 1)) else Some (inr dest)) dest.

Definition strcpy (m : mem) (dest src : Z) : option (mem * Z) :=
  m ← strcpy_loop m dest src;
  Some (m, dest).

Definition strncpy (m : mem) (dest src count : Z) : option (mem * Z) :=
  m ← c_loop (count_fuel count) (fun '(m, tmp, src, count) =>
        if truthy count then
          c ← arr_get m src;
          m ← arr_set m tmp c;
          Some (inl (m, tmp + 1, (if truthy c then src + 1 else src), count - 1))
        else Some (inr m)) (m, dest, src, count);
  Some (m, dest).

Definition strlcpy (m : mem) (dest src size : Z) : option (mem * Z) :=
  ret ← strlen m src;
  if truthy size then
    let len := if size <=? ret then size - 1 else ret in
    '(m, _) ← memcpy m dest src len;
    m ← arr_set m (dest + len) 0;
    Some (m, ret)
  else Some (m, ret).

Definition strcat (m : mem) (dest src : Z) : option (mem * Z) :=
  let tmp := dest in
  dest ← str_end m dest;
  m ← strcpy_loop m dest src;
  Some (m, tmp).

Definition strncat (m : mem) (dest src count : Z) : option (mem * Z) :=
  let tmp := dest in
  if truthy count then
    dest ← str_end m dest;
    m ← c_loop (count_fuel count) (fun '(m, dest, src, count) =>
          c ← arr_get m src;
          m ← arr_set m dest c;
          if truthy c then
            if count - 1 =? 0 then
              m ← arr_set m (dest + 1) 0;
              Some (inr m)
            else Some (inl (m, dest + 1, src + 1, count - 1))
          else Some (inr m)) (m, dest, src, count);
    Some (m, tmp)
  else Some (m, tmp).

(** How a call that checks [BUG_ON] ends: it returns a memory and a value, or
    the check stops the machine with the memory as it is. *)
Inductive ending :=
  | Returned (m : mem) (r : Z)
  | Stopped (m : mem).

Definition strlcat (m : mem) (dest src count : Z) : option ending :=
  dsize ← strlen m dest;
  len ← strlen m src;
  let res := u32 (dsize + len) in
  if count <=? dsize then Some (Stopped m)
  else
    let dest := dest + dsize in
    let count := u32 (count - dsize) in
    let len := if count <=? len then u32 (count - 1) else len in
    '(m, _) ← memcpy m dest src len;
    m ← arr_set m (dest + len) 0;
    Some (Returned m res).

(** ** Comparison *)

Definition strcmp (m : mem) (cs ct : Z) : option Z :=
  c_loop (scan_fuel m) (fun '(cs, ct) =>
    c1 ← arr_get m cs;
    c2 ← arr_get m ct;
    if negb (c1 =? c2) then Some (inr (if c1 <? c2 then -1 else 1))
    else if c1 =? 0 then Some (inr 0)
    else Some (inl (cs + 1, ct + 1))) (cs, ct).

Definition strncmp (m : mem) (cs ct count : Z) : option Z :=
  c_loop (count_fuel count) (fun '(cs, ct, count) =>
    if truthy count then
      c1 ← arr_get m cs;
      c2 ← arr_get m ct;
      if negb (c1 =? c2) then Some (inr (if c1 <? c2 then -1 else 1))
      else if c1 =? 0 then Some (inr 0)
      else Some (inl (cs + 1, ct + 1, count - 1))
    else Some (inr 0)) (cs, ct, count).

Definition strnicmp (m : mem) (s1 s2 len : Z) : option Z :=
  if truthy len then
    c_loop (count_fuel len) (fun '(s1, s2, len) =>
      c1 ← arr_get m s1;
      c2 ← arr_get m s2;
      let next := if len - 1 =? 0 then inr else fun _ => inl (s1 + 1, s2 + 1, len - 1) in
      if (c1 =? 0) || (c2 =? 0) then Some (inr (c1 - c2))
      else if c1 =? c2 then Some (next (c1 - c2))
      else
        let c1 := tolower c1 in
        let c2 := tolower c2 in
        if negb (c1 =? c2) then Some (inr (c1 - c2)) else Some (next (c1 - c2))) (s1, s2, len)
  else Some 0.

Definition strcasecmp (m : mem) (s1 s2 : Z) : option Z :=
  c_loop (scan_fuel m) (fun '(s1, s2) =>
    a ← arr_get m s1;
    b ← arr_get m s2;
    let c1 := tolower a in
    let c2 := tolower b in
    if (c1 =? c2) && negb (c1 =? 0) then Some (inl (s1 + 1, s2 + 1)) else Some (inr (c1 - c2))) (s1, s2).

Definition strncasecmp (m : mem) (s1 s2 n : Z) : option Z :=
  c_loop (scan_fuel m) (fun '(s1, s2, n) =>
    a ← arr_get m s1;
    b ← arr_get m s2;
    let c1 := tolower a in
    let c2 := tolower b in
    let n := u32 (n - 1) in
    if (0 <? n) && (c1 =? c2) && negb (c1 =? 0) then Some (inl (s1 + 1, s2 + 1, n))
    else Some (inr (c1 - c2))) (s1, s2, n).

Definition sysfs_streq (m : mem) (s1 s2 : Z) : option bool :=
  '(s1, s2) ← c_loop (scan_fuel m) (fun '(s1, s2) =>
    a ← arr_get m s1;
    if truthy a then
      b ← arr_get m s2;
      if a =? b then Some (inl (s1 + 1, s2 + 1)) else Some (inr (s1, s2))
    else Some (inr (s1, s2))) (s1, s2);
  a ← arr_get m s1;
  b ← arr_get m s2;
  if a =? b then Some true
  else
    r ← (if (a =? 0) && (b =? 10) then e ← arr_get m (s2 + 1); Some (e =? 0) else Some false);
    if r : bool then Some true
    else
      r ← (if a =? 10 then e ← arr_get m (s1 + 1); Some ((e =? 0) && (b =? 0)) else Some false);
      Some r.

(** ** Sets of characters and substrings *)

(** The loop over the characters of a set: where it stops. *)
Definition find_char (m : mem) (a x : Z) : option Z :=
  c_loop (scan_fuel m) (fun a =>
    y ← arr_get m a;
    if truthy y then
      if x =? y then Some (inr a) else Some (inl (a + 1))
    else Some (inr a)) a.

Definition strspn (m : mem) (s accept : Z) : option Z :=
  c_loop (scan_fuel m) (fun '(p, count) =>
    x ← arr_get m p;
    if truthy x then
      a ← find_char m accept x;
      y ← arr_get m a;
      if y =? 0 then Some (inr count) else Some (inl (p + 1, u32 (count + 1)))
    else Some (inr count)) (s, 0).

Definition strcspn (m : mem) (s reject : Z) : option Z :=
  c_loop (scan_fuel m) (fun '(p, count) =>
    x ← arr_get m p;
    if truthy x then
      r ← find_char m reject x;
      y ← arr_get m r;
      if truthy y then Some (inr count) else Some (inl (p + 1, u32 (count + 1)))
    else Some (inr count)) (s, 0).

Definition strpbrk (m : mem) (cs ct : Z) : option Z :=
  c_loop (scan_fuel m) (fun sc1 =>
    x ← arr_get m sc1;
    if truthy x then
      sc2 ← find_char m ct x;
      y ← arr_get m sc2;
      if truthy y then Some (inr sc1) else Some (inl (sc1 + 1))
    else Some (inr NULL)) cs.

(** The new memory, the new value of [*s] and the token. *)
Definition strsep (m : mem) (s ct : Z) : option (mem * Z * Z) :=
  let sbegin := s in
  if sbegin =? NULL then Some (m, s, NULL)
  else
    e ← strpbrk m sbegin ct;
    if truthy e then
      m ← arr_set m e 0;
      Some (m, e + 1, sbegin)
    else Some (m, e, sbegin).

Definition strstr (m : mem) (s1 s2 : Z) : option Z :=
  l2 ← strlen m s2;
  if truthy l2 then
    l1 ← strlen m s1;
    c_loop (count_fuel l1) (fun '(s1, l1) =>
      if l2 <=? l1 then
        r ← memcmp m s1 s2 l2;
        if truthy r then Some (inl (s1 + 1, l1 - 1)) else Some (inr s1)
      else Some (inr NULL)) (s1, l1)
  else Some s1.

Definition strnstr (m : mem) (s1 s2 len : Z) : option Z :=
  l2 ← strlen m s2;
  if truthy l2 then
    c_loop (count_fuel len) (fun '(s1, len) =>
      if l2 <=? len then
        r ← memcmp m s1 s2 l2;
        if truthy r then Some (inl (s1 + 1, len - 1)) else Some (inr s1)
      else Some (inr NULL)) (s1, len)
  else Some s1.

(** ** White space *)

Definition skip_spaces (m : mem) (str : Z) : option Z :=
  c_loop (scan_fuel m) (fun str =>
    c ← arr_get m str;
    if isspace c then Some (inl (str + 1)) else Some (inr str)) str.

Definition strim (m : mem) (s : Z) : option (mem * Z) :=
  s ← skip_spaces m s;
  size ← strlen m s;
  if truthy size then
    e ← c_loop (scan_fuel m) (fun e =>
          if s <=? e then
            c ← arr_get m e;
            if isspace c then Some (inl (u32 (e - 1))) else Some (inr e)
          else Some (inr e)) (s + size - 1);
    m ← arr_set m (e + 1) 0;
    Some (m, s)
  else Some (m, s).
