(* ===== verification/LibStringCorrect.v ===== *)
(** * Strings and memory areas: correctness

    What each function of [lib/string.c] computes, on strings as lists of
    non-zero bytes, and exactly which bytes it writes. *)

From S2P Require Import Prelude Bytes Mem LibString.
Open Scope c_scope.

(** ** Memory areas *)

Lemma rd_snoc m p k c : in_mem m p (k + 1) -> 0 <= k -> arr_get m (p + k) = Some c ->
  rd m p (k + 1) = rd m p k ++ [c].
Proof.
  intros H Hk Hc. rewrite (rd_app m p k 1) by (done || lia). f_equal.
  destruct (arr_get_rd1 m (p + k)) as (x & Hx & ->); [unfold in_mem in *; lia|]. congruence.
Qed.

Lemma rd_cons m p n c : in_mem m p n -> 0 < n -> arr_get m p = Some c -> rd m p n = c :: rd m (p + 1) (n - 1).
Proof.
  intros H Hn Hc. rewrite (rd_app m p 1 (n - 1)) by (done || lia).
  destruct (arr_get_rd1 m p) as (x & Hx & ->); [unfold in_mem in *; lia|]. simpl. congruence.
Qed.

Lemma in_mem_get m p n k : in_mem m p n -> 0 <= k < n -> exists c, arr_get m (p + k) = Some c.
Proof.
  intros H Hk. destruct (arr_get_rd1 m (p + k)) as (x & Hx & _); [unfold in_mem in *; lia|]. eauto.
Qed.

Lemma blen_one (c : Z) : blen [c] = 1.
Proof. done. Qed.

Lemma memset_ok m s c n : in_mem m s n -> memset m s c n = Some (wr m s (replicate (Z.to_nat n) (u8 c)), s).
Proof.
  intros H. unfold memset, count_fuel.
  assert (forall k : nat, blen (replicate k (u8 c)) = Z.of_nat k) as Hrep by (intros k; unfold blen; by rewrite length_replicate).
  rewrite (c_loop_trace (Z.to_nat n)
    (fun k => (wr m s (replicate k (u8 c)), s + Z.of_nat k, n - Z.of_nat k)) _ _ (wr m s (replicate (Z.to_nat n) (u8 c)))).
  - done.
  - cbn [replicate]. rewrite wr_nil by (unfold in_mem in *; lia). state_eq.
  - intros k Hk. rewrite (proj2 (truthy_true _)) by lia.
    rewrite arr_set_wr by (apply in_mem_wr; rewrite ?Hrep; unfold in_mem in *; lia). rewrite bind_Some_eq.
    rewrite wr_app by (rewrite ?Hrep, ?blen_one; unfold in_mem in *; lia).
    rewrite <- replicate_cons_app. state_eq.
  - rewrite (proj2 (truthy_false _)) by (unfold in_mem in *; lia). done.
  - lia.
Qed.

(** Copying upwards is right unless the destination starts inside the source. *)
Lemma copy_up_ok m d s n : in_mem m d n -> in_mem m s n -> d <= s \/ s + n <= d ->
  copy_up m d s n = Some (wr m d (rd m s n)).
Proof.
  intros Hd Hs Ho. unfold copy_up, count_fuel.
  assert (forall k, 0 <= k <= n -> blen (rd m s k) = k) as Hrd by (intros k Hk; apply blen_rd; unfold in_mem in *; lia).
  rewrite (c_loop_trace (Z.to_nat n)
    (fun k => (wr m d (rd m s (Z.of_nat k)), d + Z.of_nat k, s + Z.of_nat k, n - Z.of_nat k)) _ _ (wr m d (rd m s n))).
  - done.
  - cbn [Z.of_nat]. rewrite rd_0, wr_nil by (unfold in_mem in *; lia). state_eq.
  - intros k Hk. rewrite (proj2 (truthy_true _)) by lia.
    destruct (in_mem_get m s n (Z.of_nat k) Hs) as [c Hc]; [lia|].
    rewrite arr_get_wr_out, Hc, bind_Some_eq by (rewrite Hrd; unfold in_mem in *; lia).
    rewrite arr_set_wr by (apply in_mem_wr; rewrite ?Hrd; unfold in_mem in *; lia). rewrite bind_Some_eq.
    rewrite wr_app by (rewrite ?Hrd, ?blen_one; unfold in_mem in *; lia).
    rewrite <- (rd_snoc m s (Z.of_nat k) c) by (done || lia || (unfold in_mem in *; lia)).
    rewrite Nat2Z.inj_succ, <- Z.add_1_r. state_eq.
  - rewrite (proj2 (truthy_false _)) by (unfold in_mem in *; lia). rewrite Z2Nat.id by (unfold in_mem in *; lia). done.
  - lia.
Qed.

Lemma copy_down_ok m d s n : in_mem m d n -> in_mem m s n -> s <= d ->
  copy_down m (d + n) (s + n) n = Some (wr m d (rd m s n)).
Proof.
  intros Hd Hs Ho. unfold copy_down, count_fuel.
  assert (forall k, 0 <= k <= n -> blen (rd m (s + n - k) k) = k) as Hrd
    by (intros k Hk; apply blen_rd; unfold in_mem in *; lia).
  rewrite (c_loop_trace (Z.to_nat n)
    (fun k => (wr m (d + n - Z.of_nat k) (rd m (s + n - Z.of_nat k) (Z.of_nat k)),
               d + n - Z.of_nat k, s + n - Z.of_nat k, n - Z.of_nat k)) _ _ (wr m d (rd m s n))).
  - done.
  - cbn [Z.of_nat]. rewrite rd_0, wr_nil by (unfold in_mem in *; lia). state_eq.
  - intros k Hk. rewrite (proj2 (truthy_true _)) by lia. set (j := Z.of_nat k).
    destruct (in_mem_get m s n (n - j - 1) Hs) as [c Hc]; [lia|].
    assert (s + n - j - 1 = s + (n - j - 1)) as Es by lia.
    rewrite arr_get_wr_out, Es, Hc, bind_Some_eq by (rewrite Hrd; unfold in_mem in *; lia).
    rewrite arr_set_wr by (apply in_mem_wr; rewrite ?Hrd; unfold in_mem in *; lia). rewrite bind_Some_eq.
    rewrite wr_comm by (unfold disjoint; rewrite ?Hrd, ?blen_one; unfold in_mem in *; lia).
    rewrite wr_app by (rewrite ?Hrd, ?blen_one; unfold in_mem in *; lia).
    assert (rd m (s + n - (j + 1)) (j + 1) = [c] ++ rd m (s + n - j) j) as Erd.
    { rewrite (rd_cons _ _ _ c) by (unfold in_mem in *; lia || (rewrite <- Hc; f_equal; lia)).
      simpl. do 2 f_equal; lia. }
    rewrite Nat2Z.inj_succ, <- Z.add_1_r. fold j. rewrite Erd.
    replace (d + n - (j + 1)) with (d + n - j - 1) by lia. state_eq.
  - rewrite (proj2 (truthy_false _)) by (unfold in_mem in *; lia). rewrite Z2Nat.id by (unfold in_mem in *; lia).
    by replace (d + n - n) with d by lia; replace (s + n - n) with s by lia.
  - lia.
Qed.

Lemma memcpy_ok m d s n : in_mem m d n -> in_mem m s n -> d <= s \/ s + n <= d ->
  memcpy m d s n = Some (wr m d (rd m s n), d).
Proof. intros. unfold memcpy. by rewrite copy_up_ok. Qed.

Lemma memmove_ok m d s n : in_mem m d n -> in_mem m s n -> memmove m d s n = Some (wr m d (rd m s n), d).
Proof.
  intros Hd Hs. unfold memmove. destruct (Z.leb_spec d s).
  - by rewrite copy_up_ok by auto.
  - by rewrite copy_down_ok by (done || lia).
Qed.

(** ** Strings in memory *)

Definition char_ok (c : Z) : Prop := 0 < c < 256.

(** At [p] there is the string [s] with its terminator. *)
Definition cstring (m : mem) (p : Z) (s : list Z) : Prop :=
  0 < p /\ in_mem m p (blen s + 1) /\ rd m p (blen s + 1) = s ++ [0] /\ Forall char_ok s.

(** The memory is at most the address space. *)
Definition mem_ok (m : mem) : Prop := blen m <= 2 ^ 32.

Lemma cstring_at m p s k c : cstring m p s -> (s ++ [0]) !! k = Some c -> arr_get m (p + Z.of_nat k) = Some c.
Proof.
  intros (Hp & Hin & Hrd & _) Hk. pose proof (lookup_lt_Some _ _ _ Hk) as Hlt. rewrite length_app in Hlt. simpl in Hlt.
  rewrite <- (arr_get_rd m p (blen s + 1)) by (done || (unfold blen; lia)). by rewrite Hrd, arr_get_nat.
Qed.

Lemma cstring_char m p s k c : cstring m p s -> s !! k = Some c -> arr_get m (p + Z.of_nat k) = Some c /\ char_ok c.
Proof.
  intros H Hk. split.
  - eapply cstring_at; [done|]. rewrite lookup_app_l; [done|]. by eapply lookup_lt_Some.
  - destruct H as (_ & _ & _ & Hs). rewrite Forall_forall in Hs. apply Hs, list_elem_of_In. by eapply list_elem_of_lookup_2.
Qed.

Lemma cstring_nul m p s : cstring m p s -> arr_get m (p + blen s) = Some 0.
Proof. intros H. apply (cstring_at m p s (length s) 0 H). by rewrite lookup_app_r, Nat.sub_diag. Qed.

Lemma cstring_nil m p : cstring m p [] -> arr_get m p = Some 0.
Proof. intros H%cstring_nul. by rewrite blen_nil, Z.add_0_r in H. Qed.

Lemma cstring_cons m p c s : cstring m p (c :: s) -> arr_get m p = Some c /\ char_ok c /\ cstring m (p + 1) s.
Proof.
  intros H. destruct (cstring_char m p (c :: s) 0 c H eq_refl) as [Hc Hok]. rewrite Z.add_0_r in Hc.
  split; [done|]. split; [done|]. destruct H as (Hp & Hin & Hrd & Hs). apply Forall_cons_iff in Hs as [_ Hs].
  rewrite blen_cons in *. pose proof (blen_nonneg s).
  rewrite (rd_cons m p _ c) in Hrd by (done || lia). injection Hrd as Hrd.
  split; [lia|]. split; [unfold in_mem in *; lia|]. split; [|done]. rewrite <- Hrd. f_equal. lia.
Qed.

Lemma cstring_drop m p s k : cstring m p s -> (k <= length s)%nat -> cstring m (p + Z.of_nat k) (drop k s).
Proof.
  revert p s. induction k as [|k IH]; intros p s Hs Hk; [by rewrite Z.add_0_r|].
  destruct s as [|c s]; simpl in Hk; [lia|]. apply cstring_cons in Hs as (_ & _ & Hs).
  replace (p + Z.of_nat (S k)) with (p + 1 + Z.of_nat k) by lia. apply IH; [done | lia].
Qed.

Lemma cstring_len m p s : cstring m p s -> 0 < p /\ p + blen s < blen m /\ (length s < scan_fuel m)%nat.
Proof. intros (Hp & Hin & _ & _). unfold scan_fuel, in_mem, blen in *. lia. Qed.

(** Strings are not affected by writes elsewhere. *)
Lemma cstring_wr m p s q b : cstring m p s -> in_mem m q (blen b) -> disjoint q (blen b) p (blen s + 1) ->
  cstring (wr m q b) p s.
Proof.
  intros (Hp & Hin & Hrd & Hs) Hq Hd. split; [done|]. split; [by apply in_mem_wr|].
  split; [by rewrite rd_wr_other|done].
Qed.

Lemma char_truthy c : char_ok c -> truthy c = true.
Proof. unfold char_ok. intros. apply truthy_true. lia. Qed.

Lemma char_neq0 c : char_ok c -> (c =? 0) = false.
Proof. unfold char_ok. intros. apply Z.eqb_neq. lia. Qed.

(** A character of [s] at position [k], or the terminator. *)
Lemma char_lookup (s : list Z) k : (k < length s)%nat -> exists c, s !! k = Some c.
Proof. intros H. destruct (lookup_lt_is_Some_2 s k H) as [c Hc]. eauto. Qed.

Lemma scan_end m p s : cstring m p s -> forall (R : Type) (body : Z -> option (Z + R)) r fuel,
  (forall k c, s !! k = Some c -> char_ok c -> arr_get m (p + Z.of_nat k) = Some c ->
     body (p + Z.of_nat k) = Some (inl (p + Z.of_nat k + 1))) ->
  (arr_get m (p + blen s) = Some 0 -> body (p + blen s) = Some (inr r)) -> (length s < fuel)%nat ->
  c_loop fuel body p = Some r.
Proof.
  intros Hs R body r fuel Hstep Hend Hf. apply (c_loop_trace (length s) (fun k => p + Z.of_nat k)); [lia|..|done].
  - intros k Hk. destruct (char_lookup s k Hk) as [c Hc]. destruct (cstring_char _ _ _ _ _ Hs Hc) as [Hg Hok].
    rewrite (Hstep k c Hc Hok Hg). state_eq.
  - apply Hend. by apply cstring_nul.
Qed.

Lemma str_end_ok m p s : cstring m p s -> str_end m p = Some (p + blen s).
Proof.
  intros Hs. unfold str_end. eapply scan_end; [done|..|by apply (cstring_len m p)].
  - intros k c _ Hok ->. by rewrite bind_Some_eq, char_truthy.
  - by intros ->.
Qed.

Lemma strlen_ok m p s : mem_ok m -> cstring m p s -> strlen m p = Some (blen s).
Proof.
  intros Hm Hs. unfold strlen. erewrite scan_end; [rewrite bind_Some_eq|done|..|by apply (cstring_len m p)].
  - f_equal. replace (p + blen s - p) with (blen s) by lia. apply u32_small.
    pose proof (cstring_len _ _ _ Hs). pose proof (blen_nonneg s). unfold mem_ok, is_u32 in *. lia.
  - intros k c _ Hok ->. by rewrite bind_Some_eq, char_truthy.
  - by intros ->.
Qed.

(** A string limited to [n] bytes: it ends at the terminator or after [n]
    bytes, whichever comes first; nothing is assumed of what follows. *)
Definition bstring (m : mem) (p n : Z) (s : list Z) : Prop :=
  0 < p /\ in_mem m p (blen s) /\ rd m p (blen s) = s /\ Forall char_ok s /\ blen s <= n /\
  (blen s = n \/ arr_get m (p + blen s) = Some 0).

Lemma bstring_cstring m p s n : cstring m p s -> 0 <= n -> bstring m p n (take (Z.to_nat n) s).
Proof.
  intros (Hp & Hin & Hrd & Hs) Hn. pose proof (blen_nonneg s).
  assert (blen (take (Z.to_nat n) s) = Z.min n (blen s)) as Hl by (unfold blen; rewrite length_take; lia).
  assert (rd m p (blen s) = s) as Hr.
  { rewrite (rd_app m p (blen s) 1) in Hrd by (done || lia). apply app_inj_1 in Hrd as [? _]; [done|].
    assert (blen (rd m p (blen s)) = blen s) as Hb by (apply blen_rd; unfold in_mem in *; lia). unfold blen in *. lia. }
  split; [done|]. rewrite Hl. split; [unfold in_mem in *; lia|]. split; [|split; [by apply Forall_take | split; [lia|]]].
  - rewrite <- Hr at 2. unfold rd. rewrite take_take. f_equal. unfold blen. lia.
  - destruct (Z.le_gt_cases n (blen s)); [left; lia | right]. rewrite Z.min_r by lia. by apply cstring_nul.
Qed.

Lemma bstring_char m p n s k c : bstring m p n s -> s !! k = Some c ->
  arr_get m (p + Z.of_nat k) = Some c /\ char_ok c.
Proof.
  intros (Hp & Hin & Hrd & Hs & _) Hk. pose proof (lookup_lt_Some _ _ _ Hk) as Hlt. split.
  - rewrite <- (arr_get_rd m p (blen s)) by (done || (unfold blen; lia)). by rewrite Hrd, arr_get_nat.
  - rewrite Forall_forall in Hs. apply Hs, list_elem_of_In. by eapply list_elem_of_lookup_2.
Qed.

(** What a limited function sees of a terminated string. *)
Lemma bstring_unique m p n s b : cstring m p s -> bstring m p n b -> b = take (Z.to_nat n) s.
Proof.
  intros Hs Hb. pose proof Hb as (_ & Hin & Hrd & Hok & Hn & Hend). pose proof (blen_nonneg b).
  destruct (bstring_cstring m p s (blen b) Hs ltac:(lia)) as (_ & _ & Hr & _ & Hl & _).
  destruct (Z.le_gt_cases (blen b) (blen s)) as [Hle|Hgt].
  - assert (take (Z.to_nat (blen b)) s = b) as E.
    { rewrite <- Hrd at 2. rewrite <- Hr. f_equal. unfold blen in *. rewrite length_take. lia. }
    destruct Hend as [<-|H0]; [done|]. destruct (Z.eq_dec (blen b) (blen s)) as [Hbs|Hne].
    + rewrite <- E. rewrite !take_ge by (unfold blen in *; lia). done.
    + destruct (lookup_lt_is_Some_2 s (length b)) as [c Hc]; [unfold blen in *; lia|].
      destruct (cstring_char _ _ _ _ _ Hs Hc) as [Hg Hc0]. unfold blen in H0. unfold char_ok in Hc0. rewrite Hg in H0. simplify_eq. lia.
  - destruct (lookup_lt_is_Some_2 b (length s)) as [c Hc]; [unfold blen in *; lia|].
    destruct (bstring_char _ _ _ _ _ _ Hb Hc) as [Hg Hc0]. pose proof (cstring_nul _ _ _ Hs) as H0. unfold blen in H0.
    unfold char_ok in Hc0. rewrite Hg in H0. simplify_eq. lia.
Qed.

Lemma bstring_len m p n s : bstring m p n s -> 0 < p /\ 0 <= blen s <= n /\ p + blen s <= blen m /\ (length s < count_fuel n)%nat.
Proof. intros (Hp & Hin & _ & _ & Hn & _). unfold count_fuel, in_mem, blen in *. lia. Qed.

Lemma count_end m p n s : bstring m p n s -> forall (R : Type) (body : Z * Z -> option (Z * Z + R)) r,
  (forall k c, s !! k = Some c -> char_ok c -> arr_get m (p + Z.of_nat k) = Some c ->
     body (p + Z.of_nat k, n - Z.of_nat k) = Some (inl (p + Z.of_nat k + 1, n - Z.of_nat k - 1))) ->
  (blen s = n \/ arr_get m (p + blen s) = Some 0 -> body (p + blen s, n - blen s) = Some (inr r)) ->
  c_loop (count_fuel n) body (p, n) = Some r.
Proof.
  intros Hs R body r Hstep Hend.
  apply (c_loop_trace (length s) (fun k => (p + Z.of_nat k, n - Z.of_nat k))); [state_eq|..|by apply (bstring_len m p)].
  - intros k Hk. destruct (char_lookup s k Hk) as [c Hc]. destruct (bstring_char _ _ _ _ _ _ Hs Hc) as [Hg Hok].
    rewrite (Hstep k c Hc Hok Hg). state_eq.
  - apply Hend. by destruct Hs as (_ & _ & _ & _ & _ & H).
Qed.

Lemma strnlen_ok m p n s : mem_ok m -> bstring m p n s -> strnlen m p n = Some (blen s).
Proof.
  intros Hm Hs. pose proof (bstring_len _ _ _ _ Hs) as (Hp & Hl & Hml & _). unfold strnlen.
  erewrite count_end; [rewrite bind_Some_eq|done|..].
  - f_equal. replace (p + blen s - p) with (blen s) by lia. apply u32_small. unfold mem_ok, is_u32 in *. lia.
  - intros k c Hk Hok ->. apply lookup_lt_Some in Hk.
    rewrite (proj2 (truthy_true _)) by (unfold blen in *; lia). by rewrite bind_Some_eq, char_truthy.
  - intros [<-|H0]; [by rewrite Z.sub_diag|]. rewrite H0. by destruct (truthy _).
Qed.

(** ** Character search *)

(** The address of the first match, or [none]. *)
Definition first_at (p : Z) (none : Z) (P : Z -> Prop) `{forall x, Decision (P x)} (s : list Z) : Z :=
  match list_find P s with Some (k, _) => p + Z.of_nat k | None => none end.

(** A loop that looks at the elements of [l] in order and stops at the first
    match or after the last. *)
Lemma search_trace {S R} (P : Z -> Prop) `{forall x, Decision (P x)} (l : list Z) (f : nat -> S)
    (body : S -> option (S + R)) s r fuel :
  s = f 0%nat ->
  (forall k y, l !! k = Some y -> ~ P y -> body (f k) = Some (inl (f (Datatypes.S k)))) ->
  match list_find P l with
  | Some (k, y) => l !! k = Some y -> P y -> body (f k) = Some (inr r)
  | None => body (f (length l)) = Some (inr r)
  end -> (length l < fuel)%nat -> c_loop fuel body s = Some r.
Proof.
  intros Hs Hstep Hend Hf. destruct (list_find P l) as [[i x]|] eqn:Hfind.
  - apply list_find_Some in Hfind as (Hi & HP & Hbefore). apply lookup_lt_Some in Hi as Hlt.
    apply (c_loop_trace i f); [done| |by apply Hend|lia].
    intros k Hk. destruct (lookup_lt_is_Some_2 l k) as [y Hy]; [lia|]. apply (Hstep k y Hy). by apply (Hbefore k).
  - apply list_find_None in Hfind. apply (c_loop_trace (length l) f); [done| |done|done].
    intros k Hk. destruct (lookup_lt_is_Some_2 l k Hk) as [y Hy]. apply (Hstep k y Hy).
    rewrite Forall_forall in Hfind. apply Hfind, list_elem_of_In. by eapply list_elem_of_lookup_2.
Qed.

Lemma rd_get m p n : in_mem m p n -> length (rd m p n) = Z.to_nat n /\
  forall k x, rd m p n !! k = Some x -> arr_get m (p + Z.of_nat k) = Some x.
Proof.
  intros Hin. assert (length (rd m p n) = Z.to_nat n) as Hl by (pose proof (blen_rd m p n Hin); unfold blen in *; lia).
  split; [done|]. intros k x Hk. pose proof (lookup_lt_Some _ _ _ Hk).
  rewrite <- (arr_get_rd m p n) by (done || lia). by rewrite arr_get_nat.
Qed.

Lemma memchr_ok m p c n : in_mem m p n -> memchr m p c n = Some (first_at p NULL (fun x => x = u8 c) (rd m p n)).
Proof.
  intros Hin. destruct (rd_get m p n Hin) as [Hl Hget]. unfold memchr.
  apply (search_trace (fun x => x = u8 c) (rd m p n) (fun k => (p + Z.of_nat k, n - Z.of_nat k)));
    [state_eq|..|unfold count_fuel; lia].
  - intros k y Hk HP. pose proof (lookup_lt_Some _ _ _ Hk).
    rewrite (proj2 (truthy_true _)), (Hget k y Hk), bind_Some_eq, (proj2 (Z.eqb_neq _ _)) by (lia || congruence). state_eq.
  - unfold first_at. destruct (list_find _ _) as [[k y]|].
    + intros Hk ->. pose proof (lookup_lt_Some _ _ _ Hk).
      by rewrite (proj2 (truthy_true _)), (Hget k _ Hk), bind_Some_eq, Z.eqb_refl by lia.
    + by rewrite (proj2 (truthy_false _)) by (unfold in_mem in *; lia).
Qed.

Lemma memscan_ok m p c n : in_mem m p n -> memscan m p c n = Some (first_at p (p + n) (fun x => x = c) (rd m p n)).
Proof.
  intros Hin. destruct (rd_get m p n Hin) as [Hl Hget]. unfold memscan.
  apply (search_trace (fun x => x = c) (rd m p n) (fun k => (p + Z.of_nat k, n - Z.of_nat k)));
    [state_eq|..|unfold count_fuel; lia].
  - intros k y Hk HP. pose proof (lookup_lt_Some _ _ _ Hk).
    rewrite (proj2 (truthy_true _)), (Hget k y Hk), bind_Some_eq, (proj2 (Z.eqb_neq _ _)) by (lia || congruence). state_eq.
  - unfold first_at. destruct (list_find _ _) as [[k y]|].
    + intros Hk ->. pose proof (lookup_lt_Some _ _ _ Hk).
      by rewrite (proj2 (truthy_true _)), (Hget k _ Hk), bind_Some_eq, Z.eqb_refl by lia.
    + rewrite (proj2 (truthy_false _)) by (unfold in_mem in *; lia). state_eq. unfold in_mem in *. lia.
Qed.

(** [strchr] and [strrchr] also find the terminator. *)
Lemma strchr_ok m p s c : cstring m p s ->
  strchr m p c = Some (first_at p (if u8 c =? 0 then p + blen s else NULL) (fun x => x = u8 c) s).
Proof.
  intros Hs. unfold strchr.
  apply (search_trace (fun x => x = u8 c) s (fun k => p + Z.of_nat k)); [lia|..|by apply (cstring_len m p)].
  - intros k y Hk HP. destruct (cstring_char _ _ _ _ _ Hs Hk) as [-> Hok].
    rewrite bind_Some_eq, (proj2 (Z.eqb_neq _ _)), char_neq0 by done. state_eq.
  - unfold first_at. destruct (list_find _ _) as [[k y]|].
    + intros Hk ->. destruct (cstring_char _ _ _ _ _ Hs Hk) as [-> Hok]. by rewrite bind_Some_eq, Z.eqb_refl.
    + change (p + Z.of_nat (length s)) with (p + blen s). rewrite (cstring_nul _ _ _ Hs), bind_Some_eq, (Z.eqb_sym 0).
      by destruct (u8 c =? 0).
Qed.

Lemma strnchr_ok m p n s c : bstring m p n s -> strnchr m p n c = Some (first_at p NULL (fun x => x = u8 c) s).
Proof.
  intros Hs. pose proof (bstring_len _ _ _ _ Hs) as (_ & Hl & _ & Hf). unfold strnchr.
  apply (search_trace (fun x => x = u8 c) s (fun k => (p + Z.of_nat k, n - Z.of_nat k))); [state_eq|..|done].
  - intros k y Hk HP. destruct (bstring_char _ _ _ _ _ _ Hs Hk) as [-> Hok]. apply lookup_lt_Some in Hk.
    rewrite (proj2 (truthy_true _)), bind_Some_eq, char_truthy, (proj2 (Z.eqb_neq _ _)) by (done || (unfold blen in *; lia)).
    state_eq.
  - unfold first_at. destruct (list_find _ _) as [[k y]|].
    + intros Hk ->. destruct (bstring_char _ _ _ _ _ _ Hs Hk) as [-> Hok]. apply lookup_lt_Some in Hk.
      by rewrite (proj2 (truthy_true _)), bind_Some_eq, char_truthy, Z.eqb_refl by (done || (unfold blen in *; lia)).
    + change (Z.of_nat (length s)) with (blen s). destruct Hs as (_ & _ & _ & _ & _ & [<-|H0]).
      * by rewrite Z.sub_diag.
      * rewrite H0. by destruct (truthy _).
Qed.

(** The address of the last match. *)
Definition last_at (p : Z) (P : Z -> Prop) `{forall x, Decision (P x)} (s : list Z) : Z :=
  match list_find P (rev s) with Some (k, _) => p + blen s - 1 - Z.of_nat k | None => NULL end.

Lemma last_at_snoc p (P : Z -> Prop) `{forall x, Decision (P x)} s x :
  last_at p P (s ++ [x]) = if decide (P x) then p + blen s else last_at p P s.
Proof.
  unfold last_at. rewrite rev_app_distr, blen_app, blen_cons, blen_nil. simpl. destruct (decide (P x)); [lia|].
  destruct (list_find P (rev s)) as [[k y]|]; simpl; lia.
Qed.

Lemma strrchr_ok m p s c : mem_ok m -> cstring m p s -> strrchr m p c = Some (last_at p (fun x => x = u8 c) (s ++ [0])).
Proof.
  intros Hm Hs. unfold strrchr. rewrite (strlen_ok m p s), bind_Some_eq by done.
  pose proof (cstring_len _ _ _ Hs) as (Hp & Hl & Hf). pose proof (blen_nonneg s) as Hs0. unfold mem_ok in Hm.
  match goal with |- c_loop _ ?f _ = _ => set (body := f) end.
  assert (forall j fuel, (j <= length s)%nat -> (j < fuel)%nat ->
    c_loop fuel body (p + Z.of_nat j) = Some (last_at p (fun x => x = u8 c) (take (S j) (s ++ [0])))) as H.
  { induction j as [|j IH]; intros [|fuel] Hj Hfuel; try lia; cbn [c_loop]; unfold body at 1;
      (destruct (lookup_lt_is_Some_2 (s ++ [0]) j) as [x Hx] || destruct (lookup_lt_is_Some_2 (s ++ [0]) 0) as [x Hx]);
      try (rewrite length_app; simpl; lia).
    - rewrite (cstring_at _ _ _ _ _ Hs Hx), bind_Some_eq, (take_S_r _ _ _ Hx), last_at_snoc. cbn [take].
      destruct (Z.eqb_spec x (u8 c)), (decide (x = u8 c)); try congruence; [done|].
      rewrite u32_small by (unfold is_u32; lia). by rewrite (proj2 (Z.leb_gt _ _)) by lia.
    - destruct (lookup_lt_is_Some_2 (s ++ [0]) (S j)) as [y Hy]; [rewrite length_app; simpl; lia|].
      rewrite (cstring_at _ _ _ _ _ Hs Hy), bind_Some_eq, (take_S_r _ (S j) _ Hy), last_at_snoc.
      assert (blen (take (S j) (s ++ [0])) = Z.of_nat (S j)) as -> by (unfold blen; rewrite length_take, length_app; cbn [length]; lia).
      destruct (Z.eqb_spec y (u8 c)), (decide (y = u8 c)); try congruence; try done.
      rewrite u32_small by (unfold is_u32, blen in *; lia). rewrite (proj2 (Z.leb_le _ _)) by lia.
      replace (p + Z.of_nat (S j) - 1) with (p + Z.of_nat j) by lia. apply IH; lia. }
  change (p + blen s) with (p + Z.of_nat (length s)). rewrite H by lia. by rewrite take_ge by (rewrite length_app; simpl; lia).
Qed.

(** ** Copying and appending *)

Lemma cstring_written m p s : 0 < p -> in_mem m p (blen s + 1) -> Forall char_ok s -> cstring (wr m p (s ++ [0])) p s.
Proof.
  intros Hp Hin Hs. assert (in_mem m p (blen (s ++ [0]))) as H by (by rewrite blen_app, blen_one).
  split; [done|]. split; [by apply in_mem_wr|]. split; [|done]. apply rd_wr_same; [done|]. by rewrite blen_app, blen_one.
Qed.

Lemma blen_take {A} (s : list A) k : (k <= length s)%nat -> blen (take k s) = Z.of_nat k.
Proof. intros H. unfold blen. rewrite length_take. lia. Qed.

Lemma wr_next m d (s : list Z) k c : s !! k = Some c -> in_mem m d (Z.of_nat k + 1) ->
  arr_set (wr m d (take k s)) (d + Z.of_nat k) c = Some (wr m d (take (S k) s)).
Proof.
  intros Hk Hin. pose proof (lookup_lt_Some _ _ _ Hk). pose proof (blen_take s k ltac:(lia)) as Hl.
  rewrite arr_set_wr by (apply in_mem_wr; rewrite ?Hl; unfold in_mem in *; lia).
  rewrite wr_app by (rewrite ?Hl, ?blen_one; unfold in_mem in *; lia). by rewrite <- (take_S_r s k c).
Qed.

Lemma strcpy_loop_ok m d q s : cstring m q s -> in_mem m d (blen s + 1) -> d <= q \/ q + blen s + 1 <= d ->
  strcpy_loop m d q = Some (wr m d (s ++ [0])).
Proof.
  intros Hs Hd Ho. unfold strcpy_loop. pose proof (cstring_len _ _ _ Hs) as (_ & _ & Hf).
  assert (forall k x, (s ++ [0]) !! k = Some x ->
    arr_get (wr m d (take k (s ++ [0]))) (q + Z.of_nat k) = Some x /\
    arr_set (wr m d (take k (s ++ [0]))) (d + Z.of_nat k) x = Some (wr m d (take (S k) (s ++ [0])))) as Hstep.
  { intros k x Hk. pose proof (lookup_lt_Some _ _ _ Hk) as Hlt. rewrite length_app in Hlt. cbn [length] in Hlt. split.
    - rewrite arr_get_wr_out; [by eapply cstring_at|..];
        rewrite blen_take by (rewrite length_app; cbn [length]; lia); unfold in_mem, blen in *; lia.
    - apply wr_next; [done|]. unfold in_mem, blen in *. lia. }
  apply (c_loop_trace (length s) (fun k => (wr m d (take k (s ++ [0])), d + Z.of_nat k, q + Z.of_nat k))).
  - cbn [take]. rewrite wr_nil by (unfold in_mem in *; lia). state_eq.
  - intros k Hk. destruct (char_lookup s k Hk) as [c Hc].
    destruct (Hstep k c) as [-> Hset]; [by rewrite lookup_app_l|]. rewrite bind_Some_eq, Hset, bind_Some_eq.
    rewrite char_truthy by (by eapply cstring_char). state_eq.
  - destruct (Hstep (length s) 0) as [-> Hset]; [by rewrite lookup_app_r, Nat.sub_diag|].
    rewrite bind_Some_eq, Hset, bind_Some_eq. cbn [truthy Z.eqb negb].
    by rewrite take_ge by (rewrite length_app; cbn [length]; lia).
  - done.
Qed.

Lemma strcpy_ok m d q s : cstring m q s -> in_mem m d (blen s + 1) -> d <= q \/ q + blen s + 1 <= d ->
  strcpy m d q = Some (wr m d (s ++ [0]), d).
Proof. intros. unfold strcpy. by rewrite (strcpy_loop_ok m d q s). Qed.

Lemma strcat_ok m d t q s : cstring m d t -> cstring m q s -> in_mem m d (blen t + blen s + 1) ->
  disjoint d (blen t + blen s + 1) q (blen s + 1) ->
  strcat m d q = Some (wr m (d + blen t) (s ++ [0]), d).
Proof.
  intros Ht Hs Hd Ho. pose proof (blen_nonneg t). pose proof (blen_nonneg s). unfold strcat. cbv zeta.
  rewrite (str_end_ok m d t Ht), bind_Some_eq.
  by rewrite (strcpy_loop_ok m _ q s), bind_Some_eq by (done || (unfold in_mem, disjoint in *; lia)).
Qed.

(** The padding of [strncpy]. *)
Definition padded (n : Z) (s : list Z) : list Z := s ++ replicate (Z.to_nat n - length s) 0.

Lemma strncpy_ok m d q n s : bstring m q n s -> in_mem m d n -> disjoint d n q (blen s + 1) ->
  strncpy m d q n = Some (wr m d (padded n s), d).
Proof.
  intros Hs Hd Ho. pose proof (bstring_len _ _ _ _ Hs) as (Hq & Hl & Hm & _). unfold strncpy, count_fuel.
  assert (length (padded n s) = Z.to_nat n) as Hlen
    by (unfold padded; rewrite length_app, length_replicate; unfold blen in *; lia).
  assert (forall k x, padded n s !! k = Some x ->
    arr_get m (q + Z.of_nat (Nat.min k (length s))) = Some x /\
    (if truthy x then q + Z.of_nat (Nat.min k (length s)) + 1 else q + Z.of_nat (Nat.min k (length s)))
      = q + Z.of_nat (Nat.min (S k) (length s))) as Hget.
  { intros k x Hk. pose proof (lookup_lt_Some _ _ _ Hk). unfold padded in Hk.
    apply lookup_app_Some in Hk as [Hk|[Hge [-> Hk]%lookup_replicate]].
    - pose proof (lookup_lt_Some _ _ _ Hk). rewrite Nat.min_l by lia.
      destruct (bstring_char _ _ _ _ _ _ Hs Hk) as [-> Hok]. split; [done|]. rewrite char_truthy by done. lia.
    - rewrite Nat.min_r by lia. destruct Hs as (_ & _ & _ & _ & _ & [E|H0]); [unfold blen in *; lia|].
      split; [done|]. cbn [truthy Z.eqb negb]. lia. }
  rewrite (c_loop_trace (Z.to_nat n) (fun k => (wr m d (take k (padded n s)), d + Z.of_nat k,
    q + Z.of_nat (Nat.min k (length s)), n - Z.of_nat k)) _ _ (wr m d (padded n s))); [done|..|lia].
  - cbn [take Nat.min]. rewrite wr_nil by (unfold in_mem in *; lia). state_eq.
  - intros k Hk. destruct (lookup_lt_is_Some_2 (padded n s) k) as [x Hx]; [lia|]. destruct (Hget k x Hx) as [Hg Hnext].
    rewrite (proj2 (truthy_true _)) by lia.
    rewrite arr_get_wr_out, Hg, bind_Some_eq by (rewrite blen_take by lia; unfold in_mem, disjoint, blen in *; lia).
    rewrite (wr_next m d _ k x Hx), bind_Some_eq, Hnext by (unfold in_mem in *; lia). state_eq.
  - rewrite (proj2 (truthy_false _)) by (unfold in_mem in *; lia). by rewrite take_ge by lia.
Qed.

(** What fits of [s] in a buffer of [size] bytes, with its terminator. *)
Definition clipped (size : Z) (s : list Z) : list Z := take (Z.to_nat (size - 1)) s ++ [0].

Lemma blen_clipped size s : 0 < size -> blen (clipped size s) = Z.min size (blen s + 1).
Proof. intros H. unfold clipped. rewrite blen_app, blen_one. unfold blen. rewrite length_take. lia. Qed.

Lemma cstring_rd m p s k : cstring m p s -> 0 <= k <= blen s -> rd m p k = take (Z.to_nat k) s.
Proof.
  intros Hs Hk. destruct (bstring_cstring m p s k Hs) as (_ & _ & Hr & _); [lia|].
  rewrite <- Hr. f_equal. unfold blen in *. rewrite length_take. lia.
Qed.

(** [memcpy] of the start of a string, and its terminator. *)
Lemma copy_clipped m d q s size len : cstring m q s -> 0 < size -> len = (if size <=? blen s then size - 1 else blen s) ->
  in_mem m d (Z.min size (blen s + 1)) -> d <= q \/ q + blen s <= d ->
  ('(m, _) ← memcpy m d q len; arr_set m (d + len) 0) = Some (wr m d (clipped size s)).
Proof.
  intros Hs Hsize Hlen Hd Ho. pose proof (blen_nonneg s).
  assert (len = Z.min (size - 1) (blen s)) as -> by (destruct (Z.leb_spec size (blen s)); lia).
  set (len := Z.min (size - 1) (blen s)). pose proof Hs as (Hq & Hin & _).
  rewrite memcpy_ok, bind_Some_eq by (unfold in_mem in *; lia).
  rewrite (cstring_rd m q s) by (done || lia).
  assert (blen (take (Z.to_nat len) s) = len) as Hl by (rewrite blen_take; unfold blen in *; lia).
  rewrite arr_set_wr by (apply in_mem_wr; rewrite ?Hl; unfold in_mem in *; lia).
  rewrite wr_app by (rewrite ?Hl, ?blen_one; unfold in_mem in *; lia). unfold clipped. do 3 f_equal.
  destruct (Z.le_gt_cases (size - 1) (blen s)); [f_equal; lia|]. rewrite !take_ge; unfold blen in *; lia || done.
Qed.

Lemma strlcpy_ok m d q s size : mem_ok m -> cstring m q s -> 0 <= size -> in_mem m d (Z.min size (blen s + 1)) ->
  d <= q \/ q + blen s <= d ->
  strlcpy m d q size = Some (if size =? 0 then m else wr m d (clipped size s), blen s).
Proof.
  intros Hm Hs Hsize Hd Ho. unfold strlcpy. rewrite (strlen_ok m q s), bind_Some_eq by done.
  unfold truthy. destruct (Z.eqb_spec size 0) as [->|Hn]; [done|]. cbn [negb]. cbv zeta.
  pose proof (copy_clipped m d q s size _ Hs ltac:(lia) eq_refl Hd Ho) as Hc.
  destruct (memcpy m d q _) as [[m1 ?]|]; [|done]. rewrite bind_Some_eq in Hc. by rewrite bind_Some_eq, Hc.
Qed.

Lemma strlcat_ok m d t q s count : mem_ok m -> cstring m d t -> cstring m q s -> blen t < count < 2 ^ 32 ->
  in_mem m d (Z.min count (blen t + blen s + 1)) -> d + blen t <= q \/ q + blen s <= d + blen t ->
  strlcat m d q count =
  Some (Returned (wr m (d + blen t) (clipped (count - blen t) s)) (u32 (blen t + blen s))).
Proof.
  intros Hm Ht Hs Hcount Hd Ho. pose proof (blen_nonneg t). pose proof (blen_nonneg s). unfold strlcat.
  rewrite (strlen_ok m d t), bind_Some_eq, (strlen_ok m q s), bind_Some_eq by done. cbv zeta.
  rewrite (proj2 (Z.leb_gt _ _)) by lia.
  rewrite (u32_small (count - blen t)), (u32_small (count - blen t - 1)) by (unfold is_u32; lia).
  pose proof (copy_clipped m (d + blen t) q s (count - blen t) _ Hs ltac:(lia) eq_refl ltac:(unfold in_mem in *; lia) Ho) as Hc.
  destruct (memcpy m _ q _) as [[m1 ?]|]; [|done]. rewrite bind_Some_eq in Hc. rewrite bind_Some_eq.
  destruct (arr_set m1 _ 0); [|done]. rewrite bind_Some_eq in *. by injection Hc as ->.
Qed.

(** A destination that already fills the buffer is a bug of the caller. *)
Lemma strlcat_bug m d t q s count : mem_ok m -> cstring m d t -> cstring m q s -> count <= blen t ->
  strlcat m d q count = Some (Stopped m).
Proof.
  intros Hm Ht Hs Hcount. unfold strlcat.
  rewrite (strlen_ok m d t), bind_Some_eq, (strlen_ok m q s), bind_Some_eq by done. cbv zeta.
  by rewrite (proj2 (Z.leb_le _ _)).
Qed.

Lemma strncat_ok m d t q n s : cstring m d t -> bstring m q n s -> in_mem m d (blen t + blen s + 1) ->
  disjoint d (blen t + blen s + 1) q (blen s + 1) ->
  strncat m d q n = Some (if n =? 0 then m else wr m (d + blen t) (s ++ [0]), d).
Proof.
  intros Ht Hs Hd Ho. pose proof (bstring_len _ _ _ _ Hs) as (Hq & Hl & Hml & Hf). pose proof (blen_nonneg t).
  unfold strncat. cbv zeta. unfold truthy at 1. destruct (Z.eqb_spec n 0) as [->|Hn]; [done|]. cbn [negb].
  rewrite (str_end_ok m d t Ht), bind_Some_eq.
  set (e := d + blen t).
  assert (in_mem m e (blen s + 1)) as He by (unfold in_mem in *; lia).
  assert (forall k x, (s ++ [0]) !! k = Some x -> arr_set (wr m e (take k (s ++ [0]))) (e + Z.of_nat k) x =
    Some (wr m e (take (S k) (s ++ [0])))) as Hset.
  { intros k x Hk. pose proof (lookup_lt_Some _ _ _ Hk) as Hlt. rewrite length_app in Hlt. cbn [length] in Hlt.
    apply wr_next; [done|]. unfold in_mem, blen in *. lia. }
  assert (forall k, (k <= length s)%nat -> arr_get (wr m e (take k (s ++ [0]))) (q + Z.of_nat k) = arr_get m (q + Z.of_nat k))
    as Hget.
  { intros k Hk. apply arr_get_wr_out; rewrite blen_take by (rewrite length_app; cbn [length]; lia);
      unfold in_mem, disjoint, blen in *; lia. }
  assert ((s ++ [0]) !! length s = Some 0) as Hlast by (by rewrite lookup_app_r, Nat.sub_diag).
  assert (take (S (length s)) (s ++ [0]) = s ++ [0]) as Hall by (apply take_ge; rewrite length_app; cbn [length]; lia).
  set (f := fun k => (wr m e (take k (s ++ [0])), e + Z.of_nat k, q + Z.of_nat k, n - Z.of_nat k)).
  assert ((m, e, q, n) = f 0%nat) as H0 by (subst f; cbn [take]; rewrite wr_nil by (unfold in_mem in *; lia); state_eq).
  match goal with |- (_ ← c_loop _ ?b _; _) = _ => set (body := b) end.
  assert (forall k c, s !! k = Some c -> body (f k) = Some (if n - Z.of_nat k - 1 =? 0
     then inr (wr m e (s ++ [0])) else inl (f (S k)))) as Hbody.
  { intros k c Hk. pose proof (lookup_lt_Some _ _ _ Hk). destruct (bstring_char _ _ _ _ _ _ Hs Hk) as [Hg Hok].
    subst f body. cbv beta iota. rewrite Hget, Hg, bind_Some_eq by lia.
    rewrite (Hset k c), bind_Some_eq, char_truthy by (done || by rewrite lookup_app_l).
    destruct (Z.eqb_spec (n - Z.of_nat k - 1) 0); [|state_eq].
    assert (S k = length s) as Hks by (unfold blen in *; lia). rewrite Hks.
    replace (e + Z.of_nat k + 1) with (e + Z.of_nat (length s)) by lia. by rewrite (Hset _ 0 Hlast), bind_Some_eq, Hall. }
  rewrite H0. enough (c_loop (count_fuel n) body (f 0%nat) = Some (wr m e (s ++ [0]))) as -> by done.
  destruct (Z.eq_dec (blen s) n) as [E|Hlt].
  - apply (c_loop_trace (length s - 1) f); [done|..|unfold count_fuel, blen in *; lia].
    + intros k Hk. destruct (char_lookup s k) as [c Hc]; [lia|].
      by rewrite (Hbody k c Hc), (proj2 (Z.eqb_neq _ _)) by (unfold blen in *; lia).
    + destruct (char_lookup s (length s - 1)) as [c Hc]; [unfold blen in *; lia|].
      by rewrite (Hbody _ c Hc), (proj2 (Z.eqb_eq _ _)) by (unfold blen in *; lia).
  - apply (c_loop_trace (length s) f); [done|..|done].
    + intros k Hk. destruct (char_lookup s k) as [c Hc]; [lia|].
      by rewrite (Hbody k c Hc), (proj2 (Z.eqb_neq _ _)) by (unfold blen in *; lia).
    + destruct Hs as (_ & _ & _ & _ & _ & [?|H00]); [done|]. subst f body. cbv beta iota.
      rewrite Hget by lia. change (q + Z.of_nat (length s)) with (q + blen s). rewrite H00, bind_Some_eq.
      by rewrite (Hset _ 0 Hlast), bind_Some_eq, Hall.
Qed.
