(* ===== verification/LibStringProps.v ===== *)
(** * Strings: comparison, sets of characters, substrings, white space

    The remaining functions of [lib/string.c] and the properties of the whole
    file. *)

From S2P Require Import Prelude Bytes Mem LibString LibStringCorrect.
Open Scope c_scope.

(** ** The order of strings *)

(** Lexicographic comparison of strings of characters. *)
Fixpoint str_compare (a b : list Z) : Z :=
  match a, b with
  | [], [] => 0
  | [], _ :: _ => -1
  | _ :: _, [] => 1
  | x :: a, y :: b => if x <? y then -1 else if y <? x then 1 else str_compare a b
  end.

(** The first difference of two areas of the same size. *)
Fixpoint mem_diff (a b : list Z) : Z :=
  match a, b with
  | x :: a, y :: b => if x - y =? 0 then mem_diff a b else x - y
  | _, _ => 0
  end.

Lemma str_compare_refl a : str_compare a a = 0.
Proof. induction a as [|x a IH]; simpl; [done|]. by rewrite Z.ltb_irrefl. Qed.

Lemma str_compare_eq a b : str_compare a b = 0 <-> a = b.
Proof.
  split; [|intros ->; apply str_compare_refl]. revert b. induction a as [|x a IH]; intros [|y b]; simpl; try done.
  destruct (Z.ltb_spec x y); [done|]. destruct (Z.ltb_spec y x); [done|]. intros ->%IH. f_equal. lia.
Qed.

Lemma str_compare_opp a b : str_compare b a = - str_compare a b.
Proof.
  revert b. induction a as [|x a IH]; intros [|y b]; simpl; try done.
  destruct (Z.ltb_spec x y), (Z.ltb_spec y x); try done. lia.
Qed.

Lemma str_compare_lt_trans a b c : str_compare a b = -1 -> str_compare b c = -1 -> str_compare a c = -1.
Proof.
  revert b c. induction a as [|x a IH]; intros [|y b] [|z c]; simpl; try done.
  destruct (Z.ltb_spec x y), (Z.ltb_spec y z), (Z.ltb_spec x z); try done; try lia.
  all: destruct (Z.ltb_spec y x); try done; destruct (Z.ltb_spec z y); try done; try lia.
  destruct (Z.ltb_spec z x); [lia|]. apply IH.
Qed.

Lemma str_compare_range a b : str_compare a b = -1 \/ str_compare a b = 0 \/ str_compare a b = 1.
Proof.
  revert b. induction a as [|x a IH]; intros [|y b]; simpl; auto.
  destruct (Z.ltb_spec x y); [auto|]. destruct (Z.ltb_spec y x); auto.
Qed.

Lemma mem_diff_sgn a b : length a = length b -> Z.sgn (mem_diff a b) = str_compare a b.
Proof.
  revert b. induction a as [|x a IH]; intros [|y b]; simpl; try done. intros [= Hl].
  destruct (Z.eqb_spec (x - y) 0), (Z.ltb_spec x y), (Z.ltb_spec y x); try lia. by apply IH.
Qed.

Lemma memcmp_ok m p q n : in_mem m p n -> in_mem m q n -> memcmp m p q n = Some (mem_diff (rd m p n) (rd m q n)).
Proof.
  intros Hp Hq. unfold memcmp, count_fuel.
  match goal with |- c_loop _ ?f _ = _ => set (body := f) end.
  rewrite <- (Z2Nat.id n) in * by (unfold in_mem in *; lia). rewrite Nat2Z.id. clear -Hp Hq.
  revert p q Hp Hq. induction (Z.to_nat n) as [|k IH]; intros p q Hp Hq; [done|].
  destruct (in_mem_get m p _ 0 Hp) as [x Hx]; [lia|]. destruct (in_mem_get m q _ 0 Hq) as [y Hy]; [lia|].
  rewrite Z.add_0_r in Hx, Hy. rewrite (rd_cons m p _ x), (rd_cons m q _ y) by (done || lia).
  cbn [mem_diff]. change (c_loop (S (S k)) body (p, q, Z.of_nat (S k))) with
    (match body (p, q, Z.of_nat (S k)) with
     | None => None | Some (inl s') => c_loop (S k) body s' | Some (inr r) => Some r end).
  unfold body at 1. rewrite (proj2 (Z.ltb_lt _ _)) by lia. rewrite Hx, bind_Some_eq, Hy, bind_Some_eq. cbv zeta.
  unfold truthy. destruct (Z.eqb_spec (x - y) 0); cbn [negb]; [|done].
  replace (Z.of_nat (S k) - 1) with (Z.of_nat k) by lia. apply IH; unfold in_mem in *; lia.
Qed.

Lemma strcmp_ok m p q a b : cstring m p a -> cstring m q b -> strcmp m p q = Some (str_compare a b).
Proof.
  intros Ha Hb. unfold strcmp. pose proof (cstring_len _ _ _ Ha) as (_ & _ & Hf). revert Hf.
  generalize (scan_fuel m). match goal with |- context [c_loop _ ?f _] => set (body := f) end.
  revert p q b Ha Hb. induction a as [|x a IH]; intros p q b Ha Hb [|fuel] Hf; cbn [length] in Hf; try lia;
    cbn [c_loop]; unfold body at 1; destruct b as [|y b].
  - by rewrite (cstring_nil _ _ Ha), bind_Some_eq, (cstring_nil _ _ Hb).
  - apply cstring_cons in Hb as (Hy & Hok & _). rewrite (cstring_nil _ _ Ha), bind_Some_eq, Hy, bind_Some_eq.
    unfold char_ok in Hok. rewrite (proj2 (Z.eqb_neq _ _)), (proj2 (Z.ltb_lt _ _)) by lia. done.
  - apply cstring_cons in Ha as (Hx & Hok & _). rewrite Hx, bind_Some_eq, (cstring_nil _ _ Hb), bind_Some_eq.
    unfold char_ok in Hok. rewrite (proj2 (Z.eqb_neq _ _)), (proj2 (Z.ltb_ge _ _)) by lia. done.
  - apply cstring_cons in Ha as (Hx & Hok & Ha), Hb as (Hy & _ & Hb).
    rewrite Hx, bind_Some_eq, Hy, bind_Some_eq. cbn [str_compare].
    destruct (Z.eqb_spec x y) as [->|Hne]; cbn [negb].
    + rewrite char_neq0, Z.ltb_irrefl by done. apply IH; [done..|lia].
    + by destruct (Z.ltb_spec x y), (Z.ltb_spec y x); try lia.
Qed.

Lemma bstring_nil m p n : bstring m p n [] -> n = 0 \/ arr_get m p = Some 0.
Proof. intros (_ & _ & _ & _ & _ & H). rewrite blen_nil, Z.add_0_r in H. destruct H; auto. Qed.

Lemma bstring_cons m p n c s : bstring m p n (c :: s) ->
  arr_get m p = Some c /\ char_ok c /\ 0 < n /\ bstring m (p + 1) (n - 1) s.
Proof.
  intros H. destruct (bstring_char m p n (c :: s) 0 c H eq_refl) as [Hc Hok]. rewrite Z.add_0_r in Hc.
  destruct H as (Hp & Hin & Hrd & Hs & Hn & Hend). rewrite blen_cons in *. apply Forall_cons_iff in Hs as [_ Hs].
  pose proof (blen_nonneg s). split; [done|]. split; [done|]. split; [lia|].
  rewrite (rd_cons m p _ c) in Hrd by (done || lia). injection Hrd as Hrd.
  replace (1 + blen s - 1) with (blen s) in Hrd by lia.
  split; [lia|]. split; [unfold in_mem in *; lia|]. split; [done|]. split; [done|]. split; [lia|].
  destruct Hend as [E|E]; [left; lia | right]. rewrite <- E. f_equal. lia.
Qed.

Lemma strncmp_ok m p q n a b : bstring m p n a -> bstring m q n b -> strncmp m p q n = Some (str_compare a b).
Proof.
  intros Ha Hb. unfold strncmp. pose proof (bstring_len _ _ _ _ Ha) as (_ & _ & _ & Hf). revert Hf.
  generalize (count_fuel n). match goal with |- context [c_loop _ ?f _] => set (body := f) end.
  revert p q n b Ha Hb. induction a as [|x a IH]; intros p q n b Ha Hb [|fuel] Hf; cbn [length] in Hf; try lia;
    cbn [c_loop]; unfold body at 1; destruct b as [|y b].
  - destruct (bstring_nil _ _ _ Ha) as [->|E]; [done|]. destruct (bstring_nil _ _ _ Hb) as [->|E']; [done|].
    rewrite E, bind_Some_eq, E', bind_Some_eq. by destruct (truthy n).
  - apply bstring_cons in Hb as (Hy & Hok & Hn & _). destruct (bstring_nil _ _ _ Ha) as [?|E]; [lia|].
    rewrite (proj2 (truthy_true _)), E, bind_Some_eq, Hy, bind_Some_eq by lia. unfold char_ok in Hok.
    rewrite (proj2 (Z.eqb_neq _ _)), (proj2 (Z.ltb_lt _ _)) by lia. done.
  - apply bstring_cons in Ha as (Hx & Hok & Hn & _). destruct (bstring_nil _ _ _ Hb) as [?|E]; [lia|].
    rewrite (proj2 (truthy_true _)), Hx, bind_Some_eq, E, bind_Some_eq by lia. unfold char_ok in Hok.
    rewrite (proj2 (Z.eqb_neq _ _)), (proj2 (Z.ltb_ge _ _)) by lia. done.
  - apply bstring_cons in Ha as (Hx & Hok & Hn & Ha), Hb as (Hy & _ & _ & Hb).
    rewrite (proj2 (truthy_true _)), Hx, bind_Some_eq, Hy, bind_Some_eq by lia. cbn [str_compare].
    destruct (Z.eqb_spec x y) as [->|Hne]; cbn [negb].
    + rewrite char_neq0, Z.ltb_irrefl by done. apply IH; [done..|lia].
    + by destruct (Z.ltb_spec x y), (Z.ltb_spec y x); try lia.
Qed.

(** ** Comparison without case *)

Lemma tolower_char c : char_ok c -> char_ok (tolower c).
Proof.
  intros Hc. assert (forallb (fun c => (0 <? tolower c) && (tolower c <? 256)) (seqZ 1 255) = true) as H by done.
  rewrite forallb_forall in H. specialize (H c). unfold char_ok in *.
  destruct (andb_prop _ _ (H ltac:(apply list_elem_of_In, elem_of_seqZ; lia))) as [?%Z.ltb_lt ?%Z.ltb_lt]. done.
Qed.

(** The difference of the first characters that differ. *)
Fixpoint case_diff (a b : list Z) : Z :=
  match a, b with
  | [], [] => 0
  | [], y :: _ => - tolower y
  | x :: _, [] => tolower x
  | x :: a, y :: b => if tolower x =? tolower y then case_diff a b else tolower x - tolower y
  end.

Lemma case_diff_sgn a b : Forall char_ok a -> Forall char_ok b ->
  Z.sgn (case_diff a b) = str_compare (map tolower a) (map tolower b).
Proof.
  intros Ha. revert b. induction Ha as [|x a Hx _ IH]; intros b Hb; destruct Hb as [|y b Hy Hb]; simpl; [done|..].
  - pose proof (tolower_char y Hy) as [? _]. lia.
  - pose proof (tolower_char x Hx) as [? _]. lia.
  - destruct (Z.eqb_spec (tolower x) (tolower y)), (Z.ltb_spec (tolower x) (tolower y)),
      (Z.ltb_spec (tolower y) (tolower x)); try lia. by apply IH.
Qed.

Lemma strcasecmp_ok m p q a b : cstring m p a -> cstring m q b -> strcasecmp m p q = Some (case_diff a b).
Proof.
  intros Ha Hb. unfold strcasecmp. pose proof (cstring_len _ _ _ Ha) as (_ & _ & Hf). revert Hf.
  generalize (scan_fuel m). match goal with |- context [c_loop _ ?f _] => set (body := f) end.
  revert p q b Ha Hb. induction a as [|x a IH]; intros p q b Ha Hb [|fuel] Hf; cbn [length] in Hf; try lia;
    cbn [c_loop]; unfold body at 1; destruct b as [|y b].
  - by rewrite (cstring_nil _ _ Ha), bind_Some_eq, (cstring_nil _ _ Hb).
  - apply cstring_cons in Hb as (Hy & Hok & _). rewrite (cstring_nil _ _ Ha), bind_Some_eq, Hy, bind_Some_eq. cbv zeta.
    change (tolower 0) with 0. by rewrite andb_false_r.
  - apply cstring_cons in Ha as (Hx & Hok & _). rewrite Hx, bind_Some_eq, (cstring_nil _ _ Hb), bind_Some_eq. cbv zeta.
    change (tolower 0) with 0. rewrite char_neq0 by (by apply tolower_char). cbn [andb case_diff]. state_eq.
  - apply cstring_cons in Ha as (Hx & Hok & Ha), Hb as (Hy & _ & Hb).
    rewrite Hx, bind_Some_eq, Hy, bind_Some_eq. cbv zeta. cbn [case_diff].
    rewrite (char_neq0 (tolower x)) by (by apply tolower_char).
    destruct (Z.eqb_spec (tolower x) (tolower y)); cbn [andb negb]; [|done]. apply IH; [done..|lia].
Qed.

Lemma strncasecmp_ok m p q n a b : bstring m p n a -> bstring m q n b -> 0 < n <= 2 ^ 32 ->
  (length a < scan_fuel m)%nat -> strncasecmp m p q n = Some (case_diff a b).
Proof.
  intros Ha Hb Hn. unfold strncasecmp.
  generalize (scan_fuel m). match goal with |- context [c_loop _ ?f _] => set (body := f) end.
  revert p q n b Ha Hb Hn. induction a as [|x a IH]; intros p q n b Ha Hb Hn [|fuel] Hf; cbn [length] in Hf; try lia;
    cbn [c_loop]; unfold body at 1; destruct b as [|y b].
  - destruct (bstring_nil _ _ _ Ha) as [?|E]; [lia|]. destruct (bstring_nil _ _ _ Hb) as [?|E']; [lia|].
    rewrite E, bind_Some_eq, E', bind_Some_eq. cbv zeta. change (tolower 0) with 0. by rewrite andb_false_r.
  - apply bstring_cons in Hb as (Hy & Hok & _ & _). destruct (bstring_nil _ _ _ Ha) as [?|E]; [lia|].
    rewrite E, bind_Some_eq, Hy, bind_Some_eq. cbv zeta. change (tolower 0) with 0. by rewrite andb_false_r.
  - apply bstring_cons in Ha as (Hx & Hok & _ & _). destruct (bstring_nil _ _ _ Hb) as [?|E]; [lia|].
    rewrite Hx, bind_Some_eq, E, bind_Some_eq. cbv zeta. change (tolower 0) with 0.
    rewrite char_neq0 by (by apply tolower_char). rewrite andb_false_r. cbn [andb case_diff]. state_eq.
  - apply bstring_cons in Ha as (Hx & Hok & _ & Ha), Hb as (Hy & _ & _ & Hb).
    rewrite Hx, bind_Some_eq, Hy, bind_Some_eq. cbv zeta. cbn [case_diff].
    rewrite (char_neq0 (tolower x)) by (by apply tolower_char). rewrite u32_small by (unfold is_u32; lia).
    destruct (Z.eqb_spec (tolower x) (tolower y)) as [E|]; [|by rewrite andb_false_r].
    destruct (Z.ltb_spec 0 (n - 1)); cbn [andb negb]; [apply IH; [done..|lia|lia]|].
    apply bstring_len in Ha as (_ & Ha & _), Hb as (_ & Hb & _). rewrite E, Z.sub_diag.
    destruct a; [|rewrite blen_cons in Ha; pose proof (blen_nonneg a); lia].
    destruct b; [done|rewrite blen_cons in Hb; pose proof (blen_nonneg b); lia].
Qed.

(** A limit of zero is no limit at all: the counter wraps around. *)
Lemma strncasecmp_0 m p q a b : cstring m p a -> cstring m q b -> mem_ok m ->
  strncasecmp m p q 0 = Some (case_diff a b).
Proof.
  intros Ha Hb Hm. pose proof (cstring_len _ _ _ Ha) as (? & ? & Hf). pose proof (cstring_len _ _ _ Hb) as (? & ? & _).
  unfold mem_ok in Hm. rewrite <- (strncasecmp_ok m p q (2 ^ 32)); [|..|lia|done].
  - unfold strncasecmp, scan_fuel. cbn [c_loop]. change (u32 (0 - 1)) with (u32 (2 ^ 32 - 1)). done.
  - rewrite <- (take_ge a (Z.to_nat (2 ^ 32))) by (unfold blen in *; lia). by apply bstring_cstring.
  - rewrite <- (take_ge b (Z.to_nat (2 ^ 32))) by (unfold blen in *; lia). by apply bstring_cstring.
Qed.

Lemma strnicmp_ok m p q n a b : bstring m p n a -> bstring m q n b ->
  exists r, strnicmp m p q n = Some r /\ Z.sgn r = str_compare (map tolower a) (map tolower b).
Proof.
  intros Ha Hb. unfold strnicmp. pose proof (bstring_len _ _ _ _ Ha) as (_ & Hl & _ & Hf).
  unfold truthy. destruct (Z.eqb_spec n 0) as [->|Hn]; cbn [negb].
  { exists 0. split; [done|]. apply bstring_len in Ha as (_ & Ha & _), Hb as (_ & Hb & _).
    destruct a; [|rewrite blen_cons in Ha; pose proof (blen_nonneg a); lia].
    destruct b; [done|rewrite blen_cons in Hb; pose proof (blen_nonneg b); lia]. }
  assert (0 < n) as Hpos by lia. clear Hn Hl. revert Hf.
  generalize (count_fuel n). match goal with |- context [c_loop _ ?f _] => set (body := f) end.
  revert p q n b Ha Hb Hpos. induction a as [|x a IH]; intros p q n b Ha Hb Hn [|fuel] Hf; cbn [length] in Hf; try lia;
    cbn [c_loop]; unfold body at 1; destruct b as [|y b].
  - destruct (bstring_nil _ _ _ Ha) as [?|E]; [lia|]. destruct (bstring_nil _ _ _ Hb) as [?|E']; [lia|].
    rewrite E, bind_Some_eq, E', bind_Some_eq. by exists 0.
  - apply bstring_cons in Hb as (Hy & Hok & _ & _). destruct (bstring_nil _ _ _ Ha) as [?|E]; [lia|].
    rewrite E, bind_Some_eq, Hy, bind_Some_eq. cbn. eexists. split; [done|]. unfold char_ok in Hok. lia.
  - apply bstring_cons in Ha as (Hx & Hok & _ & _). destruct (bstring_nil _ _ _ Hb) as [?|E]; [lia|].
    rewrite Hx, bind_Some_eq, E, bind_Some_eq. cbv zeta. rewrite Z.eqb_refl, orb_true_r. eexists. split; [done|].
    unfold char_ok in Hok. cbn. lia.
  - apply bstring_cons in Ha as (Hx & Hokx & _ & Ha), Hb as (Hy & Hoky & _ & Hb).
    rewrite Hx, bind_Some_eq, Hy, bind_Some_eq. cbv zeta. rewrite !char_neq0 by done. cbn [orb map str_compare].
    assert (tolower x = tolower y -> forall d, d = 0 -> exists r,
      match Some ((if n - 1 =? 0 then inr else (fun _ => inl (p + 1, q + 1, n - 1))) d) with
      | None => None | Some (inl s') => c_loop fuel body s' | Some (inr r) => Some r end = Some r /\
      Z.sgn r = str_compare (map tolower a) (map tolower b)) as Hnext.
    { intros E d ->. destruct (Z.eqb_spec (n - 1) 0).
      - exists 0. split; [done|]. apply bstring_len in Ha as (_ & Ha & _), Hb as (_ & Hb & _).
        destruct a; [|rewrite blen_cons in Ha; pose proof (blen_nonneg a); lia].
        destruct b; [done|rewrite blen_cons in Hb; pose proof (blen_nonneg b); lia].
      - apply IH; [done..|lia|lia]. }
    destruct (Z.eqb_spec x y) as [->|Hne].
    + rewrite Z.ltb_irrefl. apply Hnext; [done|lia].
    + destruct (Z.eqb_spec (tolower x) (tolower y)) as [E|Hne']; cbn [negb].
      * rewrite E, Z.ltb_irrefl. apply Hnext; [done|lia].
      * eexists. split; [done|]. destruct (Z.ltb_spec (tolower x) (tolower y)), (Z.ltb_spec (tolower y) (tolower x)); lia.
Qed.

(** Equal up to one newline at the end. *)
Definition newline_eq (a b : list Z) : Prop := a = b \/ b = a ++ [10] \/ a = b ++ [10].

Lemma newline_eq_diff x y a b : x <> y -> ~ newline_eq (x :: a) (y :: b).
Proof. intros Hne [E|[E|E]]; simplify_eq/=. Qed.

Lemma newline_eq_nil_l y b : newline_eq [] (y :: b) <-> y = 10 /\ b = [].
Proof. unfold newline_eq. split; [intros [E|[E|E]] | intros [-> ->]]; simplify_eq/=; auto. Qed.

Lemma newline_eq_nil_r x a : newline_eq (x :: a) [] <-> x = 10 /\ a = [].
Proof. unfold newline_eq. split; [intros [E|[E|E]] | intros [-> ->]]; simplify_eq/=; auto. Qed.

Instance newline_eq_dec a b : Decision (newline_eq a b).
Proof. unfold newline_eq. apply _. Defined.

Lemma newline_eq_same x a b : newline_eq (x :: a) (x :: b) <-> newline_eq a b.
Proof.
  unfold newline_eq. split.
  - intros [E|[E|E]]; simplify_eq/=; auto.
  - intros [->|[->| ->]]; auto.
Qed.

(** What follows is the terminator exactly if nothing is left. *)
Lemma end_or_char m p s : cstring m p s -> exists e, arr_get m p = Some e /\ (e = 0 <-> s = []).
Proof.
  intros Hs. destruct s as [|c s].
  - exists 0. split; [by apply cstring_nil | done].
  - apply cstring_cons in Hs as (Hc & Hok & _). exists c. split; [done|]. unfold char_ok in Hok. split; [lia | done].
Qed.

Lemma sysfs_streq_ok m p q a b : cstring m p a -> cstring m q b ->
  sysfs_streq m p q = Some (bool_decide (newline_eq a b)).
Proof.
  intros Ha Hb. unfold sysfs_streq. pose proof (cstring_len _ _ _ Ha) as (_ & _ & Hf). revert Hf.
  generalize (scan_fuel m). match goal with |- context [c_loop _ ?f _] => set (body := f) end.
  revert p q b Ha Hb. induction a as [|x a IH]; intros p q b Ha Hb [|fuel] Hf; cbn [length] in Hf; try lia;
    cbn [c_loop]; unfold body at 1.
  - rewrite (cstring_nil _ _ Ha), bind_Some_eq. cbn [truthy Z.eqb negb]. rewrite bind_Some_eq, (cstring_nil _ _ Ha), bind_Some_eq.
    destruct b as [|y b].
    + rewrite (cstring_nil _ _ Hb), bind_Some_eq. by rewrite bool_decide_eq_true_2 by (by left).
    + apply cstring_cons in Hb as (Hy & Hok & Hb). rewrite Hy, bind_Some_eq, Z.eqb_sym, char_neq0 by done.
      rewrite (bool_decide_ext _ _ (newline_eq_nil_l y b)). cbn [Z.eqb andb].
      destruct (Z.eqb_spec y 10) as [->|Hne]; [|by rewrite bind_Some_eq, bind_Some_eq, bool_decide_eq_false_2 by (by intros [? ?])].
      destruct (end_or_char m (q + 1) b Hb) as (e & -> & He). rewrite bind_Some_eq, bind_Some_eq.
      destruct (Z.eqb_spec e 0) as [E|E]; rewrite ?bind_Some_eq, He in *;
        [rewrite bool_decide_eq_true_2 by done | rewrite bool_decide_eq_false_2 by (by intros [? ?])]; done.
  - apply cstring_cons in Ha as (Hx & Hokx & Ha). rewrite Hx, bind_Some_eq, char_truthy by done. destruct b as [|y b].
    + rewrite (cstring_nil _ _ Hb), bind_Some_eq, char_neq0 by done.
      rewrite bind_Some_eq, Hx, bind_Some_eq, (cstring_nil _ _ Hb), bind_Some_eq, char_neq0 by done. cbn [andb].
      rewrite (bool_decide_ext _ _ (newline_eq_nil_r x a)), bind_Some_eq.
      destruct (Z.eqb_spec x 10) as [->|Hne]; [|by rewrite bind_Some_eq, bool_decide_eq_false_2 by (by intros [? ?])].
      destruct (end_or_char m (p + 1) a Ha) as (e & -> & He). rewrite bind_Some_eq, bind_Some_eq, andb_true_r.
      destruct (Z.eqb_spec e 0) as [E|E]; rewrite He in E;
        [rewrite bool_decide_eq_true_2 by done | rewrite bool_decide_eq_false_2 by (by intros [? ?])]; done.
    + apply cstring_cons in Hb as (Hy & Hoky & Hb). rewrite Hy, bind_Some_eq.
      destruct (Z.eqb_spec x y) as [->|Hne].
      * rewrite (bool_decide_ext _ _ (newline_eq_same y a b)). apply IH; [done..|lia].
      * rewrite bind_Some_eq, Hx, bind_Some_eq, Hy, bind_Some_eq, (proj2 (Z.eqb_neq x y)), (char_neq0 x) by done. cbn [andb].
        rewrite bind_Some_eq, bool_decide_eq_false_2 by (by apply newline_eq_diff).
        destruct (x =? 10); [|by rewrite bind_Some_eq].
        destruct (end_or_char m (p + 1) a Ha) as (e & -> & He). by rewrite bind_Some_eq, bind_Some_eq, (char_neq0 y), andb_false_r.
Qed.

(** ** Sets of characters *)

Lemma find_char_ok m a t x : cstring m a t -> exists r y,
  find_char m a x = Some r /\ arr_get m r = Some y /\ (y = 0 <-> x ∉ t).
Proof.
  intros Ht. exists (first_at a (a + blen t) (fun y => x = y) t).
  assert (exists y, arr_get m (first_at a (a + blen t) (fun y => x = y) t) = Some y /\ (y = 0 <-> x ∉ t)) as (y & Hy & E).
  { unfold first_at. destruct (list_find _ t) as [[k y]|] eqn:Hf.
    - apply list_find_Some in Hf as (Hk & <- & _). destruct (cstring_char _ _ _ _ _ Ht Hk) as [Hg Hok].
      exists x. split; [done|]. unfold char_ok in Hok. split; [lia|]. intros Hn. destruct Hn. by eapply list_elem_of_lookup_2.
    - exists 0. split; [by apply cstring_nul|]. split; [|done]. intros _ Hx. apply list_find_None in Hf.
      rewrite Forall_forall in Hf. by apply (Hf x); [apply list_elem_of_In|]. }
  exists y. split; [|done]. unfold find_char.
  apply (search_trace (fun y => x = y) t (fun k => a + Z.of_nat k)); [lia|..|by apply (cstring_len m a)].
  - intros k z Hk HP. destruct (cstring_char _ _ _ _ _ Ht Hk) as [-> Hok].
    rewrite bind_Some_eq, char_truthy, (proj2 (Z.eqb_neq _ _)) by done. state_eq.
  - unfold first_at. destruct (list_find _ _) as [[k z]|].
    + intros Hk <-. destruct (cstring_char _ _ _ _ _ Ht Hk) as [-> Hok]. by rewrite bind_Some_eq, char_truthy, Z.eqb_refl.
    + change (a + Z.of_nat (length t)) with (a + blen t). by rewrite (cstring_nul _ _ _ Ht).
Qed.

Lemma strspn_ok m p s a t : mem_ok m -> cstring m p s -> cstring m a t ->
  strspn m p a = Some (first_at 0 (blen s) (fun c => c ∉ t) s).
Proof.
  intros Hm Hs Ht. unfold strspn. pose proof (cstring_len _ _ _ Hs) as (Hp & Hl & Hf). unfold mem_ok in Hm.
  apply (search_trace (fun c => c ∉ t) s (fun k => (p + Z.of_nat k, Z.of_nat k))); [state_eq|..|done].
  - intros k c Hk HP. destruct (cstring_char _ _ _ _ _ Hs Hk) as [-> Hok]. apply lookup_lt_Some in Hk.
    rewrite bind_Some_eq, char_truthy by done. destruct (find_char_ok m a t c Ht) as (r & y & -> & Hy & E).
    rewrite bind_Some_eq, Hy, bind_Some_eq, (proj2 (Z.eqb_neq _ _)) by (done || by rewrite E).
    rewrite u32_small by (unfold is_u32, blen in *; lia). state_eq.
  - unfold first_at. destruct (list_find _ _) as [[k c]|].
    + intros Hk HP. destruct (cstring_char _ _ _ _ _ Hs Hk) as [-> Hok].
      rewrite bind_Some_eq, char_truthy by done. destruct (find_char_ok m a t c Ht) as (r & y & -> & Hy & E).
      by rewrite bind_Some_eq, Hy, bind_Some_eq, (proj2 (Z.eqb_eq _ _)) by (done || by rewrite E).
    + change (p + Z.of_nat (length s)) with (p + blen s). by rewrite (cstring_nul _ _ _ Hs).
Qed.

Lemma strcspn_ok m p s a t : mem_ok m -> cstring m p s -> cstring m a t ->
  strcspn m p a = Some (first_at 0 (blen s) (fun c => c ∈ t) s).
Proof.
  intros Hm Hs Ht. unfold strcspn. pose proof (cstring_len _ _ _ Hs) as (Hp & Hl & Hf). unfold mem_ok in Hm.
  apply (search_trace (fun c => c ∈ t) s (fun k => (p + Z.of_nat k, Z.of_nat k))); [state_eq|..|done].
  - intros k c Hk HP. destruct (cstring_char _ _ _ _ _ Hs Hk) as [-> Hok]. apply lookup_lt_Some in Hk.
    rewrite bind_Some_eq, char_truthy by done. destruct (find_char_ok m a t c Ht) as (r & y & -> & Hy & E).
    rewrite bind_Some_eq, Hy, bind_Some_eq, (proj2 (truthy_false _)) by (done || by rewrite E).
    rewrite u32_small by (unfold is_u32, blen in *; lia). state_eq.
  - unfold first_at. destruct (list_find _ _) as [[k c]|].
    + intros Hk HP. destruct (cstring_char _ _ _ _ _ Hs Hk) as [-> Hok].
      rewrite bind_Some_eq, char_truthy by done. destruct (find_char_ok m a t c Ht) as (r & y & -> & Hy & E).
      by rewrite bind_Some_eq, Hy, bind_Some_eq, (proj2 (truthy_true _)) by (done || by rewrite E; auto).
    + change (p + Z.of_nat (length s)) with (p + blen s). by rewrite (cstring_nul _ _ _ Hs).
Qed.

Lemma strpbrk_ok m p s a t : cstring m p s -> cstring m a t ->
  strpbrk m p a = Some (first_at p NULL (fun c => c ∈ t) s).
Proof.
  intros Hs Ht. unfold strpbrk. pose proof (cstring_len _ _ _ Hs) as (Hp & Hl & Hf).
  apply (search_trace (fun c => c ∈ t) s (fun k => p + Z.of_nat k)); [state_eq|..|done].
  - intros k c Hk HP. destruct (cstring_char _ _ _ _ _ Hs Hk) as [-> Hok].
    rewrite bind_Some_eq, char_truthy by done. destruct (find_char_ok m a t c Ht) as (r & y & -> & Hy & E).
    rewrite bind_Some_eq, Hy, bind_Some_eq, (proj2 (truthy_false _)) by (done || by rewrite E). state_eq.
  - unfold first_at. destruct (list_find _ _) as [[k c]|].
    + intros Hk HP. destruct (cstring_char _ _ _ _ _ Hs Hk) as [-> Hok].
      rewrite bind_Some_eq, char_truthy by done. destruct (find_char_ok m a t c Ht) as (r & y & -> & Hy & E).
      by rewrite bind_Some_eq, Hy, bind_Some_eq, (proj2 (truthy_true _)) by (done || by rewrite E; auto).
    + change (p + Z.of_nat (length s)) with (p + blen s). by rewrite (cstring_nul _ _ _ Hs).
Qed.

(** ** Substrings *)

(** Where [t] first occurs in [s]. *)
Fixpoint sub_index (t s : list Z) : option nat :=
  if decide (t `prefix_of` s) then Some 0%nat
  else match s with [] => None | _ :: s => S <$> sub_index t s end.

Lemma prefix_take (t s : list Z) : (length t <= length s)%nat -> t `prefix_of` s <-> take (length t) s = t.
Proof.
  intros Hl. split.
  - intros [k ->]. apply take_app_length.
  - intros H. exists (drop (length t) s). by rewrite <- H at 1; rewrite take_drop.
Qed.

Lemma sub_index_nil s : sub_index [] s = Some 0%nat.
Proof. destruct s; cbn [sub_index]; by rewrite decide_True by apply prefix_nil. Qed.

(** The loop of [strstr] and [strnstr], on an area of [n] bytes. *)
Lemma substring_loop m p q t s n fuel : in_mem m q (blen t) -> rd m q (blen t) = t -> in_mem m p n -> rd m p n = s ->
  (Z.to_nat n < fuel)%nat -> t <> [] ->
  c_loop fuel (fun '(s1, l1) =>
    if blen t <=? l1 then
      r ← memcmp m s1 q (blen t);
      if truthy r then Some (inl (s1 + 1, l1 - 1)) else Some (inr s1)
    else Some (inr NULL)) (p, n) =
  Some (match sub_index t s with Some k => p + Z.of_nat k | None => NULL end).
Proof.
  intros Hq Ht Hp Hs Hf Hne. match goal with |- c_loop _ ?f _ = _ => set (body := f) end.
  assert (blen s = n) as Hn by (rewrite <- Hs; by apply blen_rd).
  revert p n fuel Hp Hs Hn Hf. induction s as [|c s IH]; intros p n [|fuel] Hp Hs Hn Hf; try lia; cbn [c_loop]; unfold body at 1.
  - destruct t as [|x t]; [done|]. rewrite blen_nil in Hn. rewrite blen_cons. pose proof (blen_nonneg t).
    rewrite (proj2 (Z.leb_gt _ _)) by lia. cbn [sub_index]. destruct (decide _) as [Hd|]; [|done].
    apply prefix_length in Hd. simpl in Hd. lia.
  - rewrite blen_cons in Hn. pose proof (blen_nonneg s). pose proof (blen_nonneg t).
    assert (arr_get m p = Some c) as Hc.
    { destruct (in_mem_get m p n 0 Hp) as [x Hx]; [lia|]. rewrite Z.add_0_r in Hx.
      rewrite (rd_cons m p n x) in Hs by (done || lia). congruence. }
    assert (rd m (p + 1) (n - 1) = s) as Hs' by (rewrite (rd_cons m p n c) in Hs by (done || lia); congruence).
    destruct (Z.leb_spec (blen t) n) as [Hle|Hgt].
    + rewrite memcmp_ok, bind_Some_eq, Ht by (unfold in_mem in *; (done || lia)).
      assert (rd m p (blen t) = take (length t) (c :: s)) as ->.
      { rewrite <- Hs. unfold rd, blen. rewrite take_take. f_equal. unfold blen in *. lia. }
      assert (length (take (length t) (c :: s)) = length t) as Hlt by (rewrite length_take; unfold blen in *; simpl; lia).
      pose proof (mem_diff_sgn _ _ Hlt) as Hsgn. pose proof (str_compare_eq (take (length t) (c :: s)) t) as Hcmp.
      pose proof (prefix_take t (c :: s)) as Hpre. cbn [sub_index].
      destruct (decide (t `prefix_of` c :: s)) as [Hd|Hd].
      * apply Hpre in Hd; [|unfold blen in *; simpl; lia]. apply Hcmp in Hd. rewrite (proj2 (truthy_false _)) by lia. state_eq.
      * rewrite (proj2 (truthy_true _)).
        -- rewrite (IH (p + 1) (n - 1)); [|unfold in_mem in *; lia|done|lia|lia]. destruct (sub_index t s); simpl; state_eq.
        -- intros E. apply Hd, Hpre; [unfold blen in *; simpl; lia|]. apply Hcmp. by rewrite <- Hsgn, E.
    + assert (sub_index t (c :: s) = None) as ->; [|done].
      assert (forall s, (length s < length t)%nat -> sub_index t s = None) as Hnone.
      { clear. induction s as [|c s IH]; simpl; intros Hl; (destruct (decide _) as [Hd|]; [apply prefix_length in Hd; simpl in Hd; lia|]); [done|].
        by rewrite IH by lia. }
      apply Hnone. unfold blen in *. simpl. lia.
Qed.

Lemma cstring_area m p s : cstring m p s -> in_mem m p (blen s) /\ rd m p (blen s) = s.
Proof.
  intros Hs. pose proof (blen_nonneg s). split; [destruct Hs as (_ & Hin & _); unfold in_mem in *; lia|].
  rewrite (cstring_rd m p s) by (done || lia). apply take_ge. unfold blen. lia.
Qed.

Lemma strstr_ok m p s q t : mem_ok m -> cstring m p s -> cstring m q t ->
  strstr m p q = Some (match sub_index t s with Some k => p + Z.of_nat k | None => NULL end).
Proof.
  intros Hm Hs Ht. unfold strstr. rewrite (strlen_ok m q t), bind_Some_eq by done.
  destruct (cstring_area _ _ _ Ht) as [Hq Ert], (cstring_area _ _ _ Hs) as [Hp Ers].
  destruct t as [|c t]; [rewrite sub_index_nil, blen_nil, Z.add_0_r; done|].
  rewrite (proj2 (truthy_true _)) by (rewrite blen_cons; pose proof (blen_nonneg t); lia).
  rewrite (strlen_ok m p s), bind_Some_eq by done. apply substring_loop; try done. unfold count_fuel. lia.
Qed.

Lemma strnstr_ok m p n q t : mem_ok m -> in_mem m p n -> cstring m q t ->
  strnstr m p q n = Some (match sub_index t (rd m p n) with Some k => p + Z.of_nat k | None => NULL end).
Proof.
  intros Hm Hp Ht. unfold strnstr. rewrite (strlen_ok m q t), bind_Some_eq by done.
  destruct (cstring_area _ _ _ Ht) as [Hq Ert].
  destruct t as [|c t]; [rewrite sub_index_nil, blen_nil, Z.add_0_r; done|].
  rewrite (proj2 (truthy_true _)) by (rewrite blen_cons; pose proof (blen_nonneg t); lia).
  apply substring_loop; try done. unfold count_fuel. lia.
Qed.
