(* ===== verification/LibStringTokens.v ===== *)
(** * Strings: tokens and white space, and the properties of the file

    [strsep], [skip_spaces] and [strim] of [lib/string.c], and the theorems
    about all of its functions. *)

From S2P Require Import Prelude Bytes Mem LibString LibStringCorrect LibStringProps.
Open Scope c_scope.

(** ** Splitting into tokens *)

Lemma strsep_ok m p s a t : cstring m p s -> cstring m a t ->
  strsep m p a = match list_find (fun c => c ∈ t) s with
                 | Some (k, _) => Some (wr m (p + Z.of_nat k) [0], p + Z.of_nat k + 1, p)
                 | None => Some (m, NULL, p)
                 end.
Proof.
  intros Hs Ht. pose proof (cstring_len _ _ _ Hs) as (Hp & Hl & _). unfold strsep, NULL. cbv zeta.
  rewrite (proj2 (Z.eqb_neq _ _)), (strpbrk_ok m p s a t), bind_Some_eq by (done || lia). unfold first_at.
  destruct (list_find _ s) as [[k c]|] eqn:Hf; [|done].
  apply list_find_Some in Hf as (Hk & _ & _). apply lookup_lt_Some in Hk.
  rewrite (proj2 (truthy_true _)), arr_set_wr by (unfold in_mem, blen in *; lia). done.
Qed.

(** The tokens of a string: the pieces between the characters of [t]. *)
Fixpoint split_on (t s : list Z) : list (list Z) :=
  match s with
  | [] => [[]]
  | c :: s =>
      if decide (c ∈ t) then [] :: split_on t s
      else match split_on t s with w :: ws => (c :: w) :: ws | [] => [[c]] end
  end.

Lemma split_on_nonempty t s : split_on t s <> [].
Proof. destruct s as [|c s]; simpl; [done|]. destruct (decide (c ∈ t)); [done|]. by destruct (split_on t s). Qed.

Lemma split_on_find t s : split_on t s = match list_find (fun c => c ∈ t) s with
  | Some (k, _) => take k s :: split_on t (drop (S k) s)
  | None => [s]
  end.
Proof.
  induction s as [|c s IH]; [done|]. cbn [split_on list_find]. destruct (decide (c ∈ t)); [done|].
  rewrite IH. by destruct (list_find _ s) as [[k x]|].
Qed.

(** [m'] differs from [m] only between [lo] and [lo + n]. *)
Definition agree_out (m m' : mem) (lo n : Z) : Prop :=
  blen m' = blen m /\ forall i, ~ lo <= i < lo + n -> arr_get m' i = arr_get m i.

Lemma agree_refl m lo n : agree_out m m lo n.
Proof. done. Qed.

Lemma agree_wr m p b lo n : in_mem m p (blen b) -> lo <= p -> p + blen b <= lo + n -> agree_out m (wr m p b) lo n.
Proof.
  intros Hin Hlo Hhi. split; [by apply blen_wr|]. intros i Hi. apply arr_get_wr_out; [done|]. lia.
Qed.

Lemma agree_trans m1 m2 m3 lo n lo' n' : agree_out m1 m2 lo n -> agree_out m2 m3 lo' n' -> lo <= lo' ->
  lo' + n' <= lo + n -> agree_out m1 m3 lo n.
Proof.
  intros [H1 H2] [H3 H4] Hlo Hhi. split; [congruence|]. intros i Hi. rewrite H4 by lia. by apply H2.
Qed.

Lemma agree_rd m m' lo n p k : agree_out m m' lo n -> in_mem m p k -> disjoint lo n p k -> rd m' p k = rd m p k.
Proof.
  intros [Hl Ha] Hin Hd. assert (in_mem m' p k) as Hin' by (unfold in_mem in *; lia).
  apply mem_ext; [by rewrite !blen_rd|]. intros i Hi. rewrite blen_rd in Hi by done.
  rewrite !arr_get_rd by done. apply Ha. unfold disjoint in Hd. lia.
Qed.

Lemma agree_cstring m m' lo n p s : agree_out m m' lo n -> cstring m p s -> disjoint lo n p (blen s + 1) -> cstring m' p s.
Proof.
  intros Ha (Hp & Hin & Hrd & Hs) Hd. split; [done|]. split; [destruct Ha; unfold in_mem in *; lia|].
  split; [by rewrite (agree_rd m m' lo n)|done].
Qed.

(** A string cut at position [k]. *)
Lemma cstring_cut m p s k : cstring m p s -> (k < length s)%nat ->
  cstring (wr m (p + Z.of_nat k) [0]) p (take k s) /\ cstring (wr m (p + Z.of_nat k) [0]) (p + Z.of_nat k + 1) (drop (S k) s).
Proof.
  intros Hs Hk. pose proof Hs as (Hp & Hin & Hrd & Hok). split.
  - assert (rd m p (Z.of_nat k) = take k s) as Hr by (rewrite (cstring_rd m p s), Nat2Z.id by (done || (unfold blen; lia)); done).
    rewrite <- (wr_rd m p (Z.of_nat k)) at 1 by (unfold in_mem, blen in *; lia).
    rewrite wr_app by (rewrite ?Hr, ?blen_take, ?blen_one by lia; unfold in_mem, blen in *; lia). rewrite Hr.
    apply cstring_written; [done| |by apply Forall_take]. rewrite blen_take by lia. unfold in_mem, blen in *. lia.
  - apply cstring_wr.
    + replace (p + Z.of_nat k + 1) with (p + Z.of_nat (S k)) by lia. apply cstring_drop; [done|lia].
    + rewrite blen_one. unfold in_mem, blen in *. lia.
    + rewrite blen_one. unfold disjoint. lia.
Qed.

(** The use of [strsep] that its comment describes: call it until it returns
    [NULL] and collect the tokens. *)
Definition strsep_all (fuel : nat) (m : mem) (s ct : Z) : option (mem * list Z) :=
  c_loop fuel (fun '(m, s, toks) =>
    '(m, s, tok) ← strsep m s ct;
    if tok =? NULL then Some (inr (m, toks)) else Some (inl (m, s, toks ++ [tok]))) (m, s, []).

Lemma strsep_all_ok m p s a t toks fuel : cstring m p s -> cstring m a t -> disjoint p (blen s + 1) a (blen t + 1) ->
  (length s + 1 < fuel)%nat ->
  exists m' new, c_loop fuel (fun '(m, s, toks) =>
    '(m, s, tok) ← strsep m s a;
    if tok =? NULL then Some (inr (m, toks)) else Some (inl (m, s, toks ++ [tok]))) (m, p, toks) = Some (m', toks ++ new) /\
    Forall2 (cstring m') new (split_on t s) /\ agree_out m m' p (blen s + 1).
Proof.
  match goal with |- context [c_loop _ ?f _] => set (body := f) end. revert m p s toks.
  induction fuel as [fuel IH] using lt_wf_ind. intros m p s toks Hs Ht Hd Hf.
  destruct fuel as [|fuel]; [lia|]. cbn [c_loop]. unfold body at 1. rewrite (strsep_ok m p s a t), split_on_find by done.
  pose proof (cstring_len _ _ _ Hs) as (Hp & Hl & _). pose proof Hs as (_ & Hin & _).
  destruct (list_find _ s) as [[k c]|] eqn:Hfind.
  - apply list_find_Some in Hfind as (Hk & _ & _). apply lookup_lt_Some in Hk. rewrite bind_Some_eq.
    unfold NULL. rewrite (proj2 (Z.eqb_neq _ _)) by lia. destruct (cstring_cut m p s k Hs Hk) as [Htok Hrest].
    set (m1 := wr m (p + Z.of_nat k) [0]) in *.
    assert (blen (drop (S k) s) = blen s - Z.of_nat k - 1) as Hlen by (unfold blen; rewrite length_drop; lia).
    assert (in_mem m (p + Z.of_nat k) (blen [0])) as Hin1 by (rewrite blen_one; unfold in_mem, blen in *; lia).
    destruct (IH fuel ltac:(lia) m1 (p + Z.of_nat k + 1) (drop (S k) s) (toks ++ [p])) as (m' & new & E & Hall & Hag).
    + done.
    + apply cstring_wr; [done..|]. rewrite blen_one. unfold disjoint, blen in *. lia.
    + rewrite Hlen. unfold disjoint, blen in *. lia.
    + rewrite length_drop. lia.
    + exists m', (p :: new). rewrite <- app_assoc in E. split; [done|]. rewrite Hlen in Hag. split.
      * constructor; [|done]. eapply agree_cstring; [done..|]. rewrite blen_take by lia. unfold disjoint. lia.
      * eapply agree_trans; [|done|lia|lia]. apply agree_wr; [done|..]; rewrite ?blen_one; unfold blen in *; lia.
  - rewrite bind_Some_eq. unfold NULL. rewrite (proj2 (Z.eqb_neq _ _)) by lia.
    destruct fuel as [|fuel]; [lia|]. cbn [c_loop]. unfold body at 1, strsep, NULL. cbn [Z.eqb].
    rewrite bind_Some_eq. cbn [Z.eqb]. exists m, [p]. split; [done|]. split; [|apply agree_refl]. apply Forall2_cons; auto using Forall2_nil.
Qed.

(** ** White space *)

Fixpoint ltrim (s : list Z) : list Z :=
  match s with c :: s' => if isspace c then ltrim s' else s | [] => [] end.
Definition trim (s : list Z) : list Z := rev (ltrim (rev (ltrim s))).

Lemma ltrim_find s : ltrim s = match list_find (fun c => isspace c = false) s with
  | Some (k, _) => drop k s | None => [] end.
Proof.
  induction s as [|c s IH]; [done|]. cbn [ltrim list_find].
  destruct (isspace c) eqn:E.
  - rewrite decide_False by done. rewrite IH. by destruct (list_find _ s) as [[k x]|].
  - by rewrite decide_True.
Qed.

Lemma skip_spaces_ok m p s : cstring m p s ->
  skip_spaces m p = Some (p + blen s - blen (ltrim s)) /\ cstring m (p + blen s - blen (ltrim s)) (ltrim s).
Proof.
  intros Hs. pose proof (cstring_len _ _ _ Hs) as (Hp & Hl & Hf).
  assert (skip_spaces m p = Some (first_at p (p + blen s) (fun c => isspace c = false) s)) as ->.
  { unfold skip_spaces.
    apply (search_trace (fun c => isspace c = false) s (fun k => p + Z.of_nat k)); [lia|..|done].
    - intros k c Hk HP. destruct (cstring_char _ _ _ _ _ Hs Hk) as [-> Hok].
      rewrite bind_Some_eq. destruct (isspace c); [state_eq | done].
    - unfold first_at. destruct (list_find _ s) as [[k c]|].
      + intros Hk E. destruct (cstring_char _ _ _ _ _ Hs Hk) as [-> Hok]. by rewrite bind_Some_eq, E.
      + change (p + Z.of_nat (length s)) with (p + blen s). by rewrite (cstring_nul _ _ _ Hs). }
  unfold first_at. rewrite ltrim_find. destruct (list_find _ s) as [[k c]|] eqn:Hfind.
  - apply list_find_Some in Hfind as (Hk & _ & _). apply lookup_lt_Some in Hk.
    assert (p + blen s - blen (drop k s) = p + Z.of_nat k) as -> by (unfold blen; rewrite length_drop; lia).
    split; [done|]. apply cstring_drop; [done|lia].
  - rewrite blen_nil, Z.sub_0_r. split; [done|]. unfold blen.
    rewrite <- (drop_all s). apply cstring_drop; [done|lia].
Qed.

(** A string that starts with something else than a space has a last such character. *)
Lemma ltrim_head s c s' : ltrim s = c :: s' -> isspace c = false.
Proof.
  induction s as [|x s IH]; simpl; [done|]. destruct (isspace x) eqn:E; [done|]. by intros [= -> _].
Qed.

Lemma list_find_rev_last (s : list Z) c : isspace c = false ->
  exists k x, list_find (fun c => isspace c = false) (rev (c :: s)) = Some (k, x).
Proof.
  intros Hc. destruct (list_find _ (rev (c :: s))) as [[k x]|] eqn:E; [eauto|].
  apply list_find_None in E. rewrite Forall_forall in E. destruct (E c); [|done].
  rewrite <- in_rev. by left.
Qed.

Lemma rev_reverse {A} (l : list A) : rev l = reverse l.
Proof. apply rev_alt. Qed.

Lemma strim_ok m p s : mem_ok m -> cstring m p s ->
  let q := p + blen s - blen (ltrim s) in
  let m' := if decide (ltrim s = []) then m else wr m (q + blen (trim s)) [0] in
  strim m p = Some (m', q) /\ cstring m' q (trim s).
Proof.
  intros Hm Hs q. destruct (skip_spaces_ok m p s Hs) as [Hskip Hq]. fold q in Hskip, Hq.
  unfold strim, trim. rewrite Hskip, bind_Some_eq, (strlen_ok m q (ltrim s)), bind_Some_eq by done.
  pose proof (cstring_len _ _ _ Hq) as (Hq0 & Hql & Hqf). unfold mem_ok in Hm.
  destruct (ltrim s) as [|c t] eqn:Et.
  { rewrite decide_True by done. done. }
  rewrite decide_False by done. pose proof (ltrim_head _ _ _ Et) as Hc.
  rewrite (proj2 (truthy_true _)) by (rewrite blen_cons; pose proof (blen_nonneg t); lia).
  destruct (list_find_rev_last t c Hc) as (k & x & Hfind). set (u := c :: t) in *.
  assert (forall k y, rev u !! k = Some y -> arr_get m (q + blen u - 1 - Z.of_nat k) = Some y /\ (k < length u)%nat) as Hget.
  { intros j y Hj. pose proof (lookup_lt_Some _ _ _ Hj) as Hlt. rewrite length_rev in Hlt. split; [|done].
    rewrite rev_reverse, reverse_lookup in Hj by done.
    destruct (cstring_char _ _ _ _ _ Hq Hj) as [<- _]. f_equal. unfold blen. lia. }
  assert (k < length u)%nat as Hk by (apply list_find_Some in Hfind as (Hk & _); by destruct (Hget _ _ Hk)).
  match goal with |- (_ ← c_loop ?f ?b ?s0; _) = _ /\ _ =>
    assert (c_loop f b s0 = Some (q + blen u - 1 - Z.of_nat k)) as -> end.
  { apply (search_trace (fun c => isspace c = false) (rev u) (fun k => q + blen u - 1 - Z.of_nat k));
      [state_eq|..|by rewrite length_rev].
    - intros j y Hj HP. destruct (Hget j y Hj) as [Hg Hlt]. rewrite (proj2 (Z.leb_le _ _)) by (unfold blen in *; lia).
      rewrite Hg, bind_Some_eq. destruct (isspace y); [|done].
      rewrite u32_small by (unfold is_u32, blen in *; lia). state_eq.
    - rewrite Hfind. intros Hj E. destruct (Hget k x Hj) as [Hg Hlt]. rewrite (proj2 (Z.leb_le _ _)) by (unfold blen in *; lia).
      by rewrite Hg, bind_Some_eq, E. }
  rewrite bind_Some_eq. assert (rev (ltrim (rev u)) = take (length u - k) u) as ->.
  { rewrite ltrim_find, Hfind, !rev_reverse. rewrite <- (reverse_involutive u) at 3. rewrite take_reverse.
    rewrite length_reverse. do 2 f_equal. lia. }
  rewrite blen_take by lia.
  replace (q + blen u - 1 - Z.of_nat k + 1) with (q + Z.of_nat (length u - k)) by (unfold blen; lia).
  rewrite arr_set_wr by (unfold in_mem, blen in *; lia). rewrite bind_Some_eq. split; [done|].
  destruct (decide (k = 0%nat)) as [->|].
  - rewrite Nat.sub_0_r, take_ge by lia. assert (wr m (q + Z.of_nat (length u)) [0] = m) as ->; [|done].
    apply mem_ext; [apply blen_wr; rewrite blen_one; unfold in_mem, blen in *; lia|]. intros i _.
    destruct (Z.eq_dec i (q + Z.of_nat (length u))) as [->|].
    + rewrite arr_get_wr_in by (rewrite blen_one; unfold in_mem, blen in *; lia). rewrite Z.sub_diag.
      symmetry. apply (cstring_nul _ _ _ Hq).
    + apply arr_get_wr_out; rewrite blen_one; unfold in_mem, blen in *; lia.
  - apply cstring_cut; [done|lia].
Qed.
