(* ===== verification/LibStringTheorems.v ===== *)
(** * Strings and memory areas: properties

    The properties of [lib/string.c].  [cstring m p s] says that [s] with its
    terminator is at [p], [bstring m p n s] that [s] is what a function with the
    limit [n] sees at [p]; [wr] and [agree_out] say which bytes change. *)

From S2P Require Import Prelude Bytes Mem LibString LibStringCorrect LibStringProps LibStringTokens.
Open Scope c_scope.

(** Hypotheses about a concrete memory. *)
Ltac concrete_chars := repeat (apply Forall_cons_2; [unfold char_ok; lia|]); apply Forall_nil_2.
Ltac concrete_mem :=
  match goal with
  | |- cstring _ _ _ => split; [lia|split; [unfold in_mem, blen; cbn; lia|split; [reflexivity|concrete_chars]]]
  | |- bstring _ _ _ _ =>
      split; [lia|split; [unfold in_mem, blen; cbn; lia|split; [reflexivity|split; [concrete_chars|split;
        [unfold blen; cbn; lia|first [by left | by right]]]]]]
  | |- _ => unfold mem_ok, in_mem, disjoint, blen; cbn; lia
  end.

(** A memory with the strings "ab,c", ",", "Ab" and "b," and free space. *)
Definition sample_mem : mem :=
  [0; 97; 98; 44; 99; 0; 44; 0; 65; 98; 0; 98; 44; 0; 1; 1; 1; 1; 1; 1; 1; 1; 1; 1].

(** C20: for all areas of memory, overlapping or not, [memmove] leaves at the
    destination what the source held and changes nothing else; [memcpy] does so
    unless the destination starts inside the source; [memset] fills exactly the
    area; [memcmp] gives the difference of the first bytes that differ, whose
    sign is the lexicographic order; [memchr] and [memscan] give the first
    occurrence of a byte. *)
Theorem memory_areas_correct m d s c n : in_mem m d n -> in_mem m s n ->
  memmove m d s n = Some (wr m d (rd m s n), d) /\
  (d <= s \/ s + n <= d -> memcpy m d s n = Some (wr m d (rd m s n), d)) /\
  memset m s c n = Some (wr m s (replicate (Z.to_nat n) (u8 c)), s) /\
  (exists r, memcmp m d s n = Some r /\ Z.sgn r = str_compare (rd m d n) (rd m s n)) /\
  memchr m s c n = Some (first_at s NULL (fun x => x = u8 c) (rd m s n)) /\
  memscan m s c n = Some (first_at s (s + n) (fun x => x = c) (rd m s n)).
Proof.
  intros Hd Hs. split; [by apply memmove_ok|]. split; [by apply memcpy_ok|]. split; [by apply memset_ok|].
  split; [|split; [by apply memchr_ok | by apply memscan_ok]].
  eexists. split; [by apply memcmp_ok|]. apply mem_diff_sgn.
  by rewrite (proj1 (rd_get m d n Hd)), (proj1 (rd_get m s n Hs)).
Qed.

Lemma memory_areas_correct_witness :
  memmove sample_mem 3 1 4 = Some (wr sample_mem 3 [97; 98; 44; 99], 3) /\
  (3 <= 1 \/ 1 + 4 <= 3 -> memcpy sample_mem 3 1 4 = Some (wr sample_mem 3 [97; 98; 44; 99], 3)) /\
  memset sample_mem 1 353 4 = Some (wr sample_mem 1 [97; 97; 97; 97], 1) /\
  (exists r, memcmp sample_mem 3 1 4 = Some r /\ Z.sgn r = -1) /\
  memchr sample_mem 1 354 4 = Some 2 /\ memscan sample_mem 1 354 4 = Some 5.
Proof.
  destruct (memory_areas_correct sample_mem 3 1 353 4) as (H1 & H2 & H3 & H4 & _); [concrete_mem..|].
  destruct (memory_areas_correct sample_mem 3 1 354 4) as (_ & _ & _ & _ & H5 & H6); [concrete_mem..|].
  split; [exact H1|]. split; [exact H2|]. split; [exact H3|]. split; [exact H4|]. split; [exact H5|exact H6].
Defined.

(** C16: [strlcpy] and [strlcat] never write outside the buffer of [size] bytes
    they are given, always leave a terminated string there, and report the
    length they would have needed; [strlcat] stops the machine, before it
    writes anything, if the buffer holds no terminated string to append to. *)
Theorem sized_copies_stay_in_buffer m d t q s size : mem_ok m -> cstring m q s -> in_mem m d size -> 0 < d -> 0 < size ->
  disjoint d size q (blen s + 1) ->
  (exists m', strlcpy m d q size = Some (m', blen s) /\ cstring m' d (take (Z.to_nat (size - 1)) s) /\
     agree_out m m' d size) /\
  (cstring m d t -> blen t < size -> exists m', strlcat m d q size = Some (Returned m' (u32 (blen t + blen s))) /\
     cstring m' d (take (Z.to_nat (size - 1)) (t ++ s)) /\ agree_out m m' d size) /\
  (cstring m d t -> size <= blen t -> strlcat m d q size = Some (Stopped m)).
Proof.
  intros Hm Hs Hd Hd0 Hsize Ho. pose proof (blen_nonneg s). pose proof (blen_nonneg t).
  split; [|split; [|intros; by eapply strlcat_bug]].
  - eexists. split; [rewrite (strlcpy_ok m d q s) by (done || (unfold in_mem, disjoint in *; lia));
      rewrite (proj2 (Z.eqb_neq _ _)) by lia; done|].
    pose proof Hs as (_ & _ & _ & Hok). unfold clipped. split.
    + apply cstring_written; [done| |by apply Forall_take]. unfold in_mem, blen in *. rewrite length_take. lia.
    + apply agree_wr; try lia; rewrite blen_app, blen_one; unfold in_mem, blen in *; rewrite length_take; lia.
  - intros Ht Hlt. eexists. split; [apply strlcat_ok; (done || (unfold mem_ok, in_mem, disjoint in *; lia))|].
    pose proof Hs as (_ & _ & _ & Hok). pose proof Ht as (_ & _ & _ & Hok').
    assert (blen (clipped (size - blen t) s) = Z.min (size - blen t) (blen s + 1)) as Hl by (apply blen_clipped; lia).
    split; [|apply agree_wr; rewrite ?Hl; unfold in_mem in *; lia].
    destruct (cstring_area _ _ _ Ht) as [Hin Hrd]. rewrite <- (wr_rd m d (blen t)) at 1 by done.
    rewrite Hrd, wr_app by (rewrite ?Hl; unfold in_mem in *; lia). unfold clipped. rewrite app_assoc.
    assert (t ++ take (Z.to_nat (size - blen t - 1)) s = take (Z.to_nat (size - 1)) (t ++ s)) as ->.
    { rewrite take_app, (take_ge t) by (unfold blen in *; lia). do 2 f_equal. unfold blen in *. lia. }
    apply cstring_written; [done| |by apply Forall_take, Forall_app].
    unfold in_mem, blen in *. rewrite length_take, length_app. lia.
Qed.

Lemma sized_copies_stay_in_buffer_witness :
  (exists m', strlcpy sample_mem 14 1 3 = Some (m', 4) /\ cstring m' 14 [97; 98] /\ agree_out sample_mem m' 14 3) /\
  (exists m', strlcat sample_mem 8 1 4 = Some (Returned m' 6) /\ cstring m' 8 [65; 98; 97] /\ agree_out sample_mem m' 8 4) /\
  strlcat sample_mem 8 1 2 = Some (Stopped sample_mem).
Proof.
  split; [|split].
  - apply (sized_copies_stay_in_buffer sample_mem 14 [] 1 [97; 98; 44; 99] 3); concrete_mem.
  - apply (sized_copies_stay_in_buffer sample_mem 8 [65; 98] 1 [97; 98; 44; 99] 4); concrete_mem.
  - apply (sized_copies_stay_in_buffer sample_mem 8 [65; 98] 1 [97; 98; 44; 99] 2); concrete_mem.
Defined.

(** [strcpy] and [strcat] copy the string with its terminator to the
    destination and to the end of its string; [strncpy] writes exactly [n]
    bytes, the string cut after [n] characters and padded with terminators;
    [strncat] appends at most [n] characters and always a terminator.  Nothing
    else changes, and the source of the limited functions need not be
    terminated. *)
Theorem string_copies_correct m d t q s n b : cstring m d t -> cstring m q s -> bstring m q n b ->
  in_mem m d (Z.max n (blen t + blen s + 1)) -> disjoint d (Z.max n (blen t + blen s + 1)) q (blen s + 1) ->
  strcpy m d q = Some (wr m d (s ++ [0]), d) /\
  strcat m d q = Some (wr m (d + blen t) (s ++ [0]), d) /\
  b = take (Z.to_nat n) s /\
  strncpy m d q n = Some (wr m d (padded n b), d) /\ blen (padded n b) = n /\
  strncat m d q n = Some (if n =? 0 then m else wr m (d + blen t) (b ++ [0]), d).
Proof.
  intros Ht Hs Hb Hd Ho. pose proof (blen_nonneg s). pose proof (blen_nonneg t).
  pose proof (bstring_len _ _ _ _ Hb) as (_ & Hbl & _ & _).
  assert (b = take (Z.to_nat n) s) as E by (by apply (bstring_unique m q n s)).
  assert (blen b <= blen s) as Hbs by (rewrite E; unfold blen; rewrite length_take; lia).
  split; [apply strcpy_ok; (done || (unfold in_mem, disjoint in *; lia))|].
  split; [apply strcat_ok; (done || (unfold in_mem, disjoint in *; lia))|]. split; [done|].
  split; [apply strncpy_ok; (done || (unfold in_mem, disjoint in *; lia))|].
  split; [unfold padded; rewrite blen_app; unfold blen in *; rewrite length_replicate; lia|].
  apply strncat_ok; (done || (unfold in_mem, disjoint in *; lia)).
Qed.

Lemma string_copies_correct_witness :
  strcpy sample_mem 11 1 = Some (wr sample_mem 11 [97; 98; 44; 99; 0], 11) /\
  strcat sample_mem 11 1 = Some (wr sample_mem 13 [97; 98; 44; 99; 0], 11) /\
  [97; 98] = take 2 [97; 98; 44; 99] /\
  strncpy sample_mem 11 1 2 = Some (wr sample_mem 11 [97; 98], 11) /\ blen [97; 98] = 2 /\
  strncat sample_mem 11 1 2 = Some (wr sample_mem 13 [97; 98; 0], 11).
Proof. apply (string_copies_correct sample_mem 11 [98; 44] 1 [97; 98; 44; 99] 2 [97; 98]); concrete_mem. Defined.

(** C34: [strcmp] and [strncmp] give the lexicographic order of the strings, cut
    after [n] characters for [strncmp]: a total order that is zero only for
    equal strings; [strcasecmp], [strncasecmp] and [strnicmp] have the sign of
    the order of the strings in lower case, for every limit but zero. *)
Theorem string_comparisons_correct m p q a b n a' b' : cstring m p a -> cstring m q b ->
  bstring m p n a' -> bstring m q n b' -> 0 < n < 2 ^ 32 ->
  strcmp m p q = Some (str_compare a b) /\
  (str_compare a b = 0 <-> a = b) /\ str_compare b a = - str_compare a b /\
  (forall c, str_compare a b = -1 -> str_compare b c = -1 -> str_compare a c = -1) /\
  strncmp m p q n = Some (str_compare a' b') /\
  (exists r, strcasecmp m p q = Some r /\ Z.sgn r = str_compare (map tolower a) (map tolower b)) /\
  (exists r, strncasecmp m p q n = Some r /\ Z.sgn r = str_compare (map tolower a') (map tolower b')) /\
  (exists r, strnicmp m p q n = Some r /\ Z.sgn r = str_compare (map tolower a') (map tolower b')).
Proof.
  intros Ha Hb Ha' Hb' Hn. split; [by apply strcmp_ok|]. split; [apply str_compare_eq|].
  split; [apply str_compare_opp|]. split; [intros c; apply str_compare_lt_trans|]. split; [by apply strncmp_ok|].
  split; [|split; [|by apply strnicmp_ok]].
  - eexists. split; [by apply strcasecmp_ok|]. apply case_diff_sgn; [apply Ha | apply Hb].
  - eexists. split; [apply strncasecmp_ok; try done; [lia|]|apply case_diff_sgn; [apply Ha' | apply Hb']].
    apply bstring_len in Ha' as (? & ? & ? & _). unfold scan_fuel, blen in *. lia.
Qed.

Lemma string_comparisons_correct_witness :
  strcmp sample_mem 1 8 = Some 1 /\
  (str_compare [97; 98; 44; 99] [65; 98] = 0 <-> [97; 98; 44; 99] = [65; 98]) /\
  str_compare [65; 98] [97; 98; 44; 99] = - str_compare [97; 98; 44; 99] [65; 98] /\
  (forall c, str_compare [97; 98; 44; 99] [65; 98] = -1 -> str_compare [65; 98] c = -1 ->
     str_compare [97; 98; 44; 99] c = -1) /\
  strncmp sample_mem 1 8 2 = Some 1 /\
  (exists r, strcasecmp sample_mem 1 8 = Some r /\ Z.sgn r = 1) /\
  (exists r, strncasecmp sample_mem 1 8 2 = Some r /\ Z.sgn r = 0) /\
  (exists r, strnicmp sample_mem 1 8 2 = Some r /\ Z.sgn r = 0).
Proof.
  apply (string_comparisons_correct sample_mem 1 8 [97; 98; 44; 99] [65; 98] 2 [97; 98] [65; 98]); concrete_mem.
Defined.

(** C35: the searches find what their comments say.  [strlen] and [strnlen] give
    the length; [strchr], [strrchr] and [strnchr] the first or last occurrence
    of a character, the terminator included for the first two; [strspn],
    [strcspn] and [strpbrk] the first character outside or inside a set;
    [strstr] and [strnstr] the first occurrence of a substring. *)
Theorem string_searches_correct m p s q t n b c : mem_ok m -> cstring m p s -> cstring m q t -> bstring m p n b ->
  in_mem m p n ->
  strlen m p = Some (blen s) /\ strnlen m p n = Some (blen b) /\
  strchr m p c = Some (first_at p (if u8 c =? 0 then p + blen s else NULL) (fun x => x = u8 c) s) /\
  strrchr m p c = Some (last_at p (fun x => x = u8 c) (s ++ [0])) /\
  strnchr m p n c = Some (first_at p NULL (fun x => x = u8 c) b) /\
  strspn m p q = Some (first_at 0 (blen s) (fun x => x ∉ t) s) /\
  strcspn m p q = Some (first_at 0 (blen s) (fun x => x ∈ t) s) /\
  strpbrk m p q = Some (first_at p NULL (fun x => x ∈ t) s) /\
  strstr m p q = Some (match sub_index t s with Some k => p + Z.of_nat k | None => NULL end) /\
  strnstr m p q n = Some (match sub_index t (rd m p n) with Some k => p + Z.of_nat k | None => NULL end).
Proof.
  intros Hm Hs Ht Hb Hn. split; [by apply strlen_ok|]. split; [by apply strnlen_ok|]. split; [by apply strchr_ok|].
  split; [by apply strrchr_ok|]. split; [by apply strnchr_ok|]. split; [by apply strspn_ok|].
  split; [by apply strcspn_ok|]. split; [by apply strpbrk_ok|]. split; [by apply strstr_ok | by apply strnstr_ok].
Qed.

Lemma string_searches_correct_witness :
  strlen sample_mem 1 = Some 4 /\ strnlen sample_mem 1 3 = Some 3 /\ strchr sample_mem 1 98 = Some 2 /\
  strrchr sample_mem 1 98 = Some 2 /\ strnchr sample_mem 1 3 98 = Some 2 /\ strspn sample_mem 1 11 = Some 0 /\
  strcspn sample_mem 1 11 = Some 1 /\ strpbrk sample_mem 1 11 = Some 2 /\ strstr sample_mem 1 11 = Some 2 /\
  strnstr sample_mem 1 11 3 = Some 2.
Proof.
  apply (string_searches_correct sample_mem 1 [97; 98; 44; 99] 11 [98; 44] 3 [97; 98; 44] 98); concrete_mem.
Defined.

(** C31: calling [strsep] until it returns [NULL] ends for every string and every
    set of delimiters; the tokens it returned are then, in the final memory, the
    pieces of the string between the delimiters, empty ones included, and no
    byte outside the string has changed.  The fuel is one call per character and
    two more. *)
Theorem strsep_splits m p s a t : cstring m p s -> cstring m a t -> disjoint p (blen s + 1) a (blen t + 1) ->
  exists m' toks, strsep_all (length s + 2) m p a = Some (m', toks) /\
    Forall2 (cstring m') toks (split_on t s) /\ agree_out m m' p (blen s + 1).
Proof.
  intros Hs Ht Hd. destruct (strsep_all_ok m p s a t [] (length s + 2) Hs Ht Hd) as (m' & new & E & H); [lia|].
  exists m', new. split; [exact E | exact H].
Qed.

Lemma strsep_splits_witness : exists m' toks, strsep_all 6 sample_mem 1 6 = Some (m', toks) /\
  Forall2 (cstring m') toks [[97; 98]; [99]] /\ agree_out sample_mem m' 1 5.
Proof. apply (strsep_splits sample_mem 1 [97; 98; 44; 99] 6 [44]); concrete_mem. Defined.

(** [skip_spaces] moves to the first character that is not white space,
    [strim] also cuts the white space at the end and returns the trimmed string;
    a string of white space only is left as it is and its end returned.
    [sysfs_streq] accepts exactly the strings that are equal up to one newline
    at the end of one of them. *)
Theorem trimming_correct m p s q t : mem_ok m -> cstring m p s -> cstring m q t ->
  skip_spaces m p = Some (p + blen s - blen (ltrim s)) /\ cstring m (p + blen s - blen (ltrim s)) (ltrim s) /\
  (exists m', strim m p = Some (m', p + blen s - blen (ltrim s)) /\
     cstring m' (p + blen s - blen (ltrim s)) (trim s) /\ agree_out m m' p (blen s + 1)) /\
  sysfs_streq m p q = Some (bool_decide (newline_eq s t)).
Proof.
  intros Hm Hs Ht. split; [by apply skip_spaces_ok|]. split; [by apply skip_spaces_ok|].
  split; [|by apply sysfs_streq_ok].
  destruct (strim_ok m p s Hm Hs) as [E Htrim]. eexists. split; [exact E|]. split; [exact Htrim|].
  destruct (decide _) as [_|Hne]; [done|]. pose proof Hs as (Hp & Hin & _).
  assert (blen (trim s) <= blen (ltrim s) <= blen s) as Hle.
  { assert (forall s, blen (ltrim s) <= blen s) as H.
    { clear. intros s. rewrite ltrim_find. destruct (list_find _ s) as [[k c]|]; unfold blen; rewrite ?length_drop; simpl; lia. }
    split; [|done]. unfold trim, blen. rewrite length_rev. pose proof (H (rev (ltrim s))) as H'. unfold blen in H'.
    by rewrite length_rev in H'. }
  pose proof (blen_nonneg (trim s)). apply agree_wr; rewrite ?blen_one; unfold in_mem in *; lia.
Qed.

Lemma trimming_correct_witness : let m := [1; 32; 97; 32; 10; 0; 97; 10; 0] in
  skip_spaces m 1 = Some 2 /\ cstring m 2 [97; 32; 10] /\
  (exists m', strim m 1 = Some (m', 2) /\ cstring m' 2 [97] /\ agree_out m m' 1 5) /\
  sysfs_streq m 2 6 = Some false.
Proof.
  intros m. destruct (trimming_correct m 1 [32; 97; 32; 10] 6 [97; 10]) as (H1 & H2 & H3 & _); [concrete_mem..|].
  destruct (trimming_correct m 2 [97; 32; 10] 6 [97; 10]) as (_ & _ & _ & H4); [concrete_mem..|].
  split; [exact H1|]. split; [exact H2|]. split; [exact H3|exact H4].
Defined.

(** [strncasecmp] with the limit zero does not compare nothing, as [strncmp]
    and [strnicmp] do: the limit is decremented before it is tested, wraps
    around, and the whole strings are compared. *)
Theorem strncasecmp_zero_compares_all m p q a b : mem_ok m -> cstring m p a -> cstring m q b ->
  strncasecmp m p q 0 = strcasecmp m p q /\ strnicmp m p q 0 = Some 0.
Proof. intros Hm Ha Hb. split; [|done]. by rewrite (strncasecmp_0 m p q a b), (strcasecmp_ok m p q a b). Qed.

Lemma strncasecmp_zero_compares_all_witness :
  strncasecmp sample_mem 1 11 0 = strcasecmp sample_mem 1 11 /\ strnicmp sample_mem 1 11 0 = Some 0.
Proof. apply (strncasecmp_zero_compares_all sample_mem 1 11 [97; 98; 44; 99] [98; 44]); concrete_mem. Defined.
