(* ===== verification/PosixAcl.v ===== *)
(** * POSIX access control lists

    [fs/posix_acl.c] and [fs/xattr_acl.c]: the in-memory ACL
    ([struct posix_acl] with its trailing array of entries), its validity
    check, the access check, the conversions between an ACL and the mode bits,
    [chmod] and inode creation on an ACL, and the extended-attribute encoding.

    An ACL handle is a [posix_acl] record; [a_entries] is the storage after
    the header, of which the first [a_count] entries are in use.  On i386
    [mode_t] is an [unsigned short].  The storage allocator [kmalloc] is an
    argument of the functions that allocate. *)

From stdpp Require Import sorting.
From S2P Require Import Prelude Bytes Bitops.
Open Scope c_scope.

(** ** Data ([include/linux/posix_acl.h]) *)

Definition ACL_UNDEFINED_ID : Z := 0xffffffff.
Definition ACL_USER_OBJ : Z := 0x01.
Definition ACL_USER : Z := 0x02.
Definition ACL_GROUP_OBJ : Z := 0x04.
Definition ACL_GROUP : Z := 0x08.
Definition ACL_MASK : Z := 0x10.
Definition ACL_OTHER : Z := 0x20.
Definition ACL_READ : Z := 0x04.
Definition ACL_WRITE : Z := 0x02.
Definition ACL_EXECUTE : Z := 0x01.

Definition S_IRWXU : Z := 0x1c0.
Definition S_IRWXG : Z := 0x038.
Definition S_IRWXO : Z := 0x007.
Definition S_IRWXUGO : Z := S_IRWXU .| S_IRWXG .| S_IRWXO.

Record posix_acl_entry := Entry { e_tag : Z; e_perm : Z; e_id : Z }.

Record posix_acl := Acl { a_refcount : Z; a_count : Z; a_entries : list posix_acl_entry }.

Definition set_perm (e : posix_acl_entry) (p : Z) : posix_acl_entry := Entry (e_tag e) p (e_id e).
Definition set_entries (acl : posix_acl) (es : list posix_acl_entry) : posix_acl :=
  Acl (a_refcount acl) (a_count acl) es.

(** A C pointer result: [NULL], an error pointer, or an object. *)
Inductive ptr (A : Type) := NULL | ERR_PTR (e : Z) | PTR (a : A).
#[global] Arguments NULL {A}.
#[global] Arguments ERR_PTR {A} _.
#[global] Arguments PTR {A} _.

Definition EOPNOTSUPP : Z := 95.

(** ** Allocation *)

Section alloc.

(** [kmalloc size]: the uninitialised entry array of an object of [size]
    bytes, or nothing. *)
Variable kmalloc : Z -> option (list posix_acl_entry).

(** [sizeof(struct posix_acl)] and [sizeof(struct posix_acl_entry)]. *)
Definition sizeof_posix_acl : Z := 8.
Definition sizeof_posix_acl_entry : Z := 8.

Definition posix_acl_init (es : list posix_acl_entry) (count : Z) : posix_acl := Acl 1 count es.

Definition posix_acl_alloc (count : Z) : option posix_acl :=
  let size := u32 (sizeof_posix_acl + count * sizeof_posix_acl_entry) in
  match kmalloc size with
  | None => None
  | Some es => Some (posix_acl_init es count)
  end.

(** [kmemdup] copies the header and [a_count] entries. *)
Definition posix_acl_clone (acl : option posix_acl) : option posix_acl :=
  match acl with
  | None => None
  | Some acl =>
      let size := sizeof_posix_acl + a_count acl * sizeof_posix_acl_entry in
      match kmalloc (u32 size) with
      | None => None
      | Some _ => Some (Acl 1 (a_count acl) (take (Z.to_nat (a_count acl)) (a_entries acl)))
      end
  end.

Definition posix_acl_from_mode (mode : Z) : option (ptr posix_acl) :=
  match posix_acl_alloc 3 with
  | None => Some (ERR_PTR (- ENOMEM))
  | Some acl =>
      es ← arr_set (a_entries acl) 0 (Entry ACL_USER_OBJ ((mode .& S_IRWXU) .>> 6) ACL_UNDEFINED_ID);
      es ← arr_set es 1 (Entry ACL_GROUP_OBJ ((mode .& S_IRWXG) .>> 3) ACL_UNDEFINED_ID);
      es ← arr_set es 2 (Entry ACL_OTHER (mode .& S_IRWXO) ACL_UNDEFINED_ID);
      Some (PTR (set_entries acl es))
  end.

End alloc.

(** ** Validity *)

(** One pass of the loop of [posix_acl_valid], on the automaton state
    [(state, id, needs_mask)]. *)
Definition posix_acl_valid_entry (pa : posix_acl_entry) (st : Z * Z * bool) : (Z * Z * bool) + Z :=
  let '(state, id, needs_mask) := st in
  let t := e_tag pa in
  if truthy (e_perm pa .& Z.lnot (ACL_READ .| ACL_WRITE .| ACL_EXECUTE)) then inr (- EINVAL)
  else if t =? ACL_USER_OBJ then
    if state =? ACL_USER_OBJ then inl (ACL_USER, 0, needs_mask) else inr (- EINVAL)
  else if t =? ACL_USER then
    if negb (state =? ACL_USER) then inr (- EINVAL)
    else if (e_id pa =? ACL_UNDEFINED_ID) || (e_id pa <? id) then inr (- EINVAL)
    else inl (state, u32 (e_id pa + 1), true)
  else if t =? ACL_GROUP_OBJ then
    if state =? ACL_USER then inl (ACL_GROUP, 0, needs_mask) else inr (- EINVAL)
  else if t =? ACL_GROUP then
    if negb (state =? ACL_GROUP) then inr (- EINVAL)
    else if (e_id pa =? ACL_UNDEFINED_ID) || (e_id pa <? id) then inr (- EINVAL)
    else inl (state, u32 (e_id pa + 1), true)
  else if t =? ACL_MASK then
    if negb (state =? ACL_GROUP) then inr (- EINVAL) else inl (ACL_OTHER, id, needs_mask)
  else if t =? ACL_OTHER then
    if (state =? ACL_OTHER) || ((state =? ACL_GROUP) && negb needs_mask)
    then inl (0, id, needs_mask) else inr (- EINVAL)
  else inr (- EINVAL).

Definition posix_acl_valid (acl : posix_acl) : option Z :=
  c_seq (c_for 0 (a_count acl) (fun i st =>
           pa ← arr_get (a_entries acl) i; Some (posix_acl_valid_entry pa st))
         (ACL_USER_OBJ, 0, false))
        (fun '(state, _, _) => Some (if state =? 0 then 0 else - EINVAL)).

(** ** Mode bits *)

Definition posix_acl_equiv_mode_entry (pa : posix_acl_entry) (st : Z * Z) : (Z * Z) + Z :=
  let '(mode, not_equiv) := st in
  let t := e_tag pa in
  if t =? ACL_USER_OBJ then inl (u16 (mode .| Z.shiftl (e_perm pa .& S_IRWXO) 6), not_equiv)
  else if t =? ACL_GROUP_OBJ then inl (u16 (mode .| Z.shiftl (e_perm pa .& S_IRWXO) 3), not_equiv)
  else if t =? ACL_OTHER then inl (u16 (mode .| (e_perm pa .& S_IRWXO)), not_equiv)
  else if t =? ACL_MASK then
    inl (u16 ((mode .& Z.lnot S_IRWXG) .| Z.shiftl (e_perm pa .& S_IRWXO) 3), 1)
  else if (t =? ACL_USER) || (t =? ACL_GROUP) then inl (mode, 1)
  else inr (- EINVAL).

(** [mode_p = None] is the call with a null pointer; the result holds the
    new value of [*mode_p]. *)
Definition posix_acl_equiv_mode (acl : posix_acl) (mode_p : option Z) : option (Z * option Z) :=
  c_seq (r ← c_for 0 (a_count acl) (fun i st =>
           pa ← arr_get (a_entries acl) i; Some (posix_acl_equiv_mode_entry pa st)) (0, 0);
         Some (match r with inl st => inl st | inr e => inr (e, mode_p) end))
        (fun '(mode, not_equiv) =>
           Some (not_equiv,
                 match mode_p with
                 | None => None
                 | Some m => Some (u16 ((m .& Z.lnot S_IRWXUGO) .| mode))
                 end)).

(** Applied to a fresh inode: [*mode_p] and the entries are updated; the
    pointers [group_obj] and [mask_obj] are entry indices. *)
Definition posix_acl_create_masq_entry (i : Z) (pa : posix_acl_entry)
    (st : Z * Z * option Z * option Z) : (posix_acl_entry * (Z * Z * option Z * option Z)) + Z :=
  let '(mode, not_equiv, group_obj, mask_obj) := st in
  let t := e_tag pa in
  if t =? ACL_USER_OBJ then
    let perm := u16 (e_perm pa .& ((mode .>> 6) .| Z.lnot S_IRWXO)) in
    inl (set_perm pa perm,
         (u16 (mode .& (Z.shiftl perm 6 .| Z.lnot S_IRWXU)), not_equiv, group_obj, mask_obj))
  else if (t =? ACL_USER) || (t =? ACL_GROUP) then inl (pa, (mode, 1, group_obj, mask_obj))
  else if t =? ACL_GROUP_OBJ then inl (pa, (mode, not_equiv, Some i, mask_obj))
  else if t =? ACL_OTHER then
    let perm := u16 (e_perm pa .& (mode .| Z.lnot S_IRWXO)) in
    inl (set_perm pa perm,
         (u16 (mode .& (perm .| Z.lnot S_IRWXO)), not_equiv, group_obj, mask_obj))
  else if t =? ACL_MASK then inl (pa, (mode, 1, group_obj, Some i))
  else inr (- EIO).

(** [p->e_perm &= (mode >> 3) | ~S_IRWXO; mode &= (p->e_perm << 3) | ~S_IRWXG;] *)
Definition posix_acl_create_masq_group (es : list posix_acl_entry) (mode p : Z)
    : option (list posix_acl_entry * Z) :=
  pa ← arr_get es p;
  let perm := u16 (e_perm pa .& ((mode .>> 3) .| Z.lnot S_IRWXO)) in
  es ← arr_set es p (set_perm pa perm);
  Some (es, u16 (mode .& (Z.shiftl perm 3 .| Z.lnot S_IRWXG))).

(** Visits every entry and stores it back, as the loops that write
    through [pa] do. *)
Definition foreach_acl_entry {S R} (f : Z -> posix_acl_entry -> S -> (posix_acl_entry * S) + R)
    (acl : posix_acl) (s : S) : option ((list posix_acl_entry * S) + (list posix_acl_entry * R)) :=
  c_for 0 (a_count acl) (fun i '(es, st) =>
    pa ← arr_get es i;
    match f i pa st with
    | inr e => Some (inr (es, e))
    | inl (pa', st') => es' ← arr_set es i pa'; Some (inl (es', st'))
    end) (a_entries acl, s).

(** The result is the return value, the ACL and [*mode_p]. *)
Definition posix_acl_create_masq (acl : posix_acl) (mode_p : Z) : option (Z * posix_acl * Z) :=
  r ← foreach_acl_entry posix_acl_create_masq_entry acl (mode_p, 0, None, None);
  match r with
  | inr (es, e) => Some (e, set_entries acl es, mode_p)
  | inl (es, (mode, not_equiv, group_obj, mask_obj)) =>
      match mask_obj, group_obj with
      | Some p, _ | None, Some p =>
          '(es, mode) ← posix_acl_create_masq_group es mode p;
          Some (not_equiv, set_entries acl es, u16 ((mode_p .& Z.lnot S_IRWXUGO) .| mode))
      | None, None => Some (- EIO, set_entries acl es, mode_p)
      end
  end.

Definition posix_acl_chmod_masq_entry (mode : Z) (i : Z) (pa : posix_acl_entry)
    (st : option Z * option Z) : (posix_acl_entry * (option Z * option Z)) + Z :=
  let '(group_obj, mask_obj) := st in
  let t := e_tag pa in
  if t =? ACL_USER_OBJ then inl (set_perm pa ((mode .& S_IRWXU) .>> 6), st)
  else if (t =? ACL_USER) || (t =? ACL_GROUP) then inl (pa, st)
  else if t =? ACL_GROUP_OBJ then inl (pa, (Some i, mask_obj))
  else if t =? ACL_MASK then inl (pa, (group_obj, Some i))
  else if t =? ACL_OTHER then inl (set_perm pa (mode .& S_IRWXO), st)
  else inr (- EIO).

Definition posix_acl_chmod_masq (acl : posix_acl) (mode : Z) : option (Z * posix_acl) :=
  r ← foreach_acl_entry (posix_acl_chmod_masq_entry mode) acl (None, None);
  match r with
  | inr (es, e) => Some (e, set_entries acl es)
  | inl (es, (group_obj, mask_obj)) =>
      match mask_obj, group_obj with
      | Some p, _ | None, Some p =>
          pa ← arr_get es p;
          es ← arr_set es p (set_perm pa ((mode .& S_IRWXG) .>> 3));
          Some (0, set_entries acl es)
      | None, None => Some (- EIO, set_entries acl es)
      end
  end.

(** ** Access check *)

(** What the access check asks of the caller's credentials:
    [current_fsuid()] and [in_group_p(gid)]. *)
Class Cred (C : Type) := {
  current_fsuid : C -> Z;
  cred_in_group_p : C -> Z -> bool
}.

Record inode := Inode { i_uid : Z; i_gid : Z }.

(** How the scan of the entries ends: [return e], [goto mask] or
    [goto check_perm] at the current entry. *)
Inductive acl_exit := RETURN (e : Z) | GOTO_mask (i : Z) (pa : posix_acl_entry)
  | GOTO_check_perm (pa : posix_acl_entry).

Definition granted (perm want : Z) : bool := (perm .& want) =? want.

Section permission.
Context {C} `{Cred C} (cred : C) (inode : inode) (want : Z).

Definition posix_acl_permission_entry (i : Z) (pa : posix_acl_entry) (found : bool)
    : bool + acl_exit :=
  let t := e_tag pa in
  if t =? ACL_USER_OBJ then
    if i_uid inode =? current_fsuid cred then inr (GOTO_check_perm pa) else inl found
  else if t =? ACL_USER then
    if e_id pa =? current_fsuid cred then inr (GOTO_mask i pa) else inl found
  else if t =? ACL_GROUP_OBJ then
    if cred_in_group_p cred (i_gid inode) then
      if granted (e_perm pa) want then inr (GOTO_mask i pa) else inl true
    else inl found
  else if t =? ACL_GROUP then
    if cred_in_group_p cred (e_id pa) then
      if granted (e_perm pa) want then inr (GOTO_mask i pa) else inl true
    else inl found
  else if t =? ACL_MASK then inl found
  else if t =? ACL_OTHER then
    if found then inr (RETURN (- EACCES)) else inr (GOTO_check_perm pa)
  else inr (RETURN (- EIO)).

(** The label [check_perm:]. *)
Definition posix_acl_check_perm (pa : posix_acl_entry) : Z :=
  if granted (e_perm pa) want then 0 else - EACCES.

(** The label [mask:], which falls through to [check_perm:]. *)
Definition posix_acl_check_mask (acl : posix_acl) (i : Z) (pa : posix_acl_entry) : option Z :=
  c_seq (c_for (i + 1) (a_count acl) (fun j st =>
           mask_obj ← arr_get (a_entries acl) j;
           Some (if e_tag mask_obj =? ACL_MASK
                 then inr (if granted (e_perm pa .& e_perm mask_obj) want then 0 else - EACCES)
                 else inl st)) tt)
        (fun _ => Some (posix_acl_check_perm pa)).

Definition posix_acl_permission (acl : posix_acl) : option Z :=
  r ← c_for 0 (a_count acl) (fun i found =>
        pa ← arr_get (a_entries acl) i; Some (posix_acl_permission_entry i pa found)) false;
  match r with
  | inl _ => Some (- EIO)
  | inr (RETURN e) => Some e
  | inr (GOTO_mask i pa) => posix_acl_check_mask acl i pa
  | inr (GOTO_check_perm pa) => Some (posix_acl_check_perm pa)
  end.

End permission.

(** ** Extended-attribute representation ([fs/xattr_acl.c]) *)

Definition POSIX_ACL_XATTR_VERSION : Z := 2.

Definition sizeof_xattr_header : Z := 4.
Definition sizeof_xattr_entry : Z := 8.

Definition posix_acl_xattr_size (count : Z) : Z :=
  u32 (sizeof_xattr_header + u32 (count * sizeof_xattr_entry)).

Definition posix_acl_xattr_count (size : Z) : Z :=
  if size <? sizeof_xattr_header then -1
  else
    let size := size - sizeof_xattr_header in
    if truthy (size mod sizeof_xattr_entry) then -1 else s32 (size / sizeof_xattr_entry).

Section xattr.
Variable kmalloc : Z -> option (list posix_acl_entry).

(** The loop body: one entry read at byte offset [p] of the value. *)
Definition posix_acl_from_xattr_entry (value : list Z) (p : Z) : option (posix_acl_entry + Z) :=
  tag ← get_le16 value p;
  perm ← get_le16 value (p + 2);
  let tag := s16 tag in
  if (tag =? ACL_USER_OBJ) || (tag =? ACL_GROUP_OBJ) || (tag =? ACL_MASK) || (tag =? ACL_OTHER) then
    Some (inl (Entry tag perm ACL_UNDEFINED_ID))
  else if (tag =? ACL_USER) || (tag =? ACL_GROUP) then
    id ← get_le32 value (p + 4);
    Some (inl (Entry tag perm id))
  else Some (inr (- EINVAL)).

(** [value = None] is a null pointer; [size] is the length of the value. *)
Definition posix_acl_from_xattr (value : option (list Z)) (size : Z) : option (ptr posix_acl) :=
  match value with
  | None => Some NULL
  | Some value =>
      if size <? sizeof_xattr_header then Some (ERR_PTR (- EINVAL))
      else
        version ← get_le32 value 0;
        if negb (version =? POSIX_ACL_XATTR_VERSION) then Some (ERR_PTR (- EOPNOTSUPP))
        else
          let count := posix_acl_xattr_count size in
          if count <? 0 then Some (ERR_PTR (- EINVAL))
          else if count =? 0 then Some NULL
          else
            match posix_acl_alloc kmalloc count with
            | None => Some (ERR_PTR (- ENOMEM))
            | Some acl =>
                r ← c_for 0 count (fun i es =>
                  x ← posix_acl_from_xattr_entry value (sizeof_xattr_header + sizeof_xattr_entry * i);
                  match x with
                  | inl e => es' ← arr_set es i e; Some (inl es')
                  | inr err => Some (inr err)
                  end) (a_entries acl);
                match r with
                | inl es => Some (PTR (set_entries acl es))
                | inr err => Some (ERR_PTR err)
                end
            end
  end.
End xattr.

(** [buffer = None] is a null pointer; otherwise the buffer is updated. *)
Definition posix_acl_to_xattr (acl : posix_acl) (buffer : option (list Z)) (size : Z)
    : option (Z * option (list Z)) :=
  let real_size := s32 (posix_acl_xattr_size (a_count acl)) in
  match buffer with
  | None => Some (real_size, None)
  | Some buf =>
      if size <? u32 real_size then Some (- ERANGE, Some buf)
      else
        buf ← put_le32 buf 0 POSIX_ACL_XATTR_VERSION;
        buf ← c_for_all 0 (a_count acl) (fun n buf =>
          let p := sizeof_xattr_header + sizeof_xattr_entry * n in
          e ← arr_get (a_entries acl) n;
          buf ← put_le16 buf p (u16 (e_tag e));
          buf ← put_le16 buf (p + 2) (e_perm e);
          put_le32 buf (p + 4) (e_id e)) buf;
        Some (real_size, Some buf)
  end.

(** ** What a valid ACL is

    One owner entry, named users in increasing order of id, one owning-group
    entry, named groups in increasing order of id, at most one mask, which is
    there if there are named entries, and one entry for others; permissions
    are within [rwx]. *)

Record acl_parts := Parts {
  p_user_obj : posix_acl_entry; p_users : list posix_acl_entry;
  p_group_obj : posix_acl_entry; p_groups : list posix_acl_entry;
  p_mask : option posix_acl_entry; p_other : posix_acl_entry
}.

Definition group_entries (gs : list posix_acl_entry) (mk : option posix_acl_entry) ot :=
  gs ++ option_list mk ++ [ot].

Definition parts_entries (p : acl_parts) : list posix_acl_entry :=
  p_user_obj p :: p_users p ++ p_group_obj p :: group_entries (p_groups p) (p_mask p) (p_other p).

Definition entry_ok (tag : Z) (e : posix_acl_entry) : Prop := e_tag e = tag /\ 0 <= e_perm e <= 7.

Definition named_ok (tag : Z) (es : list posix_acl_entry) : Prop :=
  Forall (fun e => entry_ok tag e /\ e_id e <> ACL_UNDEFINED_ID) es /\
  StronglySorted Z.lt (e_id <$> es).

Record parts_ok (p : acl_parts) : Prop := {
  ok_user_obj : entry_ok ACL_USER_OBJ (p_user_obj p);
  ok_users : named_ok ACL_USER (p_users p);
  ok_group_obj : entry_ok ACL_GROUP_OBJ (p_group_obj p);
  ok_groups : named_ok ACL_GROUP (p_groups p);
  ok_mask : forall m, p_mask p = Some m -> entry_ok ACL_MASK m;
  ok_other : entry_ok ACL_OTHER (p_other p);
  ok_needs_mask : p_mask p = None -> p_users p = [] /\ p_groups p = []
}.

(** Storage types of an entry, and an ACL whose count covers its storage. *)
Definition entry_typed (e : posix_acl_entry) : Prop :=
  - 2 ^ 15 <= e_tag e < 2 ^ 15 /\ 0 <= e_perm e < 2 ^ 16 /\ is_u32 (e_id e).
Definition acl_typed (acl : posix_acl) : Prop :=
  a_count acl = Z.of_nat (length (a_entries acl)) /\ Forall entry_typed (a_entries acl).

#[local] Arguments posix_acl_valid_entry : simpl never.

(** *** The automaton of [posix_acl_valid] *)

Fixpoint accepts (st : Z * Z * bool) (l : list posix_acl_entry) : Prop :=
  match l with
  | [] => st.1.1 = 0
  | e :: l => match posix_acl_valid_entry e st with inl st' => accepts st' l | inr _ => False end
  end.

Lemma posix_acl_valid_entry_err e st r : posix_acl_valid_entry e st = inr r -> r = - EINVAL.
Proof. destruct st as [[s id] nm]. unfold posix_acl_valid_entry. intros. by repeat case_match; simplify_eq. Qed.

Lemma posix_acl_valid_run acl :
  acl_typed acl ->
  (accepts (ACL_USER_OBJ, 0, false) (a_entries acl) /\ posix_acl_valid acl = Some 0) \/
  (~ accepts (ACL_USER_OBJ, 0, false) (a_entries acl) /\ posix_acl_valid acl = Some (- EINVAL)).
Proof.
  intros [Hc _]. unfold posix_acl_valid. rewrite Hc.
  rewrite (c_for_list (fun _ => posix_acl_valid_entry)) by by intros i x s ->.
  enough (forall l i st, (accepts st l /\
      c_seq (Some (list_run (fun _ => posix_acl_valid_entry) i l st))
        (fun '(state, _, _) => Some (if state =? 0 then 0 else - EINVAL)) = Some 0) \/
    (~ accepts st l /\ c_seq (Some (list_run (fun _ => posix_acl_valid_entry) i l st))
        (fun '(state, _, _) => Some (if state =? 0 then 0 else - EINVAL)) = Some (- EINVAL)))
    as H by apply H.
  induction l as [|e l IH]; intros i [[s id] nm]; simpl.
  - destruct (Z.eqb_spec s 0); [by left | by right].
  - destruct (posix_acl_valid_entry e (s, id, nm)) as [st'|r] eqn:E; [apply IH|].
    apply posix_acl_valid_entry_err in E as ->. right. split; [by intros [] | done].
Qed.

Lemma perm_bits e : entry_typed e ->
  truthy (e_perm e .& Z.lnot (ACL_READ .| ACL_WRITE .| ACL_EXECUTE)) = negb (e_perm e <=? 7).
Proof.
  intros (_ & Hp & _). change (Z.lnot _) with (Z.lnot (Z.ones 3)).
  rewrite <- Z.ldiff_land, Z.ldiff_ones_r by lia.
  rewrite Z.shiftr_div_pow2, Z.shiftl_mul_pow2 by lia. unfold truthy. f_equal.
  destruct (Z.eqb_spec (e_perm e / 2 ^ 3 * 2 ^ 3) 0), (Z.leb_spec (e_perm e) 7);
    try done; Z.div_mod_to_equations; lia.
Qed.

(** Named entries from state [(tag, lo, _)] on. *)
Fixpoint ids_from (lo : Z) (es : list posix_acl_entry) : Prop :=
  match es with
  | [] => True
  | e :: es => lo <= e_id e /\ e_id e <> ACL_UNDEFINED_ID /\ ids_from (e_id e + 1) es
  end.

Lemma ids_from_sorted lo es :
  ids_from lo es <-> Forall (fun e => lo <= e_id e /\ e_id e <> ACL_UNDEFINED_ID) es /\
    StronglySorted Z.lt (e_id <$> es).
Proof.
  revert lo. induction es as [|e es IH]; intros lo; simpl.
  - split; [intros _; split; constructor | done].
  - rewrite IH, Forall_cons_iff. split.
    + intros (Hlo & Hne & Hf & Hs). split; [split; [done|]|].
      * eapply Forall_impl; [|exact Hf]. simpl. lia.
      * constructor; [done|]. apply Forall_fmap. eapply Forall_impl; [|exact Hf]. simpl. lia.
    + intros ([[Hlo Hne] Hf] & Hs). apply StronglySorted_inv in Hs as [Hs Hlt].
      do 2 (split; [done|]). split; [|done]. change (Forall (Z.lt (e_id e)) (e_id <$> es)) in Hlt. rewrite Forall_fmap in Hlt.
      rewrite Forall_forall in *. intros x Hx. specialize (Hf x Hx). specialize (Hlt x Hx).
      simpl in *. lia.
Qed.

(** One step of the automaton in each state. *)
Ltac entry_cases :=
  match goal with
  | |- context [posix_acl_valid_entry ?e ?st] =>
      unfold posix_acl_valid_entry; rewrite perm_bits by done;
      destruct (Z.leb_spec (e_perm e) 7); simpl;
      [ destruct (Z.eqb_spec (e_tag e) ACL_USER_OBJ); simpl;
        [| destruct (Z.eqb_spec (e_tag e) ACL_USER); simpl;
         [| destruct (Z.eqb_spec (e_tag e) ACL_GROUP_OBJ); simpl;
          [| destruct (Z.eqb_spec (e_tag e) ACL_GROUP); simpl;
           [| destruct (Z.eqb_spec (e_tag e) ACL_MASK); simpl;
            [| destruct (Z.eqb_spec (e_tag e) ACL_OTHER); simpl]]]]] |]
  end.

Lemma accepts_done id nm l : Forall entry_typed l -> accepts (0, id, nm) l <-> l = [].
Proof.
  intros Hl. destruct l as [|e l]; simpl; [done|]. apply Forall_cons_iff in Hl as [He _].
  split; [|done]. entry_cases; try done; by destruct nm.
Qed.

Lemma accepts_other id nm l : Forall entry_typed l ->
  accepts (ACL_OTHER, id, nm) l <-> exists ot, l = [ot] /\ entry_ok ACL_OTHER ot.
Proof.
  intros Hl. destruct l as [|e l]; simpl.
  { split; [done | by intros (? & ? & _)]. }
  apply Forall_cons_iff in Hl as [He Hl]. split.
  - entry_cases; try done. intros ->%accepts_done; [|done]. exists e. split; [done|].
    split; [done|]. destruct He as (_ & ? & _). lia.
  - intros (ot & [= -> ->] & Ht & Hp). unfold posix_acl_valid_entry.
    rewrite perm_bits, (proj2 (Z.leb_le _ _)), Ht by (done || lia). done.
Qed.

Lemma valid_entry_ok tag e st : entry_typed e -> entry_ok tag e ->
  posix_acl_valid_entry e st =
  let '(state, id, needs_mask) := st in
  if tag =? ACL_USER_OBJ then
    if state =? ACL_USER_OBJ then inl (ACL_USER, 0, needs_mask) else inr (- EINVAL)
  else if (tag =? ACL_USER) || (tag =? ACL_GROUP) then
    if (state =? tag) && negb (e_id e =? ACL_UNDEFINED_ID) && (id <=? e_id e)
    then inl (state, e_id e + 1, true) else inr (- EINVAL)
  else if tag =? ACL_GROUP_OBJ then
    if state =? ACL_USER then inl (ACL_GROUP, 0, needs_mask) else inr (- EINVAL)
  else if tag =? ACL_MASK then
    if state =? ACL_GROUP then inl (ACL_OTHER, id, needs_mask) else inr (- EINVAL)
  else if tag =? ACL_OTHER then
    if (state =? ACL_OTHER) || ((state =? ACL_GROUP) && negb needs_mask)
    then inl (0, id, needs_mask) else inr (- EINVAL)
  else inr (- EINVAL).
Proof.
  intros He [Ht Hp]. destruct st as [[state id] nm]. unfold posix_acl_valid_entry.
  rewrite perm_bits, (proj2 (Z.leb_le _ _)), Ht by (done || lia). simpl.
  destruct He as (_ & _ & Hid). unfold is_u32 in Hid.
  rewrite Z.ltb_antisym.
  assert (e_id e <> ACL_UNDEFINED_ID -> u32 (e_id e + 1) = e_id e + 1) as Hsucc.
  { intros. apply u32_small. unfold is_u32, ACL_UNDEFINED_ID in *. lia. }
  destruct (Z.eqb_spec tag ACL_USER_OBJ); [done|].
  destruct (Z.eqb_spec tag ACL_USER) as [->|]; simpl.
  { destruct (Z.eqb_spec (e_id e) ACL_UNDEFINED_ID), (state =? ACL_USER), (id <=? e_id e); simpl;
      try rewrite Hsucc; done. }
  destruct (Z.eqb_spec tag ACL_GROUP_OBJ) as [->|]; [done|].
  destruct (Z.eqb_spec tag ACL_GROUP) as [->|]; simpl.
  { destruct (Z.eqb_spec (e_id e) ACL_UNDEFINED_ID), (state =? ACL_GROUP), (id <=? e_id e); simpl;
      try rewrite Hsucc; done. }
  destruct (tag =? ACL_MASK); [by destruct (state =? ACL_GROUP) | done].
Qed.

Lemma accepts_group lo nm l : Forall entry_typed l ->
  accepts (ACL_GROUP, lo, nm) l <-> exists gs mk ot, l = group_entries gs mk ot /\
    Forall (entry_ok ACL_GROUP) gs /\ ids_from lo gs /\
    (forall m, mk = Some m -> entry_ok ACL_MASK m) /\ entry_ok ACL_OTHER ot /\
    (mk = None -> nm = false /\ gs = []).
Proof.
  revert lo nm. induction l as [|e l IH]; intros lo nm Hl.
  { split; [done|]. intros ([|] & [|] & ot & [=] & _). }
  pose proof Hl as [He Hl']%Forall_cons_iff. assert (0 <= e_perm e) by apply He. split.
  - intros Hacc. simpl in Hacc. revert Hacc. entry_cases; try done.
    + destruct (Z.eqb_spec (e_id e) ACL_UNDEFINED_ID), (Z.ltb_spec (e_id e) lo); try done.
      simpl. rewrite u32_small by (destruct He as (_ & _ & ?); unfold is_u32, ACL_UNDEFINED_ID in *; lia).
      intros (gs & mk & ot & -> & Hgs & Hids & Hmk & Hot & Hn)%IH; [|done].
      exists (e :: gs), mk, ot. split; [done|]. split; [by constructor|].
      split; [by split|]. do 2 (split; [done|]). intros Hnone. by destruct (Hn Hnone).
    + intros (ot & -> & Hot)%accepts_other; [|done]. exists [], (Some e), ot.
      do 3 (split; [done|]). split; [|done]. by intros m [= <-].
    + destruct nm; [done|]. simpl. intros ->%accepts_done; [|done]. by exists [], None, e.
  - intros (gs & mk & ot & E & Hgs & Hids & Hmk & Hot & Hn). simpl.
    destruct gs as [|g gs]; simpl in E.
    + destruct mk as [m|]; simpl in E; injection E as -> ->.
      * rewrite (valid_entry_ok ACL_MASK) by auto. change (accepts (ACL_OTHER, lo, nm) [ot]).
        apply accepts_other; [done|]. by exists ot.
      * destruct (Hn eq_refl) as [-> _]. rewrite (valid_entry_ok ACL_OTHER) by auto. done.
    + injection E as -> ->. destruct Hids as (Hlo & Hne & Hids).
      apply Forall_cons_iff in Hgs as [Hg Hgs].
      rewrite (valid_entry_ok ACL_GROUP) by auto. simpl.
      rewrite (proj2 (Z.eqb_neq _ _)), (proj2 (Z.leb_le _ _)) by done. simpl.
      apply IH; [done|]. exists gs, mk, ot. repeat (split; [done|]).
      intros Hnone. by destruct (Hn Hnone).
Qed.

Lemma accepts_user lo nm l : Forall entry_typed l ->
  accepts (ACL_USER, lo, nm) l <-> exists us go gs mk ot,
    l = us ++ go :: group_entries gs mk ot /\
    Forall (entry_ok ACL_USER) us /\ ids_from lo us /\ entry_ok ACL_GROUP_OBJ go /\
    Forall (entry_ok ACL_GROUP) gs /\ ids_from 0 gs /\
    (forall m, mk = Some m -> entry_ok ACL_MASK m) /\ entry_ok ACL_OTHER ot /\
    (mk = None -> nm = false /\ us = [] /\ gs = []).
Proof.
  revert lo nm. induction l as [|e l IH]; intros lo nm Hl.
  { split; [done|]. intros ([|] & go & gs & mk & ot & [=] & _). }
  pose proof Hl as [He Hl']%Forall_cons_iff. assert (0 <= e_perm e) by apply He. split.
  - intros Hacc. simpl in Hacc. revert Hacc. entry_cases; try done.
    + destruct (Z.eqb_spec (e_id e) ACL_UNDEFINED_ID), (Z.ltb_spec (e_id e) lo); try done.
      simpl. rewrite u32_small by (destruct He as (_ & _ & ?); unfold is_u32, ACL_UNDEFINED_ID in *; lia).
      intros (us & go & gs & mk & ot & -> & Hus & Hids & Hgo & Hgs & Hgids & Hmk & Hot & Hn)%IH; [|done].
      exists (e :: us), go, gs, mk, ot. split; [done|]. split; [by constructor|].
      split; [by split|]. do 5 (split; [done|]). intros Hnone. by destruct (Hn Hnone).
    + intros (gs & mk & ot & -> & Hgs & Hids & Hmk & Hot & Hn)%accepts_group; [|done].
      exists [], e, gs, mk, ot. do 8 (split; [done|]). intros Hnone. by destruct (Hn Hnone).
  - intros (us & go & gs & mk & ot & E & Hus & Hids & Hgo & Hgs & Hgids & Hmk & Hot & Hn). simpl.
    destruct us as [|u us]; simpl in E; injection E as -> ->.
    + rewrite (valid_entry_ok ACL_GROUP_OBJ) by auto. simpl. apply accepts_group; [done|].
      exists gs, mk, ot. repeat (split; [done|]). intros Hnone. by destruct (Hn Hnone) as (? & _ & ?).
    + destruct Hids as (Hlo & Hne & Hids). apply Forall_cons_iff in Hus as [Hu Hus].
      rewrite (valid_entry_ok ACL_USER) by auto. simpl.
      rewrite (proj2 (Z.eqb_neq _ _)), (proj2 (Z.leb_le _ _)) by done. simpl.
      apply IH; [done|]. exists us, go, gs, mk, ot. repeat (split; [done|]).
      intros Hnone. by destruct (Hn Hnone) as (_ & ? & _).
Qed.

Lemma named_ok_ids tag es : Forall entry_typed es ->
  named_ok tag es <-> Forall (entry_ok tag) es /\ ids_from 0 es.
Proof.
  intros Ht. unfold named_ok. rewrite ids_from_sorted. rewrite !Forall_forall in *.
  split.
  - intros [H Hs]. split; [intros e He; apply H; done|]. split; [|done].
    intros e He. split; [apply (Ht e He) | apply H; done].
  - intros (H & H' & Hs). split; [|done]. intros e He. split; [by apply H | apply H'; done].
Qed.

Lemma posix_acl_valid_ok acl : acl_typed acl ->
  posix_acl_valid acl = Some 0 <-> exists p, a_entries acl = parts_entries p /\ parts_ok p.
Proof.
  intros Hacl. pose proof Hacl as [_ Ht].
  assert (posix_acl_valid acl = Some 0 <-> accepts (ACL_USER_OBJ, 0, false) (a_entries acl)) as ->.
  { destruct (posix_acl_valid_run acl Hacl) as [[? ->]|[? ->]]; split; done. }
  destruct (a_entries acl) as [|e l].
  { split; [done|]. by intros (p & [=] & _). }
  apply Forall_cons_iff in Ht as [He Hl]. assert (0 <= e_perm e) by apply He. split.
  - intros Hacc. simpl in Hacc. revert Hacc. entry_cases; try done.
    intros (us & go & gs & mk & ot & -> & Hus & Hids & Hgo & Hgs & Hgids & Hmk & Hot & Hn)%accepts_user;
      [|done].
    exists (Parts e us go gs mk ot). split; [done|].
    apply Forall_app in Hl as [Hus' [_ Hg']%Forall_cons_iff].
    apply Forall_app in Hg' as [Hgs' _].
    split; simpl; try done; [by apply named_ok_ids | by apply named_ok_ids |].
    intros Hnone. by destruct (Hn Hnone) as (_ & ? & ?).
  - intros ([uo us go gs mk ot] & E & [Huo Hus Hgo Hgs Hmk Hot Hn]). simpl in *.
    injection E as -> ->. apply Forall_app in Hl as [Hus' Hl].
    pose proof Hl as [_ Hg']%Forall_cons_iff. apply Forall_app in Hg' as [Hgs' _].
    apply named_ok_ids in Hus as [Hus Huids]; [|done]. apply named_ok_ids in Hgs as [Hgs Hgids]; [|done].
    simpl. rewrite (valid_entry_ok ACL_USER_OBJ) by auto. simpl.
    apply accepts_user; [by apply Forall_app|]. exists us, go, gs, mk, ot.
    do 8 (split; [done|]). intros Hnone. split; [done|]. by apply Hn.
Qed.

(** ** The access check on a valid ACL *)

(** The POSIX 1003.1e access check algorithm on the parts of an ACL: the
    owner is checked against the owner entry; a user with a named entry
    against that entry; a member of one of the groups against the entries of
    its groups, one of which must grant the whole request; everybody else
    against the entry for others.  Named and group entries are limited by the
    mask. *)

Section access_spec.
Context (fsuid : Z) (in_group : Z -> bool) (inode : inode) (want : Z) (p : acl_parts).

Definition effective (e : posix_acl_entry) : bool :=
  granted (match p_mask p with Some m => e_perm e .& e_perm m | None => e_perm e end) want.

Definition acl_access : bool :=
  if i_uid inode =? fsuid then granted (e_perm (p_user_obj p)) want
  else if existsb (fun e => e_id e =? fsuid) (p_users p) then
    existsb (fun e => (e_id e =? fsuid) && effective e) (p_users p)
  else if in_group (i_gid inode) || existsb (fun e => in_group (e_id e)) (p_groups p) then
    (in_group (i_gid inode) && effective (p_group_obj p)) ||
    existsb (fun e => in_group (e_id e) && effective e) (p_groups p)
  else granted (e_perm (p_other p)) want.
End access_spec.

Lemma list_run_app {A S R} (f : Z -> A -> S -> S + R) i l1 l2 s :
  list_run f i (l1 ++ l2) s =
  match list_run f i l1 s with
  | inl s' => list_run f (i + Z.of_nat (length l1)) l2 s'
  | inr r => inr r
  end.
Proof.
  revert i s. induction l1 as [|x l1 IH]; intros i s; simpl; [f_equal; lia|].
  destruct (f i x s) as [s'|r]; [|done]. rewrite IH. destruct (list_run f _ l1 s'); [f_equal; lia | done].
Qed.

Lemma granted_land a b want : granted (a .& b) want = granted a want && granted b want.
Proof.
  unfold granted. apply eq_iff_eq_true. rewrite andb_true_iff, !Z.eqb_eq. split.
  - intros E. split; rewrite <- E at 2.
    + apply Z.bits_inj'. intros i Hi. rewrite <- E, !Z.land_spec. btauto.
    + apply Z.bits_inj'. intros i Hi. rewrite <- E, !Z.land_spec. btauto.
  - intros [Ea Eb]. by rewrite <- Z.land_assoc, Eb.
Qed.

Section permission_proof.
Context {C} `{Cred C} (cred : C) (inode : inode) (want : Z).

Local Abbreviation step := (posix_acl_permission_entry cred inode want).
#[local] Arguments posix_acl_permission_entry : simpl never.

Lemma run_users us i found : Forall (fun e => e_tag e = ACL_USER) us ->
  (exists l1 e l2, us = l1 ++ e :: l2 /\ e_id e = current_fsuid cred /\
     list_run step i us found = inr (GOTO_mask (i + Z.of_nat (length l1)) e)) \/
  (existsb (fun e => e_id e =? current_fsuid cred) us = false /\ list_run step i us found = inl found).
Proof.
  revert i. induction us as [|e us IH]; intros i Ht; [by right|].
  apply Forall_cons_iff in Ht as [He Ht]. simpl. unfold posix_acl_permission_entry at 1 3.
  rewrite He. simpl. destruct (Z.eqb_spec (e_id e) (current_fsuid cred)).
  - left. exists [], e, us. split; [done|]. split; [done|]. simpl. do 2 f_equal. lia.
  - destruct (IH (i + 1) Ht) as [(l1 & x & l2 & -> & Hx & ->)|[-> ->]]; [left | by right].
    exists (e :: l1), x, l2. split; [done|]. split; [done|]. simpl. do 2 f_equal. lia.
Qed.

Lemma run_groups gs i found : Forall (fun e => e_tag e = ACL_GROUP) gs ->
  (exists l1 e l2, gs = l1 ++ e :: l2 /\ cred_in_group_p cred (e_id e) = true /\
     granted (e_perm e) want = true /\
     list_run step i gs found = inr (GOTO_mask (i + Z.of_nat (length l1)) e)) \/
  (Forall (fun e => cred_in_group_p cred (e_id e) = true -> granted (e_perm e) want = false) gs /\
   list_run step i gs found = inl (found || existsb (fun e => cred_in_group_p cred (e_id e)) gs)).
Proof.
  revert i found. induction gs as [|e gs IH]; intros i found Ht; [right; split; [done | by rewrite orb_false_r]|].
  apply Forall_cons_iff in Ht as [He Ht]. simpl. unfold posix_acl_permission_entry at 1 3.
  rewrite He. simpl. destruct (cred_in_group_p cred (e_id e)) eqn:Eg.
  1: destruct (granted (e_perm e) want) eqn:Ew.
  - left. exists [], e, gs. do 3 (split; [done|]). simpl. do 2 f_equal. lia.
  - destruct (IH (i + 1) true Ht) as [(l1 & x & l2 & -> & Hx & Hw & ->)|[Hf ->]]; [left | right].
    + exists (e :: l1), x, l2. do 3 (split; [done|]). simpl. do 2 f_equal. lia.
    + split; [by constructor | simpl; by rewrite orb_true_r].
  - destruct (IH (i + 1) found Ht) as [(l1 & x & l2 & -> & Hx & Hw & ->)|[Hf ->]]; [left | right].
    + exists (e :: l1), x, l2. do 3 (split; [done|]). simpl. do 2 f_equal. lia.
    + split; [constructor; [congruence | done] | done].
Qed.

(** The loop at [mask:] finds the first mask entry after [pa]. *)
Lemma check_mask_ok acl pre pa suf : acl_typed acl -> a_entries acl = pre ++ pa :: suf ->
  posix_acl_check_mask want acl (Z.of_nat (length pre)) pa =
  Some (if granted (match find (fun e => e_tag e =? ACL_MASK) suf with
                    | Some m => e_perm pa .& e_perm m | None => e_perm pa end) want
        then 0 else - EACCES).
Proof.
  intros [Hc _] E. unfold posix_acl_check_mask. rewrite Hc.
  replace (pre ++ pa :: suf) with ((pre ++ [pa]) ++ suf) in E by by rewrite <- app_assoc.
  rewrite E. replace (Z.of_nat (length pre) + 1) with (Z.of_nat (length (pre ++ [pa])))
    by (rewrite length_app; simpl; lia).
  rewrite (c_for_list_from (fun _ m st => if e_tag m =? ACL_MASK
    then inr (if granted (e_perm pa .& e_perm m) want then 0 else - EACCES) else inl st))
    by by intros i x s ->.
  generalize (Z.of_nat (length (pre ++ [pa]))). clear. induction suf as [|m suf IH]; intros i; [done|].
  simpl. destruct (e_tag m =? ACL_MASK); [done | apply IH].
Qed.
End permission_proof.

Lemma find_mask p l : parts_ok p -> Forall (fun e => e_tag e <> ACL_MASK) l ->
  find (fun e => e_tag e =? ACL_MASK) (l ++ option_list (p_mask p) ++ [p_other p]) = p_mask p.
Proof.
  intros Hp Hl. induction l as [|e l IH]; simpl.
  - destruct (p_mask p) as [m|] eqn:Em; simpl.
    + by destruct (ok_mask p Hp m Em) as [-> _].
    + by destruct (ok_other p Hp) as [-> _].
  - apply Forall_cons_iff in Hl as [He Hl]. rewrite (proj2 (Z.eqb_neq _ _)) by done. by apply IH.
Qed.

Lemma named_tags tag es : named_ok tag es -> Forall (fun e => e_tag e = tag) es.
Proof. intros [H _]. eapply Forall_impl; [|exact H]. by intros e [[? _] _]. Qed.

Lemma tags_not_mask tag es : tag <> ACL_MASK -> Forall (fun e => e_tag e = tag) es ->
  Forall (fun e => e_tag e <> ACL_MASK) es.
Proof. intros Hne H. eapply Forall_impl; [|exact H]. simpl. congruence. Qed.

(** Ids of named entries are distinct. *)
Lemma existsb_named tag l1 e l2 id (Q : posix_acl_entry -> bool) :
  named_ok tag (l1 ++ e :: l2) -> e_id e = id ->
  existsb (fun x => (e_id x =? id) && Q x) (l1 ++ e :: l2) = Q e.
Proof.
  intros [_ Hs] <-. rewrite existsb_app. simpl. rewrite Z.eqb_refl. simpl.
  rewrite fmap_app in Hs. simpl in Hs.
  assert (forall l, Forall (fun x => e_id x <> e_id e) l ->
    existsb (fun x => (e_id x =? e_id e) && Q x) l = false) as Hno.
  { intros l Hl. induction Hl as [|x l Hx Hl IH]; [done|]. simpl.
    by rewrite IH, (proj2 (Z.eqb_neq _ _)) by done. }
  rewrite !Hno; [by rewrite orb_false_r | |].
  - apply StronglySorted_app_1_r in Hs. apply StronglySorted_inv in Hs as [_ Hs].
    change (Forall (Z.lt (e_id e)) (e_id <$> l2)) in Hs. rewrite Forall_fmap in Hs.
    eapply Forall_impl; [|exact Hs]. simpl. lia.
  - rewrite Forall_forall. intros x Hx.
    assert (e_id x < e_id e); [|lia]. apply (StronglySorted_app_1_elem_of Z.lt _ _ _ _ Hs).
    + apply list_elem_of_fmap. exists x. split; [done|]. by apply list_elem_of_In.
    + left.
Qed.

Section permission_main.
Context {C} `{Cred C} (cred : C) (inode : inode) (want : Z).
#[local] Arguments posix_acl_permission_entry : simpl never.

Lemma effective_granted p e : effective want p e = granted (e_perm e) want &&
  match p_mask p with Some m => granted (e_perm m) want | None => true end.
Proof.
  unfold effective. destruct (p_mask p); [apply granted_land | by rewrite andb_true_r].
Qed.

(** All entries are limited by the same mask. *)
Lemma not_effective p e x :
  granted (e_perm e) want = true -> effective want p e = false -> effective want p x = false.
Proof. rewrite !effective_granted. intros ->. simpl. intros ->. apply andb_false_r. Qed.

Lemma existsb_false {A} (f : A -> bool) l : Forall (fun x => f x = false) l -> existsb f l = false.
Proof. induction 1 as [|x l Hx _ IH]; [done|]. simpl. by rewrite Hx, IH. Qed.

(** The part of the scan after the named users. *)
Lemma run_group_entries p i found :
  parts_ok p ->
  (exists l1 e l2, p_groups p = l1 ++ e :: l2 /\ cred_in_group_p cred (e_id e) = true /\
     granted (e_perm e) want = true /\
     list_run (posix_acl_permission_entry cred inode want) i
       (group_entries (p_groups p) (p_mask p) (p_other p)) found =
     inr (GOTO_mask (i + Z.of_nat (length l1)) e)) \/
  (Forall (fun e => cred_in_group_p cred (e_id e) = true -> granted (e_perm e) want = false) (p_groups p) /\
   list_run (posix_acl_permission_entry cred inode want) i
     (group_entries (p_groups p) (p_mask p) (p_other p)) found =
   inr (if found || existsb (fun e => cred_in_group_p cred (e_id e)) (p_groups p)
        then RETURN (- EACCES) else GOTO_check_perm (p_other p))).
Proof.
  intros Hp. unfold group_entries. rewrite list_run_app.
  destruct (run_groups cred inode want (p_groups p) i found (named_tags _ _ (ok_groups p Hp)))
    as [(l1 & e & l2 & El & Hin & Hw & ->)|[Hf ->]].
  - left. by exists l1, e, l2.
  - right. split; [done|]. destruct (ok_other p Hp) as [Hot _].
    assert (forall i b, list_run (posix_acl_permission_entry cred inode want) i [p_other p] b =
      inr (if b then RETURN (- EACCES) else GOTO_check_perm (p_other p))) as Hlast.
    { intros j b. simpl. unfold posix_acl_permission_entry. rewrite Hot. simpl. by destruct b. }
    destruct (p_mask p) as [m|] eqn:Em; [|apply Hlast].
    destruct (ok_mask p Hp m Em) as [Hm _].
    simpl option_list. rewrite list_run_app. simpl list_run at 1.
    unfold posix_acl_permission_entry at 1. rewrite Hm. apply Hlast.
Qed.

Lemma posix_acl_permission_ok acl p :
  acl_typed acl -> a_entries acl = parts_entries p -> parts_ok p ->
  posix_acl_permission cred inode want acl =
  Some (if acl_access (current_fsuid cred) (cred_in_group_p cred) inode want p then 0 else - EACCES).
Proof.
  intros Ht E Hp. pose proof Ht as [Hc _]. unfold posix_acl_permission. rewrite Hc.
  rewrite (c_for_list (posix_acl_permission_entry cred inode want)) by by intros i x s ->.
  rewrite E. pose proof (check_mask_ok want acl) as Hmask. rewrite E in Hmask.
  pose proof (named_tags _ _ (ok_users p Hp)) as Hus. pose proof (named_tags _ _ (ok_groups p Hp)) as Hgs.
  destruct (ok_user_obj p Hp) as [Huo _], (ok_group_obj p Hp) as [Hgo _], (ok_other p Hp) as [Hot _].
  unfold parts_entries, acl_access in *. simpl.
  unfold posix_acl_permission_entry at 1. rewrite Huo. simpl.
  destruct (i_uid inode =? current_fsuid cred); [done|].
  rewrite list_run_app. change (0 + 1) with 1.
  assert (forall pre e suf i, i = Z.of_nat (length pre) ->
    parts_entries p = pre ++ e :: suf ++ option_list (p_mask p) ++ [p_other p] ->
    Forall (fun e => e_tag e <> ACL_MASK) suf ->
    posix_acl_check_mask want acl i e = Some (if effective want p e then 0 else - EACCES)) as Hck.
  { intros pre e suf i -> Epre Hsuf. rewrite (Hmask pre e _ Ht Epre). by rewrite find_mask. }
  clear Hmask. unfold parts_entries, group_entries in Hck.
  pose proof (tags_not_mask ACL_GROUP _ ltac:(done) Hgs) as Hgs'.
  pose proof (tags_not_mask ACL_USER _ ltac:(done) Hus) as Hus'.
  destruct (run_users cred inode want (p_users p) 1 false Hus)
    as [(l1 & e & l2 & El & Hid & ->)|[Hno ->]].
  { (* a named user *)
    rewrite (proj2 (existsb_exists _ _)).
    2:{ exists e. rewrite El. split; [apply in_app_iff; right; by left | by apply Z.eqb_eq]. }
    pose proof (ok_users p Hp) as Hok. rewrite El in Hok, Hus' |- *.
    rewrite (existsb_named ACL_USER) by done.
    apply (Hck (p_user_obj p :: l1) e (l2 ++ p_group_obj p :: p_groups p)).
    - simpl. lia.
    - rewrite El. simpl. by rewrite <- !app_assoc.
    - apply Forall_app in Hus' as [_ [_ ?]%Forall_cons_iff]. apply Forall_app. split; [done|].
      constructor; [by rewrite Hgo | done]. }
  rewrite Hno. simpl. unfold posix_acl_permission_entry at 1. rewrite Hgo. simpl.
  destruct (cred_in_group_p cred (i_gid inode) && granted (e_perm (p_group_obj p)) want) eqn:Ego.
  { (* the owning group grants the request *)
    apply andb_true_iff in Ego as [-> Hw]. rewrite Hw. simpl.
    rewrite (Hck (p_user_obj p :: p_users p) (p_group_obj p) (p_groups p)) by (done || simpl; lia).
    destruct (effective want p (p_group_obj p)) eqn:Ee; [done|]. simpl.
    rewrite existsb_false; [done|]. apply Forall_forall. intros x _.
    rewrite (not_effective p (p_group_obj p) x Hw Ee). apply andb_false_r. }
  assert (cred_in_group_p cred (i_gid inode) && effective want p (p_group_obj p) = false) as Hgo'.
  { rewrite effective_granted. by rewrite andb_assoc, Ego. }
  rewrite Hgo'. simpl.
  replace (if cred_in_group_p cred (i_gid inode) then _ else _)
    with (@inl bool acl_exit (cred_in_group_p cred (i_gid inode))).
  2:{ destruct (cred_in_group_p cred (i_gid inode)); [|done]. simpl in Ego. by rewrite Ego. }
  destruct (run_group_entries p (1 + Z.of_nat (length (p_users p)) + 1)
    (cred_in_group_p cred (i_gid inode)) Hp) as [(l1 & e & l2 & El & Hin & Hw & ->)|[Hf ->]].
  - (* an entry of a named group grants the request *)
    rewrite (Hck (p_user_obj p :: p_users p ++ p_group_obj p :: l1) e l2).
    2:{ simpl. rewrite length_app. simpl. lia. }
    2:{ rewrite El. simpl. by rewrite <- !app_assoc. }
    2:{ rewrite El in Hgs'. by apply Forall_app in Hgs' as [_ [_ ?]%Forall_cons_iff]. }
    assert (In e (p_groups p)) as Hine by (rewrite El; apply in_app_iff; right; by left).
    rewrite (proj2 (existsb_exists (fun e => cred_in_group_p cred (e_id e)) _)) by by exists e.
    rewrite orb_true_r. destruct (effective want p e) eqn:Ee.
    + rewrite (proj2 (existsb_exists _ _)); [done|]. exists e. by rewrite Hin, Ee.
    + rewrite existsb_false; [done|]. apply Forall_forall. intros x _.
      rewrite (not_effective p e x Hw Ee). apply andb_false_r.
  - rewrite (existsb_false (fun e => cred_in_group_p cred (e_id e) && effective want p e)).
    + by destruct (cred_in_group_p cred (i_gid inode) || existsb (fun e => cred_in_group_p cred (e_id e)) (p_groups p)).
    + eapply Forall_impl; [|exact Hf]. simpl. intros x Hx. rewrite effective_granted.
      destruct (cred_in_group_p cred (e_id x)); [by rewrite Hx | done].
Qed.
End permission_main.

(** ** Mode bits of a valid ACL *)

(** The permissions that the group class bits of the mode stand for. *)
Definition group_class (p : acl_parts) : posix_acl_entry :=
  match p_mask p with Some m => m | None => p_group_obj p end.

Definition acl_mode (p : acl_parts) : Z :=
  Z.shiftl (e_perm (p_user_obj p)) 6 .| Z.shiftl (e_perm (group_class p)) 3 .| e_perm (p_other p).

(** [p] with other permissions for the owner, the group class and others. *)
Definition with_perms (p : acl_parts) (u g o : Z) : acl_parts :=
  Parts (set_perm (p_user_obj p) u) (p_users p)
    (match p_mask p with None => set_perm (p_group_obj p) g | Some _ => p_group_obj p end)
    (p_groups p) (option_map (fun m => set_perm m g) (p_mask p)) (set_perm (p_other p) o).

Lemma with_perms_ok p u g o : 0 <= u <= 7 -> 0 <= g <= 7 -> 0 <= o <= 7 ->
  parts_ok p -> parts_ok (with_perms p u g o).
Proof.
  intros Hu Hg Ho [[? ?] ? [? ?] ? Hm [? ?] Hn]. split; simpl; try done.
  - destruct (p_mask p); done.
  - intros m. destruct (p_mask p) as [m'|] eqn:E; [|done]. simpl. intros [= <-].
    by destruct (Hm m' eq_refl).
  - destruct (p_mask p); [done | auto].
Qed.

Lemma with_perms_mode p u g o :
  acl_mode (with_perms p u g o) = Z.shiftl u 6 .| Z.shiftl g 3 .| o.
Proof. unfold acl_mode, group_class. simpl. by destruct (p_mask p). Qed.

(** Equality of 16-bit values bit by bit, with the bit index made concrete. *)
Lemma u16_ext x y : 0 <= x < 2 ^ 16 -> 0 <= y < 2 ^ 16 ->
  (forall i, 0 <= i < 16 -> Z.testbit x i = Z.testbit y i) -> x = y.
Proof.
  intros Hx Hy H. apply Z.bits_inj'. intros i Hi. destruct (Z.lt_ge_cases i 16); [apply H; lia|].
  by rewrite !(testbit_above _ 16) by lia.
Qed.

Lemma u16_range x : 0 <= u16 x < 2 ^ 16.
Proof. apply Z.mod_pos_bound. lia. Qed.

Lemma testbit_u16 x i : 0 <= i < 16 -> Z.testbit (u16 x) i = Z.testbit x i.
Proof. intros. apply Z.mod_pow2_bits_low. lia. Qed.

Lemma perm_high x i : 0 <= x <= 7 -> 3 <= i -> Z.testbit x i = false.
Proof. intros. apply (testbit_above x 3); lia. Qed.

Ltac bit_cases i Hi :=
  let H := fresh in
  assert (i = 0 \/ i = 1 \/ i = 2 \/ i = 3 \/ i = 4 \/ i = 5 \/ i = 6 \/ i = 7 \/ i = 8 \/ i = 9 \/
    i = 10 \/ i = 11 \/ i = 12 \/ i = 13 \/ i = 14 \/ i = 15) as H by lia; clear Hi;
  repeat destruct H as [->|H]; [.. | subst i].

Ltac mode_bits :=
  change S_IRWXUGO with 0x1ff; unfold S_IRWXU, S_IRWXG, S_IRWXO;
  repeat match goal with
    | |- context [Z.testbit ?x (?a - ?b)] => let j := eval vm_compute in (a - b) in change (a - b) with j
    | |- context [Z.testbit ?x (?a + ?b)] => let j := eval vm_compute in (a + b) in change (a + b) with j
    | |- context [Z.testbit ?x (Zneg ?p)] => rewrite (Z.testbit_neg_r x (Zneg p)) by lia
    | |- context [Z.testbit (u16 ?x) ?i] => rewrite (testbit_u16 x i) by lia
    | |- context [Z.testbit (Z.lor ?x ?y) ?i] => rewrite (Z.lor_spec x y i)
    | |- context [Z.testbit (Z.land ?x ?y) ?i] => rewrite (Z.land_spec x y i)
    | |- context [Z.testbit (Z.lnot ?x) ?i] => rewrite (Z.lnot_spec x i) by lia
    | |- context [Z.testbit (Z.shiftl ?x ?n) ?i] => rewrite (Z.shiftl_spec x n i) by lia
    | |- context [Z.testbit (Z.shiftr ?x ?n) ?i] => rewrite (Z.shiftr_spec x n i) by lia
    | |- context [Z.testbit 0 ?i] => rewrite (Z.bits_0 i)
    | |- context [Z.testbit (Zpos ?p) ?i] =>
        let b := eval vm_compute in (Z.testbit (Zpos p) i) in change (Z.testbit (Zpos p) i) with b
    | H : 0 <= ?x <= 7 |- context [Z.testbit ?x (Zpos ?p)] => rewrite (perm_high x (Zpos p) H) by lia
    end;
  btauto.

#[local] Arguments posix_acl_equiv_mode_entry : simpl never.
#[local] Arguments posix_acl_create_masq_entry : simpl never.
#[local] Arguments posix_acl_chmod_masq_entry : simpl never.

(** Evaluates one step [t] of a loop on an entry with a known tag [H]. *)
Ltac entry_step f t H :=
  let v := fresh "v" in let E := fresh "E" in
  remember t as v eqn:E; unfold f in E; rewrite H in E; simpl in E; subst v.
Ltac equiv_step e H :=
  match goal with |- context [posix_acl_equiv_mode_entry e ?st] =>
    entry_step posix_acl_equiv_mode_entry (posix_acl_equiv_mode_entry e st) H end.

Ltac solve_mode :=
  let i := fresh "i" in let Hi := fresh "Hi" in
  apply u16_ext; [apply u16_range.. |]; intros i Hi; bit_cases i Hi; mode_bits.

Lemma equiv_named l mode ne i :
  Forall (fun e => e_tag e = ACL_USER) l \/ Forall (fun e => e_tag e = ACL_GROUP) l ->
  list_run (fun _ => posix_acl_equiv_mode_entry) i l (mode, ne) =
  inl (mode, match l with [] => ne | _ => 1 end).
Proof.
  intros Hl. revert i ne. induction l as [|e l IH]; intros i ne; [done|]. simpl.
  assert (e_tag e = ACL_USER \/ e_tag e = ACL_GROUP) as He.
  { destruct Hl as [Hl|Hl]; apply Forall_cons_iff in Hl as [? _]; auto. }
  replace (posix_acl_equiv_mode_entry e (mode, ne)) with (@inl (Z * Z) Z (mode, 1)).
  - rewrite IH; [by destruct l|].
    destruct Hl as [Hl|Hl]; apply Forall_cons_iff in Hl as [_ ?]; auto.
  - unfold posix_acl_equiv_mode_entry. by destruct He as [-> | ->].
Qed.

Lemma posix_acl_equiv_mode_ok acl p m :
  acl_typed acl -> a_entries acl = parts_entries p -> parts_ok p ->
  posix_acl_equiv_mode acl (Some m) =
  Some (match p_mask p with Some _ => 1 | None => 0 end,
        Some (u16 ((m .& Z.lnot S_IRWXUGO) .| acl_mode p))).
Proof.
  intros [Hc _] E Hp. unfold posix_acl_equiv_mode. rewrite Hc.
  rewrite (c_for_list (fun _ => posix_acl_equiv_mode_entry)) by by intros i x s ->. rewrite E.
  pose proof (named_tags _ _ (ok_users p Hp)) as Hus. pose proof (named_tags _ _ (ok_groups p Hp)) as Hgs.
  destruct p as [uo us go gs mk ot], Hp as [[Huo Pu] _ [Hgo Pg] _ Hm [Hot Po] Hn]. simpl in *.
  equiv_step uo Huo.
  rewrite list_run_app, equiv_named by auto. simpl.
  equiv_step go Hgo.
  unfold group_entries. rewrite list_run_app, equiv_named by auto. unfold acl_mode, group_class. simpl.
  destruct mk as [mk|]; simpl.
  - destruct (Hm mk eq_refl) as [Hmt Pm]. equiv_step mk Hmt. equiv_step ot Hot. simpl. do 3 f_equal. solve_mode.
  - destruct (Hn eq_refl) as [-> ->]. equiv_step ot Hot. simpl.
    do 3 f_equal. solve_mode.
Qed.

(** The arithmetic of [posix_acl_create_masq]: [m1] and [m2] are [mode] after
    the owner entry and after the entry for others. *)
Section create_modes.
Context (mode pu pg po : Z) (Hm : 0 <= mode < 2 ^ 16).
Context (Pu : 0 <= pu <= 7) (Pg : 0 <= pg <= 7) (Po : 0 <= po <= 7).

Definition create_m1 := u16 (mode .& (Z.shiftl (pu .& (mode .>> 6)) 6 .| Z.lnot S_IRWXU)).
Definition create_m2 := u16 (create_m1 .& ((po .& mode) .| Z.lnot S_IRWXO)).

Lemma masq_perm q x : 0 <= q <= 7 -> u16 (q .& (x .| Z.lnot S_IRWXO)) = q .& x.
Proof.
  intros Hq. pose proof (land_le_l q x ltac:(lia)).
  apply u16_ext; [apply u16_range | lia |]. intros i Hi. bit_cases i Hi. all: mode_bits.
Qed.

Lemma create_m1_other : po .& create_m1 = po .& mode.
Proof.
  pose proof (land_le_l po mode ltac:(lia)). pose proof (land_le_l po create_m1 ltac:(lia)).
  unfold create_m1 in *. apply u16_ext; [lia | lia |]. intros i Hi. bit_cases i Hi. all: mode_bits.
Qed.

Lemma create_m2_group : pg .& (create_m2 .>> 3) = pg .& (mode .>> 3).
Proof.
  pose proof (land_le_l pg (mode .>> 3) ltac:(lia)). pose proof (land_le_l pg (create_m2 .>> 3) ltac:(lia)).
  unfold create_m2, create_m1 in *. apply u16_ext; [lia | lia |].
  intros i Hi. bit_cases i Hi. all: mode_bits.
Qed.

Lemma create_mode_final :
  u16 ((mode .& Z.lnot S_IRWXUGO) .|
       u16 (create_m2 .& (Z.shiftl (pg .& (mode .>> 3)) 3 .| Z.lnot S_IRWXG))) =
  mode .& (Z.lnot S_IRWXUGO .| (Z.shiftl pu 6 .| Z.shiftl pg 3 .| po)).
Proof.
  pose proof (land_le_l mode (Z.lnot S_IRWXUGO .| (Z.shiftl pu 6 .| Z.shiftl pg 3 .| po)) ltac:(lia)).
  unfold create_m2, create_m1. apply u16_ext; [apply u16_range | lia |].
  intros i Hi. bit_cases i Hi. all: mode_bits.
Qed.
End create_modes.

(** *** Loops that write the entries *)

Lemma map_run_app {A S R} (f : Z -> A -> S -> (A * S) + R) i l1 l2 s :
  map_run f i (l1 ++ l2) s =
  match map_run f i l1 s with
  | inl (l1', s') =>
      match map_run f (i + Z.of_nat (length l1)) l2 s' with
      | inl (l2', s'') => inl (l1' ++ l2', s'')
      | inr (l2', r) => inr (l1' ++ l2', r)
      end
  | inr (l1', r) => inr (l1' ++ l2, r)
  end.
Proof.
  revert i s. induction l1 as [|x l1 IH]; intros i s; simpl.
  - rewrite Z.add_0_r. by destruct (map_run f i l2 s) as [[]|[]].
  - destruct (f i x s) as [[x' s']|r]; [|done]. rewrite IH.
    destruct (map_run f (i + 1) l1 s') as [[l1' s'']|[l1' r]]; [|done].
    replace (i + Z.of_nat (Datatypes.S (length l1))) with (i + 1 + Z.of_nat (length l1)) by lia.
    by destruct (map_run f _ l2 s'') as [[]|[]].
Qed.

Lemma foreach_acl_entry_run {S} (f : Z -> posix_acl_entry -> S -> (posix_acl_entry * S) + Z) acl s :
  acl_typed acl -> foreach_acl_entry f acl s = Some (map_run f 0 (a_entries acl) s).
Proof.
  intros [Hc _]. unfold foreach_acl_entry. rewrite Hc. apply (c_for_map f).
  intros i l x s0 Hx. rewrite Hx. simpl. destruct (f i x s0) as [[x' s']|r]; [|done].
  apply arr_get_range in Hx. by rewrite arr_set_Some.
Qed.

Lemma map_run_keep {A S R} (f : Z -> A -> S -> (A * S) + R) i l s :
  (forall j x, In x l -> f j x s = inl (x, s)) -> map_run f i l s = inl (l, s).
Proof.
  revert i. induction l as [|x l IH]; intros i H; [done|]. simpl.
  rewrite H by by left. rewrite IH; [done|]. intros j y Hy. apply H. by right.
Qed.


Section masq.
Context (acl : posix_acl) (p : acl_parts).
Context (Ht : acl_typed acl) (E : a_entries acl = parts_entries p) (Hp : parts_ok p).

(** Where the loops find the group class entry, and storing to it. *)
Definition group_index : Z :=
  match p_mask p with
  | None => 1 + Z.of_nat (length (p_users p))
  | Some _ => 2 + Z.of_nat (length (p_users p)) + Z.of_nat (length (p_groups p))
  end.

Lemma group_class_entry u o : exists pre suf,
  parts_entries (with_perms p u (e_perm (group_class p)) o) = pre ++ group_class p :: suf /\
  Z.of_nat (length pre) = group_index /\
  forall g, parts_entries (with_perms p u g o) = pre ++ set_perm (group_class p) g :: suf.
Proof.
  unfold group_index, group_class, parts_entries, with_perms, group_entries. simpl.
  assert (forall e : posix_acl_entry, set_perm e (e_perm e) = e) as Hid by by intros [].
  destruct (p_mask p) as [m|]; simpl.
  - exists (set_perm (p_user_obj p) u :: p_users p ++ p_group_obj p :: p_groups p),
      [set_perm (p_other p) o].
    split; [by rewrite Hid; simpl; rewrite <- !app_assoc|].
    split; [simpl; rewrite length_app; simpl; lia|]. intros g. simpl. by rewrite <- !app_assoc.
  - exists (set_perm (p_user_obj p) u :: p_users p), (p_groups p ++ [set_perm (p_other p) o]).
    split; [by rewrite Hid|]. split; [simpl; lia | done].
Qed.

Lemma posix_acl_chmod_masq_ok mode :
  posix_acl_chmod_masq acl mode =
  Some (0, set_entries acl (parts_entries
    (with_perms p ((mode .& S_IRWXU) .>> 6) ((mode .& S_IRWXG) .>> 3) (mode .& S_IRWXO)))).
Proof.
  unfold posix_acl_chmod_masq. rewrite foreach_acl_entry_run by done. rewrite E.
  set (u := (mode .& S_IRWXU) .>> 6). set (g := (mode .& S_IRWXG) .>> 3). set (o := mode .& S_IRWXO).
  assert (exists grp msk, map_run (posix_acl_chmod_masq_entry mode) 0 (parts_entries p) (None, None) =
    inl (parts_entries (with_perms p u (e_perm (group_class p)) o), (grp, msk)) /\
    match msk, grp with Some i, _ | None, Some i => i = group_index | None, None => False end)
    as (grp & msk & Hrun & Hidx).
  { pose proof (named_tags _ _ (ok_users p Hp)) as Hus. pose proof (named_tags _ _ (ok_groups p Hp)) as Hgs.
    rewrite Forall_forall in Hus, Hgs. unfold group_index.
    destruct p as [uo us go gs mk ot], Hp as [[Huo Pu] _ [Hgo Pg] _ Hm [Hot Po] Hn]. simpl in *.
    assert (forall e : posix_acl_entry, set_perm e (e_perm e) = e) as Hid by by intros [].
    unfold posix_acl_chmod_masq_entry at 1. rewrite Huo. simpl.
    rewrite map_run_app, map_run_keep by
      (intros j x Hx; unfold posix_acl_chmod_masq_entry; by rewrite (Hus x Hx)).
    simpl. unfold posix_acl_chmod_masq_entry at 1. rewrite Hgo. simpl.
    unfold group_entries. rewrite map_run_app, map_run_keep by
      (intros j x Hx; unfold posix_acl_chmod_masq_entry; by rewrite (Hgs x Hx)).
    destruct mk as [mk|]; simpl.
    - destruct (Hm mk eq_refl) as [Hmt _].
      unfold posix_acl_chmod_masq_entry. rewrite Hmt, Hot. simpl.
      eexists _, _. split; [unfold parts_entries, group_entries, group_class; simpl; by rewrite Hid|].
      simpl. lia.
    - unfold posix_acl_chmod_masq_entry. rewrite Hot. simpl.
      eexists _, _. split; [unfold parts_entries, group_entries, group_class; simpl; by rewrite Hid|].
      simpl. lia. }
  rewrite Hrun. simpl. destruct (group_class_entry u o) as (pre & suf & -> & Hpre & Hset).
  destruct msk as [i|]; [|destruct grp as [i|]; [|done]]; subst i;
    rewrite <- Hpre, arr_get_middle; simpl; rewrite arr_set_middle; simpl; by rewrite Hset.
Qed.

Lemma create_named l mode ne grp msk i :
  Forall (fun e => e_tag e = ACL_USER) l \/ Forall (fun e => e_tag e = ACL_GROUP) l ->
  map_run posix_acl_create_masq_entry i l (mode, ne, grp, msk) =
  inl (l, (mode, match l with [] => ne | _ => 1 end, grp, msk)).
Proof.
  intros Hl. revert i ne. induction l as [|e l IH]; intros i ne; [done|]. simpl.
  assert (e_tag e = ACL_USER \/ e_tag e = ACL_GROUP) as He.
  { destruct Hl as [Hl|Hl]; apply Forall_cons_iff in Hl as [? _]; auto. }
  replace (posix_acl_create_masq_entry i e _)
    with (@inl (posix_acl_entry * (Z * Z * option Z * option Z)) Z (e, (mode, 1, grp, msk))).
  - rewrite IH; [by destruct l|].
    destruct Hl as [Hl|Hl]; apply Forall_cons_iff in Hl as [_ ?]; auto.
  - unfold posix_acl_create_masq_entry. by destruct He as [-> | ->].
Qed.

(** The permissions granted both by the ACL and by the requested mode. *)
Lemma posix_acl_create_masq_ok mode : 0 <= mode < 2 ^ 16 ->
  posix_acl_create_masq acl mode =
  Some (match p_mask p with Some _ => 1 | None => 0 end,
        set_entries acl (parts_entries (with_perms p
          (e_perm (p_user_obj p) .& (mode .>> 6)) (e_perm (group_class p) .& (mode .>> 3))
          (e_perm (p_other p) .& mode))),
        mode .& (Z.lnot S_IRWXUGO .| acl_mode p)).
Proof.
  intros Hmode. unfold posix_acl_create_masq. rewrite foreach_acl_entry_run by done. rewrite E.
  set (u := e_perm (p_user_obj p) .& (mode .>> 6)). set (o := e_perm (p_other p) .& mode).
  destruct (ok_user_obj p Hp) as [_ Pu], (ok_other p Hp) as [_ Po].
  assert (0 <= e_perm (group_class p) <= 7) as Pg.
  { unfold group_class. destruct (p_mask p) as [m|] eqn:Em; [by apply (ok_mask p Hp m)|].
    apply (ok_group_obj p Hp). }
  assert (exists grp msk, map_run posix_acl_create_masq_entry 0 (parts_entries p) (mode, 0, None, None) =
    inl (parts_entries (with_perms p u (e_perm (group_class p)) o),
         (create_m2 mode (e_perm (p_user_obj p)) (e_perm (p_other p)),
          match p_mask p with Some _ => 1 | None => 0 end, grp, msk)) /\
    match msk, grp with Some i, _ | None, Some i => i = group_index | None, None => False end)
    as (grp & msk & Hrun & Hidx).
  { pose proof (named_tags _ _ (ok_users p Hp)) as Hus. pose proof (named_tags _ _ (ok_groups p Hp)) as Hgs.
    unfold group_index.
    destruct p as [uo us go gs mk ot], Hp as [[Huo _] _ [Hgo _] _ Hm [Hot _] Hn]. simpl in *.
    assert (forall e : posix_acl_entry, set_perm e (e_perm e) = e) as Hid by by intros [].
    unfold posix_acl_create_masq_entry at 1. rewrite Huo. simpl. rewrite masq_perm by done.
    rewrite map_run_app, create_named by auto. simpl.
    unfold posix_acl_create_masq_entry at 1. rewrite Hgo. simpl.
    unfold group_entries. rewrite map_run_app, create_named by auto.
    unfold parts_entries, group_entries, group_class. simpl.
    fold (create_m1 mode (e_perm uo)).
    destruct mk as [mk|]; simpl; unfold posix_acl_create_masq_entry.
    - destruct (Hm mk eq_refl) as [Hmt _]. rewrite Hmt, Hot. simpl.
      rewrite masq_perm, create_m1_other by done. rewrite Hid. eexists _, _.
      split; [done|]. simpl. lia.
    - destruct (Hn eq_refl) as [-> ->]. rewrite Hot. simpl.
      rewrite masq_perm, create_m1_other by done. rewrite Hid. eexists _, _.
      split; [done|]. simpl. lia. }
  rewrite Hrun. simpl. destruct (group_class_entry u o) as (pre & suf & -> & Hpre & Hset).
  unfold posix_acl_create_masq_group.
  destruct msk as [i|]; [|destruct grp as [i|]; [|done]]; subst i;
    rewrite <- Hpre, arr_get_middle; simpl; rewrite masq_perm, create_m2_group by done;
    rewrite arr_set_middle; simpl; rewrite create_mode_final by done; by rewrite Hset.
Qed.
End masq.

(** ** The extended-attribute encoding *)

(** The eight bytes of an entry. *)
Definition entry_bytes (e : posix_acl_entry) : list Z :=
  le16_bytes (u16 (e_tag e)) ++ le16_bytes (e_perm e) ++ le32_bytes (e_id e).

(** What reading back an entry gives: [e_id] is kept for named entries only. *)
Definition named (e : posix_acl_entry) : bool := (e_tag e =? ACL_USER) || (e_tag e =? ACL_GROUP).

Definition read_back (e : posix_acl_entry) : posix_acl_entry :=
  if named e then e else Entry (e_tag e) (e_perm e) ACL_UNDEFINED_ID.

Lemma read_back_tag e : e_tag (read_back e) = e_tag e.
Proof. unfold read_back. by destruct (named e). Qed.

Lemma read_back_perm e : e_perm (read_back e) = e_perm e.
Proof. unfold read_back. by destruct (named e). Qed.

Lemma read_back_id e : e_id (read_back e) = if named e then e_id e else ACL_UNDEFINED_ID.
Proof. unfold read_back. by destruct (named e). Qed.

Lemma read_back_entries es :
  Forall2 (fun e e' => e_tag e' = e_tag e /\ e_perm e' = e_perm e /\
    e_id e' = if named e then e_id e else ACL_UNDEFINED_ID) es (read_back <$> es).
Proof.
  induction es as [|e es IH]; [constructor|].
  constructor; [by rewrite read_back_tag, read_back_perm, read_back_id | done].
Qed.

Lemma read_back_same es :
  Forall (fun e => named e = false -> e_id e = ACL_UNDEFINED_ID) es -> read_back <$> es = es.
Proof.
  induction 1 as [|[t p i] es He _ IH]; [done|]. rewrite fmap_cons, IH. f_equal.
  unfold read_back. destruct (named _); [done|]. simpl in *. by rewrite He.
Qed.

(** The scans look at the ids of named entries only. *)
Ltac scan_entry e :=
  rewrite ?read_back_tag, ?read_back_perm, ?read_back_id; unfold named;
  destruct (e_tag e =? ACL_USER_OBJ) eqn:?, (e_tag e =? ACL_USER) eqn:?, (e_tag e =? ACL_GROUP_OBJ) eqn:?,
    (e_tag e =? ACL_GROUP) eqn:?; simpl; try done.

Section read_back.
Context (acl : posix_acl).
Local Abbreviation acl' := (Acl 1 (a_count acl) (read_back <$> a_entries acl)).

Lemma read_back_valid : posix_acl_valid acl' = posix_acl_valid acl.
Proof.
  unfold posix_acl_valid. simpl. f_equal. apply c_for_ext. intros i st. rewrite arr_get_fmap.
  destruct (arr_get (a_entries acl) i) as [e|]; simpl; [f_equal | done].
  unfold posix_acl_valid_entry. destruct st as [[state id] nm]. scan_entry e.
Qed.

Lemma read_back_equiv_mode mode_p : posix_acl_equiv_mode acl' mode_p = posix_acl_equiv_mode acl mode_p.
Proof.
  unfold posix_acl_equiv_mode. simpl. f_equal. f_equal. apply c_for_ext. intros i st. rewrite arr_get_fmap.
  destruct (arr_get (a_entries acl) i) as [e|]; simpl; [f_equal | done].
  unfold posix_acl_equiv_mode_entry. destruct st as [mode ne]. by rewrite read_back_tag, read_back_perm.
Qed.

Context {C} `{Cred C} (cred : C) (inode : inode) (want : Z).

Definition exit_back (x : acl_exit) : acl_exit :=
  match x with
  | RETURN e => RETURN e
  | GOTO_mask i pa => GOTO_mask i (read_back pa)
  | GOTO_check_perm pa => GOTO_check_perm (read_back pa)
  end.

Lemma read_back_check_mask i pa :
  posix_acl_check_mask want acl' i (read_back pa) = posix_acl_check_mask want acl i pa.
Proof.
  unfold posix_acl_check_mask, posix_acl_check_perm. rewrite read_back_perm. simpl. f_equal.
  apply c_for_ext. intros j st. rewrite arr_get_fmap.
  destruct (arr_get (a_entries acl) j) as [e|]; simpl; [by rewrite read_back_tag, read_back_perm | done].
Qed.

Lemma read_back_permission :
  posix_acl_permission cred inode want acl' = posix_acl_permission cred inode want acl.
Proof.
  unfold posix_acl_permission. cbn [a_count a_entries].
  rewrite (c_for_exit_map exit_back (fun i found =>
    pa ← arr_get (a_entries acl) i; Some (posix_acl_permission_entry cred inode want i pa found))).
  - destruct (c_for _ _ _ _) as [[found|[e|i pa|pa]]|]; simpl; [done | done | | | done].
    + apply read_back_check_mask.
    + unfold posix_acl_check_perm. by rewrite read_back_perm.
  - intros i found. rewrite arr_get_fmap. destruct (arr_get (a_entries acl) i) as [e|]; simpl; [f_equal | done].
    unfold posix_acl_permission_entry. scan_entry e.
    all: repeat case_match; simpl; done.
Qed.
End read_back.

Definition known_tag (e : posix_acl_entry) : Prop :=
  e_tag e = ACL_USER_OBJ \/ e_tag e = ACL_USER \/ e_tag e = ACL_GROUP_OBJ \/
  e_tag e = ACL_GROUP \/ e_tag e = ACL_MASK \/ e_tag e = ACL_OTHER.

Lemma from_xattr_entry_ok pre e suf p :
  entry_typed e -> known_tag e -> p = Z.of_nat (length pre) ->
  posix_acl_from_xattr_entry (pre ++ entry_bytes e ++ suf) p = Some (inl (read_back e)).
Proof.
  intros (Ht & Hp & Hid) Hk ->. unfold posix_acl_from_xattr_entry, entry_bytes.
  rewrite <- !app_assoc, (get_le16_off pre _ _ (Z.of_nat (length pre))) by first [done | apply u16_range]. cbn [mbind option_bind].
  rewrite (app_assoc pre), get_le16_off by first [done | rewrite length_app; simpl; lia].
  cbn [mbind option_bind].
  replace (s16 (u16 (e_tag e))) with (e_tag e) by (unfold s16, u16; Z.div_mod_to_equations; lia).
  unfold read_back, named. rewrite (app_assoc (pre ++ _)), get_le32_off.
  2:{ rewrite !length_app. simpl. lia. }
  2:{ done. }
  destruct e as [t pm id]. unfold known_tag in Hk. simpl in *. by destruct Hk as [->|[->|[->|[->|[-> | ->]]]]].
Qed.

Lemma length_entries_bytes es : length (concat (entry_bytes <$> es)) = (8 * length es)%nat.
Proof. induction es as [|e es IH]; [done|]. rewrite fmap_cons, concat_cons, length_app, IH. simpl. lia. Qed.

Lemma at_least_8 {A} (l : list A) : (8 <= length l)%nat ->
  exists a b c d e f g h r, l = a :: b :: c :: d :: e :: f :: g :: h :: r.
Proof.
  intros H. do 8 (destruct l as [|? l]; [simpl in H; lia|]). eauto 20.
Qed.

Definition xattr_value (es : list posix_acl_entry) : list Z :=
  le32_bytes POSIX_ACL_XATTR_VERSION ++ concat (entry_bytes <$> es).

(** Writing one entry. *)
Lemma put_entry_ok pre e rest p : (8 <= length rest)%nat -> p = Z.of_nat (length pre) ->
  (buf ← put_le16 (pre ++ rest) p (u16 (e_tag e));
   buf ← put_le16 buf (p + 2) (e_perm e);
   put_le32 buf (p + 4) (e_id e)) = Some ((pre ++ entry_bytes e) ++ drop 8 rest).
Proof.
  intros Hr ->. destruct (at_least_8 rest Hr) as (a & b & c & d & f & g & h & i & r & ->).
  rewrite put_le16_off by done. cbn [mbind option_bind]. rewrite app_assoc.
  rewrite put_le16_off by (rewrite length_app; simpl; lia). cbn [mbind option_bind]. rewrite app_assoc.
  rewrite put_le32_off by (rewrite !length_app; simpl; lia).
  unfold entry_bytes. by rewrite <- !app_assoc.
Qed.

Lemma take_next {A} (l : list A) n x : 0 <= n -> arr_get l n = Some x ->
  take (Z.to_nat (n + 1)) l = take (Z.to_nat n) l ++ [x].
Proof.
  intros Hn Hx. unfold arr_get in Hx. rewrite (proj2 (Z.leb_le 0 n)) in Hx by done.
  replace (Z.to_nat (n + 1)) with (S (Z.to_nat n)) by lia. by apply take_S_r.
Qed.

Lemma posix_acl_to_xattr_ok acl buf size :
  acl_typed acl -> a_count acl < 2 ^ 27 ->
  4 + 8 * a_count acl <= Z.of_nat (length buf) -> 4 + 8 * a_count acl <= size ->
  posix_acl_to_xattr acl (Some buf) size =
  Some (4 + 8 * a_count acl,
        Some (xattr_value (a_entries acl) ++ drop (length (xattr_value (a_entries acl))) buf)).
Proof.
  intros [Hc _] Hbig Hbuf Hsize. unfold posix_acl_to_xattr.
  assert (0 <= a_count acl) by lia.
  replace (s32 (posix_acl_xattr_size (a_count acl))) with (4 + 8 * a_count acl).
  2:{ unfold posix_acl_xattr_size, sizeof_xattr_header, sizeof_xattr_entry, s32, u32.
      rewrite (Z.mod_small (a_count acl * 8)), (Z.mod_small (4 + _)), Z.mod_small by lia. lia. }
  rewrite u32_small by (unfold is_u32; lia). rewrite (proj2 (Z.ltb_ge _ _)) by lia.
  destruct buf as [|b0 [|b1 [|b2 [|b3 buf]]]]; [simpl in Hbuf; lia..|].
  rewrite (put_le32_off [] b0 b1 b2 b3 buf) by done. cbn [mbind option_bind].
  set (hdr := le32_bytes POSIX_ACL_XATTR_VERSION). simpl length in Hbuf.
  match goal with |- (mbind _ ?loop) = _ =>
    assert (wp loop (fun d => d = xattr_value (a_entries acl) ++
      drop (8 * length (a_entries acl)) buf)) as Hloop end.
  2:{ apply wp_elim in Hloop as (d & -> & ->). cbn [mbind option_bind].
      assert (length (xattr_value (a_entries acl)) = 4 + 8 * length (a_entries acl))%nat as ->
        by (unfold xattr_value; by rewrite length_app, length_entries_bytes). done. }
  eapply wp_mono; [apply (c_for_all_inv (fun n d => d = hdr ++ concat (entry_bytes <$> take (Z.to_nat n) (a_entries acl)) ++
      drop (8 * Z.to_nat n) buf)); [done | done |]|].
  - intros n d Hn ->. destruct (arr_get_Some (a_entries acl) n ltac:(lia)) as [e He].
    rewrite He. cbn [mbind option_bind]. cbv zeta. rewrite app_assoc.
    rewrite put_entry_ok.
    + cbn [wp]. rewrite (take_next _ _ e) by (done || lia).
      rewrite fmap_app, concat_app, drop_drop. cbn [fmap list_fmap concat]. rewrite app_nil_r, <- !app_assoc.
      by replace (8 * Z.to_nat n + 8)%nat with (8 * Z.to_nat (n + 1))%nat by lia.
    + rewrite length_drop. lia.
    + rewrite length_app, length_entries_bytes, length_take. unfold sizeof_xattr_header, sizeof_xattr_entry.
      change (length hdr) with 4%nat. lia.
  - intros d ->. rewrite Hc, Nat2Z.id, take_ge by lia. unfold xattr_value. by rewrite <- app_assoc.
Qed.

Section from_xattr.
Variable kmalloc : Z -> option (list posix_acl_entry).
(** An object of [8 + 8 * n] bytes has room for [n] entries. *)
Hypothesis kmalloc_room : forall n es, 0 <= n -> kmalloc (8 + n * 8) = Some es -> length es = Z.to_nat n.

Lemma posix_acl_from_xattr_ok es rest :
  Forall entry_typed es -> Forall known_tag es -> es <> [] -> Z.of_nat (length es) < 2 ^ 27 ->
  posix_acl_from_xattr kmalloc (Some (xattr_value es ++ rest)) (4 + 8 * Z.of_nat (length es)) =
  Some (match kmalloc (8 + Z.of_nat (length es) * 8) with
        | None => ERR_PTR (- ENOMEM)
        | Some _ => PTR (Acl 1 (Z.of_nat (length es)) (read_back <$> es))
        end).
Proof.
  intros Ht Hk Hne Hbig. unfold posix_acl_from_xattr, sizeof_xattr_header.
  rewrite (proj2 (Z.ltb_ge _ _)) by lia. unfold xattr_value. rewrite <- app_assoc.
  match goal with |- context [get_le32 ?b 0] => change (get_le32 b 0) with (get_le32 ([] ++ b) 0) end.
  rewrite (get_le32_off [] _ _ 0) by first [done | unfold is_u32, POSIX_ACL_XATTR_VERSION; lia].
  cbn [mbind option_bind]. rewrite Z.eqb_refl. simpl negb. cbv iota.
  set (count := Z.of_nat (length es)) in *.
  assert (0 < count) by (destruct es; [done | unfold count; simpl; lia]).
  assert (posix_acl_xattr_count (4 + 8 * count) = count) as ->.
  { unfold posix_acl_xattr_count, sizeof_xattr_header, sizeof_xattr_entry.
    rewrite (proj2 (Z.ltb_ge _ _)) by lia. replace (4 + 8 * count - 4) with (count * 8) by lia.
    rewrite Z.mod_mul, Z.div_mul by lia. simpl. unfold s32. rewrite Z.mod_small by lia. lia. }
  rewrite (proj2 (Z.ltb_ge count 0)), (proj2 (Z.eqb_neq count 0)) by lia.
  unfold posix_acl_alloc, sizeof_posix_acl, sizeof_posix_acl_entry.
  rewrite u32_small by (unfold is_u32; lia).
  destruct (kmalloc (8 + count * 8)) as [mem|] eqn:Hmem; [|done].
  apply kmalloc_room in Hmem; [|lia]. cbn [a_entries posix_acl_init].
  match goal with |- (mbind _ ?loop) = _ => assert (wp loop (fun r => r = inl (read_back <$> es))) as Hloop end.
  2:{ apply wp_elim in Hloop as (r & -> & ->). done. }
  eapply wp_mono; [apply (c_for_inv (fun i es' =>
      es' = (read_back <$> take (Z.to_nat i) es) ++ drop (Z.to_nat i) mem) (fun _ => False)); [lia | done |]|].
  - intros i es' Hi ->. destruct (arr_get_Some es i ltac:(unfold count in *; lia)) as [e He].
    assert (exists es1 es2, es = es1 ++ e :: es2 /\ length es1 = Z.to_nat i) as (es1 & es2 & Ees & Hl1).
    { unfold arr_get in He. rewrite (proj2 (Z.leb_le 0 i)) in He by lia.
      exists (take (Z.to_nat i) es), (drop (S (Z.to_nat i)) es).
      split; [by rewrite take_drop_middle|]. apply length_take_le. unfold count in *. lia. }
    assert (entry_typed e /\ known_tag e) as [Hte Hke].
    { rewrite Ees in Ht, Hk. apply Forall_app in Ht as [_ [? _]%Forall_cons_iff].
      by apply Forall_app in Hk as [_ [? _]%Forall_cons_iff]. }
    rewrite Ees at 1. rewrite fmap_app, concat_app, fmap_cons, concat_cons.
    rewrite <- (app_assoc (concat _)), <- (app_assoc (entry_bytes e)), app_assoc.
    rewrite from_xattr_entry_ok; [|done | done |].
    2:{ rewrite length_app, length_entries_bytes. unfold sizeof_xattr_entry. simpl. lia. }
    cbn [mbind option_bind]. destruct (drop (Z.to_nat i) mem) as [|x mem'] eqn:Hd.
    { apply (f_equal length) in Hd. rewrite length_drop in Hd. simpl in Hd. lia. }
    rewrite (arr_set_off _ _ 0).
    2:{ rewrite length_fmap, length_take. unfold count in *. lia. }
    2:{ simpl. lia. }
    simpl. rewrite (take_next _ _ e) by (done || lia). rewrite fmap_app, <- app_assoc. simpl. do 2 f_equal.
    replace (Z.to_nat (i + 1)) with (S (Z.to_nat i)) by lia. symmetry.
    rewrite <- (drop_drop mem (Z.to_nat i) 1) || rewrite <- Nat.add_1_r, <- drop_drop. by rewrite Hd.
  - intros [es'|r]; [|done]. intros ->. f_equal. rewrite take_ge by (unfold count; lia).
    rewrite drop_ge by lia. apply app_nil_r.
Qed.
End from_xattr.

Lemma mode_perms mode : 0 <= mode ->
  0 <= (mode .& S_IRWXU) .>> 6 <= 7 /\ 0 <= (mode .& S_IRWXG) .>> 3 <= 7 /\ 0 <= mode .& S_IRWXO <= 7.
Proof.
  intros Hm. pose proof (land_le_r mode S_IRWXU ltac:(done)). pose proof (land_le_r mode S_IRWXG ltac:(done)).
  pose proof (land_le_r mode S_IRWXO ltac:(done)). unfold S_IRWXU, S_IRWXG, S_IRWXO in *.
  rewrite !Z.shiftr_div_pow2 by lia. Z.div_mod_to_equations. lia.
Qed.

Lemma mode_perms_join mode :
  Z.shiftl ((mode .& S_IRWXU) .>> 6) 6 .| Z.shiftl ((mode .& S_IRWXG) .>> 3) 3 .| (mode .& S_IRWXO) =
  mode .& S_IRWXUGO.
Proof.
  apply Z.bits_inj'. intros i Hi. unfold S_IRWXUGO.
  rewrite !Z.lor_spec, !Z.land_spec, !Z.shiftl_spec by lia.
  destruct (Z.lt_ge_cases i 16).
  - assert (0 <= i < 16) as Hi' by lia. clear Hi. bit_cases i Hi'. all: mode_bits.
  - rewrite !Z.shiftr_spec by lia. rewrite !Z.land_spec, !Z.lor_spec.
    rewrite !Z.sub_add, (testbit_above S_IRWXU 16), (testbit_above S_IRWXG 16), (testbit_above S_IRWXO 16)
      by (unfold S_IRWXU, S_IRWXG, S_IRWXO; lia). btauto.
Qed.

(** [with_perms] changes permissions of unnamed entries only. *)
Definition repermed (u g o : Z) (e e' : posix_acl_entry) : Prop :=
  e_tag e' = e_tag e /\ e_id e' = e_id e /\
  (e' = e \/ ((e_perm e' = u \/ e_perm e' = g \/ e_perm e' = o) /\
              e_tag e <> ACL_USER /\ e_tag e <> ACL_GROUP)).

Lemma repermed_set u g o e x : e_tag e <> ACL_USER -> e_tag e <> ACL_GROUP ->
  x = u \/ x = g \/ x = o -> repermed u g o e (set_perm e x).
Proof. intros. split; [done|]. split; [done|]. by right. Qed.

Lemma repermed_refl u g o es : Forall2 (repermed u g o) es es.
Proof. induction es; constructor; [|done]. split; [done|]. split; [done | by left]. Qed.

Lemma with_perms_repermed p u g o : parts_ok p ->
  Forall2 (repermed u g o) (parts_entries p) (parts_entries (with_perms p u g o)).
Proof.
  intros [[Huo _] _ [Hgo _] _ Hm [Hot _] _]. unfold parts_entries, group_entries. simpl.
  constructor; [apply repermed_set; rewrite ?Huo; auto|].
  apply Forall2_app; [apply repermed_refl|]. destruct (p_mask p) as [m|] eqn:Em; simpl.
  - destruct (Hm m eq_refl) as [Hmt _]. constructor; [split; [done|]; split; [done | by left]|].
    apply Forall2_app; [apply repermed_refl|].
    constructor; [apply repermed_set; rewrite ?Hmt; auto|].
    constructor; [|done]. apply repermed_set; rewrite ?Hot; auto.
  - constructor; [apply repermed_set; rewrite ?Hgo; auto|].
    apply Forall2_app; [apply repermed_refl|]. constructor; [|done].
    apply repermed_set; rewrite ?Hot; auto.
Qed.

Lemma with_perms_acl acl p u g o : acl_typed acl -> a_entries acl = parts_entries p -> parts_ok p ->
  0 <= u <= 7 -> 0 <= g <= 7 -> 0 <= o <= 7 ->
  let acl' := set_entries acl (parts_entries (with_perms p u g o)) in
  acl_typed acl' /\ posix_acl_valid acl' = Some 0 /\
  map (fun e => (e_tag e, e_id e)) (a_entries acl') = map (fun e => (e_tag e, e_id e)) (a_entries acl) /\
  (forall e, (e_tag e = ACL_USER \/ e_tag e = ACL_GROUP) -> In e (a_entries acl) <-> In e (a_entries acl')).
Proof.
  intros [Hc Hty] E Hp Hu Hg Ho acl'. pose proof (with_perms_repermed p u g o Hp) as HR.
  rewrite <- E in HR. change (parts_entries (with_perms p u g o)) with (a_entries acl') in HR.
  assert (acl_typed acl') as Ht'.
  { split; [by rewrite <- (Forall2_length HR)|]. clear -HR Hty Hu Hg Ho.
    induction HR as [|e e' es es' (Ht & Hi & Hpm) HR IH]; [constructor|].
    apply Forall_cons_iff in Hty as [(H1 & H2 & H3) Hty]. constructor; [|by apply IH].
    split; [by rewrite Ht|]. split; [|by rewrite Hi]. destruct Hpm as [->|[Hpm _]]; lia. }
  split; [done|]. split; [|split].
  - apply posix_acl_valid_ok; [done|]. exists (with_perms p u g o). split; [done | by apply with_perms_ok].
  - clear -HR. induction HR as [|e e' es es' (Ht & Hi & _) _ IH]; [done|]. simpl. by rewrite Ht, Hi, IH.
  - intros e He. clear -HR He. induction HR as [|x y xs ys (Ht & Hi & Hpm) HR IH]; [done|].
    simpl. rewrite IH. split; intros [Heq|?]; auto; left.
    + subst e. destruct Hpm as [|[_ [? ?]]]; [done | by destruct He].
    + subst e. rewrite Ht in He. destruct Hpm as [|[_ [? ?]]]; [done | by destruct He].
Qed.

(** ** Properties *)

(** C30: [posix_acl_valid] accepts exactly the well-formed ACLs (one owner
    entry, named users by increasing id, the owning group, named groups by
    increasing id, a mask whenever there are named entries, others) and
    returns [-EINVAL] for everything else. *)
Theorem posix_acl_valid_correct acl : acl_typed acl ->
  (posix_acl_valid acl = Some 0 <-> exists p, a_entries acl = parts_entries p /\ parts_ok p) /\
  (posix_acl_valid acl = Some 0 \/ posix_acl_valid acl = Some (- EINVAL)).
Proof.
  intros Ht. split; [by apply posix_acl_valid_ok|].
  destruct (posix_acl_valid_run acl Ht) as [[_ ->]|[_ ->]]; auto.
Qed.

Definition sample_acl : posix_acl :=
  Acl 1 6 [Entry ACL_USER_OBJ 6 0; Entry ACL_USER 7 100; Entry ACL_GROUP_OBJ 5 0;
           Entry ACL_GROUP 4 20; Entry ACL_MASK 6 0; Entry ACL_OTHER 4 0].
#[export] Hint Unfold acl_typed entry_typed known_tag : concrete.

Lemma sample_acl_typed : acl_typed sample_acl.
Proof. unfold sample_acl. concrete. Qed.

Lemma posix_acl_valid_correct_witness :
  exists p, a_entries sample_acl = parts_entries p /\ parts_ok p.
Proof. apply (posix_acl_valid_correct sample_acl sample_acl_typed). reflexivity. Defined.

(** C9: On every ACL that [posix_acl_valid] accepts, [posix_acl_permission]
    returns 0 or [-EACCES] exactly as the POSIX access check algorithm
    decides: owner entry for the owner, the named entry for a named user, one
    of the matching group entries for a group member, the entry for others
    otherwise, with the mask applied to named and group entries. *)
Theorem posix_acl_permission_correct {C} `{Cred C} (cred : C) inode want acl :
  acl_typed acl -> posix_acl_valid acl = Some 0 ->
  exists p, a_entries acl = parts_entries p /\ parts_ok p /\
    posix_acl_permission cred inode want acl =
    Some (if acl_access (current_fsuid cred) (cred_in_group_p cred) inode want p then 0 else - EACCES).
Proof.
  intros Ht Hv. apply posix_acl_valid_ok in Hv as (p & E & Hp); [|done].
  exists p. split; [done|]. split; [done|]. by apply posix_acl_permission_ok.
Qed.

Definition sample_cred : Cred Z := {| current_fsuid := fun c => c; cred_in_group_p := fun _ g => g =? 20 |}.

Lemma posix_acl_permission_correct_witness :
  exists p, a_entries sample_acl = parts_entries p /\ parts_ok p /\
    @posix_acl_permission Z sample_cred 7 (Inode 1 2) 2 sample_acl =
    Some (if acl_access (@current_fsuid Z sample_cred 7) (@cred_in_group_p Z sample_cred 7) (Inode 1 2) 2 p
          then 0 else - EACCES).
Proof. apply posix_acl_permission_correct; [exact sample_acl_typed | reflexivity]. Defined.

(** C37: [posix_acl_chmod_masq] on a valid ACL succeeds, leaves the tags, the
    ids and the named entries alone, keeps the ACL valid, and afterwards
    [posix_acl_equiv_mode] reads back the permission bits of the new mode. *)
Theorem posix_acl_chmod_mode acl mode m :
  acl_typed acl -> posix_acl_valid acl = Some 0 -> 0 <= mode < 2 ^ 16 ->
  exists acl', posix_acl_chmod_masq acl mode = Some (0, acl') /\
    acl_typed acl' /\ posix_acl_valid acl' = Some 0 /\
    map (fun e => (e_tag e, e_id e)) (a_entries acl') = map (fun e => (e_tag e, e_id e)) (a_entries acl) /\
    (forall e, (e_tag e = ACL_USER \/ e_tag e = ACL_GROUP) -> In e (a_entries acl) <-> In e (a_entries acl')) /\
    exists ne, posix_acl_equiv_mode acl' (Some m) =
      Some (ne, Some (u16 ((m .& Z.lnot S_IRWXUGO) .| (mode .& S_IRWXUGO)))).
Proof.
  intros Ht Hv Hm. pose proof Ht as [Hc Hty]. apply posix_acl_valid_ok in Hv as (p & E & Hp); [|done].
  eexists. split; [by apply posix_acl_chmod_masq_ok|].
  destruct (mode_perms mode ltac:(lia)) as (Hu & Hg & Ho).
  destruct (with_perms_acl acl p _ _ _ Ht E Hp Hu Hg Ho) as (Ht' & Hv' & Hmap & Hnamed).
  do 4 (split; [done|]). eexists.
  rewrite (posix_acl_equiv_mode_ok _ _ m Ht' eq_refl) by by apply with_perms_ok.
  by rewrite with_perms_mode, mode_perms_join.
Qed.

Lemma posix_acl_chmod_mode_witness :
  exists acl', posix_acl_chmod_masq sample_acl 0x1ed = Some (0, acl') /\
    acl_typed acl' /\ posix_acl_valid acl' = Some 0 /\
    map (fun e => (e_tag e, e_id e)) (a_entries acl') =
      map (fun e => (e_tag e, e_id e)) (a_entries sample_acl) /\
    (forall e, (e_tag e = ACL_USER \/ e_tag e = ACL_GROUP) ->
       In e (a_entries sample_acl) <-> In e (a_entries acl')) /\
    exists ne, posix_acl_equiv_mode acl' (Some 0) =
      Some (ne, Some (u16 ((0 .& Z.lnot S_IRWXUGO) .| (0x1ed .& S_IRWXUGO)))).
Proof. apply posix_acl_chmod_mode; [exact sample_acl_typed | reflexivity | lia]. Defined.

Lemma create_perms_join mode pu pg po :
  0 <= mode < 2 ^ 16 -> 0 <= pu <= 7 -> 0 <= pg <= 7 -> 0 <= po <= 7 ->
  u16 ((mode .& Z.lnot S_IRWXUGO) .|
       (Z.shiftl (pu .& (mode .>> 6)) 6 .| Z.shiftl (pg .& (mode .>> 3)) 3 .| (po .& mode))) =
  mode .& (Z.lnot S_IRWXUGO .| u16 ((0 .& Z.lnot S_IRWXUGO) .| (Z.shiftl pu 6 .| Z.shiftl pg 3 .| po))).
Proof.
  intros Hm Pu Pg Po.
  pose proof (land_le_l mode (Z.lnot S_IRWXUGO .|
    u16 ((0 .& Z.lnot S_IRWXUGO) .| (Z.shiftl pu 6 .| Z.shiftl pg 3 .| po))) ltac:(lia)).
  apply u16_ext; [apply u16_range | lia |]. intros i Hi. bit_cases i Hi. all: mode_bits.
Qed.

(** C38: [posix_acl_create_masq] on a valid ACL gives the new inode the
    requested mode limited by the permissions of the ACL, keeps the ACL valid
    with its tags, ids and named entries, and leaves ACL and mode consistent:
    [posix_acl_equiv_mode] of the new ACL reads back the new mode. *)
Theorem posix_acl_create_mode acl mode :
  acl_typed acl -> posix_acl_valid acl = Some 0 -> 0 <= mode < 2 ^ 16 ->
  exists acl' ne m0 mode', posix_acl_create_masq acl mode = Some (ne, acl', mode') /\
    acl_typed acl' /\ posix_acl_valid acl' = Some 0 /\
    map (fun e => (e_tag e, e_id e)) (a_entries acl') = map (fun e => (e_tag e, e_id e)) (a_entries acl) /\
    (forall e, (e_tag e = ACL_USER \/ e_tag e = ACL_GROUP) -> In e (a_entries acl) <-> In e (a_entries acl')) /\
    posix_acl_equiv_mode acl (Some 0) = Some (ne, Some m0) /\
    mode' = mode .& (Z.lnot S_IRWXUGO .| m0) /\
    posix_acl_equiv_mode acl' (Some mode) = Some (ne, Some mode').
Proof.
  intros Ht Hv Hm. apply posix_acl_valid_ok in Hv as (p & E & Hp); [|done].
  rewrite (posix_acl_create_masq_ok acl p Ht E Hp mode Hm).
  destruct (ok_user_obj p Hp) as [_ Pu], (ok_other p Hp) as [_ Po].
  assert (0 <= e_perm (group_class p) <= 7) as Pg.
  { unfold group_class. destruct (p_mask p) as [m|] eqn:Em; [by apply (ok_mask p Hp m)|].
    apply (ok_group_obj p Hp). }
  pose proof (land_le_l (e_perm (p_user_obj p)) (mode .>> 6) ltac:(lia)).
  pose proof (land_le_l (e_perm (group_class p)) (mode .>> 3) ltac:(lia)).
  pose proof (land_le_l (e_perm (p_other p)) mode ltac:(lia)).
  set (u := e_perm (p_user_obj p) .& (mode .>> 6)) in *.
  set (g := e_perm (group_class p) .& (mode .>> 3)) in *. set (o := e_perm (p_other p) .& mode) in *.
  destruct (with_perms_acl acl p u g o Ht E Hp) as (Ht' & Hv' & Hmap & Hnamed); [lia..|].
  eexists _, _, _, _. split; [done|]. do 4 (split; [done|]).
  rewrite (posix_acl_equiv_mode_ok acl p 0 Ht E Hp). split; [done|].
  pose proof (create_perms_join mode _ _ _ Hm Pu Pg Po) as Hj.
  assert (mode .& (Z.lnot S_IRWXUGO .| acl_mode p) =
    mode .& (Z.lnot S_IRWXUGO .| u16 ((0 .& Z.lnot S_IRWXUGO) .| acl_mode p))) as Em.
  { pose proof (land_le_l mode (Z.lnot S_IRWXUGO .| acl_mode p) ltac:(lia)).
    pose proof (land_le_l mode (Z.lnot S_IRWXUGO .| u16 ((0 .& Z.lnot S_IRWXUGO) .| acl_mode p)) ltac:(lia)).
    apply u16_ext; [lia | lia |]. intros i Hi. bit_cases i Hi. all: mode_bits. }
  split; [done|].
  rewrite (posix_acl_equiv_mode_ok _ _ mode Ht' eq_refl) by (apply with_perms_ok; [lia..| done]).
  rewrite with_perms_mode, Em. unfold u, g, o. rewrite Hj.
  unfold with_perms at 1. simpl. by destruct (p_mask p).
Qed.

Lemma posix_acl_create_mode_witness :
  exists acl' ne m0 mode', posix_acl_create_masq sample_acl 0x81ed = Some (ne, acl', mode') /\
    acl_typed acl' /\ posix_acl_valid acl' = Some 0 /\
    map (fun e => (e_tag e, e_id e)) (a_entries acl') =
      map (fun e => (e_tag e, e_id e)) (a_entries sample_acl) /\
    (forall e, (e_tag e = ACL_USER \/ e_tag e = ACL_GROUP) ->
       In e (a_entries sample_acl) <-> In e (a_entries acl')) /\
    posix_acl_equiv_mode sample_acl (Some 0) = Some (ne, Some m0) /\
    mode' = 0x81ed .& (Z.lnot S_IRWXUGO .| m0) /\
    posix_acl_equiv_mode acl' (Some 0x81ed) = Some (ne, Some mode').
Proof. apply posix_acl_create_mode; [exact sample_acl_typed | reflexivity | lia]. Defined.

(** C39: Writing an ACL with [posix_acl_to_xattr] and reading the value back
    with [posix_acl_from_xattr] gives, unless the allocation fails with
    [-ENOMEM], an ACL with the same tags, permissions and named ids in the same
    order; ids of unnamed entries, which mean nothing, come back as
    [ACL_UNDEFINED_ID], so the entries are the same if they had that before.
    The ACL read back is valid, grants access and reads as a mode exactly as the
    original does.  The buffer beyond the value is not touched. *)
Theorem posix_acl_xattr_roundtrip {C} `{Cred C} (kmalloc : Z -> option (list posix_acl_entry)) acl buf size :
  (forall n es, 0 <= n -> kmalloc (8 + n * 8) = Some es -> length es = Z.to_nat n) ->
  acl_typed acl -> Forall known_tag (a_entries acl) -> 0 < a_count acl < 2 ^ 27 ->
  4 + 8 * a_count acl <= Z.of_nat (length buf) -> 4 + 8 * a_count acl <= size ->
  exists buf' acl', posix_acl_to_xattr acl (Some buf) size = Some (4 + 8 * a_count acl, Some buf') /\
    length buf' = length buf /\
    (forall i, 4 + 8 * a_count acl <= i -> arr_get buf' i = arr_get buf i) /\
    posix_acl_from_xattr kmalloc (Some buf') (4 + 8 * a_count acl) =
    Some (match kmalloc (8 + a_count acl * 8) with None => ERR_PTR (- ENOMEM) | Some _ => PTR acl' end) /\
    a_count acl' = a_count acl /\
    Forall2 (fun e e' => e_tag e' = e_tag e /\ e_perm e' = e_perm e /\
      e_id e' = if named e then e_id e else ACL_UNDEFINED_ID) (a_entries acl) (a_entries acl') /\
    (Forall (fun e => named e = false -> e_id e = ACL_UNDEFINED_ID) (a_entries acl) ->
     a_entries acl' = a_entries acl) /\
    posix_acl_valid acl' = posix_acl_valid acl /\
    (forall cred inode want, posix_acl_permission cred inode want acl' = posix_acl_permission cred inode want acl) /\
    (forall mode_p, posix_acl_equiv_mode acl' mode_p = posix_acl_equiv_mode acl mode_p).
Proof.
  intros Hk Ht Htags Hc Hbuf Hsize. pose proof Ht as [Hcount Hty].
  eexists _, (Acl 1 (a_count acl) (read_back <$> a_entries acl)).
  split; [apply posix_acl_to_xattr_ok; done || lia|].
  assert (Z.of_nat (length (xattr_value (a_entries acl))) = 4 + 8 * a_count acl) as Hlen.
  { unfold xattr_value. rewrite length_app, length_entries_bytes. simpl. lia. }
  split; [rewrite length_app, length_drop; lia|]. split.
  { intros i Hi. unfold arr_get. rewrite (proj2 (Z.leb_le 0 i)) by lia.
    rewrite lookup_app_r by lia. rewrite lookup_drop. f_equal. lia. }
  split.
  { rewrite Hcount. apply posix_acl_from_xattr_ok; [done | done | done | | lia].
    intros E. rewrite E in Hcount. simpl in Hcount. lia. }
  split; [done|]. split; [apply read_back_entries|]. split; [apply read_back_same|].
  split; [apply read_back_valid|]. split; [intros; apply read_back_permission | intros; apply read_back_equiv_mode].
Qed.

Definition sample_kmalloc (size : Z) : option (list posix_acl_entry) :=
  Some (replicate (Z.to_nat ((size - 8) / 8)) (Entry 0 0 0)).

Lemma posix_acl_xattr_roundtrip_witness :
  exists buf' acl', posix_acl_to_xattr sample_acl (Some (replicate 60 0)) 60 = Some (52, Some buf') /\
    length buf' = 60%nat /\
    (forall i, 52 <= i -> arr_get buf' i = arr_get (replicate 60 0) i) /\
    posix_acl_from_xattr sample_kmalloc (Some buf') 52 = Some (PTR acl') /\
    a_count acl' = 6 /\
    Forall2 (fun e e' => e_tag e' = e_tag e /\ e_perm e' = e_perm e /\
      e_id e' = if named e then e_id e else ACL_UNDEFINED_ID) (a_entries sample_acl) (a_entries acl') /\
    (Forall (fun e => named e = false -> e_id e = ACL_UNDEFINED_ID) (a_entries sample_acl) ->
     a_entries acl' = a_entries sample_acl) /\
    posix_acl_valid acl' = Some 0 /\
    (forall cred inode want, @posix_acl_permission Z sample_cred cred inode want acl' =
       @posix_acl_permission Z sample_cred cred inode want sample_acl) /\
    (forall mode_p, posix_acl_equiv_mode acl' mode_p = posix_acl_equiv_mode sample_acl mode_p).
Proof.
  apply (@posix_acl_xattr_roundtrip Z sample_cred sample_kmalloc sample_acl (replicate 60 0) 60).
  - intros n es Hn [= <-]. rewrite length_replicate. f_equal.
    replace (8 + n * 8 - 8) with (n * 8) by lia. apply Z.div_mul. lia.
  - exact sample_acl_typed.
  - repeat constructor; unfold known_tag; simpl; tauto.
  - simpl. lia.
  - rewrite length_replicate. simpl. lia.
  - simpl. lia.
Defined.
