(* ===== verification/Groups.v ===== *)
(** * Supplementary groups

    [kernel/groups.c]: the two-level array of supplementary group ids of a
    credential, its allocation, the transfer from and to user space, the Shell
    sort that [set_groups] applies and the binary search that
    [groups_search], [in_group_p] and [in_egroup_p] use.

    [blocks] is the array of pages (or the single inline block); [GROUP_AT]
    reads it as one array.  The allocators and the copies to and from user
    space are arguments. *)

From S2P Require Import Prelude PosixAcl.
Open Scope c_scope.

(** ** Data ([include/linux/cred.h]) *)

Definition NGROUPS_SMALL : Z := 32.
Definition NGROUPS_PER_BLOCK : Z := 1024.
Definition NGROUPS_MAX : Z := 65536.

Record group_info := GroupInfo {
  gi_usage : Z; ngroups : Z; nblocks : Z; blocks : list (list Z)
}.

Definition set_blocks (gi : group_info) (b : list (list Z)) : group_info :=
  GroupInfo (gi_usage gi) (ngroups gi) (nblocks gi) b.

(** [GROUP_AT(gi, i)] as a value and as the left side of an assignment. *)
Definition GROUP_AT (gi : group_info) (i : Z) : option Z :=
  b ← arr_get (blocks gi) (i / NGROUPS_PER_BLOCK); arr_get b (i mod NGROUPS_PER_BLOCK).

Definition set_GROUP_AT (gi : group_info) (i v : Z) : option group_info :=
  b ← arr_get (blocks gi) (i / NGROUPS_PER_BLOCK);
  b' ← arr_set b (i mod NGROUPS_PER_BLOCK) v;
  bs ← arr_set (blocks gi) (i / NGROUPS_PER_BLOCK) b';
  Some (set_blocks gi bs).

(** ** Allocation and transfer *)

Section transfer.
(** The uninitialised inline block of a fresh [struct group_info], if
    [kmalloc] succeeds, and the contents of the [i]-th fresh page, if
    [__get_free_page] succeeds. *)
Variable kmalloc : option (list Z).
Variable get_free_page : Z -> option (list Z).
(** [copy_from_user] of the ids [from, from + n) of the user's array:
    [None] when the copy faults. *)
Variable copy_from_user : Z -> Z -> option (list Z).

(** The second component lists the pages freed on the error path. *)
Definition groups_alloc (gidsetsize : Z) : option group_info * list Z :=
  let nb := (gidsetsize + NGROUPS_PER_BLOCK - 1) / NGROUPS_PER_BLOCK in
  let nb := if nb =? 0 then 1 else nb in
  match kmalloc with
  | None => (None, [])
  | Some small_block =>
      if gidsetsize <=? NGROUPS_SMALL then (Some (GroupInfo 1 gidsetsize nb [small_block]), [])
      else
        match c_for 0 nb (fun i bs =>
                Some (match get_free_page i with
                      | None => inr i
                      | Some b => inl (bs ++ [b])
                      end)) [] with
        | Some (inl bs) => (Some (GroupInfo 1 gidsetsize nb bs), [])
        | Some (inr i) => (None, rev (seqZ 0 i))
        | None => (None, [])
        end
  end.

(** [copy_from_user(group_info->blocks[i], grouplist, len)] overwrites the
    first [cp_count] ids of the block. *)
Definition groups_from_user (gi : group_info) : option (Z * group_info) :=
  r ← c_for 0 (nblocks gi) (fun i '(gl, count, gi) =>
    let cp_count := Z.min NGROUPS_PER_BLOCK count in
    match copy_from_user gl cp_count with
    | None => Some (inr (- EFAULT, gi))
    | Some ids =>
        b ← arr_get (blocks gi) i;
        bs ← arr_set (blocks gi) i (ids ++ drop (length ids) b);
        Some (inl (gl + NGROUPS_PER_BLOCK, count - cp_count, set_blocks gi bs))
    end) (0, ngroups gi, gi);
  match r with
  | inl (_, _, gi) => Some (0, gi)
  | inr (e, gi) => Some (e, gi)
  end.
End transfer.

(** [copy_to_user] of a block is [store gl ids]: [None] when it faults. *)
Definition groups_to_user {U} (store : U -> Z -> list Z -> option U) (u : U) (gi : group_info)
    : option (Z * U) :=
  r ← c_for 0 (nblocks gi) (fun i '(gl, count, u) =>
    let cp_count := Z.min NGROUPS_PER_BLOCK count in
    b ← arr_get (blocks gi) i;
    Some (match store u gl (take (Z.to_nat cp_count) b) with
          | None => inr (- EFAULT, u)
          | Some u' => inl (gl + NGROUPS_PER_BLOCK, count - cp_count, u')
          end)) (0, ngroups gi, u);
  match r with
  | inl (_, _, u) => Some (0, u)
  | inr (e, u) => Some (e, u)
  end.

(** ** Sorting *)

(** The body of the [for] loop: insert the element at [base + stride] among
    those at distance [stride] below it. *)
Definition groups_sort_insert (stride base : Z) (gi : group_info) : option group_info :=
  let lft := base in
  let rgt := lft + stride in
  tmp ← GROUP_AT gi rgt;
  '(rgt, gi) ← c_loop (S (S (Z.to_nat base))) (fun '(lft, rgt, gi) =>
    if 0 <=? lft then
      v ← GROUP_AT gi lft;
      if tmp <? v then
        gi' ← set_GROUP_AT gi rgt v;
        Some (inl (lft - stride, lft, gi'))
      else Some (inr (rgt, gi))
    else Some (inr (rgt, gi))) (lft, rgt, gi);
  set_GROUP_AT gi rgt tmp.

Definition groups_sort_pass (stride : Z) (gi : group_info) : option group_info :=
  c_for_all 0 (ngroups gi - stride) (groups_sort_insert stride) gi.

Definition groups_sort (gi : group_info) : option group_info :=
  let gidsetsize := ngroups gi in
  stride ← c_loop (S (Z.to_nat gidsetsize)) (fun stride =>
    Some (if stride <? gidsetsize then inl (3 * stride + 1) else inr stride)) 1;
  c_loop (S (Z.to_nat stride)) (fun '(stride, gi) =>
    if stride =? 0 then Some (inr gi)
    else gi' ← groups_sort_pass stride gi; Some (inl (stride / 3, gi'))) (stride / 3, gi).

(** ** Searching *)

(** [gi = None] is a null pointer. *)
Definition groups_search (gi : option group_info) (grp : Z) : option Z :=
  match gi with
  | None => Some 0
  | Some gi =>
      c_loop (S (Z.to_nat (ngroups gi))) (fun '(lft, rgt) =>
        if lft <? rgt then
          let mid := u32 (lft + rgt) / 2 in
          v ← GROUP_AT gi mid;
          if v <? grp then Some (inl (mid + 1, rgt))
          else if grp <? v then Some (inl (lft, mid))
          else Some (inr 1)
        else Some (inr 0)) (0, ngroups gi)
  end.

(** The fields of [struct cred] used here. *)
Record cred := MkCred { fsuid : Z; fsgid : Z; egid : Z; cr_group_info : option group_info }.

Definition in_group_p (c : cred) (grp : Z) : option Z :=
  if negb (grp =? fsgid c) then groups_search (cr_group_info c) grp else Some 1.

Definition in_egroup_p (c : cred) (grp : Z) : option Z :=
  if negb (grp =? egid c) then groups_search (cr_group_info c) grp else Some 1.

(** The old [group_info] of the credential loses a reference and the new one,
    sorted, gains one. *)
Definition set_groups (new : cred) (gi : group_info) : option cred :=
  gi ← groups_sort gi;
  Some (MkCred (fsuid new) (fsgid new) (egid new)
          (Some (GroupInfo (gi_usage gi + 1) (ngroups gi) (nblocks gi) (blocks gi)))).

(** ** The block array as one array *)

(** Every block but the last is a full page. *)
Fixpoint full_blocks (bs : list (list Z)) : Prop :=
  match bs with
  | [] => True
  | [b] => Z.of_nat (length b) <= NGROUPS_PER_BLOCK
  | b :: bs => Z.of_nat (length b) = NGROUPS_PER_BLOCK /\ full_blocks bs
  end.

Record gi_wf (gi : group_info) : Prop := {
  wf_nblocks : nblocks gi = Z.of_nat (length (blocks gi));
  wf_full : full_blocks (blocks gi);
  wf_ngroups : 0 <= ngroups gi <= NGROUPS_MAX;
  wf_room : ngroups gi <= Z.of_nat (length (concat (blocks gi)))
}.

(** The group ids of a [group_info]. *)
Definition gids (gi : group_info) : list Z := take (Z.to_nat (ngroups gi)) (concat (blocks gi)).

Lemma full_cons b bs : full_blocks (b :: bs) ->
  full_blocks bs /\ Z.of_nat (length b) <= NGROUPS_PER_BLOCK /\
  (bs = [] \/ Z.of_nat (length b) = NGROUPS_PER_BLOCK).
Proof. destruct bs; simpl; [auto | intros [-> ?]; repeat split; auto; lia]. Qed.

Lemma full_cons_same b b' bs : length b' = length b -> full_blocks (b :: bs) -> full_blocks (b' :: bs).
Proof. intros E. simpl. by rewrite E. Qed.

(** Splitting an index into block and offset. *)
Lemma block_index (b : list Z) bs i : full_blocks (b :: bs) ->
  0 <= i < Z.of_nat (length (concat (b :: bs))) ->
  (i < Z.of_nat (length b) /\ i / NGROUPS_PER_BLOCK = 0 /\ i mod NGROUPS_PER_BLOCK = i) \/
  (Z.of_nat (length b) = NGROUPS_PER_BLOCK /\ NGROUPS_PER_BLOCK <= i /\
   0 <= i - NGROUPS_PER_BLOCK < Z.of_nat (length (concat bs)) /\
   i / NGROUPS_PER_BLOCK = (i - NGROUPS_PER_BLOCK) / NGROUPS_PER_BLOCK + 1 /\
   i mod NGROUPS_PER_BLOCK = (i - NGROUPS_PER_BLOCK) mod NGROUPS_PER_BLOCK).
Proof.
  intros (_ & Hle & Hb)%full_cons Hi. rewrite concat_cons, length_app in Hi.
  unfold NGROUPS_PER_BLOCK in *. destruct (Z.lt_ge_cases i (Z.of_nat (length b))); [left | right].
  - Z.div_mod_to_equations. lia.
  - destruct Hb as [-> |]; [simpl in Hi; lia|]. Z.div_mod_to_equations. lia.
Qed.

Lemma arr_get_cons {A} (x : A) l i : 0 <= i -> arr_get (x :: l) (i + 1) = arr_get l i.
Proof.
  intros Hi. unfold arr_get. rewrite !(proj2 (Z.leb_le 0 _)) by lia.
  by replace (Z.to_nat (i + 1)) with (S (Z.to_nat i)) by lia.
Qed.

Lemma arr_set_cons {A} (x y : A) l i : 0 <= i < Z.of_nat (length l) ->
  arr_set (x :: l) (i + 1) y = Some (x :: <[Z.to_nat i := y]> l).
Proof.
  intros Hi. rewrite arr_set_Some by (simpl; lia).
  by replace (Z.to_nat (i + 1)) with (S (Z.to_nat i)) by lia.
Qed.

Lemma arr_get_app_l {A} (l1 l2 : list A) i : i < Z.of_nat (length l1) -> arr_get (l1 ++ l2) i = arr_get l1 i.
Proof.
  intros Hi. unfold arr_get. destruct (Z.leb_spec 0 i); [|done]. apply lookup_app_l. lia.
Qed.

Lemma arr_get_app_r {A} (l1 l2 : list A) i : Z.of_nat (length l1) <= i ->
  arr_get (l1 ++ l2) i = arr_get l2 (i - Z.of_nat (length l1)).
Proof.
  intros Hi. unfold arr_get. rewrite !(proj2 (Z.leb_le 0 _)) by lia.
  rewrite lookup_app_r by lia. f_equal. lia.
Qed.

Lemma block_get bs i : full_blocks bs -> 0 <= i < Z.of_nat (length (concat bs)) ->
  (b ← arr_get bs (i / NGROUPS_PER_BLOCK); arr_get b (i mod NGROUPS_PER_BLOCK)) = arr_get (concat bs) i.
Proof.
  revert i. induction bs as [|b bs IH]; intros i Hf Hi; [simpl in Hi; lia|].
  destruct (block_index b bs i Hf Hi) as [(Hlt & -> & ->)|(Hb & Hge & Hi' & -> & ->)]; rewrite concat_cons.
  - simpl. by rewrite arr_get_app_l.
  - rewrite arr_get_cons by (apply Z.div_pos; unfold NGROUPS_PER_BLOCK in *; lia).
    apply full_cons in Hf as [Hf _]. rewrite IH by done. by rewrite arr_get_app_r, Hb by lia.
Qed.

Lemma block_set bs i v : full_blocks bs -> 0 <= i < Z.of_nat (length (concat bs)) ->
  wp (b ← arr_get bs (i / NGROUPS_PER_BLOCK);
      b' ← arr_set b (i mod NGROUPS_PER_BLOCK) v;
      arr_set bs (i / NGROUPS_PER_BLOCK) b') (fun bs' =>
    full_blocks bs' /\ length bs' = length bs /\ concat bs' = <[Z.to_nat i := v]> (concat bs)).
Proof.
  revert i. induction bs as [|b bs IH]; intros i Hf Hi; [simpl in Hi; lia|].
  pose proof (full_cons _ _ Hf) as (Hf' & _ & _).
  destruct (block_index b bs i Hf Hi) as [(Hlt & -> & ->)|(Hb & Hge & Hi' & -> & ->)].
  - change (arr_get (b :: bs) 0) with (Some b). cbn [mbind option_bind].
    rewrite arr_set_Some by lia. cbn [mbind option_bind]. rewrite arr_set_Some by (simpl; lia). simpl.
    split; [apply (full_cons_same b); [apply length_insert | done]|]. split; [done|].
    by rewrite insert_app_l by lia.
  - set (q := (i - NGROUPS_PER_BLOCK) / NGROUPS_PER_BLOCK) in *.
    assert (0 <= q) by (apply Z.div_pos; unfold NGROUPS_PER_BLOCK in *; lia).
    rewrite arr_get_cons by done. specialize (IH _ Hf' Hi'). fold q in IH.
    destruct (arr_get bs q) as [b0|] eqn:Eb; [|done]. simpl in *.
    destruct (arr_set b0 _ v) as [b'|]; [|done]. simpl in *.
    apply arr_get_range in Eb. rewrite arr_set_Some in IH by done. simpl in IH.
    rewrite arr_set_cons by done. simpl. destruct IH as (Hf'' & Hl & Hc).
    split; [|split].
    + destruct (<[Z.to_nat q:=b']> bs) as [|b1 bs1] eqn:E; [|by split].
      apply (f_equal length) in E. rewrite length_insert in E. simpl in E. lia.
    + by rewrite Hl.
    + rewrite Hc, insert_app_r_alt by lia. do 2 f_equal. lia.
Qed.

Lemma length_gids gi : gi_wf gi -> Z.of_nat (length (gids gi)) = ngroups gi.
Proof. intros [_ _ ? ?]. unfold gids. rewrite length_take. lia. Qed.

Lemma GROUP_AT_gids gi i : gi_wf gi -> 0 <= i < ngroups gi -> GROUP_AT gi i = Some (zth (gids gi) i).
Proof.
  intros Hwf Hi. pose proof Hwf as [_ ? ? ?]. unfold GROUP_AT. rewrite block_get by (done || lia).
  rewrite <- arr_get_zth by (rewrite length_gids; done). unfold gids, arr_get.
  rewrite (proj2 (Z.leb_le 0 i)) by lia. by rewrite lookup_take_lt by lia.
Qed.

(** [gi'] differs from [gi] in its ids only. *)
Definition same_gi (gi gi' : group_info) : Prop :=
  gi_wf gi' /\ ngroups gi' = ngroups gi /\ gi_usage gi' = gi_usage gi.

Lemma set_GROUP_AT_gids gi i v : gi_wf gi -> 0 <= i < ngroups gi ->
  wp (set_GROUP_AT gi i v) (fun gi' => same_gi gi gi' /\ gids gi' = <[Z.to_nat i := v]> (gids gi)).
Proof.
  intros [Hnb Hf Hn Hr] Hi. unfold set_GROUP_AT.
  pose proof (block_set (blocks gi) i v Hf ltac:(lia)) as H.
  destruct (arr_get (blocks gi) _) as [b|]; [|done]. simpl in *.
  destruct (arr_set b _ v) as [b'|]; [|done]. simpl in *.
  destruct (arr_set (blocks gi) _ b') as [bs|]; [|done]. simpl in *.
  destruct H as (Hf' & Hl & Hc). split; [split; [|done]; split; simpl|].
  - by rewrite Hl.
  - done.
  - done.
  - by rewrite Hc, length_insert.
  - unfold gids. simpl. rewrite Hc. apply take_insert_lt. lia.
Qed.

(** ** Correctness of the sort *)

Definition sorted_upto (l : list Z) (k : Z) : Prop :=
  forall i j, 0 <= i <= j -> j < k -> zth l i <= zth l j.

(** Moving an element from [i] to the hole at [j] moves the hole to [i]. *)
Lemma move_hole (l : list Z) i j tmp : i <> j -> 0 <= i < Z.of_nat (length l) -> 0 <= j < Z.of_nat (length l) ->
  <[Z.to_nat i := tmp]> (<[Z.to_nat j := zth l i]> l) ≡ₚ <[Z.to_nat j := tmp]> l.
Proof.
  intros Hne Hi Hj.
  rewrite <- (Permutation_insert_swap (<[Z.to_nat j := tmp]> l) (Z.to_nat j) (Z.to_nat i) tmp (zth l i)).
  - by rewrite list_insert_insert_eq.
  - rewrite list_lookup_insert_eq; [done | lia].
  - rewrite list_lookup_insert_ne by lia. by apply lookup_zth.
Qed.

(** The state of the insertion loop: the hole is at [rgt], the elements above
    it have moved up by one stride. *)
Record hole_inv (gi : group_info) (stride base tmp lft rgt : Z) (g : group_info) : Prop := {
  hole_same : same_gi gi g;
  hole_pos : rgt = lft + stride;
  hole_range : - stride <= lft <= base;
  hole_perm : <[Z.to_nat rgt := tmp]> (gids g) ≡ₚ gids gi;
  hole_low : forall j, j <= lft -> zth (gids g) j = zth (gids gi) j;
  hole_high : stride = 1 -> forall j, rgt < j <= base + 1 ->
    zth (gids g) j = zth (gids gi) (j - 1) /\ tmp < zth (gids gi) (j - 1)
}.

Section insertion.
Context (gi : group_info) (stride base : Z).
Context (Hwf : gi_wf gi) (Hs : 1 <= stride) (Hb : 0 <= base) (Hend : base + stride < ngroups gi).

Local Abbreviation tmp := (zth (gids gi) (base + stride)).

Lemma hole_init : hole_inv gi stride base tmp base (base + stride) gi.
Proof.
  split; try done; try lia. rewrite list_insert_id; [done|].
  apply lookup_zth. rewrite length_gids by done. lia.
Qed.

Lemma hole_step lft rgt g : hole_inv gi stride base tmp lft rgt g -> 0 <= lft ->
  tmp < zth (gids g) lft ->
  wp (set_GROUP_AT g rgt (zth (gids g) lft)) (hole_inv gi stride base tmp (lft - stride) lft).
Proof.
  intros [(Hg & Hn & Hu) -> Hr Hp Hl Hh] Hlft Hlt.
  eapply wp_mono; [apply set_GROUP_AT_gids; [done | lia]|].
  intros g' ((Hg' & Hn' & Hu') & Hids). pose proof (length_gids g Hg) as Hlen.
  split.
  - split; [done | split; congruence].
  - lia.
  - lia.
  - rewrite Hids, move_hole by lia. done.
  - intros j Hj. rewrite Hids. rewrite zth_insert_ne by lia. apply Hl. lia.
  - intros -> j Hj. rewrite Hids. destruct (Z.eq_dec j (lft + 1)) as [->|Hne].
    + rewrite zth_insert_eq by lia. replace (lft + 1 - 1) with lft by lia.
      rewrite <- Hl by lia. done.
    + rewrite zth_insert_ne by lia. apply Hh; [done | lia].
Qed.

Lemma hole_close lft rgt g : hole_inv gi stride base tmp lft rgt g ->
  (0 <= lft -> zth (gids g) lft <= tmp) ->
  wp (set_GROUP_AT g rgt tmp) (fun g' => same_gi gi g' /\ gids g' ≡ₚ gids gi /\
    (stride = 1 -> sorted_upto (gids gi) (base + 1) -> sorted_upto (gids g') (base + 2))).
Proof.
  intros [(Hg & Hn & Hu) -> Hr Hp Hl Hh] Hle.
  eapply wp_mono; [apply set_GROUP_AT_gids; [done | lia]|].
  intros g' ((Hg' & Hn' & Hu') & Hids). pose proof (length_gids g Hg) as Hlen.
  split; [split; [done | split; congruence]|]. split; [by rewrite Hids|].
  intros Hs1 Hsort i j Hij Hj. rewrite Hids. specialize (Hh Hs1).
  generalize dependent tmp. intros t Hp Hh Hle Hids. rewrite Hs1 in *. clear Hs1.
  assert (forall k, 0 <= k < base + 2 -> zth (<[Z.to_nat (lft + 1) := t]> (gids g)) k =
    if k <? lft + 1 then zth (gids gi) k else if k =? lft + 1 then t else zth (gids gi) (k - 1)) as Hval.
  { intros k Hk. destruct (Z.ltb_spec k (lft + 1)), (Z.eqb_spec k (lft + 1)) as [->|]; try lia.
    - rewrite zth_insert_ne by lia. apply Hl. lia.
    - by rewrite zth_insert_eq by lia.
    - rewrite zth_insert_ne by lia. apply Hh. lia. }
  rewrite !Hval by lia. rewrite Hl in Hle by lia.
  destruct (Z.ltb_spec i (lft + 1)), (Z.eqb_spec i (lft + 1)), (Z.ltb_spec j (lft + 1)),
    (Z.eqb_spec j (lft + 1)); try lia.
  - apply Hsort; lia.
  - pose proof (Hsort i lft ltac:(lia) ltac:(lia)). lia.
  - apply Hsort; lia.
  - destruct (Hh j ltac:(lia)). lia.
  - apply Hsort; lia.
Qed.

Lemma groups_sort_insert_ok :
  wp (groups_sort_insert stride base gi) (fun g' => same_gi gi g' /\ gids g' ≡ₚ gids gi /\
    (stride = 1 -> sorted_upto (gids gi) (base + 1) -> sorted_upto (gids g') (base + 2))).
Proof.
  unfold groups_sort_insert. rewrite GROUP_AT_gids by (done || lia). cbn [mbind option_bind].
  wp_step. eapply wp_mono.
  { apply (c_loop_inv (fun '(lft, rgt, g) => hole_inv gi stride base tmp lft rgt g)
      (fun '(lft, rgt, g) => Z.max 0 (lft + 1))
      (fun '(rgt, g) => exists lft, hole_inv gi stride base tmp lft rgt g /\
        (0 <= lft -> zth (gids g) lft <= tmp))).
    - intros [[lft rgt] g] _. lia.
    - intros [[lft rgt] g] Hinv. destruct (Z.leb_spec 0 lft).
      2:{ exists lft. split; [done | lia]. }
      pose proof Hinv as [(Hg & Hn & Hu) -> Hr _ _ _].
      rewrite GROUP_AT_gids by (done || lia). cbn [mbind option_bind].
      destruct (Z.ltb_spec tmp (zth (gids g) lft)).
      + wp_step. eapply wp_mono; [by apply hole_step|]. intros g' Hg'. simpl. split; [done | lia].
      + exists lft. by split.
    - apply hole_init.
    - lia. }
  intros [rgt g] (lft & Hinv & Hle). by apply (hole_close lft).
Qed.
End insertion.

Lemma same_gi_trans gi g g' : same_gi gi g -> same_gi g g' -> same_gi gi g'.
Proof. intros (? & ? & ?) (? & ? & ?). split; [done | split; congruence]. Qed.

Lemma groups_sort_pass_ok stride gi : gi_wf gi -> 1 <= stride <= ngroups gi ->
  wp (groups_sort_pass stride gi) (fun g => same_gi gi g /\ gids g ≡ₚ gids gi /\
    (stride = 1 -> sorted_upto (gids g) (ngroups gi))).
Proof.
  intros Hwf Hs. unfold groups_sort_pass.
  eapply wp_mono; [apply (c_for_all_inv (fun k g => same_gi gi g /\ gids g ≡ₚ gids gi /\
    (stride = 1 -> sorted_upto (gids g) (k + 1)))); [lia | |]|].
  - split; [done|]. split; [done|]. intros _ i j Hij Hj. by replace i with j by lia.
  - intros k g Hk (Hsame & Hp & Hsort). pose proof Hsame as (Hg & Hn & _).
    eapply wp_mono; [apply groups_sort_insert_ok; done || lia|]. intros g' (Hsame' & Hp' & Hsort').
    split; [by eapply same_gi_trans|]. split; [by rewrite Hp'|].
    intros E. replace (k + 1 + 1) with (k + 2) by lia. auto.
  - intros g (? & ? & Hsort). split; [done|]. split; [done|]. intros E.
    specialize (Hsort E). by replace (ngroups gi - stride + 1) with (ngroups gi) in Hsort by lia.
Qed.

(** The strides 1, 4, 13, 40, ... *)
Inductive stride_chain : Z -> Prop :=
  | chain_1 : stride_chain 1
  | chain_next s : stride_chain s -> stride_chain (3 * s + 1).

Lemma chain_pos s : stride_chain s -> 1 <= s.
Proof. induction 1; lia. Qed.

Lemma chain_div s : stride_chain s -> (s = 1 /\ s / 3 = 0) \/ stride_chain (s / 3).
Proof.
  destruct 1 as [|s Hs]; [by left|]. right.
  by replace ((3 * s + 1) / 3) with s by (Z.div_mod_to_equations; lia).
Qed.

Lemma groups_sort_ok gi : gi_wf gi ->
  wp (groups_sort gi) (fun g => same_gi gi g /\ gids g ≡ₚ gids gi /\ sorted_upto (gids g) (ngroups gi)).
Proof.
  intros Hwf. pose proof (wf_ngroups gi Hwf) as Hn. unfold groups_sort. wp_step.
  eapply wp_mono.
  { apply (c_loop_inv (fun s => stride_chain s /\ (s = 1 \/ s / 3 < ngroups gi))
      (fun s => Z.max 0 (ngroups gi - s))
      (fun s => stride_chain s /\ (s = 1 \/ s / 3 < ngroups gi) /\ ngroups gi <= s)).
    - lia.
    - intros s [Hc Hlt]. pose proof (chain_pos s Hc). destruct (Z.ltb_spec s (ngroups gi)); [|done].
      simpl. split; [|lia]. split; [by apply chain_next|]. right. Z.div_mod_to_equations. lia.
    - split; [apply chain_1 | by left].
    - lia. }
  intros s0 (Hc0 & Hlt0 & Hge0).
  apply (c_loop_inv (fun '(s, g) => same_gi gi g /\ gids g ≡ₚ gids gi /\ s / 3 <= s /\
      ((s = 0 /\ sorted_upto (gids g) (ngroups gi)) \/ (stride_chain s /\ s < ngroups gi)))
    (fun '(s, g) => s)).
  - intros [s g] (_ & _ & _ & [[-> _]|[Hc _]]); [done|]. by pose proof (chain_pos s Hc); lia.
  - intros [s g] (Hsame & Hp & _ & Hs). pose proof Hsame as (Hg & Hng & _).
    destruct (Z.eqb_spec s 0) as [->|Hs0].
    { split; [done|]. split; [done|]. destruct Hs as [[_ ?]|[Hc _]]; [done|]. by apply chain_pos in Hc. }
    destruct Hs as [[? _]|[Hc Hlt]]; [done|]. pose proof (chain_pos s Hc).
    wp_step. eapply wp_mono; [apply groups_sort_pass_ok; [done | lia]|].
    intros g' (Hsame' & Hp' & Hsort). simpl. split; [|Z.div_mod_to_equations; lia].
    split; [by eapply same_gi_trans|]. split; [by rewrite Hp'|].
    split; [Z.div_mod_to_equations; lia|].
    destruct (chain_div s Hc) as [[-> ->]|Hc']; [left | right].
    + split; [done|]. rewrite <- Hng. by apply Hsort.
    + split; [done|]. Z.div_mod_to_equations. lia.
  - split; [done|]. split; [done|]. pose proof (chain_pos s0 Hc0).
    split; [Z.div_mod_to_equations; lia|].
    destruct (chain_div s0 Hc0) as [[-> ->]|Hc']; [left | right].
    + split; [done|]. intros i j Hij Hj. by replace i with j by lia.
    + split; [done|]. destruct Hlt0 as [->|]; [|done]. by apply chain_pos in Hc'.
  - pose proof (chain_pos s0 Hc0). Z.div_mod_to_equations. lia.
Qed.

Lemma groups_search_ok gi grp : gi_wf gi -> sorted_upto (gids gi) (ngroups gi) ->
  wp (groups_search (Some gi) grp) (decides (In grp (gids gi))).
Proof.
  intros Hwf Hsort. pose proof (wf_ngroups gi Hwf) as Hn. pose proof (length_gids gi Hwf) as Hlen.
  unfold groups_search, NGROUPS_MAX in *.
  apply (c_loop_inv (fun '(l, r) => 0 <= l <= r /\ r <= ngroups gi /\
      (forall i, 0 <= i < l -> zth (gids gi) i < grp) /\
      (forall i, r <= i < ngroups gi -> grp < zth (gids gi) i))
    (fun '(l, r) => r - l)).
  - intros [l r]. lia.
  - intros [l r] (Hl & Hr & Hlow & Hhigh). destruct (Z.ltb_spec l r).
    + rewrite u32_small by (unfold is_u32; lia). set (mid := (l + r) / 2).
      assert (l <= mid < r) by (unfold mid; Z.div_mod_to_equations; lia).
      rewrite GROUP_AT_gids by (done || lia). cbn [mbind option_bind].
      destruct (Z.ltb_spec (zth (gids gi) mid) grp); [|destruct (Z.ltb_spec grp (zth (gids gi) mid))].
      * simpl. split; [|lia]. split; [lia|]. split; [lia|]. split; [|done].
        intros i Hi. pose proof (Hsort i mid ltac:(lia) ltac:(lia)). lia.
      * simpl. split; [|lia]. split; [lia|]. split; [lia|]. split; [done|].
        intros i Hi. pose proof (Hsort mid i ltac:(lia) ltac:(lia)). lia.
      * left. split; [done|]. assert (grp = zth (gids gi) mid) as -> by lia.
        apply list_elem_of_In, (list_elem_of_lookup_2 _ (Z.to_nat mid)), lookup_zth. lia.
    + right. split; [done|]. intros (i & Hi)%list_elem_of_In%list_elem_of_lookup_1.
      pose proof (lookup_lt_Some _ _ _ Hi).
      assert (zth (gids gi) (Z.of_nat i) = grp) as E.
      { unfold zth, arr_get. rewrite (proj2 (Z.leb_le 0 _)), Nat2Z.id, Hi by lia. done. }
      destruct (Z.lt_ge_cases (Z.of_nat i) l).
      * specialize (Hlow (Z.of_nat i)). lia.
      * specialize (Hhigh (Z.of_nat i)). lia.
  - split; [lia|]. split; [lia|]. split; intros; lia.
  - lia.
Qed.

(** ** From the user's array to the credential *)

Section setgroups.
Variable kmalloc : option (list Z).
Variable get_free_page : Z -> option (list Z).
Variable copy_from_user : Z -> Z -> option (list Z).
Variable user : list Z.

(** The inline block has [NGROUPS_SMALL] ids, a page [NGROUPS_PER_BLOCK], and
    a copy that does not fault delivers the user's ids. *)
Hypothesis kmalloc_small : forall b, kmalloc = Some b -> Z.of_nat (length b) = NGROUPS_SMALL.
Hypothesis page_size : forall i b, get_free_page i = Some b -> Z.of_nat (length b) = NGROUPS_PER_BLOCK.
Hypothesis copy_delivers : forall gl n ids, copy_from_user gl n = Some ids ->
  ids = take (Z.to_nat n) (drop (Z.to_nat gl) user).

Lemma full_blocks_all bs : Forall (fun b => Z.of_nat (length b) = NGROUPS_PER_BLOCK) bs ->
  full_blocks bs /\ Z.of_nat (length (concat bs)) = NGROUPS_PER_BLOCK * Z.of_nat (length bs).
Proof.
  induction 1 as [|b bs Hb Hbs [IHf IHl]]; [done|]. split.
  - destruct bs; simpl in *; [lia | done].
  - rewrite concat_cons, length_app. simpl. lia.
Qed.

Lemma groups_alloc_ok gidsetsize : 0 <= gidsetsize <= NGROUPS_MAX ->
  (forall gi freed, groups_alloc kmalloc get_free_page gidsetsize = (Some gi, freed) ->
    freed = [] /\ gi_wf gi /\ ngroups gi = gidsetsize /\ gi_usage gi = 1 /\
    nblocks gi = (if gidsetsize =? 0 then 1 else (gidsetsize + 1023) / 1024)) /\
  (forall freed, groups_alloc kmalloc get_free_page gidsetsize = (None, freed) -> kmalloc <> None ->
    exists i, get_free_page i = None /\ (forall j, 0 <= j < i -> get_free_page j <> None) /\
      freed = rev (seqZ 0 i)).
Proof.
  intros Hg. unfold groups_alloc, NGROUPS_MAX, NGROUPS_SMALL in *.
  replace (gidsetsize + NGROUPS_PER_BLOCK - 1) with (gidsetsize + 1023) by (unfold NGROUPS_PER_BLOCK; lia).
  set (nb := (gidsetsize + 1023) / NGROUPS_PER_BLOCK).
  assert ((if nb =? 0 then 1 else nb) = if gidsetsize =? 0 then 1 else (gidsetsize + 1023) / 1024) as ->.
  { unfold nb, NGROUPS_PER_BLOCK.
    destruct (Z.eqb_spec gidsetsize 0) as [->|]; [done|].
    rewrite (proj2 (Z.eqb_neq _ _)) by (Z.div_mod_to_equations; lia). done. }
  set (n := if gidsetsize =? 0 then 1 else _).
  assert (1 <= n /\ gidsetsize <= 1024 * n /\ (gidsetsize <= 32 -> n = 1)) as (Hn1 & Hn2 & Hn3).
  { unfold n. destruct (Z.eqb_spec gidsetsize 0); [lia|]. Z.div_mod_to_equations. lia. }
  destruct kmalloc as [small|] eqn:Ek; [|by split; intros; simplify_eq/=].
  specialize (kmalloc_small small eq_refl). unfold NGROUPS_SMALL in kmalloc_small.
  destruct (Z.leb_spec gidsetsize 32).
  { split; [|by intros; simplify_eq/=]. intros gi freed [= <- <-].
    split; [done|]. split; [|done]. split; simpl; unfold NGROUPS_PER_BLOCK, NGROUPS_MAX; try lia.
    rewrite app_nil_r. lia. }
  pose proof (c_for_inv (fun k bs => Forall (fun b => Z.of_nat (length b) = NGROUPS_PER_BLOCK) bs /\
      Z.of_nat (length bs) = k /\ forall j, 0 <= j < k -> get_free_page j <> None)
    (fun i => get_free_page i = None /\ forall j, 0 <= j < i -> get_free_page j <> None)
    (fun i bs => Some (match get_free_page i with None => inr i | Some b => inl (bs ++ [b]) end))
    0 n []) as Hloop.
  apply wp_elim in Hloop as (r & -> & Hr).
  - destruct r as [bs|i].
    + destruct Hr as (Hall & Hlen & _). apply full_blocks_all in Hall as [Hf Hc].
      split; [|by intros; simplify_eq/=]. intros gi freed [= <- <-].
      split; [done|]. split; [|done].
      split; simpl; unfold NGROUPS_PER_BLOCK, NGROUPS_MAX in *; done || lia.
    + split; [by intros; simplify_eq/=|]. intros freed [= <-] _. by exists i; destruct Hr.
  - lia.
  - split; [done|]. split; [done|]. lia.
  - intros k bs Hk (Hall & Hlen & Hsome). destruct (get_free_page k) as [b|] eqn:Eb; simpl; [|done].
    split; [apply Forall_app; split; [done|]; constructor; [by eapply page_size | done]|].
    split; [rewrite length_app; simpl; lia|].
    intros j Hj. destruct (Z.eq_dec j k) as [->|]; [by rewrite Eb | apply Hsome; lia].
Qed.

Lemma full_app bs1 b bs2 : full_blocks (bs1 ++ b :: bs2) ->
  Z.of_nat (length (concat bs1)) = NGROUPS_PER_BLOCK * Z.of_nat (length bs1) /\
  Z.of_nat (length b) <= NGROUPS_PER_BLOCK /\
  (bs2 <> [] -> Z.of_nat (length b) = NGROUPS_PER_BLOCK) /\
  forall b', length b' = length b -> full_blocks (bs1 ++ b' :: bs2).
Proof.
  induction bs1 as [|b1 bs1 IH]; intros Hf.
  - pose proof (full_cons _ _ Hf) as (_ & ? & Hb). split; [done|]. split; [done|].
    split; [by destruct Hb|]. intros b' Hb'. by apply (full_cons_same b).
  - assert (Z.of_nat (length b1) = NGROUPS_PER_BLOCK /\ full_blocks (bs1 ++ b :: bs2)) as [H1 Hf'].
    { simpl in Hf. destruct bs1; simpl in *; exact Hf. }
    destruct (IH Hf') as (Hc & Hb & Hne & Hset). split; [|split; [done|split; [done|]]].
    + rewrite concat_cons, length_app. simpl. lia.
    + intros b' Hb'. specialize (Hset b' Hb'). simpl. destruct bs1; simpl in *; done.
Qed.

(** One block filled from the user's array. *)
Lemma fill_block (g i : Z) bs1 b bs2 ids :
  0 <= i -> Z.of_nat (length bs1) = i -> full_blocks (bs1 ++ b :: bs2) ->
  Z.of_nat (length user) = g -> 1024 * i <= g -> g <= Z.of_nat (length (concat (bs1 ++ b :: bs2))) ->
  concat bs1 = take (Z.to_nat (1024 * i)) user ->
  ids = take (Z.to_nat (Z.min 1024 (g - 1024 * i))) (drop (Z.to_nat (1024 * i)) user) ->
  let b' := ids ++ drop (length ids) b in
  length b' = length b /\
  take (Z.to_nat g) (concat (bs1 ++ [b'])) = take (Z.to_nat (1024 * (i + 1))) user /\
  (1024 * (i + 1) <= g -> concat (bs1 ++ [b']) = take (Z.to_nat (1024 * (i + 1))) user).
Proof.
  intros Hi Hl1 Hf Hg Hge Hroom Hc Hids b'.
  destruct (full_app _ _ _ Hf) as (Hlc & Hb & Hne & _). unfold NGROUPS_PER_BLOCK in *.
  assert (Z.of_nat (length ids) = Z.min 1024 (g - 1024 * i)) as Hlids.
  { rewrite Hids, length_take, length_drop. lia. }
  assert (Z.of_nat (length ids) <= Z.of_nat (length b)) as Hle.
  { destruct bs2 as [|b2 bs2].
    - rewrite concat_app, length_app in Hroom. simpl in Hroom. rewrite app_nil_r in Hroom. lia.
    - rewrite Hne by done. lia. }
  split; [unfold b'; rewrite length_app, length_drop; lia|].
  assert (concat (bs1 ++ [b']) = take (Z.to_nat (1024 * i) + length ids) user ++ drop (length ids) b) as Ec.
  { rewrite concat_app. simpl. rewrite app_nil_r, Hc. unfold b'. rewrite app_assoc. f_equal.
    rewrite <- take_take_drop. f_equal. rewrite Hids at 1. f_equal. lia. }
  rewrite Ec. destruct (Z.le_gt_cases (1024 * (i + 1)) g).
  - assert (drop (length ids) b = []) as -> by (apply drop_ge; lia). rewrite app_nil_r.
    replace (Z.to_nat (1024 * i) + length ids)%nat with (Z.to_nat (1024 * (i + 1))) by lia.
    split; [|done]. apply take_ge. rewrite length_take. lia.
  - split; [|lia]. replace (Z.to_nat (1024 * i) + length ids)%nat with (Z.to_nat g) by lia.
    rewrite take_app_le by (rewrite length_take; lia). rewrite take_take, !take_ge by lia. done.
Qed.

Lemma groups_from_user_ok gi :
  gi_wf gi -> Z.of_nat (length user) = ngroups gi ->
  nblocks gi = (if ngroups gi =? 0 then 1 else (ngroups gi + 1023) / 1024) ->
  wp (groups_from_user copy_from_user gi) (fun '(r, gi') =>
    (r = 0 /\ same_gi gi gi' /\ gids gi' = user) \/ r = - EFAULT).
Proof.
  intros Hwf Huser Hnb. pose proof Hwf as [Hlen Hfull Hng Hroom]. unfold NGROUPS_MAX in Hng.
  set (g := ngroups gi) in *. set (nb := nblocks gi) in *.
  assert (1 <= nb /\ forall i, 0 <= i < nb -> 1024 * i <= g) as [Hnb1 Hlow].
  { rewrite Hnb. destruct (Z.eqb_spec g 0); [split; [lia | intros; lia]|].
    split; [|intros i]; Z.div_mod_to_equations; lia. }
  assert (g <= 1024 * nb) by (rewrite Hnb; destruct (Z.eqb_spec g 0); [|Z.div_mod_to_equations]; lia).
  unfold groups_from_user. wp_step. eapply wp_mono.
  { apply (c_for_inv (fun i '(gl, count, gi') => gl = 1024 * i /\ (i < nb -> count = g - 1024 * i) /\
        gi_usage gi' = gi_usage gi /\ ngroups gi' = g /\ nblocks gi' = nb /\
        full_blocks (blocks gi') /\ Z.of_nat (length (blocks gi')) = nb /\
        length (concat (blocks gi')) = length (concat (blocks gi)) /\
        exists bs1 bs2, blocks gi' = bs1 ++ bs2 /\ Z.of_nat (length bs1) = i /\
          take (Z.to_nat g) (concat bs1) = take (Z.to_nat (1024 * i)) user /\
          (1024 * i <= g -> concat bs1 = take (Z.to_nat (1024 * i)) user))
      (fun '(e, gi') => e = - EFAULT)); [lia | |].
    - split; [done|]. split; [lia|]. do 6 (split; [done|]). exists [], (blocks gi).
      split; [done|]. split; [done|]. split; [apply take_nil | done].
    - intros i [[gl count] gi'] Hi (-> & Hcount & Hus & Hn' & Hnb' & Hf & Hl & Hcl & bs1 & bs2 & Ebs & Hl1 & Htk & Hex).
      rewrite Hcount by lia. destruct (copy_from_user _ _) as [ids|] eqn:Ecp; [|done].
      apply copy_delivers in Ecp. destruct bs2 as [|b bs2].
      { rewrite app_nil_r in Ebs. rewrite Ebs in Hl. lia. }
      rewrite Ebs in *. subst i. rewrite arr_get_middle. cbn [mbind option_bind].
      destruct (full_app _ _ _ Hf) as (_ & _ & _ & Hset).
      destruct (fill_block g (Z.of_nat (length bs1)) bs1 b bs2 ids) as (Hlb & Htk' & Hex');
        [lia | done | done | done | apply Hlow; lia | by rewrite Hcl | apply Hex, Hlow; lia | done |].
      rewrite arr_set_middle. unfold NGROUPS_PER_BLOCK. simpl. split; [lia|]. split.
      { intros Hlt. specialize (Hlow (Z.of_nat (length bs1) + 1) ltac:(lia)). lia. }
      do 3 (split; [done|]). split; [by apply Hset|].
      split; [rewrite length_app in *; simpl in *; lia|].
      split; [rewrite <- Hcl, !concat_app, !length_app; simpl; rewrite !length_app in *; lia|].
      exists (bs1 ++ [ids ++ drop (length ids) b]), bs2.
      split; [by rewrite <- app_assoc|]. split; [rewrite length_app; simpl; lia | done]. }
  intros [[[gl count] gi']|[e gi']] H'; simpl; [left | by right].
  destruct H' as (_ & _ & Hus & Hn' & Hnb' & Hf & Hl & Hcl & bs1 & bs2 & Ebs & Hl1 & Htk & _).
  split; [done|]. split.
  - split; [|done]. split; [congruence | done | by rewrite Hn' | rewrite Hn', Hcl; done].
  - unfold gids. rewrite Hn', Ebs. destruct bs2; [|rewrite Ebs, length_app in Hl; simpl in Hl; lia].
    rewrite app_nil_r, Htk. apply take_ge. lia.
Qed.
End setgroups.

(** ** The group membership test of the access checks

    A credential provides what the ACL code needs of it. *)
#[export] Instance cred_Cred : Cred cred := {|
  current_fsuid := fsuid;
  cred_in_group_p c g := match in_group_p c g with Some r => truthy r | None => false end
|}.

(** Credentials whose group array is sorted, as [set_groups] leaves it. *)
Definition cred_wf (c : cred) : Prop :=
  forall gi, cr_group_info c = Some gi -> gi_wf gi /\ sorted_upto (gids gi) (ngroups gi).

Definition member (c : cred) (grp : Z) : Prop :=
  exists gi, cr_group_info c = Some gi /\ In grp (gids gi).

Lemma in_group_p_ok c grp : cred_wf c ->
  wp (in_group_p c grp) (decides (grp = fsgid c \/ member c grp)).
Proof.
  intros Hc. unfold in_group_p. destruct (Z.eqb_spec grp (fsgid c)) as [->|Hne].
  { left. split; [done | by left]. }
  destruct (cr_group_info c) as [gi|] eqn:E.
  - destruct (Hc gi E). eapply wp_mono; [by apply groups_search_ok|].
    intros r [[-> Hin]|[-> Hin]]; [left | right]; (split; [done|]).
    + right. by exists gi.
    + intros [?|(gi' & Egi & ?)]; [done|]. rewrite E in Egi. by injection Egi as <-.
  - right. split; [done|]. intros [?|(gi' & Egi & ?)]; [done|]. by rewrite E in Egi.
Qed.

(** ** Properties *)

(** [groups_sort], the Shell sort with strides ..., 13, 4, 1 over the
    two-level block array, terminates without leaving the array and permutes
    the group ids into non-decreasing order. *)
Theorem groups_sort_correct gi : gi_wf gi ->
  wp (groups_sort gi) (fun gi' => gi_wf gi' /\ ngroups gi' = ngroups gi /\
    gids gi' ≡ₚ gids gi /\ sorted_upto (gids gi') (ngroups gi)).
Proof.
  intros Hwf. eapply wp_mono; [by apply groups_sort_ok|].
  by intros gi' ((? & ? & _) & ? & ?).
Qed.

Definition sample_gi : group_info := GroupInfo 1 4 1 [[30; 10; 20; 10; 0; 0]].

Lemma sample_gi_wf : gi_wf sample_gi.
Proof. split; simpl; unfold NGROUPS_PER_BLOCK, NGROUPS_MAX; lia. Qed.

Lemma groups_sort_correct_witness :
  wp (groups_sort sample_gi) (fun gi' => gi_wf gi' /\ ngroups gi' = 4 /\
    gids gi' ≡ₚ [30; 10; 20; 10] /\ sorted_upto (gids gi') 4).
Proof. apply (groups_sort_correct sample_gi sample_gi_wf). Defined.

(** C15: Installing the user's array of group ids: when the array allocated by
    [groups_alloc] is filled by [groups_from_user] without a fault and
    installed by [set_groups], [in_group_p] answers 1 exactly for the
    filesystem group and for the ids the user passed. *)
Theorem setgroups_in_group_p kmalloc get_free_page copy_from_user user gidsetsize new gi freed grp :
  (forall b, kmalloc = Some b -> Z.of_nat (length b) = NGROUPS_SMALL) ->
  (forall i b, get_free_page i = Some b -> Z.of_nat (length b) = NGROUPS_PER_BLOCK) ->
  (forall gl n ids, copy_from_user gl n = Some ids -> ids = take (Z.to_nat n) (drop (Z.to_nat gl) user)) ->
  0 <= gidsetsize <= NGROUPS_MAX -> Z.of_nat (length user) = gidsetsize ->
  groups_alloc kmalloc get_free_page gidsetsize = (Some gi, freed) ->
  wp (groups_from_user copy_from_user gi) (fun '(r, gi') => r = - EFAULT \/
    (r = 0 /\ wp (set_groups new gi') (fun c => fsuid c = fsuid new /\
       wp (in_group_p c grp) (decides (grp = fsgid new \/ In grp user))))).
Proof.
  intros Hk Hp Hcp Hg Hu Halloc.
  destruct (groups_alloc_ok kmalloc get_free_page Hk Hp gidsetsize Hg) as [Hok _].
  destruct (Hok gi freed Halloc) as (_ & Hwf & Hn & _ & Hnb).
  eapply wp_mono; [apply (groups_from_user_ok copy_from_user user Hcp); [done | congruence | by rewrite Hn]|].
  intros [r gi'] [(-> & (Hwf' & Hn' & _) & Hids)| ->]; [right | by left]. split; [done|].
  unfold set_groups. wp_step. eapply wp_mono; [by apply groups_sort_ok|].
  intros g ((Hwg & Hng & Hus) & Hperm & Hsort). simpl. split; [done|].
  assert (forall gi0, gi0 = GroupInfo (gi_usage g + 1) (ngroups g) (nblocks g) (blocks g) ->
    gids gi0 = gids g) as Hgids by by intros ? ->.
  eapply wp_mono; [apply in_group_p_ok|].
  - intros gi0 [= <-]. split; [by destruct Hwg|]. simpl. rewrite Hgids by done. by rewrite Hng.
  - assert (forall x, In x (gids g) <-> In x user) as Hin.
    { intros x. rewrite <- Hids. by rewrite <- !list_elem_of_In, Hperm. }
    intros r [[-> H]|[-> H]]; [left | right]; (split; [done|]).
    + destruct H as [?|(gi0 & [= <-] & H)]; [by left | right]. apply Hin. exact H.
    + intros [?|H']; apply H; [by left | right]. eexists. split; [done|]. by apply Hin.
Qed.

Lemma setgroups_in_group_p_witness :
  wp (groups_from_user (fun gl n => Some (take (Z.to_nat n) (drop (Z.to_nat gl) [7; 3; 5])))
        (GroupInfo 1 3 1 [replicate 32 0])) (fun '(r, gi') => r = - EFAULT \/
    (r = 0 /\ wp (set_groups (MkCred 1 2 2 None) gi') (fun c => fsuid c = 1 /\
       wp (in_group_p c 5) (decides (5 = 2 \/ In 5 [7; 3; 5]))))).
Proof.
  apply (setgroups_in_group_p (Some (replicate 32 0)) (fun _ => None) _ [7; 3; 5] 3 (MkCred 1 2 2 None) _ []).
  - by intros b [= <-].
  - done.
  - by intros gl n ids [= <-].
  - unfold NGROUPS_MAX. lia.
  - done.
  - done.
Defined.
