(* ===== verification/Sem.v ===== *)
(** * System V semaphores

    [ipc/sem.c]: a semaphore set with its pending operations and undo
    structures, the atomic execution of an operation array
    ([try_atomic_semop]), the wake-up machinery ([update_queue],
    [check_restart], [do_smart_update]) and the operations of the system calls
    that change a set: [semtimedop] up to the point where it sleeps and from
    the point where it wakes up, [SETVAL] and [SETALL] of [semctl],
    [exit_sem] and [freeary].

    A sleeping task's [struct sem_queue] is an entry of [queues]; the lists
    [sem_pending] of the array and of each semaphore hold its index, in list
    order.  [struct sem_undo]s are entries of [undos], named by their index in
    the queue entries that use them.  A set is operated on under its lock, so
    each operation is one step. *)

From S2P Require Import Prelude Bitops.
Open Scope c_scope.

(** ** Data ([include/linux/sem.h]) *)

Definition SEM_UNDO : Z := 0x1000.
Definition IPC_NOWAIT : Z := 0x800.
Definition SEMVMX : Z := 32767.
Definition SEMAEM : Z := SEMVMX.
Definition EINTR : Z := 4.
Definition EFBIG : Z := 27.
Definition IN_WAKEUP : Z := 1.

Record sembuf := Sembuf { sem_num : Z; sem_op : Z; sem_flg : Z }.

(** [struct sem]; the third field is its list [sem_pending]. *)
Record sem := Sem { semval : Z; sempid : Z; simple_pending : list nat }.

Record sem_queue := SemQueue {
  q_sops : list sembuf; q_undo : option nat; q_pid : Z; q_status : Z; q_alter : bool
}.
Definition q_nsops (q : sem_queue) : Z := Z.of_nat (length (q_sops q)).

(** [struct sem_array] with the structures that hang off it; an undo
    structure is its [semadj] array. *)
Record sem_array := SemArray {
  sem_base : list sem; sem_pending : list nat; complex_count : Z; sem_otime : Z; sem_ctime : Z;
  undos : list (list Z); queues : list sem_queue
}.
Definition sem_nsems (sma : sem_array) : Z := Z.of_nat (length (sem_base sma)).

Definition set_semval (s : sem) (v : Z) : sem := Sem v (sempid s) (simple_pending s).
Definition set_sempid (s : sem) (p : Z) : sem := Sem (semval s) p (simple_pending s).
Definition set_simple (s : sem) (l : list nat) : sem := Sem (semval s) (sempid s) l.

Definition with_base (sma : sem_array) (b : list sem) : sem_array :=
  SemArray b (sem_pending sma) (complex_count sma) (sem_otime sma) (sem_ctime sma) (undos sma) (queues sma).
Definition with_undos (sma : sem_array) (u : list (list Z)) : sem_array :=
  SemArray (sem_base sma) (sem_pending sma) (complex_count sma) (sem_otime sma) (sem_ctime sma) u (queues sma).
Definition with_queues (sma : sem_array) (q : list sem_queue) : sem_array :=
  SemArray (sem_base sma) (sem_pending sma) (complex_count sma) (sem_otime sma) (sem_ctime sma) (undos sma) q.
Definition with_pending (sma : sem_array) (p : list nat) (cc : Z) : sem_array :=
  SemArray (sem_base sma) p cc (sem_otime sma) (sem_ctime sma) (undos sma) (queues sma).
Definition with_otime (sma : sem_array) (t : Z) : sem_array :=
  SemArray (sem_base sma) (sem_pending sma) (complex_count sma) t (sem_ctime sma) (undos sma) (queues sma).
Definition with_ctime (sma : sem_array) (t : Z) : sem_array :=
  SemArray (sem_base sma) (sem_pending sma) (complex_count sma) (sem_otime sma) t (undos sma) (queues sma).

Definition has_flag (sop : sembuf) (f : Z) : bool := truthy (sem_flg sop .& f).

(** ** [try_atomic_semop] *)

Inductive semop_exit := WOULD_BLOCK | OUT_OF_RANGE.

(** One operation of the first loop. *)
Definition semop_forward (semadj : option (list Z)) (sop : sembuf) (base : list sem)
    : option (list sem + semop_exit) :=
  curr ← arr_get base (sem_num sop);
  let result := semval curr in
  if (sem_op sop =? 0) && truthy result then Some (inr WOULD_BLOCK) else
  let result := result + sem_op sop in
  if result <? 0 then Some (inr WOULD_BLOCK) else
  if SEMVMX <? result then Some (inr OUT_OF_RANGE) else
  bad ← (if has_flag sop SEM_UNDO then
           adj ← semadj;
           a ← arr_get adj (sem_num sop);
           let undo := a - sem_op sop in
           Some ((undo <? - SEMAEM - 1) || (SEMAEM <? undo))
         else Some false);
  if bad : bool then Some (inr OUT_OF_RANGE) else
  base' ← arr_set base (sem_num sop) (set_semval curr result);
  Some (inl base').

(** One operation of the loop that completes a successful array. *)
Definition semop_commit (pid : Z) (sop : sembuf) (st : list sem * option (list Z))
    : option (list sem * option (list Z)) :=
  let '(base, semadj) := st in
  curr ← arr_get base (sem_num sop);
  base' ← arr_set base (sem_num sop) (set_sempid curr pid);
  if has_flag sop SEM_UNDO then
    adj ← semadj;
    a ← arr_get adj (sem_num sop);
    adj' ← arr_set adj (sem_num sop) (s16 (a - sem_op sop));
    Some (base', Some adj')
  else Some (base', semadj).

(** One operation of the loop at [undo:]. *)
Definition semop_undo (sop : sembuf) (base : list sem) : option (list sem) :=
  curr ← arr_get base (sem_num sop);
  arr_set base (sem_num sop) (set_semval curr (semval curr - sem_op sop)).

Definition try_atomic_semop (base : list sem) (sops : list sembuf) (semadj : option (list Z)) (pid : Z)
    : option (Z * list sem * option (list Z)) :=
  let nsops := Z.of_nat (length sops) in
  r ← c_for 0 nsops (fun i base =>
        sop ← arr_get sops i;
        x ← semop_forward semadj sop base;
        Some (match x with inl base' => inl base' | inr e => inr (i, sop, base, e) end)) base;
  match r with
  | inl base =>
      '(base, semadj) ← c_for_all 0 nsops (fun k st =>
        sop ← arr_get sops (nsops - 1 - k); semop_commit pid sop st) (base, semadj);
      Some (0, base, semadj)
  | inr (i, sop, base, e) =>
      let result := match e with
                    | OUT_OF_RANGE => - ERANGE
                    | WOULD_BLOCK => if has_flag sop IPC_NOWAIT then - EAGAIN else 1
                    end in
      base ← c_for_all 0 i (fun k base =>
        sop ← arr_get sops (i - 1 - k); semop_undo sop base) base;
      Some (result, base, semadj)
  end.

(** [try_atomic_semop(sma, sops, nsops, un, pid)] on the set. *)
Definition try_semop (sma : sem_array) (sops : list sembuf) (un : option nat) (pid : Z)
    : option (Z * sem_array) :=
  match un with
  | None =>
      '(r, base, _) ← try_atomic_semop (sem_base sma) sops None pid;
      Some (r, with_base sma base)
  | Some u =>
      adj ← undos sma !! u;
      '(r, base, adj') ← try_atomic_semop (sem_base sma) sops (Some adj) pid;
      adj' ← adj';
      Some (r, with_undos (with_base sma base) (<[u := adj']> (undos sma)))
  end.

(** ** Queues *)

(** [list_del] of entry [q]. *)
Definition list_del (q : nat) (l : list nat) : list nat := filter (fun x => x <> q) l.

(** [list_del(&q->simple_list)] unlinks [q] from the list of its semaphore. *)
Definition unlink_queue (sma : sem_array) (q : nat) : option sem_array :=
  e ← queues sma !! q;
  let pending := list_del q (sem_pending sma) in
  if q_nsops e =? 1 then
    sop ← arr_get (q_sops e) 0;
    curr ← arr_get (sem_base sma) (sem_num sop);
    base ← arr_set (sem_base sma) (sem_num sop) (set_simple curr (list_del q (simple_pending curr)));
    Some (with_pending (with_base sma base) pending (complex_count sma))
  else Some (with_pending sma pending (complex_count sma - 1)).

(** [pt] is the list of tasks to wake; the result is kept in [q->pid]. *)
Definition wake_up_sem_queue_prepare (sma : sem_array) (pt : list nat) (q : nat) (error : Z)
    : option (sem_array * list nat) :=
  e ← queues sma !! q;
  Some (with_queues sma (<[q := SemQueue (q_sops e) (q_undo e) error IN_WAKEUP (q_alter e)]> (queues sma)),
        pt ++ [q]).

Definition wake_up_sem_queue_do (sma : sem_array) (pt : list nat) : option sem_array :=
  c_for_all 0 (Z.of_nat (length pt)) (fun i sma =>
    q ← arr_get pt i;
    e ← queues sma !! q;
    Some (with_queues sma
      (<[q := SemQueue (q_sops e) (q_undo e) (q_pid e) (q_pid e) (q_alter e)]> (queues sma)))) sma.

(** [BUG_ON] and the access to the first entry of an empty list are undefined
    results. *)
Definition check_restart (sma : sem_array) (q : nat) : option bool :=
  e ← queues sma !! q;
  if negb (q_alter e) then Some false
  else if truthy (complex_count sma) then Some true
  else if 1 <? q_nsops e then Some true
  else
    sop ← arr_get (q_sops e) 0;
    curr ← arr_get (sem_base sma) (sem_num sop);
    match simple_pending curr with
    | [] => Some false
    | h :: _ =>
        if truthy (semval curr) then
          if 0 <=? sem_op sop then None else Some false
        else
          eh ← queues sma !! h;
          if negb (q_nsops eh =? 1) then None else
          hsop ← arr_get (q_sops eh) 0;
          if negb (sem_num hsop =? sem_num sop) then None else
          Some (sem_op hsop =? 0)
    end.

(** The list that [update_queue] scans. *)
Definition pending_list (sma : sem_array) (semnum : Z) : option (list nat) :=
  if semnum =? -1 then Some (sem_pending sma)
  else curr ← arr_get (sem_base sma) semnum; Some (simple_pending curr).

(** One iteration of the scan: [walk] is the rest of the list, from
    [walk->next] on.  [inr] leaves the loop. *)
Definition update_queue_step (semnum : Z) (st : list nat * sem_array * list nat * Z)
    : option ((list nat * sem_array * list nat * Z) + (sem_array * list nat * Z)) :=
  let '(walk, sma, pt, completed) := st in
  match walk with
  | [] => Some (inr (sma, pt, completed))
  | q :: walk =>
      e ← queues sma !! q;
      stop ← (if negb (semnum =? -1) then
                curr ← arr_get (sem_base sma) semnum; Some ((semval curr =? 0) && q_alter e)
              else Some false);
      if stop : bool then Some (inr (sma, pt, completed))
      else
        '(error, sma) ← try_semop sma (q_sops e) (q_undo e) (q_pid e);
        if 0 <? error then Some (inl (walk, sma, pt, completed))
        else
          sma ← unlink_queue sma q;
          restart ← (if truthy error then Some false else check_restart sma q);
          let completed := if truthy error then completed else 1 in
          '(sma, pt) ← wake_up_sem_queue_prepare sma pt q error;
          if restart : bool then
            walk ← pending_list sma semnum; Some (inl (walk, sma, pt, completed))
          else Some (inl (walk, sma, pt, completed))
  end.

(** [update_queue]; the result is the set, the wake-up list and the return
    value.  A scan visits at most all pending entries between two removals. *)
Definition update_queue (sma : sem_array) (semnum : Z) (pt : list nat)
    : option (sem_array * list nat * Z) :=
  let semnum := if truthy (complex_count sma) then -1 else semnum in
  walk ← pending_list sma semnum;
  let n := length (sem_pending sma) in
  c_loop (S (S n * S n)) (update_queue_step semnum) (walk, sma, pt, 0).

(** [sops = None] is the null pointer. *)
Definition do_smart_update (sma : sem_array) (sops : option (list sembuf)) (otime : bool) (now : Z)
    (pt : list nat) : option (sem_array * list nat) :=
  '(sma, pt, otime) ←
    match sops with
    | Some sops =>
        if truthy (complex_count sma) then
          '(sma, pt, r) ← update_queue sma (-1) pt; Some (sma, pt, otime || truthy r)
        else
          c_for_all 0 (Z.of_nat (length sops)) (fun i '(sma, pt, otime) =>
            sop ← arr_get sops i;
            curr ← arr_get (sem_base sma) (sem_num sop);
            if (0 <? sem_op sop) || ((sem_op sop <? 0) && (semval curr =? 0)) then
              '(sma, pt, r) ← update_queue sma (sem_num sop) pt;
              Some (sma, pt, otime || truthy r)
            else Some (sma, pt, otime)) (sma, pt, otime)
    | None =>
        '(sma, pt, r) ← update_queue sma (-1) pt; Some (sma, pt, otime || truthy r)
    end;
  Some (if otime : bool then with_otime sma now else sma, pt).

(** ** System calls *)

Inductive semop_outcome := RETURNED (error : Z) | SLEEPING (q : nat).

(** The first loop of [semtimedop] over the operations: [max], [undos] and
    [alter]. *)
Definition semop_scan (sops : list sembuf) : Z * bool * bool :=
  fold_left (fun '(max, undos, alter) sop =>
    (if max <=? sem_num sop then sem_num sop else max,
     undos || has_flag sop SEM_UNDO, alter || negb (sem_op sop =? 0))) sops (0, false, false).

Definition wake (r : option (Z * sem_array * list nat)) : option (semop_outcome * sem_array) :=
  '(error, sma, tasks) ← r;
  sma ← wake_up_sem_queue_do sma tasks;
  Some (RETURNED error, sma).

(** What [semtimedop] gets from its caller and from the code around it. *)
Record semop_env := SemopEnv {
  semid : Z;
  sc_semopm : Z;                        (** limit of the namespace *)
  kmalloc_ok : bool;                    (** [kmalloc] of a long array *)
  copied : bool;                        (** [copy_from_user] of the operations *)
  timeout : option (option (Z * Z));    (** the pointer, and [tv_sec], [tv_nsec] if readable *)
  undo_struct : nat + Z;                (** answer of [find_alloc_undo] *)
  lock_error : Z;                       (** [PTR_ERR] of [sem_lock_check], or 0 *)
  undo_removed : bool;                  (** [un->semid == -1] *)
  perm : bool -> bool;                  (** [ipcperms] grants the access wanted *)
  security : Z;                         (** [security_sem_semop] *)
  cur_pid : Z;
  cur_time : Z
}.

Definition SEMOPM_FAST : Z := 64.

(** The timeout argument: an error, or 0. *)
Definition semop_timeout (t : option (option (Z * Z))) : Z :=
  match t with
  | None => 0
  | Some None => - EFAULT
  | Some (Some (tv_sec, tv_nsec)) =>
      if (tv_sec <? 0) || (tv_nsec <? 0) || (1000000000 <=? tv_nsec) then - EINVAL else 0
  end.

(** [semtimedop] up to its return or to [schedule()]. *)
Definition semtimedop_start (sma : sem_array) (sops : list sembuf) (env : semop_env)
    : option (semop_outcome * sem_array) :=
  let nsops := Z.of_nat (length sops) in
  let pid := cur_pid env in
  if (nsops <? 1) || (semid env <? 0) then Some (RETURNED (- EINVAL), sma) else
  if sc_semopm env <? nsops then Some (RETURNED (- E2BIG), sma) else
  if (SEMOPM_FAST <? nsops) && negb (kmalloc_ok env) then Some (RETURNED (- ENOMEM), sma) else
  if negb (copied env) then Some (RETURNED (- EFAULT), sma) else
  if truthy (semop_timeout (timeout env)) then Some (RETURNED (semop_timeout (timeout env)), sma) else
  let '(max, undos, alter) := semop_scan sops in
  match (if undos : bool then match undo_struct env with inl u => inl (Some u) | inr e => inr e end
         else inl None) with
  | inr e => Some (RETURNED e, sma)
  | inl un =>
      if truthy (lock_error env) then Some (RETURNED (lock_error env), sma) else
      if undos && undo_removed env then Some (RETURNED (- EIDRM), sma) else
      if sem_nsems sma <=? max then Some (RETURNED (- EFBIG), sma) else
      if negb (perm env alter) then Some (RETURNED (- EACCES), sma) else
      if truthy (security env) then Some (RETURNED (security env), sma) else
      '(error, sma) ← try_semop sma sops un pid;
      if error <=? 0 then
        wake (if alter && (error =? 0) then
                '(sma, tasks) ← do_smart_update sma (Some sops) true (cur_time env) []; Some (error, sma, tasks)
              else Some (error, sma, []))
      else
        let q := length (queues sma) in
        let sma := with_queues sma (queues sma ++ [SemQueue sops un pid (- EINTR) alter]) in
        let add l := if alter then l ++ [q] else q :: l in
        if nsops =? 1 then
          sop ← arr_get sops 0;
          curr ← arr_get (sem_base sma) (sem_num sop);
          base ← arr_set (sem_base sma) (sem_num sop) (set_simple curr (add (simple_pending curr)));
          Some (SLEEPING q, with_pending (with_base sma base) (add (sem_pending sma)) (complex_count sma))
        else
          Some (SLEEPING q, with_pending sma (add (sem_pending sma)) (complex_count sma + 1))
  end.

(** [semtimedop] after [schedule()] returns.  While the status is [IN_WAKEUP]
    the task spins: no result yet. *)
Definition get_queue_result (sma : sem_array) (q : nat) : option Z :=
  e ← queues sma !! q;
  if q_status e =? IN_WAKEUP then None else Some (q_status e).

(** The task reads its result twice: [early] is what it found when it woke up,
    without the lock; then [sem_lock] fails if the set has been removed
    ([locked] is false), or else gives the set in its present state, where the
    result is read again. *)
Definition semtimedop_finish (sma : sem_array) (q : nat) (early : Z) (locked timed_out : bool)
    : option (Z * sem_array) :=
  if negb (early =? - EINTR) then Some (early, sma) else
  if negb locked then Some (- EIDRM, sma) else
  error ← get_queue_result sma q;
  if negb (error =? - EINTR) then Some (error, sma)
  else
    sma ← unlink_queue sma q;
    Some (if timed_out then - EAGAIN else error, sma).

(** [semctl(SETVAL)]; all undo structures of the set lose their adjustment. *)
Definition semctl_setval (sma : sem_array) (semnum val pid now : Z) : option (semop_outcome * sem_array) :=
  if (semnum <? 0) || (sem_nsems sma <=? semnum) then Some (RETURNED (- EINVAL), sma) else
  if (SEMVMX <? val) || (val <? 0) then Some (RETURNED (- ERANGE), sma) else
  let sma := with_undos sma (map (fun adj => <[Z.to_nat semnum := 0]> adj) (undos sma)) in
  curr ← arr_get (sem_base sma) semnum;
  base ← arr_set (sem_base sma) semnum (set_sempid (set_semval curr val) pid);
  let sma := with_ctime (with_base sma base) now in
  wake ('(sma, tasks) ← do_smart_update sma None false now []; Some (0, sma, tasks)).

(** [semctl(SETALL)] with the values copied from the user. *)
Definition semctl_setall (sma : sem_array) (sem_io : list Z) (now : Z) : option (semop_outcome * sem_array) :=
  r ← c_for 0 (sem_nsems sma) (fun i _ =>
        v ← arr_get sem_io i; Some (if SEMVMX <? v then inr (- ERANGE) else inl tt)) tt;
  match r with
  | inr e => Some (RETURNED e, sma)
  | inl _ =>
      base ← c_for_all 0 (sem_nsems sma) (fun i base =>
        v ← arr_get sem_io i; curr ← arr_get base i; arr_set base i (set_semval curr v)) (sem_base sma);
      let sma := with_undos (with_base sma base) (map (fun adj => map (fun _ => 0) adj) (undos sma)) in
      wake ('(sma, tasks) ← do_smart_update (with_ctime sma now) None false now [];
            Some (0, sma, tasks))
  end.

(** The adjustment loop of [exit_sem] for one undo structure of the set. *)
Definition exit_sem_adjust (semadj : list Z) (pid : Z) (base : list sem) : option (list sem) :=
  c_for_all 0 (Z.of_nat (length base)) (fun i base =>
    semaphore ← arr_get base i;
    a ← arr_get semadj i;
    if truthy a then
      let v := semval semaphore + a in
      let v := if v <? 0 then 0 else v in
      let v := if SEMVMX <? v then SEMVMX else v in
      arr_set base i (set_sempid (set_semval semaphore v) pid)
    else Some base) base.

(** One turn of [exit_sem]: the undo structure is taken off the lists (its
    adjustments can no longer be used), its adjustments are applied and the
    sleepers that can proceed are woken. *)
Definition exit_sem (sma : sem_array) (un : nat) (pid now : Z) : option sem_array :=
  semadj ← undos sma !! un;
  base ← exit_sem_adjust semadj pid (sem_base sma);
  '(sma, tasks) ← do_smart_update (with_base sma base) None true now [];
  wake_up_sem_queue_do sma tasks.

(** [freeary]: the undo structures are taken off the list of the set (a process
    that still has one finds [un->semid] to be -1, [undo_removed] of its next
    call), and every sleeper is woken with [-EIDRM]. *)
Definition freeary (sma : sem_array) : option sem_array :=
  let sma := with_undos sma [] in
  '(sma, tasks) ← c_for_all 0 (Z.of_nat (length (sem_pending sma))) (fun i '(sma', tasks) =>
    q ← arr_get (sem_pending sma) i;
    sma' ← unlink_queue sma' q;
    wake_up_sem_queue_prepare sma' tasks q (- EIDRM)) (sma, []);
  wake_up_sem_queue_do sma tasks.

(** [newary]: the error, or the id and the set.  [alloc] tells whether
    [ipc_rcu_alloc] succeeds, [security] is the answer of the security hook
    and [id] that of [ipc_addid]. *)
Definition newary (nsems used_sems sc_semmns : Z) (alloc : bool) (security id now : Z) : Z + (Z * sem_array) :=
  if negb (truthy nsems) then inl (- EINVAL) else
  if sc_semmns <? used_sems + nsems then inl (- ENOSPC) else
  if negb alloc then inl (- ENOMEM) else
  if truthy security then inl security else
  if id <? 0 then inl id else
  inr (id, SemArray (replicate (Z.to_nat nsems) (Sem 0 0 [])) [] 0 0 now [] []).

(** Steps 2 to 5 of [find_alloc_undo]: a new undo structure, with no
    adjustments. *)
Definition find_alloc_undo (sma : sem_array) : nat * sem_array :=
  (length (undos sma), with_undos sma (undos sma ++ [replicate (length (sem_base sma)) 0])).

(** [GETNCNT] and [GETZCNT]. *)
Definition count_pending (wanted : Z -> bool) (sma : sem_array) (semnum : Z) : option Z :=
  c_for_all 0 (Z.of_nat (length (sem_pending sma))) (fun k cnt =>
    q ← arr_get (sem_pending sma) k;
    e ← queues sma !! q;
    c_for_all 0 (q_nsops e) (fun i cnt =>
      sop ← arr_get (q_sops e) i;
      Some (if (sem_num sop =? semnum) && wanted (sem_op sop) && negb (has_flag sop IPC_NOWAIT)
            then cnt + 1 else cnt)) cnt) 0.
Definition count_semncnt := count_pending (fun op => op <? 0).
Definition count_semzcnt := count_pending (fun op => op =? 0).

(** ** Atomicity of [try_atomic_semop] *)

(** The first loop on the list of operations: all applied, or the operations
    applied, the one that failed, and the values at that point. *)
Fixpoint run_sops (semadj : option (list Z)) (sops : list sembuf) (base : list sem)
    : option (list sem + (list sembuf * sembuf * list sem * semop_exit)) :=
  match sops with
  | [] => Some (inl base)
  | sop :: sops =>
      x ← semop_forward semadj sop base;
      match x with
      | inr e => Some (inr ([], sop, base, e))
      | inl base1 =>
          r ← run_sops semadj sops base1;
          Some (match r with inl b => inl b | inr (dn, s, b, e) => inr (sop :: dn, s, b, e) end)
      end
  end.

Definition exit_code (sop : sembuf) (e : semop_exit) : Z :=
  match e with
  | OUT_OF_RANGE => - ERANGE
  | WOULD_BLOCK => if has_flag sop IPC_NOWAIT then - EAGAIN else 1
  end.

Lemma semop_loop_run semadj pre sops base :
  c_for_n (length sops) (Z.of_nat (length pre)) (fun i base =>
    sop ← arr_get (pre ++ sops) i;
    x ← semop_forward semadj sop base;
    Some (match x with inl base' => inl base' | inr e => inr (i, sop, base, e) end)) base =
  (r ← run_sops semadj sops base;
   Some (match r with
         | inl b => inl b
         | inr (dn, s, b, e) => inr (Z.of_nat (length pre) + Z.of_nat (length dn), s, b, e)
         end)).
Proof.
  revert pre base. induction sops as [|sop sops IH]; intros pre base; [done|].
  cbn [length c_for_n run_sops]. rewrite arr_get_middle. cbn [mbind option_bind].
  destruct (semop_forward semadj sop base) as [[base1|e]|]; [|simpl; do 5 f_equal; lia|done].
  cbn [mbind option_bind].
  replace (Z.of_nat (length pre) + 1) with (Z.of_nat (length (pre ++ [sop])))
    by (rewrite length_app; simpl; lia).
  replace (pre ++ sop :: sops) with ((pre ++ [sop]) ++ sops) by by rewrite <- app_assoc.
  rewrite IH. destruct (run_sops semadj sops base1) as [[b|[[[dn s] b] e]]|]; [done| |done].
  simpl. rewrite length_app. simpl. do 5 f_equal. lia.
Qed.

Lemma run_sops_prefix semadj sops base dn s b e :
  run_sops semadj sops base = Some (inr (dn, s, b, e)) ->
  exists rest, sops = dn ++ s :: rest /\ run_sops semadj dn base = Some (inl b) /\
    semop_forward semadj s b = Some (inr e).
Proof.
  revert base dn. induction sops as [|sop sops IH]; intros base dn; simpl; [done|].
  destruct (semop_forward semadj sop base) as [[base1|e1]|] eqn:Ef; simpl; [| |done].
  - destruct (run_sops semadj sops base1) as [[b1|[[[dn1 s1] b1] e1]]|] eqn:Er; [done| |done].
    intros [= <- <- <- <-]. destruct (IH _ _ Er) as (rest & -> & Hr & Hf).
    exists rest. simpl. rewrite Ef. simpl. rewrite Hr. done.
  - intros [= <- <- <- <-]. by exists sops.
Qed.

Lemma semop_forward_inl semadj sop base base' :
  semop_forward semadj sop base = Some (inl base') ->
  exists curr, arr_get base (sem_num sop) = Some curr /\
    0 <= semval curr + sem_op sop <= SEMVMX /\ (sem_op sop = 0 -> semval curr = 0) /\
    base' = <[Z.to_nat (sem_num sop) := set_semval curr (semval curr + sem_op sop)]> base.
Proof.
  unfold semop_forward. destruct (arr_get base (sem_num sop)) as [curr|] eqn:Ec; simpl; [|done].
  destruct ((sem_op sop =? 0) && truthy (semval curr)) eqn:Eb; [done|].
  destruct (Z.ltb_spec (semval curr + sem_op sop) 0); [done|].
  destruct (Z.ltb_spec SEMVMX (semval curr + sem_op sop)); [done|].
  rewrite arr_set_Some by (by eapply arr_get_range).
  match goal with |- mbind _ ?m = _ -> _ => destruct m as [[]|] end; [done| |done].
  simpl. intros [= <-]. exists curr. split; [done|]. split; [lia|]. split; [|done].
  intros E0. rewrite E0 in Eb. by apply truthy_false in Eb.
Qed.

(** The loop at [undo:] takes back exactly what the first loop did. *)
Lemma semop_undo_forward semadj sop base base' :
  semop_forward semadj sop base = Some (inl base') -> semop_undo sop base' = Some base.
Proof.
  intros (curr & Hc & _ & _ & ->)%semop_forward_inl. pose proof (arr_get_range _ _ _ Hc) as Hr.
  unfold semop_undo. rewrite arr_get_insert_eq by done. simpl.
  rewrite arr_set_Some by (by rewrite length_insert). f_equal.
  rewrite list_insert_insert_eq. apply list_insert_id. apply arr_get_lookup; [lia|].
  rewrite Hc. f_equal. destruct curr as [v p l]. unfold set_semval. simpl. f_equal. lia.
Qed.

Lemma run_sops_undo semadj sops base base' :
  run_sops semadj sops base = Some (inl base') -> opt_fold semop_undo (rev sops) base' = Some base.
Proof.
  revert base. induction sops as [|sop sops IH]; intros base; simpl; [by intros [= ->]|].
  destruct (semop_forward semadj sop base) as [[base1|e]|] eqn:Ef; simpl; [|done..].
  destruct (run_sops semadj sops base1) as [[b|[[[dn s] b] e]]|] eqn:Er; simpl; [|done..].
  intros [= ->]. rewrite opt_fold_app, (IH base1) by done. simpl.
  by rewrite (semop_undo_forward semadj sop base base1 Ef).
Qed.

Lemma try_atomic_semop_run base sops semadj pid :
  try_atomic_semop base sops semadj pid =
  (r ← run_sops semadj sops base;
   match r with
   | inl base' =>
       '(base', semadj') ← opt_fold (semop_commit pid) (rev sops) (base', semadj);
       Some (0, base', semadj')
   | inr (_, sop, _, e) => Some (exit_code sop e, base, semadj)
   end).
Proof.
  unfold try_atomic_semop, c_for. rewrite Z.sub_0_r, Nat2Z.id.
  pose proof (semop_loop_run semadj [] sops base) as Hl. simpl length in Hl. change (Z.of_nat 0) with 0 in Hl.
  cbn [app] in Hl. rewrite Hl. clear Hl.
  destruct (run_sops semadj sops base) as [[b|[[[dn s] b] e]]|] eqn:Er; simpl; [| |done].
  - by rewrite (c_for_all_rev (semop_commit pid) _ sops []) by (intros i x st; rewrite app_nil_r; by intros ->).
  - apply run_sops_prefix in Er as (rest & -> & Hr & Hf).
    rewrite ?Z.add_0_l, (c_for_all_rev semop_undo _ dn (s :: rest)) by by intros i x st ->.
    by rewrite (run_sops_undo semadj dn base b Hr).
Qed.

(** ** The specification of an operation array

    The operations are performed one after the other on the values of the
    semaphores; each can block, or leave the range of values or adjustments. *)

Definition val (base : list sem) (k : Z) : Z :=
  match arr_get base k with Some s => semval s | None => 0 end.

Definition upd (v : Z -> Z) (k x : Z) : Z -> Z := fun j => if j =? k then x else v j.

Definition would_block (v : Z) (sop : sembuf) : bool :=
  ((sem_op sop =? 0) && negb (v =? 0)) || (v + sem_op sop <? 0).

Definition undo_bad (semadj : option (list Z)) (sop : sembuf) : bool :=
  has_flag sop SEM_UNDO &&
  match semadj with
  | None => true
  | Some adj =>
      let undo := zth adj (sem_num sop) - sem_op sop in
      (undo <? - SEMAEM - 1) || (SEMAEM <? undo)
  end.

Definition sop_exit (v : Z) (semadj : option (list Z)) (sop : sembuf) : option semop_exit :=
  if would_block v sop then Some WOULD_BLOCK
  else if (SEMVMX <? v + sem_op sop) || undo_bad semadj sop then Some OUT_OF_RANGE
  else None.

Lemma sop_exit_None v adj sop :
  (sem_op sop = 0 -> v = 0) -> 0 <= v + sem_op sop <= SEMVMX ->
  (has_flag sop SEM_UNDO = true -> - SEMAEM - 1 <= zth adj (sem_num sop) - sem_op sop <= SEMAEM) ->
  sop_exit v (Some adj) sop = None.
Proof.
  intros H0 Hv Hu. unfold sop_exit, would_block, undo_bad.
  rewrite (proj2 (Z.ltb_ge _ 0)), (proj2 (Z.ltb_ge SEMVMX _)) by lia. rewrite orb_false_r.
  replace ((sem_op sop =? 0) && negb (v =? 0)) with false.
  - destruct (has_flag sop SEM_UNDO); [|done]. specialize (Hu eq_refl). simpl.
    by rewrite (proj2 (Z.ltb_ge _ _)), (proj2 (Z.ltb_ge SEMAEM _)) by lia.
  - destruct (Z.eqb_spec (sem_op sop) 0) as [E|]; [|done]. by rewrite (H0 E).
Qed.

Fixpoint vrun (semadj : option (list Z)) (sops : list sembuf) (v : Z -> Z)
    : (Z -> Z) + (sembuf * semop_exit) :=
  match sops with
  | [] => inl v
  | sop :: sops =>
      match sop_exit (v (sem_num sop)) semadj sop with
      | Some e => inr (sop, e)
      | None => vrun semadj sops (upd v (sem_num sop) (v (sem_num sop) + sem_op sop))
      end
  end.

(** Sum of the operations on semaphore [k], and of those to be undone. *)
Definition op_sum (sops : list sembuf) (k : Z) : Z :=
  foldr (fun sop acc => (if sem_num sop =? k then sem_op sop else 0) + acc) 0 sops.
Definition undo_sum (sops : list sembuf) (k : Z) : Z :=
  op_sum (filter (fun sop => has_flag sop SEM_UNDO = true) sops) k.

(** Operations that name existing semaphores and have their undo structure. *)
Definition sop_wf (n : Z) (semadj : option (list Z)) (sop : sembuf) : Prop :=
  0 <= sem_num sop < n /\
  (has_flag sop SEM_UNDO = true -> exists adj, semadj = Some adj /\ Z.of_nat (length adj) = n).
Definition sops_wf (n : Z) (semadj : option (list Z)) (sops : list sembuf) : Prop :=
  Forall (sop_wf n semadj) sops.

(** Same semaphores, up to values and pids. *)
Definition same_shape (base base' : list sem) : Prop :=
  length base' = length base /\
  forall k s, arr_get base k = Some s -> exists v p, arr_get base' k = Some (Sem v p (simple_pending s)).

Lemma same_shape_refl base : same_shape base base.
Proof. split; [done|]. intros k [v p l] Hk. by exists v, p. Qed.

Lemma same_shape_trans b1 b2 b3 : same_shape b1 b2 -> same_shape b2 b3 -> same_shape b1 b3.
Proof.
  intros [L1 H1] [L2 H2]. split; [congruence|]. intros k s Hk.
  destruct (H1 k s Hk) as (v & p & Hk'). destruct (H2 k _ Hk') as (v' & p' & Hk''). by exists v', p'.
Qed.

Lemma same_shape_insert base i s v p :
  arr_get base i = Some s -> same_shape base (<[Z.to_nat i := Sem v p (simple_pending s)]> base).
Proof.
  intros Hi. pose proof (arr_get_range _ _ _ Hi). split; [apply length_insert|]. intros k s' Hk.
  destruct (Z.eq_dec i k) as [<-|Hne].
  - rewrite arr_get_insert_eq by done. rewrite Hi in Hk. injection Hk as <-. by exists v, p.
  - rewrite arr_get_insert_ne by lia. destruct s' as [v' p' l']. by exists v', p'.
Qed.

Lemma val_insert base i s k : 0 <= i < Z.of_nat (length base) ->
  val (<[Z.to_nat i := s]> base) k = if k =? i then semval s else val base k.
Proof.
  intros Hi. unfold val. destruct (Z.eqb_spec k i) as [->|Hne].
  - by rewrite arr_get_insert_eq.
  - by rewrite arr_get_insert_ne by lia.
Qed.

Lemma semop_forward_eq semadj sop base :
  sop_wf (Z.of_nat (length base)) semadj sop ->
  exists curr, arr_get base (sem_num sop) = Some curr /\
  semop_forward semadj sop base =
  Some (match sop_exit (val base (sem_num sop)) semadj sop with
        | Some e => inr e
        | None => inl (<[Z.to_nat (sem_num sop) := set_semval curr (semval curr + sem_op sop)]> base)
        end).
Proof.
  intros [Hn Hu]. destruct (arr_get_Some base _ Hn) as [curr Hc]. exists curr. split; [done|].
  unfold semop_forward, val, sop_exit, would_block. rewrite Hc. simpl. fold (truthy (semval curr)).
  destruct ((sem_op sop =? 0) && truthy (semval curr)); simpl; [done|].
  destruct (semval curr + sem_op sop <? 0); simpl; [done|].
  destruct (SEMVMX <? semval curr + sem_op sop); simpl; [done|].
  unfold undo_bad. rewrite arr_set_Some by done. destruct (has_flag sop SEM_UNDO); simpl; [|done].
  destruct (Hu eq_refl) as (adj & -> & Hl). simpl. rewrite arr_get_zth by lia. simpl.
  by destruct (_ || _).
Qed.

Lemma run_sops_vrun semadj sops base v :
  sops_wf (Z.of_nat (length base)) semadj sops ->
  (forall k, v k = val base k) ->
  wp (run_sops semadj sops base) (fun r =>
    match r, vrun semadj sops v with
    | inl b, inl v' => same_shape base b /\ forall k, v' k = val b k
    | inr (_, s, _, e), inr (s', e') => s = s' /\ e = e'
    | _, _ => False
    end).
Proof.
  revert base v. induction sops as [|sop sops IH]; intros base v Hwf Hv; simpl.
  { split; [apply same_shape_refl | done]. }
  apply Forall_cons_iff in Hwf as [Hs Hwf].
  destruct (semop_forward_eq semadj sop base Hs) as (curr & Hc & ->). rewrite Hv. cbn [mbind option_bind].
  pose proof (arr_get_range _ _ _ Hc) as Hr.
  destruct (sop_exit _ semadj sop) as [e|]; [done|].
  set (base1 := <[Z.to_nat (sem_num sop) := _]> base).
  assert (same_shape base base1) as Hsh by by apply same_shape_insert.
  assert (Z.of_nat (length base1) = Z.of_nat (length base)) as Hl by (f_equal; apply Hsh).
  specialize (IH base1 (upd v (sem_num sop) (val base (sem_num sop) + sem_op sop))).
  rewrite Hl in IH. specialize (IH Hwf). apply wp_bind. eapply wp_mono; [apply IH|].
  - intros k. unfold base1. rewrite val_insert by done. unfold upd, val at 1. rewrite Hc.
    by destruct (k =? sem_num sop).
  - simpl. intros r H. destruct r as [b|[[[dn s] b] e]], (vrun _ _ _) as [v'|[s' e']]; try done.
    destruct H as [Hb Hv']. split; [by eapply same_shape_trans | done].
Qed.

Lemma vrun_values semadj sops v v' : vrun semadj sops v = inl v' ->
  (forall k, v' k = v k + op_sum sops k) /\
  (forall k, 0 <= v k <= SEMVMX -> 0 <= v' k <= SEMVMX).
Proof.
  revert v. induction sops as [|sop sops IH]; intros v; simpl.
  { intros [= ->]. split; [intros k; lia | done]. }
  destruct (sop_exit (v (sem_num sop)) semadj sop) eqn:E; [done|].
  intros (Hsum & Hrng)%IH. unfold sop_exit, would_block in E.
  destruct (_ || _) eqn:Eb; [done|]. apply orb_false_iff in Eb as [_ Eb]. apply Z.ltb_ge in Eb.
  destruct (Z.ltb_spec SEMVMX (v (sem_num sop) + sem_op sop)); [done|]. split; intros k.
  - rewrite Hsum. unfold upd. rewrite (Z.eqb_sym k). destruct (Z.eqb_spec (sem_num sop) k) as [<-|]; lia.
  - intros Hk. apply Hrng. unfold upd. destruct (Z.eqb_spec k (sem_num sop)); [lia | done].
Qed.

(** *** Completion *)

Definition is_s16 (x : Z) : Prop := - 2 ^ 15 <= x < 2 ^ 15.

Lemma s16_range x : is_s16 (s16 x).
Proof. unfold s16, is_s16. pose proof (Z.mod_pos_bound (x + 2 ^ 15) (2 ^ 16) ltac:(lia)). lia. Qed.

Lemma s16_small x : is_s16 x -> s16 x = x.
Proof. intros H. unfold s16, is_s16 in *. rewrite Z.mod_small by lia. lia. Qed.

Lemma s16_sub x y : s16 (s16 x - y) = s16 (x - y).
Proof.
  unfold s16. f_equal.
  replace ((x + 2 ^ 15) mod 2 ^ 16 - 2 ^ 15 - y + 2 ^ 15) with ((x + 2 ^ 15) mod 2 ^ 16 - y) by lia.
  rewrite Zminus_mod_idemp_l. f_equal. lia.
Qed.

Definition adj_ok (n : Z) (semadj : option (list Z)) : Prop :=
  forall adj, semadj = Some adj -> Z.of_nat (length adj) = n /\ Forall is_s16 adj.

Lemma op_sum_app l1 l2 k : op_sum (l1 ++ l2) k = op_sum l1 k + op_sum l2 k.
Proof. unfold op_sum. induction l1 as [|x l1 IH]; simpl; [done|]. rewrite IH. lia. Qed.

Lemma undo_sum_cons sop sops k : undo_sum (sop :: sops) k =
  (if has_flag sop SEM_UNDO && (sem_num sop =? k) then sem_op sop else 0) + undo_sum sops k.
Proof.
  unfold undo_sum. rewrite filter_cons. destruct (has_flag sop SEM_UNDO) eqn:E.
  - rewrite decide_True by done. done.
  - rewrite decide_False by done. done.
Qed.

Lemma undo_sum_app l1 l2 k : undo_sum (l1 ++ l2) k = undo_sum l1 k + undo_sum l2 k.
Proof. unfold undo_sum. by rewrite list.filter_app, op_sum_app. Qed.

Lemma undo_sum_rev l k : undo_sum (rev l) k = undo_sum l k.
Proof.
  induction l as [|x l IH]; [done|]. simpl. rewrite undo_sum_app, undo_sum_cons, IH.
  rewrite undo_sum_cons. change (undo_sum [] k) with 0. lia.
Qed.

Lemma zth_Forall (P : Z -> Prop) l i : Forall P l -> 0 <= i < Z.of_nat (length l) -> P (zth l i).
Proof. intros H Hi. eapply Forall_lookup_1; [done|]. by apply lookup_zth. Qed.

(** What the completion loop leaves in [semadj]. *)
Definition adj_after (sops : list sembuf) (semadj semadj' : option (list Z)) : Prop :=
  match semadj, semadj' with
  | None, None => True
  | Some a, Some a' => length a' = length a /\ Forall is_s16 a' /\
      forall k, 0 <= k < Z.of_nat (length a) -> zth a' k = s16 (zth a k - undo_sum sops k)
  | _, _ => False
  end.

Lemma commit_ok pid sops base semadj :
  sops_wf (Z.of_nat (length base)) semadj sops -> adj_ok (Z.of_nat (length base)) semadj ->
  wp (opt_fold (semop_commit pid) sops (base, semadj)) (fun '(base', semadj') =>
    same_shape base base' /\ (forall k, val base' k = val base k) /\ adj_after sops semadj semadj').
Proof.
  revert base semadj. induction sops as [|sop sops IH]; intros base semadj Hwf Hadj; simpl.
  { split; [apply same_shape_refl|]. split; [done|]. destruct semadj as [a|]; simpl; [|done].
    destruct (Hadj a eq_refl) as [_ Ha]. split; [done|]. split; [done|]. intros k Hk.
    change (undo_sum [] k) with 0. rewrite Z.sub_0_r, s16_small; [done|]. by apply (zth_Forall is_s16). }
  apply Forall_cons_iff in Hwf as [[Hn Hu] Hwf].
  destruct (arr_get_Some base _ Hn) as [curr Hc]. rewrite Hc. cbn [mbind option_bind].
  rewrite arr_set_Some by done. cbn [mbind option_bind].
  set (base1 := <[_ := _]> base).
  assert (same_shape base base1) as Hsh by by apply same_shape_insert.
  assert (Z.of_nat (length base1) = Z.of_nat (length base)) as Hl by (f_equal; apply Hsh).
  assert (forall k, val base1 k = val base k) as Hval.
  { intros k. unfold base1. rewrite val_insert by done. destruct (Z.eqb_spec k (sem_num sop)) as [->|]; [|done].
    unfold val. by rewrite Hc. }
  destruct (has_flag sop SEM_UNDO) eqn:Ef; cbn [mbind option_bind].
  - destruct (Hu eq_refl) as (adj & -> & Hlen). destruct (Hadj adj eq_refl) as [_ Ha].
    cbn [mbind option_bind]. rewrite arr_get_zth by lia. cbn [mbind option_bind].
    rewrite arr_set_Some by lia. cbn [mbind option_bind].
    set (adj1 := <[_ := _]> adj).
    assert (length adj1 = length adj) as Hl1 by apply length_insert.
    specialize (IH base1 (Some adj1)). rewrite Hl in IH.
    eapply wp_mono; [apply IH|].
    + eapply Forall_impl; [|exact Hwf]. intros x [? Hx]. split; [done|]. intros.
      exists adj1. split; [done|]. by rewrite Hl1.
    + intros a [= <-]. split; [by rewrite Hl1|]. apply Forall_insert; [done | apply s16_range].
    + intros [base' semadj'] (Hs' & Hv' & Hadj'). split; [by eapply same_shape_trans|].
      split; [intros k; by rewrite Hv'|]. destruct semadj' as [a'|]; [|done]. simpl in *.
      rewrite Hl1 in Hadj'. destruct Hadj' as (La & Fa & Ha'). split; [done|]. split; [done|].
      intros k Hk. rewrite Ha' by lia. unfold adj1. rewrite undo_sum_cons, Ef. simpl.
      destruct (Z.eqb_spec (sem_num sop) k) as [<-|].
      * rewrite zth_insert_eq by lia. rewrite s16_sub. f_equal. lia.
      * rewrite zth_insert_ne by lia. f_equal.
  - specialize (IH base1 semadj). rewrite Hl in IH. eapply wp_mono; [by apply IH|].
    intros [base' semadj'] (Hs' & Hv' & Hadj'). split; [by eapply same_shape_trans|].
    split; [intros k; by rewrite Hv'|]. destruct semadj, semadj'; try done. simpl in *.
    destruct Hadj' as (La & Fa & Ha'). split; [done|]. split; [done|].
    intros k Hk. rewrite Ha', undo_sum_cons, Ef by done. simpl. f_equal.
Qed.

Lemma try_atomic_semop_ok base sops semadj pid :
  sops_wf (Z.of_nat (length base)) semadj sops -> adj_ok (Z.of_nat (length base)) semadj ->
  wp (try_atomic_semop base sops semadj pid) (fun '(r, base', semadj') =>
    match vrun semadj sops (val base) with
    | inl v' => r = 0 /\ same_shape base base' /\ (forall k, val base' k = v' k) /\
                adj_after sops semadj semadj'
    | inr (s, e) => r = exit_code s e /\ base' = base /\ semadj' = semadj
    end).
Proof.
  intros Hwf Hadj. rewrite try_atomic_semop_run. apply wp_bind.
  eapply wp_mono; [by apply (run_sops_vrun semadj sops base (val base))|].
  intros r Hr. destruct r as [b|[[[dn s] b] e]], (vrun semadj sops (val base)) as [v'|[s' e']]; try done.
  - destruct Hr as [Hsh Hv]. assert (Z.of_nat (length b) = Z.of_nat (length base)) as Hl by (f_equal; apply Hsh).
    apply wp_bind. eapply wp_mono; [apply commit_ok; rewrite Hl; [|done]|].
    + apply Forall_rev. done.
    + intros [base' semadj'] (Hs' & Hv' & Ha'). simpl. split; [done|].
      split; [by eapply same_shape_trans|]. split; [intros k; by rewrite Hv', Hv|].
      destruct semadj, semadj'; try done. simpl in *. destruct Ha' as (? & ? & Ha'). split; [done|].
      split; [done|]. intros k Hk. by rewrite Ha', undo_sum_rev.
  - destruct Hr as [-> ->]. done.
Qed.

(** The process that last operated on a semaphore. *)
Definition pid_of (base : list sem) (k : Z) : Z :=
  match arr_get base k with Some s => sempid s | None => 0 end.

Definition names (sops : list sembuf) (k : Z) : bool := existsb (fun sop => sem_num sop =? k) sops.

Lemma pid_of_insert base i s k : 0 <= i < Z.of_nat (length base) ->
  pid_of (<[Z.to_nat i := s]> base) k = if i =? k then sempid s else pid_of base k.
Proof.
  intros Hi. unfold pid_of. destruct (Z.eqb_spec i k) as [->|Hne].
  - by rewrite arr_get_insert_eq.
  - by rewrite arr_get_insert_ne by lia.
Qed.

Lemma run_sops_pids semadj sops base base' k :
  run_sops semadj sops base = Some (inl base') -> pid_of base' k = pid_of base k.
Proof.
  revert base. induction sops as [|sop sops IH]; intros base; simpl; [by intros [= ->]|].
  destruct (semop_forward semadj sop base) as [[base1|e]|] eqn:Ef; simpl; [|done..].
  destruct (run_sops semadj sops base1) as [[b|[[[dn s] b] e]]|] eqn:Er; simpl; [|done..].
  intros [= ->]. rewrite (IH base1) by done.
  apply semop_forward_inl in Ef as (curr & Hc & _ & _ & ->). pose proof (arr_get_range _ _ _ Hc).
  rewrite pid_of_insert by done. destruct (Z.eqb_spec (sem_num sop) k) as [<-|]; [|done].
  unfold pid_of. by rewrite Hc.
Qed.

Lemma commit_pids pid sops base semadj base' semadj' k :
  opt_fold (semop_commit pid) sops (base, semadj) = Some (base', semadj') ->
  pid_of base' k = if names sops k then pid else pid_of base k.
Proof.
  revert base semadj. induction sops as [|sop sops IH]; intros base semadj; simpl; [by intros [= -> _]|].
  destruct (arr_get base (sem_num sop)) as [curr|] eqn:Hc; simpl; [|done].
  pose proof (arr_get_range _ _ _ Hc). rewrite arr_set_Some by done. simpl.
  assert (forall sa, opt_fold (semop_commit pid) sops
      (<[Z.to_nat (sem_num sop) := set_sempid curr pid]> base, sa) = Some (base', semadj') ->
    pid_of base' k = if (sem_num sop =? k) || names sops k then pid else pid_of base k) as Hrest.
  { intros sa ->%IH. rewrite pid_of_insert by done. simpl. by destruct (sem_num sop =? k), (names sops k). }
  destruct (has_flag sop SEM_UNDO); [|apply Hrest].
  destruct semadj as [adj|]; simpl; [|done]. destruct (arr_get adj (sem_num sop)); simpl; [|done].
  destruct (arr_set adj _ _); simpl; [apply Hrest | done].
Qed.

Lemma try_atomic_semop_pids base sops semadj pid base' semadj' k :
  try_atomic_semop base sops semadj pid = Some (0, base', semadj') ->
  (forall b, run_sops semadj sops base <> Some (inr b)) ->
  pid_of base' k = if names sops k then pid else pid_of base k.
Proof.
  rewrite try_atomic_semop_run. destruct (run_sops semadj sops base) as [[b|x]|] eqn:Er; simpl; [|by intros _ []%(fun H => H x)|done].
  destruct (opt_fold _ _ _) as [[b' sa']|] eqn:Ec; simpl; [|done]. intros [= <- <-] _.
  rewrite (commit_pids _ _ _ _ _ _ k Ec), (run_sops_pids _ _ _ _ k Er).
  replace (names (rev sops) k) with (names sops k); [done|].
  unfold names. clear. induction sops as [|x l IH]; [done|]. simpl. rewrite existsb_app, <- IH. simpl.
  rewrite orb_false_r. apply orb_comm.
Qed.

(** ** The invariant of a semaphore set *)

(** The undo structure of a queue entry. *)
Definition q_adj (sma : sem_array) (un : option nat) : option (list Z) :=
  u ← un; undos sma !! u.

Definition has_alter (sops : list sembuf) : bool := existsb (fun sop => negb (sem_op sop =? 0)) sops.

Definition is_complex (sma : sem_array) (q : nat) : bool :=
  match queues sma !! q with Some e => negb (q_nsops e =? 1) | None => false end.
Definition simple_on (sma : sem_array) (k : Z) (q : nat) : bool :=
  match queues sma !! q with
  | Some e => match q_sops e with [sop] => sem_num sop =? k | _ => false end
  | None => false
  end.
Definition alters (sma : sem_array) (q : nat) : bool :=
  match queues sma !! q with Some e => q_alter e | None => false end.

(** Operations accepted by [semtimedop] for a set of [n] semaphores. *)
Definition sops_ok (n : Z) (un : option nat) (sops : list sembuf) : Prop :=
  Forall (fun sop => 0 <= sem_num sop < n /\ (has_flag sop SEM_UNDO = true -> un <> None)) sops.

(** A sleeping operation: a single operation that sleeps waits for zero or
    decrements, and did not ask to return at once. *)
Record queue_wf (n : Z) (nundos : nat) (e : sem_queue) : Prop := {
  qw_nonempty : q_sops e <> [];
  qw_sops : sops_ok n (q_undo e) (q_sops e);
  qw_undo : forall u, q_undo e = Some u -> (u < nundos)%nat;
  qw_alter : q_alter e = has_alter (q_sops e);
  qw_simple : forall sop, q_sops e = [sop] -> has_flag sop IPC_NOWAIT = false /\ sem_op sop <= 0
}.

Record sem_inv (sma : sem_array) : Prop := {
  si_undos : forall u adj, undos sma !! u = Some adj ->
    Z.of_nat (length adj) = sem_nsems sma /\ Forall is_s16 adj;
  si_vals : forall k, 0 <= val (sem_base sma) k <= SEMVMX;
  si_nodup : NoDup (sem_pending sma);
  si_queues : forall q, q ∈ sem_pending sma ->
    exists e, queues sma !! q = Some e /\ queue_wf (sem_nsems sma) (length (undos sma)) e;
  si_count : complex_count sma =
    Z.of_nat (length (filter (fun q => is_complex sma q = true) (sem_pending sma)));
  si_simple : forall k s, arr_get (sem_base sma) k = Some s ->
    simple_pending s = filter (fun q => simple_on sma k q = true) (sem_pending sma);
  si_order : exists zs als, sem_pending sma = zs ++ als /\
    Forall (fun q => alters sma q = false) zs /\ Forall (fun q => alters sma q = true) als
}.

(** A pending operation that has to go on sleeping. *)
Definition blocked (sma : sem_array) (q : nat) : Prop :=
  exists e s, queues sma !! q = Some e /\
    vrun (q_adj sma (q_undo e)) (q_sops e) (val (sem_base sma)) = inr (s, WOULD_BLOCK) /\
    has_flag s IPC_NOWAIT = false.

Definition all_blocked (sma : sem_array) : Prop := forall q, q ∈ sem_pending sma -> blocked sma q.

Lemma sops_ok_wf sma un sops :
  (forall u adj, undos sma !! u = Some adj -> Z.of_nat (length adj) = sem_nsems sma /\ Forall is_s16 adj) ->
  (forall u, un = Some u -> (u < length (undos sma))%nat) ->
  sops_ok (sem_nsems sma) un sops ->
  sops_wf (sem_nsems sma) (q_adj sma un) sops /\ adj_ok (sem_nsems sma) (q_adj sma un).
Proof.
  intros Hu Hb Hok. split.
  - eapply Forall_impl; [|exact Hok]. intros sop [Hn Hf]. split; [done|]. intros Hflag.
    specialize (Hf Hflag). destruct un as [u|]; [|done]. simpl.
    destruct (lookup_lt_is_Some_2 (undos sma) u (Hb u eq_refl)) as [adj Hadj].
    exists adj. split; [done|]. by apply (Hu u).
  - intros adj. unfold q_adj. destruct un as [u|]; simpl; [|done]. apply Hu.
Qed.

(** *** Performing an operation array on the set *)

(** What a successful array changes: values, pids and adjustments. *)
Record performed (sops : list sembuf) (sma sma' : sem_array) : Prop := {
  pf_base : same_shape (sem_base sma) (sem_base sma');
  pf_pending : sem_pending sma' = sem_pending sma;
  pf_count : complex_count sma' = complex_count sma;
  pf_queues : queues sma' = queues sma;
  pf_nundos : length (undos sma') = length (undos sma);
  pf_undos : forall u adj, undos sma' !! u = Some adj ->
    Z.of_nat (length adj) = sem_nsems sma /\ Forall is_s16 adj;
  pf_same : has_alter sops = false -> undos sma' = undos sma
}.

Lemma zth_ext (l l' : list Z) : length l = length l' ->
  (forall k, 0 <= k < Z.of_nat (length l) -> zth l k = zth l' k) -> l = l'.
Proof.
  intros Hl H. apply list_eq_same_length with (length l); [done | done |].
  intros i x y Hi Hx Hy. specialize (H (Z.of_nat i) ltac:(lia)).
  pose proof (lookup_zth l (Z.of_nat i) ltac:(lia)) as E1.
  pose proof (lookup_zth l' (Z.of_nat i) ltac:(lia)) as E2.
  rewrite Nat2Z.id in E1, E2. congruence.
Qed.

Lemma undo_sum_no_alter sops k : has_alter sops = false -> undo_sum sops k = 0.
Proof.
  induction sops as [|sop sops IH]; [done|]. unfold has_alter in *. simpl. intros [H0 Ht]%orb_false_iff.
  rewrite undo_sum_cons, IH by done. apply negb_false_iff, Z.eqb_eq in H0. rewrite H0.
  by destruct (_ && _).
Qed.

Lemma op_sum_no_alter sops k : has_alter sops = false -> op_sum sops k = 0.
Proof.
  induction sops as [|sop sops IH]; [done|]. unfold has_alter in *. simpl. intros [H0 Ht]%orb_false_iff.
  unfold op_sum in *. simpl. rewrite IH by done. apply negb_false_iff, Z.eqb_eq in H0. rewrite H0.
  by destruct (_ =? _).
Qed.

Lemma adj_after_same sops a a' : Forall is_s16 a -> has_alter sops = false ->
  adj_after sops (Some a) (Some a') -> a' = a.
Proof.
  intros Ha Hno (Hl & _ & Hk). apply zth_ext; [done|]. intros k Hk'.
  rewrite Hk, undo_sum_no_alter, Z.sub_0_r by (done || lia).
  apply s16_small. apply (zth_Forall is_s16); [done | lia].
Qed.

Lemma try_semop_ok sma sops un pid :
  (forall u adj, undos sma !! u = Some adj -> Z.of_nat (length adj) = sem_nsems sma /\ Forall is_s16 adj) ->
  (forall u, un = Some u -> (u < length (undos sma))%nat) ->
  sops_ok (sem_nsems sma) un sops ->
  wp (try_semop sma sops un pid) (fun '(r, sma') =>
    match vrun (q_adj sma un) sops (val (sem_base sma)) with
    | inl v' => r = 0 /\ performed sops sma sma' /\ forall k, val (sem_base sma') k = v' k
    | inr (s, e) => r = exit_code s e /\ sma' = sma
    end).
Proof.
  intros Hu Hb Hok. destruct (sops_ok_wf sma un sops Hu Hb Hok) as [Hwf Hadj].
  unfold try_semop. destruct un as [u|]; simpl in *.
  - destruct (lookup_lt_is_Some_2 (undos sma) u (Hb u eq_refl)) as [adj Ea]. rewrite Ea in *.
    cbn [mbind option_bind]. apply wp_bind. eapply wp_mono; [by apply try_atomic_semop_ok|].
    intros [[r base'] semadj'] H. destruct (vrun _ _ _) as [v'|[s e]].
    + destruct H as (-> & Hsh & Hv & Ha). destruct semadj' as [a'|]; [|done]. simpl. split; [done|].
      split; [|done]. split; simpl; try done.
      * apply length_insert.
      * intros u' adj' Hl. destruct (Hu u adj Ea) as [Hla Hfa]. destruct (decide (u' = u)) as [->|Hne].
        -- rewrite list_lookup_insert_eq in Hl by (by eapply lookup_lt_Some).
           injection Hl as <-. destruct Ha as (La & Fa & _). by rewrite La.
        -- rewrite list_lookup_insert_ne in Hl by done. by apply (Hu u').
      * intros Hno. destruct (Hu u adj Ea) as [_ Hfa].
        apply (adj_after_same sops adj) in Ha as ->; [|done|done]. by apply list_insert_id.
    + destruct H as (-> & -> & ->). simpl. split; [done|]. rewrite list_insert_id by done. by destruct sma.
  - apply wp_bind. eapply wp_mono; [by apply try_atomic_semop_ok|].
    intros [[r base'] semadj'] H. simpl. destruct (vrun _ _ _) as [v'|[s e]].
    + destruct H as (-> & Hsh & Hv & Ha). split; [done|]. split; [|done]. by split.
    + destruct H as (-> & -> & ->). split; [done|]. by destruct sma.
Qed.

(** *** Blocked operations *)

Lemma vrun_ext semadj sops v v' : (forall k, v k = v' k) ->
  match vrun semadj sops v, vrun semadj sops v' with
  | inl w, inl w' => forall k, w k = w' k
  | inr x, inr x' => x = x'
  | _, _ => False
  end.
Proof.
  revert v v'. induction sops as [|sop sops IH]; intros v v' H; simpl; [done|].
  rewrite (H (sem_num sop)). destruct (sop_exit _ semadj sop); [done|]. apply IH.
  intros k. unfold upd. by destruct (k =? sem_num sop).
Qed.

Lemma blocked_ext sma sma' q :
  queues sma' !! q = queues sma !! q -> undos sma' = undos sma ->
  (forall k, val (sem_base sma') k = val (sem_base sma) k) ->
  blocked sma q -> blocked sma' q.
Proof.
  intros Hq Hu Hv (e & s & He & Hr & Hs). exists e, s. split; [by rewrite Hq|]. split; [|done].
  unfold q_adj in *. rewrite Hu.
  pose proof (vrun_ext (u ← q_undo e; undos sma !! u) (q_sops e) _ _ Hv) as H. rewrite Hr in H.
  destruct (vrun _ _ (val (sem_base sma'))); [done | by subst].
Qed.

(** A simple operation blocks according to the value of its semaphore only. *)
Lemma blocked_simple sma q e sop :
  queues sma !! q = Some e -> q_sops e = [sop] -> has_flag sop IPC_NOWAIT = false ->
  blocked sma q <-> would_block (val (sem_base sma) (sem_num sop)) sop = true.
Proof.
  intros He Hsop Hnw. split.
  - intros (e' & s & He' & Hr & _). rewrite He in He'. injection He' as <-. rewrite Hsop in Hr.
    simpl in Hr. unfold sop_exit in Hr. destruct (would_block _ sop); [done|].
    by destruct (_ || _).
  - intros Hb. exists e, sop. split; [done|]. split; [|done]. rewrite Hsop. simpl.
    unfold sop_exit. by rewrite Hb.
Qed.

(** *** Frames of the invariant *)

Lemma filter_ext_in {A} (P Q : A -> bool) (l : list A) : (forall x, x ∈ l -> P x = Q x) ->
  filter (fun x => P x = true) l = filter (fun x => Q x = true) l.
Proof.
  induction l as [|x l IH]; intros H; [done|]. rewrite !filter_cons.
  rewrite IH by (intros y Hy; apply H; by right).
  rewrite (H x) by left. done.
Qed.

Section same_queues.
Context (sma sma' : sem_array).
Context (Hq : forall q, q ∈ sem_pending sma' -> queues sma' !! q = queues sma !! q).

Lemma is_complex_same q : q ∈ sem_pending sma' -> is_complex sma' q = is_complex sma q.
Proof. intros. unfold is_complex. by rewrite Hq. Qed.
Lemma simple_on_same k q : q ∈ sem_pending sma' -> simple_on sma' k q = simple_on sma k q.
Proof. intros. unfold simple_on. by rewrite Hq. Qed.
Lemma alters_same q : q ∈ sem_pending sma' -> alters sma' q = alters sma q.
Proof. intros. unfold alters. by rewrite Hq. Qed.

(** The invariant carries over to a set with fewer pending operations, the
    same queue entries and matching lists and counts. *)
Lemma sem_inv_frame : sem_inv sma ->
  sublist (sem_pending sma') (sem_pending sma) ->
  sem_nsems sma' = sem_nsems sma ->
  (length (undos sma) <= length (undos sma'))%nat ->
  (forall u adj, undos sma' !! u = Some adj -> Z.of_nat (length adj) = sem_nsems sma /\ Forall is_s16 adj) ->
  (forall k, 0 <= val (sem_base sma') k <= SEMVMX) ->
  complex_count sma' = Z.of_nat (length (filter (fun q => is_complex sma q = true) (sem_pending sma'))) ->
  (forall k s, arr_get (sem_base sma') k = Some s ->
     simple_pending s = filter (fun q => simple_on sma k q = true) (sem_pending sma')) ->
  sem_inv sma'.
Proof.
  intros [Hu Hv Hnd Hqs Hc Hs (zs & als & E & Hzs & Hals)] Hsub Hn Hlen Hu' Hv' Hc' Hs'.
  assert (forall q, q ∈ sem_pending sma' -> q ∈ sem_pending sma) as Hin
    by (intros q Hin; by eapply elem_of_sublist).
  split.
  - intros u adj Hadj. rewrite Hn. by apply (Hu' u).
  - done.
  - by eapply sublist_NoDup.
  - intros q Hq'. rewrite Hq by done. destruct (Hqs q (Hin q Hq')) as (e & He & [? ? Hb ? ?]).
    exists e. split; [done|]. split; [done | by rewrite Hn | | done | done].
    intros u Hu0. specialize (Hb u Hu0). lia.
  - rewrite Hc'. do 2 f_equal. apply filter_ext_in. intros q Hq'. by rewrite is_complex_same.
  - intros k s Hk. rewrite (Hs' k s Hk). apply filter_ext_in. intros q Hq'. by rewrite simple_on_same.
  - rewrite E in Hsub. apply sublist_app_r in Hsub as (zs' & als' & E' & Hz & Ha).
    exists zs', als'. split; [done|]. split; apply Forall_forall; intros q Hq'; apply list_elem_of_In in Hq'.
    + rewrite alters_same by (rewrite E'; apply elem_of_app; by left).
      rewrite Forall_forall in Hzs. apply Hzs, list_elem_of_In. by eapply elem_of_sublist.
    + rewrite alters_same by (rewrite E'; apply elem_of_app; by right).
      rewrite Forall_forall in Hals. apply Hals, list_elem_of_In. by eapply elem_of_sublist.
Qed.
End same_queues.

Lemma performed_inv sops sma sma' : sem_inv sma -> performed sops sma sma' ->
  (forall k, 0 <= val (sem_base sma') k <= SEMVMX) -> sem_inv sma'.
Proof.
  intros Hinv [[Hl Hb] Hp Hc Hq Hnu Hu _] Hv. apply (sem_inv_frame sma); try done.
  - intros q _. by rewrite Hq.
  - by rewrite Hp.
  - unfold sem_nsems. by rewrite Hl.
  - lia.
  - rewrite Hc, Hp. apply (si_count sma Hinv).
  - intros k s Hk. rewrite Hp.
    destruct (arr_get_Some (sem_base sma) k) as [s0 Hs0].
    { apply arr_get_range in Hk. by rewrite Hl in Hk. }
    destruct (Hb k s0 Hs0) as (v & p & Hk'). rewrite Hk in Hk'. injection Hk' as ->. simpl.
    by apply (si_simple sma Hinv).
Qed.

(** *** Unlinking *)

Lemma list_del_comm (P : nat -> bool) q l :
  filter (fun x => P x = true) (list_del q l) = list_del q (filter (fun x => P x = true) l).
Proof.
  unfold list_del. rewrite !list_filter_filter. apply list_filter_iff. intros x. tauto.
Qed.

Lemma list_del_notin q l : q ∉ l -> list_del q l = l.
Proof.
  intros Hq. unfold list_del.
  induction l as [|x l IH]; [done|]. rewrite filter_cons.
  rewrite decide_True by (intros ->; apply Hq; left). f_equal. apply IH. intros H. apply Hq. by right.
Qed.

Lemma list_del_middle q l1 l2 : NoDup (l1 ++ q :: l2) -> list_del q (l1 ++ q :: l2) = l1 ++ l2.
Proof.
  intros Hnd. apply list.NoDup_app in Hnd as (Hn1 & Hd & Hn2). apply list.NoDup_cons in Hn2 as [Hq2 _].
  unfold list_del. rewrite list.filter_app, filter_cons, decide_False by tauto.
  fold (list_del q l1) (list_del q l2). rewrite !list_del_notin; [done | done |].
  intros H. apply (Hd q H). left.
Qed.

Lemma elem_of_list_del q x l : x ∈ list_del q l <-> x <> q /\ x ∈ l.
Proof. unfold list_del. by rewrite list_elem_of_filter. Qed.

Lemma list_del_filter_false (P : nat -> bool) q l : P q = false ->
  filter (fun x => P x = true) (list_del q l) = filter (fun x => P x = true) l.
Proof.
  intros Hq. rewrite list_del_comm. apply list_del_notin. rewrite list_elem_of_filter, Hq. by intros [].
Qed.

Record unlinked (q : nat) (sma sma' : sem_array) : Prop := {
  ul_pending : sem_pending sma' = list_del q (sem_pending sma);
  ul_queues : queues sma' = queues sma;
  ul_undos : undos sma' = undos sma;
  ul_vals : forall k, val (sem_base sma') k = val (sem_base sma) k;
  ul_nsems : sem_nsems sma' = sem_nsems sma
}.

Lemma complex_del P q l : NoDup l -> q ∈ l -> P q = true ->
  Z.of_nat (length (filter (fun x => P x = true) (list_del q l))) =
  Z.of_nat (length (filter (fun x => P x = true) l)) - 1.
Proof.
  intros Hnd (l1 & l2 & ->)%list_elem_of_split HP. rewrite list_del_middle by done.
  rewrite !list.filter_app, filter_cons, decide_True by done. rewrite !length_app. simpl. lia.
Qed.

Lemma unlink_queue_ok sma q : sem_inv sma -> q ∈ sem_pending sma ->
  wp (unlink_queue sma q) (fun sma' => sem_inv sma' /\ unlinked q sma sma').
Proof.
  intros Hinv Hq. destruct (si_queues sma Hinv q Hq) as (e & He & [Hne Hok _ _ _]).
  pose proof (sublist_filter (fun x => x <> q) (sem_pending sma)) as Hsub.
  unfold unlink_queue. rewrite He. cbn [mbind option_bind].
  destruct (Z.eqb_spec (q_nsops e) 1) as [E1|E1].
  - destruct (q_sops e) as [|sop [|]] eqn:Es; [done| |unfold q_nsops in E1; rewrite Es in E1; simpl in E1; lia].
    change (arr_get [sop] 0) with (Some sop). cbn [mbind option_bind].
    apply Forall_cons_iff in Hok as [[Hn _] _].
    destruct (arr_get_Some (sem_base sma) _ Hn) as [curr Hc]. rewrite Hc. cbn [mbind option_bind].
    rewrite arr_set_Some by done. simpl.
    assert (forall k, val (<[Z.to_nat (sem_num sop) := set_simple curr (list_del q (simple_pending curr))]>
      (sem_base sma)) k = val (sem_base sma) k) as Hv.
    { intros k. rewrite val_insert by done. destruct (Z.eqb_spec k (sem_num sop)) as [->|]; [|done].
      unfold val. by rewrite Hc. }
    split; [|split; simpl; try done; unfold sem_nsems; simpl; by rewrite length_insert].
    apply (sem_inv_frame sma); simpl; try done.
    + unfold sem_nsems. simpl. by rewrite length_insert.
    + apply (si_undos sma Hinv).
    + intros k. rewrite Hv. apply (si_vals sma Hinv).
    + rewrite list_del_filter_false; [apply (si_count sma Hinv)|].
      unfold is_complex. by rewrite He, E1.
    + intros k s Hk. destruct (Z.eq_dec (sem_num sop) k) as [<-|Hne'].
      * rewrite arr_get_insert_eq in Hk by done. injection Hk as <-. simpl.
        by rewrite (si_simple sma Hinv _ _ Hc), list_del_comm.
      * rewrite arr_get_insert_ne in Hk by lia. rewrite (si_simple sma Hinv _ _ Hk).
        symmetry. apply list_del_filter_false. unfold simple_on. rewrite He, Es.
        by apply Z.eqb_neq.
  - simpl. split; [|by split]. apply (sem_inv_frame sma); simpl; try done.
    + apply (si_undos sma Hinv).
    + apply (si_vals sma Hinv).
    + rewrite complex_del; [by rewrite <- (si_count sma Hinv) | apply Hinv | done |].
      unfold is_complex. rewrite He. by rewrite (proj2 (Z.eqb_neq _ _)).
    + intros k s Hk. rewrite (si_simple sma Hinv _ _ Hk). symmetry. apply list_del_filter_false.
      unfold simple_on. rewrite He. destruct (q_sops e) as [|sop [|]] eqn:Es; try done.
      unfold q_nsops in E1. by rewrite Es in E1.
Qed.

(** *** Preparing a wake-up *)

Lemma prepare_ok sma pt q error : sem_inv sma -> (q < length (queues sma))%nat -> q ∉ sem_pending sma ->
  wp (wake_up_sem_queue_prepare sma pt q error) (fun '(sma', pt') =>
    pt' = pt ++ [q] /\ sem_inv sma' /\ sem_base sma' = sem_base sma /\
    sem_pending sma' = sem_pending sma /\ complex_count sma' = complex_count sma /\
    undos sma' = undos sma /\ length (queues sma') = length (queues sma) /\
    (forall q', q' <> q -> queues sma' !! q' = queues sma !! q') /\
    (exists e', queues sma' !! q = Some e' /\ q_status e' = IN_WAKEUP /\ q_pid e' = error)).
Proof.
  intros Hinv Hlt Hq. unfold wake_up_sem_queue_prepare.
  destruct (lookup_lt_is_Some_2 (queues sma) q Hlt) as [e He]. rewrite He. simpl.
  assert (forall q' x, q' <> q -> (<[q := x]> (queues sma)) !! q' = queues sma !! q') as Hne
    by (intros; by apply list_lookup_insert_ne).
  split; [done|]. split; [|do 4 (split; [done|]); split; [apply length_insert|]; split].
  - apply (sem_inv_frame sma); simpl; try done.
    + intros q' Hq'. apply Hne. by intros ->.
    + apply (si_undos sma Hinv).
    + apply (si_vals sma Hinv).
    + apply (si_count sma Hinv).
    + apply (si_simple sma Hinv).
  - intros q' Hq'. by apply Hne.
  - eexists. split; [apply list_lookup_insert_eq; done | done].
Qed.

(** *** Order of the queues *)

Lemma alters_suffix (f : nat -> bool) zs als pre q post :
  zs ++ als = pre ++ q :: post -> Forall (fun x => f x = false) zs -> Forall (fun x => f x = true) als ->
  f q = true -> Forall (fun x => f x = true) post.
Proof.
  revert pre. induction zs as [|z zs IH]; intros pre E Hz Ha Hq; simpl in E.
  - rewrite E in Ha. by apply Forall_app in Ha as [_ [_ ?]%Forall_cons_iff].
  - apply Forall_cons_iff in Hz as [Hz0 Hz]. destruct pre as [|x pre]; simpl in E; injection E as -> E.
    + congruence.
    + by eapply IH.
Qed.

(** Behind an operation that alters the set, every operation of the list of a
    semaphore alters it: operations that wait for zero come first. *)
Lemma simple_order sma k s pre q post : sem_inv sma -> arr_get (sem_base sma) k = Some s ->
  simple_pending s = pre ++ q :: post -> alters sma q = true ->
  Forall (fun x => alters sma x = true) post.
Proof.
  intros Hinv Hk E Hq. rewrite (si_simple sma Hinv k s Hk) in E.
  destruct (si_order sma Hinv) as (zs & als & Ep & Hz & Ha). rewrite Ep, list.filter_app in E.
  eapply alters_suffix; [exact E | | | done].
  - apply Forall_forall. intros x Hx. apply list_elem_of_In, list_elem_of_filter in Hx as [_ Hx].
    rewrite Forall_forall in Hz. by apply Hz, list_elem_of_In.
  - apply Forall_forall. intros x Hx. apply list_elem_of_In, list_elem_of_filter in Hx as [_ Hx].
    rewrite Forall_forall in Ha. by apply Ha, list_elem_of_In.
Qed.

(** *** Simple operations *)

(** [q] is a pending single operation [sop]. *)
Definition is_simple (sma : sem_array) (q : nat) (sop : sembuf) : Prop :=
  exists e, queues sma !! q = Some e /\ q_sops e = [sop] /\ q_alter e = negb (sem_op sop =? 0) /\
    has_flag sop IPC_NOWAIT = false /\ sem_op sop <= 0 /\ 0 <= sem_num sop < sem_nsems sma.

Lemma queue_simple sma q e sop : queues sma !! q = Some e ->
  queue_wf (sem_nsems sma) (length (undos sma)) e -> q_sops e = [sop] -> is_simple sma q sop.
Proof.
  intros He [_ Hok _ Ha Hs] Hsop. exists e. split; [done|]. split; [done|].
  rewrite Ha, Hsop. unfold has_alter. simpl. split; [apply orb_false_r|].
  destruct (Hs sop Hsop). rewrite Hsop in Hok. apply Forall_cons_iff in Hok as [[? _] _]. done.
Qed.

Lemma simple_on_inv sma q k : sem_inv sma -> q ∈ sem_pending sma -> simple_on sma k q = true ->
  exists sop, is_simple sma q sop /\ sem_num sop = k.
Proof.
  intros Hinv Hq Hs. destruct (si_queues sma Hinv q Hq) as (e & He & Hwf).
  unfold simple_on in Hs. rewrite He in Hs. destruct (q_sops e) as [|sop [|]] eqn:Es; try done.
  exists sop. split; [by eapply queue_simple | by apply Z.eqb_eq].
Qed.

Lemma no_complex_simple sma q : sem_inv sma -> complex_count sma = 0 -> q ∈ sem_pending sma ->
  exists sop, is_simple sma q sop.
Proof.
  intros Hinv Hc Hq. destruct (si_queues sma Hinv q Hq) as (e & He & Hwf).
  rewrite (si_count sma Hinv) in Hc.
  assert (filter (fun q => is_complex sma q = true) (sem_pending sma) = []) as Hnil
    by (apply nil_length_inv; lia).
  assert (q ∉ filter (fun q => is_complex sma q = true) (sem_pending sma)) as Hn
    by (rewrite Hnil; apply not_elem_of_nil).
  rewrite list_elem_of_filter in Hn. unfold is_complex in Hn. rewrite He in Hn.
  destruct (Z.eqb_spec (q_nsops e) 1) as [E1|]; [|tauto]. unfold q_nsops in E1.
  destruct (q_sops e) as [|sop [|]] eqn:Es; simpl in E1; try lia.
  exists sop. by eapply queue_simple.
Qed.

Lemma is_simple_blocked sma q sop : is_simple sma q sop ->
  blocked sma q <-> would_block (val (sem_base sma) (sem_num sop)) sop = true.
Proof. intros (e & He & Hs & _ & Hn & _). by eapply blocked_simple. Qed.

Lemma is_simple_on sma q sop k : is_simple sma q sop -> simple_on sma k q = (sem_num sop =? k).
Proof. intros (e & He & Hs & _). unfold simple_on. by rewrite He, Hs. Qed.

Lemma is_simple_alters sma q sop : is_simple sma q sop -> alters sma q = negb (sem_op sop =? 0).
Proof. intros (e & He & _ & Ha & _). unfold alters. by rewrite He. Qed.

(** A decrement that leaves a nonzero value lets no other simple operation
    proceed. *)
Lemma would_block_decrement v op sop : op < 0 -> v + op <> 0 -> sem_op sop <= 0 ->
  would_block v sop = true -> would_block (v + op) sop = true.
Proof.
  unfold would_block. intros Hop Hnz Hs. rewrite !orb_true_iff, !andb_true_iff, !negb_true_iff, !Z.eqb_neq,
    !Z.eqb_eq, !Z.ltb_lt. lia.
Qed.

(** *** [check_restart] *)

(** [sma] is the set before the operation [e] of [q] was performed and
    unlinked, [sma'] after. *)
Record completed_op (q : nat) (e : sem_queue) (sma sma' : sem_array) : Prop := {
  co_inv : sem_inv sma';
  co_entry : queues sma' !! q = Some e;
  co_wf : queue_wf (sem_nsems sma') (length (undos sma')) e;
  co_queues : queues sma' = queues sma;
  co_undos : q_alter e = false -> undos sma' = undos sma;
  co_vals : forall k, val (sem_base sma') k = val (sem_base sma) k + op_sum (q_sops e) k;
  co_nsems : sem_nsems sma' = sem_nsems sma
}.

Lemma is_simple_same sma sma' q sop : queues sma' = queues sma -> sem_nsems sma' = sem_nsems sma ->
  is_simple sma' q sop -> is_simple sma q sop.
Proof. intros Hq Hn (e & ?). exists e. by rewrite <- Hq, <- Hn. Qed.

(** A simple operation on another semaphore is not affected. *)
Lemma other_sem_blocked q e sma sma' sop q' sop' : completed_op q e sma sma' ->
  q_sops e = [sop] -> is_simple sma' q' sop' -> sem_num sop' <> sem_num sop ->
  blocked sma q' -> blocked sma' q'.
Proof.
  intros [_ _ _ Hq _ Hv Hn] Hs Hsop' Hne Hb. pose proof (is_simple_same _ _ _ _ Hq Hn Hsop') as Hsop0.
  apply (is_simple_blocked _ _ _ Hsop'). apply (is_simple_blocked _ _ _ Hsop0) in Hb.
  rewrite Hv, Hs. unfold op_sum. simpl. rewrite (proj2 (Z.eqb_neq _ _)) by lia.
  by rewrite !Z.add_0_r.
Qed.

Lemma check_restart_ok q e sma sma' : completed_op q e sma sma' ->
  wp (check_restart sma' q) (fun restart =>
    restart = false -> forall q', q' ∈ sem_pending sma' -> blocked sma q' -> blocked sma' q').
Proof.
  intros Hco. pose proof Hco as [Hinv He Hwf Hqs Hun Hv Hn]. unfold check_restart. rewrite He.
  cbn [mbind option_bind]. destruct (q_alter e) eqn:Ea; simpl.
  2:{ intros _ q' Hq'. apply blocked_ext; [by rewrite Hqs | by apply Hun |].
      intros k. rewrite Hv, op_sum_no_alter; [lia|]. by rewrite <- (qw_alter _ _ _ Hwf). }
  destruct (truthy (complex_count sma')) eqn:Ec; [done|]. apply truthy_false in Ec.
  destruct (Z.ltb_spec 1 (q_nsops e)) as [|Hns]; [done|].
  destruct (q_sops e) as [|sop [|]] eqn:Es.
  { by pose proof (qw_nonempty _ _ _ Hwf). }
  2:{ unfold q_nsops in Hns. rewrite Es in Hns. simpl in Hns. lia. }
  change (arr_get [sop] 0) with (Some sop). cbn [mbind option_bind].
  destruct (queue_simple sma' q e sop He Hwf Es) as (e' & He' & _ & Halt & _ & Hle & Hnum).
  rewrite He in He'. injection He' as <-. rewrite Ea in Halt. symmetry in Halt.
  apply negb_true_iff, Z.eqb_neq in Halt.
  destruct (arr_get_Some (sem_base sma') _ Hnum) as [curr Hcur]. rewrite Hcur. cbn [mbind option_bind].
  assert (val (sem_base sma') (sem_num sop) = semval curr) as Ecur by (unfold val; by rewrite Hcur).
  assert (semval curr = val (sem_base sma) (sem_num sop) + sem_op sop) as Eval.
  { rewrite <- Ecur, Hv, ?Es. unfold op_sum. simpl. rewrite Z.eqb_refl. lia. }
  assert (forall q' sop', q' ∈ sem_pending sma' -> is_simple sma' q' sop' -> sem_num sop' = sem_num sop ->
    q' ∈ simple_pending curr) as Hlist.
  { intros q' sop' Hq' Hs' E. rewrite (si_simple _ Hinv _ _ Hcur). apply list_elem_of_filter.
    split; [|done]. rewrite (is_simple_on _ _ _ _ Hs'). by apply Z.eqb_eq. }
  assert (forall r : bool, (r = false -> forall q' sop', q' ∈ simple_pending curr -> q' ∈ sem_pending sma' ->
      is_simple sma' q' sop' -> sem_num sop' = sem_num sop ->
      would_block (val (sem_base sma) (sem_num sop)) sop' = true -> would_block (semval curr) sop' = true) ->
    r = false -> forall q', q' ∈ sem_pending sma' -> blocked sma q' -> blocked sma' q') as Hwrap.
  { intros r Hr Er q' Hq' Hb. destruct (no_complex_simple sma' q' Hinv Ec Hq') as [sop' Hs'].
    destruct (Z.eq_dec (sem_num sop') (sem_num sop)) as [E|Hne]; [|by eapply other_sem_blocked].
    pose proof (is_simple_same _ _ _ _ Hqs Hn Hs') as Hs0.
    apply (is_simple_blocked _ _ _ Hs0) in Hb. apply (is_simple_blocked _ _ _ Hs').
    rewrite E, Ecur in *. by eapply Hr; [| eapply Hlist | | | |]. }
  destruct (simple_pending curr) as [|h t] eqn:Eh.
  { refine (Hwrap false _). intros _ q' sop' Hq'. by apply elem_of_nil in Hq'. }
  destruct (truthy (semval curr)) eqn:Ev.
  - apply truthy_true in Ev. rewrite (proj2 (Z.leb_gt 0 (sem_op sop))) by lia. refine (Hwrap false _).
    intros _ q' sop' _ _ (_ & _ & _ & _ & _ & Hle' & _) _ Hb. rewrite Eval in *.
    apply would_block_decrement; [lia | done | done | done].
  - apply truthy_false in Ev.
    assert (h ∈ filter (fun q => simple_on sma' (sem_num sop) q = true) (sem_pending sma')) as Hh.
    { rewrite <- (si_simple _ Hinv _ _ Hcur), Eh. left. }
    apply list_elem_of_filter in Hh as [Hh1 Hh2].
    destruct (simple_on_inv _ _ _ Hinv Hh2 Hh1) as (hsop & Hhs & Hhn).
    pose proof Hhs as (eh & Heh & Esh & _ & _ & Hhle & _).
    rewrite Heh. cbn [mbind option_bind]. unfold q_nsops. rewrite Esh. simpl.
    rewrite Hhn, Z.eqb_refl. simpl. refine (Hwrap (sem_op hsop =? 0) _). intros Er q' sop' Hq' Hqp Hs' _ _.
    apply Z.eqb_neq in Er.
    assert (alters sma' q' = true) as Hal.
    { pose proof (is_simple_alters _ _ _ Hhs) as Hah. rewrite (proj2 (Z.eqb_neq _ _)) in Hah by done.
      apply elem_of_cons in Hq' as [->|Hq']; [done|].
      pose proof (simple_order sma' _ curr [] h t Hinv Hcur Eh Hah) as Ht.
      rewrite Forall_forall in Ht. by apply Ht, list_elem_of_In. }
    rewrite (is_simple_alters _ _ _ Hs') in Hal. apply negb_true_iff, Z.eqb_neq in Hal.
    destruct Hs' as (_ & _ & _ & _ & _ & Hle' & _). unfold would_block. rewrite Ev.
    apply orb_true_iff. right. apply Z.ltb_lt. lia.
Qed.

(** ** [update_queue] *)

(** Results with which a sleeper is woken. *)
Definition final_code (x : Z) : Prop := x = 0 \/ x = - EAGAIN \/ x = - ERANGE \/ x = - EIDRM.

Definition woken (sma : sem_array) (q : nat) : Prop :=
  (q ∉ sem_pending sma) /\
  exists e, queues sma !! q = Some e /\ q_status e = IN_WAKEUP /\ final_code (q_pid e).

(** From [sma0] on, some operations have left the queue and are on the
    wake-up list [pt]. *)
Record progress (sma0 sma : sem_array) (pt : list nat) : Prop := {
  pg_sub : sublist (sem_pending sma) (sem_pending sma0);
  pg_nsems : sem_nsems sma = sem_nsems sma0;
  pg_nundos : length (undos sma) = length (undos sma0);
  pg_nqueues : length (queues sma) = length (queues sma0);
  pg_same : forall q, q ∉ pt -> queues sma !! q = queues sma0 !! q;
  pg_woken : forall q, q ∈ pt -> woken sma q;
  pg_dom : forall q, q ∈ sem_pending sma0 -> q ∈ sem_pending sma \/ q ∈ pt;
  pg_pt : forall q, q ∈ pt -> q ∈ sem_pending sma0
}.

Lemma progress_refl sma : progress sma sma [].
Proof. split; try done; by intros q ?%elem_of_nil || auto. Qed.

(** The mode of a scan: the whole queue, or the list of one semaphore while
    no complex operation is pending. *)
Definition scan_mode (sma : sem_array) (semnum : Z) : Prop :=
  semnum = -1 \/ (0 <= semnum < sem_nsems sma /\ complex_count sma = 0).

(** No operation is added, and the other semaphores keep their values. *)
Definition scan_frame (semnum : Z) (sma1 sma : sem_array) : Prop :=
  sublist (sem_pending sma) (sem_pending sma1) /\
  (semnum <> -1 -> forall k, k <> semnum -> val (sem_base sma) k = val (sem_base sma1) k).

Record scan_inv (semnum : Z) (sma0 sma1 : sem_array) (walk : list nat) (sma : sem_array) (pt : list nat)
    : Prop := {
  sc_inv : sem_inv sma;
  sc_mode : scan_mode sma semnum;
  sc_list : exists pre, pending_list sma semnum = Some (pre ++ walk) /\ forall q, q ∈ pre -> blocked sma q;
  sc_frame : scan_frame semnum sma1 sma;
  sc_progress : progress sma0 sma pt
}.

(** The outcome of a scan. *)
Definition scanned (semnum : Z) (sma0 sma1 sma : sem_array) (pt : list nat) : Prop :=
  sem_inv sma /\ scan_mode sma semnum /\ scan_frame semnum sma1 sma /\ progress sma0 sma pt /\
  exists l, pending_list sma semnum = Some l /\ forall q, q ∈ l -> blocked sma q.

Lemma pending_list_ok sma semnum : sem_inv sma -> scan_mode sma semnum ->
  exists l, pending_list sma semnum = Some l /\ sublist l (sem_pending sma) /\
    (forall q, q ∈ l <-> q ∈ sem_pending sma /\ (semnum = -1 \/ simple_on sma semnum q = true)).
Proof.
  intros Hinv Hm. unfold pending_list, scan_mode in *. destruct (Z.eqb_spec semnum (-1)) as [->|Hne].
  - eexists. split; [done|]. split; [done|]. intros q. tauto.
  - destruct Hm as [?|[Hr _]]; [done|]. destruct (arr_get_Some (sem_base sma) _ Hr) as [s Hs].
    rewrite Hs. simpl. eexists. split; [done|]. rewrite (si_simple _ Hinv _ _ Hs).
    split; [apply sublist_filter|]. intros q. rewrite list_elem_of_filter. tauto.
Qed.

(** The list scanned after [q] left the queue. *)
Lemma pending_list_del semnum sma sma' q pre walk : sem_inv sma -> sem_inv sma' ->
  scan_mode sma semnum -> scan_mode sma' semnum ->
  sem_pending sma' = list_del q (sem_pending sma) -> queues sma' = queues sma ->
  pending_list sma semnum = Some (pre ++ q :: walk) -> pending_list sma' semnum = Some (pre ++ walk).
Proof.
  intros Hinv Hinv' Hm Hm' Hp Hq. unfold pending_list, scan_mode in *.
  destruct (Z.eqb_spec semnum (-1)) as [->|Hne].
  - intros [= E]. rewrite Hp, E. f_equal. apply list_del_middle. rewrite <- E. apply Hinv.
  - destruct Hm as [?|[Hr _]]; [done|]. destruct Hm' as [?|[Hr' _]]; [done|].
    destruct (arr_get_Some (sem_base sma) _ Hr) as [s Hs]. rewrite Hs.
    destruct (arr_get_Some (sem_base sma') _ Hr') as [s' Hs']. rewrite Hs'. simpl. intros [= E]. f_equal.
    rewrite (si_simple _ Hinv' _ _ Hs'), Hp, list_del_comm.
    rewrite (si_simple _ Hinv _ _ Hs) in E.
    rewrite <- (filter_ext_in (simple_on sma semnum)) by (intros x _; unfold simple_on; by rewrite Hq).
    rewrite E. apply list_del_middle. rewrite <- E. apply list.NoDup_filter. apply Hinv.
Qed.

Lemma exit_code_pos s e : 0 < exit_code s e -> e = WOULD_BLOCK /\ has_flag s IPC_NOWAIT = false.
Proof. unfold exit_code, ERANGE, EAGAIN. destruct e; [|lia]. destruct (has_flag _ _); [lia | done]. Qed.

Lemma exit_code_final s e : exit_code s e <= 0 -> final_code (exit_code s e) /\ exit_code s e <> 0.
Proof.
  unfold final_code, exit_code, ERANGE, EAGAIN. destruct e; [|by intros; split; [tauto | lia]].
  destruct (has_flag _ _); [|lia]. intros. split; [tauto | lia].
Qed.

Lemma complex_zero sma sma' : sem_inv sma -> sem_inv sma' ->
  sublist (sem_pending sma') (sem_pending sma) ->
  (forall q, q ∈ sem_pending sma' -> queues sma' !! q = queues sma !! q) ->
  complex_count sma = 0 -> complex_count sma' = 0.
Proof.
  intros Hinv Hinv' Hsub Hq H0. rewrite (si_count _ Hinv').
  rewrite (proj2 (Nat2Z.inj_iff _ 0%nat)); [done|]. apply length_zero_iff_nil.
  destruct (filter _ (sem_pending sma')) as [|x l] eqn:E; [done|]. exfalso.
  assert (x ∈ filter (fun q => is_complex sma' q = true) (sem_pending sma')) as Hx by (rewrite E; left).
  apply list_elem_of_filter in Hx as [Hc Hx]. rewrite (is_complex_same sma sma') in Hc by done.
  pose proof (elem_of_sublist _ _ _ Hx Hsub) as Hx'.
  destruct (no_complex_simple sma x Hinv H0 Hx') as (sop & e & He & Hs & _).
  unfold is_complex, q_nsops in Hc. by rewrite He, Hs in Hc.
Qed.

Lemma blocked_same sma sma' q : sem_base sma' = sem_base sma -> undos sma' = undos sma ->
  queues sma' !! q = queues sma !! q -> blocked sma q -> blocked sma' q.
Proof. intros Hb Hu Hq. apply blocked_ext; [done|done|]. intros k. by rewrite Hb. Qed.

(** [sma2] is [sma] after the operation [q] of the scan was performed or given
    up, and unlinked. *)
Record scan_removed (semnum : Z) (q : nat) (sma sma2 : sem_array) : Prop := {
  sr_inv : sem_inv sma2;
  sr_pending : sem_pending sma2 = list_del q (sem_pending sma);
  sr_queues : queues sma2 = queues sma;
  sr_nundos : length (undos sma2) = length (undos sma);
  sr_nsems : sem_nsems sma2 = sem_nsems sma;
  sr_frame : scan_frame semnum sma sma2
}.

Lemma progress_remove semnum sma0 sma sma2 sma3 pt q error :
  progress sma0 sma pt -> scan_removed semnum q sma sma2 -> final_code error -> q ∈ sem_pending sma ->
  sem_pending sma3 = sem_pending sma2 -> sem_nsems sma3 = sem_nsems sma2 -> undos sma3 = undos sma2 ->
  length (queues sma3) = length (queues sma2) ->
  (forall q', q' <> q -> queues sma3 !! q' = queues sma2 !! q') ->
  (exists e', queues sma3 !! q = Some e' /\ q_status e' = IN_WAKEUP /\ q_pid e' = error) ->
  progress sma0 sma3 (pt ++ [q]).
Proof.
  intros [Psub Pn Pu Pq Ps Pw Pd Pp] [_ Rp Rq Ru Rn _] Hf Hin Ep En Eu El Eq (e' & Ee & Es & Ee').
  assert (q ∉ sem_pending sma3) as Hnin by (rewrite Ep, Rp, elem_of_list_del; tauto).
  split; try congruence.
  - rewrite Ep, Rp. etrans; [apply sublist_filter | done].
  - intros q'. rewrite not_elem_of_app, list_elem_of_singleton. intros [Hn1 Hn2].
    rewrite Eq, Rq by done. by apply Ps.
  - intros q'. rewrite elem_of_app, list_elem_of_singleton. destruct (decide (q' = q)) as [->|Hne].
    + intros _. split; [done|]. exists e'. by rewrite Ee'.
    + intros [Hin'|?]; [|done]. destruct (Pw q' Hin') as [Hnp (e1 & He1 & ?)]. split.
      * rewrite Ep, Rp, elem_of_list_del. tauto.
      * exists e1. by rewrite Eq, Rq.
  - intros q' Hq'. rewrite elem_of_app, list_elem_of_singleton, Ep, Rp, elem_of_list_del.
    destruct (Pd q' Hq'); [|tauto]. destruct (decide (q' = q)); tauto.
  - intros q'. rewrite elem_of_app, list_elem_of_singleton. intros [?| ->]; [by apply Pp|].
    by eapply elem_of_sublist.
Qed.

Lemma prepare_scan semnum sma0 sma1 sma sma2 pt q pre walk error :
  scan_inv semnum sma0 sma1 (q :: walk) sma pt -> pending_list sma semnum = Some (pre ++ q :: walk) ->
  scan_removed semnum q sma sma2 -> final_code error ->
  wp (wake_up_sem_queue_prepare sma2 pt q error) (fun '(sma3, pt') =>
    sem_inv sma3 /\ scan_mode sma3 semnum /\ scan_frame semnum sma1 sma3 /\ progress sma0 sma3 pt' /\
    pending_list sma3 semnum = Some (pre ++ walk) /\ sem_pending sma3 = sem_pending sma2 /\
    (length (sem_pending sma3) < length (sem_pending sma))%nat /\
    (forall q', q' ∈ sem_pending sma3 -> blocked sma2 q' -> blocked sma3 q')).
Proof.
  intros [Hinv Hm _ Hfr Hpg] HL [Rinv Rp Rq Ru Rn Rf] Hfc.
  destruct (pending_list_ok sma semnum Hinv Hm) as (l & Hl & Hls & Hle). rewrite HL in Hl. injection Hl as <-.
  assert (q ∈ sem_pending sma) as Hqin by (apply Hle; apply elem_of_app; right; left).
  destruct (si_queues sma Hinv q Hqin) as (e & He & _).
  assert (q ∉ sem_pending sma2) as Hnin by (rewrite Rp, elem_of_list_del; tauto).
  assert (scan_mode sma2 semnum) as Hm2.
  { destruct Hm as [?|[Hr H0]]; [by left|]. right. rewrite Rn. split; [done|].
    apply (complex_zero sma); [done|done| |by rewrite Rq|done]. rewrite Rp. apply sublist_filter. }
  eapply wp_mono; [apply prepare_ok; [done| |done]|].
  { apply lookup_lt_Some in He. by rewrite Rq. }
  intros [sma3 pt'] (-> & Hinv3 & Eb & Ep & Ec & Eu & El & Eq & Ew).
  assert (sem_nsems sma3 = sem_nsems sma2) as En by (unfold sem_nsems; by rewrite Eb).
  split; [done|]. split; [unfold scan_mode in *; by rewrite En, Ec|].
  split; [split; [rewrite Ep; etrans; [apply Rf | apply Hfr]|]|].
  { intros Hs k Hk. rewrite Eb, (proj2 Rf) by done. by apply Hfr. }
  split; [eapply progress_remove; eauto; by split|].
  split.
  { replace (pending_list sma3 semnum) with (pending_list sma2 semnum) by (unfold pending_list; by rewrite Eb, Ep).
    by apply (pending_list_del semnum sma sma2 q). }
  split; [done|]. split.
  - rewrite Ep, Rp. apply list_elem_of_split in Hqin as (l1 & l2 & E). pose proof (si_nodup _ Hinv) as Hnd.
    rewrite E in Hnd |- *. rewrite list_del_middle by done. rewrite !length_app. simpl. lia.
  - intros q' Hq'. apply blocked_same; [done|done|]. apply Eq. intros ->. by rewrite Ep in Hq'.
Qed.

Lemma blocked_alter_zero sma q sop : is_simple sma q sop -> alters sma q = true ->
  val (sem_base sma) (sem_num sop) = 0 -> blocked sma q.
Proof.
  intros Hs Ha Hv. apply (is_simple_blocked _ _ _ Hs). rewrite (is_simple_alters _ _ _ Hs), negb_true_iff in Ha.
  destruct Hs as (e & _ & _ & _ & _ & Hop & _). apply Z.eqb_neq in Ha.
  unfold would_block. rewrite Hv, orb_true_iff, Z.ltb_lt. right. lia.
Qed.

(** The [break] of the scan: the value is 0 and the rest of the list
    decrements. *)
Lemma scan_stop semnum sma0 sma1 sma pt q e walk curr :
  scan_inv semnum sma0 sma1 (q :: walk) sma pt -> semnum <> -1 -> queues sma !! q = Some e ->
  arr_get (sem_base sma) semnum = Some curr -> semval curr = 0 -> q_alter e = true ->
  scanned semnum sma0 sma1 sma pt.
Proof.
  intros [Hinv Hm (pre & HL & Hpre) Hfr Hpg] Hne He Hc Hv Ha.
  destruct (pending_list_ok sma semnum Hinv Hm) as (l & Hl & _ & Hle). rewrite HL in Hl. injection Hl as <-.
  do 4 (split; [done|]). eexists. split; [done|]. intros q' Hq'.
  pose proof (proj1 (Hle q') Hq') as [Hp [?|Hson]]; [done|].
  apply elem_of_app in Hq' as [?|Hq']; [by apply Hpre|].
  destruct (simple_on_inv sma q' semnum Hinv Hp Hson) as (sop & Hsop & Hnum).
  apply (blocked_alter_zero sma q' sop Hsop).
  - assert (alters sma q = true) as Haq by (unfold alters; by rewrite He).
    apply elem_of_cons in Hq' as [->|Hq']; [done|].
    unfold pending_list in HL. rewrite (proj2 (Z.eqb_neq _ _) Hne), Hc in HL. injection HL as HL.
    pose proof (simple_order sma semnum curr pre q walk Hinv Hc HL Haq) as Hf.
    rewrite Forall_forall in Hf. by apply Hf, list_elem_of_In.
  - unfold val. by rewrite Hnum, Hc.
Qed.

(** The operation was performed. *)
Lemma performed_scan semnum sma0 sma1 sma sma' sma2 pt q e walk v' :
  scan_inv semnum sma0 sma1 (q :: walk) sma pt -> queues sma !! q = Some e -> q ∈ sem_pending sma ->
  (semnum = -1 \/ simple_on sma semnum q = true) ->
  queue_wf (sem_nsems sma) (length (undos sma)) e ->
  vrun (q_adj sma (q_undo e)) (q_sops e) (val (sem_base sma)) = inl v' ->
  performed (q_sops e) sma sma' -> (forall k, val (sem_base sma') k = v' k) ->
  sem_inv sma2 -> unlinked q sma' sma2 ->
  scan_removed semnum q sma sma2 /\ completed_op q e sma sma2.
Proof.
  intros [Hinv Hm _ _ _] He Hqin Hson Hwf Hv [Fb Fp Fc Fq Fn Fu Fs] Hv' Hinv2 [Up Uq Uu Uv Un].
  assert (sem_nsems sma2 = sem_nsems sma) as En
    by (rewrite Un; unfold sem_nsems; by rewrite (proj1 Fb)).
  assert (forall k, val (sem_base sma2) k = val (sem_base sma) k + op_sum (q_sops e) k) as Hval.
  { intros k. rewrite Uv, Hv'. apply (vrun_values _ _ _ _ Hv). }
  split; split; try done; try congruence.
  - split; [rewrite Up, Fp; apply sublist_filter|].
    intros Hne k Hk. rewrite Hval. destruct Hson as [?|Hson]; [done|].
    unfold simple_on in Hson. rewrite He in Hson. destruct (q_sops e) as [|sop [|]]; try done.
    apply Z.eqb_eq in Hson. unfold op_sum. simpl. rewrite (proj2 (Z.eqb_neq _ _)) by lia. lia.
  - intros Ha. rewrite Uu. apply Fs. by rewrite <- (qw_alter _ _ _ Hwf).
Qed.

Lemma unlinked_scan semnum sma sma2 q : sem_inv sma2 -> unlinked q sma sma2 -> scan_removed semnum q sma sma2.
Proof.
  intros Hi [Up Uq Uu Uv Un]. split; try done; [by rewrite Uu|].
  split; [rewrite Up; apply sublist_filter | by intros _ k _].
Qed.

Definition scan_measure (n : nat) (walk : list nat) (sma : sem_array) : nat :=
  length (sem_pending sma) * S n + length walk.

Lemma scan_measure_lt n walk walk' sma sma' pre semnum :
  sem_inv sma' -> scan_mode sma' semnum -> pending_list sma' semnum = Some (pre ++ walk') ->
  (length (sem_pending sma') < length (sem_pending sma))%nat -> (length (sem_pending sma') <= n)%nat ->
  (scan_measure n walk' sma' < scan_measure n walk sma)%nat.
Proof.
  intros Hinv Hm HL Hlt Hn. destruct (pending_list_ok sma' semnum Hinv Hm) as (l & Hl & Hsub & _).
  rewrite HL in Hl. injection Hl as <-. apply sublist_length in Hsub. rewrite length_app in Hsub.
  unfold scan_measure. nia.
Qed.

#[local] Arguments try_semop : simpl never.
#[local] Arguments unlink_queue : simpl never.
#[local] Arguments check_restart : simpl never.
#[local] Arguments wake_up_sem_queue_prepare : simpl never.
#[local] Arguments pending_list : simpl never.

(** What one iteration establishes. *)
Definition scan_next (n : nat) (semnum : Z) (sma0 sma1 : sem_array) (walk : list nat) (sma : sem_array)
    (x : (list nat * sem_array * list nat * Z) + (sem_array * list nat * Z)) : Prop :=
  match x with
  | inl (walk', sma', pt', _) => scan_inv semnum sma0 sma1 walk' sma' pt' /\
      (scan_measure n walk' sma' < scan_measure n walk sma)%nat
  | inr (sma', pt', _) => scanned semnum sma0 sma1 sma' pt'
  end.

Lemma blocked_of_run sma q e s ee : queues sma !! q = Some e ->
  vrun (q_adj sma (q_undo e)) (q_sops e) (val (sem_base sma)) = inr (s, ee) ->
  0 < exit_code s ee -> blocked sma q.
Proof. intros He Hr [-> Hf]%exit_code_pos. by exists e, s. Qed.

(** The operation cannot be performed at all and returns an error. *)
Lemma scan_fail n semnum sma0 sma1 sma pt q walk error c :
  scan_inv semnum sma0 sma1 (q :: walk) sma pt -> q ∈ sem_pending sma ->
  (length (sem_pending sma) <= n)%nat -> final_code error -> error <> 0 ->
  wp (sma ← unlink_queue sma q;
      restart ← (if truthy error then Some false else check_restart sma q);
      let completed := if truthy error then c else 1 in
      '(sma, pt) ← wake_up_sem_queue_prepare sma pt q error;
      if restart : bool then
        walk ← pending_list sma semnum; Some (inl (walk, sma, pt, completed))
      else Some (inl (walk, sma, pt, completed))) (scan_next n semnum sma0 sma1 (q :: walk) sma).
Proof.
  intros Hsc Hqin Hn Hfc Hne. pose proof Hsc as [Hinv Hm (pre & HL & Hpre) Hfr Hpg].
  apply wp_bind. eapply wp_mono; [by apply unlink_queue_ok|]. intros sma2 [Hinv2 Hul].
  rewrite (proj2 (truthy_true _) Hne). cbn [mbind option_bind]. apply wp_bind.
  eapply wp_mono; [eapply prepare_scan; [done | done | by apply unlinked_scan | done]|].
  intros [sma3 pt'] (Hinv3 & Hm3 & Hfr3 & Hpg3 & HL3 & Ep3 & Hlt & Hb3). simpl. split.
  - split; try done. exists pre. split; [done|]. intros q' Hq'.
    destruct (pending_list_ok sma3 semnum Hinv3 Hm3) as (l & Hl & _ & Hle). rewrite HL3 in Hl. injection Hl as <-.
    assert (q' ∈ sem_pending sma3) as Hq3 by (apply Hle, elem_of_app; by left).
    apply Hb3; [done|]. apply (blocked_ext sma); [by rewrite (ul_queues _ _ _ Hul) | apply Hul | apply Hul | by apply Hpre].
  - eapply scan_measure_lt; [done|done|done|done|lia].
Qed.

(** The operation was performed: restart the scan, or go on. *)
Lemma scan_success n semnum sma0 sma1 sma sma' pt q e walk v' c :
  scan_inv semnum sma0 sma1 (q :: walk) sma pt -> queues sma !! q = Some e -> q ∈ sem_pending sma ->
  (semnum = -1 \/ simple_on sma semnum q = true) ->
  (length (sem_pending sma) <= n)%nat ->
  queue_wf (sem_nsems sma) (length (undos sma)) e ->
  vrun (q_adj sma (q_undo e)) (q_sops e) (val (sem_base sma)) = inl v' ->
  performed (q_sops e) sma sma' -> (forall k, val (sem_base sma') k = v' k) ->
  wp (sma ← unlink_queue sma' q;
      restart ← check_restart sma q;
      '(sma, pt) ← wake_up_sem_queue_prepare sma pt q 0;
      if restart : bool then
        walk ← pending_list sma semnum; Some (inl (walk, sma, pt, c))
      else Some (inl (walk, sma, pt, c))) (scan_next n semnum sma0 sma1 (q :: walk) sma).
Proof.
  intros Hsc He Hqin Hson Hn Hwf Hrun Hpf Hv'. pose proof Hsc as [Hinv Hm (pre & HL & Hpre) Hfr Hpg].
  assert (sem_inv sma') as Hinv'.
  { eapply performed_inv; [done|done|]. intros k. rewrite Hv'. apply (vrun_values _ _ _ _ Hrun); apply Hinv. }
  apply wp_bind. eapply wp_mono; [apply unlink_queue_ok; [done | by rewrite (pf_pending _ _ _ Hpf)]|].
  intros sma2 [Hinv2 Hul]. destruct (performed_scan _ _ _ _ _ _ _ _ _ _ _ Hsc He Hqin Hson Hwf Hrun Hpf Hv' Hinv2 Hul)
    as [Hrem Hco].
  apply wp_bind. eapply wp_mono; [by eapply check_restart_ok|]. intros restart Hre. apply wp_bind.
  eapply wp_mono; [eapply prepare_scan; [done | done | done | by left]|].
  intros [sma3 pt'] (Hinv3 & Hm3 & Hfr3 & Hpg3 & HL3 & Ep3 & Hlt & Hb3).
  destruct (pending_list_ok sma3 semnum Hinv3 Hm3) as (l & Hl & _ & Hle). rewrite HL3 in Hl. injection Hl as <-.
  destruct restart.
  - rewrite HL3. simpl. split.
    + split; try done. exists []. split; [done|]. by intros q' ?%elem_of_nil.
    + eapply (scan_measure_lt _ _ _ _ _ []); [done|done|done|done|lia].
  - simpl. split.
    + split; try done. exists pre. split; [done|]. intros q' Hq'.
      assert (q' ∈ sem_pending sma3) as Hq3 by (apply Hle, elem_of_app; by left).
      apply Hb3; [done|]. apply Hre; [done | by rewrite <- Ep3 | by apply Hpre].
    + eapply scan_measure_lt; [done|done|done|done|lia].
Qed.

Lemma update_queue_step_ok n semnum sma0 sma1 walk sma pt c :
  scan_inv semnum sma0 sma1 walk sma pt -> (length (sem_pending sma) <= n)%nat ->
  wp (update_queue_step semnum (walk, sma, pt, c)) (scan_next n semnum sma0 sma1 walk sma).
Proof.
  intros Hsc Hn. pose proof Hsc as [Hinv Hm (pre & HL & Hpre) Hfr Hpg]. unfold update_queue_step.
  destruct walk as [|q walk].
  { simpl. do 4 (split; [done|]). eexists. split; [done|]. by rewrite app_nil_r. }
  destruct (pending_list_ok sma semnum Hinv Hm) as (l & Hl & _ & Hle). rewrite HL in Hl. injection Hl as <-.
  destruct (proj1 (Hle q)) as [Hqin Hson]; [apply elem_of_app; right; left|].
  destruct (si_queues sma Hinv q Hqin) as (e & He & Hwf). rewrite He. cbn [mbind option_bind].
  apply wp_bind. apply (wp_mono _ (fun stop => stop = true -> scanned semnum sma0 sma1 sma pt)).
  { destruct (Z.eqb_spec semnum (-1)) as [?|Hne]; [done|]. cbn [negb].
    destruct Hm as [?|[Hr _]]; [done|]. destruct (arr_get_Some (sem_base sma) _ Hr) as [s Hs]. rewrite Hs. simpl.
    intros [Hz%Z.eqb_eq Ha]%andb_true_iff. by eapply scan_stop. }
  intros [|] Hstop; [by apply Hstop|]. apply wp_bind.
  eapply wp_mono; [apply try_semop_ok; [apply Hinv | apply Hwf | apply Hwf]|].
  intros [error sma'] Htry. destruct (vrun _ _ _) as [v'|[s ee]] eqn:Hrun.
  - destruct Htry as (-> & Hpf & Hv'). change (0 <? 0) with false. change (truthy 0) with false.
    cbv iota. by eapply scan_success.
  - destruct Htry as [-> ->]. destruct (Z.ltb_spec 0 (exit_code s ee)) as [Hpos|Hneg].
    + simpl. split; [|unfold scan_measure; simpl; lia]. split; try done. exists (pre ++ [q]).
      rewrite <- app_assoc. split; [done|]. intros q'. rewrite elem_of_app, list_elem_of_singleton.
      intros [?| ->]; [by apply Hpre | by eapply blocked_of_run].
    + destruct (exit_code_final s ee Hneg). by apply scan_fail.
Qed.

Lemma scanned_all sma0 sma1 sma pt : scanned (-1) sma0 sma1 sma pt -> all_blocked sma.
Proof. intros (_ & _ & _ & _ & l & [= <-] & Hl). done. Qed.

Lemma update_queue_ok sma0 sma semnum pt : sem_inv sma -> progress sma0 sma pt ->
  semnum = -1 \/ 0 <= semnum < sem_nsems sma ->
  wp (update_queue sma semnum pt) (fun '(sma', pt', _) =>
    scanned (if truthy (complex_count sma) then -1 else semnum) sma0 sma sma' pt').
Proof.
  intros Hinv Hpg Hr. unfold update_queue. cbv zeta.
  set (k := if truthy (complex_count sma) then -1 else semnum).
  assert (scan_mode sma k) as Hm.
  { subst k. destruct (truthy (complex_count sma)) eqn:Ec; [by left|]. apply truthy_false in Ec.
    destruct Hr; [by left | by right]. }
  destruct (pending_list_ok sma k Hinv Hm) as (l & Hl & Hsub & _). rewrite Hl. cbn [mbind option_bind].
  set (n := length (sem_pending sma)).
  apply (c_loop_inv (fun '(walk, sma', pt', _) => scan_inv k sma0 sma walk sma' pt' /\ (length (sem_pending sma') <= n)%nat)
     (fun '(walk, sma', _, _) => Z.of_nat (scan_measure n walk sma'))).
  - intros [[[walk sma'] pt'] c] _. lia.
  - intros [[[walk sma'] pt'] c] [Hsc Hn]. eapply wp_mono; [by eapply (update_queue_step_ok n)|].
    intros [[[[walk2 sma2] pt2] c2]|[[sma2 pt2] c2]]; simpl; [|done]. intros [Hsc2 Hlt]. split; [|lia].
    split; [done|]. destruct Hsc as [Hinv' Hm' (pre & HL & _) _ _].
    destruct (pending_list_ok sma' k Hinv' Hm') as (l' & Hl' & Hsub'%sublist_length & _).
    rewrite HL in Hl'. injection Hl' as <-. rewrite length_app in Hsub'. unfold scan_measure in Hlt. nia.
  - split; [|done]. split; try done. exists []. split; [done|]. by intros q ?%elem_of_nil.
  - apply sublist_length in Hsub. unfold scan_measure. fold n in Hsub |- *. nia.
Qed.

(** ** [do_smart_update] *)

(** The test of [do_smart_update] on one of the operations just performed. *)
Definition triggers (sma : sem_array) (sop : sembuf) : Prop :=
  0 < sem_op sop \/ (sem_op sop < 0 /\ val (sem_base sma) (sem_num sop) = 0).

(** Every pending operation still has to sleep, or is on a semaphore that
    [do_smart_update] is going to look at. *)
Definition covered (sops : list sembuf) (sma : sem_array) : Prop :=
  forall q, q ∈ sem_pending sma -> blocked sma q \/
    exists sop, sop ∈ sops /\ simple_on sma (sem_num sop) q = true /\ triggers sma sop.

Lemma scanned_covered sops sop sma0 sma sma' pt pt' : sem_inv sma -> complex_count sma = 0 ->
  progress sma0 sma pt -> 0 <= sem_num sop < sem_nsems sma ->
  covered (sop :: sops) sma -> scanned (sem_num sop) sma0 sma sma' pt' ->
  covered sops sma'.
Proof.
  intros Hinv Hc0 Hpg Hr Hcov (Hinv' & Hm' & [Hsub Hfr] & Hpg' & l & Hl & Hbl) q Hq.
  pose proof (elem_of_sublist _ _ _ Hq Hsub) as Hq0.
  assert (queues sma' !! q = queues sma !! q) as Heq.
  { rewrite (pg_same _ _ _ Hpg'), (pg_same _ _ _ Hpg); [done| |].
    - intros Hin. by apply (pg_woken _ _ _ Hpg) in Hin as [? _].
    - intros Hin. by apply (pg_woken _ _ _ Hpg') in Hin as [? _]. }
  destruct (no_complex_simple sma q Hinv Hc0 Hq0) as (qs & Hqs).
  assert (is_simple sma' q qs) as Hqs'.
  { destruct Hqs as (e & ?). exists e. by rewrite Heq, (pg_nsems _ _ _ Hpg'), <- (pg_nsems _ _ _ Hpg). }
  destruct (Z.eq_dec (sem_num qs) (sem_num sop)) as [E|Hne].
  - left. apply Hbl. destruct (pending_list_ok sma' (sem_num sop) Hinv' Hm') as (l' & Hl' & _ & Hle).
    rewrite Hl in Hl'. injection Hl' as <-. apply Hle. split; [done|]. right.
    rewrite (is_simple_on _ _ _ _ Hqs'). by apply Z.eqb_eq.
  - assert (forall k, k <> sem_num sop -> val (sem_base sma') k = val (sem_base sma) k) as Hv by (apply Hfr; lia).
    destruct (Hcov q Hq0) as [Hb|(s & Hin & Hon & Htr)].
    + left. rewrite (is_simple_blocked _ _ _ Hqs), <- Hv in Hb by done. by apply (is_simple_blocked _ _ _ Hqs').
    + rewrite (is_simple_on _ _ _ _ Hqs), Z.eqb_eq in Hon. right. exists s.
      apply elem_of_cons in Hin as [->|Hin]; [done|]. split; [done|].
      rewrite (is_simple_on _ _ _ _ Hqs'), Z.eqb_eq. split; [done|].
      unfold triggers. rewrite Hv by congruence. done.
Qed.

#[local] Arguments update_queue : simpl never.

Lemma smart_loop_ok sops sma0 sma pt otime : sem_inv sma -> complex_count sma = 0 ->
  progress sma0 sma pt -> Forall (fun sop => 0 <= sem_num sop < sem_nsems sma) sops -> covered sops sma ->
  wp (opt_fold (fun sop '(sma, pt, otime) =>
        curr ← arr_get (sem_base sma) (sem_num sop);
        if (0 <? sem_op sop) || ((sem_op sop <? 0) && (semval curr =? 0)) then
          '(sma, pt, r) ← update_queue sma (sem_num sop) pt;
          Some (sma, pt, otime || truthy r)
        else Some (sma, pt, otime)) sops (sma, pt, otime))
     (fun '(sma', pt', _) => sem_inv sma' /\ progress sma0 sma' pt' /\ all_blocked sma').
Proof.
  revert sma pt otime. induction sops as [|sop sops IH]; intros sma pt otime Hinv Hc0 Hpg Hr Hcov; cbn [opt_fold].
  { simpl. do 2 (split; [done|]). intros q Hq. destruct (Hcov q Hq) as [?|(s & ?%elem_of_nil & _)]; done. }
  apply Forall_cons_iff in Hr as [Hn Hr]. destruct (arr_get_Some (sem_base sma) _ Hn) as [curr Hc]. rewrite Hc.
  cbn [mbind option_bind]. destruct ((0 <? sem_op sop) || ((sem_op sop <? 0) && (semval curr =? 0))) eqn:Et.
  - apply wp_bind, wp_bind. eapply wp_mono; [by apply (update_queue_ok sma0); [done|done|right]|].
    intros [[sma' pt'] r] Hs. cbn [wp]. rewrite Hc0 in Hs. change (truthy 0) with false in Hs. cbv iota in Hs.
    pose proof Hs as (Hinv' & Hm' & [Hsub _] & Hpg' & _). apply IH.
    + done.
    + destruct Hm' as [?|[_ ?]]; [lia | done].
    + done.
    + by rewrite (pg_nsems _ _ _ Hpg'), <- (pg_nsems _ _ _ Hpg).
    + by apply (scanned_covered sops sop sma0 sma sma' pt pt').
  - cbn [mbind option_bind]. apply IH; [done..|]. intros q Hq.
    destruct (Hcov q Hq) as [?|(s & Hin & Hon & Htr)]; [by left|]. right. exists s.
    apply elem_of_cons in Hin as [->|Hin]; [|done]. exfalso. unfold triggers, val in Htr. rewrite Hc in Htr.
    apply orb_false_iff in Et as [E1%Z.ltb_ge [E2%Z.ltb_ge|E2%Z.eqb_neq]%andb_false_iff]; lia.
Qed.

Lemma with_otime_frame (b : bool) sma now pt sma0 :
  sem_inv sma -> progress sma0 sma pt -> all_blocked sma ->
  let sma' := if b then with_otime sma now else sma in
  sem_inv sma' /\ progress sma0 sma' pt /\ all_blocked sma'.
Proof. intros Hi Hp Ha. destruct b; [|done]. split; [by destruct Hi; split|]. split; [by destruct Hp; split | done]. Qed.

Lemma do_smart_update_ok sma0 sma sops otime now pt : sem_inv sma -> progress sma0 sma pt ->
  match sops with
  | Some l => Forall (fun sop => 0 <= sem_num sop < sem_nsems sma) l /\ (complex_count sma = 0 -> covered l sma)
  | None => True
  end ->
  wp (do_smart_update sma sops otime now pt) (fun '(sma', pt') =>
    sem_inv sma' /\ progress sma0 sma' pt' /\ all_blocked sma').
Proof.
  intros Hinv Hpg Hsops. unfold do_smart_update. apply wp_bind.
  apply (wp_mono _ (fun '(sma', pt', _) => sem_inv sma' /\ progress sma0 sma' pt' /\ all_blocked sma')).
  2:{ intros [[sma' pt'] o] (Hi & Hp & Ha). by apply with_otime_frame. }
  assert (forall b : bool, wp ('(sma, pt, r) ← update_queue sma (-1) pt; Some (sma, pt, b || truthy r))
    (fun '(sma', pt', _) => sem_inv sma' /\ progress sma0 sma' pt' /\ all_blocked sma')) as Hall.
  { intros b. apply wp_bind. eapply wp_mono; [apply (update_queue_ok sma0); [done|done|by left]|].
    intros [[sma' pt'] r] Hs. simpl. replace (if truthy (complex_count sma) then -1 else -1) with (-1) in Hs
      by by destruct (truthy _).
    pose proof Hs as (Hi & _ & _ & Hp & _). do 2 (split; [done|]). by eapply scanned_all. }
  destruct sops as [sops|]; [|done]. destruct Hsops as [Hr Hcov].
  destruct (truthy (complex_count sma)) eqn:Ec; [done|]. apply truthy_false in Ec.
  rewrite (c_for_all_list (fun sop '(sma, pt, otime) =>
        curr ← arr_get (sem_base sma) (sem_num sop);
        if (0 <? sem_op sop) || ((sem_op sop <? 0) && (semval curr =? 0)) then
          '(sma, pt, r) ← update_queue sma (sem_num sop) pt;
          Some (sma, pt, otime || truthy r)
        else Some (sma, pt, otime))) by (intros i x [[sma' pt'] o] ->; done).
  by apply smart_loop_ok; [| | | |apply Hcov].
Qed.

(** ** The system calls *)

Definition finish_entry (e : sem_queue) : sem_queue :=
  SemQueue (q_sops e) (q_undo e) (q_pid e) (q_pid e) (q_alter e).

Lemma wake_up_sem_queue_do_ok sma pt : (forall q, q ∈ pt -> (q < length (queues sma))%nat) ->
  wp (wake_up_sem_queue_do sma pt) (fun sma' => exists qs, sma' = with_queues sma qs /\
    (forall q, q ∉ pt -> qs !! q = queues sma !! q) /\
    (forall q, q ∈ pt -> qs !! q = finish_entry <$> queues sma !! q)).
Proof.
  unfold wake_up_sem_queue_do.
  rewrite (c_for_all_list (fun q sma => e ← queues sma !! q;
    Some (with_queues sma (<[q := finish_entry e]> (queues sma))))) by (intros i x s ->; done).
  revert sma. induction pt as [|q pt IH]; intros sma Hlt; cbn [opt_fold].
  { simpl. exists (queues sma). split; [by destruct sma|]. split; [done|]. by intros q ?%elem_of_nil. }
  destruct (lookup_lt_is_Some_2 (queues sma) q) as [e He]; [apply Hlt; left|]. rewrite He. cbn [mbind option_bind].
  eapply wp_mono; [apply IH|].
  { intros q' Hq'. simpl. rewrite length_insert. apply Hlt. by right. }
  intros sma' (qs & -> & Hsame & Hdone). exists qs. split; [by destruct sma|]. simpl in *.
  pose proof (lookup_lt_Some _ _ _ He) as Hl. split.
  - intros q'. rewrite not_elem_of_cons. intros [Hne Hnin]. rewrite Hsame by done. by rewrite list_lookup_insert_ne.
  - intros q' Hin. destruct (decide (q' = q)) as [->|Hne].
    + rewrite He. destruct (decide (q ∈ pt)) as [Hin'|Hnin].
      * rewrite Hdone by done. by rewrite list_lookup_insert_eq by done.
      * rewrite Hsame by done. by rewrite list_lookup_insert_eq by done.
    + apply elem_of_cons in Hin as [?|Hin]; [done|]. rewrite Hdone by done. by rewrite list_lookup_insert_ne.
Qed.

(** The sleepers [sl]: those that are pending wait, the others have their
    result. *)
Record sleepers_ok (sma : sem_array) (sl : list nat) : Prop := {
  sl_pending : forall q, q ∈ sem_pending sma -> q ∈ sl;
  sl_status : forall q, q ∈ sl -> exists e, queues sma !! q = Some e /\
    (q ∈ sem_pending sma -> q_status e = - EINTR) /\ (q ∉ sem_pending sma -> final_code (q_status e))
}.

(** The set between two system calls. *)
Record good (sma : sem_array) (sl : list nat) : Prop := {
  g_inv : sem_inv sma;
  g_blocked : all_blocked sma;
  g_sleepers : sleepers_ok sma sl
}.

Lemma wake_ok sma0 sma pt sl : sem_inv sma -> all_blocked sma -> progress sma0 sma pt -> sleepers_ok sma0 sl ->
  wp (wake_up_sem_queue_do sma pt) (fun sma' => good sma' sl).
Proof.
  intros Hinv Hbl Hpg [Sp Ss]. eapply wp_mono; [apply wake_up_sem_queue_do_ok|].
  { intros q Hq. destruct (pg_woken _ _ _ Hpg q Hq) as [_ (e & He & _)]. by eapply lookup_lt_Some. }
  intros sma' (qs & -> & Hsame & Hdone).
  assert (forall q, q ∈ sem_pending sma -> qs !! q = queues sma !! q) as Hq.
  { intros q Hq. apply Hsame. intros Hin. by destruct (pg_woken _ _ _ Hpg q Hin). }
  split.
  - eapply (sem_inv_frame sma); try done; try apply Hinv.
  - intros q Hq'. apply (blocked_same sma); [done|done| |by apply Hbl]. by apply Hq.
  - split; simpl.
    + intros q Hq'. apply Sp. eapply elem_of_sublist; [done | apply Hpg].
    + intros q Hin. destruct (Ss q Hin) as (e & He & He1 & He2). destruct (decide (q ∈ pt)) as [Hpt|Hnpt].
      * destruct (pg_woken _ _ _ Hpg q Hpt) as [Hnp (e' & He' & _ & Hf)]. exists (finish_entry e').
        rewrite Hdone, He' by done. split; [done|]. split; [done|]. intros _. done.
      * exists e. rewrite Hsame, (pg_same _ _ _ Hpg) by done. split; [done|]. split.
        -- intros Hp. apply He1. eapply elem_of_sublist; [done | apply Hpg].
        -- intros Hnp. apply He2. intros Hp. by destruct (pg_dom _ _ _ Hpg q Hp).
Qed.

#[local] Arguments do_smart_update : simpl never.
#[local] Arguments wake_up_sem_queue_do : simpl never.

(** Look for sleepers that can proceed, and wake them up. *)
Lemma smart_wake_ok sma sl sops otime now : sem_inv sma -> sleepers_ok sma sl ->
  match sops with
  | Some l => Forall (fun sop => 0 <= sem_num sop < sem_nsems sma) l /\ (complex_count sma = 0 -> covered l sma)
  | None => True
  end ->
  wp ('(sma, tasks) ← do_smart_update sma sops otime now []; wake_up_sem_queue_do sma tasks)
     (fun sma' => good sma' sl).
Proof.
  intros Hinv Hsl Hs. apply wp_bind. eapply wp_mono; [apply (do_smart_update_ok sma); [done|apply progress_refl|done]|].
  intros [sma' pt'] (Hi & Hp & Ha). by eapply wake_ok.
Qed.

Lemma wake_eq (r : option (sem_array * list nat)) :
  wake ('(sma, tasks) ← r; Some (0, sma, tasks)) =
  (sma' ← ('(sma, tasks) ← r; wake_up_sem_queue_do sma tasks); Some (RETURNED 0, sma')).
Proof. unfold wake. by destruct r as [[sma tasks]|]. Qed.

Lemma sleepers_ok_frame sma sma' sl : sem_pending sma' = sem_pending sma -> queues sma' = queues sma ->
  sleepers_ok sma sl -> sleepers_ok sma' sl.
Proof. intros Hp Hq [H1 H2]. split; [by rewrite Hp | by rewrite Hp, Hq]. Qed.

(** Values and adjustments may be replaced by others in their range. *)
Lemma sem_inv_replace sma base us t : sem_inv sma -> same_shape (sem_base sma) base ->
  length us = length (undos sma) ->
  (forall u adj, us !! u = Some adj -> Z.of_nat (length adj) = sem_nsems sma /\ Forall is_s16 adj) ->
  (forall k, 0 <= val base k <= SEMVMX) ->
  sem_inv (with_ctime (with_undos (with_base sma base) us) t).
Proof.
  intros Hinv [Hlen Hsh] Hl Hu Hv. apply (sem_inv_frame sma); simpl; try done.
  - unfold sem_nsems. simpl. by rewrite Hlen.
  - by rewrite Hl.
  - apply Hinv.
  - intros k s Hk. pose proof (arr_get_range _ _ _ Hk) as Hr. rewrite Hlen in Hr.
    destruct (arr_get_Some (sem_base sma) k Hr) as [s0 Hs0].
    destruct (Hsh k s0 Hs0) as (v & p & E). rewrite Hk in E. injection E as ->. simpl. by apply Hinv.
Qed.

Lemma lookup_map {A B} (f : A -> B) (l : list A) (i : nat) : map f l !! i = f <$> l !! i.
Proof. apply list_lookup_fmap. Qed.

Lemma semctl_setval_ok sma sl semnum v pid now : good sma sl ->
  wp (semctl_setval sma semnum v pid now) (fun '(out, sma') => good sma' sl /\
    out = RETURNED (if (semnum <? 0) || (sem_nsems sma <=? semnum) then - EINVAL
                    else if (SEMVMX <? v) || (v <? 0) then - ERANGE else 0)).
Proof.
  intros Hg. pose proof Hg as [Hinv Hbl Hsl]. unfold semctl_setval.
  destruct ((semnum <? 0) || (sem_nsems sma <=? semnum)) eqn:Er; [done|].
  destruct ((SEMVMX <? v) || (v <? 0)) eqn:Ev; [done|].
  apply orb_false_iff in Er as [Er1%Z.ltb_ge Er2%Z.leb_gt]. apply orb_false_iff in Ev as [Ev1%Z.ltb_ge Ev2%Z.ltb_ge].
  cbn [sem_base with_undos]. destruct (arr_get_Some (sem_base sma) semnum ltac:(done)) as [curr Hc].
  rewrite Hc. cbn [mbind option_bind]. rewrite arr_set_Some by done. cbn [mbind option_bind].
  rewrite wake_eq. apply wp_bind. eapply wp_mono; [apply (smart_wake_ok _ sl)|]; [| |done|done].
  - apply (sem_inv_replace sma (<[Z.to_nat semnum := set_sempid (set_semval curr v) pid]> (sem_base sma))
      (map (fun adj => <[Z.to_nat semnum := 0]> adj) (undos sma)) now); [done | exact (same_shape_insert _ _ curr v pid Hc) | apply length_map | |].
    + intros u adj. rewrite lookup_map. intros (adj0 & E & ->)%fmap_Some. destruct (si_undos _ Hinv u adj0 E) as [Hl Hs].
      rewrite length_insert. split; [done|]. by apply Forall_insert.
    + intros k. rewrite val_insert by done. simpl. destruct (k =? semnum); [lia | apply Hinv].
  - by apply (sleepers_ok_frame sma).
Qed.

(** A loop that rewrites one semaphore after the other. *)
Lemma rewrite_sems_ok base0 (f : Z -> sem -> sem) (body : Z -> list sem -> option (list sem)) :
  (forall i base s, 0 <= i < Z.of_nat (length base0) -> arr_get base i = Some s ->
     simple_pending (f i s) = simple_pending s /\
     (body i base = Some (<[Z.to_nat i := f i s]> base))) ->
  wp (c_for_all 0 (Z.of_nat (length base0)) body base0) (fun base' => same_shape base0 base' /\
    forall k s, arr_get base0 k = Some s -> arr_get base' k = Some (f k s)).
Proof.
  intros Hbody. eapply wp_mono; [apply (c_for_all_inv (fun i base => same_shape base0 base /\
    forall k s, arr_get base0 k = Some s -> arr_get base k = Some (if k <? i then f k s else s)))|].
  - lia.
  - split; [apply same_shape_refl|]. intros k s Hk. pose proof (arr_get_range _ _ _ Hk).
    by rewrite (proj2 (Z.ltb_ge _ _)) by lia.
  - intros i base Hi [Hsh Hb]. destruct (arr_get_Some base0 i Hi) as [s0 Hs0].
    pose proof (Hb i s0 Hs0) as Hs. rewrite Z.ltb_irrefl in Hs.
    destruct (Hbody i base s0 Hi Hs) as [Hsp ->]. simpl. split.
    + eapply same_shape_trans; [exact Hsh|].
      replace (f i s0) with (Sem (semval (f i s0)) (sempid (f i s0)) (simple_pending s0))
        by (rewrite <- Hsp; by destruct (f i s0)).
      by apply same_shape_insert.
    + intros k s Hk. destruct (Z.eq_dec i k) as [<-|Hne].
      * rewrite arr_get_insert_eq by (by rewrite (proj1 Hsh)). rewrite Hs0 in Hk. injection Hk as <-.
        by rewrite (proj2 (Z.ltb_lt _ _)) by lia.
      * rewrite arr_get_insert_ne by (pose proof (arr_get_range _ _ _ Hk); lia). rewrite (Hb k s Hk). f_equal.
        destruct (Z.ltb_spec k i), (Z.ltb_spec k (i + 1)); try done; lia.
  - intros base' [Hsh Hb]. split; [done|]. intros k s Hk. rewrite (Hb k s Hk).
    by rewrite (proj2 (Z.ltb_lt _ _)) by (by eapply arr_get_range).
Qed.

Lemma vals_bounded base0 base (f : Z -> sem -> sem) :
  length base = length base0 ->
  (forall k s, arr_get base0 k = Some s -> arr_get base k = Some (f k s)) ->
  (forall k s, arr_get base0 k = Some s -> 0 <= semval (f k s) <= SEMVMX) ->
  forall k, 0 <= val base k <= SEMVMX.
Proof.
  intros Hl Hf Hb k. unfold val. destruct (arr_get base k) as [s|] eqn:E; [|unfold SEMVMX; lia].
  pose proof (arr_get_range _ _ _ E) as Hr. rewrite Hl in Hr. destruct (arr_get_Some base0 k Hr) as [s0 Hs0].
  rewrite (Hf k s0 Hs0) in E. injection E as <-. by apply Hb.
Qed.

Lemma zero_adj_ok sma : sem_inv sma ->
  forall u adj, map (fun adj : list Z => map (fun _ => 0) adj) (undos sma) !! u = Some adj ->
  Z.of_nat (length adj) = sem_nsems sma /\ Forall is_s16 adj.
Proof.
  intros Hinv u adj. rewrite lookup_map. intros (adj0 & E & ->)%fmap_Some.
  destruct (si_undos _ Hinv u adj0 E) as [Hl _]. rewrite length_map. split; [done|].
  apply Forall_map, Forall_true. done.
Qed.

Lemma semctl_setall_ok sma sl sem_io now : good sma sl ->
  Z.of_nat (length sem_io) = sem_nsems sma -> Forall (fun v => 0 <= v) sem_io ->
  wp (semctl_setall sma sem_io now) (fun '(out, sma') => good sma' sl /\
    (out = RETURNED 0 \/ (out = RETURNED (- ERANGE) /\ sma' = sma))).
Proof.
  intros Hg Hlen Hpos. pose proof Hg as [Hinv Hbl Hsl]. unfold semctl_setall. apply wp_bind.
  eapply wp_mono; [apply (c_for_inv (fun i _ => forall k, 0 <= k < i -> zth sem_io k <= SEMVMX)
     (fun e => e = - ERANGE)); [unfold sem_nsems; lia | lia |]|].
  { intros i _ Hi HI. rewrite <- Hlen in Hi. rewrite arr_get_zth by done. simpl.
    destruct (Z.ltb_spec SEMVMX (zth sem_io i)); [done|]. intros k Hk.
    destruct (Z.eq_dec k i) as [->|]; [done | apply HI; lia]. }
  intros [[]|e] Hr; [|by subst e; simpl; auto]. apply wp_bind.
  eapply wp_mono; [apply (rewrite_sems_ok (sem_base sma) (fun i s => set_semval s (zth sem_io i)))|].
  { intros i base s Hi Hs. split; [done|]. fold (sem_nsems sma) in Hi. rewrite <- Hlen in Hi.
    rewrite arr_get_zth by done. cbn [mbind option_bind]. rewrite Hs. cbn [mbind option_bind].
    apply arr_set_Some. by eapply arr_get_range. }
  intros base [Hsh Hb]. rewrite wake_eq. apply wp_bind.
  eapply wp_mono; [apply (smart_wake_ok _ sl); [| |done]|by intros sma' ?; split; [|left]].
  - apply (sem_inv_replace sma base (map (fun adj : list Z => map (fun _ => 0) adj) (undos sma)));
      [done | done | apply length_map | by apply zero_adj_ok |].
    apply (vals_bounded (sem_base sma) _ _ (proj1 Hsh) Hb). intros k s Hk. simpl.
    pose proof (arr_get_range _ _ _ Hk) as Hk'. split; [|by apply Hr].
    apply (zth_Forall (fun v => 0 <= v)); [done|]. unfold sem_nsems in Hlen. by rewrite Hlen.
  - by apply (sleepers_ok_frame sma).
Qed.

(** The value that the adjustment [a] of an exiting process leaves. *)
Definition exit_value (v a : Z) : Z := Z.min SEMVMX (Z.max 0 (v + a)).

Lemma exit_sem_adjust_ok semadj pid base0 : length semadj = length base0 ->
  (forall k, 0 <= val base0 k <= SEMVMX) ->
  wp (exit_sem_adjust semadj pid base0) (fun base => same_shape base0 base /\
    forall k, 0 <= k < Z.of_nat (length base0) -> val base k = exit_value (val base0 k) (zth semadj k)).
Proof.
  intros Hlen Hv. unfold exit_sem_adjust.
  eapply wp_mono; [apply (rewrite_sems_ok base0 (fun i s => if truthy (zth semadj i) then
     set_sempid (set_semval s (exit_value (semval s) (zth semadj i))) pid else s))|].
  - intros i base s Hi Hs. split; [by destruct (truthy _)|]. rewrite Hs. cbn [mbind option_bind].
    rewrite arr_get_zth by (by rewrite Hlen). cbn [mbind option_bind].
    destruct (truthy (zth semadj i)).
    + rewrite arr_set_Some by (by eapply arr_get_range). do 4 f_equal. unfold exit_value, SEMVMX.
      destruct (Z.ltb_spec (semval s + zth semadj i) 0); case_match; lia.
    + f_equal. symmetry. apply list_insert_id. apply arr_get_lookup; [lia | done].
  - intros base [Hsh Hb]. split; [done|]. intros k Hk. destruct (arr_get_Some base0 k Hk) as [s Hs].
    specialize (Hv k). unfold val in *. rewrite (Hb k s Hs). rewrite Hs in *.
    destruct (truthy (zth semadj k)) eqn:Et; [done|]. apply truthy_false in Et. rewrite Et.
    unfold exit_value. lia.
Qed.

Lemma exit_sem_ok sma sl un pid now : good sma sl -> (un < length (undos sma))%nat ->
  wp (exit_sem sma un pid now) (fun sma' => good sma' sl).
Proof.
  intros Hg Hun. pose proof Hg as [Hinv Hbl Hsl]. unfold exit_sem.
  destruct (lookup_lt_is_Some_2 (undos sma) un Hun) as [adj Ea]. rewrite Ea. cbn [mbind option_bind].
  destruct (si_undos _ Hinv un adj Ea) as [Hl _]. apply wp_bind.
  eapply wp_mono; [apply exit_sem_adjust_ok; [unfold sem_nsems in Hl; lia | apply Hinv]|].
  intros base [Hsh Hb]. apply (smart_wake_ok _ sl); [| |done].
  - assert (sem_inv (with_ctime (with_undos (with_base sma base) (undos sma)) (sem_ctime sma))) as H;
      [|by destruct sma].
    apply sem_inv_replace; [done | done | done | apply Hinv |]. intros k.
    destruct (decide (0 <= k < Z.of_nat (length (sem_base sma)))) as [Hk|Hk].
    + rewrite Hb by done. unfold exit_value, SEMVMX. lia.
    + unfold val. destruct (arr_get base k) eqn:E; [|unfold SEMVMX; lia].
      apply arr_get_range in E. by rewrite (proj1 Hsh) in E.
  - by apply (sleepers_ok_frame sma).
Qed.

(** A read of the result that happened earlier, since the task woke up, gave
    [-EINTR] or the result that is still there: results do not change again. *)
Definition read_before (sma : sem_array) (q : nat) (early : Z) : Prop :=
  early = - EINTR \/ get_queue_result sma q = Some early.

(** A timeout or a signal, or the return after a wake-up. *)
Lemma semtimedop_finish_ok sma sl q early timed_out : good sma sl -> q ∈ sl -> read_before sma q early ->
  wp (semtimedop_finish sma q early true timed_out) (fun '(r, sma') => good sma' (list_del q sl) /\
    (q ∉ sem_pending sma -> sma' = sma /\ final_code r) /\
    (q ∈ sem_pending sma -> sem_pending sma' = list_del q (sem_pending sma) /\
       (forall k, val (sem_base sma') k = val (sem_base sma) k) /\ undos sma' = undos sma /\
       r = if timed_out then - EAGAIN else - EINTR)).
Proof.
  intros [Hinv Hbl [Sp Ss]] Hq Hearly. destruct (Ss q Hq) as (e & He & He1 & He2).
  unfold read_before, get_queue_result in Hearly. unfold semtimedop_finish, get_queue_result.
  rewrite He in Hearly |- *. cbn [mbind option_bind] in Hearly |- *.
  destruct (decide (q ∈ sem_pending sma)) as [Hp|Hnp].
  - rewrite (He1 Hp) in Hearly |- *. change (- EINTR =? IN_WAKEUP) with false in Hearly |- *. cbv iota in Hearly |- *.
    assert (early = - EINTR) as -> by (destruct Hearly as [?|[= ?]]; congruence).
    cbn [mbind option_bind]. rewrite Z.eqb_refl. cbn [negb]. apply wp_bind.
    eapply wp_mono; [by apply unlink_queue_ok|].
    intros sma' [Hinv' [Up Uq Uu Uv Un]]. simpl. split; [|done]. split; [done| |split].
    + intros q'. rewrite Up, elem_of_list_del. intros [_ Hq']. apply (blocked_ext sma); try done; [by rewrite Uq|by apply Hbl].
    + intros q'. rewrite Up, !elem_of_list_del. intros [? ?%Sp]. done.
    + intros q'. rewrite Up, Uq, !elem_of_list_del. intros [Hne (e' & He' & Hw & Hd)%Ss]. exists e'.
      rewrite elem_of_list_del. split; [done|]. split; [by intros [_ ?]; apply Hw|]. intros Hn. apply Hd. intros Hin. by apply Hn.
  - pose proof (He2 Hnp) as Hf.
    assert (good sma (list_del q sl)) as Hg.
    { split; [done|done|]. split.
      + intros q' Hq'. rewrite elem_of_list_del. split; [by intros ->|]. by apply Sp.
      + intros q'. rewrite elem_of_list_del. intros [_ ?%Ss]. done. }
    rewrite (proj2 (Z.eqb_neq (q_status e) IN_WAKEUP)) in Hearly |- * by
      (unfold final_code, IN_WAKEUP, EAGAIN, ERANGE, EIDRM in *; lia). cbn [mbind option_bind].
    destruct (Z.eqb_spec early (- EINTR)) as [->|Hne]; cbn [negb].
    + rewrite (proj2 (Z.eqb_neq _ _)) by (unfold final_code, EINTR, EAGAIN, ERANGE, EIDRM in *; lia).
      by simpl.
    + destruct Hearly as [?|[= <-]]; by simpl.
Qed.

(** *** [semtimedop] *)

Lemma semop_scan_ok sops :
  let '(max, undos, alter) := semop_scan sops in
  Forall (fun sop => sem_num sop <= max) sops /\
  undos = existsb (fun sop => has_flag sop SEM_UNDO) sops /\ alter = has_alter sops.
Proof.
  unfold semop_scan, has_alter. match goal with |- context [fold_left ?g _ _] => set (f := g) end.
  enough (forall sops m u a, let '(max, undos, alter) := fold_left f sops (m, u, a) in
    m <= max /\ Forall (fun sop => sem_num sop <= max) sops /\
    undos = u || existsb (fun sop => has_flag sop SEM_UNDO) sops /\
    alter = a || existsb (fun sop => negb (sem_op sop =? 0)) sops) as H.
  { specialize (H sops 0 false false). destruct (fold_left f sops _) as [[max undos] alter]. tauto. }
  clear sops. induction sops as [|sop sops IH]; intros m u a; simpl.
  { rewrite !orb_false_r. split; [lia|]. done. }
  specialize (IH (if m <=? sem_num sop then sem_num sop else m) (u || has_flag sop SEM_UNDO)
    (a || negb (sem_op sop =? 0))). subst f. simpl in IH |- *.
  destruct (fold_left _ sops _) as [[max undos] alter]. destruct IH as (Hm & Hf & -> & ->).
  rewrite !orb_assoc. split; [destruct (Z.leb_spec m (sem_num sop)); lia|].
  split; [|done]. constructor; [destruct (Z.leb_spec m (sem_num sop)); lia | done].
Qed.

Lemma op_sum_cons sop sops k :
  op_sum (sop :: sops) k = (if sem_num sop =? k then sem_op sop else 0) + op_sum sops k.
Proof. done. Qed.

Lemma op_sum_neg sops k : (forall sop, sop ∈ sops -> sem_num sop = k -> sem_op sop <= 0) ->
  op_sum sops k <= 0 /\
  (op_sum sops k = 0 \/ exists sop, sop ∈ sops /\ sem_num sop = k /\ sem_op sop < 0).
Proof.
  induction sops as [|sop sops IH]; intros H; [by split; [|left]|].
  destruct IH as [H1 H2]; [intros s Hs; apply H; by right|]. rewrite op_sum_cons.
  destruct (Z.eqb_spec (sem_num sop) k) as [E|E].
  - pose proof (H sop ltac:(left) E) as Hop. split; [lia|]. destruct (Z.eq_dec (sem_op sop) 0) as [E0|E0].
    + destruct H2 as [?|(s & ? & ?)]; [left; lia|]. right. exists s. split; [by right | done].
    + right. exists sop. split; [left|]. lia.
  - split; [lia|]. destruct H2 as [?|(s & ? & ?)]; [left; lia|]. right. exists s. split; [by right | done].
Qed.

(** After an array was performed, a simple operation that no longer blocks is
    on a semaphore that [do_smart_update] looks at. *)
Lemma performed_covered sops sma sma' : sem_inv sma -> all_blocked sma -> performed sops sma sma' ->
  sem_inv sma' -> (forall k, val (sem_base sma') k = val (sem_base sma) k + op_sum sops k) ->
  complex_count sma' = 0 -> covered sops sma'.
Proof.
  intros Hinv Hbl Hpf Hinv' Hv Hc0 q Hq. pose proof Hpf as [Fb Fp Fc Fq Fn Fu Fs].
  destruct (no_complex_simple sma' q Hinv' Hc0 Hq) as (qs & Hqs').
  assert (is_simple sma q qs) as Hqs by
    (apply (is_simple_same sma sma'); [done | unfold sem_nsems; by rewrite (proj1 Fb) | done]).
  rewrite Fp in Hq. specialize (Hbl q Hq).
  apply (is_simple_blocked _ _ _ Hqs) in Hbl. rewrite (is_simple_blocked _ _ _ Hqs').
  set (k := sem_num qs) in *.
  destruct (decide (Exists (fun sop => sem_num sop = k /\ 0 < sem_op sop) sops)) as [He|Hne].
  - right. apply Exists_exists in He as (sop & Hin%list_elem_of_In & Hk & Hp). exists sop. split; [done|].
    rewrite (is_simple_on _ _ _ _ Hqs'). split; [by apply Z.eqb_eq | by left].
  - destruct (op_sum_neg sops k) as [Hle [H0|(sop & Hin & Hk & Hop)]].
    + intros sop Hin Hk. apply Z.nlt_ge. intros Hp. apply Hne, Exists_exists. exists sop.
      split; [by apply list_elem_of_In | done].
    + left. by rewrite Hv, H0, Z.add_0_r.
    + destruct (Z.eq_dec (val (sem_base sma') k) 0) as [Hz|Hz].
      * right. exists sop. split; [done|]. rewrite (is_simple_on _ _ _ _ Hqs').
        split; [by apply Z.eqb_eq|]. right. by rewrite Hk.
      * left. rewrite Hv in *. destruct (Z.eq_dec (op_sum sops k) 0) as [->|]; [by rewrite Z.add_0_r|].
        apply would_block_decrement; [lia | done | | done]. by destruct Hqs as (e & _ & _ & _ & _ & ? & _).
Qed.

Definition list_add (alter : bool) (q : nat) (l : list nat) : list nat := if alter then l ++ [q] else q :: l.

Lemma elem_of_list_add alter q x l : x ∈ list_add alter q l <-> x = q \/ x ∈ l.
Proof.
  unfold list_add. destruct alter; [rewrite elem_of_app, list_elem_of_singleton | rewrite elem_of_cons]; tauto.
Qed.

Lemma filter_list_add (P : nat -> bool) alter q l :
  filter (fun x => P x = true) (list_add alter q l) =
  if P q then list_add alter q (filter (fun x => P x = true) l) else filter (fun x => P x = true) l.
Proof.
  unfold list_add. destruct alter.
  - rewrite list.filter_app, filter_cons, filter_nil. destruct (P q) eqn:E.
    + by rewrite decide_True.
    + rewrite decide_False by congruence. apply app_nil_r.
  - rewrite filter_cons. destruct (P q) eqn:E; [by rewrite decide_True | by rewrite decide_False by congruence].
Qed.

(** [sma'] is [sma] with the operation [e] queued at the end of [queues]. *)
Record enqueued (e : sem_queue) (sma sma' : sem_array) : Prop := {
  en_queues : queues sma' = queues sma ++ [e];
  en_undos : undos sma' = undos sma;
  en_pending : sem_pending sma' = list_add (q_alter e) (length (queues sma)) (sem_pending sma);
  en_nsems : sem_nsems sma' = sem_nsems sma;
  en_vals : forall k, val (sem_base sma') k = val (sem_base sma) k;
  en_count : complex_count sma' = if q_nsops e =? 1 then complex_count sma else complex_count sma + 1;
  en_simple : forall k s, arr_get (sem_base sma') k = Some s ->
    exists s0, arr_get (sem_base sma) k = Some s0 /\
    simple_pending s = if simple_on sma' k (length (queues sma))
                       then list_add (q_alter e) (length (queues sma)) (simple_pending s0) else simple_pending s0
}.

Section enqueue.
Context (e : sem_queue) (sma sma' : sem_array).
Context (Hinv : sem_inv sma) (Hen : enqueued e sma sma').

Lemma pending_lt q : q ∈ sem_pending sma -> (q < length (queues sma))%nat.
Proof using Hinv. intros Hq. destruct (si_queues _ Hinv q Hq) as (e0 & He0 & _). by eapply lookup_lt_Some. Qed.

Lemma enqueued_old q : q ∈ sem_pending sma -> queues sma' !! q = queues sma !! q.
Proof using Hinv Hen. intros Hq. rewrite (en_queues _ _ _ Hen). apply lookup_app_l. by apply pending_lt. Qed.

Lemma enqueued_new : queues sma' !! length (queues sma) = Some e.
Proof using Hen. rewrite (en_queues _ _ _ Hen). by rewrite lookup_app_r, Nat.sub_diag. Qed.

Lemma enqueued_filter (P : sem_array -> nat -> bool) :
  (forall q, q ∈ sem_pending sma -> P sma' q = P sma q) ->
  filter (fun q => P sma' q = true) (sem_pending sma') =
  if P sma' (length (queues sma))
  then list_add (q_alter e) (length (queues sma)) (filter (fun q => P sma q = true) (sem_pending sma))
  else filter (fun q => P sma q = true) (sem_pending sma).
Proof using Hen.
  intros HP. rewrite (en_pending _ _ _ Hen), filter_list_add.
  by rewrite (filter_ext_in (P sma') (P sma) (sem_pending sma) HP).
Qed.

Lemma enqueued_order : q_alter e = alters sma' (length (queues sma)) ->
  exists zs als, sem_pending sma' = zs ++ als /\
    Forall (fun q => alters sma' q = false) zs /\ Forall (fun q => alters sma' q = true) als.
Proof using Hinv Hen.
  intros Ha. destruct (si_order _ Hinv) as (zs & als & E & Hz & Hal).
  assert (forall b l, (forall q, q ∈ l -> q ∈ sem_pending sma) -> Forall (fun q => alters sma q = b) l ->
    Forall (fun q => alters sma' q = b) l) as Hkeep.
  { intros b l Hin Hl. apply Forall_forall. intros q Hq%list_elem_of_In. rewrite Forall_forall in Hl.
    unfold alters. rewrite enqueued_old by auto. by apply Hl, list_elem_of_In. }
  apply Hkeep in Hz; [|intros q Hq; rewrite E; apply elem_of_app; by left].
  apply Hkeep in Hal; [|intros q Hq; rewrite E; apply elem_of_app; by right].
  rewrite (en_pending _ _ _ Hen), E. unfold list_add. destruct (q_alter e).
  - exists zs, (als ++ [length (queues sma)]). rewrite app_assoc. split; [done|]. split; [done|].
    apply Forall_app. split; [done|]. by constructor.
  - exists (length (queues sma) :: zs), als. split; [done|]. split; [by constructor | done].
Qed.

Lemma enqueued_inv : queue_wf (sem_nsems sma) (length (undos sma)) e -> sem_inv sma'.
Proof using Hinv Hen.
  intros Hwf. assert (forall q, q ∈ sem_pending sma -> queues sma' !! q = queues sma !! q) as Hold by apply enqueued_old.
  split.
  - rewrite (en_nsems _ _ _ Hen), (en_undos _ _ _ Hen). apply Hinv.
  - intros k. rewrite (en_vals _ _ _ Hen). apply Hinv.
  - rewrite (en_pending _ _ _ Hen). pose proof (si_nodup _ Hinv) as Hnd.
    assert (length (queues sma) ∉ sem_pending sma) as Hfresh by (intros ?%pending_lt; lia).
    unfold list_add. destruct (q_alter e); [|by apply list.NoDup_cons].
    apply list.NoDup_app. split; [done|]. split; [|apply NoDup_singleton].
    intros x Hx ->%list_elem_of_singleton. done.
  - intros q. rewrite (en_pending _ _ _ Hen), elem_of_list_add, (en_nsems _ _ _ Hen), (en_undos _ _ _ Hen).
    intros [->|Hq]; [exists e; split; [apply enqueued_new | done]|]. rewrite Hold by done. by apply Hinv.
  - rewrite (en_count _ _ _ Hen), (enqueued_filter is_complex), (si_count _ Hinv)
      by (intros q Hq; unfold is_complex; by rewrite Hold).
    assert (is_complex sma' (length (queues sma)) = negb (q_nsops e =? 1)) as ->
      by (unfold is_complex; by rewrite enqueued_new).
    destruct (q_nsops e =? 1); [done|]. cbn [negb].
    unfold list_add. destruct (q_alter e); rewrite ?length_app; simpl; lia.
  - intros k s Hs. destruct (en_simple _ _ _ Hen k s Hs) as (s0 & Hs0 & ->).
    rewrite (enqueued_filter (fun sma q => simple_on sma k q)), (si_simple _ Hinv k s0 Hs0)
      by (intros q Hq; unfold simple_on; by rewrite Hold).
    done.
  - apply enqueued_order. unfold alters. by rewrite enqueued_new.
Qed.

Lemma enqueued_blocked : all_blocked sma ->
  (exists s, vrun (q_adj sma (q_undo e)) (q_sops e) (val (sem_base sma)) = inr (s, WOULD_BLOCK) /\
    has_flag s IPC_NOWAIT = false) -> all_blocked sma'.
Proof using Hinv Hen.
  intros Hbl (s & Hr & Hf) q. rewrite (en_pending _ _ _ Hen), elem_of_list_add. intros [->|Hq].
  - exists e, s. split; [apply enqueued_new|]. split; [|done].
    unfold q_adj in *. rewrite (en_undos _ _ _ Hen).
    pose proof (vrun_ext (u ← q_undo e; undos sma !! u) (q_sops e) _ _ (en_vals _ _ _ Hen)) as H. rewrite Hr in H.
    destruct (vrun _ _ (val (sem_base sma'))); [done | by subst].
  - apply (blocked_ext sma); [by apply enqueued_old | apply Hen | apply Hen | by apply Hbl].
Qed.

Lemma enqueued_sleepers sl : sleepers_ok sma sl -> q_status e = - EINTR ->
  sleepers_ok sma' (length (queues sma) :: sl).
Proof using Hinv Hen.
  intros [Sp Ss] Hst. split.
  - intros q. rewrite (en_pending _ _ _ Hen), elem_of_list_add, elem_of_cons. intros [?|?%Sp]; auto.
  - intros q [->|Hq]%elem_of_cons.
    + exists e. rewrite (en_pending _ _ _ Hen), elem_of_list_add. split; [apply enqueued_new|].
      split; [done|]. intros []. by left.
    + destruct (Ss q Hq) as (e0 & He0 & H1 & H2). pose proof (lookup_lt_Some _ _ _ He0) as Hlt.
      exists e0. rewrite (en_pending _ _ _ Hen), elem_of_list_add, (en_queues _ _ _ Hen), lookup_app_l by done.
      split; [done|]. split.
      * intros [->|?]; [lia | by apply H1].
      * intros Hn. apply H2. intros ?. apply Hn. by right.
Qed.
End enqueue.

Lemma sleep_wf sma sops un pid s : sem_inv sma -> sops <> [] -> sops_ok (sem_nsems sma) un sops ->
  (forall u, un = Some u -> (u < length (undos sma))%nat) ->
  vrun (q_adj sma un) sops (val (sem_base sma)) = inr (s, WOULD_BLOCK) -> has_flag s IPC_NOWAIT = false ->
  queue_wf (sem_nsems sma) (length (undos sma)) (SemQueue sops un pid (- EINTR) (has_alter sops)).
Proof.
  intros Hinv Hne Hok Hu Hr Hf. split; try done. simpl. intros sop ->. simpl in Hr.
  destruct (sop_exit _ _ sop) as [x|] eqn:E; [|done]. injection Hr as -> ->. split; [done|].
  unfold sop_exit in E. destruct (would_block _ s) eqn:Ew; [|by destruct (_ || _)].
  pose proof (si_vals _ Hinv (sem_num s)). unfold would_block in Ew.
  apply orb_true_iff in Ew as [[Ew%Z.eqb_eq _]%andb_true_iff|Ew%Z.ltb_lt]; lia.
Qed.

(** The tail of [semtimedop_start]: the task goes to sleep. *)
Lemma sleep_ok sma sl sops un pid s : good sma sl -> sops <> [] -> sops_ok (sem_nsems sma) un sops ->
  (forall u, un = Some u -> (u < length (undos sma))%nat) ->
  vrun (q_adj sma un) sops (val (sem_base sma)) = inr (s, WOULD_BLOCK) -> has_flag s IPC_NOWAIT = false ->
  forall sma', enqueued (SemQueue sops un pid (- EINTR) (has_alter sops)) sma sma' ->
  good sma' (length (queues sma) :: sl).
Proof.
  intros [Hinv Hbl Hsl] Hne Hok Hu Hr Hf sma' Hen. split.
  - eapply enqueued_inv; [done | done |]. by eapply sleep_wf.
  - eapply enqueued_blocked; [done | done | done |]. by exists s.
  - by eapply enqueued_sleepers.
Qed.

Lemma enqueue_ok sma sops un pid alter : sops <> [] -> sops_ok (sem_nsems sma) un sops ->
  let nsops := Z.of_nat (length sops) in
  let q := length (queues sma) in
  let sma1 := with_queues sma (queues sma ++ [SemQueue sops un pid (- EINTR) alter]) in
  let add l := if alter : bool then l ++ [q] else q :: l in
  wp (if nsops =? 1 then
        sop ← arr_get sops 0;
        curr ← arr_get (sem_base sma1) (sem_num sop);
        base ← arr_set (sem_base sma1) (sem_num sop) (set_simple curr (add (simple_pending curr)));
        Some (SLEEPING q, with_pending (with_base sma1 base) (add (sem_pending sma1)) (complex_count sma1))
      else
        Some (SLEEPING q, with_pending sma1 (add (sem_pending sma1)) (complex_count sma1 + 1)))
     (fun '(out, sma') => out = SLEEPING q /\ enqueued (SemQueue sops un pid (- EINTR) alter) sma sma').
Proof.
  intros Hne Hok nsops q sma1 add. subst nsops. destruct (Z.eqb_spec (Z.of_nat (length sops)) 1) as [E1|E1].
  - destruct sops as [|sop [|]]; simpl in E1; try lia. change (arr_get [sop] 0) with (Some sop).
    cbn [mbind option_bind]. apply Forall_cons_iff in Hok as [[Hn _] _]. change (sem_base sma1) with (sem_base sma).
    destruct (arr_get_Some (sem_base sma) _ Hn) as [curr Hc]. rewrite Hc. cbn [mbind option_bind].
    rewrite arr_set_Some by done. cbn [mbind option_bind wp]. split; [done|]. split; simpl; try done.
    + unfold sem_nsems. simpl. by rewrite length_insert.
    + intros k. rewrite val_insert by done. destruct (Z.eqb_spec k (sem_num sop)) as [->|]; [|done].
      unfold val. by rewrite Hc.
    + intros k s Hk. unfold simple_on. simpl. rewrite lookup_app_r, Nat.sub_diag by done. simpl.
      destruct (Z.eqb_spec (sem_num sop) k) as [<-|Hk'].
      * rewrite arr_get_insert_eq in Hk by done. injection Hk as <-. by exists curr.
      * rewrite arr_get_insert_ne in Hk by (pose proof (arr_get_range _ _ _ Hk); lia). by exists s.
  - cbn [wp]. split; [done|]. split; simpl; try done.
    + unfold q_nsops. simpl. by rewrite (proj2 (Z.eqb_neq _ _)).
    + intros k s Hk. exists s. split; [done|]. unfold simple_on. simpl.
      rewrite lookup_app_r, Nat.sub_diag by done. simpl. by destruct sops as [|sop [|]].
Qed.

(** What [semtimedop] leaves: a call that fails changes nothing, and one that
    sleeps only queues the operation. *)
Definition semop_post (sma : sem_array) (sl : list nat) (x : semop_outcome * sem_array) : Prop :=
  let '(out, sma') := x in
  match out with
  | RETURNED r => good sma' sl /\ (r <> 0 -> sma' = sma)
  | SLEEPING q => good sma' (q :: sl) /\ (q ∉ sl) /\ undos sma' = undos sma /\
      forall k, val (sem_base sma') k = val (sem_base sma) k
  end.

(** The operation array was performed at once. *)
Lemma semop_return_ok sma sl sops un sma' now v' : good sma sl -> sops_ok (sem_nsems sma) un sops ->
  vrun (q_adj sma un) sops (val (sem_base sma)) = inl v' -> performed sops sma sma' ->
  (forall k, val (sem_base sma') k = v' k) ->
  wp (wake (if has_alter sops && (0 =? 0) then
              '(sma, tasks) ← do_smart_update sma' (Some sops) true now []; Some (0, sma, tasks)
            else Some (0, sma', []))) (semop_post sma sl).
Proof.
  intros [Hinv Hbl Hsl] Hok Hr Hpf Hv'. pose proof Hpf as [Fb Fp Fc Fq Fn Fu Fs].
  assert (forall k, val (sem_base sma') k = val (sem_base sma) k + op_sum sops k) as Hv
    by (intros k; rewrite Hv'; apply (vrun_values _ _ _ _ Hr)).
  assert (sem_inv sma') as Hinv'.
  { eapply performed_inv; [done|done|]. intros k. rewrite Hv'. apply (vrun_values _ _ _ _ Hr); apply Hinv. }
  assert (sleepers_ok sma' sl) as Hsl' by (by apply (sleepers_ok_frame sma)).
  destruct (has_alter sops) eqn:Ea; cbn [andb].
  - rewrite Z.eqb_refl, wake_eq. apply wp_bind. eapply wp_mono; [apply (smart_wake_ok _ sl); [done|done|split]|].
    + unfold sem_nsems. rewrite (proj1 Fb). eapply Forall_impl; [|exact Hok]. by intros s [? _].
    + intros Hc0. by apply (performed_covered sops sma sma').
    + intros sma2 Hg. by split.
  - simpl. split; [|done]. split; [by destruct sma'| |by destruct sma'].
    intros q Hq. apply (blocked_ext sma).
    + by simpl; rewrite Fq.
    + by apply Fs.
    + intros k. simpl. rewrite Hv, op_sum_no_alter by done. lia.
    + apply Hbl. by rewrite <- Fp.
Qed.

Lemma semtimedop_start_ok sma sl sops env : good sma sl ->
  Forall (fun sop => 0 <= sem_num sop) sops ->
  (forall u, undo_struct env = inl u -> (u < length (undos sma))%nat) ->
  wp (semtimedop_start sma sops env) (semop_post sma sl).
Proof.
  intros Hg Hpos Hu. unfold semtimedop_start.
  destruct (Z.ltb_spec (Z.of_nat (length sops)) 1) as [?|Hlen]; [by simpl|]. cbn [orb].
  destruct (semid env <? 0); [by simpl|]. destruct (sc_semopm env <? Z.of_nat (length sops)); [by simpl|].
  destruct (_ && negb (kmalloc_ok env)); [by simpl|]. destruct (negb (copied env)); [by simpl|].
  destruct (truthy (semop_timeout (timeout env))); [by simpl|].
  pose proof (semop_scan_ok sops) as Hscan. destruct (semop_scan sops) as [[max us] alter].
  destruct Hscan as (Hmax & Hus & ->).
  destruct (if us then _ else _) as [un|e] eqn:Eun; [|by simpl].
  destruct (truthy (lock_error env)); [by simpl|]. destruct (us && undo_removed env); [by simpl|].
  destruct (Z.leb_spec (sem_nsems sma) max) as [?|Hm]; [by simpl|].
  destruct (negb (perm env (has_alter sops))); [by simpl|]. destruct (truthy (security env)); [by simpl|].
  assert (forall u, un = Some u -> (u < length (undos sma))%nat) as Hun.
  { intros u ->. destruct us; [|done]. destruct (undo_struct env) as [u'|]; [|done]. injection Eun as ->. by apply Hu. }
  assert (sops_ok (sem_nsems sma) un sops) as Hok.
  { apply Forall_forall. intros sop Hin. rewrite Forall_forall in Hpos, Hmax.
    specialize (Hpos sop Hin). specialize (Hmax sop Hin). split; [lia|]. intros Hf.
    assert (us = true) as -> by (rewrite Hus; apply existsb_exists; by exists sop).
    destruct (undo_struct env); [by injection Eun as <- | done]. }
  pose proof Hg as [Hinv Hbl Hsl]. apply wp_bind.
  eapply wp_mono; [apply (try_semop_ok sma sops un (cur_pid env)); [apply Hinv | done | done]|].
  intros [error sma'] Htry. destruct (vrun _ _ _) as [v'|[s e]] eqn:Hr.
  - destruct Htry as (-> & Hpf & Hv'). change (0 <=? 0) with true. cbv iota. by eapply semop_return_ok.
  - destruct Htry as [-> ->]. destruct (Z.leb_spec (exit_code s e) 0) as [Hle|Hgt].
    + destruct (exit_code_final s e Hle) as [_ Hne]. rewrite (proj2 (Z.eqb_neq _ _) Hne), andb_false_r.
      simpl. by destruct sma.
    + destruct (exit_code_pos s e Hgt) as [-> Hf]. assert (sops <> []) as Hne by (by intros ->; simpl in Hlen; lia).
      eapply wp_mono; [by apply (enqueue_ok sma sops un (cur_pid env) (has_alter sops))|].
      intros [out sma'] [-> Hen]. simpl. split; [by eapply sleep_ok|]. split; [|by destruct Hen].
      intros Hin. destruct (sl_status _ _ Hsl _ Hin) as (e & He%lookup_lt_Some & _). lia.
Qed.

(** *** [freeary] *)

Lemma freeary_loop_ok sma0 l sma pt : sem_inv sma -> progress sma0 sma pt -> sem_pending sma = l ->
  (forall q, q ∈ pt -> exists e, queues sma !! q = Some e /\ q_pid e = - EIDRM) ->
  wp (opt_fold (fun q '(sma', tasks) =>
        sma' ← unlink_queue sma' q; wake_up_sem_queue_prepare sma' tasks q (- EIDRM)) l (sma, pt))
     (fun '(sma', pt') => sem_inv sma' /\ progress sma0 sma' pt' /\ sem_pending sma' = [] /\
        forall q, q ∈ pt' -> exists e, queues sma' !! q = Some e /\ q_pid e = - EIDRM).
Proof.
  revert sma pt. induction l as [|q l IH]; intros sma pt Hinv Hpg Hp Hpt; cbn [opt_fold].
  { by simpl. }
  assert (q ∈ sem_pending sma) as Hq by (rewrite Hp; left).
  apply wp_bind, wp_bind. eapply wp_mono; [by apply unlink_queue_ok|]. intros sma2 [Hinv2 Hul].
  pose proof (unlinked_scan (-1) _ _ _ Hinv2 Hul) as Hrem. destruct Hul as [Up Uq Uu Uv Un].
  assert (sem_pending sma2 = l) as Hp2.
  { rewrite Up, Hp. apply (list_del_middle q [] l). pose proof (si_nodup _ Hinv) as H. by rewrite Hp in H. }
  destruct (si_queues _ Hinv q Hq) as (e & He%lookup_lt_Some & _).
  eapply wp_mono; [apply prepare_ok; [done | by rewrite Uq | rewrite Up, elem_of_list_del; tauto]|].
  intros [sma3 pt'] (-> & Hinv3 & Eb & Ep & Ec & Eu & El & Eq & (e' & He' & Hst & Hpid)). apply IH.
  - done.
  - eapply progress_remove; try done.
    + by right; right; right.
    + unfold sem_nsems. by rewrite Eb.
    + by exists e'.
  - by rewrite Ep.
  - intros q'. rewrite elem_of_app, list_elem_of_singleton. destruct (decide (q' = q)) as [->|Hne].
    + intros _. by exists e'.
    + intros [(e1 & He1 & Hp1)%Hpt|?]; [|done]. exists e1. by rewrite Eq, Uq by done.
Qed.

(** The undo structures play no part in the removal of the queue. *)
Definition forget_undos (sma : sem_array) : sem_array := with_undos sma [].

Lemma unlink_forget sma q : unlink_queue (forget_undos sma) q = forget_undos <$> unlink_queue sma q.
Proof.
  unfold unlink_queue. simpl. destruct (queues sma !! q) as [e|]; [simpl | done].
  destruct (q_nsops e =? 1); [|done]. destruct (arr_get (q_sops e) 0) as [sop|]; [simpl | done].
  destruct (arr_get (sem_base sma) (sem_num sop)) as [curr|]; [simpl | done].
  by destruct (arr_set (sem_base sma) _ _).
Qed.

Lemma prepare_forget sma pt q error : wake_up_sem_queue_prepare (forget_undos sma) pt q error =
  prod_map forget_undos id <$> wake_up_sem_queue_prepare sma pt q error.
Proof. unfold wake_up_sem_queue_prepare. simpl. by destruct (queues sma !! q). Qed.

Lemma freeary_loop_forget l sma pt :
  opt_fold (fun q '(sma', tasks) =>
    sma' ← unlink_queue sma' q; wake_up_sem_queue_prepare sma' tasks q (- EIDRM)) l (forget_undos sma, pt) =
  prod_map forget_undos id <$> opt_fold (fun q '(sma', tasks) =>
    sma' ← unlink_queue sma' q; wake_up_sem_queue_prepare sma' tasks q (- EIDRM)) l (sma, pt).
Proof.
  revert sma pt. induction l as [|q l IH]; intros sma pt; cbn [opt_fold]; [done|].
  rewrite unlink_forget. destruct (unlink_queue sma q) as [sma1|]; simpl; [|done].
  rewrite prepare_forget. destruct (wake_up_sem_queue_prepare sma1 pt q (- EIDRM)) as [[sma2 pt2]|]; simpl; [apply IH | done].
Qed.

Lemma do_forget sma pt : wake_up_sem_queue_do (forget_undos sma) pt = forget_undos <$> wake_up_sem_queue_do sma pt.
Proof.
  unfold wake_up_sem_queue_do.
  rewrite !(c_for_all_list (fun q sma => e ← queues sma !! q;
    Some (with_queues sma (<[q := finish_entry e]> (queues sma))))) by (intros i x s ->; done).
  revert sma. induction pt as [|q pt IH]; intros sma; cbn [opt_fold]; [done|]. simpl.
  destruct (queues sma !! q) as [e|]; simpl; [apply (IH (with_queues sma _)) | done].
Qed.

(** The removal of the queue alone. *)
Definition free_queue (sma : sem_array) : option sem_array :=
  '(sma, tasks) ← opt_fold (fun q '(sma', tasks) =>
    sma' ← unlink_queue sma' q; wake_up_sem_queue_prepare sma' tasks q (- EIDRM)) (sem_pending sma) (sma, []);
  wake_up_sem_queue_do sma tasks.

Lemma freeary_queue sma : freeary sma = forget_undos <$> free_queue sma.
Proof.
  unfold freeary, free_queue. cbv zeta. fold (forget_undos sma).
  change (sem_pending (forget_undos sma)) with (sem_pending sma).
  rewrite (c_for_all_list (fun q '(sma', tasks) =>
        sma' ← unlink_queue sma' q; wake_up_sem_queue_prepare sma' tasks q (- EIDRM)))
    by (intros i x [s t] ->; done).
  rewrite freeary_loop_forget. destruct (opt_fold _ _ _) as [[sma' pt]|]; simpl; [apply do_forget | done].
Qed.

Lemma free_queue_ok sma sl : good sma sl ->
  wp (free_queue sma) (fun sma' => good sma' sl /\ sem_pending sma' = [] /\
    (forall q, q ∈ sem_pending sma -> get_queue_result sma' q = Some (- EIDRM))).
Proof.
  intros [Hinv Hbl Hsl]. unfold free_queue. apply wp_bind.
  eapply wp_mono; [apply (freeary_loop_ok sma); [done | apply progress_refl | done | by intros q ?%elem_of_nil]|].
  intros [sma' pt] (Hinv' & Hpg & Hp & Hpid).
  assert (all_blocked sma') as Hbl' by (intros q; rewrite Hp; by intros ?%elem_of_nil).
  pose proof (wake_ok sma sma' pt sl Hinv' Hbl' Hpg Hsl) as Hw.
  assert (wp (wake_up_sem_queue_do sma' pt) (fun sma2 => sem_pending sma2 = [] /\
    forall q, q ∈ pt -> get_queue_result sma2 q = Some (- EIDRM))) as Hd.
  { eapply wp_mono; [apply wake_up_sem_queue_do_ok|].
    - intros q Hq. destruct (Hpid q Hq) as (e & He & _). by eapply lookup_lt_Some.
    - intros sma2 (qs & -> & _ & Hq). split; [done|]. intros q Hin. destruct (Hpid q Hin) as (e & He & Hp').
      unfold get_queue_result. simpl. rewrite (Hq q Hin), He. simpl. by rewrite Hp'. }
  destruct (wake_up_sem_queue_do sma' pt) as [sma2|]; [|done]. simpl in *.
  destruct Hd as [Hp2 Hd]. do 2 (split; [done|]). intros q Hq. apply Hd.
  destruct (pg_dom _ _ _ Hpg q Hq) as [Hin|?]; [|done]. rewrite Hp in Hin. by apply elem_of_nil in Hin.
Qed.

Lemma freeary_ok sma sl : good sma sl ->
  wp (freeary sma) (fun sma' => sleepers_ok sma' sl /\ sem_pending sma' = [] /\ undos sma' = [] /\
    (forall q, q ∈ sem_pending sma -> get_queue_result sma' q = Some (- EIDRM))).
Proof.
  intros Hg. rewrite freeary_queue. pose proof (free_queue_ok sma sl Hg) as H.
  destruct (free_queue sma) as [sma'|]; [|done]. destruct H as ([_ _ [Sp Ss]] & Hp & Hq). simpl.
  split; [by split|]. done.
Qed.

(** ** The set over its lifetime

    The states that any sequence of system calls by any number of processes
    leads to. *)

Record system := Sys { sys_sma : sem_array; sys_sleepers : list nat }.

Inductive sem_call :=
  | Semop (sops : list sembuf) (env : semop_env)
  | Resume (q : nat) (early : Z) (timed_out : bool)
  | SetVal (semnum v pid now : Z)
  | SetAll (sem_io : list Z) (now : Z)
  | AllocUndo
  | ExitSem (un : nat) (pid now : Z).

Definition sem_exec (c : sem_call) (s : system) : option system :=
  let '(Sys sma sl) := s in
  match c with
  | Semop sops env =>
      '(out, sma') ← semtimedop_start sma sops env;
      Some (Sys sma' (match out with RETURNED _ => sl | SLEEPING q => q :: sl end))
  | Resume q early timed_out =>
      '(_, sma') ← semtimedop_finish sma q early true timed_out; Some (Sys sma' (list_del q sl))
  | SetVal semnum v pid now => '(_, sma') ← semctl_setval sma semnum v pid now; Some (Sys sma' sl)
  | SetAll sem_io now => '(_, sma') ← semctl_setall sma sem_io now; Some (Sys sma' sl)
  | AllocUndo => Some (Sys (snd (find_alloc_undo sma)) sl)
  | ExitSem un pid now => sma' ← exit_sem sma un pid now; Some (Sys sma' sl)
  end.

(** The arguments that the types and the callers guarantee: semaphore numbers
    and values are unsigned, undo structures belong to the set, the array of
    values has one entry per semaphore, and only a sleeper resumes, which may
    have read its result before. *)
Definition valid_call (c : sem_call) (s : system) : Prop :=
  let '(Sys sma sl) := s in
  match c with
  | Semop sops env => Forall (fun sop => 0 <= sem_num sop) sops /\
      forall u, undo_struct env = inl u -> (u < length (undos sma))%nat
  | Resume q early _ => q ∈ sl /\ read_before sma q early
  | SetVal _ _ _ _ => True
  | SetAll sem_io _ => Z.of_nat (length sem_io) = sem_nsems sma /\ Forall (fun v => 0 <= v) sem_io
  | AllocUndo => True
  | ExitSem un _ _ => (un < length (undos sma))%nat
  end.

Inductive reachable : system -> Prop :=
  | reachable_new nsems used m alloc sec id now id' sma :
      0 <= nsems -> newary nsems used m alloc sec id now = inr (id', sma) -> reachable (Sys sma [])
  | reachable_step s c s' : reachable s -> valid_call c s -> sem_exec c s = Some s' -> reachable s'.

Definition sys_good (s : system) : Prop := good (sys_sma s) (sys_sleepers s).

Lemma arr_get_replicate {A} (x : A) n k : arr_get (replicate n x) k = if (0 <=? k) && (k <? Z.of_nat n) then Some x else None.
Proof.
  destruct ((0 <=? k) && (k <? Z.of_nat n)) eqn:E.
  - apply andb_true_iff in E as [E1%Z.leb_le E2%Z.ltb_lt].
    destruct (arr_get_Some (replicate n x) k) as [y Hy]; [rewrite length_replicate; lia|].
    rewrite Hy. f_equal. apply arr_get_lookup in Hy; [|lia]. by apply lookup_replicate in Hy as [? _].
  - destruct (arr_get (replicate n x) k) eqn:Hy; [|done]. apply arr_get_range in Hy.
    rewrite length_replicate in Hy. apply andb_false_iff in E as [E%Z.leb_gt|E%Z.ltb_ge]; lia.
Qed.

Lemma newary_good nsems used m alloc sec id now id' sma :
  newary nsems used m alloc sec id now = inr (id', sma) -> good sma [].
Proof.
  unfold newary. repeat (case_match; [done|]). intros [= <- <-]. split.
  - split; simpl; try done.
    + intros k. unfold val. simpl. rewrite arr_get_replicate. unfold SEMVMX. destruct (_ && _); simpl; lia.
    + constructor.
    + by intros q ?%elem_of_nil.
    + intros k s. rewrite arr_get_replicate. destruct (_ && _); [|done]. by intros [= <-].
    + exists [], []. by repeat split.
  - by intros q ?%elem_of_nil.
  - split; by intros q ?%elem_of_nil.
Qed.

Lemma find_alloc_undo_good sma sl : good sma sl -> good (snd (find_alloc_undo sma)) sl.
Proof.
  intros [Hinv Hbl [Sp Ss]]. split.
  - apply (sem_inv_frame sma); simpl; try done; try apply Hinv.
    + rewrite length_app. lia.
    + intros u adj [Hl|[_ Hl]]%lookup_app_Some; [by apply (si_undos _ Hinv u)|].
      apply list_lookup_singleton_Some in Hl as [_ <-]. rewrite length_replicate. split; [done|].
      apply Forall_replicate. done.
  - intros q Hq. destruct (Hbl q Hq) as (e & s & He & Hr & Hf). exists e, s. split; [done|]. split; [|done].
    destruct (si_queues _ Hinv q Hq) as (e' & He' & Hwf). rewrite He in He'. injection He' as <-.
    rewrite <- Hr. f_equal. unfold q_adj. simpl. destruct (q_undo e) as [u|] eqn:Eu; [|done]. simpl.
    apply lookup_app_l. by apply (qw_undo _ _ _ Hwf).
  - by split.
Qed.

Lemma sem_exec_ok c s : sys_good s -> valid_call c s -> wp (sem_exec c s) sys_good.
Proof.
  destruct s as [sma sl]. unfold sys_good. simpl. intros Hg Hc. destruct c; simpl in *; try apply wp_bind.
  - destruct Hc as [Hpos Hu]. eapply wp_mono; [by apply (semtimedop_start_ok sma sl)|].
    intros [[r|q] sma']; simpl; by intros [? _].
  - destruct Hc as [Hq He]. eapply wp_mono; [by apply (semtimedop_finish_ok sma sl)|]. by intros [r sma'] [? _].
  - eapply wp_mono; [by apply (semctl_setval_ok sma sl)|]. by intros [r sma'] [? _].
  - destruct Hc as [Hl Hv]. eapply wp_mono; [by apply (semctl_setall_ok sma sl)|]. by intros [r sma'] [? _].
  - by apply find_alloc_undo_good.
  - eapply wp_mono; [by apply (exit_sem_ok sma sl)|]. done.
Qed.

Lemma reachable_good s : reachable s -> sys_good s.
Proof.
  induction 1 as [nsems used m alloc sec id now id' sma _ Hn | s c s' _ IH Hv He].
  - by eapply newary_good.
  - pose proof (sem_exec_ok c s IH Hv) as H. by rewrite He in H.
Qed.

(** ** Properties *)

(** C3: in every state that system calls can lead to, the values of the
    semaphores are in range, every process that still sleeps on the set really
    has to sleep (no wake-up is lost), every process taken off the queue has
    its result, and every further system call returns: no [BUG_ON] is hit and
    no scan runs forever. *)
Theorem sem_no_lost_wakeup s : reachable s ->
  (forall k, 0 <= val (sem_base (sys_sma s)) k <= SEMVMX) /\
  (forall q, q ∈ sem_pending (sys_sma s) -> q ∈ sys_sleepers s /\ blocked (sys_sma s) q) /\
  (forall q, q ∈ sys_sleepers s -> exists r, get_queue_result (sys_sma s) q = Some r /\
     (q ∈ sem_pending (sys_sma s) -> r = - EINTR) /\ (q ∉ sem_pending (sys_sma s) -> final_code r)) /\
  (forall c, valid_call c s -> exists s', sem_exec c s = Some s' /\ reachable s').
Proof.
  intros Hr. pose proof (reachable_good s Hr) as Hg. pose proof Hg as [Hinv Hbl [Sp Ss]].
  split; [apply Hinv|]. split; [by intros q Hq; split; [apply Sp | apply Hbl]|]. split.
  - intros q Hq. destruct (Ss q Hq) as (e & He & H1 & H2). exists (q_status e).
    split; [|done]. unfold get_queue_result. rewrite He. simpl.
    assert (q_status e <> IN_WAKEUP) as Hne.
    { unfold final_code, EINTR, IN_WAKEUP, EAGAIN, ERANGE, EIDRM in *.
      destruct (decide (q ∈ sem_pending (sys_sma s))) as [Hin|Hnin]; [specialize (H1 Hin) | specialize (H2 Hnin)]; lia. }
    by rewrite (proj2 (Z.eqb_neq _ _) Hne).
  - intros c Hc. pose proof (sem_exec_ok c s Hg Hc) as H. destruct (sem_exec c s) as [s'|] eqn:E; [|done].
    exists s'. split; [done|]. by apply (reachable_step s c).
Qed.

(** A set of two semaphores on which a process sleeps. *)
Definition sample_sys : system :=
  Sys (SemArray [Sem 0 0 [0%nat]; Sem 0 0 []] [0%nat] 0 0 7 []
         [SemQueue [Sembuf 0 (-1) 0] None 42 (- EINTR) true]) [0%nat].

Lemma sample_reachable : reachable sample_sys.
Proof.
  apply (reachable_step (Sys (SemArray [Sem 0 0 []; Sem 0 0 []] [] 0 0 7 [] []) [])
    (Semop [Sembuf 0 (-1) 0] (SemopEnv 5 32 true true None (inr 0) 0 false (fun _ => true) 0 42 9))).
  - apply (reachable_new 2 0 100 true 0 5 7 5); [lia | reflexivity].
  - split; [concrete | intros u Hu; discriminate].
  - reflexivity.
Qed.

Lemma sem_no_lost_wakeup_witness : blocked (sys_sma sample_sys) 0.
Proof.
  apply (proj1 (proj2 (sem_no_lost_wakeup sample_sys sample_reachable))). left.
Defined.

(** C17: [try_atomic_semop] performs its operation array atomically: either
    each operation could be performed in turn, and the values, pids and
    adjustments are those of the whole array, or the result is the error or
    the wish to sleep of the first operation that fails and neither the
    semaphores nor the adjustments have changed. *)
Theorem try_atomic_semop_atomic base sops semadj pid :
  sops_wf (Z.of_nat (length base)) semadj sops -> adj_ok (Z.of_nat (length base)) semadj ->
  exists r base' semadj', try_atomic_semop base sops semadj pid = Some (r, base', semadj') /\
    match vrun semadj sops (val base) with
    | inl v' => r = 0 /\ length base' = length base /\ adj_after sops semadj semadj' /\
                forall k, val base' k = v' k /\ v' k = val base k + op_sum sops k /\
                  pid_of base' k = if names sops k then pid else pid_of base k
    | inr (s, e) => r = exit_code s e /\ base' = base /\ semadj' = semadj
    end.
Proof.
  intros Hwf Hadj. pose proof (try_atomic_semop_ok base sops semadj pid Hwf Hadj) as H.
  destruct (try_atomic_semop base sops semadj pid) as [[[r base'] semadj']|] eqn:Et; [|done].
  exists r, base', semadj'. split; [done|]. simpl in H. destruct (vrun _ _ _) as [v'|[s e]] eqn:Hr; [|done].
  destruct H as (-> & [Hl _] & Hv & Ha). do 3 (split; [done|]). intros k. split; [done|].
  split; [apply (vrun_values _ _ _ _ Hr)|]. apply (try_atomic_semop_pids _ _ _ _ _ _ _ Et).
  intros b Eb. pose proof (run_sops_vrun semadj sops base (val base) Hwf (fun _ => eq_refl)) as Hx.
  rewrite Eb, Hr in Hx. by destruct b as [[[? ?] ?] ?].
Qed.

Lemma try_atomic_semop_atomic_witness :
  exists r base' semadj', try_atomic_semop [Sem 1 0 []; Sem 0 0 []] [Sembuf 0 (-1) SEM_UNDO; Sembuf 1 (-1) 0]
    (Some [0; 0]) 42 = Some (r, base', semadj') /\ r = 1 /\ base' = [Sem 1 0 []; Sem 0 0 []].
Proof.
  destruct (try_atomic_semop_atomic [Sem 1 0 []; Sem 0 0 []] [Sembuf 0 (-1) SEM_UNDO; Sembuf 1 (-1) 0]
    (Some [0; 0]) 42) as (r & b & a & E & H).
  - constructor; [|constructor; [|constructor]].
    + split; [simpl; lia | intros _; exists [0; 0]; split; reflexivity].
    + split; [simpl; lia | intros _; exists [0; 0]; split; reflexivity].
  - intros adj [= <-]. split; [reflexivity|]. constructor; [vm_compute; split; congruence|].
    constructor; [vm_compute; split; congruence | constructor].
  - exists r, b, a. split; [exact E|]. destruct H as (Hr & Hb & _). split; [exact Hr | exact Hb].
Defined.

(** C40: [freeary] takes every undo structure off the set, wakes every process
    that sleeps on it and leaves the queue empty.  A process that slept gets
    [-EIDRM], also if it woke up before for another reason and no longer finds
    the set; one that was woken before the removal keeps its result. *)
Theorem freeary_wakes_all s : reachable s ->
  exists sma', freeary (sys_sma s) = Some sma' /\ sem_pending sma' = [] /\ undos sma' = [] /\
    (forall q, q ∈ sem_pending (sys_sma s) -> get_queue_result sma' q = Some (- EIDRM) /\
       forall early timed_out, read_before sma' q early ->
       semtimedop_finish sma' q early false timed_out = Some (- EIDRM, sma')) /\
    (forall q, q ∈ sys_sleepers s -> exists r, get_queue_result sma' q = Some r /\ final_code r).
Proof.
  intros Hr. pose proof (reachable_good s Hr) as Hg. pose proof (freeary_ok _ _ Hg) as H.
  destruct (freeary (sys_sma s)) as [sma'|]; [|done]. destruct H as ([_ Ss] & Hp & Hu & Hq).
  exists sma'. do 3 (split; [done|]). split.
  - intros q Hin. specialize (Hq q Hin). split; [done|]. intros early timed_out [->|He]; [done|].
    rewrite Hq in He. injection He as <-. done.
  - intros q Hin. destruct (Ss q Hin) as (e & He & _ & Hf).
    rewrite Hp in Hf. specialize (Hf (not_elem_of_nil q)). exists (q_status e). split; [|done].
    unfold get_queue_result. rewrite He. simpl. rewrite (proj2 (Z.eqb_neq _ _)); [done|].
    unfold final_code, IN_WAKEUP, EAGAIN, ERANGE, EIDRM in *. lia.
Qed.

Lemma freeary_wakes_all_witness : exists sma', freeary (sys_sma sample_sys) = Some sma' /\
  get_queue_result sma' 0 = Some (- EIDRM).
Proof.
  destruct (freeary_wakes_all sample_sys sample_reachable) as (sma' & E & _ & _ & Hq & _). exists sma'.
  split; [exact E|]. apply Hq. left.
Defined.

(** The range check of [try_atomic_semop] looks at each operation with
    [SEM_UNDO] on its own.  Two decrements of one array that are each in range
    may add up beyond [SEMAEM]; the array succeeds, and the 16-bit adjustment of
    the semaphore wraps around to a negative value. *)
Theorem semadj_wraps base adj k curr d pid :
  arr_get base k = Some curr -> 0 < d <= semval curr -> semval curr <= SEMVMX ->
  length adj = length base -> Forall is_s16 adj -> zth adj k + d <= SEMAEM < zth adj k + 2 * d ->
  exists base' adj', try_atomic_semop base
      [Sembuf k (- d) SEM_UNDO; Sembuf k d 0; Sembuf k (- d) SEM_UNDO] (Some adj) pid =
    Some (0, base', Some adj') /\
    val base' k = semval curr - d /\ zth adj' k = zth adj k + 2 * d - 2 ^ 16 /\ zth adj' k < 0.
Proof.
  intros Hc Hd Hv Hl Ha Hadj. pose proof (arr_get_range _ _ _ Hc) as Hk.
  set (sops := [_; _; _]). assert (sops_wf (Z.of_nat (length base)) (Some adj) sops) as Hwf.
  { repeat constructor; simpl; try lia; intros _; exists adj; split; [done | lia | done | lia | done | lia]. }
  assert (adj_ok (Z.of_nat (length base)) (Some adj)) as Hok by (intros a [= <-]; split; [lia | done]).
  pose proof (try_atomic_semop_ok base sops (Some adj) pid Hwf Hok) as H.
  assert (- 2 ^ 15 <= zth adj k < 2 ^ 15) as Hs by (apply (zth_Forall is_s16); [done | lia]).
  assert (val base k = semval curr) as Ev by (unfold val; by rewrite Hc).
  assert (exists v', vrun (Some adj) sops (val base) = inl v') as [v' Er].
  { assert (forall v, v = semval curr \/ v = semval curr - d -> 0 <= v <= SEMVMX) as Hr by lia.
    subst sops. cbn [vrun]. unfold SEMAEM, SEMVMX in *.
    rewrite !sop_exit_None; [by eexists|..]; unfold upd; cbn -[Z.pow]; rewrite ?Z.eqb_refl; unfold SEMAEM, SEMVMX; done || lia. }
  destruct (try_atomic_semop base sops (Some adj) pid) as [[[r base'] semadj']|]; [|done].
  cbn [wp] in H. rewrite Er in H. destruct H as (-> & _ & Hval & Haft). destruct semadj' as [adj'|]; [|done].
  destruct Haft as (_ & _ & Haft). exists base', adj'. split; [done|].
  split; [rewrite Hval, (proj1 (vrun_values _ _ _ _ Er)), Ev; subst sops; simpl; rewrite Z.eqb_refl; lia|].
  assert (undo_sum sops k = - (2 * d)) as Eu.
  { subst sops. rewrite !undo_sum_cons. change (undo_sum [] k) with 0. simpl. rewrite Z.eqb_refl. simpl. lia. }
  rewrite Haft, Eu by lia. unfold s16, SEMAEM, SEMVMX in *.
  rewrite <- (Z.mod_unique_pos _ (2 ^ 16) 1 (zth adj k + 2 * d - 2 ^ 15)) by lia. lia.
Qed.
