(* ===== verification/Cipher.v ===== *)
(** * Block ciphers

    The interface between a block cipher and its users
    ([struct cipher_alg] of [include/linux/crypto.h]: [cia_encrypt] and
    [cia_decrypt] on one block of [cra_blocksize] bytes) and what a user may
    rely on.  The ciphers provide instances, the modes of operation are proved
    against the class. *)

From S2P Require Import Prelude Bytes.
Open Scope c_scope.

(** [cia_encrypt tfm dst src] reads the block at [src] and then writes the
    block at [dst]; the function maps one to the other.  [cia_setkey] gives the
    context it fills in. *)
Record crypto_alg := CryptoAlg {
  cra_blocksize : nat;
  cia_min_keysize : nat;
  cia_max_keysize : nat;
  cra_ctx : Type;
  cia_setkey : list Z -> option cra_ctx;
  cia_encrypt : cra_ctx -> list Z -> option (list Z);
  cia_decrypt : cra_ctx -> list Z -> option (list Z)
}.

(** Every key of an admitted size gives a context under which both directions
    are defined on every block and inverse to each other. *)
Class CipherLaws (alg : crypto_alg) (ctx_wf : cra_ctx alg -> Prop) : Prop := {
  blocksize_pos : (0 < cra_blocksize alg)%nat;
  setkey_law n key : block n key -> (cia_min_keysize alg <= n <= cia_max_keysize alg)%nat ->
    exists c, cia_setkey alg key = Some c /\ ctx_wf c;
  encrypt_law c b : ctx_wf c -> block (cra_blocksize alg) b -> exists b',
    cia_encrypt alg c b = Some b' /\ block (cra_blocksize alg) b' /\ cia_decrypt alg c b' = Some b;
  decrypt_law c b : ctx_wf c -> block (cra_blocksize alg) b -> exists b',
    cia_decrypt alg c b = Some b' /\ block (cra_blocksize alg) b' /\ cia_encrypt alg c b' = Some b
}.
