(* ===== verification/Tea.v ===== *)
(** * TEA, XTEA and XETA

    [crypto/tea.c]: the three ciphers on blocks of two 32-bit words.  Loops
    run in the option monad with fuel 33, one more than the 32 rounds. *)

From S2P Require Import Prelude Bytes Cipher.
Open Scope c_scope.

Definition TEA_ROUNDS : Z := 32.
Definition TEA_DELTA : Z := 0x9e3779b9.
Definition XTEA_ROUNDS : Z := 32.
Definition XTEA_DELTA : Z := 0x9e3779b9.

Record tea_ctx := TeaCtx { KEY : list Z }.

Definition tea_setkey (in_key : list Z) : option tea_ctx :=
  k0 ← get_le32 in_key 0;
  k1 ← get_le32 in_key 4;
  k2 ← get_le32 in_key 8;
  k3 ← get_le32 in_key 12;
  Some (TeaCtx [k0; k1; k2; k3]).

(** The bodies of the loops: the state is [n], [y], [z] and [sum]. *)
Definition tea_encrypt_step (k0 k1 k2 k3 : Z) (st : Z * Z * Z * Z)
    : option (Z * Z * Z * Z + Z * Z) :=
  let '(n, y, z, sum) := st in
  if 0 <? n then
    let sum := u32 (sum + TEA_DELTA) in
    let y := u32 (y + (u32 ((z .<< 4) + k0) .^ u32 (z + sum) .^ u32 ((z .>> 5) + k1))) in
    let z := u32 (z + (u32 ((y .<< 4) + k2) .^ u32 (y + sum) .^ u32 ((y .>> 5) + k3))) in
    Some (inl (n - 1, y, z, sum))
  else Some (inr (y, z)).

Definition tea_decrypt_step (k0 k1 k2 k3 : Z) (st : Z * Z * Z * Z)
    : option (Z * Z * Z * Z + Z * Z) :=
  let '(n, y, z, sum) := st in
  if 0 <? n then
    let z := u32 (z - (u32 ((y .<< 4) + k2) .^ u32 (y + sum) .^ u32 ((y .>> 5) + k3))) in
    let y := u32 (y - (u32 ((z .<< 4) + k0) .^ u32 (z + sum) .^ u32 ((z .>> 5) + k1))) in
    let sum := u32 (sum - TEA_DELTA) in
    Some (inl (n - 1, y, z, sum))
  else Some (inr (y, z)).

Definition tea_encrypt (ctx : tea_ctx) (src : list Z) : option (list Z) :=
  y ← get_le32 src 0;
  z ← get_le32 src 4;
  k0 ← arr_get (KEY ctx) 0;
  k1 ← arr_get (KEY ctx) 1;
  k2 ← arr_get (KEY ctx) 2;
  k3 ← arr_get (KEY ctx) 3;
  '(y, z) ← c_loop 33 (tea_encrypt_step k0 k1 k2 k3) (TEA_ROUNDS, y, z, 0);
  Some (le32_bytes y ++ le32_bytes z).

Definition tea_decrypt (ctx : tea_ctx) (src : list Z) : option (list Z) :=
  y ← get_le32 src 0;
  z ← get_le32 src 4;
  k0 ← arr_get (KEY ctx) 0;
  k1 ← arr_get (KEY ctx) 1;
  k2 ← arr_get (KEY ctx) 2;
  k3 ← arr_get (KEY ctx) 3;
  '(y, z) ← c_loop 33 (tea_decrypt_step k0 k1 k2 k3) (TEA_ROUNDS, y, z, TEA_DELTA .<< 5);
  Some (le32_bytes y ++ le32_bytes z).

Definition xtea_setkey := tea_setkey.

Definition xtea_encrypt_step (ctx : tea_ctx) (st : Z * Z * Z) : option (Z * Z * Z + Z * Z) :=
  let '(y, z, sum) := st in
  let limit := u32 (XTEA_DELTA * XTEA_ROUNDS) in
  if negb (sum =? limit) then
    k ← arr_get (KEY ctx) (sum .& 3);
    let y := u32 (y + (u32 (((z .<< 4) .^ (z .>> 5)) + z) .^ u32 (sum + k))) in
    let sum := u32 (sum + XTEA_DELTA) in
    k ← arr_get (KEY ctx) ((sum .>> 11) .& 3);
    let z := u32 (z + (u32 (((y .<< 4) .^ (y .>> 5)) + y) .^ u32 (sum + k))) in
    Some (inl (y, z, sum))
  else Some (inr (y, z)).

Definition xtea_encrypt (ctx : tea_ctx) (src : list Z) : option (list Z) :=
  y ← get_le32 src 0;
  z ← get_le32 src 4;
  '(y, z) ← c_loop 33 (xtea_encrypt_step ctx) (y, z, 0);
  Some (le32_bytes y ++ le32_bytes z).

Definition xtea_decrypt_step (ctx : tea_ctx) (st : Z * Z * Z) : option (Z * Z * Z + Z * Z) :=
  let '(y, z, sum) := st in
  if truthy sum then
    k ← arr_get (KEY ctx) ((sum .>> 11) .& 3);
    let z := u32 (z - (u32 (((y .<< 4) .^ (y .>> 5)) + y) .^ u32 (sum + k))) in
    let sum := u32 (sum - XTEA_DELTA) in
    k ← arr_get (KEY ctx) (sum .& 3);
    let y := u32 (y - (u32 (((z .<< 4) .^ (z .>> 5)) + z) .^ u32 (sum + k))) in
    Some (inl (y, z, sum))
  else Some (inr (y, z)).

Definition xtea_decrypt (ctx : tea_ctx) (src : list Z) : option (list Z) :=
  y ← get_le32 src 0;
  z ← get_le32 src 4;
  '(y, z) ← c_loop 33 (xtea_decrypt_step ctx) (y, z, u32 (XTEA_DELTA * XTEA_ROUNDS));
  Some (le32_bytes y ++ le32_bytes z).

Definition xeta_encrypt_step (ctx : tea_ctx) (st : Z * Z * Z) : option (Z * Z * Z + Z * Z) :=
  let '(y, z, sum) := st in
  let limit := u32 (XTEA_DELTA * XTEA_ROUNDS) in
  if negb (sum =? limit) then
    k ← arr_get (KEY ctx) (sum .& 3);
    let y := u32 (y + (((z .<< 4) .^ (z .>> 5)) + (z .^ sum) + k)) in
    let sum := u32 (sum + XTEA_DELTA) in
    k ← arr_get (KEY ctx) ((sum .>> 11) .& 3);
    let z := u32 (z + (((y .<< 4) .^ (y .>> 5)) + (y .^ sum) + k)) in
    Some (inl (y, z, sum))
  else Some (inr (y, z)).

Definition xeta_encrypt (ctx : tea_ctx) (src : list Z) : option (list Z) :=
  y ← get_le32 src 0;
  z ← get_le32 src 4;
  '(y, z) ← c_loop 33 (xeta_encrypt_step ctx) (y, z, 0);
  Some (le32_bytes y ++ le32_bytes z).

Definition xeta_decrypt_step (ctx : tea_ctx) (st : Z * Z * Z) : option (Z * Z * Z + Z * Z) :=
  let '(y, z, sum) := st in
  if truthy sum then
    k ← arr_get (KEY ctx) ((sum .>> 11) .& 3);
    let z := u32 (z - (((y .<< 4) .^ (y .>> 5)) + (y .^ sum) + k)) in
    let sum := u32 (sum - XTEA_DELTA) in
    k ← arr_get (KEY ctx) (sum .& 3);
    let y := u32 (y - (((z .<< 4) .^ (z .>> 5)) + (z .^ sum) + k)) in
    Some (inl (y, z, sum))
  else Some (inr (y, z)).

Definition xeta_decrypt (ctx : tea_ctx) (src : list Z) : option (list Z) :=
  y ← get_le32 src 0;
  z ← get_le32 src 4;
  '(y, z) ← c_loop 33 (xeta_decrypt_step ctx) (y, z, u32 (XTEA_DELTA * XTEA_ROUNDS));
  Some (le32_bytes y ++ le32_bytes z).

Definition tea_alg : crypto_alg := CryptoAlg 8 16 16 tea_ctx tea_setkey tea_encrypt tea_decrypt.
Definition xtea_alg : crypto_alg := CryptoAlg 8 16 16 tea_ctx xtea_setkey xtea_encrypt xtea_decrypt.
Definition xeta_alg : crypto_alg := CryptoAlg 8 16 16 tea_ctx xtea_setkey xeta_encrypt xeta_decrypt.

(** ** Rounds

    All three ciphers add to each half a function of the other half and of the
    running sum; the sum advances between the two additions. *)

Lemma u32_add_l x y : u32 (u32 x + y) = u32 (x + y).
Proof. apply Zplus_mod_idemp_l. Qed.
Lemma u32_sub_l x y : u32 (u32 x - y) = u32 (x - y).
Proof. apply Zminus_mod_idemp_l. Qed.

Section rounds.
Context (f g : Z -> Z -> Z).

Definition round (s : Z) (yz : Z * Z) : Z * Z :=
  let y := u32 (fst yz + f s (snd yz)) in
  let s := u32 (s + TEA_DELTA) in
  (y, u32 (snd yz + g s y)).

Definition unround (s : Z) (yz : Z * Z) : Z * Z :=
  let z := u32 (snd yz - g s (fst yz)) in
  let s := u32 (s - TEA_DELTA) in
  (u32 (fst yz - f s z), z).

Definition half_ok (yz : Z * Z) : Prop := is_u32 (fst yz) /\ is_u32 (snd yz).

Lemma u32_add_sub x y : is_u32 x -> u32 (u32 (x + y) - y) = x.
Proof. intros Hx. rewrite u32_sub_l. replace (x + y - y) with x by lia. by apply u32_small. Qed.
Lemma u32_sub_add x y : is_u32 x -> u32 (u32 (x - y) + y) = x.
Proof. intros Hx. rewrite u32_add_l. replace (x - y + y) with x by lia. by apply u32_small. Qed.

Lemma round_ok s yz : half_ok (round s yz).
Proof. split; apply u32_range. Qed.
Lemma unround_ok s yz : half_ok (unround s yz).
Proof. split; apply u32_range. Qed.

Lemma unround_round s yz : is_u32 s -> half_ok yz -> unround (u32 (s + TEA_DELTA)) (round s yz) = yz.
Proof.
  intros Hs [Hy Hz]. destruct yz as [y z]. unfold unround, round. simpl in *.
  by rewrite (u32_add_sub s), (u32_add_sub z), u32_add_sub.
Qed.

Lemma round_unround s yz : is_u32 s -> half_ok yz -> round (u32 (s - TEA_DELTA)) (unround s yz) = yz.
Proof.
  intros Hs [Hy Hz]. destruct yz as [y z]. unfold unround, round. simpl in *.
  by rewrite (u32_sub_add s), (u32_sub_add y), u32_sub_add.
Qed.

(** [n] rounds up from sum [s], and [n] rounds down from sum [s]. *)
Fixpoint rounds (n : nat) (s : Z) (yz : Z * Z) : Z * Z :=
  match n with O => yz | S n => rounds n (u32 (s + TEA_DELTA)) (round s yz) end.
Fixpoint unrounds (n : nat) (s : Z) (yz : Z * Z) : Z * Z :=
  match n with O => yz | S n => unrounds n (u32 (s - TEA_DELTA)) (unround s yz) end.

(** The sum after [n] steps up. *)
Definition sum_up (s : Z) (n : nat) : Z := u32 (s + Z.of_nat n * TEA_DELTA).

Lemma sum_up_S s n : sum_up s (S n) = u32 (sum_up s n + TEA_DELTA).
Proof. unfold sum_up. rewrite u32_add_l. f_equal. lia. Qed.
Lemma sum_up_next s n : sum_up (u32 (s + TEA_DELTA)) n = sum_up s (S n).
Proof. unfold sum_up. rewrite u32_add_l. f_equal. lia. Qed.
Lemma sum_up_prev s n : u32 (sum_up s (S n) - TEA_DELTA) = sum_up s n.
Proof. rewrite sum_up_S. apply u32_add_sub, u32_range. Qed.

Lemma rounds_snoc n s yz : is_u32 s -> rounds (S n) s yz = round (sum_up s n) (rounds n s yz).
Proof.
  revert s yz. induction n as [|n IH]; intros s yz Hs.
  - simpl. unfold sum_up. rewrite Z.add_0_r. by rewrite u32_small.
  - change (rounds (S (S n)) s yz) with (rounds (S n) (u32 (s + TEA_DELTA)) (round s yz)).
    rewrite IH by apply u32_range. by rewrite sum_up_next.
Qed.

Lemma rounds_ok n s yz : half_ok yz -> half_ok (rounds n s yz).
Proof. revert s yz. induction n as [|n IH]; intros s yz H; [done|]. apply IH, round_ok. Qed.
Lemma unrounds_ok n s yz : half_ok yz -> half_ok (unrounds n s yz).
Proof. revert s yz. induction n as [|n IH]; intros s yz H; [done|]. apply IH, unround_ok. Qed.

Lemma unrounds_rounds n s yz : is_u32 s -> half_ok yz -> unrounds n (sum_up s n) (rounds n s yz) = yz.
Proof.
  intros Hs. revert yz. induction n as [|n IH]; intros yz Hyz; [done|].
  rewrite rounds_snoc by done. cbn [unrounds].
  rewrite sum_up_prev, sum_up_S, unround_round; [by apply IH | apply u32_range | by apply rounds_ok].
Qed.

Lemma rounds_unrounds n s yz : is_u32 s -> half_ok yz -> rounds n s (unrounds n (sum_up s n) yz) = yz.
Proof.
  intros Hs. revert yz. induction n as [|n IH]; intros yz Hyz; [done|].
  rewrite rounds_snoc by done. cbn [unrounds].
  rewrite sum_up_prev, IH by apply unround_ok.
  rewrite <- (sum_up_prev s n) at 1. apply round_unround; [apply u32_range | done].
Qed.

(** Loops that count the rounds. *)
Lemma count_loop_up body :
  (forall n y z s, is_u32 s -> body (n, y, z, s) =
     if 0 <? n then
       let yz := round s (y, z) in Some (inl (n - 1, fst yz, snd yz, u32 (s + TEA_DELTA)))
     else Some (inr (y, z))) ->
  forall n fuel y z s, is_u32 s -> (n < fuel)%nat ->
  c_loop fuel body (Z.of_nat n, y, z, s) = Some (rounds n s (y, z)).
Proof.
  intros Hb n. induction n as [|n IH]; intros fuel y z s Hs Hf; destruct fuel as [|fuel]; try lia;
    cbn [c_loop]; rewrite Hb by done.
  - done.
  - rewrite (proj2 (Z.ltb_lt _ _)) by lia. cbv zeta. replace (Z.of_nat (S n) - 1) with (Z.of_nat n) by lia.
    rewrite IH by first [apply u32_range | lia]. cbn [rounds]. by rewrite <- surjective_pairing.
Qed.

Lemma count_loop_down body :
  (forall n y z s, is_u32 s -> body (n, y, z, s) =
     if 0 <? n then
       let yz := unround s (y, z) in Some (inl (n - 1, fst yz, snd yz, u32 (s - TEA_DELTA)))
     else Some (inr (y, z))) ->
  forall n fuel y z s, is_u32 s -> (n < fuel)%nat ->
  c_loop fuel body (Z.of_nat n, y, z, s) = Some (unrounds n s (y, z)).
Proof.
  intros Hb n. induction n as [|n IH]; intros fuel y z s Hs Hf; destruct fuel as [|fuel]; try lia;
    cbn [c_loop]; rewrite Hb by done.
  - done.
  - rewrite (proj2 (Z.ltb_lt _ _)) by lia. cbv zeta. replace (Z.of_nat (S n) - 1) with (Z.of_nat n) by lia.
    rewrite IH by first [apply u32_range | lia]. cbn [unrounds]. by rewrite <- surjective_pairing.
Qed.

(** Loops that stop at a value of the sum. *)
Lemma sum_loop_up body limit :
  (forall y z s, is_u32 s -> body (y, z, s) =
     if negb (s =? limit) then
       let yz := round s (y, z) in Some (inl (fst yz, snd yz, u32 (s + TEA_DELTA)))
     else Some (inr (y, z))) ->
  forall n fuel y z s, is_u32 s -> (n < fuel)%nat -> sum_up s n = limit ->
  (forall i, (i < n)%nat -> sum_up s i <> limit) ->
  c_loop fuel body (y, z, s) = Some (rounds n s (y, z)).
Proof.
  intros Hb n. induction n as [|n IH]; intros fuel y z s Hs Hf Hl Hne; destruct fuel as [|fuel]; try lia;
    cbn [c_loop]; rewrite Hb by done.
  - unfold sum_up in Hl. rewrite Z.add_0_r, u32_small in Hl by done. by rewrite Hl, Z.eqb_refl.
  - pose proof (Hne 0%nat ltac:(lia)) as H0. unfold sum_up in H0. rewrite Z.add_0_r, u32_small in H0 by done.
    rewrite (proj2 (Z.eqb_neq _ _) H0). cbn [negb]. cbv zeta. rewrite IH.
    + cbn [rounds]. by rewrite <- surjective_pairing.
    + apply u32_range.
    + lia.
    + by rewrite sum_up_next.
    + intros i Hi. rewrite sum_up_next. apply Hne. lia.
Qed.

Lemma sum_loop_down body s0 : is_u32 s0 ->
  (forall y z s, is_u32 s -> body (y, z, s) =
     if negb (s =? s0) then
       let yz := unround s (y, z) in Some (inl (fst yz, snd yz, u32 (s - TEA_DELTA)))
     else Some (inr (y, z))) ->
  forall n fuel y z, (n < fuel)%nat -> (forall i, (0 < i <= n)%nat -> sum_up s0 i <> s0) ->
  c_loop fuel body (y, z, sum_up s0 n) = Some (unrounds n (sum_up s0 n) (y, z)).
Proof.
  intros Hs0 Hb n. induction n as [|n IH]; intros fuel y z Hf Hne; destruct fuel as [|fuel]; try lia;
    cbn [c_loop]; rewrite Hb by apply u32_range.
  - unfold sum_up. rewrite Z.add_0_r, u32_small by done. by rewrite Z.eqb_refl.
  - rewrite (proj2 (Z.eqb_neq _ _)) by (apply Hne; lia). cbn [negb]. cbv zeta.
    rewrite sum_up_prev, IH by first [lia | intros i Hi; apply Hne; lia].
    cbn [unrounds]. by rewrite sum_up_prev, <- surjective_pairing.
Qed.
End rounds.

(** ** The ciphers *)

Definition key_wf (c : tea_ctx) : Prop := length (KEY c) = 4%nat /\ Forall is_u32 (KEY c).

Lemma get_le32_word0 y rest : is_u32 y -> get_le32 (le32_bytes y ++ rest) 0 = Some y.
Proof. intros. by apply (get_le32_off [] y rest). Qed.
Lemma get_le32_word1 y z rest : is_u32 z -> get_le32 (le32_bytes y ++ le32_bytes z ++ rest) 4 = Some z.
Proof. intros. by apply (get_le32_off (le32_bytes y) z rest). Qed.

(** A block is two words. *)
Definition tea_block (yz : Z * Z) : list Z := le32_bytes (fst yz) ++ le32_bytes (snd yz).

Lemma tea_block_words b : block 8 b -> exists yz, half_ok yz /\ b = tea_block yz.
Proof.
  intros (ws & Hl & Hw & ->)%(block_words 2). destruct ws as [|y [|z [|]]]; try done.
  rewrite !Forall_cons_iff in Hw. exists (y, z). split; [split; simpl; tauto | done].
Qed.
Lemma tea_block_ok yz : block 8 (tea_block yz).
Proof. split; [done|]. apply Forall_app. split; apply le32_bytes_byte. Qed.

Lemma tea_block_get yz : half_ok yz ->
  get_le32 (tea_block yz) 0 = Some (fst yz) /\ get_le32 (tea_block yz) 4 = Some (snd yz).
Proof.
  intros [Hy Hz]. split; [by apply get_le32_word0|].
  unfold tea_block. rewrite <- (app_nil_r (le32_bytes (snd yz))). by apply get_le32_word1.
Qed.

Definition tea_f (c : tea_ctx) (s z : Z) : Z :=
  let sum := u32 (s + TEA_DELTA) in
  u32 ((z .<< 4) + zth (KEY c) 0) .^ u32 (z + sum) .^ u32 ((z .>> 5) + zth (KEY c) 1).
Definition tea_g (c : tea_ctx) (s y : Z) : Z :=
  u32 ((y .<< 4) + zth (KEY c) 2) .^ u32 (y + s) .^ u32 ((y .>> 5) + zth (KEY c) 3).

Lemma key_get c i : key_wf c -> 0 <= i < 4 -> arr_get (KEY c) i = Some (zth (KEY c) i).
Proof. intros [Hl _] Hi. apply arr_get_zth. rewrite Hl. lia. Qed.

Lemma tea_start : TEA_DELTA .<< 5 = sum_up 0 32.
Proof. reflexivity. Qed.
Lemma xtea_start : u32 (XTEA_DELTA * XTEA_ROUNDS) = sum_up 0 32.
Proof. reflexivity. Qed.

Lemma tea_encrypt_loop c src y z k0 k1 k2 k3 r :
  get_le32 src 0 = Some y -> get_le32 src 4 = Some z ->
  arr_get (KEY c) 0 = Some k0 -> arr_get (KEY c) 1 = Some k1 ->
  arr_get (KEY c) 2 = Some k2 -> arr_get (KEY c) 3 = Some k3 ->
  c_loop 33 (tea_encrypt_step k0 k1 k2 k3) (TEA_ROUNDS, y, z, 0) = Some r ->
  tea_encrypt c src = Some (tea_block r).
Proof.
  intros E1 E2 K0 K1 K2 K3 Hl. unfold tea_encrypt.
  rewrite E1, bind_Some_eq, E2, bind_Some_eq, K0, bind_Some_eq, K1, bind_Some_eq, K2, bind_Some_eq, K3, bind_Some_eq,
    Hl, bind_Some_eq. by destruct r.
Qed.

Lemma tea_decrypt_loop c src y z k0 k1 k2 k3 r :
  get_le32 src 0 = Some y -> get_le32 src 4 = Some z ->
  arr_get (KEY c) 0 = Some k0 -> arr_get (KEY c) 1 = Some k1 ->
  arr_get (KEY c) 2 = Some k2 -> arr_get (KEY c) 3 = Some k3 ->
  c_loop 33 (tea_decrypt_step k0 k1 k2 k3) (TEA_ROUNDS, y, z, TEA_DELTA .<< 5) = Some r ->
  tea_decrypt c src = Some (tea_block r).
Proof.
  intros E1 E2 K0 K1 K2 K3 Hl. unfold tea_decrypt.
  rewrite E1, bind_Some_eq, E2, bind_Some_eq, K0, bind_Some_eq, K1, bind_Some_eq, K2, bind_Some_eq, K3, bind_Some_eq,
    Hl, bind_Some_eq. by destruct r.
Qed.

Lemma tea_encrypt_rounds c yz : key_wf c -> half_ok yz ->
  tea_encrypt c (tea_block yz) = Some (tea_block (rounds (tea_f c) (tea_g c) 32 0 yz)).
Proof.
  intros Hk Hyz. destruct (tea_block_get yz Hyz) as [E1 E2].
  eapply tea_encrypt_loop; [exact E1 | exact E2 | apply key_get; (assumption || lia)..|].
  rewrite (surjective_pairing yz) at 3. apply (count_loop_up (tea_f c) (tea_g c) _) with (n := 32%nat).
  - intros n y z s Hs. unfold tea_encrypt_step, round, tea_f, tea_g. cbn [fst snd]. cbv zeta. reflexivity.
  - done.
  - lia.
Qed.

Lemma tea_decrypt_rounds c yz : key_wf c -> half_ok yz ->
  tea_decrypt c (tea_block yz) = Some (tea_block (unrounds (tea_f c) (tea_g c) 32 (sum_up 0 32) yz)).
Proof.
  intros Hk Hyz. destruct (tea_block_get yz Hyz) as [E1 E2].
  eapply tea_decrypt_loop; [exact E1 | exact E2 | apply key_get; (assumption || lia)..|]. rewrite tea_start.
  rewrite (surjective_pairing yz) at 3. apply (count_loop_down (tea_f c) (tea_g c) _) with (n := 32%nat).
  - intros n y z s Hs. unfold tea_decrypt_step, unround, tea_f, tea_g. cbn [fst snd]. cbv zeta.
    rewrite u32_sub_add by done. reflexivity.
  - apply u32_range.
  - lia.
Qed.

(** XTEA and XETA select the key word by bits of the sum. *)
Definition xtea_f (c : tea_ctx) (s z : Z) : Z :=
  u32 (((z .<< 4) .^ (z .>> 5)) + z) .^ u32 (s + zth (KEY c) (s .& 3)).
Definition xtea_g (c : tea_ctx) (s y : Z) : Z :=
  u32 (((y .<< 4) .^ (y .>> 5)) + y) .^ u32 (s + zth (KEY c) ((s .>> 11) .& 3)).
Definition xeta_f (c : tea_ctx) (s z : Z) : Z :=
  ((z .<< 4) .^ (z .>> 5)) + (z .^ s) + zth (KEY c) (s .& 3).
Definition xeta_g (c : tea_ctx) (s y : Z) : Z :=
  ((y .<< 4) .^ (y .>> 5)) + (y .^ s) + zth (KEY c) ((s .>> 11) .& 3).

Lemma key_select c x : key_wf c -> arr_get (KEY c) (x .& 3) = Some (zth (KEY c) (x .& 3)).
Proof.
  intros Hk. apply key_get; [done|]. change 3 with (Z.ones 2). rewrite Z.land_ones by lia.
  by apply Z.mod_pos_bound.
Qed.

(** The sums of the 32 rounds differ from the start and from the limit. *)
Lemma sums_distinct i : (0 < i < 32)%nat -> sum_up 0 i <> 0 /\ sum_up 0 i <> u32 (XTEA_DELTA * XTEA_ROUNDS).
Proof.
  intros Hi. assert (forallb (fun i => negb (sum_up 0 i =? 0) && negb (sum_up 0 i =? u32 (XTEA_DELTA * XTEA_ROUNDS)))
    (seq 1 31) = true) as H by (vm_compute; reflexivity).
  rewrite forallb_forall in H. specialize (H i). rewrite andb_true_iff, !negb_true_iff, !Z.eqb_neq in H.
  apply H, in_seq. lia.
Qed.

Section xtea.
Context (f g : Z -> Z -> Z).

Lemma xloop_up body yz :
  (forall y z s, is_u32 s -> body (y, z, s) =
     if negb (s =? u32 (XTEA_DELTA * XTEA_ROUNDS)) then
       let yz := round f g s (y, z) in Some (inl (fst yz, snd yz, u32 (s + TEA_DELTA)))
     else Some (inr (y, z))) ->
  c_loop 33 body (fst yz, snd yz, 0) = Some (rounds f g 32 0 yz).
Proof.
  intros Hb. rewrite (surjective_pairing yz) at 3. apply (sum_loop_up f g body _ Hb 32).
  - done.
  - lia.
  - done.
  - intros i Hi. destruct i as [|i]; [done|]. apply sums_distinct. lia.
Qed.

Lemma xloop_down body yz :
  (forall y z s, is_u32 s -> body (y, z, s) =
     if truthy s then
       let yz := unround f g s (y, z) in Some (inl (fst yz, snd yz, u32 (s - TEA_DELTA)))
     else Some (inr (y, z))) ->
  c_loop 33 body (fst yz, snd yz, u32 (XTEA_DELTA * XTEA_ROUNDS)) = Some (unrounds f g 32 (sum_up 0 32) yz).
Proof.
  intros Hb. rewrite xtea_start, (surjective_pairing yz) at 1. apply (sum_loop_down f g body 0).
  - done.
  - exact Hb.
  - lia.
  - intros i Hi. destruct (decide (i = 32%nat)) as [->|]; [done|]. apply sums_distinct. lia.
Qed.
End xtea.

(** A cipher that reads two words, runs [run] on them and writes the result. *)
Lemma two_word_run yz (run : Z -> Z -> option (Z * Z)) r : half_ok yz -> run (fst yz) (snd yz) = Some r ->
  (y ← get_le32 (tea_block yz) 0; z ← get_le32 (tea_block yz) 4;
   '(y, z) ← run y z; Some (le32_bytes y ++ le32_bytes z)) = Some (tea_block r).
Proof.
  intros Hyz Hr. destruct (tea_block_get yz Hyz) as [E1 E2].
  rewrite E1, bind_Some_eq, E2, bind_Some_eq, Hr, bind_Some_eq. by destruct r.
Qed.

Lemma xtea_encrypt_rounds c yz : key_wf c -> half_ok yz ->
  xtea_encrypt c (tea_block yz) = Some (tea_block (rounds (xtea_f c) (xtea_g c) 32 0 yz)).
Proof.
  intros Hk Hyz. apply (two_word_run _ (fun y z => c_loop 33 (xtea_encrypt_step c) (y, z, 0))); [done|].
  apply (xloop_up (xtea_f c) (xtea_g c)). intros y z s Hs. unfold xtea_encrypt_step. cbv zeta.
  rewrite !key_select, !bind_Some_eq by done. unfold round, xtea_f, xtea_g. cbn [fst snd]. cbv zeta. reflexivity.
Qed.

Lemma xtea_decrypt_rounds c yz : key_wf c -> half_ok yz ->
  xtea_decrypt c (tea_block yz) = Some (tea_block (unrounds (xtea_f c) (xtea_g c) 32 (sum_up 0 32) yz)).
Proof.
  intros Hk Hyz. apply (two_word_run _ (fun y z => c_loop 33 (xtea_decrypt_step c) (y, z, u32 (XTEA_DELTA * XTEA_ROUNDS)))); [done|].
  apply (xloop_down (xtea_f c) (xtea_g c)). intros y z s Hs. unfold xtea_decrypt_step. cbv zeta.
  rewrite !key_select, !bind_Some_eq by done. unfold unround, xtea_f, xtea_g. cbn [fst snd]. cbv zeta. reflexivity.
Qed.

Lemma xeta_encrypt_rounds c yz : key_wf c -> half_ok yz ->
  xeta_encrypt c (tea_block yz) = Some (tea_block (rounds (xeta_f c) (xeta_g c) 32 0 yz)).
Proof.
  intros Hk Hyz. apply (two_word_run _ (fun y z => c_loop 33 (xeta_encrypt_step c) (y, z, 0))); [done|].
  apply (xloop_up (xeta_f c) (xeta_g c)). intros y z s Hs. unfold xeta_encrypt_step. cbv zeta.
  rewrite !key_select, !bind_Some_eq by done. unfold round, xeta_f, xeta_g. cbn [fst snd]. cbv zeta. reflexivity.
Qed.

Lemma xeta_decrypt_rounds c yz : key_wf c -> half_ok yz ->
  xeta_decrypt c (tea_block yz) = Some (tea_block (unrounds (xeta_f c) (xeta_g c) 32 (sum_up 0 32) yz)).
Proof.
  intros Hk Hyz. apply (two_word_run _ (fun y z => c_loop 33 (xeta_decrypt_step c) (y, z, u32 (XTEA_DELTA * XTEA_ROUNDS)))); [done|].
  apply (xloop_down (xeta_f c) (xeta_g c)). intros y z s Hs. unfold xeta_decrypt_step. cbv zeta.
  rewrite !key_select, !bind_Some_eq by done. unfold unround, xeta_f, xeta_g. cbn [fst snd]. cbv zeta. reflexivity.
Qed.

(** ** The laws of the interface *)

Lemma tea_setkey_ok key : block 16 key -> exists c, tea_setkey key = Some c /\ key_wf c.
Proof.
  intros (ws & Hl & Hw & ->)%(block_words 4). destruct ws as [|k0 [|k1 [|k2 [|k3 [|]]]]]; try done.
  exists (TeaCtx [k0; k1; k2; k3]). split; [|done]. unfold tea_setkey.
  rewrite (get_le32_words _ 0 k0 0), bind_Some_eq, (get_le32_words _ 1 k1 4), bind_Some_eq by done.
  by rewrite (get_le32_words _ 2 k2 8), bind_Some_eq, (get_le32_words _ 3 k3 12), bind_Some_eq.
Qed.

(** A cipher given by a pair of inverse maps of the two words. *)
Lemma two_word_laws (alg : crypto_alg) (wf : cra_ctx alg -> Prop) (F G : cra_ctx alg -> Z * Z -> Z * Z) :
  cra_blocksize alg = 8%nat -> cia_min_keysize alg = 16%nat -> cia_max_keysize alg = 16%nat ->
  (forall key, block 16 key -> exists c, cia_setkey alg key = Some c /\ wf c) ->
  (forall c yz, wf c -> half_ok yz -> cia_encrypt alg c (tea_block yz) = Some (tea_block (F c yz)) /\
     half_ok (F c yz) /\ G c (F c yz) = yz) ->
  (forall c yz, wf c -> half_ok yz -> cia_decrypt alg c (tea_block yz) = Some (tea_block (G c yz)) /\
     half_ok (G c yz) /\ F c (G c yz) = yz) ->
  CipherLaws alg wf.
Proof.
  intros Hb Hmin Hmax Hk HF HG. split; rewrite ?Hb.
  - lia.
  - intros n key Hkey Hn. replace n with 16%nat in Hkey by lia. by apply Hk.
  - intros c b Hc (yz & Hyz & ->)%tea_block_words. destruct (HF c yz Hc Hyz) as (E & Hok & Hinv).
    exists (tea_block (F c yz)). split; [done|]. split; [apply tea_block_ok|].
    rewrite (proj1 (HG c (F c yz) Hc Hok)). by rewrite Hinv.
  - intros c b Hc (yz & Hyz & ->)%tea_block_words. destruct (HG c yz Hc Hyz) as (E & Hok & Hinv).
    exists (tea_block (G c yz)). split; [done|]. split; [apply tea_block_ok|].
    rewrite (proj1 (HF c (G c yz) Hc Hok)). by rewrite Hinv.
Qed.

(** The maps of the three ciphers are 32 rounds up and 32 rounds down. *)
Lemma rounds_laws (f g : tea_ctx -> Z -> Z -> Z) enc dec :
  (forall c yz, key_wf c -> half_ok yz -> enc c (tea_block yz) = Some (tea_block (rounds (f c) (g c) 32 0 yz))) ->
  (forall c yz, key_wf c -> half_ok yz ->
     dec c (tea_block yz) = Some (tea_block (unrounds (f c) (g c) 32 (sum_up 0 32) yz))) ->
  CipherLaws (CryptoAlg 8 16 16 tea_ctx tea_setkey enc dec) key_wf.
Proof.
  intros He Hd. apply (two_word_laws (CryptoAlg 8 16 16 tea_ctx tea_setkey enc dec) key_wf (fun c => rounds (f c) (g c) 32 0)
    (fun c => unrounds (f c) (g c) 32 (sum_up 0 32))); try done.
  - apply tea_setkey_ok.
  - intros c yz Hc Hyz. split; [by apply He|]. split; [by apply rounds_ok|]. by apply unrounds_rounds.
  - intros c yz Hc Hyz. split; [by apply Hd|]. split; [by apply unrounds_ok|]. by apply rounds_unrounds.
Qed.

#[export] Instance tea_laws : CipherLaws tea_alg key_wf := rounds_laws _ _ _ _ tea_encrypt_rounds tea_decrypt_rounds.
#[export] Instance xtea_laws : CipherLaws xtea_alg key_wf := rounds_laws _ _ _ _ xtea_encrypt_rounds xtea_decrypt_rounds.
#[export] Instance xeta_laws : CipherLaws xeta_alg key_wf := rounds_laws _ _ _ _ xeta_encrypt_rounds xeta_decrypt_rounds.

(** ** Property *)

(** C32: for every key of 16 bytes, each of TEA, XTEA and XETA terminates on
    every block of 8 bytes in both directions; decryption undoes encryption
    and encryption undoes decryption. *)
Theorem tea_family_inverse alg key b : alg = tea_alg \/ alg = xtea_alg \/ alg = xeta_alg ->
  block 16 key -> block 8 b -> exists c, cia_setkey alg key = Some c /\
    (exists e, cia_encrypt alg c b = Some e /\ block 8 e /\ cia_decrypt alg c e = Some b) /\
    (exists d, cia_decrypt alg c b = Some d /\ block 8 d /\ cia_encrypt alg c d = Some b).
Proof.
  intros Halg Hkey Hb.
  assert (forall alg wf, CipherLaws alg wf -> cra_blocksize alg = 8%nat -> cia_min_keysize alg = 16%nat ->
    cia_max_keysize alg = 16%nat -> exists c, cia_setkey alg key = Some c /\
    (exists e, cia_encrypt alg c b = Some e /\ block 8 e /\ cia_decrypt alg c e = Some b) /\
    (exists d, cia_decrypt alg c b = Some d /\ block 8 d /\ cia_encrypt alg c d = Some b)) as H.
  { intros a wf [_ Hs He Hd] Eb Emin Emax. rewrite Eb in *. destruct (Hs 16%nat key Hkey) as (c & Ec & Hc); [lia|].
    exists c. split; [done|]. split; [by apply He | by apply Hd]. }
  destruct Halg as [->|[->| ->]]; eapply H; try apply _; done.
Qed.

Lemma tea_family_inverse_witness : exists c, cia_setkey xtea_alg (replicate 16 1) = Some c /\
  exists e, cia_encrypt xtea_alg c [1;2;3;4;5;6;7;8] = Some e /\ cia_decrypt xtea_alg c e = Some [1;2;3;4;5;6;7;8].
Proof.
  destruct (tea_family_inverse xtea_alg (replicate 16 1) [1;2;3;4;5;6;7;8]) as (c & Hc & (e & He & _ & Hd) & _).
  - right. left. reflexivity.
  - split; [reflexivity|]. repeat constructor; vm_compute; congruence.
  - split; [reflexivity|]. repeat constructor; vm_compute; congruence.
  - exists c. split; [exact Hc|]. exists e. split; [exact He | exact Hd].
Defined.
