(* ===== verification/Serpent.v ===== *)
(** * Serpent

    [crypto/serpent.c], translated statement by statement: the macros become
    functions from the values of their arguments to the values they leave in
    them, and a use of a macro rebinds the variables it was given.  [r4] is
    not initialised in the C code; it is an argument of the cipher functions.
    The round keys are the array [k] of 132 words; the indices of [K], [LK]
    and [KL] are constants below 132. *)

From S2P Require Import Prelude Bytes Cipher.
Open Scope c_scope.

(** [include/linux/bitops.h] *)
Definition rol32 (word shift : Z) : Z := (word .<< shift) .| (word .>> (32 - shift)).
Definition ror32 (word shift : Z) : Z := (word .>> shift) .| (word .<< (32 - shift)).

Definition SERPENT_MAX_KEY_SIZE : Z := 32.
Definition SERPENT_EXPKEY_WORDS : Z := 132.
Definition PHI : Z := 0x9e3779b9.

(** ** Macros *)

(** [keyiter(k[a], b, c, d, i, j)] with [k] advanced by [base]. *)
Definition keyiter (k : list Z) (base a b c d i j : Z) : option (Z * list Z) :=
  a ← arr_get k (base + a);
  let b := b .^ d in let b := b .^ c in let b := b .^ a in let b := b .^ (PHI .^ i) in
  let b := rol32 b 11 in
  k ← arr_set k (base + j) b;
  Some (b, k).

Definition loadkeys (k : list Z) (base i : Z) : option (Z * Z * Z * Z) :=
  x0 ← arr_get k (base + i);
  x1 ← arr_get k (base + (i + 1));
  x2 ← arr_get k (base + (i + 2));
  x3 ← arr_get k (base + (i + 3));
  Some (x0, x1, x2, x3).

Definition storekeys (k : list Z) (base x0 x1 x2 x3 i : Z) : option (list Z) :=
  k ← arr_set k (base + i) x0;
  k ← arr_set k (base + (i + 1)) x1;
  k ← arr_set k (base + (i + 2)) x2;
  arr_set k (base + (i + 3)) x3.

Definition K (k : list Z) (x0 x1 x2 x3 i : Z) : Z * Z * Z * Z :=
  let x3 := x3 .^ zth k (4 * i + 3) in let x2 := x2 .^ zth k (4 * i + 2) in
  let x1 := x1 .^ zth k (4 * i + 1) in let x0 := x0 .^ zth k (4 * i + 0) in
  (x0, x1, x2, x3).

Definition LK (k : list Z) (x0 x1 x2 x3 x4 i : Z) : Z * Z * Z * Z * Z :=
  let x0 := rol32 x0 13 in let x2 := rol32 x2 3 in let x1 := x1 .^ x0 in let x4 := x0 .<< 3 in
  let x3 := x3 .^ x2 in let x1 := x1 .^ x2 in let x1 := rol32 x1 1 in let x3 := x3 .^ x4 in
  let x3 := rol32 x3 7 in let x4 := x1 in let x0 := x0 .^ x1 in let x4 := x4 .<< 7 in let x2 := x2 .^ x3 in
  let x0 := x0 .^ x3 in let x2 := x2 .^ x4 in let x3 := x3 .^ zth k (4 * i + 3) in
  let x1 := x1 .^ zth k (4 * i + 1) in let x0 := rol32 x0 5 in let x2 := rol32 x2 22 in
  let x0 := x0 .^ zth k (4 * i + 0) in let x2 := x2 .^ zth k (4 * i + 2) in
  (x0, x1, x2, x3, x4).

Definition KL (k : list Z) (x0 x1 x2 x3 x4 i : Z) : Z * Z * Z * Z * Z :=
  let x0 := x0 .^ zth k (4 * i + 0) in let x1 := x1 .^ zth k (4 * i + 1) in
  let x2 := x2 .^ zth k (4 * i + 2) in let x3 := x3 .^ zth k (4 * i + 3) in let x0 := ror32 x0 5 in
  let x2 := ror32 x2 22 in let x4 := x1 in let x2 := x2 .^ x3 in let x0 := x0 .^ x3 in let x4 := x4 .<< 7 in
  let x0 := x0 .^ x1 in let x1 := ror32 x1 1 in let x2 := x2 .^ x4 in let x3 := ror32 x3 7 in
  let x4 := x0 .<< 3 in let x1 := x1 .^ x0 in let x3 := x3 .^ x4 in let x0 := ror32 x0 13 in
  let x1 := x1 .^ x2 in let x3 := x3 .^ x2 in let x2 := ror32 x2 3 in
  (x0, x1, x2, x3, x4).

Definition S0 (x0 x1 x2 x3 x4 : Z) : Z * Z * Z * Z * Z :=
  let x4 := x3 in let x3 := x3 .| x0 in let x0 := x0 .^ x4 in let x4 := x4 .^ x2 in let x4 := .~ x4 in
  let x3 := x3 .^ x1 in let x1 := x1 .& x0 in let x1 := x1 .^ x4 in let x2 := x2 .^ x0 in
  let x0 := x0 .^ x3 in let x4 := x4 .| x0 in let x0 := x0 .^ x2 in let x2 := x2 .& x1 in
  let x3 := x3 .^ x2 in let x1 := .~ x1 in let x2 := x2 .^ x4 in let x1 := x1 .^ x2 in
  (x0, x1, x2, x3, x4).

Definition S1 (x0 x1 x2 x3 x4 : Z) : Z * Z * Z * Z * Z :=
  let x4 := x1 in let x1 := x1 .^ x0 in let x0 := x0 .^ x3 in let x3 := .~ x3 in let x4 := x4 .& x1 in
  let x0 := x0 .| x1 in let x3 := x3 .^ x2 in let x0 := x0 .^ x3 in let x1 := x1 .^ x3 in
  let x3 := x3 .^ x4 in let x1 := x1 .| x4 in let x4 := x4 .^ x2 in let x2 := x2 .& x0 in
  let x2 := x2 .^ x1 in let x1 := x1 .| x0 in let x0 := .~ x0 in let x0 := x0 .^ x2 in let x4 := x4 .^ x1 in
  (x0, x1, x2, x3, x4).

Definition S2 (x0 x1 x2 x3 x4 : Z) : Z * Z * Z * Z * Z :=
  let x3 := .~ x3 in let x1 := x1 .^ x0 in let x4 := x0 in let x0 := x0 .& x2 in let x0 := x0 .^ x3 in
  let x3 := x3 .| x4 in let x2 := x2 .^ x1 in let x3 := x3 .^ x1 in let x1 := x1 .& x0 in
  let x0 := x0 .^ x2 in let x2 := x2 .& x3 in let x3 := x3 .| x1 in let x0 := .~ x0 in let x3 := x3 .^ x0 in
  let x4 := x4 .^ x0 in let x0 := x0 .^ x2 in let x1 := x1 .| x2 in
  (x0, x1, x2, x3, x4).

Definition S3 (x0 x1 x2 x3 x4 : Z) : Z * Z * Z * Z * Z :=
  let x4 := x1 in let x1 := x1 .^ x3 in let x3 := x3 .| x0 in let x4 := x4 .& x0 in let x0 := x0 .^ x2 in
  let x2 := x2 .^ x1 in let x1 := x1 .& x3 in let x2 := x2 .^ x3 in let x0 := x0 .| x4 in
  let x4 := x4 .^ x3 in let x1 := x1 .^ x0 in let x0 := x0 .& x3 in let x3 := x3 .& x4 in
  let x3 := x3 .^ x2 in let x4 := x4 .| x1 in let x2 := x2 .& x1 in let x4 := x4 .^ x3 in
  let x0 := x0 .^ x3 in let x3 := x3 .^ x2 in
  (x0, x1, x2, x3, x4).

Definition S4 (x0 x1 x2 x3 x4 : Z) : Z * Z * Z * Z * Z :=
  let x4 := x3 in let x3 := x3 .& x0 in let x0 := x0 .^ x4 in let x3 := x3 .^ x2 in let x2 := x2 .| x4 in
  let x0 := x0 .^ x1 in let x4 := x4 .^ x3 in let x2 := x2 .| x0 in let x2 := x2 .^ x1 in
  let x1 := x1 .& x0 in let x1 := x1 .^ x4 in let x4 := x4 .& x2 in let x2 := x2 .^ x3 in
  let x4 := x4 .^ x0 in let x3 := x3 .| x1 in let x1 := .~ x1 in let x3 := x3 .^ x0 in
  (x0, x1, x2, x3, x4).

Definition S5 (x0 x1 x2 x3 x4 : Z) : Z * Z * Z * Z * Z :=
  let x4 := x1 in let x1 := x1 .| x0 in let x2 := x2 .^ x1 in let x3 := .~ x3 in let x4 := x4 .^ x0 in
  let x0 := x0 .^ x2 in let x1 := x1 .& x4 in let x4 := x4 .| x3 in let x4 := x4 .^ x0 in
  let x0 := x0 .& x3 in let x1 := x1 .^ x3 in let x3 := x3 .^ x2 in let x0 := x0 .^ x1 in
  let x2 := x2 .& x4 in let x1 := x1 .^ x2 in let x2 := x2 .& x0 in let x3 := x3 .^ x2 in
  (x0, x1, x2, x3, x4).

Definition S6 (x0 x1 x2 x3 x4 : Z) : Z * Z * Z * Z * Z :=
  let x4 := x1 in let x3 := x3 .^ x0 in let x1 := x1 .^ x2 in let x2 := x2 .^ x0 in let x0 := x0 .& x3 in
  let x1 := x1 .| x3 in let x4 := .~ x4 in let x0 := x0 .^ x1 in let x1 := x1 .^ x2 in let x3 := x3 .^ x4 in
  let x4 := x4 .^ x0 in let x2 := x2 .& x0 in let x4 := x4 .^ x1 in let x2 := x2 .^ x3 in
  let x3 := x3 .& x1 in let x3 := x3 .^ x0 in let x1 := x1 .^ x2 in
  (x0, x1, x2, x3, x4).

Definition S7 (x0 x1 x2 x3 x4 : Z) : Z * Z * Z * Z * Z :=
  let x1 := .~ x1 in let x4 := x1 in let x0 := .~ x0 in let x1 := x1 .& x2 in let x1 := x1 .^ x3 in
  let x3 := x3 .| x4 in let x4 := x4 .^ x2 in let x2 := x2 .^ x3 in let x3 := x3 .^ x0 in
  let x0 := x0 .| x1 in let x2 := x2 .& x0 in let x0 := x0 .^ x4 in let x4 := x4 .^ x3 in
  let x3 := x3 .& x0 in let x4 := x4 .^ x1 in let x2 := x2 .^ x4 in let x3 := x3 .^ x1 in
  let x4 := x4 .| x0 in let x4 := x4 .^ x1 in
  (x0, x1, x2, x3, x4).

Definition SI0 (x0 x1 x2 x3 x4 : Z) : Z * Z * Z * Z * Z :=
  let x4 := x3 in let x1 := x1 .^ x0 in let x3 := x3 .| x1 in let x4 := x4 .^ x1 in let x0 := .~ x0 in
  let x2 := x2 .^ x3 in let x3 := x3 .^ x0 in let x0 := x0 .& x1 in let x0 := x0 .^ x2 in
  let x2 := x2 .& x3 in let x3 := x3 .^ x4 in let x2 := x2 .^ x3 in let x1 := x1 .^ x3 in
  let x3 := x3 .& x0 in let x1 := x1 .^ x0 in let x0 := x0 .^ x2 in let x4 := x4 .^ x3 in
  (x0, x1, x2, x3, x4).

Definition SI1 (x0 x1 x2 x3 x4 : Z) : Z * Z * Z * Z * Z :=
  let x1 := x1 .^ x3 in let x4 := x0 in let x0 := x0 .^ x2 in let x2 := .~ x2 in let x4 := x4 .| x1 in
  let x4 := x4 .^ x3 in let x3 := x3 .& x1 in let x1 := x1 .^ x2 in let x2 := x2 .& x4 in
  let x4 := x4 .^ x1 in let x1 := x1 .| x3 in let x3 := x3 .^ x0 in let x2 := x2 .^ x0 in
  let x0 := x0 .| x4 in let x2 := x2 .^ x4 in let x1 := x1 .^ x0 in let x4 := x4 .^ x1 in
  (x0, x1, x2, x3, x4).

Definition SI2 (x0 x1 x2 x3 x4 : Z) : Z * Z * Z * Z * Z :=
  let x2 := x2 .^ x1 in let x4 := x3 in let x3 := .~ x3 in let x3 := x3 .| x2 in let x2 := x2 .^ x4 in
  let x4 := x4 .^ x0 in let x3 := x3 .^ x1 in let x1 := x1 .| x2 in let x2 := x2 .^ x0 in
  let x1 := x1 .^ x4 in let x4 := x4 .| x3 in let x2 := x2 .^ x3 in let x4 := x4 .^ x2 in
  let x2 := x2 .& x1 in let x2 := x2 .^ x3 in let x3 := x3 .^ x4 in let x4 := x4 .^ x0 in
  (x0, x1, x2, x3, x4).

Definition SI3 (x0 x1 x2 x3 x4 : Z) : Z * Z * Z * Z * Z :=
  let x2 := x2 .^ x1 in let x4 := x1 in let x1 := x1 .& x2 in let x1 := x1 .^ x0 in let x0 := x0 .| x4 in
  let x4 := x4 .^ x3 in let x0 := x0 .^ x3 in let x3 := x3 .| x1 in let x1 := x1 .^ x2 in
  let x1 := x1 .^ x3 in let x0 := x0 .^ x2 in let x2 := x2 .^ x3 in let x3 := x3 .& x1 in
  let x1 := x1 .^ x0 in let x0 := x0 .& x2 in let x4 := x4 .^ x3 in let x3 := x3 .^ x0 in
  let x0 := x0 .^ x1 in
  (x0, x1, x2, x3, x4).

Definition SI4 (x0 x1 x2 x3 x4 : Z) : Z * Z * Z * Z * Z :=
  let x2 := x2 .^ x3 in let x4 := x0 in let x0 := x0 .& x1 in let x0 := x0 .^ x2 in let x2 := x2 .| x3 in
  let x4 := .~ x4 in let x1 := x1 .^ x0 in let x0 := x0 .^ x2 in let x2 := x2 .& x4 in let x2 := x2 .^ x0 in
  let x0 := x0 .| x4 in let x0 := x0 .^ x3 in let x3 := x3 .& x2 in let x4 := x4 .^ x3 in
  let x3 := x3 .^ x1 in let x1 := x1 .& x0 in let x4 := x4 .^ x1 in let x0 := x0 .^ x3 in
  (x0, x1, x2, x3, x4).

Definition SI5 (x0 x1 x2 x3 x4 : Z) : Z * Z * Z * Z * Z :=
  let x4 := x1 in let x1 := x1 .| x2 in let x2 := x2 .^ x4 in let x1 := x1 .^ x3 in let x3 := x3 .& x4 in
  let x2 := x2 .^ x3 in let x3 := x3 .| x0 in let x0 := .~ x0 in let x3 := x3 .^ x2 in let x2 := x2 .| x0 in
  let x4 := x4 .^ x1 in let x2 := x2 .^ x4 in let x4 := x4 .& x0 in let x0 := x0 .^ x1 in
  let x1 := x1 .^ x3 in let x0 := x0 .& x2 in let x2 := x2 .^ x3 in let x0 := x0 .^ x2 in
  let x2 := x2 .^ x4 in let x4 := x4 .^ x3 in
  (x0, x1, x2, x3, x4).

Definition SI6 (x0 x1 x2 x3 x4 : Z) : Z * Z * Z * Z * Z :=
  let x0 := x0 .^ x2 in let x4 := x0 in let x0 := x0 .& x3 in let x2 := x2 .^ x3 in let x0 := x0 .^ x2 in
  let x3 := x3 .^ x1 in let x2 := x2 .| x4 in let x2 := x2 .^ x3 in let x3 := x3 .& x0 in let x0 := .~ x0 in
  let x3 := x3 .^ x1 in let x1 := x1 .& x2 in let x4 := x4 .^ x0 in let x3 := x3 .^ x4 in
  let x4 := x4 .^ x2 in let x0 := x0 .^ x1 in let x2 := x2 .^ x0 in
  (x0, x1, x2, x3, x4).

Definition SI7 (x0 x1 x2 x3 x4 : Z) : Z * Z * Z * Z * Z :=
  let x4 := x3 in let x3 := x3 .& x0 in let x0 := x0 .^ x2 in let x2 := x2 .| x4 in let x4 := x4 .^ x1 in
  let x0 := .~ x0 in let x1 := x1 .| x3 in let x4 := x4 .^ x0 in let x0 := x0 .& x2 in let x0 := x0 .^ x1 in
  let x1 := x1 .& x2 in let x3 := x3 .^ x2 in let x4 := x4 .^ x3 in let x2 := x2 .& x3 in
  let x3 := x3 .| x0 in let x1 := x1 .^ x4 in let x3 := x3 .^ x4 in let x4 := x4 .& x0 in
  let x4 := x4 .^ x2 in
  (x0, x1, x2, x3, x4).

(** ** The key schedule *)

Record serpent_ctx := SerpentCtx { expkey : list Z }.

(** "Copy key, add padding": the first 32 bytes of the array. *)
Definition serpent_pad (key k8 : list Z) : option (list Z) :=
  let keylen := Z.of_nat (length key) in
  k8 ← c_for_all 0 keylen (fun i k8 => b ← arr_get key i; arr_set k8 i b) k8;
  k8 ← (if keylen <? SERPENT_MAX_KEY_SIZE then arr_set k8 keylen 1 else Some k8);
  c_for_all (keylen + 1) SERPENT_MAX_KEY_SIZE (fun i k8 => arr_set k8 i 0) k8.

(** The straight-line code that expands the padded key, in pieces: the state
    is the array and the variables [r0] to [r4]. *)
Definition serpent_keyiter_0 (st : list Z * Z * Z * Z * Z * Z) : option (list Z * Z * Z * Z * Z * Z) :=
  let '(k, r0, r1, r2, r3, r4) := st in
  '(r0, k) ← keyiter k 0 0 r0 r4 r2 0 0;
  '(r1, k) ← keyiter k 0 1 r1 r0 r3 1 1;
  '(r2, k) ← keyiter k 0 2 r2 r1 r4 2 2;
  '(r3, k) ← keyiter k 0 3 r3 r2 r0 3 3;
  '(r4, k) ← keyiter k 0 4 r4 r3 r1 4 4;
  '(r0, k) ← keyiter k 0 5 r0 r4 r2 5 5;
  '(r1, k) ← keyiter k 0 6 r1 r0 r3 6 6;
  '(r2, k) ← keyiter k 0 7 r2 r1 r4 7 7;
  Some (k, r0, r1, r2, r3, r4).

Definition serpent_keyiter_1 (st : list Z * Z * Z * Z * Z * Z) : option (list Z * Z * Z * Z * Z * Z) :=
  let '(k, r0, r1, r2, r3, r4) := st in
  '(r3, k) ← keyiter k 0 0 r3 r2 r0 8 8; '(r4, k) ← keyiter k 0 1 r4 r3 r1 9 9;
  '(r0, k) ← keyiter k 0 2 r0 r4 r2 10 10; '(r1, k) ← keyiter k 0 3 r1 r0 r3 11 11;
  '(r2, k) ← keyiter k 0 4 r2 r1 r4 12 12; '(r3, k) ← keyiter k 0 5 r3 r2 r0 13 13;
  '(r4, k) ← keyiter k 0 6 r4 r3 r1 14 14; '(r0, k) ← keyiter k 0 7 r0 r4 r2 15 15;
  '(r1, k) ← keyiter k 0 8 r1 r0 r3 16 16; '(r2, k) ← keyiter k 0 9 r2 r1 r4 17 17;
  Some (k, r0, r1, r2, r3, r4).

Definition serpent_keyiter_2 (st : list Z * Z * Z * Z * Z * Z) : option (list Z * Z * Z * Z * Z * Z) :=
  let '(k, r0, r1, r2, r3, r4) := st in
  '(r3, k) ← keyiter k 0 10 r3 r2 r0 18 18; '(r4, k) ← keyiter k 0 11 r4 r3 r1 19 19;
  '(r0, k) ← keyiter k 0 12 r0 r4 r2 20 20; '(r1, k) ← keyiter k 0 13 r1 r0 r3 21 21;
  '(r2, k) ← keyiter k 0 14 r2 r1 r4 22 22; '(r3, k) ← keyiter k 0 15 r3 r2 r0 23 23;
  '(r4, k) ← keyiter k 0 16 r4 r3 r1 24 24; '(r0, k) ← keyiter k 0 17 r0 r4 r2 25 25;
  '(r1, k) ← keyiter k 0 18 r1 r0 r3 26 26; '(r2, k) ← keyiter k 0 19 r2 r1 r4 27 27;
  Some (k, r0, r1, r2, r3, r4).

Definition serpent_keyiter_3 (st : list Z * Z * Z * Z * Z * Z) : option (list Z * Z * Z * Z * Z * Z) :=
  let '(k, r0, r1, r2, r3, r4) := st in
  '(r3, k) ← keyiter k 0 20 r3 r2 r0 28 28; '(r4, k) ← keyiter k 0 21 r4 r3 r1 29 29;
  '(r0, k) ← keyiter k 0 22 r0 r4 r2 30 30; '(r1, k) ← keyiter k 0 23 r1 r0 r3 31 31;
  '(r2, k) ← keyiter k 50 (-26) r2 r1 r4 32 (-18); '(r3, k) ← keyiter k 50 (-25) r3 r2 r0 33 (-17);
  '(r4, k) ← keyiter k 50 (-24) r4 r3 r1 34 (-16); '(r0, k) ← keyiter k 50 (-23) r0 r4 r2 35 (-15);
  '(r1, k) ← keyiter k 50 (-22) r1 r0 r3 36 (-14); '(r2, k) ← keyiter k 50 (-21) r2 r1 r4 37 (-13);
  Some (k, r0, r1, r2, r3, r4).

Definition serpent_keyiter_4 (st : list Z * Z * Z * Z * Z * Z) : option (list Z * Z * Z * Z * Z * Z) :=
  let '(k, r0, r1, r2, r3, r4) := st in
  '(r3, k) ← keyiter k 50 (-20) r3 r2 r0 38 (-12); '(r4, k) ← keyiter k 50 (-19) r4 r3 r1 39 (-11);
  '(r0, k) ← keyiter k 50 (-18) r0 r4 r2 40 (-10); '(r1, k) ← keyiter k 50 (-17) r1 r0 r3 41 (-9);
  '(r2, k) ← keyiter k 50 (-16) r2 r1 r4 42 (-8); '(r3, k) ← keyiter k 50 (-15) r3 r2 r0 43 (-7);
  '(r4, k) ← keyiter k 50 (-14) r4 r3 r1 44 (-6); '(r0, k) ← keyiter k 50 (-13) r0 r4 r2 45 (-5);
  '(r1, k) ← keyiter k 50 (-12) r1 r0 r3 46 (-4); '(r2, k) ← keyiter k 50 (-11) r2 r1 r4 47 (-3);
  Some (k, r0, r1, r2, r3, r4).

Definition serpent_keyiter_5 (st : list Z * Z * Z * Z * Z * Z) : option (list Z * Z * Z * Z * Z * Z) :=
  let '(k, r0, r1, r2, r3, r4) := st in
  '(r3, k) ← keyiter k 50 (-10) r3 r2 r0 48 (-2); '(r4, k) ← keyiter k 50 (-9) r4 r3 r1 49 (-1);
  '(r0, k) ← keyiter k 50 (-8) r0 r4 r2 50 0; '(r1, k) ← keyiter k 50 (-7) r1 r0 r3 51 1;
  '(r2, k) ← keyiter k 50 (-6) r2 r1 r4 52 2; '(r3, k) ← keyiter k 50 (-5) r3 r2 r0 53 3;
  '(r4, k) ← keyiter k 50 (-4) r4 r3 r1 54 4; '(r0, k) ← keyiter k 50 (-3) r0 r4 r2 55 5;
  '(r1, k) ← keyiter k 50 (-2) r1 r0 r3 56 6; '(r2, k) ← keyiter k 50 (-1) r2 r1 r4 57 7;
  Some (k, r0, r1, r2, r3, r4).

Definition serpent_keyiter_6 (st : list Z * Z * Z * Z * Z * Z) : option (list Z * Z * Z * Z * Z * Z) :=
  let '(k, r0, r1, r2, r3, r4) := st in
  '(r3, k) ← keyiter k 50 0 r3 r2 r0 58 8; '(r4, k) ← keyiter k 50 1 r4 r3 r1 59 9;
  '(r0, k) ← keyiter k 50 2 r0 r4 r2 60 10; '(r1, k) ← keyiter k 50 3 r1 r0 r3 61 11;
  '(r2, k) ← keyiter k 50 4 r2 r1 r4 62 12; '(r3, k) ← keyiter k 50 5 r3 r2 r0 63 13;
  '(r4, k) ← keyiter k 50 6 r4 r3 r1 64 14; '(r0, k) ← keyiter k 50 7 r0 r4 r2 65 15;
  '(r1, k) ← keyiter k 50 8 r1 r0 r3 66 16; '(r2, k) ← keyiter k 50 9 r2 r1 r4 67 17;
  Some (k, r0, r1, r2, r3, r4).

Definition serpent_keyiter_7 (st : list Z * Z * Z * Z * Z * Z) : option (list Z * Z * Z * Z * Z * Z) :=
  let '(k, r0, r1, r2, r3, r4) := st in
  '(r3, k) ← keyiter k 50 10 r3 r2 r0 68 18; '(r4, k) ← keyiter k 50 11 r4 r3 r1 69 19;
  '(r0, k) ← keyiter k 50 12 r0 r4 r2 70 20; '(r1, k) ← keyiter k 50 13 r1 r0 r3 71 21;
  '(r2, k) ← keyiter k 50 14 r2 r1 r4 72 22; '(r3, k) ← keyiter k 50 15 r3 r2 r0 73 23;
  '(r4, k) ← keyiter k 50 16 r4 r3 r1 74 24; '(r0, k) ← keyiter k 50 17 r0 r4 r2 75 25;
  '(r1, k) ← keyiter k 50 18 r1 r0 r3 76 26; '(r2, k) ← keyiter k 50 19 r2 r1 r4 77 27;
  Some (k, r0, r1, r2, r3, r4).

Definition serpent_keyiter_8 (st : list Z * Z * Z * Z * Z * Z) : option (list Z * Z * Z * Z * Z * Z) :=
  let '(k, r0, r1, r2, r3, r4) := st in
  '(r3, k) ← keyiter k 50 20 r3 r2 r0 78 28; '(r4, k) ← keyiter k 50 21 r4 r3 r1 79 29;
  '(r0, k) ← keyiter k 50 22 r0 r4 r2 80 30; '(r1, k) ← keyiter k 50 23 r1 r0 r3 81 31;
  '(r2, k) ← keyiter k 100 (-26) r2 r1 r4 82 (-18); '(r3, k) ← keyiter k 100 (-25) r3 r2 r0 83 (-17);
  '(r4, k) ← keyiter k 100 (-24) r4 r3 r1 84 (-16); '(r0, k) ← keyiter k 100 (-23) r0 r4 r2 85 (-15);
  '(r1, k) ← keyiter k 100 (-22) r1 r0 r3 86 (-14); '(r2, k) ← keyiter k 100 (-21) r2 r1 r4 87 (-13);
  Some (k, r0, r1, r2, r3, r4).

Definition serpent_keyiter_9 (st : list Z * Z * Z * Z * Z * Z) : option (list Z * Z * Z * Z * Z * Z) :=
  let '(k, r0, r1, r2, r3, r4) := st in
  '(r3, k) ← keyiter k 100 (-20) r3 r2 r0 88 (-12); '(r4, k) ← keyiter k 100 (-19) r4 r3 r1 89 (-11);
  '(r0, k) ← keyiter k 100 (-18) r0 r4 r2 90 (-10); '(r1, k) ← keyiter k 100 (-17) r1 r0 r3 91 (-9);
  '(r2, k) ← keyiter k 100 (-16) r2 r1 r4 92 (-8); '(r3, k) ← keyiter k 100 (-15) r3 r2 r0 93 (-7);
  '(r4, k) ← keyiter k 100 (-14) r4 r3 r1 94 (-6); '(r0, k) ← keyiter k 100 (-13) r0 r4 r2 95 (-5);
  '(r1, k) ← keyiter k 100 (-12) r1 r0 r3 96 (-4); '(r2, k) ← keyiter k 100 (-11) r2 r1 r4 97 (-3);
  Some (k, r0, r1, r2, r3, r4).

Definition serpent_keyiter_10 (st : list Z * Z * Z * Z * Z * Z) : option (list Z * Z * Z * Z * Z * Z) :=
  let '(k, r0, r1, r2, r3, r4) := st in
  '(r3, k) ← keyiter k 100 (-10) r3 r2 r0 98 (-2); '(r4, k) ← keyiter k 100 (-9) r4 r3 r1 99 (-1);
  '(r0, k) ← keyiter k 100 (-8) r0 r4 r2 100 0; '(r1, k) ← keyiter k 100 (-7) r1 r0 r3 101 1;
  '(r2, k) ← keyiter k 100 (-6) r2 r1 r4 102 2; '(r3, k) ← keyiter k 100 (-5) r3 r2 r0 103 3;
  '(r4, k) ← keyiter k 100 (-4) r4 r3 r1 104 4; '(r0, k) ← keyiter k 100 (-3) r0 r4 r2 105 5;
  '(r1, k) ← keyiter k 100 (-2) r1 r0 r3 106 6; '(r2, k) ← keyiter k 100 (-1) r2 r1 r4 107 7;
  Some (k, r0, r1, r2, r3, r4).

Definition serpent_keyiter_11 (st : list Z * Z * Z * Z * Z * Z) : option (list Z * Z * Z * Z * Z * Z) :=
  let '(k, r0, r1, r2, r3, r4) := st in
  '(r3, k) ← keyiter k 100 0 r3 r2 r0 108 8; '(r4, k) ← keyiter k 100 1 r4 r3 r1 109 9;
  '(r0, k) ← keyiter k 100 2 r0 r4 r2 110 10; '(r1, k) ← keyiter k 100 3 r1 r0 r3 111 11;
  '(r2, k) ← keyiter k 100 4 r2 r1 r4 112 12; '(r3, k) ← keyiter k 100 5 r3 r2 r0 113 13;
  '(r4, k) ← keyiter k 100 6 r4 r3 r1 114 14; '(r0, k) ← keyiter k 100 7 r0 r4 r2 115 15;
  '(r1, k) ← keyiter k 100 8 r1 r0 r3 116 16; '(r2, k) ← keyiter k 100 9 r2 r1 r4 117 17;
  Some (k, r0, r1, r2, r3, r4).

Definition serpent_keyiter_12 (st : list Z * Z * Z * Z * Z * Z) : option (list Z * Z * Z * Z * Z * Z) :=
  let '(k, r0, r1, r2, r3, r4) := st in
  '(r3, k) ← keyiter k 100 10 r3 r2 r0 118 18; '(r4, k) ← keyiter k 100 11 r4 r3 r1 119 19;
  '(r0, k) ← keyiter k 100 12 r0 r4 r2 120 20; '(r1, k) ← keyiter k 100 13 r1 r0 r3 121 21;
  '(r2, k) ← keyiter k 100 14 r2 r1 r4 122 22; '(r3, k) ← keyiter k 100 15 r3 r2 r0 123 23;
  '(r4, k) ← keyiter k 100 16 r4 r3 r1 124 24; '(r0, k) ← keyiter k 100 17 r0 r4 r2 125 25;
  '(r1, k) ← keyiter k 100 18 r1 r0 r3 126 26; '(r2, k) ← keyiter k 100 19 r2 r1 r4 127 27;
  Some (k, r0, r1, r2, r3, r4).

Definition serpent_keyiter_13 (st : list Z * Z * Z * Z * Z * Z) : option (list Z * Z * Z * Z * Z * Z) :=
  let '(k, r0, r1, r2, r3, r4) := st in
  '(r3, k) ← keyiter k 100 20 r3 r2 r0 128 28; '(r4, k) ← keyiter k 100 21 r4 r3 r1 129 29;
  '(r0, k) ← keyiter k 100 22 r0 r4 r2 130 30; '(r1, k) ← keyiter k 100 23 r1 r0 r3 131 31;
  Some (k, r0, r1, r2, r3, r4).

Definition serpent_sbox_0 (st : list Z * Z * Z * Z * Z * Z) : option (list Z * Z * Z * Z * Z * Z) :=
  let '(k, r0, r1, r2, r3, r4) := st in
  let '(r3, r4, r0, r1, r2) := S3 r3 r4 r0 r1 r2 in k ← storekeys k 100 r1 r2 r4 r3 28; '(r1, r2, r4, r3) ← loadkeys k 100 24;
  let '(r1, r2, r4, r3, r0) := S4 r1 r2 r4 r3 r0 in k ← storekeys k 100 r2 r4 r3 r0 24; '(r2, r4, r3, r0) ← loadkeys k 100 20;
  let '(r2, r4, r3, r0, r1) := S5 r2 r4 r3 r0 r1 in k ← storekeys k 100 r1 r2 r4 r0 20; '(r1, r2, r4, r0) ← loadkeys k 100 16;
  let '(r1, r2, r4, r0, r3) := S6 r1 r2 r4 r0 r3 in k ← storekeys k 100 r4 r3 r2 r0 16; '(r4, r3, r2, r0) ← loadkeys k 100 12;
  let '(r4, r3, r2, r0, r1) := S7 r4 r3 r2 r0 r1 in k ← storekeys k 100 r1 r2 r0 r4 12; '(r1, r2, r0, r4) ← loadkeys k 100 8;
  let '(r1, r2, r0, r4, r3) := S0 r1 r2 r0 r4 r3 in k ← storekeys k 100 r0 r2 r4 r1 8; '(r0, r2, r4, r1) ← loadkeys k 100 4;
  let '(r0, r2, r4, r1, r3) := S1 r0 r2 r4 r1 r3 in k ← storekeys k 100 r3 r4 r1 r0 4; '(r3, r4, r1, r0) ← loadkeys k 100 0;
  let '(r3, r4, r1, r0, r2) := S2 r3 r4 r1 r0 r2 in k ← storekeys k 100 r2 r4 r3 r0 0; '(r2, r4, r3, r0) ← loadkeys k 100 (-4);
  Some (k, r0, r1, r2, r3, r4).

Definition serpent_sbox_1 (st : list Z * Z * Z * Z * Z * Z) : option (list Z * Z * Z * Z * Z * Z) :=
  let '(k, r0, r1, r2, r3, r4) := st in
  let '(r2, r4, r3, r0, r1) := S3 r2 r4 r3 r0 r1 in k ← storekeys k 100 r0 r1 r4 r2 (-4); '(r0, r1, r4, r2) ← loadkeys k 100 (-8);
  let '(r0, r1, r4, r2, r3) := S4 r0 r1 r4 r2 r3 in k ← storekeys k 100 r1 r4 r2 r3 (-8); '(r1, r4, r2, r3) ← loadkeys k 100 (-12);
  let '(r1, r4, r2, r3, r0) := S5 r1 r4 r2 r3 r0 in k ← storekeys k 100 r0 r1 r4 r3 (-12); '(r0, r1, r4, r3) ← loadkeys k 100 (-16);
  let '(r0, r1, r4, r3, r2) := S6 r0 r1 r4 r3 r2 in k ← storekeys k 100 r4 r2 r1 r3 (-16); '(r4, r2, r1, r3) ← loadkeys k 100 (-20);
  let '(r4, r2, r1, r3, r0) := S7 r4 r2 r1 r3 r0 in k ← storekeys k 100 r0 r1 r3 r4 (-20); '(r0, r1, r3, r4) ← loadkeys k 100 (-24);
  let '(r0, r1, r3, r4, r2) := S0 r0 r1 r3 r4 r2 in k ← storekeys k 100 r3 r1 r4 r0 (-24); '(r3, r1, r4, r0) ← loadkeys k 100 (-28);
  let '(r3, r1, r4, r0, r2) := S1 r3 r1 r4 r0 r2 in k ← storekeys k 50 r2 r4 r0 r3 22; '(r2, r4, r0, r3) ← loadkeys k 50 18;
  let '(r2, r4, r0, r3, r1) := S2 r2 r4 r0 r3 r1 in k ← storekeys k 50 r1 r4 r2 r3 18; '(r1, r4, r2, r3) ← loadkeys k 50 14;
  Some (k, r0, r1, r2, r3, r4).

Definition serpent_sbox_2 (st : list Z * Z * Z * Z * Z * Z) : option (list Z * Z * Z * Z * Z * Z) :=
  let '(k, r0, r1, r2, r3, r4) := st in
  let '(r1, r4, r2, r3, r0) := S3 r1 r4 r2 r3 r0 in k ← storekeys k 50 r3 r0 r4 r1 14; '(r3, r0, r4, r1) ← loadkeys k 50 10;
  let '(r3, r0, r4, r1, r2) := S4 r3 r0 r4 r1 r2 in k ← storekeys k 50 r0 r4 r1 r2 10; '(r0, r4, r1, r2) ← loadkeys k 50 6;
  let '(r0, r4, r1, r2, r3) := S5 r0 r4 r1 r2 r3 in k ← storekeys k 50 r3 r0 r4 r2 6; '(r3, r0, r4, r2) ← loadkeys k 50 2;
  let '(r3, r0, r4, r2, r1) := S6 r3 r0 r4 r2 r1 in k ← storekeys k 50 r4 r1 r0 r2 2; '(r4, r1, r0, r2) ← loadkeys k 50 (-2);
  let '(r4, r1, r0, r2, r3) := S7 r4 r1 r0 r2 r3 in k ← storekeys k 50 r3 r0 r2 r4 (-2); '(r3, r0, r2, r4) ← loadkeys k 50 (-6);
  let '(r3, r0, r2, r4, r1) := S0 r3 r0 r2 r4 r1 in k ← storekeys k 50 r2 r0 r4 r3 (-6); '(r2, r0, r4, r3) ← loadkeys k 50 (-10);
  let '(r2, r0, r4, r3, r1) := S1 r2 r0 r4 r3 r1 in k ← storekeys k 50 r1 r4 r3 r2 (-10); '(r1, r4, r3, r2) ← loadkeys k 50 (-14);
  let '(r1, r4, r3, r2, r0) := S2 r1 r4 r3 r2 r0 in k ← storekeys k 50 r0 r4 r1 r2 (-14); '(r0, r4, r1, r2) ← loadkeys k 50 (-18);
  Some (k, r0, r1, r2, r3, r4).

Definition serpent_sbox_3 (st : list Z * Z * Z * Z * Z * Z) : option (list Z * Z * Z * Z * Z * Z) :=
  let '(k, r0, r1, r2, r3, r4) := st in
  let '(r0, r4, r1, r2, r3) := S3 r0 r4 r1 r2 r3 in k ← storekeys k 50 r2 r3 r4 r0 (-18); '(r2, r3, r4, r0) ← loadkeys k 50 (-22);
  let '(r2, r3, r4, r0, r1) := S4 r2 r3 r4 r0 r1 in k ← storekeys k 0 r3 r4 r0 r1 28; '(r3, r4, r0, r1) ← loadkeys k 0 24;
  let '(r3, r4, r0, r1, r2) := S5 r3 r4 r0 r1 r2 in k ← storekeys k 0 r2 r3 r4 r1 24; '(r2, r3, r4, r1) ← loadkeys k 0 20;
  let '(r2, r3, r4, r1, r0) := S6 r2 r3 r4 r1 r0 in k ← storekeys k 0 r4 r0 r3 r1 20; '(r4, r0, r3, r1) ← loadkeys k 0 16;
  let '(r4, r0, r3, r1, r2) := S7 r4 r0 r3 r1 r2 in k ← storekeys k 0 r2 r3 r1 r4 16; '(r2, r3, r1, r4) ← loadkeys k 0 12;
  let '(r2, r3, r1, r4, r0) := S0 r2 r3 r1 r4 r0 in k ← storekeys k 0 r1 r3 r4 r2 12; '(r1, r3, r4, r2) ← loadkeys k 0 8;
  let '(r1, r3, r4, r2, r0) := S1 r1 r3 r4 r2 r0 in k ← storekeys k 0 r0 r4 r2 r1 8; '(r0, r4, r2, r1) ← loadkeys k 0 4;
  let '(r0, r4, r2, r1, r3) := S2 r0 r4 r2 r1 r3 in k ← storekeys k 0 r3 r4 r0 r1 4; '(r3, r4, r0, r1) ← loadkeys k 0 0;
  let '(r3, r4, r0, r1, r2) := S3 r3 r4 r0 r1 r2 in k ← storekeys k 0 r1 r2 r4 r3 0;
  Some (k, r0, r1, r2, r3, r4).

(** [k] is the array with the padded key in its first eight words. *)
Definition serpent_expand (k : list Z) : option (list Z) :=
  r0 ← arr_get k 3;
  r1 ← arr_get k 4;
  r2 ← arr_get k 5;
  r3 ← arr_get k 6;
  r4 ← arr_get k 7;
  let st := (k, r0, r1, r2, r3, r4) in
  st ← serpent_keyiter_0 st;
  st ← serpent_keyiter_1 st;
  st ← serpent_keyiter_2 st;
  st ← serpent_keyiter_3 st;
  st ← serpent_keyiter_4 st;
  st ← serpent_keyiter_5 st;
  st ← serpent_keyiter_6 st;
  st ← serpent_keyiter_7 st;
  st ← serpent_keyiter_8 st;
  st ← serpent_keyiter_9 st;
  st ← serpent_keyiter_10 st;
  st ← serpent_keyiter_11 st;
  st ← serpent_keyiter_12 st;
  st ← serpent_keyiter_13 st;
  st ← serpent_sbox_0 st;
  st ← serpent_sbox_1 st;
  st ← serpent_sbox_2 st;
  st ← serpent_sbox_3 st;
  let '(k, _, _, _, _, _) := st in
  Some k.

(** [k8] is the contents of the first 32 bytes of the array and [krest] that
    of its other words, before the call. *)
Definition serpent_setkey (k8 krest : list Z) (key : list Z) : option serpent_ctx :=
  k8 ← serpent_pad key k8;
  k0 ← get_le32 k8 0; k1 ← get_le32 k8 4; k2 ← get_le32 k8 8; k3 ← get_le32 k8 12;
  k4 ← get_le32 k8 16; k5 ← get_le32 k8 20; k6 ← get_le32 k8 24; k7 ← get_le32 k8 28;
  k ← serpent_expand ([k0; k1; k2; k3; k4; k5; k6; k7] ++ krest);
  Some (SerpentCtx k).

(** ** The cipher *)

Definition serpent_encrypt_words (k : list Z) (r0 r1 r2 r3 r4 : Z) : Z * Z * Z * Z :=
  let '(r0, r1, r2, r3) := K k r0 r1 r2 r3 0 in
  let '(r0, r1, r2, r3, r4) := S0 r0 r1 r2 r3 r4 in let '(r2, r1, r3, r0, r4) := LK k r2 r1 r3 r0 r4 1 in
  let '(r2, r1, r3, r0, r4) := S1 r2 r1 r3 r0 r4 in let '(r4, r3, r0, r2, r1) := LK k r4 r3 r0 r2 r1 2 in
  let '(r4, r3, r0, r2, r1) := S2 r4 r3 r0 r2 r1 in let '(r1, r3, r4, r2, r0) := LK k r1 r3 r4 r2 r0 3 in
  let '(r1, r3, r4, r2, r0) := S3 r1 r3 r4 r2 r0 in let '(r2, r0, r3, r1, r4) := LK k r2 r0 r3 r1 r4 4 in
  let '(r2, r0, r3, r1, r4) := S4 r2 r0 r3 r1 r4 in let '(r0, r3, r1, r4, r2) := LK k r0 r3 r1 r4 r2 5 in
  let '(r0, r3, r1, r4, r2) := S5 r0 r3 r1 r4 r2 in let '(r2, r0, r3, r4, r1) := LK k r2 r0 r3 r4 r1 6 in
  let '(r2, r0, r3, r4, r1) := S6 r2 r0 r3 r4 r1 in let '(r3, r1, r0, r4, r2) := LK k r3 r1 r0 r4 r2 7 in
  let '(r3, r1, r0, r4, r2) := S7 r3 r1 r0 r4 r2 in let '(r2, r0, r4, r3, r1) := LK k r2 r0 r4 r3 r1 8 in
  let '(r2, r0, r4, r3, r1) := S0 r2 r0 r4 r3 r1 in let '(r4, r0, r3, r2, r1) := LK k r4 r0 r3 r2 r1 9 in
  let '(r4, r0, r3, r2, r1) := S1 r4 r0 r3 r2 r1 in let '(r1, r3, r2, r4, r0) := LK k r1 r3 r2 r4 r0 10 in
  let '(r1, r3, r2, r4, r0) := S2 r1 r3 r2 r4 r0 in let '(r0, r3, r1, r4, r2) := LK k r0 r3 r1 r4 r2 11 in
  let '(r0, r3, r1, r4, r2) := S3 r0 r3 r1 r4 r2 in let '(r4, r2, r3, r0, r1) := LK k r4 r2 r3 r0 r1 12 in
  let '(r4, r2, r3, r0, r1) := S4 r4 r2 r3 r0 r1 in let '(r2, r3, r0, r1, r4) := LK k r2 r3 r0 r1 r4 13 in
  let '(r2, r3, r0, r1, r4) := S5 r2 r3 r0 r1 r4 in let '(r4, r2, r3, r1, r0) := LK k r4 r2 r3 r1 r0 14 in
  let '(r4, r2, r3, r1, r0) := S6 r4 r2 r3 r1 r0 in let '(r3, r0, r2, r1, r4) := LK k r3 r0 r2 r1 r4 15 in
  let '(r3, r0, r2, r1, r4) := S7 r3 r0 r2 r1 r4 in let '(r4, r2, r1, r3, r0) := LK k r4 r2 r1 r3 r0 16 in
  let '(r4, r2, r1, r3, r0) := S0 r4 r2 r1 r3 r0 in let '(r1, r2, r3, r4, r0) := LK k r1 r2 r3 r4 r0 17 in
  let '(r1, r2, r3, r4, r0) := S1 r1 r2 r3 r4 r0 in let '(r0, r3, r4, r1, r2) := LK k r0 r3 r4 r1 r2 18 in
  let '(r0, r3, r4, r1, r2) := S2 r0 r3 r4 r1 r2 in let '(r2, r3, r0, r1, r4) := LK k r2 r3 r0 r1 r4 19 in
  let '(r2, r3, r0, r1, r4) := S3 r2 r3 r0 r1 r4 in let '(r1, r4, r3, r2, r0) := LK k r1 r4 r3 r2 r0 20 in
  let '(r1, r4, r3, r2, r0) := S4 r1 r4 r3 r2 r0 in let '(r4, r3, r2, r0, r1) := LK k r4 r3 r2 r0 r1 21 in
  let '(r4, r3, r2, r0, r1) := S5 r4 r3 r2 r0 r1 in let '(r1, r4, r3, r0, r2) := LK k r1 r4 r3 r0 r2 22 in
  let '(r1, r4, r3, r0, r2) := S6 r1 r4 r3 r0 r2 in let '(r3, r2, r4, r0, r1) := LK k r3 r2 r4 r0 r1 23 in
  let '(r3, r2, r4, r0, r1) := S7 r3 r2 r4 r0 r1 in let '(r1, r4, r0, r3, r2) := LK k r1 r4 r0 r3 r2 24 in
  let '(r1, r4, r0, r3, r2) := S0 r1 r4 r0 r3 r2 in let '(r0, r4, r3, r1, r2) := LK k r0 r4 r3 r1 r2 25 in
  let '(r0, r4, r3, r1, r2) := S1 r0 r4 r3 r1 r2 in let '(r2, r3, r1, r0, r4) := LK k r2 r3 r1 r0 r4 26 in
  let '(r2, r3, r1, r0, r4) := S2 r2 r3 r1 r0 r4 in let '(r4, r3, r2, r0, r1) := LK k r4 r3 r2 r0 r1 27 in
  let '(r4, r3, r2, r0, r1) := S3 r4 r3 r2 r0 r1 in let '(r0, r1, r3, r4, r2) := LK k r0 r1 r3 r4 r2 28 in
  let '(r0, r1, r3, r4, r2) := S4 r0 r1 r3 r4 r2 in let '(r1, r3, r4, r2, r0) := LK k r1 r3 r4 r2 r0 29 in
  let '(r1, r3, r4, r2, r0) := S5 r1 r3 r4 r2 r0 in let '(r0, r1, r3, r2, r4) := LK k r0 r1 r3 r2 r4 30 in
  let '(r0, r1, r3, r2, r4) := S6 r0 r1 r3 r2 r4 in let '(r3, r4, r1, r2, r0) := LK k r3 r4 r1 r2 r0 31 in
  let '(r3, r4, r1, r2, r0) := S7 r3 r4 r1 r2 r0 in let '(r0, r1, r2, r3) := K k r0 r1 r2 r3 32 in
  (r0, r1, r2, r3).

Definition serpent_decrypt_words (k : list Z) (r0 r1 r2 r3 r4 : Z) : Z * Z * Z * Z :=
  let '(r0, r1, r2, r3) := K k r0 r1 r2 r3 32 in
  let '(r0, r1, r2, r3, r4) := SI7 r0 r1 r2 r3 r4 in let '(r1, r3, r0, r4, r2) := KL k r1 r3 r0 r4 r2 31 in
  let '(r1, r3, r0, r4, r2) := SI6 r1 r3 r0 r4 r2 in let '(r0, r2, r4, r1, r3) := KL k r0 r2 r4 r1 r3 30 in
  let '(r0, r2, r4, r1, r3) := SI5 r0 r2 r4 r1 r3 in let '(r2, r3, r0, r4, r1) := KL k r2 r3 r0 r4 r1 29 in
  let '(r2, r3, r0, r4, r1) := SI4 r2 r3 r0 r4 r1 in let '(r2, r0, r1, r4, r3) := KL k r2 r0 r1 r4 r3 28 in
  let '(r2, r0, r1, r4, r3) := SI3 r2 r0 r1 r4 r3 in let '(r1, r2, r3, r4, r0) := KL k r1 r2 r3 r4 r0 27 in
  let '(r1, r2, r3, r4, r0) := SI2 r1 r2 r3 r4 r0 in let '(r2, r0, r4, r3, r1) := KL k r2 r0 r4 r3 r1 26 in
  let '(r2, r0, r4, r3, r1) := SI1 r2 r0 r4 r3 r1 in let '(r1, r0, r4, r3, r2) := KL k r1 r0 r4 r3 r2 25 in
  let '(r1, r0, r4, r3, r2) := SI0 r1 r0 r4 r3 r2 in let '(r4, r2, r0, r1, r3) := KL k r4 r2 r0 r1 r3 24 in
  let '(r4, r2, r0, r1, r3) := SI7 r4 r2 r0 r1 r3 in let '(r2, r1, r4, r3, r0) := KL k r2 r1 r4 r3 r0 23 in
  let '(r2, r1, r4, r3, r0) := SI6 r2 r1 r4 r3 r0 in let '(r4, r0, r3, r2, r1) := KL k r4 r0 r3 r2 r1 22 in
  let '(r4, r0, r3, r2, r1) := SI5 r4 r0 r3 r2 r1 in let '(r0, r1, r4, r3, r2) := KL k r0 r1 r4 r3 r2 21 in
  let '(r0, r1, r4, r3, r2) := SI4 r0 r1 r4 r3 r2 in let '(r0, r4, r2, r3, r1) := KL k r0 r4 r2 r3 r1 20 in
  let '(r0, r4, r2, r3, r1) := SI3 r0 r4 r2 r3 r1 in let '(r2, r0, r1, r3, r4) := KL k r2 r0 r1 r3 r4 19 in
  let '(r2, r0, r1, r3, r4) := SI2 r2 r0 r1 r3 r4 in let '(r0, r4, r3, r1, r2) := KL k r0 r4 r3 r1 r2 18 in
  let '(r0, r4, r3, r1, r2) := SI1 r0 r4 r3 r1 r2 in let '(r2, r4, r3, r1, r0) := KL k r2 r4 r3 r1 r0 17 in
  let '(r2, r4, r3, r1, r0) := SI0 r2 r4 r3 r1 r0 in let '(r3, r0, r4, r2, r1) := KL k r3 r0 r4 r2 r1 16 in
  let '(r3, r0, r4, r2, r1) := SI7 r3 r0 r4 r2 r1 in let '(r0, r2, r3, r1, r4) := KL k r0 r2 r3 r1 r4 15 in
  let '(r0, r2, r3, r1, r4) := SI6 r0 r2 r3 r1 r4 in let '(r3, r4, r1, r0, r2) := KL k r3 r4 r1 r0 r2 14 in
  let '(r3, r4, r1, r0, r2) := SI5 r3 r4 r1 r0 r2 in let '(r4, r2, r3, r1, r0) := KL k r4 r2 r3 r1 r0 13 in
  let '(r4, r2, r3, r1, r0) := SI4 r4 r2 r3 r1 r0 in let '(r4, r3, r0, r1, r2) := KL k r4 r3 r0 r1 r2 12 in
  let '(r4, r3, r0, r1, r2) := SI3 r4 r3 r0 r1 r2 in let '(r0, r4, r2, r1, r3) := KL k r0 r4 r2 r1 r3 11 in
  let '(r0, r4, r2, r1, r3) := SI2 r0 r4 r2 r1 r3 in let '(r4, r3, r1, r2, r0) := KL k r4 r3 r1 r2 r0 10 in
  let '(r4, r3, r1, r2, r0) := SI1 r4 r3 r1 r2 r0 in let '(r0, r3, r1, r2, r4) := KL k r0 r3 r1 r2 r4 9 in
  let '(r0, r3, r1, r2, r4) := SI0 r0 r3 r1 r2 r4 in let '(r1, r4, r3, r0, r2) := KL k r1 r4 r3 r0 r2 8 in
  let '(r1, r4, r3, r0, r2) := SI7 r1 r4 r3 r0 r2 in let '(r4, r0, r1, r2, r3) := KL k r4 r0 r1 r2 r3 7 in
  let '(r4, r0, r1, r2, r3) := SI6 r4 r0 r1 r2 r3 in let '(r1, r3, r2, r4, r0) := KL k r1 r3 r2 r4 r0 6 in
  let '(r1, r3, r2, r4, r0) := SI5 r1 r3 r2 r4 r0 in let '(r3, r0, r1, r2, r4) := KL k r3 r0 r1 r2 r4 5 in
  let '(r3, r0, r1, r2, r4) := SI4 r3 r0 r1 r2 r4 in let '(r3, r1, r4, r2, r0) := KL k r3 r1 r4 r2 r0 4 in
  let '(r3, r1, r4, r2, r0) := SI3 r3 r1 r4 r2 r0 in let '(r4, r3, r0, r2, r1) := KL k r4 r3 r0 r2 r1 3 in
  let '(r4, r3, r0, r2, r1) := SI2 r4 r3 r0 r2 r1 in let '(r3, r1, r2, r0, r4) := KL k r3 r1 r2 r0 r4 2 in
  let '(r3, r1, r2, r0, r4) := SI1 r3 r1 r2 r0 r4 in let '(r4, r1, r2, r0, r3) := KL k r4 r1 r2 r0 r3 1 in
  let '(r4, r1, r2, r0, r3) := SI0 r4 r1 r2 r0 r3 in let '(r2, r3, r1, r4) := K k r2 r3 r1 r4 0 in
  (r2, r3, r1, r4).

(** [le32_to_cpu] of the four words of [src], and [cpu_to_le32] to [dst]. *)
Definition on_words (f : Z -> Z -> Z -> Z -> Z * Z * Z * Z) (src : list Z) : option (list Z) :=
  r0 ← get_le32 src 0;
  r1 ← get_le32 src 4;
  r2 ← get_le32 src 8;
  r3 ← get_le32 src 12;
  let '(d0, d1, d2, d3) := f r0 r1 r2 r3 in
  Some (le32_bytes d0 ++ le32_bytes d1 ++ le32_bytes d2 ++ le32_bytes d3).

Definition serpent_encrypt (r4 : Z) (ctx : serpent_ctx) (src : list Z) : option (list Z) :=
  on_words (fun r0 r1 r2 r3 => serpent_encrypt_words (expkey ctx) r0 r1 r2 r3 r4) src.

Definition serpent_decrypt (r4 : Z) (ctx : serpent_ctx) (src : list Z) : option (list Z) :=
  on_words (fun r0 r1 r2 r3 => serpent_decrypt_words (expkey ctx) r0 r1 r2 r3 r4) src.

Definition serpent_alg (k8 krest : list Z) (r4 : Z) : crypto_alg :=
  CryptoAlg 16 0 32 serpent_ctx (serpent_setkey k8 krest) (serpent_encrypt r4) (serpent_decrypt r4).

(** ** Tnepres: Serpent with the byte order of key and blocks reversed *)

Definition tnepres_setkey (k8 krest rev_key : list Z) (key : list Z) : option serpent_ctx :=
  let keylen := Z.of_nat (length key) in
  rev_key ← c_for_all 0 keylen (fun i rev_key => b ← arr_get key i; arr_set rev_key (keylen - i - 1) b) rev_key;
  serpent_setkey k8 krest (take (length key) rev_key).

Definition tnepres_swap (f : list Z -> option (list Z)) (src : list Z) : option (list Z) :=
  s0 ← get_le32 src 0; s1 ← get_le32 src 4; s2 ← get_le32 src 8; s3 ← get_le32 src 12;
  rd ← f (le32_bytes (swab32 s3) ++ le32_bytes (swab32 s2) ++ le32_bytes (swab32 s1) ++ le32_bytes (swab32 s0));
  d0 ← get_le32 rd 0; d1 ← get_le32 rd 4; d2 ← get_le32 rd 8; d3 ← get_le32 rd 12;
  Some (le32_bytes (swab32 d3) ++ le32_bytes (swab32 d2) ++ le32_bytes (swab32 d1) ++ le32_bytes (swab32 d0)).

Definition tnepres_encrypt (r4 : Z) (ctx : serpent_ctx) : list Z -> option (list Z) :=
  tnepres_swap (serpent_encrypt r4 ctx).
Definition tnepres_decrypt (r4 : Z) (ctx : serpent_ctx) : list Z -> option (list Z) :=
  tnepres_swap (serpent_decrypt r4 ctx).

Definition tnepres_alg (k8 krest rev_key : list Z) (r4 : Z) : crypto_alg :=
  CryptoAlg 16 0 32 serpent_ctx (tnepres_setkey k8 krest rev_key) (tnepres_encrypt r4) (tnepres_decrypt r4).
