(* ===== verification/SerpentCorrect.v ===== *)
(** * Serpent: the reference and the bit-sliced code

    The reference is the cipher as published: S-boxes given by tables of 4-bit
    values, applied to the 32 bit positions of four words, a linear
    transformation, 33 round keys, and the key schedule.  [crypto/serpent.c]
    computes it with Boolean operations on whole words and a register
    allocation that permutes the variables from round to round. *)

From S2P Require Import Prelude Bytes Cipher Serpent.
Open Scope c_scope.

(** ** The reference *)

Abbreviation quad := (Z * Z * Z * Z)%type.

Definition sbox_table (i : nat) : list Z :=
  match i with
  | 0%nat => [3; 8; 15; 1; 10; 6; 5; 11; 14; 13; 4; 2; 7; 0; 9; 12]
  | 1%nat => [15; 12; 2; 7; 9; 0; 5; 10; 1; 11; 14; 8; 6; 13; 3; 4]
  | 2%nat => [8; 6; 7; 9; 3; 12; 10; 15; 13; 1; 14; 4; 0; 11; 5; 2]
  | 3%nat => [0; 15; 11; 8; 12; 9; 6; 3; 13; 1; 2; 4; 10; 7; 5; 14]
  | 4%nat => [1; 15; 8; 3; 12; 0; 11; 6; 2; 5; 4; 10; 9; 14; 7; 13]
  | 5%nat => [15; 5; 2; 11; 4; 10; 9; 12; 0; 3; 14; 8; 13; 6; 7; 1]
  | 6%nat => [7; 2; 12; 5; 8; 4; 6; 11; 14; 9; 1; 15; 13; 3; 10; 0]
  | _ => [1; 13; 15; 0; 14; 8; 2; 11; 7; 4; 12; 10; 9; 3; 5; 6]
  end.

(** The inverse of a table. *)
Fixpoint index_of (v : Z) (l : list Z) : Z :=
  match l with [] => 0 | x :: l => if x =? v then 0 else 1 + index_of v l end.
Definition inverse_table (t : list Z) : list Z :=
  map (fun v => index_of v t) [0; 1; 2; 3; 4; 5; 6; 7; 8; 9; 10; 11; 12; 13; 14; 15].

(** The word with the bits [f 0], ..., [f 31]. *)
Fixpoint of_bits (n : nat) (f : Z -> bool) : Z :=
  match n with
  | O => 0
  | S n => if f (Z.of_nat n) then Z.setbit (of_bits n f) (Z.of_nat n) else of_bits n f
  end.

(** The 4-bit value at position [i], the first word giving the lowest bit. *)
Definition nibble (x : quad) (i : Z) : Z :=
  let '(x0, x1, x2, x3) := x in
  Z.b2z (Z.testbit x0 i) + 2 * Z.b2z (Z.testbit x1 i) + 4 * Z.b2z (Z.testbit x2 i) + 8 * Z.b2z (Z.testbit x3 i).

(** A table applied at all 32 positions. *)
Definition slice (t : list Z) (x : quad) : quad :=
  let out j := of_bits 32 (fun i => Z.testbit (zth t (nibble x i)) j) in
  (out 0, out 1, out 2, out 3).

Definition linear (x : quad) : quad :=
  let '(x0, x1, x2, x3) := x in
  let x0 := rol32 x0 13 in
  let x2 := rol32 x2 3 in
  let x1 := rol32 (x1 .^ x0 .^ x2) 1 in
  let x3 := rol32 (x3 .^ x2 .^ (x0 .<< 3)) 7 in
  let x0 := rol32 (x0 .^ x1 .^ x3) 5 in
  let x2 := rol32 (x2 .^ x3 .^ (x1 .<< 7)) 22 in
  (x0, x1, x2, x3).

Definition add_key (k : list Z) (i : Z) (x : quad) : quad :=
  let '(x0, x1, x2, x3) := x in
  (x0 .^ zth k (4 * i + 0), x1 .^ zth k (4 * i + 1), x2 .^ zth k (4 * i + 2), x3 .^ zth k (4 * i + 3)).

Definition ref_round (k : list Z) (x : quad) (i : nat) : quad :=
  linear (slice (sbox_table (i mod 8)) (add_key k (Z.of_nat i) x)).
Definition ref_encrypt (k : list Z) (x : quad) : quad :=
  let x := fold_left (ref_round k) (seq 0 31) x in
  add_key k 32 (slice (sbox_table 7) (add_key k 31 x)).

Definition unlinear (x : quad) : quad :=
  let '(x0, x1, x2, x3) := x in
  let x2 := ror32 x2 22 .^ x3 .^ (x1 .<< 7) in
  let x0 := ror32 x0 5 .^ x3 .^ x1 in
  let x1 := ror32 x1 1 .^ x0 .^ x2 in
  let x3 := ror32 x3 7 .^ (x0 .<< 3) .^ x2 in
  (ror32 x0 13, x1, ror32 x2 3, x3).

Definition ref_unround (k : list Z) (x : quad) (i : nat) : quad :=
  add_key k (Z.of_nat i) (slice (inverse_table (sbox_table (i mod 8))) (unlinear x)).
Definition ref_decrypt (k : list Z) (x : quad) : quad :=
  let x := add_key k 31 (slice (inverse_table (sbox_table 7)) (add_key k 32 x)) in
  fold_left (ref_unround k) (rev (seq 0 31)) x.

(** ** Words and bits *)

Definition quad_ok (x : quad) : Prop :=
  let '(x0, x1, x2, x3) := x in is_u32 x0 /\ is_u32 x1 /\ is_u32 x2 /\ is_u32 x3.

Lemma testbit_of_bits n f i : 0 <= i -> Z.testbit (of_bits n f) i = (i <? Z.of_nat n) && f i.
Proof.
  intros Hi. induction n as [|n IH]; cbn [of_bits].
  - rewrite Z.bits_0. destruct (Z.ltb_spec i (Z.of_nat 0)); [lia | done].
  - replace (i <? Z.of_nat (S n)) with ((i =? Z.of_nat n) || (i <? Z.of_nat n)).
    2:{ destruct (Z.eqb_spec i (Z.of_nat n)), (Z.ltb_spec i (Z.of_nat n)), (Z.ltb_spec i (Z.of_nat (S n))); lia || done. }
    destruct (f (Z.of_nat n)) eqn:E.
    + rewrite Z.setbit_eqb, IH, (Z.eqb_sym i) by lia. destruct (Z.eqb_spec (Z.of_nat n) i) as [<-|]; [by rewrite E|done].
    + rewrite IH. destruct (Z.eqb_spec i (Z.of_nat n)) as [->|]; [by rewrite E, andb_false_r|done].
Qed.

Lemma of_bits_nonneg n f : 0 <= of_bits n f.
Proof.
  induction n as [|n IH]; cbn [of_bits]; [done|]. destruct (f _); [|done].
  unfold Z.setbit. apply Z.lor_nonneg. split; [done|]. apply Z.shiftl_nonneg. lia.
Qed.

Lemma is_u32_of_bits f : is_u32 (of_bits 32 f).
Proof.
  apply is_u32_testbit. split; [apply of_bits_nonneg|]. intros i Hi. rewrite testbit_of_bits by lia.
  by rewrite (proj2 (Z.ltb_ge _ _)) by lia.
Qed.

#[local] Arguments of_bits : simpl never.

Lemma slice_ok t x : quad_ok (slice t x).
Proof. split; [|split; [|split]]; apply is_u32_of_bits. Qed.

(** ** The S-boxes

    Each macro leaves the result of its table in four of its five arguments,
    in an order of its own, and a temporary in the fifth. *)

Lemma of_bits_eq x f : is_u32 x -> (forall i, 0 <= i < 32 -> Z.testbit x i = f i) -> x = of_bits 32 f.
Proof.
  intros Hx H. apply u32_ext; [done | apply is_u32_of_bits|]. intros i Hi. rewrite testbit_of_bits by lia.
  rewrite (proj2 (Z.ltb_lt _ _)) by lia. by apply H.
Qed.

Ltac word_ok :=
  repeat first [assumption | apply is_u32_not32 | apply is_u32_lxor | apply is_u32_land | apply is_u32_lor].

Ltac sbox_word :=
  apply of_bits_eq; [word_ok|];
  let i := fresh in let Hi := fresh in intros i Hi;
  repeat first [rewrite Z.lxor_spec | rewrite Z.land_spec | rewrite Z.lor_spec | rewrite testbit_not32 by exact Hi];
  unfold nibble;
  repeat match goal with |- context [Z.testbit ?x i] => is_var x; destruct (Z.testbit x i) end;
  vm_compute; reflexivity.

Ltac sbox S :=
  intros (? & ? & ? & ?); unfold S; cbv zeta; eexists; unfold slice; cbv zeta beta iota;
  apply (f_equal2 pair); [apply (f_equal2 pair); [apply (f_equal2 pair); [apply (f_equal2 pair)|]|]|];
  match goal with |- _ = ?e => first [is_evar e; reflexivity | sbox_word] end.

Lemma S0_slice x0 x1 x2 x3 x4 : quad_ok (x0, x1, x2, x3) -> exists t,
  S0 x0 x1 x2 x3 x4 = let '(y0, y1, y2, y3) := slice (sbox_table 0) (x0, x1, x2, x3) in (y3, y1, y0, y2, t).
Proof. sbox S0. Qed.
Lemma S1_slice x0 x1 x2 x3 x4 : quad_ok (x0, x1, x2, x3) -> exists t,
  S1 x0 x1 x2 x3 x4 = let '(y0, y1, y2, y3) := slice (sbox_table 1) (x0, x1, x2, x3) in (y3, t, y1, y2, y0).
Proof. sbox S1. Qed.
Lemma S2_slice x0 x1 x2 x3 x4 : quad_ok (x0, x1, x2, x3) -> exists t,
  S2 x0 x1 x2 x3 x4 = let '(y0, y1, y2, y3) := slice (sbox_table 2) (x0, x1, x2, x3) in (y2, y1, t, y3, y0).
Proof. sbox S2. Qed.
Lemma S3_slice x0 x1 x2 x3 x4 : quad_ok (x0, x1, x2, x3) -> exists t,
  S3 x0 x1 x2 x3 x4 = let '(y0, y1, y2, y3) := slice (sbox_table 3) (x0, x1, x2, x3) in (y3, y2, t, y0, y1).
Proof. sbox S3. Qed.
Lemma S4_slice x0 x1 x2 x3 x4 : quad_ok (x0, x1, x2, x3) -> exists t,
  S4 x0 x1 x2 x3 x4 = let '(y0, y1, y2, y3) := slice (sbox_table 4) (x0, x1, x2, x3) in (t, y0, y1, y2, y3).
Proof. sbox S4. Qed.
Lemma S5_slice x0 x1 x2 x3 x4 : quad_ok (x0, x1, x2, x3) -> exists t,
  S5 x0 x1 x2 x3 x4 = let '(y0, y1, y2, y3) := slice (sbox_table 5) (x0, x1, x2, x3) in (y1, y2, t, y3, y0).
Proof. sbox S5. Qed.
Lemma S6_slice x0 x1 x2 x3 x4 : quad_ok (x0, x1, x2, x3) -> exists t,
  S6 x0 x1 x2 x3 x4 = let '(y0, y1, y2, y3) := slice (sbox_table 6) (x0, x1, x2, x3) in (t, y2, y0, y3, y1).
Proof. sbox S6. Qed.
Lemma S7_slice x0 x1 x2 x3 x4 : quad_ok (x0, x1, x2, x3) -> exists t,
  S7 x0 x1 x2 x3 x4 = let '(y0, y1, y2, y3) := slice (sbox_table 7) (x0, x1, x2, x3) in (y3, t, y1, y2, y0).
Proof. sbox S7. Qed.
Lemma SI0_slice x0 x1 x2 x3 x4 : quad_ok (x0, x1, x2, x3) -> exists t,
  SI0 x0 x1 x2 x3 x4 = let '(y0, y1, y2, y3) := slice (inverse_table (sbox_table 0)) (x0, x1, x2, x3) in (y3, y2, y0, t, y1).
Proof. sbox SI0. Qed.
Lemma SI1_slice x0 x1 x2 x3 x4 : quad_ok (x0, x1, x2, x3) -> exists t,
  SI1 x0 x1 x2 x3 x4 = let '(y0, y1, y2, y3) := slice (inverse_table (sbox_table 1)) (x0, x1, x2, x3) in (t, y1, y2, y3, y0).
Proof. sbox SI1. Qed.
Lemma SI2_slice x0 x1 x2 x3 x4 : quad_ok (x0, x1, x2, x3) -> exists t,
  SI2 x0 x1 x2 x3 x4 = let '(y0, y1, y2, y3) := slice (inverse_table (sbox_table 2)) (x0, x1, x2, x3) in (t, y0, y3, y2, y1).
Proof. sbox SI2. Qed.
Lemma SI3_slice x0 x1 x2 x3 x4 : quad_ok (x0, x1, x2, x3) -> exists t,
  SI3 x0 x1 x2 x3 x4 = let '(y0, y1, y2, y3) := slice (inverse_table (sbox_table 3)) (x0, x1, x2, x3) in (y1, t, y0, y3, y2).
Proof. sbox SI3. Qed.
Lemma SI4_slice x0 x1 x2 x3 x4 : quad_ok (x0, x1, x2, x3) -> exists t,
  SI4 x0 x1 x2 x3 x4 = let '(y0, y1, y2, y3) := slice (inverse_table (sbox_table 4)) (x0, x1, x2, x3) in (y0, t, y1, y3, y2).
Proof. sbox SI4. Qed.
Lemma SI5_slice x0 x1 x2 x3 x4 : quad_ok (x0, x1, x2, x3) -> exists t,
  SI5 x0 x1 x2 x3 x4 = let '(y0, y1, y2, y3) := slice (inverse_table (sbox_table 5)) (x0, x1, x2, x3) in (y2, y0, y3, t, y1).
Proof. sbox SI5. Qed.
Lemma SI6_slice x0 x1 x2 x3 x4 : quad_ok (x0, x1, x2, x3) -> exists t,
  SI6 x0 x1 x2 x3 x4 = let '(y0, y1, y2, y3) := slice (inverse_table (sbox_table 6)) (x0, x1, x2, x3) in (y3, t, y0, y2, y1).
Proof. sbox SI6. Qed.
Lemma SI7_slice x0 x1 x2 x3 x4 : quad_ok (x0, x1, x2, x3) -> exists t,
  SI7 x0 x1 x2 x3 x4 = let '(y0, y1, y2, y3) := slice (inverse_table (sbox_table 7)) (x0, x1, x2, x3) in (y2, y0, t, y1, y3).
Proof. sbox SI7. Qed.

(** ** Inverses *)

Lemma nibble_range x i : 0 <= nibble x i < 16.
Proof. destruct x as [[[x0 x1] x2] x3]. unfold nibble. by destruct (Z.testbit x0 i), (Z.testbit x1 i), (Z.testbit x2 i), (Z.testbit x3 i). Qed.

Lemma nibble_recompose v : 0 <= v < 16 ->
  Z.b2z (Z.testbit v 0) + 2 * Z.b2z (Z.testbit v 1) + 4 * Z.b2z (Z.testbit v 2) + 8 * Z.b2z (Z.testbit v 3) = v.
Proof.
  intros Hv. assert (forallb (fun v => Z.b2z (Z.testbit v 0) + 2 * Z.b2z (Z.testbit v 1) + 4 * Z.b2z (Z.testbit v 2) +
    8 * Z.b2z (Z.testbit v 3) =? v) (map Z.of_nat (seq 0 16)) = true) as H by (vm_compute; reflexivity).
  rewrite forallb_forall in H. apply Z.eqb_eq, H, in_map_iff. exists (Z.to_nat v).
  split; [lia|]. apply in_seq. lia.
Qed.

Definition nibble_table (t : list Z) : Prop := forall n, 0 <= n < 16 -> 0 <= zth t n < 16.

Lemma nibble_slice t x i : nibble_table t -> 0 <= i < 32 -> nibble (slice t x) i = zth t (nibble x i).
Proof.
  intros Ht Hi. unfold slice. cbv zeta. unfold nibble at 1. rewrite !testbit_of_bits by lia.
  rewrite (proj2 (Z.ltb_lt i (Z.of_nat 32))) by lia. cbn [andb].
  apply nibble_recompose, Ht, nibble_range.
Qed.

Lemma quad_ext x y : quad_ok x -> quad_ok y -> (forall i, 0 <= i < 32 -> nibble x i = nibble y i) -> x = y.
Proof.
  destruct x as [[[x0 x1] x2] x3], y as [[[y0 y1] y2] y3]. intros (X0 & X1 & X2 & X3) (Y0 & Y1 & Y2 & Y3) H.
  assert (forall i, 0 <= i < 32 -> Z.testbit x0 i = Z.testbit y0 i /\ Z.testbit x1 i = Z.testbit y1 i /\
    Z.testbit x2 i = Z.testbit y2 i /\ Z.testbit x3 i = Z.testbit y3 i) as Hb.
  { intros i Hi. specialize (H i Hi). unfold nibble in H.
    destruct (Z.testbit x0 i), (Z.testbit x1 i), (Z.testbit x2 i), (Z.testbit x3 i),
      (Z.testbit y0 i), (Z.testbit y1 i), (Z.testbit y2 i), (Z.testbit y3 i); simpl in H; lia || done. }
  repeat apply (f_equal2 pair); apply u32_ext; try done; intros i Hi; by apply Hb.
Qed.

Lemma slice_slice t t' x : nibble_table t -> nibble_table t' ->
  (forall n, 0 <= n < 16 -> zth t' (zth t n) = n) -> quad_ok x -> slice t' (slice t x) = x.
Proof.
  intros Ht Ht' Hinv Hx. apply quad_ext; [apply slice_ok | done|]. intros i Hi.
  rewrite !nibble_slice by done. apply Hinv, nibble_range.
Qed.

Lemma tables_checked j n : 0 <= n < 16 ->
  0 <= zth (sbox_table j) n < 16 /\ 0 <= zth (inverse_table (sbox_table j)) n < 16 /\
  zth (inverse_table (sbox_table j)) (zth (sbox_table j) n) = n /\
  zth (sbox_table j) (zth (inverse_table (sbox_table j)) n) = n.
Proof.
  intros Hn. rewrite <- (Z2Nat.id n) by lia. assert (Z.to_nat n < 16)%nat as Hk by lia. revert Hk.
  generalize (Z.to_nat n). intros k Hk. clear n Hn.
  destruct j as [|[|[|[|[|[|[|]]]]]]]; (do 16 (destruct k as [|k]; [vm_compute; repeat split; congruence|])); lia.
Qed.

Lemma slice_inverse j x : quad_ok x ->
  slice (inverse_table (sbox_table j)) (slice (sbox_table j) x) = x /\
  slice (sbox_table j) (slice (inverse_table (sbox_table j)) x) = x.
Proof. intros Hx. split; apply slice_slice; try done; intros n Hn; by apply (tables_checked j n). Qed.

(** *** Rotations and the linear transformation *)

Lemma is_u32_rol32 x n : is_u32 x -> 0 <= n <= 32 -> is_u32 (rol32 x n).
Proof. intros Hx Hn. apply is_u32_lor; [apply is_u32_shl32 | apply is_u32_shiftr; [done | lia]]. Qed.
Lemma is_u32_ror32 x n : is_u32 x -> 0 <= n -> is_u32 (ror32 x n).
Proof. intros Hx Hn. apply is_u32_lor; [by apply is_u32_shiftr | apply is_u32_shl32]. Qed.

Lemma testbit_rol32 x n i : is_u32 x -> 0 < n < 32 -> 0 <= i < 32 ->
  Z.testbit (rol32 x n) i = if i <? n then Z.testbit x (i + 32 - n) else Z.testbit x (i - n).
Proof.
  intros Hx Hn Hi. unfold rol32. rewrite Z.lor_spec, testbit_shl32, Z.shiftr_spec by lia.
  destruct (Z.ltb_spec i n).
  - rewrite Z.testbit_neg_r by lia. simpl. f_equal. lia.
  - rewrite (testbit_above x 32 (i + (32 - n))) by first [done | lia]. apply orb_false_r.
Qed.

Lemma testbit_ror32 x n i : is_u32 x -> 0 < n < 32 -> 0 <= i < 32 ->
  Z.testbit (ror32 x n) i = if i <? 32 - n then Z.testbit x (i + n) else Z.testbit x (i + n - 32).
Proof.
  intros Hx Hn Hi. unfold ror32. rewrite Z.lor_spec, testbit_shl32, Z.shiftr_spec by lia.
  destruct (Z.ltb_spec i (32 - n)).
  - rewrite (Z.testbit_neg_r x (i - (32 - n))) by lia. apply orb_false_r.
  - rewrite (testbit_above x 32 (i + n)) by first [done | lia]. simpl. f_equal. lia.
Qed.

Lemma ror_rol x n : is_u32 x -> 0 < n < 32 -> ror32 (rol32 x n) n = x.
Proof.
  intros Hx Hn. assert (is_u32 (rol32 x n)) by (apply is_u32_rol32; [done | lia]).
  apply u32_ext; [apply is_u32_ror32; [done | lia] | done|]. intros i Hi.
  rewrite testbit_ror32 by done. destruct (Z.ltb_spec i (32 - n)); rewrite testbit_rol32 by first [done | lia].
  - rewrite (proj2 (Z.ltb_ge _ _)) by lia. f_equal. lia.
  - rewrite (proj2 (Z.ltb_lt _ _)) by lia. f_equal. lia.
Qed.

Lemma rol_ror x n : is_u32 x -> 0 < n < 32 -> rol32 (ror32 x n) n = x.
Proof.
  intros Hx Hn. assert (is_u32 (ror32 x n)) by (apply is_u32_ror32; [done | lia]).
  apply u32_ext; [apply is_u32_rol32; [done | lia] | done|]. intros i Hi.
  rewrite testbit_rol32 by done. destruct (Z.ltb_spec i n); rewrite testbit_ror32 by first [done | lia].
  - rewrite (proj2 (Z.ltb_ge _ _)) by lia. f_equal. lia.
  - rewrite (proj2 (Z.ltb_lt _ _)) by lia. f_equal. lia.
Qed.

(** Equality of exclusive ors, bit by bit. *)
Ltac lxor_ring :=
  let i := fresh in let Hi := fresh in
  apply Z.bits_inj'; intros i Hi; rewrite !Z.lxor_spec;
  repeat match goal with |- context [Z.testbit ?x i] => destruct (Z.testbit x i) end; reflexivity.

Ltac rot_ok :=
  repeat first [assumption | apply is_u32_shl32 | apply is_u32_lxor | apply is_u32_rol32 | apply is_u32_ror32 | lia].

Lemma linear_ok x : quad_ok x -> quad_ok (linear x).
Proof.
  destruct x as [[[x0 x1] x2] x3]. intros (? & ? & ? & ?). unfold linear. cbv zeta.
  split; [|split; [|split]]; rot_ok.
Qed.

Lemma unlinear_ok x : quad_ok x -> quad_ok (unlinear x).
Proof.
  destruct x as [[[x0 x1] x2] x3]. intros (? & ? & ? & ?). unfold unlinear. cbv zeta.
  split; [|split; [|split]]; rot_ok.
Qed.

Lemma lxor_cancel2 a b c : a .^ b .^ c .^ c .^ b = a.
Proof. lxor_ring. Qed.
Lemma lxor_cancel2' a b c : a .^ b .^ c .^ b .^ c = a.
Proof. lxor_ring. Qed.

Lemma unlinear_linear x : quad_ok x -> unlinear (linear x) = x.
Proof.
  destruct x as [[[x0 x1] x2] x3]. intros (? & ? & ? & ?). unfold linear, unlinear. cbv zeta.
  set (y0 := rol32 x0 13). set (y2 := rol32 x2 3). set (y1 := rol32 (x1 .^ y0 .^ y2) 1).
  set (y3 := rol32 (x3 .^ y2 .^ (y0 .<< 3)) 7).
  assert (is_u32 y0 /\ is_u32 y2 /\ is_u32 y1 /\ is_u32 y3) as (? & ? & ? & ?)
    by (subst y0 y2 y1 y3; repeat split; rot_ok).
  rewrite !(ror_rol (y2 .^ _ .^ _) 22), !(ror_rol (y0 .^ _ .^ _) 5) by first [lia | rot_ok].
  rewrite (lxor_cancel2' y2 y3), (lxor_cancel2 y0 y1 y3). subst y1 y3.
  rewrite !ror_rol by first [lia | rot_ok]. rewrite lxor_cancel2', lxor_cancel2. subst y0 y2.
  by rewrite !ror_rol by first [lia | rot_ok].
Qed.

Lemma linear_unlinear x : quad_ok x -> linear (unlinear x) = x.
Proof.
  destruct x as [[[x0 x1] x2] x3]. intros (? & ? & ? & ?). unfold linear, unlinear. cbv zeta.
  set (y2 := ror32 x2 22 .^ x3 .^ (x1 .<< 7)). set (y0 := ror32 x0 5 .^ x3 .^ x1).
  assert (is_u32 y0 /\ is_u32 y2) as (? & ?) by (subst y0 y2; split; rot_ok).
  rewrite !(rol_ror y0), !(rol_ror y2) by (done || lia). rewrite !lxor_cancel2', !lxor_cancel2.
  rewrite !(rol_ror x1), !(rol_ror x3) by (done || lia). subst y0 y2.
  rewrite !lxor_cancel2', !lxor_cancel2. by rewrite !rol_ror by (done || lia).
Qed.

(** ** The cipher functions *)

Definition key_ok (k : list Z) : Prop := length k = 132%nat /\ Forall is_u32 k.

Lemma key_word k i : key_ok k -> is_u32 (zth k i).
Proof.
  intros [_ Hk]. unfold zth. destruct (arr_get k i) as [w|] eqn:E; [|done]. simpl.
  unfold arr_get in E. destruct (0 <=? i); [|done]. rewrite Forall_forall in Hk.
  apply Hk, list_elem_of_In. by eapply list_elem_of_lookup_2.
Qed.

Lemma add_key_ok k i x : key_ok k -> quad_ok x -> quad_ok (add_key k i x).
Proof.
  intros Hk. destruct x as [[[x0 x1] x2] x3]. intros (? & ? & ? & ?).
  split; [|split; [|split]]; (apply is_u32_lxor; [done | by apply key_word]).
Qed.

Lemma add_key_twice k i x : add_key k i (add_key k i x) = x.
Proof.
  destruct x as [[[x0 x1] x2] x3]. unfold add_key.
  by rewrite !Z.lxor_assoc, !Z.lxor_nilpotent, !Z.lxor_0_r.
Qed.

Lemma K_key k x0 x1 x2 x3 i : K k x0 x1 x2 x3 i = add_key k i (x0, x1, x2, x3).
Proof. reflexivity. Qed.

Lemma LK_linear k x0 x1 x2 x3 x4 i : exists t,
  LK k x0 x1 x2 x3 x4 i = let '(y0, y1, y2, y3) := add_key k i (linear (x0, x1, x2, x3)) in (y0, y1, y2, y3, t).
Proof. unfold LK, add_key, linear. cbv zeta. eexists. reflexivity. Qed.

Lemma KL_unlinear k x0 x1 x2 x3 x4 i : exists t,
  KL k x0 x1 x2 x3 x4 i = let '(y0, y1, y2, y3) := unlinear (add_key k i (x0, x1, x2, x3)) in (y0, y1, y2, y3, t).
Proof. unfold KL, add_key, unlinear. cbv zeta. eexists. reflexivity. Qed.

(** A round: the S-box and the linear transformation with the next key.  The
    variables are named by what they hold. *)
Ltac code_step :=
  match goal with
  | Hq : quad_ok (?a, ?b, ?c, ?d) |- context [S0 ?a ?b ?c ?d ?e] => destruct (S0_slice a b c d e Hq) as [? ->]
  | Hq : quad_ok (?a, ?b, ?c, ?d) |- context [S1 ?a ?b ?c ?d ?e] => destruct (S1_slice a b c d e Hq) as [? ->]
  | Hq : quad_ok (?a, ?b, ?c, ?d) |- context [S2 ?a ?b ?c ?d ?e] => destruct (S2_slice a b c d e Hq) as [? ->]
  | Hq : quad_ok (?a, ?b, ?c, ?d) |- context [S3 ?a ?b ?c ?d ?e] => destruct (S3_slice a b c d e Hq) as [? ->]
  | Hq : quad_ok (?a, ?b, ?c, ?d) |- context [S4 ?a ?b ?c ?d ?e] => destruct (S4_slice a b c d e Hq) as [? ->]
  | Hq : quad_ok (?a, ?b, ?c, ?d) |- context [S5 ?a ?b ?c ?d ?e] => destruct (S5_slice a b c d e Hq) as [? ->]
  | Hq : quad_ok (?a, ?b, ?c, ?d) |- context [S6 ?a ?b ?c ?d ?e] => destruct (S6_slice a b c d e Hq) as [? ->]
  | Hq : quad_ok (?a, ?b, ?c, ?d) |- context [S7 ?a ?b ?c ?d ?e] => destruct (S7_slice a b c d e Hq) as [? ->]
  | Hq : quad_ok (?a, ?b, ?c, ?d) |- context [SI0 ?a ?b ?c ?d ?e] => destruct (SI0_slice a b c d e Hq) as [? ->]
  | Hq : quad_ok (?a, ?b, ?c, ?d) |- context [SI1 ?a ?b ?c ?d ?e] => destruct (SI1_slice a b c d e Hq) as [? ->]
  | Hq : quad_ok (?a, ?b, ?c, ?d) |- context [SI2 ?a ?b ?c ?d ?e] => destruct (SI2_slice a b c d e Hq) as [? ->]
  | Hq : quad_ok (?a, ?b, ?c, ?d) |- context [SI3 ?a ?b ?c ?d ?e] => destruct (SI3_slice a b c d e Hq) as [? ->]
  | Hq : quad_ok (?a, ?b, ?c, ?d) |- context [SI4 ?a ?b ?c ?d ?e] => destruct (SI4_slice a b c d e Hq) as [? ->]
  | Hq : quad_ok (?a, ?b, ?c, ?d) |- context [SI5 ?a ?b ?c ?d ?e] => destruct (SI5_slice a b c d e Hq) as [? ->]
  | Hq : quad_ok (?a, ?b, ?c, ?d) |- context [SI6 ?a ?b ?c ?d ?e] => destruct (SI6_slice a b c d e Hq) as [? ->]
  | Hq : quad_ok (?a, ?b, ?c, ?d) |- context [SI7 ?a ?b ?c ?d ?e] => destruct (SI7_slice a b c d e Hq) as [? ->]
  end.

(** One macro of the code, and the same step of the reference: the quadruple
    that it computes is named on both sides. *)
Ltac name_quad Hok :=
  lazymatch type of Hok with quad_ok ?q => destruct q as [[[? ?] ?] ?] end; cbv beta iota.

Ltac serpent_step :=
  let H := fresh "H" in
  lazymatch goal with
  | Hk : key_ok ?k, Hq : quad_ok (?a, ?b, ?c, ?d) |- context [match K ?k ?a ?b ?c ?d ?i with _ => _ end] =>
      rewrite (K_key k a b c d i); pose proof (add_key_ok k i _ Hk Hq) as H; clear Hq; name_quad H
  | Hk : key_ok ?k, Hq : quad_ok (?a, ?b, ?c, ?d) |- context [match LK ?k ?a ?b ?c ?d ?e ?i with _ => _ end] =>
      destruct (LK_linear k a b c d e i) as [? ->];
      pose proof (add_key_ok k i _ Hk (linear_ok _ Hq)) as H; clear Hq; name_quad H
  | Hk : key_ok ?k, Hq : quad_ok (?a, ?b, ?c, ?d) |- context [match KL ?k ?a ?b ?c ?d ?e ?i with _ => _ end] =>
      destruct (KL_unlinear k a b c d e i) as [? ->];
      pose proof (unlinear_ok _ (add_key_ok k i _ Hk Hq)) as H; clear Hq; name_quad H
  | Hq : quad_ok ?x |- context [slice ?t ?x] =>
      code_step; pose proof (slice_ok t x) as H; clear Hq; name_quad H
  end.

(** The constants of the unfolded reference. *)
Ltac ref_constants :=
  repeat match goal with
  | |- context [Z.of_nat ?n] => let v := eval vm_compute in (Z.of_nat n) in change (Z.of_nat n) with v
  | |- context [Nat.modulo ?n 8] => let v := eval vm_compute in (Nat.modulo n 8) in change (Nat.modulo n 8) with v
  end.

Lemma serpent_encrypt_words_ref k r0 r1 r2 r3 r4 : key_ok k -> quad_ok (r0, r1, r2, r3) ->
  serpent_encrypt_words k r0 r1 r2 r3 r4 = ref_encrypt k (r0, r1, r2, r3).
Proof.
  intros Hk Hx. unfold serpent_encrypt_words, ref_encrypt, ref_round. cbn [seq fold_left]. ref_constants.
  do 64 serpent_step. apply K_key.
Qed.

Lemma serpent_decrypt_words_ref k r0 r1 r2 r3 r4 : key_ok k -> quad_ok (r0, r1, r2, r3) ->
  serpent_decrypt_words k r0 r1 r2 r3 r4 = ref_decrypt k (r0, r1, r2, r3).
Proof.
  intros Hk Hx. unfold serpent_decrypt_words, ref_decrypt, ref_unround. cbn [seq rev app fold_left]. ref_constants.
  do 64 serpent_step. rewrite K_key. by destruct (add_key k 0 _) as [[[? ?] ?] ?].
Qed.

(** ** The reference is invertible *)

Lemma ref_unround_round k x i : key_ok k -> quad_ok x -> ref_unround k (ref_round k x i) i = x.
Proof.
  intros Hk Hx. unfold ref_unround, ref_round. rewrite unlinear_linear by apply slice_ok.
  rewrite (proj1 (slice_inverse _ _ (add_key_ok k _ _ Hk Hx))). apply add_key_twice.
Qed.

Lemma ref_round_unround k x i : key_ok k -> quad_ok x -> ref_round k (ref_unround k x i) i = x.
Proof.
  intros Hk Hx. unfold ref_unround, ref_round. rewrite add_key_twice.
  rewrite (proj2 (slice_inverse _ _ (unlinear_ok _ Hx))). by apply linear_unlinear.
Qed.

Lemma ref_round_ok k x i : quad_ok (ref_round k x i).
Proof. apply linear_ok, slice_ok. Qed.
Lemma ref_unround_ok k x i : key_ok k -> quad_ok (ref_unround k x i).
Proof. intros Hk. apply add_key_ok; [done | apply slice_ok]. Qed.

Lemma ref_rounds_ok k l x : quad_ok x -> quad_ok (fold_left (ref_round k) l x).
Proof. revert x. induction l as [|i l IH]; intros x Hx; [done|]. apply IH, ref_round_ok. Qed.
Lemma ref_unrounds_ok k l x : key_ok k -> quad_ok x -> quad_ok (fold_left (ref_unround k) l x).
Proof. intros Hk. revert x. induction l as [|i l IH]; intros x Hx; [done|]. by apply IH, ref_unround_ok. Qed.

Lemma ref_unrounds_rounds k l x : key_ok k -> quad_ok x ->
  fold_left (ref_unround k) (rev l) (fold_left (ref_round k) l x) = x.
Proof.
  intros Hk. revert x. induction l as [|i l IH]; intros x Hx; [done|]. simpl.
  rewrite fold_left_app. simpl. rewrite IH by apply ref_round_ok. by apply ref_unround_round.
Qed.

Lemma ref_rounds_unrounds k l x : key_ok k -> quad_ok x ->
  fold_left (ref_round k) l (fold_left (ref_unround k) (rev l) x) = x.
Proof.
  intros Hk Hx. revert x Hx. induction l as [|i l IH]; intros x Hx; [done|]. simpl.
  rewrite fold_left_app. simpl. rewrite ref_round_unround by first [done | by apply ref_unrounds_ok]. by apply IH.
Qed.

Lemma ref_decrypt_encrypt k x : key_ok k -> quad_ok x -> ref_decrypt k (ref_encrypt k x) = x.
Proof.
  intros Hk Hx. unfold ref_decrypt, ref_encrypt. cbv zeta. rewrite add_key_twice.
  rewrite (proj1 (slice_inverse 7 _ (add_key_ok k 31 _ Hk (ref_rounds_ok k _ x Hx)))), add_key_twice.
  by apply ref_unrounds_rounds.
Qed.

Lemma ref_encrypt_decrypt k x : key_ok k -> quad_ok x -> ref_encrypt k (ref_decrypt k x) = x.
Proof.
  intros Hk Hx. unfold ref_decrypt, ref_encrypt. cbv zeta.
  rewrite ref_rounds_unrounds by first [done | apply add_key_ok; [done | apply slice_ok]].
  rewrite add_key_twice, (proj2 (slice_inverse 7 _ (add_key_ok k 32 _ Hk Hx))). apply add_key_twice.
Qed.

Lemma ref_encrypt_ok k x : key_ok k -> quad_ok (ref_encrypt k x).
Proof. intros Hk. apply add_key_ok; [done | apply slice_ok]. Qed.
Lemma ref_decrypt_ok k x : key_ok k -> quad_ok (ref_decrypt k x).
Proof. intros Hk. apply ref_unrounds_ok; [done|]. apply add_key_ok; [done | apply slice_ok]. Qed.

(** ** Blocks *)

Definition quad_block (x : quad) : list Z :=
  let '(x0, x1, x2, x3) := x in le32_bytes x0 ++ le32_bytes x1 ++ le32_bytes x2 ++ le32_bytes x3.

Lemma quad_block_words b : block 16 b -> exists x, quad_ok x /\ b = quad_block x.
Proof.
  intros (ws & Hl & Hw & ->)%(block_words 4). destruct ws as [|x0 [|x1 [|x2 [|x3 [|]]]]]; try done.
  rewrite !Forall_cons_iff in Hw. exists (x0, x1, x2, x3). split; [unfold quad_ok; tauto|].
  cbn [map concat quad_block]. by rewrite app_nil_r.
Qed.

Lemma quad_block_ok x : block 16 (quad_block x).
Proof.
  destruct x as [[[x0 x1] x2] x3]. split; [done|].
  do 3 (apply Forall_app; split; [apply le32_bytes_byte|]). apply le32_bytes_byte.
Qed.

Lemma quad_block_get x0 x1 x2 x3 : quad_ok (x0, x1, x2, x3) -> let b := quad_block (x0, x1, x2, x3) in
  get_le32 b 0 = Some x0 /\ get_le32 b 4 = Some x1 /\ get_le32 b 8 = Some x2 /\ get_le32 b 12 = Some x3.
Proof.
  intros (H0 & H1 & H2 & H3). unfold quad_block. cbv zeta.
  replace (le32_bytes x0 ++ le32_bytes x1 ++ le32_bytes x2 ++ le32_bytes x3)
    with (concat (map le32_bytes [x0; x1; x2; x3])) by (cbn [map concat]; by rewrite app_nil_r).
  assert (Forall is_u32 [x0; x1; x2; x3]) as Hw by (by repeat (apply Forall_cons_2; [done|])).
  by rewrite (get_le32_words _ 0 x0), (get_le32_words _ 1 x1), (get_le32_words _ 2 x2), (get_le32_words _ 3 x3).
Qed.

Lemma on_words_quad f x0 x1 x2 x3 : quad_ok (x0, x1, x2, x3) ->
  on_words f (quad_block (x0, x1, x2, x3)) = Some (quad_block (f x0 x1 x2 x3)).
Proof.
  intros Hx. destruct (quad_block_get _ _ _ _ Hx) as (E0 & E1 & E2 & E3). unfold on_words.
  rewrite E0, bind_Some_eq, E1, bind_Some_eq, E2, bind_Some_eq, E3, bind_Some_eq.
  by destruct (f x0 x1 x2 x3) as [[[d0 d1] d2] d3].
Qed.

Lemma serpent_encrypt_ref r4 c x : key_ok (expkey c) -> quad_ok x ->
  serpent_encrypt r4 c (quad_block x) = Some (quad_block (ref_encrypt (expkey c) x)).
Proof.
  destruct x as [[[x0 x1] x2] x3]. intros Hk Hx. unfold serpent_encrypt. rewrite on_words_quad by done.
  by rewrite serpent_encrypt_words_ref.
Qed.

Lemma serpent_decrypt_ref r4 c x : key_ok (expkey c) -> quad_ok x ->
  serpent_decrypt r4 c (quad_block x) = Some (quad_block (ref_decrypt (expkey c) x)).
Proof.
  destruct x as [[[x0 x1] x2] x3]. intros Hk Hx. unfold serpent_decrypt. rewrite on_words_quad by done.
  by rewrite serpent_decrypt_words_ref.
Qed.
