(* ===== verification/SerpentKey.v ===== *)
(** * Serpent: the key schedule

    [serpent_setkey] of [crypto/serpent.c] computes the published key schedule:
    the padded key gives eight words, an affine recurrence 132 further words,
    and the S-boxes turn these into the 33 round keys.  The code keeps the last
    five words in variables that change places, moves the base pointer and
    overwrites the array in place. *)

From S2P Require Import Prelude Bytes Cipher Serpent SerpentCorrect.
Open Scope c_scope.

(** ** The reference *)

(** [ws] has at least eight words; the next word from the last eight. *)
Definition next_word (ws : list Z) (n : Z) : Z :=
  rol32 (zth ws n .^ zth ws (n + 3) .^ zth ws (n + 5) .^ zth ws (n + 7) .^ PHI .^ n) 11.

Fixpoint prekeys (n : nat) (ws : list Z) : list Z :=
  match n with
  | O => ws
  | S n => let l := prekeys n ws in l ++ [next_word l (Z.of_nat n)]
  end.

Definition padded_key (key : list Z) : list Z :=
  key ++ (if (length key <? 32)%nat then 1 :: replicate (31 - length key) 0 else []).

Definition quad_list (x : quad) : list Z := let '(x0, x1, x2, x3) := x in [x0; x1; x2; x3].

(** The round keys from the words [W i], [0 <= i < 132]. *)
Definition round_key (W : Z -> Z) (i : Z) : quad :=
  slice (sbox_table (Z.to_nat ((35 - i) mod 8))) (W (4 * i), W (4 * i + 1), W (4 * i + 2), W (4 * i + 3)).
Definition round_keys (W : Z -> Z) (lo n : Z) : list Z :=
  concat (map (fun i => quad_list (round_key W i)) (seqZ lo n)).

(** The words before the S-boxes; those of the key have negative indices. *)
Definition word_at (ws : list Z) (i : Z) : Z := zth (prekeys 132 ws) (i + 8).
Definition ref_setkey (ws : list Z) : list Z := round_keys (word_at ws) 0 33.

(** ** The recurrence *)

Lemma length_prekeys n ws : length (prekeys n ws) = (length ws + n)%nat.
Proof. induction n as [|n IH]; cbn [prekeys]; [lia|]. rewrite length_app, IH. simpl. lia. Qed.

Lemma zth_app_l (l l' : list Z) i : 0 <= i < Z.of_nat (length l) -> zth (l ++ l') i = zth l i.
Proof.
  intros Hi. unfold zth, arr_get. destruct (0 <=? i); [|done]. by rewrite lookup_app_l by lia.
Qed.

Lemma prekeys_stable n m ws i : (n <= m)%nat -> 0 <= i < Z.of_nat (length ws + n) ->
  zth (prekeys m ws) i = zth (prekeys n ws) i.
Proof.
  intros Hnm Hi. induction Hnm as [|m Hnm IH]; [done|]. cbn [prekeys].
  rewrite zth_app_l by (rewrite length_prekeys; lia). done.
Qed.

Lemma word_at_rec ws i : length ws = 8%nat -> 0 <= i < 132 ->
  word_at ws i = rol32 (word_at ws (i - 8) .^ word_at ws (i - 5) .^ word_at ws (i - 3) .^ word_at ws (i - 1)
                        .^ PHI .^ i) 11.
Proof.
  intros Hl Hi. unfold word_at. rewrite (prekeys_stable (S (Z.to_nat i)) 132 ws (i + 8)) by lia.
  rewrite (prekeys_stable (Z.to_nat i) 132 ws (i - 8 + 8)), (prekeys_stable (Z.to_nat i) 132 ws (i - 5 + 8)),
    (prekeys_stable (Z.to_nat i) 132 ws (i - 3 + 8)), (prekeys_stable (Z.to_nat i) 132 ws (i - 1 + 8)) by lia.
  cbn [prekeys]. rewrite Z2Nat.id by lia.
  set (l := prekeys (Z.to_nat i) ws). assert (i + 8 = Z.of_nat (length l)) as Hll
    by (subst l; rewrite length_prekeys, Hl; lia).
  unfold zth at 1. rewrite Hll, arr_get_middle. unfold next_word. cbn [default].
  replace (i - 8 + 8) with i by lia. replace (i - 5 + 8) with (i + 3) by lia.
  replace (i - 3 + 8) with (i + 5) by lia. by replace (i - 1 + 8) with (i + 7) by lia.
Qed.

Lemma word_at_key ws i : length ws = 8%nat -> 0 <= i < 8 -> word_at ws (i - 8) = zth ws i.
Proof.
  intros Hl Hi. unfold word_at. replace (i - 8 + 8) with i by lia. by rewrite (prekeys_stable 0 132) by lia.
Qed.

Lemma zth_u32 l i : Forall is_u32 l -> is_u32 (zth l i).
Proof.
  intros Hl. unfold zth. destruct (arr_get l i) as [w|] eqn:E; [|done]. unfold arr_get in E.
  destruct (0 <=? i); [|done]. rewrite Forall_forall in Hl. apply Hl, list_elem_of_In.
  by eapply list_elem_of_lookup_2.
Qed.

Lemma prekeys_u32 n ws : (n <= 132)%nat -> Forall is_u32 ws -> Forall is_u32 (prekeys n ws).
Proof.
  intros Hn Hw. induction n as [|n IH]; cbn [prekeys]; [done|]. specialize (IH ltac:(lia)).
  apply Forall_app. split; [done|]. apply Forall_cons_2; [|done]. unfold next_word.
  apply is_u32_rol32; [|lia]. repeat apply is_u32_lxor; try (by apply zth_u32); unfold is_u32, PHI; lia.
Qed.

Lemma word_at_u32 ws i : Forall is_u32 ws -> is_u32 (word_at ws i).
Proof. intros Hw. by apply zth_u32, prekeys_u32. Qed.

(** ** The straight-line code *)

Lemma seqZ_snoc n : 0 <= n -> seqZ 0 (n + 1) = seqZ 0 n ++ [n].
Proof. intros Hn. rewrite seqZ_app by lia. f_equal. Qed.

Section expand.
Context (W : Z -> Z) (init : list Z).
Context (Hlen : length init = 132%nat) (HW : forall i, is_u32 (W i)).
Context (Hinit : forall i, 0 <= i < 8 -> arr_get init i = Some (W (i - 8))).
Context (Hrec : forall i, 0 <= i < 132 ->
  W i = rol32 (W (i - 8) .^ W (i - 5) .^ W (i - 3) .^ W (i - 1) .^ PHI .^ i) 11).

(** The array after [n] words. *)
Definition kstate (n : Z) : list Z := map W (seqZ 0 n) ++ drop (Z.to_nat n) init.

Lemma length_kstate n : 0 <= n <= 132 -> length (kstate n) = 132%nat.
Proof using Hlen. intros Hn. unfold kstate. rewrite length_app, length_map, length_seqZ, length_drop. lia. Qed.

Lemma kstate_get n i : 0 <= i < n -> arr_get (kstate n) i = Some (W i).
Proof using Hlen.
  intros Hi. unfold kstate, arr_get. rewrite (proj2 (Z.leb_le 0 i)) by lia.
  rewrite lookup_app_l by (rewrite length_map, length_seqZ; lia).
  change (map W (seqZ 0 n)) with (W <$> seqZ 0 n).
  rewrite list_lookup_fmap, lookup_seqZ_lt by lia. simpl. do 2 f_equal. lia.
Qed.

Lemma kstate_old n i : 0 <= n <= i -> arr_get (kstate n) i = arr_get init i.
Proof using Hlen.
  intros Hi. unfold kstate, arr_get. rewrite (proj2 (Z.leb_le 0 i)) by lia.
  rewrite lookup_app_r by (rewrite length_map, length_seqZ; lia).
  rewrite length_map, length_seqZ, lookup_drop. f_equal. lia.
Qed.

Lemma kstate_set n : 0 <= n < 132 -> arr_set (kstate n) n (W n) = Some (kstate (n + 1)).
Proof using Hlen.
  intros Hn. rewrite arr_set_Some by (rewrite length_kstate; lia). f_equal.
  unfold kstate. rewrite seqZ_snoc, map_app, <- app_assoc by lia.
  rewrite insert_app_r_alt by (rewrite length_map, length_seqZ; lia). f_equal.
  rewrite length_map, length_seqZ.
  replace (Z.to_nat n - Z.to_nat n)%nat with 0%nat by lia.
  destruct (lookup_lt_is_Some_2 init (Z.to_nat n)) as [x Hx]; [lia|].
  rewrite (drop_S init x (Z.to_nat n) Hx). replace (Z.to_nat (n + 1)) with (S (Z.to_nat n)) by lia. done.
Qed.

(** One [keyiter]: [n] is its index in the schedule. *)
Lemma keyiter_step n base a b c d i j m : 0 <= n < 132 -> i = n -> base + j = n ->
  base + a = (if n <? 8 then n else n - 8) -> b = W (n - 5) -> c = W (n - 1) -> d = W (n - 3) -> m = n + 1 ->
  keyiter (kstate n) base a b c d i j = Some (W n, kstate m).
Proof using Hlen Hinit Hrec.
  intros Hn -> Ej Ea -> -> -> ->. unfold keyiter. rewrite Ea, Ej.
  assert (arr_get (kstate n) (if n <? 8 then n else n - 8) = Some (W (n - 8))) as ->.
  { destruct (Z.ltb_spec n 8); [rewrite kstate_old by lia; apply Hinit; lia | apply kstate_get; lia]. }
  rewrite bind_Some_eq. cbv zeta.
  replace (rol32 (W (n - 5) .^ W (n - 3) .^ W (n - 1) .^ W (n - 8) .^ (PHI .^ n)) 11) with (W n).
  - by rewrite kstate_set, bind_Some_eq.
  - rewrite (Hrec n) by lia. f_equal. lxor_ring.
Qed.

Ltac keyiter_code :=
  lazymatch goal with
  | |- context [keyiter (kstate ?n) ?base ?a ?b ?c ?d ?i ?j] =>
      let m := eval vm_compute in (n + 1) in
      rewrite (keyiter_step n base a b c d i j m)
        by first [lia | reflexivity | apply (f_equal W); reflexivity]
  end; rewrite bind_Some_eq; cbv beta iota.

Lemma serpent_keyiter_0_ok :
  serpent_keyiter_0 (kstate 0, W (-5), W (-4), W (-3), W (-2), W (-1)) =
  Some (kstate 8, W 5, W 6, W 7, W 3, W 4).
Proof using Hlen Hinit Hrec. unfold serpent_keyiter_0. do 8 keyiter_code. reflexivity. Qed.

Lemma serpent_keyiter_1_ok :
  serpent_keyiter_1 (kstate 8, W 5, W 6, W 7, W 3, W 4) =
  Some (kstate 18, W 15, W 16, W 17, W 13, W 14).
Proof using Hlen Hinit Hrec. unfold serpent_keyiter_1. do 10 keyiter_code. reflexivity. Qed.

Lemma serpent_keyiter_2_ok :
  serpent_keyiter_2 (kstate 18, W 15, W 16, W 17, W 13, W 14) =
  Some (kstate 28, W 25, W 26, W 27, W 23, W 24).
Proof using Hlen Hinit Hrec. unfold serpent_keyiter_2. do 10 keyiter_code. reflexivity. Qed.

Lemma serpent_keyiter_3_ok :
  serpent_keyiter_3 (kstate 28, W 25, W 26, W 27, W 23, W 24) =
  Some (kstate 38, W 35, W 36, W 37, W 33, W 34).
Proof using Hlen Hinit Hrec. unfold serpent_keyiter_3. do 10 keyiter_code. reflexivity. Qed.

Lemma serpent_keyiter_4_ok :
  serpent_keyiter_4 (kstate 38, W 35, W 36, W 37, W 33, W 34) =
  Some (kstate 48, W 45, W 46, W 47, W 43, W 44).
Proof using Hlen Hinit Hrec. unfold serpent_keyiter_4. do 10 keyiter_code. reflexivity. Qed.

Lemma serpent_keyiter_5_ok :
  serpent_keyiter_5 (kstate 48, W 45, W 46, W 47, W 43, W 44) =
  Some (kstate 58, W 55, W 56, W 57, W 53, W 54).
Proof using Hlen Hinit Hrec. unfold serpent_keyiter_5. do 10 keyiter_code. reflexivity. Qed.

Lemma serpent_keyiter_6_ok :
  serpent_keyiter_6 (kstate 58, W 55, W 56, W 57, W 53, W 54) =
  Some (kstate 68, W 65, W 66, W 67, W 63, W 64).
Proof using Hlen Hinit Hrec. unfold serpent_keyiter_6. do 10 keyiter_code. reflexivity. Qed.

Lemma serpent_keyiter_7_ok :
  serpent_keyiter_7 (kstate 68, W 65, W 66, W 67, W 63, W 64) =
  Some (kstate 78, W 75, W 76, W 77, W 73, W 74).
Proof using Hlen Hinit Hrec. unfold serpent_keyiter_7. do 10 keyiter_code. reflexivity. Qed.

Lemma serpent_keyiter_8_ok :
  serpent_keyiter_8 (kstate 78, W 75, W 76, W 77, W 73, W 74) =
  Some (kstate 88, W 85, W 86, W 87, W 83, W 84).
Proof using Hlen Hinit Hrec. unfold serpent_keyiter_8. do 10 keyiter_code. reflexivity. Qed.

Lemma serpent_keyiter_9_ok :
  serpent_keyiter_9 (kstate 88, W 85, W 86, W 87, W 83, W 84) =
  Some (kstate 98, W 95, W 96, W 97, W 93, W 94).
Proof using Hlen Hinit Hrec. unfold serpent_keyiter_9. do 10 keyiter_code. reflexivity. Qed.

Lemma serpent_keyiter_10_ok :
  serpent_keyiter_10 (kstate 98, W 95, W 96, W 97, W 93, W 94) =
  Some (kstate 108, W 105, W 106, W 107, W 103, W 104).
Proof using Hlen Hinit Hrec. unfold serpent_keyiter_10. do 10 keyiter_code. reflexivity. Qed.

Lemma serpent_keyiter_11_ok :
  serpent_keyiter_11 (kstate 108, W 105, W 106, W 107, W 103, W 104) =
  Some (kstate 118, W 115, W 116, W 117, W 113, W 114).
Proof using Hlen Hinit Hrec. unfold serpent_keyiter_11. do 10 keyiter_code. reflexivity. Qed.

Lemma serpent_keyiter_12_ok :
  serpent_keyiter_12 (kstate 118, W 115, W 116, W 117, W 113, W 114) =
  Some (kstate 128, W 125, W 126, W 127, W 123, W 124).
Proof using Hlen Hinit Hrec. unfold serpent_keyiter_12. do 10 keyiter_code. reflexivity. Qed.

Lemma serpent_keyiter_13_ok :
  serpent_keyiter_13 (kstate 128, W 125, W 126, W 127, W 123, W 124) =
  Some (kstate 132, W 130, W 131, W 127, W 128, W 129).
Proof using Hlen Hinit Hrec. unfold serpent_keyiter_13. do 4 keyiter_code. reflexivity. Qed.

End expand.

Section sboxes.
Context (W : Z -> Z) (HW : forall i, is_u32 (W i)).

(** The array after the S-boxes have replaced the words from [4 * i] on. *)
Definition sstate (i : Z) : list Z := map W (seqZ 0 (4 * i)) ++ round_keys W i (33 - i).

Lemma length_round_keys lo n : length (round_keys W lo n) = (4 * Z.to_nat n)%nat.
Proof using.
  unfold round_keys. rewrite <- (length_seqZ lo n). induction (seqZ lo n) as [|i l IH]; [done|].
  cbn [map concat]. rewrite length_app, IH. unfold quad_list. destruct (round_key W i) as [[[? ?] ?] ?]. simpl. lia.
Qed.

Lemma sstate_get i j : 0 <= j < 4 * i -> arr_get (sstate i) j = Some (W j).
Proof using.
  intros Hj. unfold sstate, arr_get. rewrite (proj2 (Z.leb_le 0 j)) by lia.
  rewrite lookup_app_l by (rewrite length_map, length_seqZ; lia).
  change (map W (seqZ 0 (4 * i))) with (W <$> seqZ 0 (4 * i)).
  rewrite list_lookup_fmap, lookup_seqZ_lt by lia. simpl. do 2 f_equal. lia.
Qed.

(** The words of round [i] give way to the round key. *)
Lemma sstate_split i : 0 <= i < 33 ->
  sstate (i + 1) = map W (seqZ 0 (4 * i)) ++ W (4 * i) :: W (4 * i + 1) :: W (4 * i + 2) :: W (4 * i + 3) ::
                   round_keys W (i + 1) (33 - (i + 1)) /\
  sstate i = map W (seqZ 0 (4 * i)) ++ quad_list (round_key W i) ++ round_keys W (i + 1) (33 - (i + 1)).
Proof using.
  intros Hi. unfold sstate. split.
  - replace (4 * (i + 1)) with (4 * i + 1 + 1 + 1 + 1) by lia. rewrite !seqZ_snoc, !map_app, <- !app_assoc by lia.
    cbn [map app]. replace (4 * i + 1 + 1) with (4 * i + 2) by lia.
    by replace (4 * i + 2 + 1) with (4 * i + 3) by lia.
  - f_equal. unfold round_keys. rewrite (seqZ_cons i (33 - i)) by lia.
    cbn [map concat]. replace (Z.succ i) with (i + 1) by lia.
    by replace (Z.pred (33 - i)) with (33 - (i + 1)) by lia.
Qed.

Lemma storekeys_step i base off x0 x1 x2 x3 n m : 0 <= i < 33 -> base + off = 4 * i ->
  round_key W i = (x0, x1, x2, x3) -> n = i + 1 -> m = i ->
  storekeys (sstate n) base x0 x1 x2 x3 off = Some (sstate m).
Proof using.
  intros Hi Eo Ek -> ->. destruct (sstate_split i Hi) as [-> ->]. rewrite Ek. unfold storekeys, quad_list.
  set (pre := map W (seqZ 0 (4 * i))).
  assert (Z.of_nat (length pre) = 4 * i) as Hp by (subst pre; rewrite length_map, length_seqZ; lia).
  rewrite (arr_set_off pre _ 0), bind_Some_eq by (simpl; lia). cbn [Z.to_nat insert list_insert].
  rewrite (arr_set_off pre _ 1), bind_Some_eq by (simpl; lia).
  rewrite (arr_set_off pre _ 2), bind_Some_eq by (simpl; lia).
  rewrite (arr_set_off pre _ 3) by (simpl; lia). done.
Qed.

Lemma loadkeys_step i base off n y0 y1 y2 y3 : 0 <= base + off -> base + off + 4 <= 4 * n -> i = base + off ->
  y0 = W i -> y1 = W (i + 1) -> y2 = W (i + 2) -> y3 = W (i + 3) ->
  loadkeys (sstate n) base off = Some (y0, y1, y2, y3).
Proof using.
  intros Hlo Hhi -> -> -> -> ->. unfold loadkeys. rewrite !Z.add_assoc.
  by rewrite !sstate_get, !bind_Some_eq by lia.
Qed.

(** One line of the code: the S-box on the four words of round [i], the store
    of the round key and the load of the words of round [i - 1]. *)
Ltac sbox_code :=
  lazymatch goal with
  | |- context [match ?S (W ?a) (W ?b) (W ?c) (W ?d) ?e with _ => _ end] =>
      let Hq := fresh in
      assert (quad_ok (W a, W b, W c, W d)) as Hq by (repeat split; apply HW); code_step; clear Hq
  end;
  lazymatch goal with
  | |- context [slice (sbox_table ?j) (W ?a, W ?b, W ?c, W ?d)] =>
      let i := eval vm_compute in (a / 4) in
      let E := fresh "E" in
      destruct (slice (sbox_table j) (W a, W b, W c, W d)) as [[[? ?] ?] ?] eqn:E;
      lazymatch type of E with _ = ?q => change (round_key W i = q) in E end;
      cbv beta iota;
      lazymatch goal with
      | |- context [storekeys (sstate ?n) ?base ?x0 ?x1 ?x2 ?x3 ?off] =>
          rewrite (storekeys_step i base off x0 x1 x2 x3 n i) by first [lia | exact E | reflexivity]
      end; rewrite bind_Some_eq; clear E
  end;
  try lazymatch goal with
  | |- context [loadkeys (sstate ?n) ?base ?off] =>
      let i := eval vm_compute in (base + off) in
      let i1 := eval vm_compute in (i + 1) in let i2 := eval vm_compute in (i + 2) in
      let i3 := eval vm_compute in (i + 3) in
      rewrite (loadkeys_step i base off n (W i) (W i1) (W i2) (W i3)) by first [lia | reflexivity];
      rewrite bind_Some_eq; cbv beta iota
  end.

Lemma serpent_sbox_0_ok t : exists t',
  serpent_sbox_0 (sstate 33, W 130, W 131, t, W 128, W 129) =
  Some (sstate 25, W 99, t', W 96, W 98, W 97).
Proof using HW. unfold serpent_sbox_0. do 8 sbox_code. eexists. reflexivity. Qed.

Lemma serpent_sbox_1_ok t : exists t',
  serpent_sbox_1 (sstate 25, W 99, t, W 96, W 98, W 97) =
  Some (sstate 17, t', W 64, W 66, W 67, W 65).
Proof using HW. unfold serpent_sbox_1. do 8 sbox_code. eexists. reflexivity. Qed.

Lemma serpent_sbox_2_ok t : exists t',
  serpent_sbox_2 (sstate 17, t, W 64, W 66, W 67, W 65) =
  Some (sstate 9, W 32, W 34, W 35, t', W 33).
Proof using HW. unfold serpent_sbox_2. do 8 sbox_code. eexists. reflexivity. Qed.

Lemma serpent_sbox_3_ok t : exists r0 r1 r2 r3 r4,
  serpent_sbox_3 (sstate 9, W 32, W 34, W 35, t, W 33) =
  Some (sstate 0, r0, r1, r2, r3, r4).
Proof using HW. unfold serpent_sbox_3. do 9 sbox_code. do 5 eexists. reflexivity. Qed.

End sboxes.

(** ** The schedule *)

Lemma kstate_sstate W init : length init = 132%nat -> kstate W init 132 = sstate W 33.
Proof.
  intros Hl. unfold kstate, sstate. rewrite drop_ge by lia. replace (4 * 33) with 132 by lia. done.
Qed.

Lemma sstate_keys W : sstate W 0 = round_keys W 0 33.
Proof. reflexivity. Qed.

Lemma serpent_expand_ok ws krest : length ws = 8%nat -> length krest = 124%nat -> Forall is_u32 ws ->
  serpent_expand (ws ++ krest) = Some (ref_setkey ws).
Proof.
  intros Hws Hkr Hu. set (W := word_at ws). set (init := ws ++ krest).
  assert (length init = 132%nat) as Hlen by (subst init; rewrite length_app; lia).
  assert (forall i, is_u32 (W i)) as HW by (intros i; by apply word_at_u32).
  assert (forall i, 0 <= i < 8 -> arr_get init i = Some (W (i - 8))) as Hinit.
  { intros i Hi. subst W init. cbv beta. rewrite word_at_key by lia. unfold arr_get, zth, arr_get.
    rewrite (proj2 (Z.leb_le 0 i)), lookup_app_l by lia.
    by destruct (lookup_lt_is_Some_2 ws (Z.to_nat i)) as [x ->]; [lia|]. }
  assert (forall i, 0 <= i < 132 ->
    W i = rol32 (W (i - 8) .^ W (i - 5) .^ W (i - 3) .^ W (i - 1) .^ PHI .^ i) 11) as Hrec
    by (intros i Hi; by apply word_at_rec).
  change (ref_setkey ws) with (round_keys W 0 33). clearbody W init. unfold serpent_expand.
  rewrite (Hinit 3), bind_Some_eq, (Hinit 4), bind_Some_eq, (Hinit 5), bind_Some_eq, (Hinit 6), bind_Some_eq,
    (Hinit 7), bind_Some_eq by lia. cbv zeta.
  change (3 - 8) with (-5). change (4 - 8) with (-4). change (5 - 8) with (-3).
  change (6 - 8) with (-2). change (7 - 8) with (-1).
  replace init with (kstate W init 0) at 1 by done.
  rewrite (serpent_keyiter_0_ok W init), bind_Some_eq, (serpent_keyiter_1_ok W init), bind_Some_eq,
    (serpent_keyiter_2_ok W init), bind_Some_eq, (serpent_keyiter_3_ok W init), bind_Some_eq,
    (serpent_keyiter_4_ok W init), bind_Some_eq, (serpent_keyiter_5_ok W init), bind_Some_eq,
    (serpent_keyiter_6_ok W init), bind_Some_eq, (serpent_keyiter_7_ok W init), bind_Some_eq,
    (serpent_keyiter_8_ok W init), bind_Some_eq, (serpent_keyiter_9_ok W init), bind_Some_eq,
    (serpent_keyiter_10_ok W init), bind_Some_eq, (serpent_keyiter_11_ok W init), bind_Some_eq,
    (serpent_keyiter_12_ok W init), bind_Some_eq, (serpent_keyiter_13_ok W init), bind_Some_eq by done.
  rewrite kstate_sstate by done.
  destruct (serpent_sbox_0_ok W HW (W 127)) as [t0 ->]. rewrite bind_Some_eq.
  destruct (serpent_sbox_1_ok W HW t0) as [t1 ->]. rewrite bind_Some_eq.
  destruct (serpent_sbox_2_ok W HW t1) as [t2 ->]. rewrite bind_Some_eq.
  destruct (serpent_sbox_3_ok W HW t2) as (x0 & x1 & x2 & x3 & x4 & ->). rewrite bind_Some_eq.
  by rewrite sstate_keys.
Qed.

Lemma quad_list_ok x : quad_ok x -> Forall is_u32 (quad_list x).
Proof.
  destruct x as [[[? ?] ?] ?]. intros (? & ? & ? & ?). cbn [quad_list]. by repeat (apply Forall_cons_2; [done|]).
Qed.

Lemma ref_setkey_ok ws : key_ok (ref_setkey ws).
Proof.
  split; [apply length_round_keys|]. unfold ref_setkey, round_keys.
  induction (seqZ 0 33) as [|i l IH]; cbn [map concat]; [constructor|].
  apply Forall_app. split; [|done]. apply quad_list_ok. unfold round_key. apply slice_ok.
Qed.

(** ** Padding *)

Lemma c_for_all_empty {S} lo hi (body : Z -> S -> option S) s : hi <= lo -> c_for_all lo hi body s = Some s.
Proof. intros H. unfold c_for_all, c_for. by replace (Z.to_nat (hi - lo)) with 0%nat by lia. Qed.

Lemma serpent_pad_ok key k8 : (length key <= 32)%nat -> length k8 = 32%nat ->
  serpent_pad key k8 = Some (padded_key key).
Proof.
  intros Hk Hl. unfold serpent_pad, SERPENT_MAX_KEY_SIZE. cbv zeta.
  rewrite <- (take_drop (length key) k8).
  rewrite (c_for_all_fill key [] (take (length key) k8) (drop (length key) k8)) by
    first [done | rewrite length_take; lia |
      intros k a x Hx; rewrite Z.add_0_l, arr_get_nat, Hx; apply bind_Some_eq].
  rewrite bind_Some_eq. cbn [app]. unfold padded_key.
  destruct (Nat.ltb_spec (length key) 32) as [Hlt|Hge].
  - rewrite (proj2 (Z.ltb_lt _ _)) by lia. assert (length (drop (length key) k8) = (32 - length key)%nat) as Hd
      by (rewrite length_drop; lia).
    destruct (drop (length key) k8) as [|y old]; simpl in Hd; [lia|].
    rewrite arr_set_middle, bind_Some_eq.
    replace (key ++ 1 :: old) with ((key ++ [1]) ++ old ++ []) by (by rewrite <- app_assoc, app_nil_r).
    rewrite (c_for_all_fill (replicate (31 - length key) 0)).
    + by rewrite app_nil_r, <- app_assoc.
    + rewrite length_app. simpl. lia.
    + rewrite length_replicate. lia.
    + rewrite length_replicate. lia.
    + intros k a x [-> _]%lookup_replicate. done.
  - rewrite (proj2 (Z.ltb_ge _ _)), bind_Some_eq by lia. rewrite drop_ge by lia. apply c_for_all_empty. lia.
Qed.

Lemma padded_key_block n key : block n key -> (n <= 32)%nat -> block 32 (padded_key key).
Proof.
  intros [Hl Hb] Hn. unfold padded_key. destruct (Nat.ltb_spec (length key) 32) as [Hlt|Hge].
  - split; [rewrite length_app; simpl; rewrite length_replicate; lia|].
    apply Forall_app. split; [done|]. apply Forall_cons_2; [by unfold is_byte|]. by apply Forall_replicate.
  - rewrite app_nil_r. split; [lia | done].
Qed.

(** ** [serpent_setkey] *)

Lemma serpent_setkey_ok n key k8 krest : block n key -> (n <= 32)%nat -> length k8 = 32%nat ->
  length krest = 124%nat -> exists ws, padded_key key = concat (map le32_bytes ws) /\ length ws = 8%nat /\
    Forall is_u32 ws /\ serpent_setkey k8 krest key = Some (SerpentCtx (ref_setkey ws)).
Proof.
  intros Hkey Hn Hk8 Hkr. destruct (block_words 8 _ (padded_key_block n key Hkey Hn)) as (ws & Hl & Hw & Hp).
  exists ws. do 3 (split; [done|]). unfold serpent_setkey.
  rewrite serpent_pad_ok, bind_Some_eq, Hp by (destruct Hkey; lia).
  destruct ws as [|w0 [|w1 [|w2 [|w3 [|w4 [|w5 [|w6 [|w7 [|]]]]]]]]]; try done.
  rewrite (get_le32_words _ 0 w0 0), bind_Some_eq by done. rewrite (get_le32_words _ 1 w1 4), bind_Some_eq by done.
  rewrite (get_le32_words _ 2 w2 8), bind_Some_eq by done. rewrite (get_le32_words _ 3 w3 12), bind_Some_eq by done.
  rewrite (get_le32_words _ 4 w4 16), bind_Some_eq by done. rewrite (get_le32_words _ 5 w5 20), bind_Some_eq by done.
  rewrite (get_le32_words _ 6 w6 24), bind_Some_eq by done. rewrite (get_le32_words _ 7 w7 28), bind_Some_eq by done.
  by rewrite serpent_expand_ok, bind_Some_eq.
Qed.
