(* ===== verification/SerpentLaws.v ===== *)
(** * Serpent and Tnepres: the ciphers against their specification

    Both ciphers of [crypto/serpent.c] as implementations of [CipherLaws], the
    agreement with the published cipher on whole calls, and the relation
    between the two: Tnepres is Serpent with the bytes of the key and of the
    blocks in reverse order. *)

From S2P Require Import Prelude Bytes Cipher Serpent SerpentCorrect SerpentKey.
Open Scope c_scope.

(** The words of a buffer. *)
Fixpoint le_words (b : list Z) : list Z :=
  match b with
  | b0 :: b1 :: b2 :: b3 :: b => (b0 + 256 * (b1 + 256 * (b2 + 256 * b3))) :: le_words b
  | _ => []
  end.

(** The published cipher on bytes. *)
Definition serpent_key_ref (key : list Z) : list Z := ref_setkey (le_words (padded_key key)).
Definition block_quad (b : list Z) : quad :=
  match le_words b with [x0; x1; x2; x3] => (x0, x1, x2, x3) | _ => (0, 0, 0, 0) end.
Definition serpent_encrypt_ref_bytes (key b : list Z) : list Z :=
  quad_block (ref_encrypt (serpent_key_ref key) (block_quad b)).
Definition serpent_decrypt_ref_bytes (key b : list Z) : list Z :=
  quad_block (ref_decrypt (serpent_key_ref key) (block_quad b)).

Lemma le_words_concat ws : Forall is_u32 ws -> le_words (concat (map le32_bytes ws)) = ws.
Proof.
  induction 1 as [|w ws Hw _ IH]; [done|]. cbn [map concat]. unfold le32_bytes at 1. unfold le16_bytes. cbn [app le_words].
  rewrite IH. f_equal. unfold is_u32 in Hw. Z.div_mod_to_equations. lia.
Qed.

Lemma block_quad_block x : quad_ok x -> block_quad (quad_block x) = x.
Proof.
  destruct x as [[[x0 x1] x2] x3]. intros (? & ? & ? & ?). unfold block_quad, quad_block.
  replace (le32_bytes x0 ++ le32_bytes x1 ++ le32_bytes x2 ++ le32_bytes x3)
    with (concat (map le32_bytes [x0; x1; x2; x3])) by (cbn [map concat]; by rewrite app_nil_r).
  rewrite le_words_concat; [done|]. by repeat (apply Forall_cons_2; [done|]).
Qed.

(** ** Serpent *)

Definition serpent_wf (c : serpent_ctx) : Prop := key_ok (expkey c).

Lemma serpent_setkey_ref n key k8 krest : block n key -> (n <= 32)%nat -> length k8 = 32%nat ->
  length krest = 124%nat -> serpent_setkey k8 krest key = Some (SerpentCtx (serpent_key_ref key)).
Proof.
  intros Hkey Hn Hk8 Hkr. destruct (serpent_setkey_ok n key k8 krest Hkey Hn Hk8 Hkr) as (ws & Hp & Hl & Hw & ->).
  unfold serpent_key_ref. by rewrite Hp, le_words_concat.
Qed.

Lemma serpent_key_ref_wf key : serpent_wf (SerpentCtx (serpent_key_ref key)).
Proof. unfold serpent_wf, serpent_key_ref. cbv beta iota delta [expkey]. apply ref_setkey_ok. Qed.

(** The two directions of a cipher that maps the block [quad_block x]. *)
Lemma serpent_enc_dec r4 c b : serpent_wf c -> block 16 b -> exists b',
  serpent_encrypt r4 c b = Some b' /\ block 16 b' /\ serpent_decrypt r4 c b' = Some b.
Proof.
  intros Hc (x & Hx & ->)%quad_block_words. eexists. split; [by apply serpent_encrypt_ref|].
  split; [apply quad_block_ok|]. rewrite serpent_decrypt_ref by first [done | by apply ref_encrypt_ok].
  by rewrite ref_decrypt_encrypt.
Qed.

Lemma serpent_dec_enc r4 c b : serpent_wf c -> block 16 b -> exists b',
  serpent_decrypt r4 c b = Some b' /\ block 16 b' /\ serpent_encrypt r4 c b' = Some b.
Proof.
  intros Hc (x & Hx & ->)%quad_block_words. eexists. split; [by apply serpent_decrypt_ref|].
  split; [apply quad_block_ok|]. rewrite serpent_encrypt_ref by first [done | by apply ref_decrypt_ok].
  by rewrite ref_encrypt_decrypt.
Qed.

#[export] Instance serpent_laws k8 krest r4 :
  TCEq (length k8) 32%nat -> TCEq (length krest) 124%nat -> CipherLaws (serpent_alg k8 krest r4) serpent_wf.
Proof.
  intros Hk8%TCEq_eq Hkr%TCEq_eq. unfold serpent_alg.
  split; cbv beta iota delta [cra_blocksize cia_min_keysize cia_max_keysize cra_ctx cia_setkey cia_encrypt cia_decrypt].
  - lia.
  - intros n key Hkey Hn. eexists. split; [apply (serpent_setkey_ref n); first [done | lia]|].
    apply serpent_key_ref_wf.
  - apply serpent_enc_dec.
  - apply serpent_dec_enc.
Qed.

(** ** Tnepres *)

Lemma quad_block_rev x0 x1 x2 x3 : quad_ok (x0, x1, x2, x3) ->
  rev (quad_block (x0, x1, x2, x3)) = quad_block (swab32 x3, swab32 x2, swab32 x1, swab32 x0) /\
  quad_ok (swab32 x3, swab32 x2, swab32 x1, swab32 x0).
Proof.
  intros (H0 & H1 & H2 & H3).
  destruct (swab32_bytes x0 H0) as [S0 E0], (swab32_bytes x1 H1) as [S1 E1],
    (swab32_bytes x2 H2) as [S2 E2], (swab32_bytes x3 H3) as [S3 E3].
  split; [|by repeat split; first [apply S0 | apply S1 | apply S2 | apply S3]].
  unfold quad_block. by rewrite E0, E1, E2, E3, !rev_app_distr, <- !app_assoc.
Qed.

Lemma block_rev n b : block n b -> block n (rev b).
Proof. intros [Hl Hb]. split; [by rewrite length_rev | by apply Forall_rev]. Qed.

(** The swapped call: reverse the block, call, reverse the result. *)
Lemma tnepres_swap_rev f b b' : block 16 b -> block 16 b' -> f (rev b) = Some b' ->
  tnepres_swap f b = Some (rev b').
Proof.
  intros ([[[x0 x1] x2] x3] & Hx & ->)%quad_block_words ([[[y0 y1] y2] y3] & Hy & ->)%quad_block_words Hf.
  destruct (quad_block_rev _ _ _ _ Hx) as [Ex _], (quad_block_rev _ _ _ _ Hy) as [Ey _].
  destruct (quad_block_get _ _ _ _ Hx) as (E0 & E1 & E2 & E3), (quad_block_get _ _ _ _ Hy) as (F0 & F1 & F2 & F3).
  unfold tnepres_swap. rewrite E0, bind_Some_eq, E1, bind_Some_eq, E2, bind_Some_eq, E3, bind_Some_eq.
  rewrite Ex in Hf. unfold quad_block in Hf at 1. rewrite Hf, bind_Some_eq.
  rewrite F0, bind_Some_eq, F1, bind_Some_eq, F2, bind_Some_eq, F3, bind_Some_eq. by rewrite Ey.
Qed.

Lemma tnepres_setkey_rev n key k8 krest rev_key : block n key -> (n <= 32)%nat -> length rev_key = 32%nat ->
  tnepres_setkey k8 krest rev_key key = serpent_setkey k8 krest (rev key).
Proof.
  intros [Hl Hb] Hn Hr. unfold tnepres_setkey. cbv zeta.
  destruct (wp_elim (c_for_all 0 (Z.of_nat (length key))
    (fun i rev_key => b ← arr_get key i; arr_set rev_key (Z.of_nat (length key) - i - 1) b) rev_key)
    (fun a => a = rev key ++ drop (length key) rev_key)) as (a & -> & ->).
  - eapply wp_mono; [apply (c_for_all_inv (fun i a => a = take (length key - Z.to_nat i) rev_key ++
      rev (take (Z.to_nat i) key) ++ drop (length key) rev_key)); [lia|..]|].
    + simpl. by rewrite Nat.sub_0_r, take_drop.
    + intros i a Hi ->. remember (Z.to_nat i) as k eqn:Hk. assert (i = Z.of_nat k) as -> by lia.
      destruct (lookup_lt_is_Some_2 key k) as [x Hx]; [lia|].
      rewrite arr_get_nat, Hx, bind_Some_eq. replace (Z.to_nat (Z.of_nat k + 1)) with (S k) by lia.
      rewrite (take_S_r key k x Hx), rev_app_distr. cbn [rev app].
      destruct (lookup_lt_is_Some_2 rev_key (length key - S k)) as [y Hy]; [lia|].
      replace (length key - k)%nat with (S (length key - S k)) by lia.
      rewrite (take_S_r _ _ _ Hy), <- app_assoc. cbn [app].
      rewrite (arr_set_off _ _ 0) by (rewrite ?length_take; simpl; lia). done.
    + intros a ->. rewrite Nat2Z.id, Nat.sub_diag, take_0, take_ge by lia. done.
  - rewrite bind_Some_eq. f_equal. rewrite <- (length_rev key) at 1. apply take_app_length.
Qed.

#[export] Instance tnepres_laws k8 krest rev_key r4 :
  TCEq (length k8) 32%nat -> TCEq (length krest) 124%nat -> TCEq (length rev_key) 32%nat ->
  CipherLaws (tnepres_alg k8 krest rev_key r4) serpent_wf.
Proof.
  intros Hk8%TCEq_eq Hkr%TCEq_eq Hrk%TCEq_eq. unfold tnepres_alg.
  split; cbv beta iota delta [cra_blocksize cia_min_keysize cia_max_keysize cra_ctx cia_setkey cia_encrypt cia_decrypt].
  - lia.
  - intros n key Hkey Hn. eexists. rewrite (tnepres_setkey_rev n) by first [done | lia].
    split; [apply (serpent_setkey_ref n); first [by apply block_rev | done | lia]|]. apply serpent_key_ref_wf.
  - intros c b Hc Hb. destruct (serpent_enc_dec r4 c (rev b) Hc (block_rev _ _ Hb)) as (e & He & Hbe & Hde).
    exists (rev e). split; [by apply tnepres_swap_rev|]. split; [by apply block_rev|].
    rewrite <- (rev_involutive b). apply tnepres_swap_rev; rewrite ?rev_involutive; auto using block_rev.
  - intros c b Hc Hb. destruct (serpent_dec_enc r4 c (rev b) Hc (block_rev _ _ Hb)) as (e & He & Hbe & Hde).
    exists (rev e). split; [by apply tnepres_swap_rev|]. split; [by apply block_rev|].
    rewrite <- (rev_involutive b). apply tnepres_swap_rev; rewrite ?rev_involutive; auto using block_rev.
Qed.

(** ** Properties *)

(** C18: [serpent_setkey], [serpent_encrypt] and [serpent_decrypt] compute the
    published cipher.  For every key of at most 32 bytes and whatever the
    context held before the call, the expanded key is that of the published
    key schedule (padding, affine recurrence, S-boxes by table); for every
    block the unrolled code with its five variables that change places, and
    whatever [r4] held, gives the 32 rounds of table S-boxes and linear
    transformation, and the other direction its inverse. *)
Theorem serpent_is_published_cipher k8 krest r4 n key b :
  length k8 = 32%nat -> length krest = 124%nat -> block n key -> (n <= 32)%nat -> block 16 b ->
  exists c, serpent_setkey k8 krest key = Some c /\ expkey c = serpent_key_ref key /\
    serpent_encrypt r4 c b = Some (serpent_encrypt_ref_bytes key b) /\
    serpent_decrypt r4 c b = Some (serpent_decrypt_ref_bytes key b).
Proof.
  intros Hk8 Hkr Hkey Hn (x & Hx & ->)%quad_block_words.
  rewrite (serpent_setkey_ref n) by done. eexists. split; [reflexivity|]. split; [reflexivity|].
  pose proof (serpent_key_ref_wf key) as Hc. unfold serpent_encrypt_ref_bytes, serpent_decrypt_ref_bytes.
  rewrite block_quad_block by done. split; [by apply serpent_encrypt_ref | by apply serpent_decrypt_ref].
Qed.

Lemma serpent_is_published_cipher_witness : exists c,
  serpent_setkey (replicate 32 7) (replicate 124 9) (map Z.of_nat (seq 0 16)) = Some c /\
  expkey c = serpent_key_ref (map Z.of_nat (seq 0 16)) /\
  serpent_encrypt 5 c (map Z.of_nat (seq 0 16)) =
    Some (serpent_encrypt_ref_bytes (map Z.of_nat (seq 0 16)) (map Z.of_nat (seq 0 16))) /\
  serpent_decrypt 5 c (map Z.of_nat (seq 0 16)) =
    Some (serpent_decrypt_ref_bytes (map Z.of_nat (seq 0 16)) (map Z.of_nat (seq 0 16))).
Proof.
  apply (serpent_is_published_cipher _ _ 5 16); try done; try lia; (split; [done|]);
    simpl; repeat apply Forall_cons_2; try apply Forall_nil_2; unfold is_byte; lia.
Defined.

(** The vectors of [crypto/testmgr.h]. *)
Example serpent_test_vector :
  (c ← serpent_setkey (replicate 32 0) (replicate 124 0) (map Z.of_nat (seq 0 16));
   serpent_encrypt 0 c (map Z.of_nat (seq 0 16))) =
  Some [0x4c; 0x7d; 0x8a; 0x32; 0x80; 0x72; 0xa2; 0x2c; 0x82; 0x3e; 0x4a; 0x1f; 0x3a; 0xcd; 0xa1; 0x6d].
Proof. vm_compute. reflexivity. Qed.

Example tnepres_test_vector :
  (c ← tnepres_setkey (replicate 32 0) (replicate 124 0) (replicate 32 0) (0x80 :: replicate 15 0);
   tnepres_encrypt 0 c (replicate 16 0)) =
  Some [0x49; 0xaf; 0xbf; 0xad; 0x9d; 0x5a; 0x34; 0x05; 0x2c; 0xd8; 0xff; 0xa5; 0x98; 0x6b; 0xd2; 0xdd].
Proof. vm_compute. reflexivity. Qed.

(** Tnepres is Serpent with the bytes of the key, of the plaintext and of
    the ciphertext in reverse order: with the contexts the two [setkey]s give
    for [key] and for its reverse, [tnepres_encrypt] and [tnepres_decrypt] map
    the reverse of each block to the reverse of what Serpent gives. *)
Theorem tnepres_is_reversed_serpent k8 krest rev_key r4 n key b :
  length k8 = 32%nat -> length krest = 124%nat -> length rev_key = 32%nat ->
  block n key -> (n <= 32)%nat -> block 16 b -> exists c e d,
    tnepres_setkey k8 krest rev_key key = Some c /\ serpent_setkey k8 krest (rev key) = Some c /\
    serpent_encrypt r4 c b = Some e /\ tnepres_encrypt r4 c (rev b) = Some (rev e) /\
    serpent_decrypt r4 c b = Some d /\ tnepres_decrypt r4 c (rev b) = Some (rev d).
Proof.
  intros Hk8 Hkr Hrk Hkey Hn Hb. rewrite (tnepres_setkey_rev n) by done.
  rewrite (serpent_setkey_ref n) by first [done | by apply block_rev].
  pose proof (serpent_key_ref_wf (rev key)) as Hc. revert Hc. generalize (SerpentCtx (serpent_key_ref (rev key))).
  intros c Hc. destruct (serpent_enc_dec r4 c b Hc Hb) as (e & He & Hbe & _).
  destruct (serpent_dec_enc r4 c b Hc Hb) as (d & Hd & Hbd & _). exists c, e, d.
  do 3 (split; [done|]). split; [|split; [done|]].
  - apply tnepres_swap_rev; [by apply block_rev | done | by rewrite rev_involutive].
  - apply tnepres_swap_rev; [by apply block_rev | done | by rewrite rev_involutive].
Qed.

Lemma tnepres_is_reversed_serpent_witness : exists c e d,
  tnepres_setkey (replicate 32 7) (replicate 124 9) (replicate 32 3) [1; 2; 3] = Some c /\
  serpent_setkey (replicate 32 7) (replicate 124 9) [3; 2; 1] = Some c /\
  serpent_encrypt 0 c (replicate 16 255) = Some e /\ tnepres_encrypt 0 c (rev (replicate 16 255)) = Some (rev e) /\
  serpent_decrypt 0 c (replicate 16 255) = Some d /\ tnepres_decrypt 0 c (rev (replicate 16 255)) = Some (rev d).
Proof.
  apply (tnepres_is_reversed_serpent _ _ _ 0 3 [1; 2; 3]); try done; try lia; (split; [done|]).
  - repeat apply Forall_cons_2; try apply Forall_nil_2; unfold is_byte; lia.
  - apply Forall_replicate. unfold is_byte. lia.
Defined.
