(* ===== verification/CryptoOps.v ===== *)
(** * Operations on blocks in memory

    [crypto_xor] and [crypto_inc] of [crypto/algapi.c], which work word by word
    on the flat memory, and the call of a cipher through pointers. *)

From S2P Require Import Prelude Bytes Mem LibString LibStringCorrect Cipher.
Open Scope c_scope.

(** ** The code *)

Definition crypto_xor_byte (m : mem) (a b size : Z) : option mem :=
  c_loop (count_fuel size) (fun '(m, a, b, size) =>
    if truthy size then
      x ← arr_get m a;
      y ← arr_get m b;
      m ← arr_set m a (x .^ y);
      Some (inl (m, a + 1, b + 1, size - 1))
    else Some (inr m)) (m, a, b, size).

Definition crypto_xor (m : mem) (dst src size : Z) : option mem :=
  '(m, a, b, size) ← c_loop (count_fuel size) (fun '(m, a, b, size) =>
    if 4 <=? size then
      x ← get_le32 m a;
      y ← get_le32 m b;
      m ← put_le32 m a (x .^ y);
      Some (inl (m, a + 4, b + 4, size - 4))
    else Some (inr (m, a, b, size))) (m, dst, src, size);
  crypto_xor_byte m a b size.

Definition crypto_inc_byte (m : mem) (a size : Z) : option mem :=
  c_loop (count_fuel size) (fun '(m, b, size) =>
    if truthy size then
      let b := b - 1 in
      x ← arr_get m b;
      let c := u8 (x + 1) in
      m ← arr_set m b c;
      if truthy c then Some (inr m) else Some (inl (m, b, size - 1))
    else Some (inr m)) (m, a + size, size).

(** [be32_to_cpu] and [cpu_to_be32] reverse the bytes. *)
Definition crypto_inc (m : mem) (a size : Z) : option mem :=
  c_seq (c_loop (count_fuel size) (fun '(m, b, size) =>
    if 4 <=? size then
      let b := b - 4 in
      x ← get_le32 m b;
      let c := u32 (swab32 x + 1) in
      m ← put_le32 m b (swab32 c);
      if truthy c then Some (inr (inr m)) else Some (inl (m, b, size - 4))
    else Some (inr (inl (m, size)))) (m, a + size, size))
  (fun '(m, size) => crypto_inc_byte m a size).

(** [fn(tfm, dst, src)]: the cipher reads its block and writes its block. *)
Definition cipher_call (f : list Z -> option (list Z)) (bsize : Z) (m : mem) (dst src : Z) : option mem :=
  if (0 <=? src) && (src + bsize <=? blen m) && (0 <=? dst) && (dst + bsize <=? blen m) then
    b ← f (rd m src bsize);
    Some (wr m dst b)
  else None.

(** ** Words of memory *)

Definition bytes_ok (m : mem) : Prop := Forall is_byte m.

Lemma bytes_rd m p n : bytes_ok m -> Forall is_byte (rd m p n).
Proof. intros H. unfold rd. by apply Forall_take, Forall_drop. Qed.

Lemma bytes_wr m p b : bytes_ok m -> Forall is_byte b -> bytes_ok (wr m p b).
Proof.
  intros Hm Hb. unfold wr, bytes_ok. apply Forall_app. split; [by apply Forall_take|].
  apply Forall_app. split; [done | by apply Forall_drop].
Qed.

Lemma mem_split m p n : in_mem m p n -> exists pre suf, m = pre ++ rd m p n ++ suf /\ blen pre = p /\
  forall b, blen b = n -> wr m p b = pre ++ b ++ suf.
Proof.
  intros Hin. exists (take (Z.to_nat p) m), (drop (Z.to_nat (p + n)) m). split; [|split].
  - rewrite <- (wr_rd m p n Hin) at 1. unfold wr. do 3 f_equal. pose proof (blen_rd m p n Hin).
    unfold blen, in_mem in *. lia.
  - unfold in_mem, blen in *. rewrite length_take. lia.
  - intros b Hb. unfold wr. do 3 f_equal. unfold blen, in_mem in *. lia.
Qed.

Lemma get_le32_rd m p : bytes_ok m -> in_mem m p 4 -> exists w,
  is_u32 w /\ get_le32 m p = Some w /\ rd m p 4 = le32_bytes w.
Proof.
  intros Hm Hin. destruct (mem_split m p 4 Hin) as (pre & suf & Em & Hp & _).
  pose proof (blen_rd m p 4 Hin) as Hl. pose proof (bytes_rd m p 4 Hm) as Hb.
  destruct (rd m p 4) as [|a [|b [|c [|d [|]]]]]; try (unfold blen in Hl; simpl in Hl; lia).
  destruct (le32_of_bytes a b c d Hb) as (w & Hw & E). exists w. split; [done|]. rewrite E in Em |- *. split; [|done].
  rewrite Em. apply get_le32_off; [|done]. unfold blen in Hp. lia.
Qed.

Lemma put_le32_wr m p v : in_mem m p 4 -> put_le32 m p v = Some (wr m p (le32_bytes v)).
Proof.
  intros Hin. destruct (mem_split m p 4 Hin) as (pre & suf & Em & Hp & Hwr). rewrite Hwr by done.
  pose proof (blen_rd m p 4 Hin) as Hl. rewrite Em.
  destruct (rd m p 4) as [|a [|b [|c [|d [|]]]]]; try (unfold blen in Hl; simpl in Hl; lia).
  apply (put_le32_off pre a b c d suf). unfold blen in Hp. lia.
Qed.

(** ** Exclusive or *)

Lemma length_xor a b : length a = length b -> length (xor_bytes a b) = length a.
Proof. intros H. unfold xor_bytes. rewrite length_zip_with. lia. Qed.

Lemma blen_xor a b : blen a = blen b -> blen (xor_bytes a b) = blen a.
Proof. unfold blen. intros H. rewrite length_xor; lia. Qed.

Lemma xor_app a b a' b' : length a = length b -> xor_bytes (a ++ a') (b ++ b') = xor_bytes a b ++ xor_bytes a' b'.
Proof. intros H. by apply zip_with_app. Qed.

Lemma blen_xor_rd m p q k : in_mem m p k -> in_mem m q k -> blen (xor_bytes (rd m p k) (rd m q k)) = k.
Proof. intros Hp Hq. by rewrite blen_xor; rewrite !blen_rd. Qed.

(** One more part of the exclusive or. *)
Lemma wr_xor_next m d s k j x : in_mem m d (k + j) -> in_mem m s (k + j) -> 0 <= k -> 0 <= j ->
  x = xor_bytes (rd m (d + k) j) (rd m (s + k) j) ->
  wr (wr m d (xor_bytes (rd m d k) (rd m s k))) (d + k) x = wr m d (xor_bytes (rd m d (k + j)) (rd m s (k + j))).
Proof.
  intros Hd Hs Hk Hj ->. assert (in_mem m d k /\ in_mem m s k /\ in_mem m (d + k) j /\ in_mem m (s + k) j)
    as (Hd1 & Hs1 & Hd2 & Hs2) by (unfold in_mem in *; lia).
  rewrite wr_app by (rewrite !blen_xor_rd by done; done). rewrite (rd_app m d k j (k + j)), (rd_app m s k j (k + j)) by done.
  rewrite xor_app; [done|]. pose proof (blen_rd m d k Hd1). pose proof (blen_rd m s k Hs1). unfold blen in *. lia.
Qed.

Lemma Forall_zip_with_bytes a b : Forall is_byte a -> Forall is_byte b -> Forall is_byte (xor_bytes a b).
Proof.
  intros Ha. revert b. induction Ha as [|x a Hx _ IH]; intros b Hb; [constructor|].
  destruct Hb as [|y b Hy Hb]; [constructor|]. apply Forall_cons_2; [by apply is_byte_lxor | by apply IH].
Qed.

Section xor.
Context (m : mem) (d s n : Z).
Context (Hd : in_mem m d n) (Hs : in_mem m s n) (Hdis : disjoint d n s n).

(** The memory after [k] bytes. *)
Let M (k : Z) : mem := wr m d (xor_bytes (rd m d k) (rd m s k)).

Lemma xor_state k : 0 <= k <= n -> in_mem m d (blen (xor_bytes (rd m d k) (rd m s k))).
Proof using Hd Hs. intros Hk. rewrite blen_xor_rd; unfold in_mem in *; lia. Qed.

Lemma xor_state_rd k j : 0 <= k -> 0 <= j -> k + j <= n ->
  rd (M k) (d + k) j = rd m (d + k) j /\ rd (M k) (s + k) j = rd m (s + k) j.
Proof using Hd Hs Hdis.
  intros Hk Hj Hkj. unfold M. split; apply rd_wr_other;
    rewrite ?blen_xor_rd; unfold in_mem, disjoint in *; lia.
Qed.

Lemma xor_state_in k p j : 0 <= k <= n -> in_mem (M k) p j <-> in_mem m p j.
Proof using Hd Hs. intros Hk. apply in_mem_wr. by apply xor_state. Qed.

Lemma crypto_xor_byte_ok k : 0 <= k <= n ->
  crypto_xor_byte (M k) (d + k) (s + k) (n - k) = Some (M n).
Proof using Hd Hs Hdis.
  intros Hk. unfold crypto_xor_byte, count_fuel.
  apply (c_loop_trace (Z.to_nat (n - k)) (fun i => (M (k + Z.of_nat i), d + k + Z.of_nat i, s + k + Z.of_nat i, n - k - Z.of_nat i))).
  - rewrite !Z.add_0_r, Z.sub_0_r. done.
  - intros i Hi. rewrite (proj2 (truthy_true _)) by lia. set (j := k + Z.of_nat i).
    destruct (xor_state_rd j 1) as [E1 E2]; [lia..|].
    destruct (arr_get_rd1 (M j) (d + j)) as (x & Hx & Rx); [apply xor_state_in; unfold in_mem in *; lia|].
    destruct (arr_get_rd1 (M j) (s + j)) as (y & Hy & Ry); [apply xor_state_in; unfold in_mem in *; lia|].
    rewrite <- !Z.add_assoc. fold j. rewrite Hx, bind_Some_eq, Hy, bind_Some_eq.
    rewrite arr_set_wr by (apply xor_state_in; unfold in_mem in *; lia). rewrite bind_Some_eq.
    unfold M at 1. rewrite (wr_xor_next m d s j 1) by (unfold in_mem in *; lia || (rewrite <- E1, <- E2, Rx, Ry; done)).
    fold (M (j + 1)). replace (j + 1) with (k + Z.of_nat (S i)) by lia. state_eq.
  - rewrite (proj2 (truthy_false _)) by lia. by replace (k + Z.of_nat (Z.to_nat (n - k))) with n by lia.
  - lia.
Qed.

Lemma crypto_xor_ok : bytes_ok m -> crypto_xor m d s n = Some (wr m d (xor_bytes (rd m d n) (rd m s n))).
Proof using Hd Hs Hdis.
  intros Hm. fold (M n). unfold crypto_xor.
  assert (forall k, 0 <= k <= n -> bytes_ok (M k)) as HM.
  { intros k Hk. apply bytes_wr; [done|]. apply Forall_zip_with_bytes; by apply bytes_rd. }
  set (q := Z.to_nat (n / 4)). assert (4 * Z.of_nat q <= n < 4 * Z.of_nat q + 4) as Hq
    by (subst q; rewrite Z2Nat.id by (apply Z.div_pos; unfold in_mem in *; lia); Z.div_mod_to_equations; lia).
  rewrite (c_loop_trace q (fun i => let k := 4 * Z.of_nat i in (M k, d + k, s + k, n - k)) _ _
    (M (4 * Z.of_nat q), d + 4 * Z.of_nat q, s + 4 * Z.of_nat q, n - 4 * Z.of_nat q)).
  - rewrite bind_Some_eq. apply crypto_xor_byte_ok. lia.
  - cbv beta iota zeta. unfold M. rewrite !Z.mul_0_r, !rd_0. cbn [xor_bytes zip_with]. rewrite wr_nil by (unfold in_mem in *; lia). state_eq.
  - intros i Hi. cbv beta iota zeta. set (k := 4 * Z.of_nat i). rewrite (proj2 (Z.leb_le _ _)) by lia.
    destruct (xor_state_rd k 4) as [E1 E2]; [lia..|].
    destruct (get_le32_rd (M k) (d + k)) as (x & Hux & Hx & Rx); [apply HM; lia|apply xor_state_in; unfold in_mem in *; lia|].
    destruct (get_le32_rd (M k) (s + k)) as (y & Huy & Hy & Ry); [apply HM; lia|apply xor_state_in; unfold in_mem in *; lia|].
    rewrite Hx, bind_Some_eq, Hy, bind_Some_eq, put_le32_wr, bind_Some_eq, le32_xor
      by (done || (apply xor_state_in; unfold in_mem in *; lia)).
    unfold M at 1. rewrite (wr_xor_next m d s k 4) by (unfold in_mem in *; lia || (rewrite <- E1, <- E2, Rx, Ry; done)).
    fold (M (k + 4)). replace (4 * Z.of_nat (S i)) with (k + 4) by lia. state_eq.
  - cbv beta iota zeta. rewrite (proj2 (Z.leb_gt _ _)) by lia. done.
  - unfold count_fuel. lia.
Qed.
End xor.

(** ** Counters *)

(** The value of a big-endian number, and its representation in [n] bytes. *)
Fixpoint be_num (b : list Z) : Z :=
  match b with [] => 0 | x :: b => x * 256 ^ blen b + be_num b end.
Fixpoint be_bytes (n : nat) (v : Z) : list Z :=
  match n with O => [] | S n => v / 256 ^ Z.of_nat n mod 256 :: be_bytes n v end.
Definition be_inc (b : list Z) : list Z := be_bytes (length b) (be_num b + 1).

Lemma pow256_pos k : 0 <= k -> 0 < 256 ^ k.
Proof. intros. by apply Z.pow_pos_nonneg. Qed.

Lemma be_num_app a b : be_num (a ++ b) = be_num a * 256 ^ blen b + be_num b.
Proof.
  induction a as [|x a IH]; [done|]. cbn [app be_num]. rewrite IH, blen_app, Z.pow_add_r by apply blen_nonneg. lia.
Qed.

Lemma be_num_range b : Forall is_byte b -> 0 <= be_num b < 256 ^ blen b.
Proof.
  induction 1 as [|x b Hx _ IH]; [done|]. cbn [be_num]. rewrite blen_cons, Z.pow_add_r by (lia || apply blen_nonneg).
  unfold is_byte in Hx. change (256 ^ 1) with 256. pose proof (pow256_pos (blen b) (blen_nonneg b)). nia.
Qed.

Lemma be_num_inj a b : Forall is_byte a -> Forall is_byte b -> length a = length b -> be_num a = be_num b -> a = b.
Proof.
  intros Ha. revert b. induction Ha as [|x a Hx Ha IH]; intros b Hb Hl E; destruct Hb as [|y b Hy Hb]; try done.
  injection Hl as Hl. cbn [be_num] in E. pose proof (be_num_range a Ha). pose proof (be_num_range b Hb).
  assert (blen a = blen b) as Hbl by (unfold blen; lia). rewrite Hbl in *.
  assert (x = y) as -> by nia. f_equal. apply IH; [done..|lia].
Qed.

Lemma length_be_bytes n v : length (be_bytes n v) = n.
Proof. induction n as [|n IH]; simpl; congruence. Qed.

Lemma be_bytes_byte n v : Forall is_byte (be_bytes n v).
Proof. induction n as [|n IH]; simpl; constructor; [|done]. unfold is_byte. by apply Z.mod_pos_bound. Qed.

Lemma be_num_bytes n v : be_num (be_bytes n v) = v mod 256 ^ Z.of_nat n.
Proof.
  induction n as [|n IH]; [cbn; by rewrite Z.mod_1_r|]. cbn [be_bytes be_num]. rewrite IH. unfold blen. rewrite length_be_bytes.
  rewrite Nat2Z.inj_succ, Z.pow_succ_r, (Z.mul_comm 256) by lia.
  pose proof (pow256_pos (Z.of_nat n) ltac:(lia)). rewrite Z.rem_mul_r by lia. lia.
Qed.

Lemma be_bytes_num b v : Forall is_byte b -> be_num b = v mod 256 ^ blen b -> b = be_bytes (length b) v.
Proof.
  intros Hb E. apply be_num_inj; [done|apply be_bytes_byte|by rewrite length_be_bytes|]. by rewrite be_num_bytes.
Qed.

Lemma be_num_zeros k : be_num (replicate k 0) = 0.
Proof. induction k as [|k IH]; [done|]. cbn [replicate be_num]. lia. Qed.

Lemma blen_replicate {A} k (x : A) : blen (replicate k x) = Z.of_nat k.
Proof. unfold blen. by rewrite length_replicate. Qed.

(** A carry out of the end: the digit before it is incremented, or it too
    overflows. *)
Lemma be_inc_carry pre mid suf mid' : Forall is_byte (pre ++ mid ++ suf) -> Forall is_byte mid' ->
  length mid' = length mid -> be_num suf = 256 ^ blen suf - 1 -> be_num mid' = be_num mid + 1 ->
  be_inc (pre ++ mid ++ suf) = pre ++ mid' ++ replicate (length suf) 0.
Proof.
  intros Hb Hmid Hl Hsuf E. unfold be_inc. symmetry.
  assert (length (pre ++ mid ++ suf) = length (pre ++ mid' ++ replicate (length suf) 0)) as Hlen
    by (rewrite !length_app, length_replicate; lia).
  rewrite Hlen. apply be_bytes_num.
  - apply Forall_app in Hb as [Hp _]. apply Forall_app. split; [done|]. apply Forall_app. split; [done|].
    apply Forall_replicate. by unfold is_byte.
  - assert (Forall is_byte (pre ++ mid' ++ replicate (length suf) 0)) as Hb'.
    { apply Forall_app in Hb as [Hp _]. apply Forall_app. split; [done|]. apply Forall_app. split; [done|].
      apply Forall_replicate. by unfold is_byte. }
    assert (be_num (pre ++ mid' ++ replicate (length suf) 0) = be_num (pre ++ mid ++ suf) + 1) as Eq.
    { rewrite !be_num_app, !blen_app, be_num_zeros, blen_replicate, E, Hsuf.
      assert (blen mid' = blen mid) as -> by (unfold blen; lia). unfold blen. lia. }
    rewrite <- Eq. symmetry. apply Z.mod_small, be_num_range, Hb'.
Qed.

Lemma be_inc_overflow b : Forall is_byte b -> be_num b = 256 ^ blen b - 1 -> be_inc b = replicate (length b) 0.
Proof.
  intros Hb E. unfold be_inc. rewrite <- (length_replicate (length b) 0) at 1. symmetry. apply be_bytes_num.
  - apply Forall_replicate. by unfold is_byte.
  - rewrite be_num_zeros, blen_replicate, E. unfold blen. rewrite Z.sub_add, Z.mod_same; [done|].
    apply Z.pow_nonzero; lia.
Qed.

Lemma be_num_rev v : is_u32 v -> be_num (rev (le32_bytes v)) = v.
Proof.
  intros Hv. unfold is_u32 in Hv. unfold le32_bytes, le16_bytes. cbn [app rev be_num blen length Z.of_nat].
  unfold blen. cbn [length Z.of_nat Pos.of_succ_nat Pos.succ]. Z.div_mod_to_equations. lia.
Qed.

Lemma swab32_swab32 v : is_u32 v -> swab32 (swab32 v) = v.
Proof.
  intros Hv. destruct (swab32_bytes v Hv) as [Hs E]. destruct (swab32_bytes _ Hs) as [Hs' E'].
  apply le32_bytes_inj; [done..|]. by rewrite E', E, rev_involutive.
Qed.

Lemma be_num_swab w : is_u32 w -> be_num (le32_bytes w) = swab32 w.
Proof.
  intros Hw. destruct (swab32_bytes w Hw) as [Hs E]. rewrite <- (rev_involutive (le32_bytes w)), <- E.
  by apply be_num_rev.
Qed.

Section inc.
Context (m : mem) (a n : Z) (Hm : bytes_ok m) (Hin : in_mem m a n).

(** The last [n - k] bytes have overflowed. *)
Definition carried (k : Z) (M : mem) : Prop :=
  0 <= k <= n /\ M = wr m (a + k) (replicate (Z.to_nat (n - k)) 0) /\
  be_num (rd m (a + k) (n - k)) = 256 ^ (n - k) - 1.

Lemma carried_mem k j M : carried k M -> 0 <= j <= k ->
  in_mem M (a + k - j) j /\ rd M (a + k - j) j = rd m (a + k - j) j /\ bytes_ok M /\
  forall mid', blen mid' = j -> wr M (a + k - j) mid' = wr m (a + k - j) (mid' ++ replicate (Z.to_nat (n - k)) 0).
Proof using Hm Hin.
  intros (Hk & -> & _) Hj. set (z := replicate (Z.to_nat (n - k)) 0).
  assert (blen z = n - k) as Hz by (subst z; rewrite blen_replicate; lia).
  assert (in_mem m (a + k) (blen z)) as Hinz by (rewrite Hz; unfold in_mem in *; lia).
  assert (in_mem m (a + k - j) j) as Hinj by (unfold in_mem in *; lia).
  split; [by apply in_mem_wr|]. split; [apply rd_wr_other; (done || (unfold disjoint; lia))|].
  split; [apply bytes_wr; [done|]; apply Forall_replicate; by unfold is_byte|].
  intros mid' Hmid. rewrite wr_comm by (rewrite ?Hmid; done || (unfold disjoint; lia)).
  apply wr_app; rewrite ?Hmid, ?Hz; unfold in_mem in *; lia.
Qed.

Lemma carry_stop k j M mid' : carried k M -> 0 <= j <= k -> Forall is_byte mid' -> blen mid' = j ->
  be_num mid' = be_num (rd m (a + k - j) j) + 1 ->
  wr M (a + k - j) mid' = wr m a (be_inc (rd m a n)).
Proof using Hm Hin.
  intros Hc Hj Hb Hl E. destruct (carried_mem k j M Hc Hj) as (_ & _ & _ & ->); [|done]. destruct Hc as (Hk & _ & Hsuf).
  assert (in_mem m a (k - j) /\ in_mem m (a + k - j) j /\ in_mem m (a + k) (n - k)) as (H1 & H2 & H3) by (unfold in_mem in *; lia).
  assert (rd m a n = rd m a (k - j) ++ rd m (a + k - j) j ++ rd m (a + k) (n - k)) as Esplit.
  { rewrite (rd_app m a (k - j) (n - (k - j))) by (done || lia).
    rewrite (rd_app m (a + (k - j)) j (n - k)) by (unfold in_mem in *; lia). do 2 f_equal; f_equal; lia. }
  assert (Forall is_byte (rd m a n)) as Hbytes by (by apply bytes_rd). rewrite Esplit in Hbytes |- *.
  pose proof (blen_rd _ _ _ H2) as Hl2. pose proof (blen_rd _ _ _ H3) as Hl3.
  rewrite (be_inc_carry _ _ _ mid' Hbytes Hb); [|unfold blen in *; lia|by rewrite Hl3|done]. unfold blen in Hl3.
  assert (length (rd m (a + k) (n - k)) = Z.to_nat (n - k)) as -> by lia.
  rewrite <- (wr_app m a (rd m a (k - j)) _ (a + (k - j)));
    [|rewrite ?blen_app, ?blen_rd, ?Hl, ?blen_replicate by done; unfold in_mem in *; lia|rewrite blen_rd by done; lia].
  rewrite wr_rd by done. f_equal. lia.
Qed.

Lemma carry_on k j M : carried k M -> 0 <= j <= k -> be_num (rd m (a + k - j) j) = 256 ^ j - 1 ->
  carried (k - j) (wr M (a + k - j) (replicate (Z.to_nat j) 0)).
Proof using Hm Hin.
  intros Hc Hj E. destruct (carried_mem k j M Hc Hj) as (_ & _ & _ & ->); [|rewrite blen_replicate; lia].
  destruct Hc as (Hk & _ & Hsuf). replace (a + (k - j)) with (a + k - j) by lia. split; [lia|]. split.
  - replace (a + (k - j)) with (a + k - j) by lia. rewrite <- replicate_add. do 2 f_equal. lia.
  - replace (a + (k - j)) with (a + k - j) by lia. rewrite (rd_app m (a + k - j) j (n - k)) by (unfold in_mem in *; lia).
    replace (a + k - j + j) with (a + k) by lia. rewrite be_num_app, E, Hsuf, blen_rd by (unfold in_mem in *; lia).
    replace (n - (k - j)) with (j + (n - k)) by lia. rewrite Z.pow_add_r by lia. lia.
Qed.

Lemma carried_all M : carried 0 M -> M = wr m a (be_inc (rd m a n)).
Proof using Hm Hin.
  intros (Hk & -> & E). rewrite Z.add_0_r, Z.sub_0_r in *.
  rewrite be_inc_overflow; [|by apply bytes_rd|by rewrite blen_rd].
  pose proof (blen_rd _ _ _ Hin) as Hl. unfold blen in Hl. do 2 f_equal. lia.
Qed.

Lemma crypto_inc_byte_ok k M : carried k M -> crypto_inc_byte M a k = Some (wr m a (be_inc (rd m a n))).
Proof using Hm Hin.
  intros Hc. unfold crypto_inc_byte, count_fuel. assert (0 <= k) as Hk by (destruct Hc; lia).
  rewrite <- (Z2Nat.id k Hk) in Hc |- *. rewrite Nat2Z.id. clear Hk.
  match goal with |- c_loop _ ?f _ = _ => set (body := f) end. revert M Hc.
  induction (Z.to_nat k) as [|j IH]; intros M Hc; cbn [c_loop]; unfold body at 1.
  - cbn. f_equal. by apply carried_all.
  - rewrite (proj2 (truthy_true _)) by lia. cbv zeta.
    destruct (carried_mem _ 1 M Hc) as (HM & Hrd & Hb & _); [lia|].
    destruct (arr_get_rd1 M _ HM) as (x & Hx & Rx). rewrite Hx, bind_Some_eq.
    assert (is_byte x) as Hbx.
    { pose proof (bytes_rd M (a + Z.of_nat (S j) - 1) 1 Hb) as H. rewrite Rx in H. by apply Forall_cons_iff in H as [? _]. }
    rewrite arr_set_wr by done. rewrite bind_Some_eq. unfold is_byte in Hbx. rewrite Hrd in Rx.
    destruct (Z.eq_dec x 255) as [->|Hne].
    + change (u8 (255 + 1)) with 0. cbn [truthy Z.eqb negb].
      replace (Z.of_nat (S j) - 1) with (Z.of_nat j) by lia.
      replace (a + Z.of_nat (S j) - 1) with (a + Z.of_nat j) by lia. apply IH.
      pose proof (carry_on _ 1 M Hc ltac:(lia)) as Hnext. rewrite Rx in Hnext. specialize (Hnext eq_refl).
      replace (Z.of_nat (S j) - 1) with (Z.of_nat j) in Hnext by lia.
      by replace (a + Z.of_nat (S j) - 1) with (a + Z.of_nat j) in Hnext by lia.
    + assert (u8 (x + 1) = x + 1) as -> by (unfold u8; apply Z.mod_small; lia).
      rewrite (proj2 (truthy_true _)) by lia. f_equal. apply (carry_stop _ 1); [done|lia|..|done|].
      * apply Forall_cons_2; [unfold is_byte; lia|done].
      * rewrite Rx. cbn [be_num]. rewrite blen_nil. lia.
Qed.
Lemma crypto_inc_ok : crypto_inc m a n = Some (wr m a (be_inc (rd m a n))).
Proof using Hm Hin.
  assert (carried n m) as H0.
  { split; [unfold in_mem in *; lia|]. rewrite Z.sub_diag. cbn [Z.to_nat replicate].
    rewrite wr_nil by (unfold in_mem in *; lia). done. }
  unfold crypto_inc. match goal with |- c_seq (c_loop _ ?f _) _ = _ => set (body := f) end.
  cut (forall fuel k M, carried k M -> (Z.to_nat k < fuel)%nat ->
    c_seq (c_loop fuel body (M, a + k, k)) (fun '(m, size) => crypto_inc_byte m a size) = Some (wr m a (be_inc (rd m a n)))).
  { intros H. apply H; [done|]. unfold count_fuel. lia. }
  induction fuel as [|fuel IH]; intros k M Hc Hf; [lia|]. cbn [c_loop]. unfold body at 1. assert (0 <= k) by (destruct Hc; lia).
  destruct (Z.leb_spec 4 k) as [Hk|Hk]; [|by apply crypto_inc_byte_ok]. cbv zeta.
  destruct (carried_mem _ 4 M Hc) as (HM & Hrd & Hb & _); [lia|].
  destruct (get_le32_rd M _ Hb HM) as (x & Hux & Hx & Rx). rewrite Hx, bind_Some_eq, put_le32_wr, bind_Some_eq by done.
  rewrite Hrd in Rx. pose proof (be_num_swab x Hux) as Hnum. rewrite <- Rx in Hnum.
  destruct (swab32_bytes x Hux) as [Hs _]. unfold is_u32 in Hs.
  destruct (Z.eq_dec (swab32 x) (2 ^ 32 - 1)) as [E|Hne].
  - rewrite E. change (u32 (2 ^ 32 - 1 + 1)) with 0. cbn [truthy Z.eqb negb].
    replace (a + k - 4) with (a + (k - 4)) by lia. apply IH; [|lia].
    pose proof (carry_on _ 4 M Hc ltac:(lia)) as Hnext. rewrite Hnum, E in Hnext.
    replace (a + (k - 4)) with (a + k - 4) by lia. apply Hnext. done.
  - rewrite u32_small by (unfold is_u32; lia). rewrite (proj2 (truthy_true _)) by lia. cbn [c_seq]. f_equal.
    apply (carry_stop _ 4); [done|lia|apply le32_bytes_byte|done|]. rewrite Hnum.
    destruct (swab32_bytes (swab32 x + 1)) as [Hs1 Hr1]; [unfold is_u32; lia|].
    rewrite be_num_swab by done. apply swab32_swab32. unfold is_u32. lia.
Qed.
End inc.

(** ** The cipher *)

Lemma cipher_call_ok f bsize m dst src b' : in_mem m src bsize -> in_mem m dst bsize ->
  f (rd m src bsize) = Some b' -> cipher_call f bsize m dst src = Some (wr m dst b').
Proof.
  intros Hs Hd E. unfold cipher_call. unfold in_mem in *.
  rewrite !(proj2 (Z.leb_le _ _)) by lia. cbn [andb]. by rewrite E.
Qed.
