(* ===== verification/Modes.v ===== *)
(** * Modes of operation

    The loops of [crypto/ecb.c], [crypto/cbc.c], [crypto/pcbc.c] and
    [crypto/ctr.c] over one chunk of a request: [walk] has the addresses of the
    source, the destination and the initialisation vector in memory and the
    number of bytes.  Each function gives the new memory and the number of bytes
    left over.  Local arrays are in memory too, at an address that is an
    argument. *)

From S2P Require Import Prelude Bytes Mem LibString LibStringCorrect Cipher CryptoOps.
Open Scope c_scope.

Record blkcipher_walk := Walk { walk_nbytes : Z; walk_src : Z; walk_dst : Z; walk_iv : Z }.

(** [crypto_cbc_alloc] only accepts such block sizes. *)
Definition is_power_of_2 (n : Z) : bool := negb (n =? 0) && (n .& (n - 1) =? 0).

Section modes.
Context (alg : crypto_alg) (ctx : cra_ctx alg).

Definition bsize : Z := Z.of_nat (cra_blocksize alg).
Definition encrypt_fn : mem -> Z -> Z -> option mem := cipher_call (cia_encrypt alg ctx) bsize.
Definition decrypt_fn : mem -> Z -> Z -> option mem := cipher_call (cia_decrypt alg ctx) bsize.

(** [while ((nbytes -= bsize) >= bsize)] at the end of a loop body. *)
Definition more {S R} (nbytes : Z) (next : Z -> S) (stop : Z -> R) : option (S + R) :=
  let nbytes := u32 (nbytes - bsize) in
  if bsize <=? nbytes then Some (inl (next nbytes)) else Some (inr (stop nbytes)).

(** ** Electronic code book *)

Definition crypto_ecb_crypt_chunk (fn : mem -> Z -> Z -> option mem) (m : mem) (walk : blkcipher_walk) : option (mem * Z) :=
  c_loop (count_fuel (walk_nbytes walk)) (fun '(m, wsrc, wdst, nbytes) =>
    m ← fn m wdst wsrc;
    more nbytes (fun nbytes => (m, wsrc + bsize, wdst + bsize, nbytes)) (fun nbytes => (m, nbytes)))
  (m, walk_src walk, walk_dst walk, walk_nbytes walk).

(** ** Cipher block chaining *)

Definition crypto_cbc_encrypt_segment (m : mem) (walk : blkcipher_walk) : option (mem * Z) :=
  let iv := walk_iv walk in
  c_loop (count_fuel (walk_nbytes walk)) (fun '(m, src, dst, nbytes) =>
    m ← crypto_xor m iv src bsize;
    m ← encrypt_fn m dst iv;
    '(m, _) ← memcpy m iv dst bsize;
    more nbytes (fun nbytes => (m, src + bsize, dst + bsize, nbytes)) (fun nbytes => (m, nbytes)))
  (m, walk_src walk, walk_dst walk, walk_nbytes walk).

Definition crypto_cbc_encrypt_inplace (m : mem) (walk : blkcipher_walk) : option (mem * Z) :=
  '(m, iv, nbytes) ← c_loop (count_fuel (walk_nbytes walk)) (fun '(m, src, iv, nbytes) =>
    m ← crypto_xor m src iv bsize;
    m ← encrypt_fn m src src;
    let iv := src in
    more nbytes (fun nbytes => (m, src + bsize, iv, nbytes)) (fun nbytes => (m, iv, nbytes)))
  (m, walk_src walk, walk_iv walk, walk_nbytes walk);
  '(m, _) ← memcpy m (walk_iv walk) iv bsize;
  Some (m, nbytes).

Definition crypto_cbc_decrypt_segment (m : mem) (walk : blkcipher_walk) : option (mem * Z) :=
  '(m, iv, nbytes) ← c_loop (count_fuel (walk_nbytes walk)) (fun '(m, src, dst, iv, nbytes) =>
    m ← decrypt_fn m dst src;
    m ← crypto_xor m dst iv bsize;
    let iv := src in
    more nbytes (fun nbytes => (m, src + bsize, dst + bsize, iv, nbytes)) (fun nbytes => (m, iv, nbytes)))
  (m, walk_src walk, walk_dst walk, walk_iv walk, walk_nbytes walk);
  '(m, _) ← memcpy m (walk_iv walk) iv bsize;
  Some (m, nbytes).

(** The blocks are decrypted from the last to the first. *)
Definition crypto_cbc_decrypt_inplace (last_iv : Z) (m : mem) (walk : blkcipher_walk) : option (mem * Z) :=
  let nbytes := walk_nbytes walk in
  let src := walk_src walk + (nbytes - (nbytes .& (bsize - 1)) - bsize) in
  '(m, _) ← memcpy m last_iv src bsize;
  '(m, src, nbytes) ← c_loop (count_fuel nbytes) (fun '(m, src, nbytes) =>
    m ← decrypt_fn m src src;
    let nbytes := u32 (nbytes - bsize) in
    if nbytes <? bsize then Some (inr (m, src, nbytes))
    else
      m ← crypto_xor m src (src - bsize) bsize;
      Some (inl (m, src - bsize, nbytes))) (m, src, nbytes);
  m ← crypto_xor m src (walk_iv walk) bsize;
  '(m, _) ← memcpy m (walk_iv walk) last_iv bsize;
  Some (m, nbytes).

(** ** Propagating cipher block chaining *)

Definition crypto_pcbc_encrypt_segment (m : mem) (walk : blkcipher_walk) : option (mem * Z) :=
  let iv := walk_iv walk in
  c_loop (count_fuel (walk_nbytes walk)) (fun '(m, src, dst, nbytes) =>
    m ← crypto_xor m iv src bsize;
    m ← encrypt_fn m dst iv;
    '(m, _) ← memcpy m iv dst bsize;
    m ← crypto_xor m iv src bsize;
    more nbytes (fun nbytes => (m, src + bsize, dst + bsize, nbytes)) (fun nbytes => (m, nbytes)))
  (m, walk_src walk, walk_dst walk, walk_nbytes walk).

Definition crypto_pcbc_encrypt_inplace (tmpbuf : Z) (m : mem) (walk : blkcipher_walk) : option (mem * Z) :=
  let iv := walk_iv walk in
  '(m, nbytes) ← c_loop (count_fuel (walk_nbytes walk)) (fun '(m, src, nbytes) =>
    '(m, _) ← memcpy m tmpbuf src bsize;
    m ← crypto_xor m iv src bsize;
    m ← encrypt_fn m src iv;
    '(m, _) ← memcpy m iv tmpbuf bsize;
    m ← crypto_xor m iv src bsize;
    more nbytes (fun nbytes => (m, src + bsize, nbytes)) (fun nbytes => (m, nbytes)))
  (m, walk_src walk, walk_nbytes walk);
  '(m, _) ← memcpy m (walk_iv walk) iv bsize;
  Some (m, nbytes).

Definition crypto_pcbc_decrypt_segment (m : mem) (walk : blkcipher_walk) : option (mem * Z) :=
  let iv := walk_iv walk in
  '(m, nbytes) ← c_loop (count_fuel (walk_nbytes walk)) (fun '(m, src, dst, nbytes) =>
    m ← decrypt_fn m dst src;
    m ← crypto_xor m dst iv bsize;
    '(m, _) ← memcpy m iv src bsize;
    m ← crypto_xor m iv dst bsize;
    more nbytes (fun nbytes => (m, src + bsize, dst + bsize, nbytes)) (fun nbytes => (m, nbytes)))
  (m, walk_src walk, walk_dst walk, walk_nbytes walk);
  '(m, _) ← memcpy m (walk_iv walk) iv bsize;
  Some (m, nbytes).

Definition crypto_pcbc_decrypt_inplace (tmpbuf : Z) (m : mem) (walk : blkcipher_walk) : option (mem * Z) :=
  let iv := walk_iv walk in
  '(m, nbytes) ← c_loop (count_fuel (walk_nbytes walk)) (fun '(m, src, nbytes) =>
    '(m, _) ← memcpy m tmpbuf src bsize;
    m ← decrypt_fn m src src;
    m ← crypto_xor m src iv bsize;
    '(m, _) ← memcpy m iv tmpbuf bsize;
    m ← crypto_xor m iv src bsize;
    more nbytes (fun nbytes => (m, src + bsize, nbytes)) (fun nbytes => (m, nbytes)))
  (m, walk_src walk, walk_nbytes walk);
  '(m, _) ← memcpy m (walk_iv walk) iv bsize;
  Some (m, nbytes).

(** ** Counter mode *)

Definition crypto_ctr_crypt_segment (m : mem) (walk : blkcipher_walk) : option (mem * Z) :=
  let ctrblk := walk_iv walk in
  c_loop (count_fuel (walk_nbytes walk)) (fun '(m, src, dst, nbytes) =>
    m ← encrypt_fn m dst ctrblk;
    m ← crypto_xor m dst src bsize;
    m ← crypto_inc m ctrblk bsize;
    more nbytes (fun nbytes => (m, src + bsize, dst + bsize, nbytes)) (fun nbytes => (m, nbytes)))
  (m, walk_src walk, walk_dst walk, walk_nbytes walk).

Definition crypto_ctr_crypt_inplace (keystream : Z) (m : mem) (walk : blkcipher_walk) : option (mem * Z) :=
  let ctrblk := walk_iv walk in
  c_loop (count_fuel (walk_nbytes walk)) (fun '(m, src, nbytes) =>
    m ← encrypt_fn m keystream ctrblk;
    m ← crypto_xor m src keystream bsize;
    m ← crypto_inc m ctrblk bsize;
    more nbytes (fun nbytes => (m, src + bsize, nbytes)) (fun nbytes => (m, nbytes)))
  (m, walk_src walk, walk_nbytes walk).

(** The last part of a message, shorter than a block. *)
Definition crypto_ctr_crypt_final (keystream : Z) (m : mem) (walk : blkcipher_walk) : option mem :=
  let ctrblk := walk_iv walk in
  let nbytes := walk_nbytes walk in
  m ← encrypt_fn m keystream ctrblk;
  m ← crypto_xor m keystream (walk_src walk) nbytes;
  '(m, _) ← memcpy m (walk_dst walk) keystream nbytes;
  crypto_inc m ctrblk bsize.

(** ** One chunk of a request

    The body of the loops of [crypto_cbc_encrypt] and the others, which choose by
    whether the chunk is in place; [tmp] is the address of the local array. *)

Definition inplace (walk : blkcipher_walk) : bool := walk_src walk =? walk_dst walk.

Definition crypto_cbc_encrypt_chunk (m : mem) (walk : blkcipher_walk) : option (mem * Z) :=
  if inplace walk then crypto_cbc_encrypt_inplace m walk else crypto_cbc_encrypt_segment m walk.
Definition crypto_cbc_decrypt_chunk (tmp : Z) (m : mem) (walk : blkcipher_walk) : option (mem * Z) :=
  if inplace walk then crypto_cbc_decrypt_inplace tmp m walk else crypto_cbc_decrypt_segment m walk.
Definition crypto_pcbc_encrypt_chunk (tmp : Z) (m : mem) (walk : blkcipher_walk) : option (mem * Z) :=
  if inplace walk then crypto_pcbc_encrypt_inplace tmp m walk else crypto_pcbc_encrypt_segment m walk.
Definition crypto_pcbc_decrypt_chunk (tmp : Z) (m : mem) (walk : blkcipher_walk) : option (mem * Z) :=
  if inplace walk then crypto_pcbc_decrypt_inplace tmp m walk else crypto_pcbc_decrypt_segment m walk.
Definition crypto_ctr_crypt_chunk (tmp : Z) (m : mem) (walk : blkcipher_walk) : option (mem * Z) :=
  if inplace walk then crypto_ctr_crypt_inplace tmp m walk else crypto_ctr_crypt_segment m walk.

Inductive mode := ECB | CBC | PCBC | CTR.

Definition encrypt_chunk (md : mode) (tmp : Z) : mem -> blkcipher_walk -> option (mem * Z) :=
  match md with
  | ECB => crypto_ecb_crypt_chunk encrypt_fn
  | CBC => crypto_cbc_encrypt_chunk
  | PCBC => crypto_pcbc_encrypt_chunk tmp
  | CTR => crypto_ctr_crypt_chunk tmp
  end.
Definition decrypt_chunk (md : mode) (tmp : Z) : mem -> blkcipher_walk -> option (mem * Z) :=
  match md with
  | ECB => crypto_ecb_crypt_chunk decrypt_fn
  | CBC => crypto_cbc_decrypt_chunk tmp
  | PCBC => crypto_pcbc_decrypt_chunk tmp
  | CTR => crypto_ctr_crypt_chunk tmp
  end.

End modes.
