(* ===== verification/ModesCorrect.v ===== *)
(** * Modes of operation: correctness

    Each mode as a step from a chaining value and a block to an output block
    and the next chaining value; the loops of [Modes] run the step over the
    blocks of a chunk, whether source and destination are the same or not. *)

From S2P Require Import Prelude Bytes Mem LibString LibStringCorrect Cipher CryptoOps Modes.
Open Scope c_scope.

(** ** Modes as steps *)

Definition mode_step := list Z -> list Z -> list Z * list Z.

(** The output for a list of blocks, and the last chaining value. *)
Fixpoint run (st : mode_step) (v : list Z) (bs : list (list Z)) : list Z * list Z :=
  match bs with
  | [] => ([], v)
  | b :: bs => let '(o, v) := st v b in let '(os, v) := run st v bs in (o ++ os, v)
  end.

Lemma run_app st v bs bs' : run st v (bs ++ bs') =
  (fst (run st v bs) ++ fst (run st (snd (run st v bs)) bs'), snd (run st (snd (run st v bs)) bs')).
Proof.
  revert v. induction bs as [|b bs IH]; intros v; simpl; [by destruct (run st v bs')|].
  destruct (st v b) as [o v']. specialize (IH v'). destruct (run st v' (bs ++ bs')) as [os w] eqn:E.
  destruct (run st v' bs) as [os1 w1]. simpl in *. destruct (run st w1 bs') as [os2 w2]. simpl in *.
  injection IH as -> ->. by rewrite app_assoc.
Qed.

Lemma run_snoc st v bs b : run st v (bs ++ [b]) =
  let '(o, v') := st (snd (run st v bs)) b in (fst (run st v bs) ++ o, v').
Proof.
  rewrite run_app. simpl. destruct (st (snd (run st v bs)) b) as [o v']. simpl. by rewrite app_nil_r.
Qed.

(** A step works on blocks of [n] bytes. *)
Definition step_ok (n : nat) (st : mode_step) : Prop :=
  forall v b, block n v -> block n b -> block n (fst (st v b)) /\ block n (snd (st v b)).

Lemma run_ok n st v bs : step_ok n st -> block n v -> Forall (block n) bs ->
  block (n * length bs) (fst (run st v bs)) /\ block n (snd (run st v bs)).
Proof.
  intros Hst Hv Hbs. revert v Hv. induction Hbs as [|b bs Hb Hbs IH]; intros v Hv; simpl.
  - split; [|done]. split; [simpl; lia | constructor].
  - destruct (Hst v b Hv Hb) as [Ho Hv']. destruct (st v b) as [o v']. simpl in *. destruct (IH v' Hv') as [Hos Hw].
    destruct (run st v' bs) as [os w]. simpl in *. split; [|done]. destruct Ho, Hos. split; [rewrite length_app; lia|].
    by apply Forall_app.
Qed.

(** Decryption undoes encryption block by block and keeps the chaining values. *)
Definition step_inverse (n : nat) (est dst : mode_step) : Prop :=
  forall v b, block n v -> block n b -> dst v (fst (est v b)) = (b, snd (est v b)).

(** The output of a run, block by block. *)
Fixpoint outs (st : mode_step) (v : list Z) (bs : list (list Z)) : list (list Z) :=
  match bs with [] => [] | b :: bs => let '(o, v) := st v b in o :: outs st v bs end.

Lemma run_outs st v bs : fst (run st v bs) = concat (outs st v bs).
Proof.
  revert v. induction bs as [|b bs IH]; intros v; simpl; [done|]. destruct (st v b) as [o v']. specialize (IH v').
  destruct (run st v' bs). simpl in *. by rewrite IH.
Qed.

Lemma run_inverse n est dst v bs : step_ok n est -> step_inverse n est dst -> block n v -> Forall (block n) bs ->
  run dst v (outs est v bs) = (concat bs, snd (run est v bs)).
Proof.
  intros Hok Hinv Hv Hbs. revert v Hv. induction Hbs as [|b bs Hb Hbs IH]; intros v Hv; simpl; [done|].
  pose proof (Hinv v b Hv Hb) as E. destruct (Hok v b Hv Hb) as [Ho Hv']. destruct (est v b) as [o v']. simpl in *.
  rewrite E, (IH v' Hv'). by destruct (run est v' bs).
Qed.

(** ** The modes *)

Section steps.
Context (alg : crypto_alg) (ctx_wf : cra_ctx alg -> Prop) `{!CipherLaws alg ctx_wf}.
Context (ctx : cra_ctx alg) (Hctx : ctx_wf ctx).
Abbreviation n := (cra_blocksize alg).

Definition enc (b : list Z) : list Z := default [] (cia_encrypt alg ctx b).
Definition dec (b : list Z) : list Z := default [] (cia_decrypt alg ctx b).

Lemma enc_ok b : block n b -> cia_encrypt alg ctx b = Some (enc b) /\ block n (enc b) /\ dec (enc b) = b.
Proof using All.
  intros Hb. destruct (encrypt_law ctx b Hctx Hb) as (b' & E & Hb' & D). unfold enc, dec. rewrite E. simpl. by rewrite D.
Qed.

Lemma dec_ok b : block n b -> cia_decrypt alg ctx b = Some (dec b) /\ block n (dec b) /\ enc (dec b) = b.
Proof using All.
  intros Hb. destruct (decrypt_law ctx b Hctx Hb) as (b' & E & Hb' & D). unfold enc, dec. rewrite E. simpl. by rewrite D.
Qed.

Lemma block_xor a b : block n a -> block n b -> block n (xor_bytes a b).
Proof using.
  intros [La Ha] [Lb Hb]. split; [rewrite length_xor; lia|]. by apply Forall_zip_with_bytes.
Qed.

Lemma xor_comm a b : xor_bytes a b = xor_bytes b a.
Proof using.
  revert b. induction a as [|x a IH]; intros [|y b]; try done. unfold xor_bytes in *. simpl. by rewrite IH, Z.lxor_comm.
Qed.

Lemma xor_twice a b : length a = length b -> xor_bytes (xor_bytes a b) b = a.
Proof using.
  revert b. induction a as [|x a IH]; intros [|y b] H; try done. injection H as H. unfold xor_bytes in *. simpl.
  rewrite IH by done. f_equal. by rewrite Z.lxor_assoc, Z.lxor_nilpotent, Z.lxor_0_r.
Qed.

Definition ecb_enc_step : mode_step := fun v b => (enc b, v).
Definition ecb_dec_step : mode_step := fun v b => (dec b, v).
Definition cbc_enc_step : mode_step := fun v b => let e := enc (xor_bytes v b) in (e, e).
Definition cbc_dec_step : mode_step := fun v b => (xor_bytes (dec b) v, b).
Definition pcbc_enc_step : mode_step := fun v b => let e := enc (xor_bytes v b) in (e, xor_bytes e b).
Definition pcbc_dec_step : mode_step := fun v b => let p := xor_bytes (dec b) v in (p, xor_bytes b p).
Definition ctr_step : mode_step := fun v b => (xor_bytes (enc v) b, be_inc v).

Lemma be_inc_block v : block n v -> block n (be_inc v).
Proof using. intros [Hl _]. unfold be_inc. split; [by rewrite length_be_bytes | apply be_bytes_byte]. Qed.

Lemma steps_ok : step_ok n ecb_enc_step /\ step_ok n ecb_dec_step /\ step_ok n cbc_enc_step /\ step_ok n cbc_dec_step /\
  step_ok n pcbc_enc_step /\ step_ok n pcbc_dec_step /\ step_ok n ctr_step.
Proof using All.
  assert (forall b, block n b -> block n (enc b)) as He by (intros b Hb; by apply enc_ok).
  assert (forall b, block n b -> block n (dec b)) as Hd by (intros b Hb; by apply dec_ok).
  repeat (split; [intros v b Hv Hb; cbn; auto 6 using block_xor|]).
  intros v b Hv Hb. cbn. auto using block_xor, be_inc_block.
Qed.
Lemma steps_inverse : step_inverse n ecb_enc_step ecb_dec_step /\ step_inverse n cbc_enc_step cbc_dec_step /\
  step_inverse n pcbc_enc_step pcbc_dec_step /\ step_inverse n ctr_step ctr_step.
Proof using All.
  assert (forall b, block n b -> dec (enc b) = b) as Hinv by (intros b Hb; by apply enc_ok).
  split; [|split; [|split]]; intros v b Hv Hb; cbn;
    unfold ecb_dec_step, cbc_dec_step, pcbc_dec_step, ctr_step; rewrite ?Hinv by auto using block_xor.
  - done.
  - rewrite (xor_comm v b), xor_twice; [done|]. destruct Hv, Hb; lia.
  - rewrite (xor_comm v b), xor_twice; [done|]. destruct Hv, Hb; lia.
  - destruct (enc_ok v Hv) as (_ & [Le _] & _). destruct Hb as [Lb _].
    rewrite (xor_comm (enc v) (xor_bytes (enc v) b)), (xor_comm (enc v) b), xor_twice by lia. done.
Qed.
End steps.

(** ** The loops over a chunk *)

Section counting.
Context (alg : crypto_alg).
Abbreviation bs := (bsize alg).
Context (Hbs : 0 < bs).

(** [nb] blocks and [r] bytes more. *)
Context (nb : nat) (r : Z) (Hr : 0 <= r < bs) (Hnb : (0 < nb)%nat) (Hmax : Z.of_nat nb * bs + r < 2 ^ 32).
Abbreviation nbytes := (Z.of_nat nb * bs + r).

(** A loop whose body ends with the test of the code: [f k] is its state, but
    for the number of bytes left, before block [k]. *)
Lemma mode_loop {S R} (f : nat -> Z -> S) (stop : nat -> Z -> R) (body : S -> option (S + R)) s :
  s = f 0%nat nbytes -> (forall k x, (k < nb)%nat -> body (f k x) = more alg x (f (Datatypes.S k)) (stop (Datatypes.S k))) ->
  c_loop (count_fuel nbytes) body s = Some (stop nb r).
Proof using Hbs Hr Hnb Hmax.
  intros -> Hbody. apply (c_loop_trace (nb - 1) (fun k => f k (nbytes - Z.of_nat k * bs))).
  - f_equal. lia.
  - intros k Hk. rewrite Hbody by lia. unfold more. rewrite u32_small by (unfold is_u32; nia).
    rewrite (proj2 (Z.leb_le _ _)) by nia. cbv zeta. do 3 f_equal. lia.
  - rewrite Hbody by lia. unfold more. rewrite u32_small by (unfold is_u32; nia).
    rewrite (proj2 (Z.leb_gt _ _)) by nia. cbv zeta.
    replace (Datatypes.S (nb - 1)) with nb by lia. do 3 f_equal. nia.
  - unfold count_fuel. nia.
Qed.

End counting.

(** The operations, by what they read. *)
Lemma crypto_xor_rd m d s n x y : bytes_ok m -> in_mem m d n -> in_mem m s n -> disjoint d n s n -> rd m d n = x ->
  rd m s n = y -> crypto_xor m d s n = Some (wr m d (xor_bytes x y)).
Proof. intros Hm Hd Hs Hdis <- <-. by apply crypto_xor_ok. Qed.

Lemma memcpy_rd m d s n b : in_mem m d n -> in_mem m s n -> d <= s \/ s + n <= d -> rd m s n = b ->
  memcpy m d s n = Some (wr m d b, d).
Proof. intros Hd Hs Ho <-. by apply memcpy_ok. Qed.

Lemma cipher_call_rd f n m d s b b' : in_mem m s n -> in_mem m d n -> rd m s n = b -> f b = Some b' ->
  cipher_call f n m d s = Some (wr m d b').
Proof. intros Hs Hd <- E. by apply cipher_call_ok. Qed.

Lemma blen_block {alg} b : block (cra_blocksize alg) b -> blen b = bsize alg.
Proof. intros [H _]. unfold blen, bsize. lia. Qed.

(** The memory of a chunk of [nb] blocks: source and destination are the same
    or apart, and apart from the chaining value. *)
Record area (alg : crypto_alg) (nb : nat) (m : mem) (src dst iv : Z) : Prop := Area {
  ar_bytes : bytes_ok m;
  ar_src : in_mem m src (Z.of_nat nb * bsize alg);
  ar_dst : in_mem m dst (Z.of_nat nb * bsize alg);
  ar_iv : in_mem m iv (bsize alg);
  ar_src_iv : disjoint src (Z.of_nat nb * bsize alg) iv (bsize alg);
  ar_dst_iv : disjoint dst (Z.of_nat nb * bsize alg) iv (bsize alg);
  ar_src_dst : src = dst \/ disjoint src (Z.of_nat nb * bsize alg) dst (Z.of_nat nb * bsize alg)
}.

(** The memory while a chunk is processed: [X] has been written at [dst] and
    the chaining value is [v]. *)
Definition N (m : mem) (dst iv : Z) (X v : list Z) : mem := wr (wr m dst X) iv v.

Section area.
Context (alg : crypto_alg) (nb : nat) (m : mem) (src dst iv : Z) (Ha : area alg nb m src dst iv) (Hbs : 0 < bsize alg).
Abbreviation bs := (bsize alg).
Abbreviation N := (N m dst iv).

Definition blk (k : nat) : list Z := rd m (src + Z.of_nat k * bs) bs.
Definition in_area (X v : list Z) : Prop := blen X <= Z.of_nat nb * bs /\ blen v = bs.

Lemma N_write X v : in_area X v -> in_mem m dst (blen X) /\ in_mem (wr m dst X) iv (blen v).
Proof using All.
  destruct Ha as [Hm Hsrc Hdst Hiv Hsi Hdi Hsd]. intros [HX Hv]. pose proof (blen_nonneg X) as HX0. assert (in_mem m dst (blen X)) as H by (unfold in_mem in *; lia).
  split; [done|]. apply in_mem_wr; [done|]. by rewrite Hv.
Qed.

Lemma N_in X v p i : in_area X v -> in_mem (N X v) p i <-> in_mem m p i.
Proof using All. destruct Ha as [Hm Hsrc Hdst Hiv Hsi Hdi Hsd]. intros H. destruct (N_write X v H) as [H1 H2]. unfold N. by rewrite !in_mem_wr. Qed.

Lemma N_bytes X v : Forall is_byte X -> Forall is_byte v -> bytes_ok (N X v).
Proof using All. destruct Ha as [Hm Hsrc Hdst Hiv Hsi Hdi Hsd]. intros. unfold N. by apply bytes_wr; [apply bytes_wr|]. Qed.

Lemma N_iv X v : in_area X v -> rd (N X v) iv bs = v.
Proof using All. destruct Ha as [Hm Hsrc Hdst Hiv Hsi Hdi Hsd]. intros H. destruct (N_write X v H) as [H1 H2]. unfold N. apply rd_wr_same; [done|]. by destruct H. Qed.

Lemma N_set_iv X v v' : in_area X v -> blen v' = bs -> wr (N X v) iv v' = N X v'.
Proof using All. destruct Ha as [Hm Hsrc Hdst Hiv Hsi Hdi Hsd]. intros H Hv'. destruct (N_write X v H) as [H1 H2]. apply wr_wr_same; [done|]. destruct H. lia. Qed.

(** Other places keep their contents. *)
Lemma N_other X v p i : in_area X v -> in_mem m p i -> disjoint dst (blen X) p i -> disjoint iv bs p i ->
  rd (N X v) p i = rd m p i.
Proof using All.
  destruct Ha as [Hm Hsrc Hdst Hiv Hsi Hdi Hsd]. intros H Hp H1 H2. destruct (N_write X v H) as [W1 W2]. unfold N.
  rewrite rd_wr_other; [|done|by apply in_mem_wr|by destruct H as [_ ->]]. by apply rd_wr_other.
Qed.

Lemma op_copy_iv X v : in_area X v -> memcpy (N X v) iv iv bs = Some (N X v, iv).
Proof using All.
  intros H. pose proof (ar_iv _ _ _ _ _ _ Ha). rewrite (memcpy_rd _ _ _ _ v); [|by apply N_in..|lia|by apply N_iv].
  do 2 f_equal. apply N_set_iv; [done|]. by destruct H.
Qed.

Section at_block.
Context (k : nat) (X : list Z) (Hk : (k < nb)%nat) (HX : blen X = Z.of_nat k * bs).

Lemma k_blocks : 0 <= Z.of_nat k * bs /\ Z.of_nat k * bs + bs <= Z.of_nat nb * bs.
Proof using Hbs Hk. clear -Hbs Hk. nia. Qed.

Lemma X_area v : blen v = bs -> in_area X v.
Proof using Hbs Hk HX. intros Hv. pose proof k_blocks. split; [lia|done]. Qed.

Lemma Xo_area o v : blen o = bs -> blen v = bs -> in_area (X ++ o) v.
Proof using Hbs Hk HX. intros Ho Hv. pose proof k_blocks. split; [rewrite blen_app; lia|done]. Qed.

Lemma N_src v : blen v = bs -> rd (N X v) (src + Z.of_nat k * bs) bs = blk k.
Proof using All.
  destruct Ha as [Hm Hsrc Hdst Hiv Hsi Hdi Hsd]. intros Hv. pose proof k_blocks. apply N_other; [by apply X_area|..]; unfold in_mem, disjoint in *; lia.
Qed.

Lemma N_set_dst o v : blen o = bs -> blen v = bs -> wr (N X v) (dst + Z.of_nat k * bs) o = N (X ++ o) v.
Proof using All.
  destruct Ha as [Hm Hsrc Hdst Hiv Hsi Hdi Hsd]. intros Ho Hv. pose proof k_blocks. destruct (N_write X v (X_area v Hv)) as [H1 H2]. unfold N.
  rewrite wr_comm; [|done|apply in_mem_wr; [done|rewrite Ho; unfold in_mem in *; lia]|
    rewrite Hv, Ho; unfold disjoint in *; lia].
  f_equal. apply wr_app; rewrite HX; [rewrite Ho; unfold in_mem in *; lia|done].
Qed.

Lemma N_out o v : blen o = bs -> blen v = bs -> rd (N (X ++ o) v) (dst + Z.of_nat k * bs) bs = o.
Proof using All.
  destruct Ha as [Hm Hsrc Hdst Hiv Hsi Hdi Hsd]. intros Ho Hv. pose proof k_blocks. rewrite <- N_set_dst by done. apply rd_wr_same; [|done].
  apply N_in; [by apply X_area|]. rewrite Ho. unfold in_mem in *. lia.
Qed.

(** Writing the block again. *)
Lemma N_set_out o o' v : blen o = bs -> blen o' = bs -> blen v = bs ->
  wr (N (X ++ o) v) (dst + Z.of_nat k * bs) o' = N (X ++ o') v.
Proof using All.
  destruct Ha as [Hm Hsrc Hdst Hiv Hsi Hdi Hsd]. intros Ho Ho' Hv. pose proof k_blocks. rewrite <- !N_set_dst by done. apply wr_wr_same; [|lia].
  apply N_in; [by apply X_area|]. rewrite Ho. unfold in_mem in *. lia.
Qed.

Lemma block_in p : p = src \/ p = dst -> in_mem m (p + Z.of_nat k * bs) bs /\ disjoint (p + Z.of_nat k * bs) bs iv bs.
Proof using All. destruct Ha as [Hm Hsrc Hdst Hiv Hsi Hdi Hsd]. pose proof k_blocks. intros [->| ->]; unfold in_mem, disjoint in *; lia. Qed.
Context (HXb : Forall is_byte X).
Abbreviation blockn := (block (cra_blocksize alg)).
Abbreviation src_k := (src + Z.of_nat k * bs).
Abbreviation dst_k := (dst + Z.of_nat k * bs).

Lemma bytes_snoc o : blockn o -> Forall is_byte (X ++ o).
Proof using HXb. intros [_ H]. by apply Forall_app. Qed.

Lemma blk_block : blockn (blk k).
Proof using All.
  destruct Ha as [Hm Hsrc Hdst Hiv Hsi Hdi Hsd]. pose proof k_blocks. split; [|by apply bytes_rd].
  assert (blen (blk k) = bs) as H1 by (apply blen_rd; unfold in_mem in *; lia). unfold blen, bsize in H1. lia.
Qed.

(** Side conditions of the operations at block [k]. *)
Ltac at_block :=
  pose proof k_blocks; pose proof (ar_src _ _ _ _ _ _ Ha); pose proof (ar_dst _ _ _ _ _ _ Ha); pose proof (ar_iv _ _ _ _ _ _ Ha);
  pose proof (ar_src_iv _ _ _ _ _ _ Ha); pose proof (ar_dst_iv _ _ _ _ _ _ Ha);
  repeat match goal with H : blockn ?b |- _ => lazymatch goal with E : blen b = bs |- _ => fail | _ => pose proof (blen_block b H) end end;
  first
  [ apply N_bytes; first [done | by apply bytes_snoc | by apply blk_block]
  | apply N_in; [first [by apply X_area | by apply Xo_area]|]; unfold in_mem in *; lia
  | by apply N_iv; first [by apply X_area | by apply Xo_area]
  | by apply N_src | by apply N_out
  | unfold disjoint in *; lia ].

Lemma op_fn_iv f v e : blockn v -> blockn e -> f v = Some e ->
  cipher_call f bs (N X v) dst_k iv = Some (N (X ++ e) v).
Proof using All.
  intros Hv He Hf. rewrite (cipher_call_rd _ _ _ _ _ v e) by (done || at_block). f_equal. apply N_set_dst; by apply blen_block.
Qed.

Lemma op_fn_src f v e : blockn v -> blockn e -> f (blk k) = Some e ->
  cipher_call f bs (N X v) dst_k src_k = Some (N (X ++ e) v).
Proof using All.
  intros Hv He Hf. rewrite (cipher_call_rd _ _ _ _ _ (blk k) e) by (done || at_block). f_equal. apply N_set_dst; by apply blen_block.
Qed.

Lemma op_fn_dst f v o e : blockn v -> blockn o -> blockn e -> f o = Some e ->
  cipher_call f bs (N (X ++ o) v) dst_k dst_k = Some (N (X ++ e) v).
Proof using All.
  intros Hv Ho He Hf. rewrite (cipher_call_rd _ _ _ _ _ o e) by (done || at_block). f_equal. apply N_set_out; by apply blen_block.
Qed.

Lemma op_xor_iv_src v : blockn v -> crypto_xor (N X v) iv src_k bs = Some (N X (xor_bytes v (blk k))).
Proof using All.
  intros Hv. rewrite (crypto_xor_rd _ _ _ _ v (blk k)); [|destruct Hv; at_block|at_block..].
  f_equal. apply N_set_iv; [by apply X_area, blen_block|]. apply blen_block, block_xor; [done|apply blk_block].
Qed.

Lemma op_xor_iv_dst v o : blockn v -> blockn o -> crypto_xor (N (X ++ o) v) iv dst_k bs = Some (N (X ++ o) (xor_bytes v o)).
Proof using All.
  intros Hv Ho. rewrite (crypto_xor_rd _ _ _ _ v o); [|destruct Hv; at_block|at_block..].
  f_equal. apply N_set_iv; [by apply Xo_area; apply blen_block|]. by apply blen_block, block_xor.
Qed.

Lemma op_xor_dst_iv v o : blockn v -> blockn o -> crypto_xor (N (X ++ o) v) dst_k iv bs = Some (N (X ++ xor_bytes o v) v).
Proof using All.
  intros Hv Ho. rewrite (crypto_xor_rd _ _ _ _ o v); [|destruct Hv; at_block|at_block..].
  f_equal. apply N_set_out; apply blen_block; auto using block_xor.
Qed.

Lemma op_copy_iv_dst v o : blockn v -> blockn o -> memcpy (N (X ++ o) v) iv dst_k bs = Some (N (X ++ o) o, iv).
Proof using All.
  intros Hv Ho. rewrite (memcpy_rd _ _ _ _ o) by at_block.
  do 2 f_equal. apply N_set_iv; [by apply Xo_area; apply blen_block | by apply blen_block].
Qed.

Lemma op_inc v o : blockn v -> blockn o -> crypto_inc (N (X ++ o) v) iv bs = Some (N (X ++ o) (be_inc v)).
Proof using All.
  intros Hv Ho. rewrite crypto_inc_ok; [|destruct Hv; at_block|at_block].
  rewrite N_iv by (by apply Xo_area; apply blen_block). f_equal.
  apply N_set_iv; [by apply Xo_area; apply blen_block | by apply blen_block, be_inc_block].
Qed.

(** In place, the block of the source is the block of the destination. *)
Lemma op_in_place v : src = dst -> blockn v -> N X v = N (X ++ blk k) v.
Proof using All.
  intros E Hv. rewrite <- (N_set_dst (blk k) v) by (apply blen_block; first [done | apply blk_block]).
  symmetry. rewrite <- (N_src v) by (by apply blen_block). rewrite E. apply wr_rd. at_block.
Qed.

(** Source and destination apart: the source keeps its blocks. *)
Context (Hap : disjoint src (Z.of_nat nb * bs) dst (Z.of_nat nb * bs)).

Lemma N_src_apart v o j : (j < nb)%nat -> blockn v -> blockn o -> rd (N (X ++ o) v) (src + Z.of_nat j * bs) bs = blk j.
Proof using All.
  intros Hj Hv Ho. pose proof (blen_block v Hv). pose proof (blen_block o Ho). pose proof k_blocks.
  assert (0 <= Z.of_nat j * bs /\ Z.of_nat j * bs + bs <= Z.of_nat nb * bs) as Hjb by (clear -Hbs Hj; nia).
  destruct Ha as [Hm Hsrc Hdst Hiv Hsi Hdi Hsd].
  apply N_other; [by apply Xo_area|..]; rewrite ?blen_app; unfold in_mem, disjoint in *; lia.
Qed.
Lemma op_xor_iv_src' v o : blockn v -> blockn o ->
  crypto_xor (N (X ++ o) v) iv src_k bs = Some (N (X ++ o) (xor_bytes v (blk k))).
Proof using All.
  intros Hv Ho. rewrite (crypto_xor_rd _ _ _ _ v (blk k)); [|destruct Hv; at_block|at_block..|by apply N_src_apart].
  f_equal. apply N_set_iv; [by apply Xo_area; apply blen_block|]. apply blen_block, block_xor; [done|apply blk_block].
Qed.

Lemma op_xor_dst_src v o : blockn v -> blockn o ->
  crypto_xor (N (X ++ o) v) dst_k src_k bs = Some (N (X ++ xor_bytes o (blk k)) v).
Proof using All.
  intros Hv Ho. rewrite (crypto_xor_rd _ _ _ _ o (blk k)); [|destruct Hv; at_block|at_block..|by apply N_src_apart].
  f_equal. apply N_set_out; apply blen_block; auto using block_xor, blk_block.
Qed.

Lemma op_copy_iv_src v o j : (j < nb)%nat -> blockn v -> blockn o -> blockn (blk j) ->
  memcpy (N (X ++ o) v) iv (src + Z.of_nat j * bs) bs = Some (N (X ++ o) (blk j), iv).
Proof using All.
  intros Hj Hv Ho Hb. assert (0 <= Z.of_nat j * bs /\ Z.of_nat j * bs + bs <= Z.of_nat nb * bs) as Hjb by (clear -Hbs Hj; nia).
  rewrite (memcpy_rd _ _ _ _ (blk j)); [|at_block|at_block|at_block|by apply N_src_apart].
  do 2 f_equal. apply N_set_iv; [by apply Xo_area; apply blen_block | by apply blen_block].
Qed.
Lemma op_xor_dst_prev v o j : (j < nb)%nat -> blockn v -> blockn o -> blockn (blk j) ->
  crypto_xor (N (X ++ o) v) dst_k (src + Z.of_nat j * bs) bs = Some (N (X ++ xor_bytes o (blk j)) v).
Proof using All.
  intros Hj Hv Ho Hb. assert (0 <= Z.of_nat j * bs /\ Z.of_nat j * bs + bs <= Z.of_nat nb * bs) as Hjb by (clear -Hbs Hj; nia).
  rewrite (crypto_xor_rd _ _ _ _ o (blk j)); [|destruct Hv; at_block|at_block..|by apply N_src_apart].
  f_equal. apply N_set_out; apply blen_block; auto using block_xor.
Qed.
End at_block.
End area.


(** Chaining through the blocks already written. *)
Lemma op_xor_prev_out alg nb m src dst iv (Ha : area alg nb m src dst iv) (Hbs : 0 < bsize alg) j X o' o v :
  (S j < nb)%nat -> blen X = Z.of_nat j * bsize alg -> Forall is_byte X -> block (cra_blocksize alg) o' ->
  block (cra_blocksize alg) o -> block (cra_blocksize alg) v ->
  crypto_xor (N m dst iv ((X ++ o') ++ o) v) (dst + Z.of_nat (S j) * bsize alg) (dst + Z.of_nat j * bsize alg) (bsize alg) =
  Some (N m dst iv ((X ++ o') ++ xor_bytes o o') v).
Proof.
  intros Hj HX HXb Ho' Ho Hv. pose proof (blen_block o' Ho') as Lo'. pose proof (blen_block o Ho) as Lo.
  pose proof (blen_block v Hv) as Lv. assert (j < nb)%nat as Hj' by lia.
  assert (blen (X ++ o') = Z.of_nat (S j) * bsize alg) as HX' by (rewrite blen_app; lia).
  assert (Forall is_byte (X ++ o')) as HXb' by (apply Forall_app; split; [done | apply Ho']).
  pose proof (k_blocks alg nb Hbs (S j) Hj) as Hb. pose proof (k_blocks alg nb Hbs j Hj') as Hb'.
  pose proof (X_area alg nb Hbs (S j) _ Hj HX' v Lv) as Har. pose proof (Xo_area alg nb Hbs (S j) _ Hj HX' o v Lo Lv) as Har'.
  pose proof (ar_dst _ _ _ _ _ _ Ha) as Hdst.
  assert (in_mem m (dst + Z.of_nat (S j) * bsize alg) (bsize alg) /\ in_mem m (dst + Z.of_nat j * bsize alg) (bsize alg))
    as [I1 I2] by (unfold in_mem in *; lia).
  rewrite (crypto_xor_rd _ _ _ _ o o').
  - f_equal. apply (N_set_out alg nb m src dst iv Ha Hbs (S j)); auto using blen_block, block_xor.
  - apply (N_bytes alg nb m src dst iv Ha Hbs); [|apply Hv]. apply Forall_app. split; [done | apply Ho].
  - by apply (N_in alg nb m src dst iv Ha Hbs).
  - by apply (N_in alg nb m src dst iv Ha Hbs).
  - unfold disjoint. lia.
  - by apply (N_out alg nb m src dst iv Ha Hbs (S j)).
  - rewrite <- (N_set_dst alg nb m src dst iv Ha Hbs (S j)) by done.
    rewrite rd_wr_other; [|rewrite Lo; by apply (N_in alg nb m src dst iv Ha Hbs)|by apply (N_in alg nb m src dst iv Ha Hbs)|
      rewrite Lo; unfold disjoint; lia].
    by apply (N_out alg nb m src dst iv Ha Hbs j).
Qed.
