(* ===== verification/ModesLoops.v ===== *)
(** * Modes of operation: the loops

    Each loop of [Modes] leaves at the destination what its step computes from
    the blocks of the source, and the last chaining value at the initialisation
    vector; nothing else in memory changes but the local array. *)

From S2P Require Import Prelude Bytes Mem LibString LibStringCorrect Cipher CryptoOps Modes ModesCorrect.
Open Scope c_scope.

(** ** Chains in memory *)

Section chain.
Context (alg : crypto_alg) (nb : nat) (m : mem) (src dst iv : Z) (Ha : area alg nb m src dst iv) (Hbs : 0 < bsize alg).
Context (st : mode_step) (Hst : step_ok (cra_blocksize alg) st).
Abbreviation bs := (bsize alg).

(** The output and the chaining value after [k] blocks. *)
Definition chain (k : nat) : list Z * list Z := run st (rd m iv bs) (map (blk alg m src) (seq 0 k)).

Lemma blks_ok k : (k <= nb)%nat -> Forall (block (cra_blocksize alg)) (map (blk alg m src) (seq 0 k)).
Proof using Ha Hbs.
  intros Hk. apply Forall_map, Forall_forall. intros j Hj. apply in_seq in Hj.
  destruct Ha as [Hm Hsrc _ _ _ _ _]. split; [|by apply bytes_rd].
  assert (blen (blk alg m src j) = bs) as H.
  { apply blen_rd. pose proof (k_blocks alg nb Hbs j ltac:(lia)). unfold in_mem in *. lia. }
  unfold blen, bsize in H. lia.
Qed.

Lemma iv_block : block (cra_blocksize alg) (rd m iv bs).
Proof using Ha.
  destruct Ha as [Hm _ _ Hiv _ _ _]. split; [|by apply bytes_rd]. pose proof (blen_rd _ _ _ Hiv) as H. unfold blen, bsize in *. lia.
Qed.

Lemma chain_ok k : (k <= nb)%nat -> blen (fst (chain k)) = Z.of_nat k * bs /\ Forall is_byte (fst (chain k)) /\
  block (cra_blocksize alg) (snd (chain k)).
Proof using Ha Hbs Hst.
  intros Hk. destruct (run_ok _ st _ _ Hst iv_block (blks_ok k Hk)) as [[Hl Hb] Hv]. rewrite length_map, length_seq in Hl.
  split; [|done]. unfold chain, blen, bsize in *. rewrite Hl. lia.
Qed.

Lemma chain_S k : chain (S k) =
  (fst (chain k) ++ fst (st (snd (chain k)) (blk alg m src k)), snd (st (snd (chain k)) (blk alg m src k))).
Proof using.
  unfold chain. rewrite seq_S, map_app. cbn [map]. rewrite run_snoc. by destruct (st _ _).
Qed.

Lemma chain_0 : N m dst iv (fst (chain 0)) (snd (chain 0)) = m.
Proof using Ha.
  destruct Ha as [_ _ Hdst Hiv _ _ _]. unfold chain, N. simpl. rewrite wr_nil by (unfold in_mem in *; lia). by apply wr_rd.
Qed.
End chain.

Lemma bsize_pos alg ctx_wf `{!CipherLaws alg ctx_wf} : 0 < bsize alg.
Proof. pose proof blocksize_pos. unfold bsize. lia. Qed.

(** ** The loops *)

Section loops.
Context (alg : crypto_alg) (ctx_wf : cra_ctx alg -> Prop) `{!CipherLaws alg ctx_wf}.
Context (ctx : cra_ctx alg) (Hctx : ctx_wf ctx).
Context (nb : nat) (r : Z) (Hr : 0 <= r < bsize alg) (Hnb : (0 < nb)%nat) (Hmax : Z.of_nat nb * bsize alg + r < 2 ^ 32).
Context (m : mem) (src dst iv : Z) (Ha : area alg nb m src dst iv).
Abbreviation bs := (bsize alg).
Abbreviation walk := (Walk (Z.of_nat nb * bs + r) src dst iv).
Abbreviation enc := (enc alg ctx).
Abbreviation dec := (dec alg ctx).
Abbreviation blockn := (block (cra_blocksize alg)).

Let bs_pos : 0 < bs := bsize_pos alg ctx_wf.

(** The memory after a step over the whole chunk. *)
Definition after (st : mode_step) : mem :=
  N m dst iv (fst (chain alg m src iv st nb)) (snd (chain alg m src iv st nb)).

Lemma blk_ok k : (k < nb)%nat -> blockn (blk alg m src k).
Proof using All.
  intros Hk. pose proof (blks_ok _ _ _ _ _ _ Ha bs_pos nb ltac:(lia)) as H. rewrite Forall_forall in H. apply H, in_map, in_seq. lia.
Qed.

Lemma last_block : exists k, nb = S k /\ (k < nb)%nat.
Proof using Hnb. clear -Hnb. exists (nb - 1)%nat. lia. Qed.

(** The memory before block [k]. *)
Abbreviation state st k := (N m dst iv (fst (chain alg m src iv st k)) (snd (chain alg m src iv st k))).
Abbreviation at_k p k := (p + Z.of_nat k * bs).

(** The state before block [k] and what is known of it. *)
Ltac chain_state st Hst k Hk X v :=
  destruct (chain_ok _ _ _ _ _ _ Ha bs_pos st Hst k ltac:(lia)) as (HX & HXb & Hv);
  rewrite ?(chain_S alg m src iv st k); cbn [fst snd];
  set (X := fst (chain alg m src iv st k)) in *; set (v := snd (chain alg m src iv st k)) in *;
  pose proof (blk_ok k Hk) as Hblk; set (b := blk alg m src k) in *.

Ltac step_state := unfold more; cbv beta zeta; destruct (_ <=? _); state_eq.
Ltac start_loop f stop :=
  apply (mode_loop alg bs_pos nb r Hr Hnb Hmax f stop); [rewrite (chain_0 _ _ _ _ _ _ Ha); state_eq|].

(** The operations at block [k] of this chunk. *)
Abbreviation at_block k X Hk HX HXb lem := (lem alg nb m src dst iv Ha bs_pos k X Hk HX HXb).

Lemma ecb_ok fn f st : st = (fun v b => (f b, v)) -> step_ok (cra_blocksize alg) st ->
  (forall b, blockn b -> fn b = Some (f b)) ->
  crypto_ecb_crypt_chunk alg (cipher_call fn bs) m walk = Some (after st, r).
Proof using All.
  intros E Hst Hfn. unfold crypto_ecb_crypt_chunk, after. cbn [walk_nbytes walk_src walk_dst].
  start_loop (fun k (x : Z) => (state st k, at_k src k, at_k dst k, x)) (fun k (x : Z) => (state st k, x)).
  intros k x Hk. chain_state st Hst k Hk X v. destruct (Hst v b Hv Hblk) as [Ho _]. rewrite E in Ho |- *. cbn in Ho |- *.
  rewrite (at_block k X Hk HX HXb op_fn_src _ v (f b) Hv Ho) by (by apply Hfn). rewrite bind_Some_eq. step_state.
Qed.

Lemma cbc_encrypt_segment_ok : crypto_cbc_encrypt_segment alg ctx m walk = Some (after (cbc_enc_step alg ctx), r).
Proof using All.
  destruct (steps_ok alg ctx_wf ctx Hctx) as (_ & _ & Hst & _). set (st := cbc_enc_step alg ctx) in *.
  unfold crypto_cbc_encrypt_segment, after. cbv zeta. cbn [walk_nbytes walk_src walk_dst walk_iv].
  start_loop (fun k (x : Z) => (state st k, at_k src k, at_k dst k, x)) (fun k (x : Z) => (state st k, x)).
  intros k x Hk. chain_state st Hst k Hk X v. unfold st, cbc_enc_step. cbv zeta. cbn [fst snd]. pose proof (block_xor alg v b Hv Hblk) as Hvb.
  destruct (enc_ok alg ctx_wf ctx Hctx _ Hvb) as (E & He & _). set (e := enc (xor_bytes v b)) in *.
  rewrite (at_block k X Hk HX HXb op_xor_iv_src v Hv), bind_Some_eq. unfold encrypt_fn. fold b.
  rewrite (at_block k X Hk HX HXb op_fn_iv _ _ e Hvb He E), bind_Some_eq.
  rewrite (at_block k X Hk HX HXb op_copy_iv_dst _ e Hvb He), bind_Some_eq. step_state.
Qed.

(** Where the code finds the chaining value. *)
Definition prev_iv (p : Z) (k : nat) : Z := match k with O => iv | S k => at_k p k end.

(** *** Source and destination apart *)

Section apart.
Context (Hap : disjoint src (Z.of_nat nb * bs) dst (Z.of_nat nb * bs)).

Lemma pcbc_encrypt_segment_ok : crypto_pcbc_encrypt_segment alg ctx m walk = Some (after (pcbc_enc_step alg ctx), r).
Proof using All.
  destruct (steps_ok alg ctx_wf ctx Hctx) as (_ & _ & _ & _ & Hst & _). set (st := pcbc_enc_step alg ctx) in *.
  unfold crypto_pcbc_encrypt_segment, after. cbv zeta. cbn [walk_nbytes walk_src walk_dst walk_iv].
  start_loop (fun k (x : Z) => (state st k, at_k src k, at_k dst k, x)) (fun k (x : Z) => (state st k, x)).
  intros k x Hk. chain_state st Hst k Hk X v. unfold st, pcbc_enc_step. cbv zeta. cbn [fst snd]. pose proof (block_xor alg v b Hv Hblk) as Hvb.
  destruct (enc_ok alg ctx_wf ctx Hctx _ Hvb) as (E & He & _). set (e := enc (xor_bytes v b)) in *.
  rewrite (at_block k X Hk HX HXb op_xor_iv_src v Hv), bind_Some_eq. unfold encrypt_fn. fold b.
  rewrite (at_block k X Hk HX HXb op_fn_iv _ _ e Hvb He E), bind_Some_eq.
  rewrite (at_block k X Hk HX HXb op_copy_iv_dst _ e Hvb He), bind_Some_eq.
  rewrite (at_block k X Hk HX HXb op_xor_iv_src' Hap e e He He), bind_Some_eq. fold b. step_state.
Qed.

Lemma pcbc_decrypt_segment_ok : crypto_pcbc_decrypt_segment alg ctx m walk = Some (after (pcbc_dec_step alg ctx), r).
Proof using All.
  destruct (steps_ok alg ctx_wf ctx Hctx) as (_ & _ & _ & _ & _ & Hst & _). set (st := pcbc_dec_step alg ctx) in *.
  unfold crypto_pcbc_decrypt_segment. cbv zeta. cbn [walk_nbytes walk_src walk_dst walk_iv].
  match goal with |- (_ ← ?l; _) = _ => assert (l = Some (after st, r)) as -> end.
  - unfold after. start_loop (fun k (x : Z) => (state st k, at_k src k, at_k dst k, x)) (fun k (x : Z) => (state st k, x)).
    intros k x Hk. chain_state st Hst k Hk X v. unfold st, pcbc_dec_step. cbv zeta. cbn [fst snd].
    destruct (dec_ok alg ctx_wf ctx Hctx _ Hblk) as (E & Hd & _). set (d := dec b) in *.
    pose proof (block_xor alg d v Hd Hv) as Hp. set (p := xor_bytes d v) in *. unfold decrypt_fn.
    rewrite (at_block k X Hk HX HXb op_fn_src _ v d Hv Hd E), bind_Some_eq.
    rewrite (at_block k X Hk HX HXb op_xor_dst_iv v d Hv Hd), bind_Some_eq. fold p.
    rewrite (at_block k X Hk HX HXb op_copy_iv_src Hap v p k Hk Hv Hp Hblk), bind_Some_eq. fold b.
    rewrite (at_block k X Hk HX HXb op_xor_iv_dst b p Hblk Hp), bind_Some_eq. step_state.
  - rewrite bind_Some_eq. unfold after.
    destruct (chain_ok _ _ _ _ _ _ Ha bs_pos st Hst nb ltac:(lia)) as (HX & HXb & Hv).
    rewrite (op_copy_iv alg nb m src dst iv Ha bs_pos); [done|]. split; [lia | by apply blen_block].
Qed.

Lemma ctr_segment_ok : crypto_ctr_crypt_segment alg ctx m walk = Some (after (ctr_step alg ctx), r).
Proof using All.
  destruct (steps_ok alg ctx_wf ctx Hctx) as (_ & _ & _ & _ & _ & _ & Hst). set (st := ctr_step alg ctx) in *.
  unfold crypto_ctr_crypt_segment, after. cbv zeta. cbn [walk_nbytes walk_src walk_dst walk_iv].
  start_loop (fun k (x : Z) => (state st k, at_k src k, at_k dst k, x)) (fun k (x : Z) => (state st k, x)).
  intros k x Hk. chain_state st Hst k Hk X v. unfold st, ctr_step. cbv zeta. cbn [fst snd].
  destruct (enc_ok alg ctx_wf ctx Hctx _ Hv) as (E & He & _). set (e := enc v) in *. unfold encrypt_fn.
  rewrite (at_block k X Hk HX HXb op_fn_iv _ v e Hv He E), bind_Some_eq.
  rewrite (at_block k X Hk HX HXb op_xor_dst_src Hap v e Hv He), bind_Some_eq. fold b.
  rewrite (at_block k X Hk HX HXb op_inc v _ Hv (block_xor alg e b He Hblk)), bind_Some_eq. step_state.
Qed.
(** *** Chaining through the blocks of the source *)

Lemma cbc_dec_chain k : snd (chain alg m src iv (cbc_dec_step alg ctx) (S k)) = blk alg m src k.
Proof using. by rewrite chain_S. Qed.

Lemma cbc_decrypt_segment_ok : crypto_cbc_decrypt_segment alg ctx m walk = Some (after (cbc_dec_step alg ctx), r).
Proof using All.
  destruct (steps_ok alg ctx_wf ctx Hctx) as (_ & _ & _ & Hst & _). set (st := cbc_dec_step alg ctx) in *.
  pose proof (iv_block _ _ _ _ _ _ Ha) as Hv0. set (v0 := rd m iv bs) in *.
  unfold crypto_cbc_decrypt_segment. cbv zeta. cbn [walk_nbytes walk_src walk_dst walk_iv].
  match goal with |- (_ ← ?l; _) = _ => assert (l =
    Some (N m dst iv (fst (chain alg m src iv st nb)) v0, prev_iv src nb, r)) as -> end.
  - apply (mode_loop alg bs_pos nb r Hr Hnb Hmax
      (fun k x => (N m dst iv (fst (chain alg m src iv st k)) v0, at_k src k, at_k dst k, prev_iv src k, x))
      (fun k x => (N m dst iv (fst (chain alg m src iv st k)) v0, prev_iv src k, x))).
    { change v0 with (snd (chain alg m src iv st 0)). rewrite (chain_0 _ _ _ _ _ _ Ha). state_eq. }
    intros k x Hk. chain_state st Hst k Hk X v. unfold st, cbc_dec_step. cbn [fst snd prev_iv].
    destruct (dec_ok alg ctx_wf ctx Hctx _ Hblk) as (E & Hd & _). set (d := dec b) in *. unfold decrypt_fn.
    rewrite (at_block k X Hk HX HXb op_fn_src _ v0 d Hv0 Hd E), bind_Some_eq.
    assert (crypto_xor (N m dst iv (X ++ d) v0) (at_k dst k) (prev_iv src k) bs = Some (N m dst iv (X ++ xor_bytes d v) v0)) as ->.
    { destruct k as [|j]; [by apply (at_block 0%nat X Hk HX HXb op_xor_dst_iv)|].
      assert (v = blk alg m src j) as -> by (subst v; apply cbc_dec_chain). assert (j < nb)%nat as Hj by lia.
      pose proof (blk_ok j Hj) as Hbj. by apply (at_block (S j) X Hk HX HXb op_xor_dst_prev Hap). }
    rewrite bind_Some_eq. step_state.
  - rewrite bind_Some_eq. destruct last_block as (k & Enb & Hk).
    replace (prev_iv src nb) with (at_k src k) by (by rewrite Enb). unfold after.
    replace (chain alg m src iv st nb) with (chain alg m src iv st (S k)) by (by rewrite Enb). chain_state st Hst k Hk X v. unfold st, cbc_dec_step. cbn [fst snd].
    destruct (dec_ok alg ctx_wf ctx Hctx _ Hblk) as (_ & Hd & _).
    rewrite (at_block k X Hk HX HXb op_copy_iv_src Hap v0 _ k Hk Hv0 (block_xor alg _ _ Hd Hv) Hblk). done.
Qed.
End apart.

(** *** Source and destination the same *)

Section in_place.
Context (Hsame : src = dst).

Lemma cbc_encrypt_inplace_ok : crypto_cbc_encrypt_inplace alg ctx m walk = Some (after (cbc_enc_step alg ctx), r).
Proof using All.
  destruct (steps_ok alg ctx_wf ctx Hctx) as (_ & _ & Hst & _). set (st := cbc_enc_step alg ctx) in *.
  pose proof (iv_block _ _ _ _ _ _ Ha) as Hv0. set (v0 := rd m iv bs) in *.
  unfold crypto_cbc_encrypt_inplace. cbv zeta. cbn [walk_nbytes walk_src walk_dst walk_iv].
  match goal with |- (_ ← ?l; _) = _ => assert (l =
    Some (N m dst iv (fst (chain alg m src iv st nb)) v0, prev_iv dst nb, r)) as -> end.
  - apply (mode_loop alg bs_pos nb r Hr Hnb Hmax
      (fun k x => (N m dst iv (fst (chain alg m src iv st k)) v0, at_k src k, prev_iv dst k, x))
      (fun k x => (N m dst iv (fst (chain alg m src iv st k)) v0, prev_iv dst k, x))).
    { change v0 with (snd (chain alg m src iv st 0)). rewrite (chain_0 _ _ _ _ _ _ Ha). state_eq. }
    intros k x Hk. chain_state st Hst k Hk X v. unfold st, cbc_enc_step. cbn [fst snd prev_iv].
    pose proof (block_xor alg v b Hv Hblk) as Hvb. destruct (enc_ok alg ctx_wf ctx Hctx _ Hvb) as (E & He & _).
    set (e := enc (xor_bytes v b)) in *. rewrite (at_block k X Hk HX HXb op_in_place v0 Hsame Hv0). fold b.
    assert (crypto_xor (N m dst iv (X ++ b) v0) (at_k src k) (prev_iv dst k) bs = Some (N m dst iv (X ++ xor_bytes b v) v0)) as ->.
    { rewrite Hsame. destruct k as [|j]; [by apply (at_block 0%nat X Hk HX HXb op_xor_dst_iv)|]. cbn [prev_iv].
      assert (j < nb)%nat as Hj by lia. subst X v. rewrite chain_S in *. cbn [fst snd] in *.
      destruct (chain_ok _ _ _ _ _ _ Ha bs_pos st Hst j ltac:(lia)) as (HX' & HXb' & Hv').
      apply (op_xor_prev_out alg nb m src dst iv Ha bs_pos); auto. }
    rewrite bind_Some_eq, xor_comm. rewrite Hsame. unfold encrypt_fn.
    rewrite (at_block k X Hk HX HXb op_fn_dst _ v0 _ e Hv0 Hvb He E), bind_Some_eq. rewrite <- Hsame. step_state.
  - rewrite bind_Some_eq. destruct last_block as (k & Enb & Hk).
    replace (prev_iv dst nb) with (at_k dst k) by (by rewrite Enb). unfold after.
    replace (chain alg m src iv st nb) with (chain alg m src iv st (S k)) by (by rewrite Enb).
    chain_state st Hst k Hk X v. unfold st, cbc_enc_step. cbv zeta. cbn [fst snd].
    pose proof (block_xor alg v b Hv Hblk) as Hvb. destruct (enc_ok alg ctx_wf ctx Hctx _ Hvb) as (_ & He & _).
    rewrite (at_block k X Hk HX HXb op_copy_iv_dst v0 _ Hv0 He). done.
Qed.
(** *** With a local array at [tmp] *)

Section local_array.
Context (tmp : Z) (Htmp : in_mem m tmp bs) (Htd : disjoint tmp bs dst (Z.of_nat nb * bs)) (Hti : disjoint tmp bs iv bs).

Lemma tmp_write t : blockn t -> in_mem m tmp (blen t).
Proof using All. intros Ht. by rewrite (blen_block t Ht). Qed.

Lemma area_tmp t : blockn t -> area alg nb (wr m tmp t) src dst iv.
Proof using All.
  intros Ht. pose proof (tmp_write t Ht) as Hw. destruct Ha as [Hm Hsrc Hdst Hiv Hsi Hdi Hsd].
  split; try done; try (by apply in_mem_wr). apply bytes_wr; [done | apply Ht].
Qed.

Lemma blk_tmp t k : blockn t -> (k < nb)%nat -> blk alg (wr m tmp t) src k = blk alg m src k.
Proof using All.
  intros Ht Hk. pose proof (tmp_write t Ht) as Hw. pose proof (blen_block t Ht) as Lt.
  pose proof (k_blocks alg nb bs_pos k Hk) as Hkb. destruct Ha as [_ Hsrc _ _ _ _ _].
  apply rd_wr_other; [done|unfold in_mem in *; lia|]. rewrite Lt, Hsame. unfold disjoint in *. lia.
Qed.

Lemma N_set_tmp t t' X v : blockn t -> blockn t' -> in_area alg nb X v ->
  wr (N (wr m tmp t) dst iv X v) tmp t' = N (wr m tmp t') dst iv X v.
Proof using All.
  intros Ht Ht' HX. pose proof (tmp_write t Ht) as Hw. pose proof (blen_block t Ht) as Lt. pose proof (blen_block t' Ht') as Lt'.
  destruct (N_write _ _ _ _ _ _ (area_tmp t Ht) bs_pos X v HX) as [W1 W2]. pose proof HX as [LX Lv].
  assert (in_mem (wr m tmp t) tmp (blen t')) as Hw' by (apply in_mem_wr; [done|]; rewrite Lt'; by rewrite <- Lt).
  unfold N. rewrite wr_comm; [|done|by apply in_mem_wr|rewrite Lv, Lt'; unfold disjoint in *; lia].
  f_equal. rewrite wr_comm; [|done..|rewrite Lt'; unfold disjoint in *; lia]. f_equal. apply wr_wr_same; [done|lia].
Qed.

Lemma N_rd_tmp t X v : blockn t -> in_area alg nb X v -> rd (N (wr m tmp t) dst iv X v) tmp bs = t.
Proof using All.
  intros Ht HX. pose proof (tmp_write t Ht) as Hw. pose proof (blen_block t Ht) as Lt. pose proof HX as [LX Lv].
  rewrite (N_other _ _ _ _ _ _ (area_tmp t Ht) bs_pos).
  - by apply rd_wr_same.
  - done.
  - by apply in_mem_wr.
  - unfold disjoint in *. lia.
  - unfold disjoint in *. lia.
Qed.

Lemma N_in_tmp t X v p n : blockn t -> in_area alg nb X v -> in_mem (N (wr m tmp t) dst iv X v) p n <-> in_mem m p n.
Proof using All.
  intros Ht HX. rewrite (N_in _ _ _ _ _ _ (area_tmp t Ht) bs_pos) by done. apply in_mem_wr. by apply tmp_write.
Qed.

Lemma tmp_block : blockn (rd m tmp bs).
Proof using All.
  destruct Ha as [Hm _ _ _ _ _ _]. split; [|by apply bytes_rd]. pose proof (blen_rd _ _ _ Htmp) as H. unfold blen, bsize in *. lia.
Qed.

Lemma op_save t X v k : blockn t -> (k < nb)%nat -> blen X = Z.of_nat k * bs -> blockn v ->
  memcpy (N (wr m tmp t) dst iv X v) tmp (at_k src k) bs = Some (N (wr m tmp (blk alg m src k)) dst iv X v, tmp).
Proof using All.
  intros Ht Hk HX Hv. pose proof (X_area alg nb bs_pos k X Hk HX v (blen_block v Hv)) as Har.
  pose proof (k_blocks alg nb bs_pos k Hk) as Hkb. pose proof (ar_src _ _ _ _ _ _ Ha) as Hsrc.
  rewrite (memcpy_rd _ _ _ _ (blk alg m src k)).
  - do 2 f_equal. apply N_set_tmp; [done|by apply blk_ok|done].
  - by apply N_in_tmp.
  - apply N_in_tmp; [done..|]. unfold in_mem in *. lia.
  - rewrite Hsame. unfold disjoint in *. lia.
  - rewrite <- (blk_tmp t) by done. apply (N_src _ _ _ _ _ _ (area_tmp t Ht) bs_pos); [done..|by apply blen_block].
Qed.

Lemma op_restore t X v : blockn t -> in_area alg nb X v -> blockn v ->
  memcpy (N (wr m tmp t) dst iv X v) iv tmp bs = Some (N (wr m tmp t) dst iv X t, iv).
Proof using All.
  intros Ht HX Hv. rewrite (memcpy_rd _ _ _ _ t); [|apply N_in_tmp; [done..|apply Ha]|by apply N_in_tmp|unfold disjoint in *; lia|by apply N_rd_tmp].
  do 2 f_equal. apply (N_set_iv _ _ _ _ _ _ (area_tmp t Ht) bs_pos); [done|by apply blen_block].
Qed.

Lemma op_keystream f t X v e : blockn t -> in_area alg nb X v -> blockn e -> f v = Some e ->
  cipher_call f bs (N (wr m tmp t) dst iv X v) tmp iv = Some (N (wr m tmp e) dst iv X v).
Proof using All.
  intros Ht HX He E. rewrite (cipher_call_rd _ _ _ _ _ v e); [|apply N_in_tmp; [done..|apply Ha]|by apply N_in_tmp|
    by apply (N_iv _ _ _ _ _ _ (area_tmp t Ht) bs_pos)|done].
  f_equal. by apply N_set_tmp.
Qed.

Lemma op_xor_tmp t X v k : blockn t -> (k < nb)%nat -> blen X = Z.of_nat k * bs -> Forall is_byte X -> blockn v ->
  crypto_xor (N (wr m tmp t) dst iv X v) (at_k src k) tmp bs =
  Some (N (wr m tmp t) dst iv (X ++ xor_bytes (blk alg m src k) t) v).
Proof using All.
  intros Ht Hk HX HXb Hv. pose proof (area_tmp t Ht) as Hat. pose proof (blk_ok k Hk) as Hblk. pose proof (blk_tmp t k Ht Hk) as Eb.
  pose proof (op_in_place alg nb _ _ _ _ Hat bs_pos k X Hk HX HXb v Hsame Hv) as E. rewrite Eb in E. set (b := blk alg m src k) in *. rewrite E, Hsame.
  pose proof (Xo_area alg nb bs_pos k X Hk HX _ _ (blen_block _ Hblk) (blen_block v Hv)) as Har.
  pose proof (k_blocks alg nb bs_pos k Hk) as Hkb. pose proof (ar_src _ _ _ _ _ _ Ha) as Hs. rewrite Hsame in Hs.
  rewrite (crypto_xor_rd _ _ _ _ b t).
  - f_equal. apply (N_set_out alg nb _ _ _ _ Hat bs_pos k X Hk HX); apply blen_block; auto using block_xor.
  - apply (N_bytes alg nb _ src _ _ Hat); [done | apply Forall_app; split; [done|apply Hblk] | apply Hv].
  - apply N_in_tmp; [done..|]. unfold in_mem in *. lia.
  - by apply N_in_tmp.
  - unfold disjoint in *. lia.
  - apply (N_out alg nb _ _ _ _ Hat bs_pos k X Hk HX); by apply blen_block.
  - by apply N_rd_tmp.
Qed.

(** What the local array holds before block [k]. *)
Definition tmp_at (f : nat -> list Z) (k : nat) : list Z := match k with O => rd m tmp bs | S k => f k end.
Definition after_tmp (f : nat -> list Z) (st : mode_step) : mem :=
  N (wr m tmp (tmp_at f nb)) dst iv (fst (chain alg m src iv st nb)) (snd (chain alg m src iv st nb)).
Abbreviation tstate f st k :=
  (N (wr m tmp (tmp_at f k)) dst iv (fst (chain alg m src iv st k)) (snd (chain alg m src iv st k))).
Abbreviation in_block t Ht k X Hk HX HXb lem := (lem alg nb (wr m tmp t) src dst iv (area_tmp t Ht) bs_pos k X Hk HX HXb).

Lemma tmp_at_ok f k : (forall j, (j < nb)%nat -> blockn (f j)) -> (k <= nb)%nat -> blockn (tmp_at f k).
Proof using All. intros Hf Hk. destruct k as [|k]; [apply tmp_block|]. apply Hf. lia. Qed.

Ltac start_tmp f st g h :=
  apply (mode_loop alg bs_pos nb r Hr Hnb Hmax g h);
  [cbn [tmp_at]; rewrite (wr_rd m tmp bs Htmp), (chain_0 _ _ _ _ _ _ Ha); state_eq|].

Lemma pcbc_encrypt_inplace_ok :
  crypto_pcbc_encrypt_inplace alg ctx tmp m walk = Some (after_tmp (blk alg m src) (pcbc_enc_step alg ctx), r).
Proof using All.
  destruct (steps_ok alg ctx_wf ctx Hctx) as (_ & _ & _ & _ & Hst & _). set (st := pcbc_enc_step alg ctx) in *.
  unfold crypto_pcbc_encrypt_inplace. cbv zeta. cbn [walk_nbytes walk_src walk_dst walk_iv].
  match goal with |- (_ ← ?l; _) = _ => assert (l = Some (after_tmp (blk alg m src) st, r)) as -> end.
  - unfold after_tmp. start_tmp (blk alg m src) st (fun k (x : Z) => (tstate (blk alg m src) st k, at_k src k, x))
      (fun k (x : Z) => (tstate (blk alg m src) st k, x)).
    intros k x Hk. pose proof (tmp_at_ok _ k blk_ok ltac:(lia)) as Ht. set (t := tmp_at _ k) in *.
    chain_state st Hst k Hk X v. unfold st, pcbc_enc_step. cbv zeta. cbn [fst snd tmp_at]. fold b.
    pose proof (block_xor alg v b Hv Hblk) as Hvb. destruct (enc_ok alg ctx_wf ctx Hctx _ Hvb) as (E & He & _).
    set (e := enc (xor_bytes v b)) in *. rewrite (op_save t X v k Ht Hk HX Hv), bind_Some_eq. fold b.
    rewrite (in_block b Hblk k X Hk HX HXb op_xor_iv_src v Hv), bind_Some_eq, (blk_tmp b k Hblk Hk). fold b.
    unfold encrypt_fn. rewrite Hsame at 1. rewrite (in_block b Hblk k X Hk HX HXb op_fn_iv _ _ e Hvb He E), bind_Some_eq.
    rewrite (op_restore b _ _ Hblk (Xo_area alg nb bs_pos k X Hk HX e _ (blen_block e He) (blen_block _ Hvb)) Hvb), bind_Some_eq.
    rewrite Hsame at 1. rewrite (in_block b Hblk k X Hk HX HXb op_xor_iv_dst b e Hblk He), bind_Some_eq, (xor_comm b e). step_state.
  - rewrite bind_Some_eq. unfold after_tmp.
    destruct (chain_ok _ _ _ _ _ _ Ha bs_pos st Hst nb ltac:(lia)) as (HX & HXb & Hv).
    rewrite (op_copy_iv alg nb _ src dst iv (area_tmp _ (tmp_at_ok _ nb blk_ok ltac:(lia))) bs_pos); [done|].
    split; [lia | by apply blen_block].
Qed.

Lemma pcbc_decrypt_inplace_ok :
  crypto_pcbc_decrypt_inplace alg ctx tmp m walk = Some (after_tmp (blk alg m src) (pcbc_dec_step alg ctx), r).
Proof using All.
  destruct (steps_ok alg ctx_wf ctx Hctx) as (_ & _ & _ & _ & _ & Hst & _). set (st := pcbc_dec_step alg ctx) in *.
  unfold crypto_pcbc_decrypt_inplace. cbv zeta. cbn [walk_nbytes walk_src walk_dst walk_iv].
  match goal with |- (_ ← ?l; _) = _ => assert (l = Some (after_tmp (blk alg m src) st, r)) as -> end.
  - unfold after_tmp. start_tmp (blk alg m src) st (fun k (x : Z) => (tstate (blk alg m src) st k, at_k src k, x))
      (fun k (x : Z) => (tstate (blk alg m src) st k, x)).
    intros k x Hk. pose proof (tmp_at_ok _ k blk_ok ltac:(lia)) as Ht. set (t := tmp_at _ k) in *.
    chain_state st Hst k Hk X v. unfold st, pcbc_dec_step. cbv zeta. cbn [fst snd tmp_at]. fold b.
    destruct (dec_ok alg ctx_wf ctx Hctx _ Hblk) as (E & Hd & _). set (d := dec b) in *.
    pose proof (block_xor alg d v Hd Hv) as Hp. set (p := xor_bytes d v) in *.
    rewrite (op_save t X v k Ht Hk HX Hv), bind_Some_eq. fold b. unfold decrypt_fn. rewrite Hsame at 1.
    pose proof (eq_sym (blk_tmp b k Hblk Hk)) as Eb. fold b in Eb. rewrite Eb in E at 1.
    rewrite (in_block b Hblk k X Hk HX HXb op_fn_src _ v d Hv Hd E), bind_Some_eq. rewrite Hsame at 1.
    rewrite (in_block b Hblk k X Hk HX HXb op_xor_dst_iv v d Hv Hd), bind_Some_eq. fold p.
    rewrite (op_restore b _ _ Hblk (Xo_area alg nb bs_pos k X Hk HX p _ (blen_block p Hp) (blen_block _ Hv)) Hv), bind_Some_eq.
    rewrite Hsame at 1. rewrite (in_block b Hblk k X Hk HX HXb op_xor_iv_dst b p Hblk Hp), bind_Some_eq. step_state.
  - rewrite bind_Some_eq. unfold after_tmp.
    destruct (chain_ok _ _ _ _ _ _ Ha bs_pos st Hst nb ltac:(lia)) as (HX & HXb & Hv).
    rewrite (op_copy_iv alg nb _ src dst iv (area_tmp _ (tmp_at_ok _ nb blk_ok ltac:(lia))) bs_pos); [done|].
    split; [lia | by apply blen_block].
Qed.

Lemma ctr_inplace_ok : crypto_ctr_crypt_inplace alg ctx tmp m walk =
  Some (after_tmp (fun j => enc (snd (chain alg m src iv (ctr_step alg ctx) j))) (ctr_step alg ctx), r).
Proof using All.
  destruct (steps_ok alg ctx_wf ctx Hctx) as (_ & _ & _ & _ & _ & _ & Hst). set (st := ctr_step alg ctx) in *.
  set (f := fun j => enc _). assert (forall j, (j < nb)%nat -> blockn (f j)) as Hf.
  { intros j Hj. destruct (chain_ok _ _ _ _ _ _ Ha bs_pos st Hst j ltac:(lia)) as (_ & _ & Hv).
    by apply (enc_ok alg ctx_wf ctx Hctx). }
  unfold crypto_ctr_crypt_inplace. cbv zeta. cbn [walk_nbytes walk_src walk_dst walk_iv]. unfold after_tmp.
  start_tmp f st (fun k (x : Z) => (tstate f st k, at_k src k, x)) (fun k (x : Z) => (tstate f st k, x)).
  intros k x Hk. pose proof (tmp_at_ok f k Hf ltac:(lia)) as Ht. set (t := tmp_at f k) in *.
  pose proof (Hf k Hk) as Hfk. cbn [tmp_at]. unfold f in Hfk |- *. chain_state st Hst k Hk X v.
  destruct (enc_ok alg ctx_wf ctx Hctx _ Hv) as (E & _ & _). set (e := enc v) in *. unfold st, ctr_step. cbv zeta. cbn [fst snd]. fold e.
  unfold encrypt_fn. rewrite (op_keystream _ t X v e Ht (X_area alg nb bs_pos k X Hk HX v (blen_block v Hv)) Hfk E), bind_Some_eq.
  rewrite (op_xor_tmp e X v k Hfk Hk HX HXb Hv), bind_Some_eq, (xor_comm _ e). fold b.
  rewrite (in_block e Hfk k X Hk HX HXb op_inc v _ Hv (block_xor alg e b Hfk Hblk)), bind_Some_eq. step_state.
Qed.

(** *** Backwards: decryption of cipher block chaining in place *)

Context (Hpow : exists e, 0 <= e /\ bs = 2 ^ e).

(** The output of block [i] and of the blocks from [i] on. *)
Definition out (i : nat) : list Z := xor_bytes (dec (blk alg m src i)) (snd (chain alg m src iv (cbc_dec_step alg ctx) i)).
Definition outs_from (i : nat) : list Z := concat (map out (seq i (nb - i))).

Lemma out_ok i : (i < nb)%nat -> blockn (out i).
Proof using All.
  intros Hi. destruct (steps_ok alg ctx_wf ctx Hctx) as (_ & _ & _ & Hst & _).
  destruct (chain_ok _ _ _ _ _ _ Ha bs_pos _ Hst i ltac:(lia)) as (_ & _ & Hv).
  apply block_xor; [by apply (dec_ok alg ctx_wf ctx Hctx), blk_ok|done].
Qed.

Lemma outs_from_S i : (i < nb)%nat -> outs_from i = out i ++ outs_from (S i).
Proof using. clear. intros Hi. unfold outs_from. by replace (nb - i)%nat with (S (nb - S i)) by lia. Qed.

Lemma outs_from_len i : (i <= nb)%nat -> blen (outs_from i) = Z.of_nat (nb - i) * bs.
Proof using All.
  intros Hi. induction (nb - i)%nat as [|d IH] eqn:Ed in i, Hi |- *; [unfold outs_from; rewrite Ed; done|].
  rewrite outs_from_S, blen_app, (blen_block _ (out_ok i ltac:(lia))), (IH (S i)) by lia. lia.
Qed.

Lemma outs_chain k : (k <= nb)%nat -> fst (chain alg m src iv (cbc_dec_step alg ctx) k) = concat (map out (seq 0 k)).
Proof using.
  clear. induction k as [|k IH]; intros Hk; [done|]. rewrite chain_S, seq_S, map_app, concat_app, IH by lia. cbn [fst map concat].
  by rewrite app_nil_r.
Qed.

Lemma whole_blocks : (Z.of_nat nb * bs + r) .& (bs - 1) = r.
Proof using All.
  destruct Hpow as (e & He & E). rewrite E in Hr |- *. replace (2 ^ e - 1) with (Z.ones e) by (rewrite Z.ones_equiv; lia).
  rewrite Z.land_ones by lia.
  rewrite Z.add_comm, Z_mod_plus_full. by apply Z.mod_small.
Qed.

(** The memory when the blocks from [i] on are done, the last block of the
    source saved; and when block [i] holds [o] besides. *)
Definition back (t : list Z) (i : nat) : mem := wr (wr m tmp t) (at_k src i) (outs_from i).
Definition back_at (t : list Z) (i : nat) (o : list Z) : mem := wr (back t (S i)) (at_k src i) o.

Lemma back_write t i : blockn t -> (i <= nb)%nat -> in_mem (wr m tmp t) (at_k src i) (blen (outs_from i)).
Proof using All.
  intros Ht Hi. pose proof (tmp_write t Ht) as Hw. pose proof (ar_src _ _ _ _ _ _ Ha) as Hs.
  apply in_mem_wr; [done|]. rewrite outs_from_len by done. unfold in_mem in *. nia.
Qed.

Lemma back_in t i p n : blockn t -> (i <= nb)%nat -> in_mem (back t i) p n <-> in_mem m p n.
Proof using All.
  intros Ht Hi. unfold back. rewrite in_mem_wr by (by apply back_write). apply in_mem_wr, tmp_write, Ht.
Qed.

Lemma back_rd t i p n : blockn t -> (i <= nb)%nat -> in_mem m p n -> disjoint tmp bs p n ->
  disjoint (at_k src i) (Z.of_nat (nb - i) * bs) p n -> rd (back t i) p n = rd m p n.
Proof using All.
  intros Ht Hi Hp Hdt Hds. pose proof (tmp_write t Ht) as Hw. unfold back.
  rewrite rd_wr_other; [apply rd_wr_other; [done..|]; by rewrite (blen_block t Ht)|by apply back_write|
    by apply in_mem_wr|by rewrite outs_from_len].
Qed.

(** Where block [i] is. *)
Lemma block_at i : (i < nb)%nat -> in_mem m (at_k src i) bs /\ disjoint tmp bs (at_k src i) bs /\ disjoint iv bs (at_k src i) bs /\
  disjoint (at_k src (S i)) (Z.of_nat (nb - S i) * bs) (at_k src i) bs.
Proof using All.
  intros Hi. pose proof (ar_src _ _ _ _ _ _ Ha) as Hs. pose proof (ar_src_iv _ _ _ _ _ _ Ha) as Hsi.
  pose proof (k_blocks alg nb bs_pos i Hi) as Hkb. rewrite Hsame in *. unfold in_mem, disjoint in *. nia.
Qed.

Lemma back_at_in t i o p n : blockn t -> (i < nb)%nat -> blockn o -> in_mem (back_at t i o) p n <-> in_mem m p n.
Proof using All.
  intros Ht Hi Ho. destruct (block_at i Hi) as (H & _). unfold back_at.
  rewrite in_mem_wr; [apply back_in; [done|lia]|]. rewrite (blen_block o Ho). apply back_in; [done|lia|done].
Qed.

Lemma back_at_rd t i o : blockn t -> (i < nb)%nat -> blockn o -> rd (back_at t i o) (at_k src i) bs = o.
Proof using All.
  intros Ht Hi Ho. destruct (block_at i Hi) as (H & _). apply rd_wr_same; [|by rewrite (blen_block o Ho)].
  rewrite (blen_block o Ho). apply back_in; [done|lia|done].
Qed.

Lemma back_at_other t i o p n : blockn t -> (i < nb)%nat -> blockn o -> in_mem m p n -> disjoint tmp bs p n ->
  disjoint (at_k src i) (Z.of_nat (nb - i) * bs) p n -> rd (back_at t i o) p n = rd m p n.
Proof using All.
  intros Ht Hi Ho Hp Hdt Hds. destruct (block_at i Hi) as (H & _). pose proof (blen_block o Ho) as Lo. unfold back_at.
  rewrite rd_wr_other; [apply back_rd; [done|lia|done..|]|rewrite Lo; apply back_in; [done|lia|done]|apply back_in; [done|lia|done]|rewrite Lo];
    unfold disjoint in *; nia.
Qed.

Lemma back_at_set t i o o' : blockn t -> (i < nb)%nat -> blockn o -> blockn o' ->
  wr (back_at t i o) (at_k src i) o' = back_at t i o'.
Proof using All.
  intros Ht Hi Ho Ho'. destruct (block_at i Hi) as (H & _). pose proof (blen_block o Ho) as Lo. pose proof (blen_block o' Ho') as Lo'.
  unfold back_at. apply wr_wr_same; [|lia]. rewrite Lo. apply back_in; [done|lia|done].
Qed.

Lemma back_at_out t i : blockn t -> (i < nb)%nat -> back_at t i (out i) = back t i.
Proof using All.
  intros Ht Hi. destruct (block_at i Hi) as (H & _ & _ & Hd). pose proof (blen_block _ (out_ok i Hi)) as Lo.
  pose proof (outs_from_len (S i) ltac:(lia)) as Ls. pose proof (back_write t (S i) Ht ltac:(lia)) as W1.
  pose proof (back_write t i Ht ltac:(lia)) as W2. unfold back_at, back. rewrite (outs_from_S i Hi) in W2 |- *. rewrite blen_app in W2.
  rewrite wr_comm; [|done|unfold in_mem in *; pose proof (blen_nonneg (outs_from (S i))); lia|by rewrite Ls, Lo].
  apply wr_app; [done|]. rewrite Lo. lia.
Qed.

(** One turn of the loop at block [i]. *)
Lemma back_decrypt t i : blockn t -> (i < nb)%nat ->
  decrypt_fn alg ctx (back t (S i)) (at_k src i) (at_k src i) = Some (back_at t i (dec (blk alg m src i))).
Proof using All.
  intros Ht Hi. destruct (block_at i Hi) as (H & Hdt & _ & Hd). destruct (dec_ok alg ctx_wf ctx Hctx _ (blk_ok i Hi)) as (E & _).
  apply (cipher_call_rd _ _ _ _ _ (blk alg m src i)); [by apply back_in; [done|lia|]|by apply back_in; [done|lia|]| |done].
  apply back_rd; [done|lia|done..].
Qed.

Lemma back_xor t i o p : blockn t -> (i < nb)%nat -> blockn o -> in_mem m p bs -> disjoint tmp bs p bs ->
  disjoint (at_k src i) (Z.of_nat (nb - i) * bs) p bs ->
  crypto_xor (back_at t i o) (at_k src i) p bs = Some (back_at t i (xor_bytes o (rd m p bs))).
Proof using All.
  intros Ht Hi Ho Hp Hdt Hd. destruct (block_at i Hi) as (H & _). rewrite (crypto_xor_rd _ _ _ _ o (rd m p bs)).
  - f_equal. apply back_at_set; [done..|]. apply block_xor; [done|]. destruct Ha as [Hm _ _ _ _ _ _]. split; [|by apply bytes_rd].
    pose proof (blen_rd _ _ _ Hp) as L. unfold blen, bsize in *. lia.
  - unfold back_at, back. destruct Ha as [Hm _ _ _ _ _ _]. repeat apply bytes_wr; [done|apply Ht| |apply Ho].
    unfold outs_from. apply Forall_concat, Forall_map, Forall_forall. intros j Hj. apply in_seq in Hj. apply out_ok. lia.
  - by apply back_at_in.
  - by apply back_at_in.
  - unfold disjoint in *. nia.
  - by apply back_at_rd.
  - by apply back_at_other.
Qed.

Lemma back_loop t : blockn t ->
  c_loop (count_fuel (Z.of_nat nb * bs + r)) (fun '(m, src, nbytes) =>
    m ← decrypt_fn alg ctx m src src;
    let nbytes := u32 (nbytes - bs) in
    if nbytes <? bs then Some (inr (m, src, nbytes))
    else
      m ← crypto_xor m src (src - bs) bs;
      Some (inl (m, src - bs, nbytes))) (back t nb, at_k src (nb - 1), Z.of_nat nb * bs + r) =
  Some (back_at t 0 (dec (blk alg m src 0)), src, r).
Proof using All.
  intros Ht.
  apply (c_loop_trace (nb - 1) (fun j => (back t (nb - j), at_k src (nb - 1 - j), Z.of_nat (nb - j) * bs + r))).
  - by rewrite !Nat.sub_0_r.
  - intros j Hj. set (i := (nb - 2 - j)%nat). replace (nb - j)%nat with (S (S i)) by lia. replace (nb - S j)%nat with (S i) by lia.
    replace (nb - 1 - j)%nat with (S i) by lia. replace (nb - 1 - S j)%nat with i by lia.
    assert (S i < nb)%nat as Hi by lia. clearbody i. cbv zeta. rewrite (back_decrypt t (S i) Ht Hi), bind_Some_eq.
    pose proof (k_blocks alg nb bs_pos (S i) Hi) as Hkb. pose proof (k_blocks alg nb bs_pos i ltac:(lia)) as Hkb'.
    replace (Z.of_nat (S (S i)) * bs + r - bs) with (Z.of_nat (S i) * bs + r) by lia.
    rewrite (u32_small (Z.of_nat _ * _ + _)) by (unfold is_u32; lia). destruct (Z.ltb_spec (Z.of_nat (S i) * bs + r) bs) as [Hlt|_]; [lia|].
    destruct (block_at i ltac:(lia)) as (Hb & Hbt & _ & Hd). destruct (dec_ok alg ctx_wf ctx Hctx _ (blk_ok _ Hi)) as (_ & Hdec & _).
    replace (at_k src (S i) - bs) with (at_k src i) by lia. rewrite back_xor by done. rewrite bind_Some_eq.
    assert (xor_bytes (dec (blk alg m src (S i))) (rd m (at_k src i) bs) = out (S i)) as -> by (unfold out; by rewrite cbc_dec_chain).
    rewrite back_at_out by done. done.
  - replace (nb - (nb - 1))%nat with 1%nat by lia. rewrite Nat.sub_diag. cbv zeta. rewrite (back_decrypt t 0 Ht Hnb), bind_Some_eq.
    replace (Z.of_nat 1 * bs + r - bs) with r by lia. pose proof (k_blocks alg nb bs_pos 0 Hnb) as Hkb.
    rewrite (u32_small r) by (unfold is_u32; lia). destruct (Z.ltb_spec r bs) as [_|Hge]; [state_eq|lia].
  - unfold count_fuel. nia.
Qed.

Lemma cbc_decrypt_inplace_ok :
  crypto_cbc_decrypt_inplace alg ctx tmp m walk = Some (after_tmp (blk alg m src) (cbc_dec_step alg ctx), r).
Proof using All.
  destruct last_block as (l & El & Hl). set (t := blk alg m src l). pose proof (blk_ok l Hl) as Ht. fold t in Ht.
  unfold crypto_cbc_decrypt_inplace. cbv zeta. cbn [walk_nbytes walk_src walk_dst walk_iv]. rewrite whole_blocks.
  replace (src + (Z.of_nat nb * bs + r - r - bs)) with (at_k src l) by lia. destruct (block_at l Hl) as (Hb & Hbt & _ & _).
  rewrite (memcpy_rd _ _ _ _ t); [|done|done|unfold disjoint in *; lia|done]. rewrite bind_Some_eq.
  pose proof (back_write t nb Ht ltac:(lia)) as Hw.
  assert (wr m tmp t = back t nb) as -> by (unfold back, outs_from in *; rewrite Nat.sub_diag in *; by rewrite wr_nil).
  replace (at_k src l) with (at_k src (nb - 1)) by (by rewrite El, Nat.sub_1_r). pose proof (back_loop t Ht) as Hloop.
  cbv zeta in Hloop. rewrite Hloop, bind_Some_eq.
  destruct (dec_ok alg ctx_wf ctx Hctx _ (blk_ok 0 Hnb)) as (_ & Hdec & _).
  pose proof (back_xor t 0 _ iv Ht Hnb Hdec (ar_iv _ _ _ _ _ _ Ha) Hti) as Hx.
  replace (at_k src 0) with src in Hx by lia. rewrite Nat.sub_0_r in Hx. rewrite Hx, bind_Some_eq by apply Ha.
  change (xor_bytes _ _) with (out 0). rewrite (back_at_out t 0 Ht Hnb).
  assert (back t 0 = wr (wr m tmp t) dst (fst (chain alg m src iv (cbc_dec_step alg ctx) nb))) as ->.
  { unfold back, outs_from. rewrite outs_chain, Nat.sub_0_r, <- Hsame by lia. f_equal. lia. }
  pose proof (tmp_write t Ht) as Htw. destruct (steps_ok alg ctx_wf ctx Hctx) as (_ & _ & _ & Hst & _).
  destruct (chain_ok _ _ _ _ _ _ Ha bs_pos _ Hst nb ltac:(lia)) as (HX & _ & _). set (X := fst _) in *.
  assert (in_mem (wr m tmp t) dst (blen X)) as HdX by (apply in_mem_wr; [done|]; rewrite HX; apply Ha).
  rewrite (memcpy_rd _ _ _ _ t).
  - rewrite bind_Some_eq. unfold after_tmp, N. do 3 f_equal; [f_equal; f_equal; by rewrite El | by rewrite El, cbc_dec_chain].
  - apply in_mem_wr; [done|]. apply in_mem_wr; [done|apply Ha].
  - apply in_mem_wr; [done|]. by apply in_mem_wr.
  - unfold disjoint in *. lia.
  - rewrite rd_wr_other; [by apply rd_wr_same; [|symmetry; apply blen_block]|done|by apply in_mem_wr|]. rewrite HX. unfold disjoint in *. lia.
Qed.

End local_array.
End in_place.
End loops.

(** ** The last bytes of a counter mode message *)

Section final.
Context (alg : crypto_alg) (ctx_wf : cra_ctx alg -> Prop) `{!CipherLaws alg ctx_wf}.
Context (ctx : cra_ctx alg) (Hctx : ctx_wf ctx).
Abbreviation bs := (bsize alg).

Lemma rd_wr_prefix m p b n : in_mem m p (blen b) -> 0 <= n <= blen b -> rd (wr m p b) p n = take (Z.to_nat n) b.
Proof using.
  intros Hp Hn. rewrite rd_wr_sub by (done || lia). unfold rd. by rewrite Z.sub_diag, drop_0.
Qed.

Lemma wr_wr_prefix m p b o : in_mem m p (blen b) -> blen o <= blen b -> wr (wr m p b) p o = wr m p (o ++ drop (length o) b).
Proof using.
  intros Hp Ho. set (a := take (length o) b). set (c := drop (length o) b).
  assert (b = a ++ c) as E by (symmetry; apply take_drop). clearbody c.
  assert (blen a = blen o) as La by (unfold a, blen in *; rewrite length_take; lia). clearbody a. subst b.
  rewrite blen_app in *. pose proof (blen_nonneg o). pose proof (blen_nonneg c).
  rewrite <- (wr_app m p a c (p + blen a)) by (done || lia). rewrite wr_comm.
  - rewrite wr_wr_same; [|unfold in_mem in *; lia|done]. apply wr_app; [by rewrite <- La | lia].
  - apply in_mem_wr; unfold in_mem in *; lia.
  - apply in_mem_wr; unfold in_mem in *; lia.
  - unfold disjoint. lia.
Qed.

(** The keystream of the counter, the last [n] bytes of the message and the
    result. *)
Lemma ctr_final_ok m src dst iv ks n (v := rd m iv bs) (o := xor_bytes (take (Z.to_nat n) (enc alg ctx v)) (rd m src n)) :
  bytes_ok m -> 0 <= n <= bs -> in_mem m src n -> in_mem m dst n -> in_mem m iv bs -> in_mem m ks bs ->
  disjoint ks bs src n -> disjoint ks bs dst n -> disjoint ks bs iv bs -> disjoint dst n iv bs ->
  crypto_ctr_crypt_final alg ctx ks m (Walk n src dst iv) =
  Some (N (wr m ks (o ++ drop (Z.to_nat n) (enc alg ctx v))) dst iv o (be_inc v)).
Proof using All.
  intros Hm Hn Hsrc Hdst Hiv Hks Dks Dkd Dki Ddi. unfold crypto_ctr_crypt_final. cbv zeta. cbn [walk_nbytes walk_src walk_dst walk_iv].
  assert (block (cra_blocksize alg) v) as Hv.
  { split; [|by apply bytes_rd]. pose proof (blen_rd _ _ _ Hiv) as L. fold v in L. unfold blen, bsize in L. lia. }
  destruct (enc_ok alg ctx_wf ctx Hctx v Hv) as (E & He & _). fold v in o. set (e := enc alg ctx v) in *.
  pose proof (blen_block e He) as Le. assert (in_mem m ks (blen e)) as Hke by (by rewrite Le).
  assert (length o = Z.to_nat n) as Lo.
  { unfold o. rewrite length_xor; rewrite length_take; pose proof (blen_rd _ _ _ Hsrc) as L; unfold blen in *; lia. }
  assert (blen o = n) as Lo' by (unfold blen; lia).
  unfold encrypt_fn. rewrite (cipher_call_rd _ _ _ _ _ v e) by done. rewrite bind_Some_eq.
  rewrite (crypto_xor_rd _ _ _ _ (take (Z.to_nat n) e) (rd m src n)); [|by apply bytes_wr; [|apply He]|apply in_mem_wr; [done|]; unfold in_mem in *; lia|
    by apply in_mem_wr|unfold disjoint in *; lia|apply rd_wr_prefix; [done|lia]|apply rd_wr_other; [done..|by rewrite Le]].
  rewrite bind_Some_eq. fold o. rewrite wr_wr_prefix by (done || lia). rewrite Lo. set (t := o ++ drop (Z.to_nat n) e).
  assert (blen t = bs) as Lt by (unfold t, blen in *; rewrite length_app, length_drop; lia).
  assert (in_mem m ks (blen t)) as Hkt by (by rewrite Lt).
  assert (in_mem (wr m ks t) dst (blen o)) as Hdo by (apply in_mem_wr; [done|]; by rewrite Lo').
  rewrite (memcpy_rd _ _ _ _ o); [|apply in_mem_wr; done|apply in_mem_wr; [done|]; unfold in_mem in *; lia|unfold disjoint in *; lia|
    rewrite rd_wr_prefix by (done || lia); unfold t; apply take_app_length'; lia].
  rewrite bind_Some_eq. rewrite crypto_inc_ok.
  - unfold N. do 2 f_equal. rewrite rd_wr_other; [|done|by apply in_mem_wr|by rewrite Lo'].
    f_equal. apply rd_wr_other; [done..|by rewrite Lt].
  - assert (Forall is_byte o) as Hob.
    { apply Forall_zip_with_bytes; [apply Forall_take, He | by apply bytes_rd]. }
    apply bytes_wr; [|done]. apply bytes_wr; [done|]. apply Forall_app. split; [done|]. apply Forall_drop, He.
  - apply in_mem_wr; [done|]. by apply in_mem_wr.
Qed.

End final.
