(* ===== verification/ModesTheorems.v ===== *)
(** * Modes of operation: what the loops promise

    For every cipher that satisfies [CipherLaws]: each loop computes its mode,
    decryption undoes encryption through memory, two chunks one after the other
    are one chunk, and nothing but the destination, the chaining value and the
    local array changes. *)

From S2P Require Import Prelude Bytes Mem LibString LibStringCorrect Cipher Tea CryptoOps Modes ModesCorrect ModesLoops.
Open Scope c_scope.

(** ** Blocks in memory *)

Section cut.
Context (n : nat) (Hn : (0 < n)%nat).

(** The blocks of a range. *)
Lemma rd_blocks m p k : in_mem m p (Z.of_nat k * Z.of_nat n) ->
  rd m p (Z.of_nat k * Z.of_nat n) = concat (map (fun i => rd m (p + Z.of_nat i * Z.of_nat n) (Z.of_nat n)) (seq 0 k)).
Proof using Hn.
  induction k as [|k IH]; intros Hp; [apply rd_0|].
  rewrite seq_S, map_app, concat_app. cbn [map concat]. rewrite app_nil_r, <- IH by (unfold in_mem in *; lia).
  apply (rd_app m p (Z.of_nat k * Z.of_nat n)); (done || lia).
Qed.

Lemma blocks_of m p (L : list (list Z)) : Forall (fun b => length b = n) L ->
  in_mem m p (Z.of_nat (length L) * Z.of_nat n) -> rd m p (Z.of_nat (length L) * Z.of_nat n) = concat L ->
  map (fun i => rd m (p + Z.of_nat i * Z.of_nat n) (Z.of_nat n)) (seq 0 (length L)) = L.
Proof using Hn.
  intros HL Hp E. rewrite rd_blocks in E by done.
  assert (Forall (fun b => length b = n) (map (fun i => rd m (p + Z.of_nat i * Z.of_nat n) (Z.of_nat n)) (seq 0 (length L)))) as HM.
  { apply Forall_map, Forall_forall. intros i Hi. apply in_seq in Hi.
    assert (blen (rd m (p + Z.of_nat i * Z.of_nat n) (Z.of_nat n)) = Z.of_nat n) as Hl.
    { apply blen_rd. unfold in_mem in *. nia. }
    unfold blen in Hl. lia. }
  assert (length (map (fun i => rd m (p + Z.of_nat i * Z.of_nat n) (Z.of_nat n)) (seq 0 (length L))) = length L) as Hl
    by (by rewrite length_map, length_seq).
  revert HM E Hl. generalize (map (fun i => rd m (p + Z.of_nat i * Z.of_nat n) (Z.of_nat n)) (seq 0 (length L))). clear Hp.
  induction HL as [|b L Hb HL IH]; intros M HM E Hl; destruct HM as [|c M Hc HM]; try done.
  cbn [concat] in E. apply app_inj_1 in E as [-> E]; [|lia]. f_equal. apply IH; [done..|]. by injection Hl.
Qed.
End cut.

(** A chunk of [nb] blocks and [r] bytes, and a local array beside it. *)
Record chunk (alg : crypto_alg) (nb : nat) (r : Z) (m : mem) (src dst iv : Z) : Prop := Chunk {
  ck_rest : 0 <= r < bsize alg;
  ck_blocks : (0 < nb)%nat;
  ck_size : Z.of_nat nb * bsize alg + r < 2 ^ 32;
  ck_area : area alg nb m src dst iv
}.
Record local_array (alg : crypto_alg) (nb : nat) (m : mem) (tmp src dst iv : Z) : Prop := LocalArray {
  la_in : in_mem m tmp (bsize alg);
  la_src : disjoint tmp (bsize alg) src (Z.of_nat nb * bsize alg);
  la_dst : disjoint tmp (bsize alg) dst (Z.of_nat nb * bsize alg);
  la_iv : disjoint tmp (bsize alg) iv (bsize alg)
}.

(** ** Back from the destination *)

Section back.
Context (alg : crypto_alg) (nb : nat) (m : mem) (src dst iv : Z) (Ha : area alg nb m src dst iv) (Hbs : 0 < bsize alg).
Context (est dst_st : mode_step) (Hok : step_ok (cra_blocksize alg) est) (Hinv : step_inverse (cra_blocksize alg) est dst_st).
Abbreviation bs := (bsize alg).
Abbreviation ech := (chain alg m src iv est nb).

Lemma outs_ok (v : list Z) (L : list (list Z)) : block (cra_blocksize alg) v -> Forall (block (cra_blocksize alg)) L ->
  Forall (fun b => length b = cra_blocksize alg) (outs est v L) /\ length (outs est v L) = length L.
Proof using Hok.
  intros Hv HL. revert v Hv. induction HL as [|b L Hb HL IH]; intros v Hv; [by split|].
  cbn [outs]. destruct (Hok v b Hv Hb) as [Ho Hv']. destruct (est v b) as [o v']. cbn [fst snd] in *.
  destruct (IH v' Hv') as [H1 H2]. cbn [length]. split; [constructor; [apply Ho|done]|lia].
Qed.

(** A memory [m'] with the result at the destination and the first chaining
    value again: the inverse step gives the source back, and the same last
    chaining value. *)
Context (m' : mem) (Hin : in_mem m' dst (Z.of_nat nb * bs)).
Context (Hdst : rd m' dst (Z.of_nat nb * bs) = fst ech) (Hiv : rd m' iv bs = rd m iv bs).

Lemma blocks_back : map (blk alg m' dst) (seq 0 nb) = outs est (rd m iv bs) (map (blk alg m src) (seq 0 nb)).
Proof using Ha Hbs Hok Hin Hdst.
  pose proof (iv_block alg nb m src dst iv Ha) as Hv. pose proof (blks_ok alg nb m src dst iv Ha Hbs nb ltac:(lia)) as HL.
  destruct (outs_ok _ _ Hv HL) as [Ho Hl]. rewrite length_map, length_seq in Hl.
  rewrite <- Hl at 1. apply blocks_of; rewrite ?Hl; [unfold bsize in Hbs; lia|done..|]. by rewrite <- run_outs.
Qed.

Lemma chain_back : chain alg m' dst iv dst_st nb = (rd m src (Z.of_nat nb * bs), snd ech).
Proof using All.
  pose proof (iv_block alg nb m src dst iv Ha) as Hv. pose proof (blks_ok alg nb m src dst iv Ha Hbs nb ltac:(lia)) as HL.
  unfold chain at 1. rewrite Hiv, blocks_back, (run_inverse _ _ _ _ _ Hok Hinv Hv HL). f_equal. symmetry.
  apply rd_blocks; [unfold bsize in Hbs; lia | apply Ha].
Qed.
End back.

(** ** Powers of two *)

Lemma is_power_of_2_spec n : 0 <= n -> is_power_of_2 n = true <-> exists e, 0 <= e /\ n = 2 ^ e.
Proof.
  intros Hn. unfold is_power_of_2. rewrite andb_true_iff, negb_true_iff, Z.eqb_neq, Z.eqb_eq. split.
  - intros [Hnz E]. exists (Z.log2 n). pose proof (Z.log2_nonneg n). split; [done|].
    destruct (Z.log2_spec n ltac:(lia)) as [Hlo Hhi]. destruct (decide (n = 2 ^ Z.log2 n)) as [|Hne]; [done|]. exfalso.
    assert (Z.log2 (n - 1) = Z.log2 n) as El by (apply Z.log2_unique; lia).
    assert (Z.testbit (n .& (n - 1)) (Z.log2 n) = true) as Hb.
    { rewrite Z.land_spec, Z.bit_log2 by lia. rewrite <- El. apply Z.bit_log2. lia. }
    by rewrite E, Z.bits_0 in Hb.
  - intros (e & He & ->). pose proof (Z.pow_pos_nonneg 2 e). split; [lia|].
    replace (2 ^ e - 1) with (Z.ones e) by (rewrite Z.ones_equiv; lia). by rewrite Z.land_ones, Z.mod_same by lia.
Qed.

(** ** One chunk *)

Section chunk.
Context (alg : crypto_alg) (ctx_wf : cra_ctx alg -> Prop) `{!CipherLaws alg ctx_wf}.
Context (ctx : cra_ctx alg) (Hctx : ctx_wf ctx).

Definition enc_step (md : mode) : mode_step :=
  match md with ECB => ecb_enc_step alg ctx | CBC => cbc_enc_step alg ctx | PCBC => pcbc_enc_step alg ctx | CTR => ctr_step alg ctx end.
Definition dec_step (md : mode) : mode_step :=
  match md with ECB => ecb_dec_step alg ctx | CBC => cbc_dec_step alg ctx | PCBC => pcbc_dec_step alg ctx | CTR => ctr_step alg ctx end.

Lemma mode_steps_ok md : step_ok (cra_blocksize alg) (enc_step md) /\ step_ok (cra_blocksize alg) (dec_step md) /\
  step_inverse (cra_blocksize alg) (enc_step md) (dec_step md).
Proof using CipherLaws0 Hctx.
  destruct (steps_ok alg ctx_wf ctx Hctx) as (H1 & H2 & H3 & H4 & H5 & H6 & H7).
  destruct (steps_inverse alg ctx_wf ctx Hctx) as (I1 & I2 & I3 & I4). by destruct md.
Qed.

Context (nb : nat) (r : Z) (m : mem) (src dst iv : Z) (Hc : chunk alg nb r m src dst iv).
Abbreviation walk := (Walk (Z.of_nat nb * bsize alg + r) src dst iv).
Abbreviation bs_pos := (bsize_pos alg ctx_wf).

(** Source and destination apart. *)
Lemma apart_chunk_ok md tmp : src <> dst ->
  encrypt_chunk alg ctx md tmp m walk = Some (after alg nb m src dst iv (enc_step md), r) /\
  decrypt_chunk alg ctx md tmp m walk = Some (after alg nb m src dst iv (dec_step md), r).
Proof using All.
  intros Hne. destruct Hc as [Hr Hnb Hs Ha]. destruct (mode_steps_ok md) as (He & Hd & _).
  assert (disjoint src (Z.of_nat nb * bsize alg) dst (Z.of_nat nb * bsize alg)) as Hap by (by destruct Ha as [_ _ _ _ _ _ [|]]).
  assert (inplace walk = false) as Ei by (by apply Z.eqb_neq). unfold encrypt_chunk, decrypt_chunk, crypto_cbc_encrypt_chunk,
    crypto_cbc_decrypt_chunk, crypto_pcbc_encrypt_chunk, crypto_pcbc_decrypt_chunk, crypto_ctr_crypt_chunk. destruct md; rewrite ?Ei; split.
  - eapply (ecb_ok alg ctx_wf); try done. by apply (enc_ok alg ctx_wf).
  - eapply (ecb_ok alg ctx_wf); try done. by apply (dec_ok alg ctx_wf).
  - by apply (cbc_encrypt_segment_ok alg ctx_wf).
  - by apply (cbc_decrypt_segment_ok alg ctx_wf).
  - by apply (pcbc_encrypt_segment_ok alg ctx_wf).
  - by apply (pcbc_decrypt_segment_ok alg ctx_wf).
  - by apply (ctr_segment_ok alg ctx_wf).
  - by apply (ctr_segment_ok alg ctx_wf).
Qed.

Context (tmp : Z) (Hl : local_array alg nb m tmp src dst iv) (Hpow : is_power_of_2 (bsize alg) = true).

(** The result of a step, with [t] in the local array. *)
Definition after_with (t : list Z) (st : mode_step) : mem :=
  N (wr m tmp t) dst iv (fst (chain alg m src iv st nb)) (snd (chain alg m src iv st nb)).

Lemma after_no_array st : after_with (rd m tmp (bsize alg)) st = after alg nb m src dst iv st.
Proof using Hl. unfold after_with. rewrite wr_rd by apply Hl. done. Qed.

Lemma rd_block : block (cra_blocksize alg) (rd m tmp (bsize alg)).
Proof using Hl Hc.
  pose proof (ar_bytes _ _ _ _ _ _ (ck_area _ _ _ _ _ _ _ Hc)) as Hm. split; [|by apply bytes_rd].
  pose proof (blen_rd _ _ _ (la_in _ _ _ _ _ _ _ Hl)) as L. unfold blen, bsize in *. lia.
Qed.

(** A loop that leaves [st]'s result, whatever is in the local array. *)
Definition computes (res : option (mem * Z)) (st : mode_step) : Prop :=
  exists t, block (cra_blocksize alg) t /\ res = Some (after_with t st, r).

Lemma computes_after res st : res = Some (after alg nb m src dst iv st, r) -> computes res st.
Proof using Hl Hc. intros ->. exists (rd m tmp (bsize alg)). split; [apply rd_block|]. by rewrite after_no_array. Qed.

Lemma in_place_ok md : src = dst ->
  computes (encrypt_chunk alg ctx md tmp m walk) (enc_step md) /\ computes (decrypt_chunk alg ctx md tmp m walk) (dec_step md).
Proof using All.
  intros E. pose proof Hc as [Hr Hnb Hs Ha]. pose proof Hl as [Ht _ Htd Hti]. destruct (mode_steps_ok md) as (He & Hd & _).
  pose proof (tmp_at_ok alg ctx_wf ctx Hctx nb r Hr Hnb Hs m src dst iv Ha E tmp Ht Htd Hti) as Htmp.
  pose proof (blk_ok alg ctx_wf ctx Hctx nb r Hr Hnb Hs m src dst iv Ha) as Hblk.
  pose proof (proj1 (is_power_of_2_spec (bsize alg) ltac:(lia)) Hpow) as Hp.
  assert (inplace walk = true) as Ei by (by apply Z.eqb_eq). unfold encrypt_chunk, decrypt_chunk, crypto_cbc_encrypt_chunk,
    crypto_cbc_decrypt_chunk, crypto_pcbc_encrypt_chunk, crypto_pcbc_decrypt_chunk, crypto_ctr_crypt_chunk. destruct md; rewrite ?Ei.
  - split; apply computes_after; eapply (ecb_ok alg ctx_wf); try done; [by apply (enc_ok alg ctx_wf) | by apply (dec_ok alg ctx_wf)].
  - split; [by apply computes_after, (cbc_encrypt_inplace_ok alg ctx_wf)|].
    exists (tmp_at alg m tmp (blk alg m src) nb). split; [auto|]. by apply (cbc_decrypt_inplace_ok alg ctx_wf).
  - split; exists (tmp_at alg m tmp (blk alg m src) nb); (split; [auto|]).
    + by apply (pcbc_encrypt_inplace_ok alg ctx_wf).
    + by apply (pcbc_decrypt_inplace_ok alg ctx_wf).
  - assert (forall j, (j < nb)%nat -> block (cra_blocksize alg) (enc alg ctx (snd (chain alg m src iv (ctr_step alg ctx) j)))) as Hj.
    { intros j Hj. destruct (chain_ok alg nb m src dst iv Ha bs_pos _ He j ltac:(lia)) as (_ & _ & Hv). by apply (enc_ok alg ctx_wf). }
    split; (eexists; split; [|by apply (ctr_inplace_ok alg ctx_wf)]); by apply Htmp.
Qed.

Lemma chunk_ok md :
  computes (encrypt_chunk alg ctx md tmp m walk) (enc_step md) /\ computes (decrypt_chunk alg ctx md tmp m walk) (dec_step md).
Proof using All.
  destruct (decide (src = dst)) as [E|E]; [by apply in_place_ok|]. destruct (apart_chunk_ok md tmp E). split; by apply computes_after.
Qed.

(** *** What a result holds *)

Context (t : list Z) (Ht : block (cra_blocksize alg) t) (st : mode_step) (Hst : step_ok (cra_blocksize alg) st).
Abbreviation res := (chain alg m src iv st nb).

Lemma area_with : area alg nb (wr m tmp t) src dst iv /\ in_area alg nb (fst res) (snd res) /\ in_mem m tmp (blen t).
Proof using All.
  destruct Hc as [_ _ _ Ha]. destruct Hl as [Hti _ _]. assert (in_mem m tmp (blen t)) as Hw by (by rewrite (blen_block t Ht)).
  destruct (chain_ok alg nb m src dst iv Ha bs_pos st Hst nb ltac:(lia)) as (HX & _ & Hv).
  split; [|split; [split; [lia | by apply blen_block] | done]].
  destruct Ha as [Hm Hsrc Hdst Hiv Hsi Hdi Hsd]. split; try done; try (by apply in_mem_wr). apply bytes_wr; [done | apply Ht].
Qed.

Lemma with_typed : bytes_ok (after_with t st) /\ length (after_with t st) = length m.
Proof using All.
  destruct area_with as (Ha & Har & Hw). destruct (N_write _ _ _ _ _ _ Ha bs_pos _ _ Har) as [W1 W2].
  destruct (chain_ok alg nb m src dst iv (ck_area _ _ _ _ _ _ _ Hc) bs_pos st Hst nb ltac:(lia)) as (_ & HXb & Hv).
  split; [apply (N_bytes _ _ _ _ _ _ Ha bs_pos); [done | apply Hv]|].
  pose proof (blen_wr _ _ _ W2) as L2. rewrite (blen_wr _ _ _ W1), (blen_wr _ _ _ Hw) in L2. unfold blen in L2. unfold after_with, N. lia.
Qed.

Lemma with_frame p n : in_mem m p n -> disjoint dst (Z.of_nat nb * bsize alg) p n -> disjoint iv (bsize alg) p n ->
  disjoint tmp (bsize alg) p n -> rd (after_with t st) p n = rd m p n.
Proof using All.
  intros Hp Hd Hi Htp. destruct area_with as (Ha & Har & Hw). pose proof (blen_block t Ht) as Lt. pose proof Har as [LX _].
  unfold after_with. rewrite (N_other _ _ _ _ _ _ Ha bs_pos); [apply rd_wr_other; [done..|by rewrite Lt]|done|by apply in_mem_wr| |done].
  pose proof (blen_nonneg (fst res)). unfold disjoint in *. lia.
Qed.

Lemma with_reads : rd (after_with t st) dst (Z.of_nat nb * bsize alg) = fst res /\ rd (after_with t st) iv (bsize alg) = snd res.
Proof using All.
  destruct area_with as (Ha & Har & Hw). destruct (N_write _ _ _ _ _ _ Ha bs_pos _ _ Har) as [W1 W2]. pose proof Har as [_ Lv].
  destruct (chain_ok alg nb m src dst iv (ck_area _ _ _ _ _ _ _ Hc) bs_pos st Hst nb ltac:(lia)) as (LX & _ & _).
  split; [|by apply (N_iv _ _ _ _ _ _ Ha bs_pos)]. unfold after_with, N.
  rewrite rd_wr_other; [by apply rd_wr_same|done|apply in_mem_wr; [done|apply Ha]|].
  rewrite Lv. pose proof (ar_dst_iv _ _ _ _ _ _ Ha) as Hdi. unfold disjoint in *. lia.
Qed.
End chunk.

(** The destination as the next source, in a memory of the same size. *)
Lemma chunk_again alg nb r m m' src dst iv tmp : chunk alg nb r m src dst iv -> local_array alg nb m tmp src dst iv ->
  bytes_ok m' -> blen m' = blen m -> chunk alg nb r m' dst dst iv /\ local_array alg nb m' tmp dst dst iv.
Proof.
  intros [Hr Hnb Hs [Hm Hsrc Hdst Hi Hsi Hdi Hsd]] [L1 L2 L3 L4] Hb E. unfold in_mem in *. rewrite <- E in *.
  repeat split; unfold in_mem; try done; lia || (by left).
Qed.

(** ** Two chunks *)

Section two.
Context (alg : crypto_alg) (n1 n2 : nat) (m m1 : mem) (src dst iv tmp : Z) (r : Z).
Context (Hc : chunk alg (n1 + n2) r m src dst iv) (H1 : (0 < n1)%nat) (H2 : (0 < n2)%nat).
Context (Hl : local_array alg (n1 + n2) m tmp src dst iv) (Hbs : 0 < bsize alg).
Abbreviation bs := (bsize alg).

Lemma two_sizes : Z.of_nat (n1 + n2) * bs = Z.of_nat n1 * bs + Z.of_nat n2 * bs /\ bs <= Z.of_nat n1 * bs /\ bs <= Z.of_nat n2 * bs.
Proof using H1 H2 Hbs. clear -H1 H2 Hbs. nia. Qed.

Lemma chunk_first : chunk alg n1 0 m src dst iv /\ local_array alg n1 m tmp src dst iv.
Proof using All.
  destruct two_sizes as (E1 & E2 & E3). destruct Hc as [Hr Hnb Hs [Hm Hsrc Hdst Hiv Hsi Hdi Hsd]]. destruct Hl as [L1 L2 L3 L4].
  rewrite E1 in *. clear Hl Hc.
  split; split; try done; try (split; try done); unfold in_mem, disjoint in *; lia.
Qed.

(** [m1] is [m] but for the first chunk, the chaining value and the array. *)
Context (Hb : bytes_ok m1) (Hlen : length m1 = length m).
Context (Hfr : forall p n, in_mem m p n -> disjoint dst (Z.of_nat n1 * bs) p n -> disjoint iv bs p n -> disjoint tmp bs p n ->
  rd m1 p n = rd m p n).
Context (st : mode_step) (Hiv : rd m1 iv bs = snd (chain alg m src iv st n1)).

Lemma chunk_second : chunk alg n2 r m1 (src + Z.of_nat n1 * bs) (dst + Z.of_nat n1 * bs) iv /\
  local_array alg n2 m1 tmp (src + Z.of_nat n1 * bs) (dst + Z.of_nat n1 * bs) iv.
Proof using All.
  destruct two_sizes as (E1 & E2 & E3). destruct Hc as [Hr Hnb Hs [Hm Hsrc Hdst Hi Hsi Hdi Hsd]]. destruct Hl as [L1 L2 L3 L4].
  rewrite E1 in *. clear Hl Hc.
  assert (blen m1 = blen m) as E by (unfold blen; lia).
  split; split; try done; try (split; try done); unfold in_mem, disjoint in *; lia.
Qed.

Lemma chain_second : chain alg m src iv st (n1 + n2) =
  (fst (chain alg m src iv st n1) ++ fst (chain alg m1 (src + Z.of_nat n1 * bs) iv st n2),
   snd (chain alg m1 (src + Z.of_nat n1 * bs) iv st n2)).
Proof using All.
  destruct Hc as [Hr Hnb Hs [Hm Hsrc Hdst Hi Hsi Hdi Hsd]]. destruct Hl as [L1 L2 L3 L4].
  assert (chain alg m1 (src + Z.of_nat n1 * bs) iv st n2 =
    run st (snd (chain alg m src iv st n1)) (map (blk alg m src) (seq n1 n2))) as ->.
  { unfold chain at 1. rewrite Hiv. f_equal. rewrite <- (Nat.add_0_r n1) at 2. rewrite <- fmap_add_seq, map_map.
    apply map_ext_in. intros k Hk. apply in_seq in Hk. unfold blk.
    replace (src + Z.of_nat n1 * bs + Z.of_nat k * bs) with (src + Z.of_nat (n1 + k) * bs) by lia.
    destruct two_sizes as (E1 & E2 & E3). rewrite E1 in *.
    assert (Z.of_nat n1 * bs <= Z.of_nat (n1 + k) * bs /\ Z.of_nat (n1 + k) * bs + bs <= Z.of_nat n1 * bs + Z.of_nat n2 * bs) as Hk' by
      (clear -Hk Hbs; nia).
    apply Hfr; unfold in_mem, disjoint in *; lia. }
  unfold chain at 1. by rewrite seq_app, map_app, run_app.
Qed.
End two.

(** ** The last bytes of counter mode *)

Section final.
Context (alg : crypto_alg) (ctx_wf : cra_ctx alg -> Prop) `{!CipherLaws alg ctx_wf} (ctx : cra_ctx alg) (Hctx : ctx_wf ctx).
Context (m : mem) (src dst iv ks n : Z).
Abbreviation bs := (bsize alg).
Abbreviation v := (rd m iv bs).

Record final_area : Prop := FinalArea {
  fa_bytes : bytes_ok m; fa_n : 0 <= n <= bs; fa_src : in_mem m src n; fa_dst : in_mem m dst n; fa_iv : in_mem m iv bs;
  fa_ks : in_mem m ks bs; fa_ks_src : disjoint ks bs src n; fa_ks_dst : disjoint ks bs dst n; fa_ks_iv : disjoint ks bs iv bs;
  fa_dst_iv : disjoint dst n iv bs
}.
Context (Hf : final_area).

Lemma ctr_final_reads : exists m', crypto_ctr_crypt_final alg ctx ks m (Walk n src dst iv) = Some m' /\
  rd m' dst n = xor_bytes (take (Z.to_nat n) (enc alg ctx v)) (rd m src n) /\ rd m' iv bs = be_inc v /\
  bytes_ok m' /\ blen m' = blen m /\ exists t, blen t = bs /\ m' = N (wr m ks t) dst iv (rd m' dst n) (be_inc v).
Proof using All.
  destruct Hf as [Hm Hn Hsrc Hdst Hiv Hks Dks Dkd Dki Ddi].
  assert (block (cra_blocksize alg) v) as Hv.
  { split; [|by apply bytes_rd]. pose proof (blen_rd _ _ _ Hiv) as L. unfold blen, bsize in *. lia. }
  destruct (enc_ok alg ctx_wf ctx Hctx v Hv) as (_ & He & _). pose proof (blen_block _ He) as Le. pose proof (be_inc_block alg v Hv) as Hi.
  pose proof (blen_block _ Hi) as Li. eexists. split; [by apply (ctr_final_ok alg ctx_wf ctx Hctx)|]. set (e := enc alg ctx v) in *.
  set (o := xor_bytes (take (Z.to_nat n) e) (rd m src n)).
  assert (length o = Z.to_nat n) as Lo.
  { unfold o. rewrite length_xor; rewrite length_take; pose proof (blen_rd _ _ _ Hsrc) as L; unfold blen in *; lia. }
  assert (Forall is_byte o) as Hob by (apply Forall_zip_with_bytes; [apply Forall_take, He | by apply bytes_rd]).
  assert (blen o = n) as Lo' by (unfold blen; lia).
  assert (blen (o ++ drop (Z.to_nat n) e) = bs) as Lt by (unfold blen in *; rewrite length_app, length_drop; lia).
  assert (in_mem m ks (blen (o ++ drop (Z.to_nat n) e))) as W0.
  { by rewrite Lt. }
  assert (in_mem (wr m ks (o ++ drop (Z.to_nat n) e)) dst (blen o)) as W1 by (apply in_mem_wr; [done|]; by rewrite Lo').
  assert (in_mem (wr (wr m ks (o ++ drop (Z.to_nat n) e)) dst o) iv (blen (be_inc v))) as W2.
  { rewrite Li. apply in_mem_wr; [done|]. by apply in_mem_wr. }
  pose proof W1 as W1'. rewrite Lo' in W1'. unfold N. set (m' := wr _ iv _).
  assert (rd m' dst n = o) as Er.
  { unfold m'. rewrite rd_wr_other; [by apply rd_wr_same|done|by apply in_mem_wr|]. rewrite Li. unfold disjoint in *. lia. }
  split; [done | split; [by apply rd_wr_same | split]].
  - unfold m'. repeat apply bytes_wr; try done; [|apply Hi]. apply Forall_app. split; [done|]. apply Forall_drop, He.
  - unfold m' at 1. rewrite (blen_wr _ _ _ W2), (blen_wr _ _ _ W1), (blen_wr _ _ _ W0). split; [done|]. rewrite Er. eauto.
Qed.
End final.

(** ** Properties *)

(** C19: with every cipher that satisfies its laws, each mode of operation
    (ECB, CBC, PCBC, CTR) leaves at the destination exactly the blocks that its
    chaining step computes from the blocks of the source and the initial
    chaining value, and leaves the last chaining value at [iv]; the bytes left
    over are returned.  This holds in place and with the source apart; only in
    place is the local array used, and only then may it change. *)
Theorem modes_compute_chain alg ctx_wf `{!CipherLaws alg ctx_wf} ctx nb r m src dst iv tmp md :
  ctx_wf ctx -> chunk alg nb r m src dst iv -> local_array alg nb m tmp src dst iv -> is_power_of_2 (bsize alg) = true ->
  let walk := Walk (Z.of_nat nb * bsize alg + r) src dst iv in
  let result t st := let '(out, v) := run st (rd m iv (bsize alg)) (map (blk alg m src) (seq 0 nb)) in
    Some (wr (wr (wr m tmp t) dst out) iv v, r) in
  (exists t, length t = cra_blocksize alg /\ encrypt_chunk alg ctx md tmp m walk = result t (enc_step alg ctx md)) /\
  (exists t, length t = cra_blocksize alg /\ decrypt_chunk alg ctx md tmp m walk = result t (dec_step alg ctx md)) /\
  (src <> dst -> encrypt_chunk alg ctx md tmp m walk = result (rd m tmp (bsize alg)) (enc_step alg ctx md) /\
    decrypt_chunk alg ctx md tmp m walk = result (rd m tmp (bsize alg)) (dec_step alg ctx md)).
Proof.
  intros Hctx Hc Hl Hp walk result.
  assert (forall t st, result t st = Some (after_with alg nb m src dst iv tmp t st, r)) as E.
  { intros t st. unfold result, after_with, chain, N. by destruct (run st _ _). }
  destruct (chunk_ok alg ctx_wf ctx Hctx nb r m src dst iv Hc tmp Hl Hp md) as [(t & Ht & E1) (t' & Ht' & E2)].
  split; [exists t; rewrite E; split; [apply Ht|done]|]. split; [exists t'; rewrite E; split; [apply Ht'|done]|].
  intros Hne. rewrite !E, !(after_no_array alg nb m src dst iv tmp Hl).
  by apply (apart_chunk_ok alg ctx_wf ctx Hctx nb r m src dst iv Hc).
Qed.

(** C21: decryption undoes encryption through memory: encrypt a chunk, in place
    or not, restore the initial chaining value and decrypt the destination in
    place; the destination then holds the plaintext, and the chaining value is
    the one encryption left. *)
Theorem modes_roundtrip alg ctx_wf `{!CipherLaws alg ctx_wf} ctx nb r m src dst iv tmp md :
  ctx_wf ctx -> chunk alg nb r m src dst iv -> local_array alg nb m tmp src dst iv -> is_power_of_2 (bsize alg) = true ->
  exists me md', encrypt_chunk alg ctx md tmp m (Walk (Z.of_nat nb * bsize alg + r) src dst iv) = Some (me, r) /\
    decrypt_chunk alg ctx md tmp (wr me iv (rd m iv (bsize alg))) (Walk (Z.of_nat nb * bsize alg + r) dst dst iv) = Some (md', r) /\
    rd md' dst (Z.of_nat nb * bsize alg) = rd m src (Z.of_nat nb * bsize alg) /\
    rd md' iv (bsize alg) = rd me iv (bsize alg).
Proof.
  intros Hctx Hc Hl Hp. destruct (mode_steps_ok alg ctx_wf ctx Hctx md) as (He & Hd & Hinv).
  destruct (chunk_ok alg ctx_wf ctx Hctx nb r m src dst iv Hc tmp Hl Hp md) as [(t & Ht & E1) _].
  destruct (with_reads alg ctx_wf ctx Hctx nb r m src dst iv Hc tmp Hl Hp t Ht _ He) as [R1 R2].
  destruct (with_typed alg ctx_wf ctx Hctx nb r m src dst iv Hc tmp Hl Hp t Ht _ He) as [Hb Hlen].
  set (me := after_with _ _ _ _ _ _ _ _ _) in *. set (v := rd m iv (bsize alg)). pose proof (ck_area _ _ _ _ _ _ _ Hc) as Ha.
  pose proof (iv_block alg nb m src dst iv Ha) as Hv. fold v in Hv. pose proof (blen_block v Hv) as Lv.
  assert (blen me = blen m) as Em by (unfold blen; lia).
  assert (in_mem me iv (blen v)) as Hiv by (rewrite Lv; pose proof (ar_iv _ _ _ _ _ _ Ha); unfold in_mem in *; lia).
  assert (in_mem me dst (Z.of_nat nb * bsize alg)) as Hdst by (pose proof (ar_dst _ _ _ _ _ _ Ha); unfold in_mem in *; lia).
  destruct (chunk_again alg nb r m (wr me iv v) src dst iv tmp Hc Hl) as [Hc' Hl'].
  { apply bytes_wr; [done|apply Hv]. }
  { by rewrite blen_wr. }
  destruct (chunk_ok alg ctx_wf ctx Hctx nb r _ dst dst iv Hc' tmp Hl' Hp md) as [_ (t' & Ht' & E2)].
  destruct (with_reads alg ctx_wf ctx Hctx nb r _ dst dst iv Hc' tmp Hl' Hp t' Ht' _ Hd) as [R3 R4].
  assert (chain alg (wr me iv v) dst iv (dec_step alg ctx md) nb = (rd m src (Z.of_nat nb * bsize alg), snd (chain alg m src iv (enc_step alg ctx md) nb))) as Eb.
  { apply (chain_back alg nb m src dst iv Ha (bsize_pos alg ctx_wf)); [done..|by apply in_mem_wr| |by apply rd_wr_same].
    rewrite rd_wr_other; [done..|]. rewrite Lv. pose proof (ar_dst_iv _ _ _ _ _ _ Ha) as Hdi. unfold disjoint in *. lia. }
  rewrite Eb in R3, R4. exists me. eexists. split; [done|]. split; [exact E2|]. by rewrite R3, R4, R2.
Qed.

(** Encrypting (or decrypting) a message in two chunks, the second one
    starting with the chaining value the first one left, gives the same output
    and the same last chaining value as one chunk. *)
Theorem modes_chunks alg ctx_wf `{!CipherLaws alg ctx_wf} ctx n1 n2 r m src dst iv tmp md crypt :
  ctx_wf ctx -> chunk alg (n1 + n2) r m src dst iv -> local_array alg (n1 + n2) m tmp src dst iv ->
  is_power_of_2 (bsize alg) = true -> (0 < n1)%nat -> (0 < n2)%nat -> crypt = encrypt_chunk \/ crypt = decrypt_chunk ->
  let size n := Z.of_nat n * bsize alg in
  exists m1 m2 mo,
    crypt alg ctx md tmp m (Walk (size n1) src dst iv) = Some (m1, 0) /\
    crypt alg ctx md tmp m1 (Walk (size n2 + r) (src + size n1) (dst + size n1) iv) = Some (m2, r) /\
    crypt alg ctx md tmp m (Walk (size (n1 + n2)%nat + r) src dst iv) = Some (mo, r) /\
    rd m2 dst (size (n1 + n2)%nat) = rd mo dst (size (n1 + n2)%nat) /\ rd m2 iv (bsize alg) = rd mo iv (bsize alg).
Proof.
  intros Hctx Hc Hl Hp H1 H2 Hcr size. pose proof (bsize_pos alg ctx_wf) as Hbs.
  assert (exists st, step_ok (cra_blocksize alg) st /\ forall nb r m src dst iv, chunk alg nb r m src dst iv ->
    local_array alg nb m tmp src dst iv -> computes alg nb r m src dst iv tmp
      (crypt alg ctx md tmp m (Walk (Z.of_nat nb * bsize alg + r) src dst iv)) st) as (st & Hst & Hok).
  { destruct (mode_steps_ok alg ctx_wf ctx Hctx md) as (He & Hd & _). destruct Hcr as [-> | ->]; eexists; split;
      [exact He | intros; by apply (chunk_ok alg ctx_wf) | exact Hd | intros; by apply (chunk_ok alg ctx_wf)]. }
  destruct (chunk_first alg n1 n2 m m src dst iv tmp r Hc H1 H2 Hl Hbs) as [Hc1 Hl1].
  destruct (Hok _ _ _ _ _ _ Hc1 Hl1) as (t1 & Ht1 & E1). rewrite Z.add_0_r in E1.
  destruct (Hok _ _ _ _ _ _ Hc Hl) as (to & Hto & Eo).
  destruct (with_typed alg ctx_wf ctx Hctx n1 0 m src dst iv Hc1 tmp Hl1 Hp t1 Ht1 _ Hst) as [Hb Hlen].
  destruct (with_reads alg ctx_wf ctx Hctx n1 0 m src dst iv Hc1 tmp Hl1 Hp t1 Ht1 _ Hst) as [R1 R2].
  destruct (with_reads alg ctx_wf ctx Hctx _ r m src dst iv Hc tmp Hl Hp to Hto _ Hst) as [Ro Ro'].
  pose proof (with_frame alg ctx_wf ctx Hctx n1 0 m src dst iv Hc1 tmp Hl1 Hp t1 Ht1 _ Hst) as Hfr.
  set (m1 := after_with alg n1 m src dst iv tmp t1 st) in *.
  destruct (chunk_second alg n1 n2 m m1 src dst iv tmp r Hc H1 H2 Hl Hbs Hb Hlen Hfr st R2) as [Hc2 Hl2].
  destruct (Hok _ _ _ _ _ _ Hc2 Hl2) as (t2 & Ht2 & E2).
  destruct (with_reads alg ctx_wf ctx Hctx n2 r m1 _ _ iv Hc2 tmp Hl2 Hp t2 Ht2 _ Hst) as [R3 R4].
  pose proof (with_frame alg ctx_wf ctx Hctx n2 r m1 _ _ iv Hc2 tmp Hl2 Hp t2 Ht2 _ Hst) as Hfr2.
  exists m1. eexists. eexists. split; [exact E1|]. split; [exact E2|]. split; [exact Eo|].
  unfold size. rewrite Ro, Ro', (chain_second alg n1 n2 m m1 src dst iv tmp r Hc H1 H2 Hl Hbs Hb Hlen Hfr st R2). cbn [fst snd].
  split; [|exact R4]. destruct (two_sizes alg n1 n2 H1 H2 Hbs) as (S1 & S2 & S3). rewrite S1.
  pose proof Hc as [_ _ _ [_ _ Hdst _ _ Hdi _]]. pose proof Hl as [_ _ Hld _]. rewrite S1 in Hdst, Hdi, Hld.
  destruct (with_typed alg ctx_wf ctx Hctx n2 r m1 _ _ iv Hc2 tmp Hl2 Hp t2 Ht2 _ Hst) as [_ Hlen2].
  assert (blen m1 = blen m) as B1 by (unfold blen; lia).
  rewrite (rd_app _ dst (Z.of_nat n1 * bsize alg) (Z.of_nat n2 * bsize alg)), R3, Hfr2, R1;
    (done || lia || (unfold in_mem, disjoint, blen in *; lia)).
Qed.

(** Every loop returns, leaves fewer bytes over than a block, keeps the
    memory a memory of bytes of the same size and changes nothing outside the
    destination, the chaining value and its local array. *)
Theorem modes_keep_memory alg ctx_wf `{!CipherLaws alg ctx_wf} ctx nb r m src dst iv tmp md crypt :
  ctx_wf ctx -> chunk alg nb r m src dst iv -> local_array alg nb m tmp src dst iv ->
  is_power_of_2 (bsize alg) = true -> crypt = encrypt_chunk \/ crypt = decrypt_chunk ->
  exists m' rest, crypt alg ctx md tmp m (Walk (Z.of_nat nb * bsize alg + r) src dst iv) = Some (m', rest) /\
    0 <= rest < bsize alg /\ bytes_ok m' /\ length m' = length m /\
    forall p n, in_mem m p n -> disjoint dst (Z.of_nat nb * bsize alg) p n -> disjoint iv (bsize alg) p n ->
      disjoint tmp (bsize alg) p n -> rd m' p n = rd m p n.
Proof.
  intros Hctx Hc Hl Hp Hcr. destruct (mode_steps_ok alg ctx_wf ctx Hctx md) as (He & Hd & _).
  destruct (chunk_ok alg ctx_wf ctx Hctx nb r m src dst iv Hc tmp Hl Hp md) as [He' Hd'].
  assert (exists st, step_ok (cra_blocksize alg) st /\ computes alg nb r m src dst iv tmp
      (crypt alg ctx md tmp m (Walk (Z.of_nat nb * bsize alg + r) src dst iv)) st) as (st & Hst & t & Ht & E).
  { destruct Hcr as [-> | ->]; eexists; split; [exact He|exact He'|exact Hd|exact Hd']. }
  exists (after_with alg nb m src dst iv tmp t st), r. split; [exact E|]. split; [apply Hc|].
  destruct (with_typed alg ctx_wf ctx Hctx nb r m src dst iv Hc tmp Hl Hp t Ht _ Hst) as [Hb Hlen]. split; [done|]. split; [done|].
  apply (with_frame alg ctx_wf ctx Hctx nb r m src dst iv Hc tmp Hl Hp t Ht _ Hst).
Qed.

(** [crypto_inc] adds one to the big-endian counter block and wraps around
    after [256 ^ size] values; the last bytes of a counter mode message, fewer
    than a block, are combined with the first bytes of the next key stream
    block and with nothing else, in place or not, and doing it again with the
    same counter gives the bytes back. *)
Theorem ctr_final_correct alg ctx_wf `{!CipherLaws alg ctx_wf} ctx m src dst iv ks n :
  let bs := bsize alg in let v := rd m iv bs in
  ctx_wf ctx -> final_area alg m src dst iv ks n ->
  exists m', crypto_ctr_crypt_final alg ctx ks m (Walk n src dst iv) = Some m' /\
    rd m' dst n = xor_bytes (take (Z.to_nat n) (enc alg ctx v)) (rd m src n) /\
    be_num (rd m' iv bs) = (be_num v + 1) mod 256 ^ bs /\
    exists m'', crypto_ctr_crypt_final alg ctx ks (wr m' iv v) (Walk n dst dst iv) = Some m'' /\ rd m'' dst n = rd m src n.
Proof.
  intros bs v Hctx Hf. pose proof Hf as [Hm Hn Hsrc Hdst Hiv Hks Dks Dkd Dki Ddi].
  destruct (ctr_final_reads alg ctx_wf ctx Hctx m src dst iv ks n Hf) as (m' & E & R1 & R2 & Hb & Hlen). fold bs in R2. fold v in R1, R2.
  pose proof (blen_rd _ _ _ Hiv) as Lv. fold bs in Lv. fold v in Lv.
  assert (in_mem m' iv (blen v)) as W by (rewrite Lv; unfold in_mem in *; lia).
  assert (final_area alg (wr m' iv v) dst dst iv ks n) as Hf'.
  { split; try done; [apply bytes_wr; [done | by apply bytes_rd]|..]; unfold in_mem; rewrite blen_wr by done; unfold in_mem in *; lia. }
  exists m'. split; [done|]. split; [done|]. split.
  { rewrite R2. unfold be_inc. rewrite be_num_bytes. do 2 f_equal. unfold blen in Lv. lia. }
  destruct (ctr_final_reads alg ctx_wf ctx Hctx _ dst dst iv ks n Hf') as (m'' & E' & R3 & _). exists m''. split; [done|]. rewrite R3.
  fold bs. rewrite (rd_wr_same m' iv v bs) by done. rewrite rd_wr_other; [|done|unfold in_mem in *; lia|rewrite Lv; unfold disjoint in *; lia].
  rewrite R1, (xor_comm (take _ _) (rd m src n)), xor_comm. apply xor_twice.
  destruct (enc_ok alg ctx_wf ctx Hctx v) as (_ & He & _).
  { split; [|by apply bytes_rd]. unfold blen, bs, bsize in Lv. unfold bs, bsize. lia. }
  rewrite length_take. pose proof (blen_block _ He) as Le. pose proof (blen_rd _ _ _ Hsrc) as Ls. fold bs in Le. unfold blen in *. lia.
Qed.

(** ** Witnesses: XTEA, 64 bytes of memory *)

Definition demo_ctx : tea_ctx := default (TeaCtx []) (tea_setkey (replicate 16 7)).
Definition demo_mem : mem := map Z.of_nat (seq 0 64).

(** The sizes of the example, by evaluation. *)
Ltac demo_sizes := unfold in_mem, disjoint; change (bsize xtea_alg) with 8; change (blen demo_mem) with 64; lia.

Lemma demo_ctx_wf : key_wf demo_ctx.
Proof. split; [reflexivity|]. repeat constructor; vm_compute; congruence. Qed.

Lemma demo_bytes : bytes_ok demo_mem.
Proof. repeat constructor; vm_compute; congruence. Qed.

(** Two blocks and three bytes from [0] to [24], the chaining value at [48], the
    local array at [56]. *)
Lemma demo_chunk : chunk xtea_alg 2 3 demo_mem 0 24 48.
Proof. split; [demo_sizes..|]. split; [apply demo_bytes | demo_sizes..]. Qed.

Lemma demo_local : local_array xtea_alg 2 demo_mem 56 0 24 48.
Proof. split; demo_sizes. Qed.

Lemma modes_compute_chain_witness :
  encrypt_chunk xtea_alg demo_ctx CBC 56 demo_mem (Walk 19 0 24 48) =
  let '(out, v) := run (cbc_enc_step xtea_alg demo_ctx) (map Z.of_nat (seq 48 8)) [map Z.of_nat (seq 0 8); map Z.of_nat (seq 8 8)] in
  Some (wr (wr demo_mem 24 out) 48 v, 3).
Proof.
  destruct (modes_compute_chain xtea_alg key_wf demo_ctx 2 3 demo_mem 0 24 48 56 CBC demo_ctx_wf demo_chunk demo_local eq_refl)
    as (_ & _ & H).
  destruct H as [H _]; [discriminate|]. vm_compute. vm_compute in H. exact H.
Defined.

Lemma modes_roundtrip_witness : exists me md',
  encrypt_chunk xtea_alg demo_ctx PCBC 56 demo_mem (Walk 19 0 24 48) = Some (me, 3) /\
  decrypt_chunk xtea_alg demo_ctx PCBC 56 (wr me 48 (rd demo_mem 48 8)) (Walk 19 24 24 48) = Some (md', 3) /\
  rd md' 24 16 = map Z.of_nat (seq 0 16).
Proof.
  destruct (modes_roundtrip xtea_alg key_wf demo_ctx 2 3 demo_mem 0 24 48 56 PCBC demo_ctx_wf demo_chunk demo_local eq_refl)
    as (me & md' & H1 & H2 & H3 & _).
  exists me, md'. split; [exact H1|]. split; [exact H2 | exact H3].
Defined.

Lemma modes_chunks_witness : exists m1 m2 mo,
  encrypt_chunk xtea_alg demo_ctx CTR 56 demo_mem (Walk 8 0 24 48) = Some (m1, 0) /\
  encrypt_chunk xtea_alg demo_ctx CTR 56 m1 (Walk 11 8 32 48) = Some (m2, 3) /\
  encrypt_chunk xtea_alg demo_ctx CTR 56 demo_mem (Walk 19 0 24 48) = Some (mo, 3) /\ rd m2 24 16 = rd mo 24 16.
Proof.
  destruct (modes_chunks xtea_alg key_wf demo_ctx 1 1 3 demo_mem 0 24 48 56 CTR encrypt_chunk demo_ctx_wf demo_chunk demo_local eq_refl)
    as (m1 & m2 & mo & H1 & H2 & H3 & H4 & _).
  - lia.
  - lia.
  - left. reflexivity.
  - exists m1, m2, mo. split; [exact H1|]. split; [exact H2|]. split; [exact H3 | exact H4].
Defined.

Lemma modes_keep_memory_witness : exists m' rest,
  decrypt_chunk xtea_alg demo_ctx CBC 56 demo_mem (Walk 19 0 24 48) = Some (m', rest) /\ 0 <= rest < 8 /\ rd m' 0 24 = map Z.of_nat (seq 0 24).
Proof.
  destruct (modes_keep_memory xtea_alg key_wf demo_ctx 2 3 demo_mem 0 24 48 56 CBC decrypt_chunk demo_ctx_wf demo_chunk demo_local eq_refl)
    as (m' & rest & H1 & H2 & _ & _ & H3).
  - right. reflexivity.
  - exists m', rest. split; [exact H1|]. split; [exact H2|]. rewrite H3; [reflexivity | demo_sizes..].
Defined.

Lemma ctr_final_correct_witness : exists m', crypto_ctr_crypt_final xtea_alg demo_ctx 56 demo_mem (Walk 3 0 24 48) = Some m' /\
  be_num (rd m' 48 8) = be_num (map Z.of_nat (seq 48 8)) + 1.
Proof.
  destruct (ctr_final_correct xtea_alg key_wf demo_ctx demo_mem 0 24 48 56 3 demo_ctx_wf) as (m' & H1 & _ & H2 & _).
  - split; [apply demo_bytes | demo_sizes..].
  - exists m'. split; [exact H1|]. cbv zeta in H2. change (bsize xtea_alg) with 8 in H2. rewrite H2. reflexivity.
Defined.
