(* ===== verification/Scatterwalk.v ===== *)
(** * Scatter lists

    [crypto/scatterwalk.c] and the inline functions of
    [include/crypto/scatterwalk.h]: a cursor over a list of memory areas that
    advances page by page.

    A page of low memory is its number, and mapping it gives the address of its
    first byte in the flat memory ([kmap_atomic] returns the linear address of
    such a page).  A pointer into a scatter list is the rest of the list from
    there, with chain entries followed; [NULL] is the empty list. *)

From S2P Require Import Prelude Bytes Mem LibString.
Open Scope c_scope.

(** ** The code *)

Definition PAGE_SHIFT : Z := 12.
Definition PAGE_SIZE : Z := Z.shiftl 1 PAGE_SHIFT.
Definition PAGE_MASK : Z := not32 (PAGE_SIZE - 1).
Definition offset_in_page (p : Z) : Z := p .& not32 PAGE_MASK.

Record scatterlist := Sg { sg_page : Z; sg_offset : Z; sg_length : Z }.
Record scatter_walk := ScatterWalk { sw_sg : list scatterlist; sw_offset : Z }.

Definition scatterwalk_sg_next (sg : list scatterlist) : option (list scatterlist) :=
  match sg with [] => None | _ :: rest => Some rest end.

(** [BUG_ON(!sg->length)] stops. *)
Definition scatterwalk_start (sg : list scatterlist) : option scatter_walk :=
  s ← head sg;
  if sg_length s =? 0 then None else Some (ScatterWalk sg (sg_offset s)).

Definition scatterwalk_pagelen (walk : scatter_walk) : option Z :=
  s ← head (sw_sg walk);
  let len := u32 (sg_offset s + sg_length s - sw_offset walk) in
  let len_this_page := offset_in_page (not32 (sw_offset walk)) + 1 in
  Some (if len <? len_this_page then len else len_this_page).

Definition scatterwalk_clamp (walk : scatter_walk) (nbytes : Z) : option Z :=
  len_this_page ← scatterwalk_pagelen walk;
  Some (if len_this_page <? nbytes then len_this_page else nbytes).

Definition scatterwalk_advance (walk : scatter_walk) (nbytes : Z) : scatter_walk :=
  ScatterWalk (sw_sg walk) (u32 (sw_offset walk + nbytes)).

Definition scatterwalk_aligned (walk : scatter_walk) (alignmask : Z) : bool :=
  negb (truthy (sw_offset walk .& alignmask)).

Definition scatterwalk_page (walk : scatter_walk) : option Z :=
  s ← head (sw_sg walk); Some (sg_page s + Z.shiftr (sw_offset walk) PAGE_SHIFT).

Definition crypto_kmap (page : Z) : Z := page * PAGE_SIZE.

Definition scatterwalk_map (walk : scatter_walk) : option Z :=
  page ← scatterwalk_page walk; Some (crypto_kmap page + offset_in_page (sw_offset walk)).

(** The page of the last byte before the cursor, whose descriptor [PageSlab]
    reads before the cache flush; a page beyond the memory has none. *)
Definition scatterwalk_flush (m : mem) (walk : scatter_walk) : option unit :=
  s ← head (sw_sg walk);
  let page := sg_page s + Z.shiftr (u32 (sw_offset walk - 1)) PAGE_SHIFT in
  if crypto_kmap page <? blen m then Some tt else None.

Definition scatterwalk_pagedone (m : mem) (walk : scatter_walk) (out : bool) (more : Z) : option scatter_walk :=
  _ ← (if out then scatterwalk_flush m walk else Some tt);
  if truthy more then
    let offset := u32 (sw_offset walk + (PAGE_SIZE - 1)) .& PAGE_MASK in
    s ← head (sw_sg walk);
    if u32 (sg_offset s + sg_length s) <=? offset then
      sg ← scatterwalk_sg_next (sw_sg walk); scatterwalk_start sg
    else Some (ScatterWalk (sw_sg walk) offset)
  else Some walk.

Definition scatterwalk_done (m : mem) (walk : scatter_walk) (out : bool) (more : Z) : option scatter_walk :=
  len ← scatterwalk_pagelen walk;
  if negb (truthy (len .& (PAGE_SIZE - 1))) || negb (truthy more) then scatterwalk_pagedone m walk out more else Some walk.

Definition memcpy_dir (m : mem) (buf sgdata nbytes : Z) (out : bool) : option mem :=
  let src := if out then buf else sgdata in
  let dst := if out then sgdata else buf in
  '(m, _) ← memcpy m dst src nbytes;
  Some m.

Definition scatterwalk_copychunks (m : mem) (buf : Z) (walk : scatter_walk) (nbytes : Z) (out : bool) : option (mem * scatter_walk) :=
  c_loop (count_fuel nbytes) (fun '(m, buf, walk, nbytes) =>
    len_this_page ← scatterwalk_pagelen walk;
    let len_this_page := if nbytes <? len_this_page then nbytes else len_this_page in
    vaddr ← scatterwalk_map walk;
    m ← memcpy_dir m buf vaddr len_this_page out;
    let walk := scatterwalk_advance walk len_this_page in
    if nbytes =? len_this_page then Some (inr (m, walk))
    else
      walk ← scatterwalk_pagedone m walk out 1;
      Some (inl (m, buf + len_this_page, walk, nbytes - len_this_page))) (m, buf, walk, nbytes).

Definition scatterwalk_map_and_copy (m : mem) (buf : Z) (sg : list scatterlist) (start nbytes : Z) (out : bool) : option mem :=
  if negb (truthy nbytes) then Some m else
  '(walk, offset) ← c_loop (S (length sg)) (fun '(sg, offset) =>
    walk ← scatterwalk_start sg;
    s ← head sg;
    if start <? u32 (offset + sg_length s) then Some (inr (walk, offset))
    else
      sg ← scatterwalk_sg_next sg;
      Some (inl (sg, u32 (offset + sg_length s)))) (sg, 0);
  '(m, walk) ← scatterwalk_copychunks m buf (scatterwalk_advance walk (u32 (start - offset))) nbytes out;
  _ ← scatterwalk_done m walk out 0;
  Some m.
