(* ===== verification/ScatterwalkCorrect.v ===== *)
(** * Scatter lists: correctness

    The addresses a cursor has still to visit, and what copying to and from
    them does.  [gather] reads a list of addresses; [copied] says that one list
    of addresses holds what another one held and that nothing else changed. *)

From S2P Require Import Prelude Bytes Mem LibString LibStringCorrect Scatterwalk.
Open Scope c_scope.

(** ** Lists of addresses *)

Definition gather (m : mem) (A : list Z) : list Z := map (zth m) A.
Definition in_range (m : mem) (A : list Z) : Prop := Forall (fun a => 0 <= a < blen m) A.

(** No address of one list is in the other. *)
Definition apart (A B : list Z) : Prop := forall a, a ∈ A -> a ∉ B.

(** Nothing but the addresses [W] changes. *)
Definition same_out (W : list Z) (m m' : mem) : Prop := blen m' = blen m /\ forall a, 0 <= a -> a ∉ W -> zth m' a = zth m a.

Definition copied (D S : list Z) (m m' : mem) : Prop := gather m' D = gather m S /\ same_out D m m'.

Lemma apart_sym A B : apart A B -> apart B A.
Proof. intros H a Ha Hb. by apply (H a). Qed.

Lemma apart_app_l A1 A2 B : apart (A1 ++ A2) B <-> apart A1 B /\ apart A2 B.
Proof.
  unfold apart. split.
  - intros H. split; intros a Ha; apply H, elem_of_app; auto.
  - intros [H1 H2] a [Ha|Ha]%elem_of_app; auto.
Qed.

Lemma apart_app_r A B1 B2 : apart A (B1 ++ B2) <-> apart A B1 /\ apart A B2.
Proof.
  split.
  - intros [H1 H2]%apart_sym%apart_app_l. split; by apply apart_sym.
  - intros [H1 H2]. apply apart_sym, apart_app_l. split; by apply apart_sym.
Qed.

Lemma apart_range p n q k : disjoint p n q k -> apart (seqZ p n) (seqZ q k).
Proof. intros H a Ha%elem_of_seqZ Hb%elem_of_seqZ. unfold disjoint in H. lia. Qed.

Lemma in_range_blen m m' A : blen m' = blen m -> in_range m' A <-> in_range m A.
Proof. unfold in_range. by intros ->. Qed.

Lemma in_range_app m A B : in_range m (A ++ B) <-> in_range m A /\ in_range m B.
Proof. apply Forall_app. Qed.

Lemma in_range_seqZ m p n : 0 <= n -> 0 <= p -> in_range m (seqZ p n) <-> n = 0 \/ in_mem m p n.
Proof.
  intros Hn Hp. unfold in_range, in_mem. rewrite Forall_forall. split.
  - intros H. destruct (decide (n = 0)) as [|Hne]; [by left|right].
    pose proof (H (p + (n - 1)) ltac:(apply list_elem_of_In, elem_of_seqZ; lia)). lia.
  - intros H a Ha%list_elem_of_In%elem_of_seqZ. lia.
Qed.

Lemma gather_app m A B : gather m (A ++ B) = gather m A ++ gather m B.
Proof. apply map_app. Qed.

Lemma length_gather m A : length (gather m A) = length A.
Proof. apply length_map. Qed.

Lemma gather_range m p n : in_mem m p n -> gather m (seqZ p n) = rd m p n.
Proof.
  intros H. unfold in_mem in H. unfold gather. apply mem_ext.
  - rewrite blen_rd by done. unfold blen. rewrite length_map, length_seqZ. lia.
  - intros i Hi. unfold blen in Hi. rewrite length_map, length_seqZ in Hi. rewrite arr_get_rd by (done || lia).
    rewrite arr_get_map. replace i with (Z.of_nat (Z.to_nat i)) at 1 by lia. rewrite arr_get_nat, lookup_seqZ_lt by lia.
    simpl. symmetry. rewrite (arr_get_zth m) by (unfold blen in H; lia). do 2 f_equal. lia.
Qed.

Lemma gather_same W m m' A : same_out W m m' -> in_range m A -> apart A W -> gather m' A = gather m A.
Proof.
  intros [_ H] HA Hap. unfold gather. apply map_ext_in. intros a Ha. unfold in_range in HA. rewrite Forall_forall in HA.
  apply H; [by apply HA | by apply Hap, list_elem_of_In].
Qed.

Lemma same_out_refl m : same_out [] m m.
Proof. by split. Qed.

Lemma same_out_trans W1 W2 m1 m2 m3 : same_out W1 m1 m2 -> same_out W2 m2 m3 -> same_out (W1 ++ W2) m1 m3.
Proof.
  intros [L1 H1] [L2 H2]. split; [by rewrite L2|]. intros a Ha Hn. rewrite not_elem_of_app in Hn.
  rewrite H2 by tauto. apply H1; tauto.
Qed.

Lemma same_out_mono W W' m m' : (forall a, a ∈ W -> a ∈ W') -> same_out W m m' -> same_out W' m m'.
Proof. intros HW [L H]. split; [done|]. intros a Ha Hn. apply H; auto. Qed.

Lemma same_out_wr m p b : in_mem m p (blen b) -> same_out (seqZ p (blen b)) m (wr m p b).
Proof.
  intros Hp. split; [by apply blen_wr|]. intros a Ha Hn. rewrite elem_of_seqZ in Hn. unfold zth. f_equal.
  apply arr_get_wr_out; [done|lia].
Qed.

(** ** Copies *)

Lemma copied_memcpy m d s n : in_mem m d n -> in_mem m s n -> d <= s \/ s + n <= d ->
  exists m', memcpy m d s n = Some (m', d) /\ copied (seqZ d n) (seqZ s n) m m'.
Proof.
  intros Hd Hs Ho. exists (wr m d (rd m s n)). split; [by apply memcpy_ok|].
  pose proof (blen_rd _ _ _ Hs) as L. assert (in_mem m d (blen (rd m s n))) as Hw by (by rewrite L). split.
  - rewrite (gather_range m) by done. rewrite gather_range by (by apply in_mem_wr). by apply rd_wr_same.
  - pose proof (same_out_wr m d _ Hw) as H. by rewrite L in H.
Qed.

Lemma copied_nil m : copied [] [] m m.
Proof. split; [done | apply same_out_refl]. Qed.

Lemma copied_app D1 S1 D2 S2 m1 m2 m3 : in_range m1 D1 -> in_range m1 S2 -> apart D1 S2 -> apart D1 D2 ->
  copied D1 S1 m1 m2 -> copied D2 S2 m2 m3 -> copied (D1 ++ D2) (S1 ++ S2) m1 m3.
Proof.
  intros HD HS HDS HDD [G1 F1] [G2 F2]. split; [|by apply (same_out_trans _ _ _ m2)].
  rewrite !gather_app, G2. f_equal.
  - rewrite (gather_same D2 m2) by (done || by apply (in_range_blen m1); [apply F1|]). done.
  - apply (gather_same D1); [done..|]. by apply apart_sym.
Qed.

(** A copy of bytes. *)
Lemma bytes_zth m : Forall is_byte m <-> forall a, 0 <= a < blen m -> is_byte (zth m a).
Proof.
  split.
  - intros H a Ha. rewrite Forall_lookup in H. apply (H (Z.to_nat a)). by apply lookup_zth.
  - intros H. apply Forall_lookup. intros i x Hx. pose proof (lookup_lt_Some _ _ _ Hx) as Hl.
    specialize (H (Z.of_nat i) ltac:(unfold blen; lia)). unfold zth in H. by rewrite arr_get_nat, Hx in H.
Qed.

Lemma copied_bytes D S m m' : Forall is_byte m -> in_range m S -> copied D S m m' -> Forall is_byte m'.
Proof.
  rewrite !bytes_zth. intros H HS [G [L Hsame]] a Ha. rewrite L in Ha. destruct (decide (a ∈ D)) as [Hin|Hout]; [|rewrite Hsame by (done || lia); auto].
  assert (In (zth m' a) (gather m S)) as Hg by (rewrite <- G; apply in_map; by apply list_elem_of_In).
  apply in_map_iff in Hg as (b & <- & Hb). apply H. unfold in_range in HS. rewrite Forall_forall in HS. by apply HS.
Qed.

(** ** Pages *)

Lemma page_size : PAGE_SIZE = 4096.
Proof. done. Qed.

Lemma offset_in_page_mod x : offset_in_page x = x mod PAGE_SIZE.
Proof. unfold offset_in_page. change (not32 PAGE_MASK) with (Z.ones 12). by rewrite Z.land_ones. Qed.

Lemma page_round x : 0 <= x -> x + PAGE_SIZE <= 2 ^ 32 -> u32 (x + (PAGE_SIZE - 1)) .& PAGE_MASK =
  x + (- x) mod PAGE_SIZE.
Proof.
  intros H1 H2. rewrite page_size in *. rewrite u32_small by (unfold is_u32; lia). unfold PAGE_MASK.
  change (PAGE_SIZE - 1) with (2 ^ 12 - 1). rewrite land_not32_mask by (unfold is_u32; lia). change (2 ^ 12) with 4096.
  Z.div_mod_to_equations. lia.
Qed.

(** ** Cursors *)

Definition sg_end (s : scatterlist) : Z := sg_offset s + sg_length s.
Definition sg_ok (s : scatterlist) : Prop :=
  0 <= sg_page s /\ 0 <= sg_offset s /\ 0 < sg_length s /\ sg_end s + PAGE_SIZE <= 2 ^ 32.
Definition sg_addrs (s : scatterlist) : list Z := seqZ (sg_page s * PAGE_SIZE + sg_offset s) (sg_length s).
Definition sgs_addrs (sg : list scatterlist) : list Z := concat (map sg_addrs sg).

(** The addresses that a cursor has still to visit. *)
Definition walk_addrs (w : scatter_walk) : list Z :=
  match sw_sg w with
  | [] => []
  | s :: rest => seqZ (sg_page s * PAGE_SIZE + sw_offset w) (sg_end s - sw_offset w) ++ sgs_addrs rest
  end.

Definition walk_ok (w : scatter_walk) : Prop :=
  exists s rest, sw_sg w = s :: rest /\ Forall sg_ok (s :: rest) /\ sg_offset s <= sw_offset w <= sg_end s.
(** Before a byte. *)
Definition walk_in (w : scatter_walk) : Prop := exists s, head (sw_sg w) = Some s /\ sw_offset w < sg_end s.

Lemma start_ok sg : Forall sg_ok sg -> sg <> [] -> exists w, scatterwalk_start sg = Some w /\ walk_ok w /\ walk_in w /\
  walk_addrs w = sgs_addrs sg.
Proof.
  intros Hsg Hne. destruct sg as [|s rest]; [done|]. pose proof Hsg as Hs. apply Forall_cons_1 in Hs as [Hs _].
  destruct Hs as (H1 & H2 & H3 & H4). exists (ScatterWalk (s :: rest) (sg_offset s)). unfold scatterwalk_start. cbn [head].
  rewrite bind_Some_eq. destruct (Z.eqb_spec (sg_length s) 0); [lia|]. split; [done|]. split; [|split].
  - exists s, rest. split; [done|]. split; [done|]. cbn. unfold sg_end. lia.
  - exists s. split; [done|]. cbn. unfold sg_end. lia.
  - unfold walk_addrs, sgs_addrs, sg_addrs, sg_end. cbn. do 2 f_equal. lia.
Qed.

(** The bytes of the page and the area after the cursor. *)
Definition page_rest (s : scatterlist) (off : Z) : Z := Z.min (sg_end s - off) (PAGE_SIZE - off mod PAGE_SIZE).

Lemma pagelen_ok s rest off : sg_ok s -> sg_offset s <= off <= sg_end s ->
  scatterwalk_pagelen (ScatterWalk (s :: rest) off) = Some (page_rest s off).
Proof.
  intros (H1 & H2 & H3 & H4) Ho. unfold scatterwalk_pagelen, page_rest. cbn [head sw_sg sw_offset]. rewrite bind_Some_eq.
  fold (sg_end s). rewrite page_size in *. rewrite u32_small by (unfold is_u32; lia).
  rewrite offset_in_page_mod, not32_sub by (unfold is_u32; lia). rewrite page_size.
  replace ((2 ^ 32 - 1 - off) mod 4096) with (4095 - off mod 4096) by (Z.div_mod_to_equations; lia).
  destruct (Z.ltb_spec (sg_end s - off) (4095 - off mod 4096 + 1)); f_equal; lia.
Qed.

Lemma map_ok s rest off : 0 <= off -> scatterwalk_map (ScatterWalk (s :: rest) off) = Some (sg_page s * PAGE_SIZE + off).
Proof.
  intros Ho. unfold scatterwalk_map, scatterwalk_page, crypto_kmap. cbn [head sw_sg sw_offset]. rewrite !bind_Some_eq.
  rewrite offset_in_page_mod, Z.shiftr_div_pow2 by done. change (2 ^ PAGE_SHIFT) with PAGE_SIZE. rewrite page_size. f_equal.
  Z.div_mod_to_equations. lia.
Qed.

Lemma walk_addrs_end s rest off : off = sg_end s -> walk_addrs (ScatterWalk (s :: rest) off) = sgs_addrs rest.
Proof. intros ->. unfold walk_addrs. cbn [sw_sg sw_offset]. by rewrite Z.sub_diag, seqZ_nil. Qed.

(** A byte has been visited. *)
Definition visited (m : mem) (w : scatter_walk) : Prop :=
  exists s, head (sw_sg w) = Some s /\ 0 < sw_offset w /\ sg_page s * PAGE_SIZE + sw_offset w - 1 < blen m.

Lemma flush_ok m w : walk_ok w -> visited m w -> scatterwalk_flush m w = Some tt.
Proof.
  intros (s' & rest & E & Hsg & Ho) (s & Es & Hp & Hm). destruct w as [sg off]. cbn [sw_sg sw_offset] in *. subst sg.
  injection Es as ->. apply Forall_cons_1 in Hsg as [(H1 & H2 & H3 & H4) _]. unfold scatterwalk_flush, crypto_kmap. cbn [sw_sg sw_offset head].
  rewrite bind_Some_eq, page_size in *. rewrite u32_small by (unfold is_u32; lia). rewrite Z.shiftr_div_pow2 by done.
  change (2 ^ PAGE_SHIFT) with 4096. destruct (Z.ltb_spec ((sg_page s + (off - 1) / 4096) * 4096) (blen m)) as [|Hge]; [done|].
  Z.div_mod_to_equations. lia.
Qed.

(** At the end of a page or an area, with more to visit. *)
Lemma pagedone_ok m s rest off out more : Forall sg_ok (s :: rest) -> sg_offset s <= off <= sg_end s -> more <> 0 ->
  visited m (ScatterWalk (s :: rest) off) ->
  off = sg_end s /\ rest <> [] \/ off < sg_end s /\ off mod PAGE_SIZE = 0 ->
  exists w, scatterwalk_pagedone m (ScatterWalk (s :: rest) off) out more = Some w /\ walk_ok w /\ walk_in w /\
    walk_addrs w = walk_addrs (ScatterWalk (s :: rest) off).
Proof.
  intros Hsg Ho Hm Hv Hc. pose proof Hsg as Hs. apply Forall_cons_1 in Hs as [(H1 & H2 & H3 & H4) Hrest]. unfold scatterwalk_pagedone.
  assert ((if out then scatterwalk_flush m (ScatterWalk (s :: rest) off) else Some tt) = Some tt) as ->.
  { destruct out; [|done]. apply flush_ok; [|done]. by exists s, rest. }
  rewrite bind_Some_eq.
  rewrite (proj2 (truthy_true more) Hm). cbn [sw_sg sw_offset head]. rewrite bind_Some_eq, page_round by lia. fold (sg_end s).
  rewrite u32_small by (unfold is_u32; rewrite page_size in *; lia).
  pose proof (Z.mod_pos_bound (- off) PAGE_SIZE ltac:(done)) as Hb. destruct Hc as [[-> Hne]|[Hlt Hpg]].
  - destruct (Z.leb_spec (sg_end s) (sg_end s + - sg_end s mod PAGE_SIZE)); [|lia]. cbn [scatterwalk_sg_next]. rewrite bind_Some_eq.
    rewrite walk_addrs_end by done. by apply start_ok.
  - assert ((- off) mod PAGE_SIZE = 0) as E by (rewrite Z.mod_opp_l_z; done). rewrite E, Z.add_0_r in *.
    destruct (Z.leb_spec (sg_end s) off); [lia|]. eexists. split; [done|]. split; [by exists s, rest|]. split; [by exists s | done].
Qed.

Lemma done_ok m w out more : walk_ok w -> visited m w -> walk_addrs w <> [] -> more <> 0 ->
  exists w', scatterwalk_done m w out more = Some w' /\ walk_ok w' /\ walk_in w' /\ walk_addrs w' = walk_addrs w.
Proof.
  intros (s & rest & E & Hsg & Ho) Hv Hne Hm. destruct w as [sg off]. cbn [sw_sg sw_offset] in *. subst sg.
  pose proof Hsg as Hs. apply Forall_cons_1 in Hs as [Hs Hrest]. unfold scatterwalk_done. rewrite pagelen_ok by done. rewrite bind_Some_eq.
  rewrite (proj2 (truthy_true more) Hm). cbn [negb]. rewrite orb_false_r. change (PAGE_SIZE - 1) with (Z.ones 12). rewrite Z.land_ones by done.
  change (2 ^ 12) with PAGE_SIZE. destruct (decide (off = sg_end s)) as [Eo|No].
  - assert (rest <> []) as Hr by (intros ->; by rewrite walk_addrs_end in Hne).
    assert (page_rest s off = 0) as -> by (unfold page_rest; pose proof (Z.mod_pos_bound off PAGE_SIZE); rewrite page_size in *; lia).
    cbn [negb truthy]. apply pagedone_ok; auto.
  - assert (exists w', Some (ScatterWalk (s :: rest) off) = Some w' /\ walk_ok w' /\ walk_in w' /\
      walk_addrs w' = walk_addrs (ScatterWalk (s :: rest) off)) as Hsame.
    { eexists. split; [done|]. split; [by exists s, rest|]. split; [|done]. exists s. split; [done|]. cbn. lia. }
    destruct (negb (truthy (page_rest s off mod PAGE_SIZE))) eqn:Et; [|done].
    apply negb_true_iff, truthy_false in Et. apply pagedone_ok; [done..|]. right. split; [lia|].
    unfold page_rest in Et. rewrite page_size in *. pose proof (Z.mod_pos_bound off 4096).
    destruct (Z.min_spec (sg_end s - off) (4096 - off mod 4096)) as [[Hl Em]|[Hl Em]]; rewrite Em in Et; [|Z.div_mod_to_equations; lia].
    rewrite Z.mod_small in Et; lia.
Qed.

Lemma done_last m w out : walk_ok w -> visited m w -> scatterwalk_done m w out 0 = Some w.
Proof.
  intros Hok Hv. pose proof (flush_ok m w Hok Hv) as Hf. destruct Hok as (s & rest & E & Hsg & Ho). destruct w as [sg off]. cbn [sw_sg sw_offset] in *. subst sg.
  unfold scatterwalk_done. rewrite pagelen_ok by (done || by inversion Hsg). rewrite bind_Some_eq, orb_true_r.
  unfold scatterwalk_pagedone. destruct out; [rewrite Hf|]; done.
Qed.

Lemma walk_addrs_split s rest off n : 0 <= n -> off + n <= sg_end s ->
  walk_addrs (ScatterWalk (s :: rest) off) = seqZ (sg_page s * PAGE_SIZE + off) n ++ walk_addrs (ScatterWalk (s :: rest) (off + n)).
Proof.
  intros Hn He. unfold walk_addrs. cbn [sw_sg sw_offset]. replace (sg_end s - off) with (n + (sg_end s - (off + n))) by lia.
  rewrite seqZ_app, <- app_assoc by lia. do 3 f_equal. lia.
Qed.

Lemma advance_ok s rest off n : Forall sg_ok (s :: rest) -> sg_offset s <= off -> 0 <= n -> off + n <= sg_end s ->
  scatterwalk_advance (ScatterWalk (s :: rest) off) n = ScatterWalk (s :: rest) (off + n) /\ walk_ok (ScatterWalk (s :: rest) (off + n)).
Proof.
  intros Hsg Ho Hn He. pose proof Hsg as Hs. apply Forall_cons_1 in Hs as [(H1 & H2 & H3 & H4) _]. unfold scatterwalk_advance.
  cbn [sw_sg sw_offset]. rewrite u32_small by (unfold is_u32; rewrite page_size in *; lia). split; [done|].
  exists s, rest. split; [done|]. split; [done|]. cbn. lia.
Qed.

(** ** Copying chunks *)

Definition dir (out : bool) (buf sgdata : list Z) : list Z * list Z := if out then (sgdata, buf) else (buf, sgdata).

Lemma memcpy_dir_ok m buf p n out : in_mem m buf n -> in_mem m p n -> disjoint buf n p n ->
  exists m', memcpy_dir m buf p n out = Some m' /\
    copied (fst (dir out (seqZ buf n) (seqZ p n))) (snd (dir out (seqZ buf n) (seqZ p n))) m m'.
Proof.
  intros Hb Hp Hd. unfold memcpy_dir. destruct out; cbn [dir fst snd].
  - destruct (copied_memcpy m p buf n) as (m' & E & Hc); [done..|unfold disjoint in *; lia|]. exists m'. by rewrite E.
  - destruct (copied_memcpy m buf p n) as (m' & E & Hc); [done..|unfold disjoint in *; lia|]. exists m'. by rewrite E.
Qed.

Lemma in_range_mem m p n : 0 < n -> in_range m (seqZ p n) <-> in_mem m p n.
Proof.
  intros Hn. unfold in_range, in_mem. rewrite Forall_forall. split.
  - intros H. pose proof (H p ltac:(apply list_elem_of_In, elem_of_seqZ; lia)).
    pose proof (H (p + (n - 1)) ltac:(apply list_elem_of_In, elem_of_seqZ; lia)). lia.
  - intros H a Ha%list_elem_of_In%elem_of_seqZ. lia.
Qed.

Lemma apart_disjoint p n q k : 0 < n -> 0 < k -> apart (seqZ p n) (seqZ q k) -> disjoint p n q k.
Proof.
  intros Hn Hk H. unfold disjoint. destruct (decide (p + n <= q)) as [|H1]; [by left|]. destruct (decide (q + k <= p)) as [|H2]; [by right|].
  exfalso. apply (H (Z.max p q)); apply elem_of_seqZ; lia.
Qed.

Lemma dir_app out b1 b2 s1 s2 : dir out (b1 ++ b2) (s1 ++ s2) =
  (fst (dir out b1 s1) ++ fst (dir out b2 s2), snd (dir out b1 s1) ++ snd (dir out b2 s2)).
Proof. by destruct out. Qed.

Definition copy_body (out : bool) : mem * Z * scatter_walk * Z -> option (mem * Z * scatter_walk * Z + mem * scatter_walk) :=
  fun '(m, buf, walk, nbytes) =>
    len_this_page ← scatterwalk_pagelen walk;
    let len_this_page := if nbytes <? len_this_page then nbytes else len_this_page in
    vaddr ← scatterwalk_map walk;
    m ← memcpy_dir m buf vaddr len_this_page out;
    let walk := scatterwalk_advance walk len_this_page in
    if nbytes =? len_this_page then Some (inr (m, walk))
    else
      walk ← scatterwalk_pagedone m walk out 1;
      Some (inl (m, buf + len_this_page, walk, nbytes - len_this_page)).

(** One turn of the loop: a part of a page, and then the end or the next page. *)
Lemma copy_step m buf w n out : walk_ok w -> walk_in w -> 0 < n <= Z.of_nat (length (walk_addrs w)) ->
  let A := take (Z.to_nat n) (walk_addrs w) in
  in_mem m buf n -> in_range m A -> apart (seqZ buf n) A ->
  exists len p m1 w1, 0 < len <= n /\ walk_addrs w = seqZ p len ++ walk_addrs w1 /\ walk_ok w1 /\
    copied (fst (dir out (seqZ buf len) (seqZ p len))) (snd (dir out (seqZ buf len) (seqZ p len))) m m1 /\
    (len = n /\ visited m1 w1 /\ copy_body out (m, buf, w, n) = Some (inr (m1, w1)) \/
     len < n /\ walk_in w1 /\ copy_body out (m, buf, w, n) = Some (inl (m1, buf + len, w1, n - len))).
Proof.
  intros (s & rest & E & Hsg & Ho) (s' & Es & Hlt) Hn A Hb HA Hap. destruct w as [sg off]. cbn [sw_sg sw_offset] in *. subst sg.
  injection Es as <-. pose proof Hsg as Hs. apply Forall_cons_1 in Hs as [Hs Hrest]. pose proof Hs as (H1 & H2 & H3 & H4).
  set (p := sg_page s * PAGE_SIZE + off). set (len := if n <? page_rest s off then n else page_rest s off).
  assert (0 < len <= n /\ len <= page_rest s off /\ (len < n -> len = page_rest s off)) as (Hl & Hlp & Hl').
  { unfold len, page_rest in *. pose proof (Z.mod_pos_bound off PAGE_SIZE). rewrite page_size in *.
    destruct (Z.ltb_spec n (Z.min (sg_end s - off) (4096 - off mod 4096))); lia. }
  assert (off + len <= sg_end s) as He by (unfold page_rest in Hlp; lia).
  pose proof (walk_addrs_split s rest off len ltac:(lia) He) as Esp. fold p in Esp.
  assert (A = seqZ p len ++ take (Z.to_nat (n - len)) (walk_addrs (ScatterWalk (s :: rest) (off + len)))) as EA.
  { unfold A. rewrite Esp, take_app, length_seqZ, take_ge by (rewrite length_seqZ; lia). do 2 f_equal. lia. }
  rewrite EA in HA, Hap. apply in_range_app in HA as [HA1 HA2]. apply apart_app_r in Hap as [Hap1 Hap2].
  destruct (memcpy_dir_ok m buf p len out) as (m1 & E1 & Hc1).
  { unfold in_mem in *. lia. }
  { apply in_range_mem; [lia|done]. }
  { apply apart_disjoint; [lia..|]. intros a Ha. apply Hap1. rewrite elem_of_seqZ in *. lia. }
  destruct (advance_ok s rest off len Hsg) as [Ead Hw1]; [lia..|].
  assert (copy_body out (m, buf, ScatterWalk (s :: rest) off, n) = if n =? len then Some (inr (m1, ScatterWalk (s :: rest) (off + len)))
    else walk ← scatterwalk_pagedone m1 (ScatterWalk (s :: rest) (off + len)) out 1; Some (inl (m1, buf + len, walk, n - len))) as Ebody.
  { unfold copy_body. rewrite pagelen_ok, bind_Some_eq by done. cbv zeta. fold len. rewrite map_ok by lia.
    rewrite bind_Some_eq. fold p. rewrite E1, bind_Some_eq, Ead. done. }
  assert (visited m1 (ScatterWalk (s :: rest) (off + len))) as Hvis.
  { exists s. split; [done|]. cbn [sw_offset]. apply in_range_mem in HA1; [|lia]. destruct Hc1 as (_ & -> & _). unfold in_mem, p in *. lia. }
  destruct (Z.eqb_spec n len) as [En|Nn].
  - exists len, p, m1, (ScatterWalk (s :: rest) (off + len)). repeat (split; [done|]). by left.
  - destruct (pagedone_ok m1 s rest (off + len) out 1 Hsg) as (w1 & Ew & Hok & Hin & Eadd); [lia|done|exact Hvis| |].
    { destruct (decide (off + len = sg_end s)) as [Ee|Ne].
      - left. split; [done|]. intros ->. rewrite Esp, length_app, length_seqZ, walk_addrs_end in Hn by done. cbn in Hn. lia.
      - right. split; [lia|]. specialize (Hl' ltac:(lia)). unfold page_rest in Hl'. rewrite page_size in *. Z.div_mod_to_equations. lia. }
    exists len, p, m1, w1. split; [done|]. split; [by rewrite Esp, Eadd|]. split; [done|]. split; [done|]. right.
    split; [lia|]. split; [done|]. by rewrite Ebody, Ew.
Qed.

Lemma copied_dir_app out b1 b2 s1 s2 m m1 m2 : in_range m (b1 ++ b2) -> in_range m (s1 ++ s2) -> apart (b1 ++ b2) (s1 ++ s2) ->
  apart b1 b2 -> apart s1 s2 ->
  copied (fst (dir out b1 s1)) (snd (dir out b1 s1)) m m1 -> copied (fst (dir out b2 s2)) (snd (dir out b2 s2)) m1 m2 ->
  copied (fst (dir out (b1 ++ b2) (s1 ++ s2))) (snd (dir out (b1 ++ b2) (s1 ++ s2))) m m2.
Proof.
  intros [Hb1 Hb2]%in_range_app [Hs1 Hs2]%in_range_app Hbs Hb Hs H1 H2. rewrite dir_app. cbn [fst snd].
  rewrite apart_app_l, !apart_app_r in Hbs. destruct Hbs as [[A1 A2] [A3 A4]].
  destruct out; cbn [dir fst snd] in *; (eapply copied_app; [..|exact H1|exact H2]); try done. by apply apart_sym.
Qed.

(** [nbytes] bytes are copied between the buffer and the addresses at the
    cursor, which moves past them. *)
Lemma copychunks_ok m buf w n out : walk_ok w -> walk_in w -> 0 < n <= Z.of_nat (length (walk_addrs w)) ->
  let A := take (Z.to_nat n) (walk_addrs w) in
  in_mem m buf n -> in_range m A -> NoDup A -> apart (seqZ buf n) A ->
  exists m' w', scatterwalk_copychunks m buf w n out = Some (m', w') /\
    copied (fst (dir out (seqZ buf n) A)) (snd (dir out (seqZ buf n) A)) m m' /\
    walk_ok w' /\ visited m' w' /\ walk_addrs w' = drop (Z.to_nat n) (walk_addrs w).
Proof.
  intros Hok Hin Hn A Hb HA Hnd Hap. change (scatterwalk_copychunks m buf w n out) with (c_loop (count_fuel n) (copy_body out) (m, buf, w, n)).
  assert (Z.to_nat n < count_fuel n)%nat as Hf by (unfold count_fuel; lia). revert Hf. generalize (count_fuel n) as fuel. intros fuel.
  revert m buf w n Hok Hin Hn A Hb HA Hnd Hap. induction fuel as [|fuel IH]; intros m buf w n Hok Hin Hn A Hb HA Hnd Hap Hf; [lia|].
  destruct (copy_step m buf w n out Hok Hin Hn Hb HA Hap) as (len & p & m1 & w1 & Hl & Ew & Hw1 & Hc & Hcase).
  assert (forall A', walk_addrs w1 = A' -> A = seqZ p len ++ take (Z.to_nat (n - len)) A') as EA.
  { intros A' <-. unfold A. rewrite Ew, take_app, length_seqZ, take_ge by (rewrite length_seqZ; lia). do 2 f_equal. lia. }
  specialize (EA _ eq_refl). cbn [c_loop]. destruct Hcase as [(-> & Hvis & ->)|(Hlt & Hin1 & ->)].
  - exists m1, w1. split; [done|]. rewrite Z.sub_diag in EA. cbn [Z.to_nat take] in EA. rewrite app_nil_r in EA. rewrite EA.
    split; [done|]. split; [done|]. split; [done|]. rewrite Ew. symmetry. apply drop_app_length'. by rewrite length_seqZ.
  - pose proof (proj1 (proj2 Hc)) as Hlen. rewrite EA in HA, Hnd, Hap.
    apply list.NoDup_app in Hnd as (_ & Hnd12 & Hnd2). rewrite Ew, length_app, length_seqZ in Hn.
    replace (seqZ buf n) with (seqZ buf len ++ seqZ (buf + len) (n - len)) in * by (rewrite <- seqZ_app by lia; f_equal; lia).
    destruct (IH m1 (buf + len) w1 (n - len)) as (m' & w' & E' & Hc' & Hok' & Hvis' & Ew'); [done|done|lia|..].
    + unfold in_mem in *. lia.
    + apply (in_range_blen m); [done|]. by apply in_range_app in HA as [_ HA].
    + done.
    + rewrite apart_app_l, !apart_app_r in Hap. tauto.
    + lia.
    + exists m', w'. split; [done|]. rewrite EA. split; [|split; [done|split; [done|]]].
      * apply (copied_dir_app out _ _ _ _ m m1); try done.
        -- rewrite <- seqZ_app by lia. replace (len + (n - len)) with n by lia. apply in_range_mem; [lia|done].
        -- apply apart_range. unfold disjoint. lia.
      * rewrite Ew', Ew, drop_app, length_seqZ, (drop_ge (seqZ _ _)) by (rewrite length_seqZ; lia). cbn [app]. f_equal. lia.
Qed.

(** ** Copying from a position *)

Lemma length_sgs s rest : sg_ok s -> Z.of_nat (length (sgs_addrs (s :: rest))) = sg_length s + Z.of_nat (length (sgs_addrs rest)).
Proof. intros (_ & _ & H & _). unfold sgs_addrs. cbn [map concat]. rewrite length_app. unfold sg_addrs at 1. rewrite length_seqZ. lia. Qed.

Definition find_body (start : Z) : list scatterlist * Z -> option (list scatterlist * Z + scatter_walk * Z) :=
  fun '(sg, offset) =>
    walk ← scatterwalk_start sg;
    s ← head sg;
    if start <? u32 (offset + sg_length s) then Some (inr (walk, offset))
    else
      sg ← scatterwalk_sg_next sg;
      Some (inl (sg, u32 (offset + sg_length s))).

(** The area that has byte [start], which is [start - offset] bytes into it. *)
Lemma find_ok sg start offset fuel : Forall sg_ok sg -> (length sg < fuel)%nat -> 0 <= offset <= start ->
  start - offset < Z.of_nat (length (sgs_addrs sg)) -> offset + Z.of_nat (length (sgs_addrs sg)) < 2 ^ 32 ->
  exists w offset', c_loop fuel (find_body start) (sg, offset) = Some (w, offset') /\
    let w' := scatterwalk_advance w (u32 (start - offset')) in
    walk_ok w' /\ walk_in w' /\ walk_addrs w' = drop (Z.to_nat (start - offset)) (sgs_addrs sg).
Proof.
  intros Hsg. revert offset fuel. induction Hsg as [|s rest Hs Hrest IH]; intros offset fuel Hf Ho Hst Htot; [cbn in Hst; lia|].
  rewrite length_sgs in Hst, Htot by done. destruct fuel as [|fuel]; [cbn in Hf; lia|].
  assert (Forall sg_ok (s :: rest)) as Hsg by (by constructor).
  pose proof Hs as (H1 & H2 & H3 & H4). rewrite page_size in H4.
  destruct (start_ok (s :: rest) Hsg ltac:(done)) as (w & Ew & Hw & _ & Ea).
  unfold scatterwalk_start in Ew. cbn [head] in Ew. rewrite bind_Some_eq in Ew. destruct (Z.eqb_spec (sg_length s) 0); [lia|]. injection Ew as <-.
  cbn [c_loop]. unfold find_body at 1. unfold scatterwalk_start. cbn [head]. rewrite !bind_Some_eq.
  destruct (Z.eqb_spec (sg_length s) 0); [lia|]. rewrite !bind_Some_eq, (u32_small (offset + sg_length s)) by (unfold is_u32; lia).
  destruct (Z.ltb_spec start (offset + sg_length s)) as [Hlt|Hge].
  - eexists _, offset. split; [done|]. cbv zeta. rewrite u32_small by (unfold is_u32; lia).
    destruct (advance_ok s rest (sg_offset s) (start - offset) Hsg) as [Ead Hok]; [lia|lia|unfold sg_end; lia|]. rewrite Ead.
    split; [done|]. split; [exists s; split; [done|]; cbn; unfold sg_end; lia|]. rewrite <- Ea.
    rewrite (walk_addrs_split s rest (sg_offset s) (start - offset)) by (unfold sg_end; lia).
    rewrite drop_app_length' by (by rewrite length_seqZ). done.
  - cbn [scatterwalk_sg_next]. rewrite bind_Some_eq.
    destruct (IH (offset + sg_length s) fuel) as (w & o' & E & Hok & Hin & Ead); [cbn in Hf; lia|lia..|].
    exists w, o'. split; [done|]. split; [done|]. split; [done|]. rewrite Ead.
    unfold sgs_addrs at 2. cbn [map concat]. rewrite drop_app. unfold sg_addrs at 2. rewrite length_seqZ.
    rewrite (drop_ge (sg_addrs s)) by (unfold sg_addrs; rewrite length_seqZ; lia). cbn [app]. unfold sgs_addrs. f_equal. lia.
Qed.

Lemma map_and_copy_ok m buf sg start n out : Forall sg_ok sg -> 0 <= start -> 0 < n ->
  start + n <= Z.of_nat (length (sgs_addrs sg)) < 2 ^ 32 ->
  let A := take (Z.to_nat n) (drop (Z.to_nat start) (sgs_addrs sg)) in
  in_mem m buf n -> in_range m A -> NoDup A -> apart (seqZ buf n) A ->
  exists m', scatterwalk_map_and_copy m buf sg start n out = Some m' /\
    copied (fst (dir out (seqZ buf n) A)) (snd (dir out (seqZ buf n) A)) m m'.
Proof.
  intros Hsg Hs Hn Ht A Hb HA Hnd Hap. unfold scatterwalk_map_and_copy. rewrite (proj2 (truthy_true n)) by lia. cbn [negb].
  destruct (find_ok sg start 0 (S (length sg)) Hsg) as (w & o & E & Hok & Hin & Ead); [lia..|].
  change (c_loop (S (length sg)) _ (sg, 0)) with (c_loop (S (length sg)) (find_body start) (sg, 0)). rewrite E, bind_Some_eq.
  rewrite Z.sub_0_r in Ead. destruct (copychunks_ok m buf _ n out Hok Hin) as (m' & w' & E' & Hc & Hok' & Hvis & _); rewrite ?Ead; try done.
  { rewrite length_drop. lia. }
  exists m'. rewrite E', bind_Some_eq, (done_last m' w' out Hok' Hvis), bind_Some_eq. split; [done|]. by rewrite Ead in Hc.
Qed.

(** ** Properties *)

(** C33: [scatterwalk_map_and_copy] copies between a buffer and the [n] bytes that
    begin [start] bytes into a scatter list, in the direction asked for, across
    the borders of its areas and of the pages they are in, and changes nothing
    else. *)
Theorem map_and_copy_correct m buf sg start n : Forall sg_ok sg -> 0 <= start -> 0 < n ->
  start + n <= Z.of_nat (length (sgs_addrs sg)) < 2 ^ 32 ->
  let part := take (Z.to_nat n) (drop (Z.to_nat start) (sgs_addrs sg)) in
  in_mem m buf n -> in_range m part -> NoDup part -> apart (seqZ buf n) part ->
  (exists m', scatterwalk_map_and_copy m buf sg start n false = Some m' /\ rd m' buf n = gather m part /\ same_out (seqZ buf n) m m') /\
  (exists m', scatterwalk_map_and_copy m buf sg start n true = Some m' /\ gather m' part = rd m buf n /\ same_out part m m').
Proof.
  intros Hsg Hs Hn Ht part Hb HA Hnd Hap.
  destruct (map_and_copy_ok m buf sg start n false Hsg Hs Hn Ht Hb HA Hnd Hap) as (m1 & E1 & G1 & S1).
  destruct (map_and_copy_ok m buf sg start n true Hsg Hs Hn Ht Hb HA Hnd Hap) as (m2 & E2 & G2 & S2). cbn [dir fst snd] in *.
  split; [exists m1|exists m2]; (split; [done|]); (split; [|done]).
  - by rewrite <- gather_range by (unfold in_mem in *; rewrite (proj1 S1); lia).
  - by rewrite <- gather_range by done.
Qed.

Lemma map_and_copy_correct_witness : exists m',
  scatterwalk_map_and_copy (map Z.of_nat (seq 0 64)) 40 [Sg 0 0 5; Sg 0 20 6] 3 4 false = Some m' /\ rd m' 40 4 = [3; 4; 20; 21].
Proof.
  destruct (map_and_copy_correct (map Z.of_nat (seq 0 64)) 40 [Sg 0 0 5; Sg 0 20 6] 3 4) as [(m' & E & R & _) _].
  - repeat constructor; vm_compute; congruence.
  - lia.
  - lia.
  - change (Z.of_nat (length _)) with 11. lia.
  - unfold in_mem. change (blen _) with 64. lia.
  - repeat constructor; vm_compute; congruence.
  - change (NoDup [3; 4; 20; 21]). repeat constructor; rewrite ?list_elem_of_In; cbn; lia.
  - intros a Ha Hb. change (a ∈ [3; 4; 20; 21]) in Hb. apply elem_of_seqZ in Ha. apply list_elem_of_In in Hb. cbn in Hb. lia.
  - exists m'. split; [exact E|exact R].
Defined.
