(* ===== verification/BlkcipherWalk.v ===== *)
(** * Walking a request

    [crypto/blkcipher.c]: a request on scatter lists is cut into chunks that
    are contiguous in memory, in place where possible, through a page when the
    data is not aligned and through a small buffer when a block straddles pages.

    The fields of [struct blkcipher_walk] that the modes use are [w_cur]; a
    request never sets [BLKCIPHER_WALK_PHYS], so the virtual addresses are the
    ones in the unions.  The results of the allocators are a function of how
    many calls came before, with [0] for a failure; freeing has no effect on
    the bytes of the memory.  The fields that nobody initialised have the
    values of the first argument. *)

From S2P Require Import Prelude Bytes Mem LibString Cipher CryptoOps Modes Scatterwalk.
Open Scope c_scope.

Definition EDEADLK : Z := 35.

Definition BLKCIPHER_WALK_PHYS : Z := Z.shiftl 1 0.
Definition BLKCIPHER_WALK_SLOW : Z := Z.shiftl 1 1.
Definition BLKCIPHER_WALK_COPY : Z := Z.shiftl 1 2.
Definition BLKCIPHER_WALK_DIFF : Z := Z.shiftl 1 3.
Definition CRYPTO_TFM_RES_BAD_BLOCK_LEN : Z := 0x00800000.

(** [struct blkcipher_walk] and the environment of the call: the flags of the
    descriptor and the number of allocations so far. *)
Record walk_state := WalkState {
  w_cur : blkcipher_walk;
  w_in : scatter_walk;
  w_out : scatter_walk;
  w_total : Z;
  w_page : Z;
  w_buffer : Z;
  w_flags : Z;
  w_blocksize : Z;
  desc_flags : Z;
  w_calls : nat
}.

Definition ALIGN (x a : Z) : Z := u32 (x + (a - 1)) .& .~ (a - 1).

Definition has_walk_flag (w : walk_state) (f : Z) : bool := truthy (w_flags w .& f).

Section walk.
(** The transform: block size, size of the initialisation vector, alignment
    mask; [info] is [desc->info]; [irq] is [in_irq()]. *)
Context (blocksize ivsize alignmask ctx_alignment info : Z) (irq : bool).
Context (get_free_page : nat -> Z) (kmalloc : nat -> Z -> Z).

Definition set_cur (w : walk_state) (cur : blkcipher_walk) : walk_state :=
  WalkState cur (w_in w) (w_out w) (w_total w) (w_page w) (w_buffer w) (w_flags w) (w_blocksize w) (desc_flags w) (w_calls w).
Definition set_in (w : walk_state) (i : scatter_walk) : walk_state :=
  WalkState (w_cur w) i (w_out w) (w_total w) (w_page w) (w_buffer w) (w_flags w) (w_blocksize w) (desc_flags w) (w_calls w).
Definition set_out (w : walk_state) (o : scatter_walk) : walk_state :=
  WalkState (w_cur w) (w_in w) o (w_total w) (w_page w) (w_buffer w) (w_flags w) (w_blocksize w) (desc_flags w) (w_calls w).
Definition set_total (w : walk_state) (t : Z) : walk_state :=
  WalkState (w_cur w) (w_in w) (w_out w) t (w_page w) (w_buffer w) (w_flags w) (w_blocksize w) (desc_flags w) (w_calls w).
Definition set_page (w : walk_state) (p : Z) : walk_state :=
  WalkState (w_cur w) (w_in w) (w_out w) (w_total w) p (w_buffer w) (w_flags w) (w_blocksize w) (desc_flags w) (w_calls w).
Definition set_buffer (w : walk_state) (b : Z) : walk_state :=
  WalkState (w_cur w) (w_in w) (w_out w) (w_total w) (w_page w) b (w_flags w) (w_blocksize w) (desc_flags w) (w_calls w).
Definition set_flags (w : walk_state) (f : Z) : walk_state :=
  WalkState (w_cur w) (w_in w) (w_out w) (w_total w) (w_page w) (w_buffer w) f (w_blocksize w) (desc_flags w) (w_calls w).
Definition set_blocksize (w : walk_state) (b : Z) : walk_state :=
  WalkState (w_cur w) (w_in w) (w_out w) (w_total w) (w_page w) (w_buffer w) (w_flags w) b (desc_flags w) (w_calls w).
Definition set_desc_flags (w : walk_state) (f : Z) : walk_state :=
  WalkState (w_cur w) (w_in w) (w_out w) (w_total w) (w_page w) (w_buffer w) (w_flags w) (w_blocksize w) f (w_calls w).
Definition count_call (w : walk_state) : walk_state :=
  WalkState (w_cur w) (w_in w) (w_out w) (w_total w) (w_page w) (w_buffer w) (w_flags w) (w_blocksize w) (desc_flags w) (S (w_calls w)).

Definition set_nbytes (w : walk_state) (n : Z) : walk_state :=
  set_cur w (Walk n (walk_src (w_cur w)) (walk_dst (w_cur w)) (walk_iv (w_cur w))).
Definition set_addrs (w : walk_state) (src dst : Z) : walk_state :=
  set_cur w (Walk (walk_nbytes (w_cur w)) src dst (walk_iv (w_cur w))).
Definition set_iv (w : walk_state) (iv : Z) : walk_state :=
  set_cur w (Walk (walk_nbytes (w_cur w)) (walk_src (w_cur w)) (walk_dst (w_cur w)) iv).

(** ** Finishing a chunk *)

Definition blkcipher_get_spot (start len : Z) : Z :=
  let end_page := u32 (start + len - 1) .& PAGE_MASK in
  Z.max start end_page.

Definition blkcipher_done_slow (m : mem) (w : walk_state) (bsize : Z) : option (mem * walk_state * Z) :=
  let addr := ALIGN (w_buffer w) (alignmask + 1) in
  let addr := blkcipher_get_spot addr bsize in
  '(m, out) ← scatterwalk_copychunks m addr (w_out w) bsize true;
  Some (m, set_out w out, bsize).

Definition blkcipher_done_fast (m : mem) (w : walk_state) (n : Z) : option (mem * walk_state * Z) :=
  m ← (if has_walk_flag w BLKCIPHER_WALK_COPY then
         addr ← scatterwalk_map (w_out w);
         '(m, _) ← memcpy m addr (w_page w) n;
         Some m
       else Some m);
  Some (m, set_out (set_in w (scatterwalk_advance (w_in w) n)) (scatterwalk_advance (w_out w) n), n).

(** The end of a walk ([nbytes] is 0). *)
Definition blkcipher_walk_finish (m : mem) (w : walk_state) (err : Z) : option (mem * walk_state * Z) :=
  let w := set_nbytes (set_total w 0) 0 in
  m ← (if negb (walk_iv (w_cur w) =? info) then
         '(m, _) ← memcpy m info (walk_iv (w_cur w)) ivsize; Some m
       else Some m);
  Some (m, w, err).

(** [blkcipher_walk_done] with a negative [err]. *)
Definition blkcipher_walk_fail (m : mem) (w : walk_state) (err : Z) : option (mem * walk_state * Z) :=
  i ← scatterwalk_done m (w_in w) false 0;
  o ← scatterwalk_done m (w_out w) true 0;
  blkcipher_walk_finish m (set_out (set_in w i) o) err.

(** ** The next chunk *)

Definition blkcipher_next_slow (m : mem) (w : walk_state) (bsize : Z) : option (mem * walk_state * Z) :=
  let aligned_bsize := ALIGN bsize (alignmask + 1) in
  let w := if truthy (w_buffer w) then w else set_buffer w (w_page w) in
  let n := u32 (aligned_bsize * 3 - (alignmask + 1) + (alignmask .& .~ (ctx_alignment - 1))) in
  let w := if truthy (w_buffer w) then w else count_call (set_buffer w (kmalloc (w_calls w) n)) in
  if negb (truthy (w_buffer w)) then blkcipher_walk_fail m w (- ENOMEM) else
  let dst := blkcipher_get_spot (ALIGN (w_buffer w) (alignmask + 1)) bsize in
  let src := blkcipher_get_spot (u32 (dst + aligned_bsize)) bsize in
  '(m, i) ← scatterwalk_copychunks m src (w_in w) bsize false;
  let w := set_nbytes (set_addrs (set_in w i) src dst) bsize in
  Some (m, set_flags w (w_flags w .| BLKCIPHER_WALK_SLOW), 0).

Definition blkcipher_next_copy (m : mem) (w : walk_state) : option (mem * walk_state * Z) :=
  let tmp := w_page w in
  addr ← scatterwalk_map (w_in w);
  '(m, _) ← memcpy m tmp addr (walk_nbytes (w_cur w));
  Some (m, set_addrs w tmp tmp, 0).

Definition blkcipher_next_fast (m : mem) (w : walk_state) : option (mem * walk_state * Z) :=
  src_page ← scatterwalk_page (w_in w);
  dst_page ← scatterwalk_page (w_out w);
  let diff := u32 (offset_in_page (sw_offset (w_in w)) - offset_in_page (sw_offset (w_out w))) .|
              u32 (src_page - dst_page) in
  src ← scatterwalk_map (w_in w);
  if truthy diff then
    dst ← scatterwalk_map (w_out w);
    Some (m, set_addrs (set_flags w (w_flags w .| BLKCIPHER_WALK_DIFF)) src dst, 0)
  else Some (m, set_addrs w src src, 0).

Definition blkcipher_walk_next (m : mem) (w : walk_state) : option (mem * walk_state * Z) :=
  let n := w_total w in
  if n <? blocksize then
    blkcipher_walk_fail m (set_desc_flags w (desc_flags w .| CRYPTO_TFM_RES_BAD_BLOCK_LEN)) (- EINVAL)
  else
    let w := set_flags w (w_flags w .& .~ (BLKCIPHER_WALK_SLOW .| BLKCIPHER_WALK_COPY .| BLKCIPHER_WALK_DIFF)) in
    let '(w, n) :=
      if negb (scatterwalk_aligned (w_in w) alignmask) || negb (scatterwalk_aligned (w_out w) alignmask) then
        let w := set_flags w (w_flags w .| BLKCIPHER_WALK_COPY) in
        let w := if truthy (w_page w) then w else count_call (set_page w (get_free_page (w_calls w))) in
        (w, if truthy (w_page w) then n else 0)
      else (w, n) in
    let bsize := Z.min (w_blocksize w) n in
    n ← scatterwalk_clamp (w_in w) n;
    n ← scatterwalk_clamp (w_out w) n;
    if n <? bsize then blkcipher_next_slow m w bsize
    else
      let w := set_nbytes w n in
      if has_walk_flag w BLKCIPHER_WALK_COPY then blkcipher_next_copy m w else blkcipher_next_fast m w.

(** ** The interface *)

Definition blkcipher_walk_done (m : mem) (w : walk_state) (err : Z) : option (mem * walk_state * Z) :=
  if 0 <=? err then
    let n := u32 (walk_nbytes (w_cur w) - err) in
    if has_walk_flag w BLKCIPHER_WALK_SLOW && truthy err then blkcipher_walk_finish m w (- EINVAL)
    else
      '(m, w, n) ← (if has_walk_flag w BLKCIPHER_WALK_SLOW then blkcipher_done_slow m w n else blkcipher_done_fast m w n);
      let nbytes := u32 (w_total w - n) in
      i ← scatterwalk_done m (w_in w) false nbytes;
      o ← scatterwalk_done m (w_out w) true nbytes;
      let w := set_out (set_in w i) o in
      if truthy nbytes then blkcipher_walk_next m (set_nbytes (set_total w nbytes) nbytes)
      else blkcipher_walk_finish m w 0
  else blkcipher_walk_fail m w err.

Definition blkcipher_copy_iv (m : mem) (w : walk_state) : option (mem * walk_state * Z) :=
  let bs := w_blocksize w in
  let aligned_bs := ALIGN bs (alignmask + 1) in
  let size := u32 (aligned_bs * 2 + ivsize + Z.max aligned_bs ivsize - (alignmask + 1)) in
  let size := u32 (size + (alignmask .& .~ (ctx_alignment - 1))) in
  let w := count_call (set_buffer w (kmalloc (w_calls w) size)) in
  if negb (truthy (w_buffer w)) then Some (m, w, - ENOMEM) else
  let iv := ALIGN (w_buffer w) (alignmask + 1) in
  let iv := u32 (blkcipher_get_spot iv bs + aligned_bs) in
  let iv := u32 (blkcipher_get_spot iv bs + aligned_bs) in
  let iv := blkcipher_get_spot iv ivsize in
  '(m, iv) ← memcpy m iv (walk_iv (w_cur w)) ivsize;
  Some (m, set_iv w iv, 0).

Definition blkcipher_walk_first (m : mem) (w : walk_state) : option (mem * walk_state * Z) :=
  if irq then Some (m, w, - EDEADLK) else
  let w := set_nbytes w (w_total w) in
  if negb (truthy (w_total w)) then Some (m, w, 0) else
  let w := set_iv (set_buffer w 0) info in
  '(m, w, err) ← (if truthy (walk_iv (w_cur w) .& alignmask) then blkcipher_copy_iv m w else Some (m, w, 0));
  if truthy err then Some (m, w, err) else
  i ← scatterwalk_start (sw_sg (w_in w));
  o ← scatterwalk_start (sw_sg (w_out w));
  blkcipher_walk_next m (set_page (set_out (set_in w i) o) 0).

Definition blkcipher_walk_init (w : walk_state) (dst src : list scatterlist) (nbytes : Z) : walk_state :=
  set_total (set_out (set_in w (ScatterWalk src (sw_offset (w_in w)))) (ScatterWalk dst (sw_offset (w_out w)))) nbytes.

Definition blkcipher_walk_virt (m : mem) (w : walk_state) : option (mem * walk_state * Z) :=
  blkcipher_walk_first m (set_blocksize (set_flags w (w_flags w .& .~ BLKCIPHER_WALK_PHYS)) blocksize).

Definition blkcipher_walk_virt_block (m : mem) (w : walk_state) (bsize : Z) : option (mem * walk_state * Z) :=
  blkcipher_walk_first m (set_blocksize (set_flags w (w_flags w .& .~ BLKCIPHER_WALK_PHYS)) bsize).

End walk.
