(* ===== verification/BlkcipherWalkCorrect.v ===== *)
(** * Walking a request: correctness

    The chunks that [blkcipher_walk_next] cuts off a request, one turn of the
    loop of a mode, and whole requests. *)

From S2P Require Import Prelude Bytes Mem LibString LibStringCorrect Cipher CryptoOps Modes ModesCorrect ModesLoops ModesTheorems.
From S2P Require Import Scatterwalk ScatterwalkCorrect BlkcipherWalk.
Open Scope c_scope.

(** ** Spots in a buffer *)

Lemma ALIGN_ok x k : 0 <= k -> 0 <= x -> x + 2 ^ k <= 2 ^ 32 ->
  x <= ALIGN x (2 ^ k) < x + 2 ^ k /\ ALIGN x (2 ^ k) mod 2 ^ k = 0 /\ (x mod 2 ^ k = 0 -> ALIGN x (2 ^ k) = x).
Proof.
  intros Hk Hx Hm. pose proof (Z.pow_pos_nonneg 2 k ltac:(lia) Hk) as Hp. unfold ALIGN.
  rewrite u32_small, land_not32_mask by (unfold is_u32; lia). set (a := 2 ^ k) in *.
  pose proof (Z.mod_pos_bound (x + (a - 1)) a Hp). split; [lia|]. split.
  - rewrite Zminus_mod_idemp_r, Z.sub_diag. apply Z.mod_0_l. lia.
  - intros E. rewrite <- Zplus_mod_idemp_l, E, Z.add_0_l, Z.mod_small by lia. lia.
Qed.

Lemma divide_page a c : 0 <= c <= PAGE_SHIFT -> a mod PAGE_SIZE = 0 -> a mod 2 ^ c = 0.
Proof.
  intros Hc Ha. pose proof (Z.pow_pos_nonneg 2 c ltac:(lia) ltac:(lia)). apply Z.mod_divide in Ha; [|done]. apply Z.mod_divide; [lia|].
  eapply Z.divide_trans; [|exact Ha]. change PAGE_SIZE with (2 ^ 12). exists (2 ^ (12 - c)). rewrite <- Z.pow_add_r by (unfold PAGE_SHIFT in Hc; lia).
  f_equal. lia.
Qed.

(** A spot of [len] bytes at or after [start] that is in one page. *)
Lemma get_spot_ok start len k : 0 <= start -> 0 < len -> start + len <= 2 ^ 32 -> 0 <= k <= PAGE_SHIFT -> start mod 2 ^ k = 0 ->
  let p := blkcipher_get_spot start len in
  start <= p /\ p mod 2 ^ k = 0 /\ p < start + len /\ (p = start \/ p mod PAGE_SIZE = 0).
Proof.
  intros Hs Hl Hm Hk Ha. cbv zeta. unfold blkcipher_get_spot, PAGE_MASK. change (PAGE_SIZE - 1) with (2 ^ 12 - 1).
  rewrite u32_small, land_not32_mask by (unfold is_u32; lia). change (2 ^ 12) with PAGE_SIZE.
  set (e := start + len - 1). pose proof (Z.mod_pos_bound e PAGE_SIZE ltac:(done)) as He.
  assert ((e - e mod PAGE_SIZE) mod PAGE_SIZE = 0) as Hpg by (rewrite Zminus_mod_idemp_r, Z.sub_diag; done).
  destruct (Z.max_spec start (e - e mod PAGE_SIZE)) as [[Hlt ->]|[Hle ->]].
  - split; [lia|]. split; [by apply divide_page|]. split; [lia | by right].
  - split; [lia|]. split; [done|]. split; [lia | by left].
Qed.

(** The two spots that [blkcipher_next_slow] uses. *)
Definition dst_spot (alignmask b bsize : Z) : Z := blkcipher_get_spot (ALIGN b (alignmask + 1)) bsize.
Definition src_spot (alignmask b bsize : Z) : Z :=
  blkcipher_get_spot (u32 (dst_spot alignmask b bsize + ALIGN bsize (alignmask + 1))) bsize.

Lemma mult_lt x y a : 0 < a -> x mod a = 0 -> y mod a = 0 -> x < y -> x + a <= y.
Proof.
  intros Ha Hx Hy Hlt. apply Z.mod_divide in Hx as [u ->]; [|lia]. apply Z.mod_divide in Hy as [v ->]; [|lia]. apply Z.mul_lt_mono_pos_r in Hlt; [|lia]. nia.
Qed.

Lemma mod_plus x y a : x mod a = 0 -> y mod a = 0 -> (x + y) mod a = 0.
Proof. intros Hx Hy. by rewrite <- Zplus_mod_idemp_l, Hx. Qed.

Lemma two_spots b k bsize : 0 <= k <= PAGE_SHIFT -> 0 < bsize -> 2 * (bsize + 2 ^ k) <= PAGE_SIZE -> 0 <= b -> b + 3 * PAGE_SIZE <= 2 ^ 32 ->
  let b0 := ALIGN b (2 ^ k) in let ab := ALIGN bsize (2 ^ k) in
  let d := dst_spot (2 ^ k - 1) b bsize in let s := src_spot (2 ^ k - 1) b bsize in
  bsize <= ab /\ b0 <= d /\ d + ab <= s /\ s + bsize <= b0 + (3 * ab - 2 ^ k).
Proof.
  intros Hk Hb H2 Hb0 Hm b0 ab. cbv zeta. unfold src_spot, dst_spot. replace (2 ^ k - 1 + 1) with (2 ^ k) by lia. fold b0 ab.
  pose proof (Z.pow_pos_nonneg 2 k ltac:(lia) ltac:(lia)) as Hp. rewrite page_size in *.
  destruct (ALIGN_ok bsize k) as (Hab & Eab & _); [lia..|]. destruct (ALIGN_ok b k) as (Hbb & Ebb & _); [lia..|]. fold ab in Hab, Eab.
  fold b0 in Hbb, Ebb. destruct (get_spot_ok b0 bsize k) as (D1 & D2 & D3 & D4); [lia..|done|]. set (d := blkcipher_get_spot b0 bsize) in *.
  rewrite u32_small by (unfold is_u32; lia).
  destruct (get_spot_ok (d + ab) bsize k) as (S1 & S2 & S3 & S4); [lia..|by apply mod_plus|]. set (s := blkcipher_get_spot (d + ab) bsize) in *.
  split; [lia|]. split; [lia|]. split; [lia|]. rewrite page_size in *.
  pose proof (mult_lt d (b0 + ab) (2 ^ k) Hp D2 (mod_plus _ _ _ Ebb Eab) ltac:(lia)).
  pose proof (mult_lt s (d + ab + ab) (2 ^ k) Hp S2 (mod_plus _ _ _ (mod_plus _ _ _ D2 Eab) Eab) ltac:(lia)).
  destruct D4 as [D4|D4]; [lia|]. destruct S4 as [S4|S4]; [lia|].
  pose proof (mult_lt d s 4096 ltac:(lia) D4 S4 ltac:(lia)). lia.
Qed.

(** In a page of its own. *)
Lemma page_spots p k bsize : 0 <= k <= PAGE_SHIFT -> 0 < bsize -> 2 * (bsize + 2 ^ k) <= PAGE_SIZE -> 0 <= p -> p + 3 * PAGE_SIZE <= 2 ^ 32 ->
  p mod PAGE_SIZE = 0 ->
  p <= dst_spot (2 ^ k - 1) p bsize /\ src_spot (2 ^ k - 1) p bsize + bsize <= p + PAGE_SIZE.
Proof.
  intros Hk Hb H2 Hb0 Hm Hpg. unfold src_spot, dst_spot. replace (2 ^ k - 1 + 1) with (2 ^ k) by lia.
  pose proof (Z.pow_pos_nonneg 2 k ltac:(lia) ltac:(lia)) as Hp. pose proof (divide_page p k Hk Hpg) as Hpk. rewrite page_size in *.
  destruct (ALIGN_ok bsize k) as (Hab & Eab & _); [lia..|]. destruct (ALIGN_ok p k) as (_ & _ & Ep); [lia..|]. rewrite Ep by done.
  destruct (get_spot_ok p bsize k) as (D1 & D2 & D3 & D4); [lia..|done|]. set (d := blkcipher_get_spot p bsize) in *.
  set (ab := ALIGN bsize (2 ^ k)) in *. rewrite page_size in *. rewrite u32_small by (unfold is_u32; lia). split; [done|].
  assert (d = p) as ->.
  { destruct D4 as [|D4]; [done|]. destruct (decide (p < d)) as [Hlt|]; [|lia]. pose proof (mult_lt p d 4096 ltac:(lia) Hpg D4 Hlt). lia. }
  destruct (get_spot_ok (p + ab) bsize k) as (S1 & S2 & S3 & S4); [lia..|by apply mod_plus|]. rewrite page_size in *.
  destruct S4 as [->|S4]; [lia|]. pose proof (mult_lt p _ 4096 ltac:(lia) Hpg S4 ltac:(lia)). lia.
Qed.

(** The spot of the chaining value, behind the two others. *)
Definition iv_spot (alignmask b bsize : Z) : Z :=
  blkcipher_get_spot (u32 (src_spot alignmask b bsize + ALIGN bsize (alignmask + 1))) bsize.

Lemma get_spot_mono s s' l l' : 0 <= s <= s' -> 0 < l <= l' -> s' + l' <= 2 ^ 32 -> blkcipher_get_spot s l <= blkcipher_get_spot s' l'.
Proof.
  intros Hs Hl Hm. unfold blkcipher_get_spot, PAGE_MASK. change (PAGE_SIZE - 1) with (2 ^ 12 - 1).
  rewrite !u32_small, !land_not32_mask by (unfold is_u32; lia). change (2 ^ 12) with 4096. Z.div_mod_to_equations. lia.
Qed.

(** The slots grow with the size of the block. *)
Lemma ALIGN_mono x y k : 0 <= k -> 0 <= x <= y -> y + 2 ^ k <= 2 ^ 32 -> ALIGN x (2 ^ k) <= ALIGN y (2 ^ k).
Proof.
  intros Hk Hx Hy. pose proof (Z.pow_pos_nonneg 2 k ltac:(lia) Hk) as Hp. destruct (ALIGN_ok x k) as (X1 & X2 & _); [lia..|].
  destruct (ALIGN_ok y k) as (Y1 & Y2 & _); [lia..|]. destruct (decide (ALIGN x (2 ^ k) <= ALIGN y (2 ^ k))) as [|Hgt]; [done|].
  pose proof (mult_lt _ _ _ Hp Y2 X2 ltac:(lia)). lia.
Qed.

Section three_spots.
Context (b k bsize : Z) (Hk : 0 <= k <= PAGE_SHIFT) (Hb : 0 < bsize) (Hsmall : 4 * (bsize + 2 ^ k) <= PAGE_SIZE).
Context (Hb0 : 0 <= b) (Hm : b + 3 * PAGE_SIZE <= 2 ^ 32).
Abbreviation ab := (ALIGN bsize (2 ^ k)).
Abbreviation dsp := (dst_spot (2 ^ k - 1) b).
Abbreviation ssp := (src_spot (2 ^ k - 1) b).
Abbreviation vsp := (iv_spot (2 ^ k - 1) b bsize).

Lemma three_spots : bsize <= ab /\ ssp bsize + ab <= vsp /\ vsp mod 2 ^ k = 0 /\ vsp <= ALIGN b (2 ^ k) + 3 * ab - 2 ^ k.
Proof using All.
  destruct (two_spots b k bsize) as (H1 & H2 & H3 & H4); [done|done|lia..|].
  unfold iv_spot. pose proof H3 as H3'. pose proof H4 as H4'. unfold src_spot in H3', H4' |- *. unfold dst_spot in H2, H3', H4' |- *.
  replace (2 ^ k - 1 + 1) with (2 ^ k) in * by lia.
  pose proof (Z.pow_pos_nonneg 2 k ltac:(lia) ltac:(lia)) as Hp. pose proof page_size as Eps. rewrite Eps in *.
  destruct (ALIGN_ok bsize k) as (Hab & Eab & _); [lia..|]. destruct (ALIGN_ok b k) as (Hbb & Ebb & _); [lia..|].
  destruct (get_spot_ok (ALIGN b (2 ^ k)) bsize k) as (D1 & D2 & D3 & D4); [lia..|done|]. set (d := blkcipher_get_spot (ALIGN b (2 ^ k)) bsize) in *.
  rewrite (u32_small (d + ab)) in * by (unfold is_u32; lia).
  destruct (get_spot_ok (d + ab) bsize k) as (S1 & S2 & S3 & S4); [lia..|by apply mod_plus|]. set (s := blkcipher_get_spot (d + ab) bsize) in *.
  rewrite (u32_small (s + ab)) in * by (unfold is_u32; lia).
  destruct (get_spot_ok (s + ab) bsize k) as (V1 & V2 & V3 & V4); [lia..|by apply mod_plus|]. set (v := blkcipher_get_spot (s + ab) bsize) in *.
  split; [done|]. split; [done|]. split; [done|]. rewrite Eps in *.
  pose proof (mult_lt d (ALIGN b (2 ^ k) + ab) (2 ^ k) Hp D2 (mod_plus _ _ _ Ebb Eab) ltac:(lia)).
  pose proof (mult_lt s (d + ab + ab) (2 ^ k) Hp S2 (mod_plus _ _ _ (mod_plus _ _ _ D2 Eab) Eab) ltac:(lia)).
  pose proof (mult_lt v (s + ab + ab) (2 ^ k) Hp V2 (mod_plus _ _ _ (mod_plus _ _ _ S2 Eab) Eab) ltac:(lia)).
  assert (forall x y, x mod 4096 = 0 -> y mod 4096 = 0 -> x < y -> y - x < 4096 -> False) as Hpg.
  { intros x y Hx Hy Hlt Hn. pose proof (mult_lt x y 4096 ltac:(lia) Hx Hy Hlt). lia. }
  destruct D4 as [D4|D4]; destruct S4 as [S4|S4]; destruct V4 as [V4|V4]; try lia; exfalso.
  - apply (Hpg s v); [done..|lia|lia].
  - apply (Hpg d v); [done..|lia|lia].
  - apply (Hpg d s); [done..|lia|lia].
  - apply (Hpg d s); [done..|lia|lia].
Qed.

(** The spots of a smaller block are before it too. *)
Lemma spots_before x : 0 < x <= bsize -> ALIGN b (2 ^ k) <= dsp x /\ dsp x + x <= ssp x /\ ssp x + x <= vsp.
Proof using All.
  intros Hx. destruct three_spots as (T1 & T2 & _ & T3).
  destruct (two_spots b k x) as (H1 & H2 & H3 & H4); [done|lia..|]. destruct (two_spots b k bsize) as (B1 & B2 & B3 & B4); [done|done|lia..|].
  pose proof (Z.pow_pos_nonneg 2 k ltac:(lia) ltac:(lia)) as Hp. rewrite page_size in *. destruct (ALIGN_ok bsize k) as (Hab & _ & _); [lia..|].
  destruct (ALIGN_ok b k) as (Hbb & _ & _); [lia..|].
  split; [done|]. split; [lia|]. assert (ssp x <= ssp bsize); [|lia]. pose proof (ALIGN_mono x bsize k ltac:(lia) ltac:(lia) ltac:(lia)) as Hm'.
  assert (dsp x <= dsp bsize) as Hd by (unfold dst_spot; apply get_spot_mono; replace (2 ^ k - 1 + 1) with (2 ^ k) by lia; lia).
  unfold src_spot. replace (2 ^ k - 1 + 1) with (2 ^ k) by lia. rewrite !u32_small by (unfold is_u32; lia). apply get_spot_mono; lia.
Qed.
End three_spots.

(** ** Blocks of a byte string *)

Definition cut (n k : nat) (L : list Z) : list (list Z) := map (fun i => take n (drop (i * n) L)) (seq 0 k).

Lemma cut_app n a b L : cut n (a + b) L = cut n a L ++ cut n b (drop (a * n) L).
Proof.
  unfold cut. rewrite seq_app, map_app. f_equal. cbn [Nat.add]. rewrite <- (Nat.add_0_r a) at 1. rewrite <- fmap_add_seq, map_map.
  apply map_ext. intros i. rewrite drop_drop. do 2 f_equal. lia.
Qed.

Lemma cut_prefix n k L L' : (k * n <= length L)%nat -> cut n k (L ++ L') = cut n k L.
Proof.
  intros H. unfold cut. apply map_ext_in. intros i Hi. apply in_seq in Hi. assert (i * n + n <= length L)%nat as Hl by nia.
  rewrite drop_app_le, take_app_le by (rewrite ?length_drop; lia). done.
Qed.

Lemma blk_cut alg m src nb : in_mem m src (Z.of_nat nb * bsize alg) ->
  map (blk alg m src) (seq 0 nb) = cut (cra_blocksize alg) nb (rd m src (Z.of_nat nb * bsize alg)).
Proof.
  intros Hin. unfold cut. apply map_ext_in. intros i Hi. apply in_seq in Hi. unfold blk, bsize in *.
  assert (Z.of_nat i * Z.of_nat (cra_blocksize alg) + Z.of_nat (cra_blocksize alg) <= Z.of_nat nb * Z.of_nat (cra_blocksize alg)) as Hl by nia.
  rewrite <- (rd_rd m src (Z.of_nat nb * Z.of_nat (cra_blocksize alg)) (Z.of_nat i * Z.of_nat (cra_blocksize alg))) by (done || nia).
  unfold rd at 1. rewrite Nat2Z.id. do 2 f_equal. lia.
Qed.

Lemma cut_blocks n k L : Forall is_byte L -> (k * n <= length L)%nat -> Forall (block n) (cut n k L).
Proof.
  intros HL Hl. apply Forall_map, Forall_forall. intros i Hi. apply in_seq in Hi. split.
  - rewrite length_take, length_drop. nia.
  - by apply Forall_take, Forall_drop.
Qed.

(** ** What a mode promises for a chunk *)

Class ChunkLaws (alg : crypto_alg) (tmp : Z) (F : mem -> blkcipher_walk -> option (mem * Z)) (st : mode_step) : Prop := {
  chunk_step_ok : step_ok (cra_blocksize alg) st;
  chunk_law nb r m src dst iv : chunk alg nb r m src dst iv -> local_array alg nb m tmp src dst iv ->
    exists m', F m (Walk (Z.of_nat nb * bsize alg + r) src dst iv) = Some (m', r) /\ bytes_ok m' /\
      rd m' dst (Z.of_nat nb * bsize alg) =
        fst (run st (rd m iv (bsize alg)) (cut (cra_blocksize alg) nb (rd m src (Z.of_nat nb * bsize alg)))) /\
      rd m' iv (bsize alg) = snd (run st (rd m iv (bsize alg)) (cut (cra_blocksize alg) nb (rd m src (Z.of_nat nb * bsize alg)))) /\
      same_out (seqZ dst (Z.of_nat nb * bsize alg) ++ seqZ iv (bsize alg) ++ seqZ tmp (bsize alg)) m m'
}.

Lemma zth_out m a : blen m <= a -> zth m a = 0.
Proof.
  intros H. unfold zth, arr_get. destruct (Z.leb_spec 0 a); [|done]. rewrite lookup_ge_None_2; [done|]. unfold blen in H. lia.
Qed.

Lemma same_out_frame m m' W : blen m' = blen m -> (forall a, 0 <= a < blen m -> a ∉ W -> rd m' a 1 = rd m a 1) -> same_out W m m'.
Proof.
  intros L H. split; [done|]. intros a Ha Hn. destruct (decide (a < blen m)) as [Hlt|Hge]; [|by rewrite !zth_out by lia].
  specialize (H a ltac:(lia) Hn). rewrite <- !gather_range in H by (unfold in_mem; lia). by injection H.
Qed.

Lemma disjoint_1 p n a : a ∉ seqZ p n -> 0 <= n -> disjoint p n a 1.
Proof. intros H Hn. rewrite elem_of_seqZ in H. unfold disjoint. lia. Qed.

Lemma chunk_laws alg ctx_wf `{!CipherLaws alg ctx_wf} ctx tmp md : ctx_wf ctx -> is_power_of_2 (bsize alg) = true ->
  ChunkLaws alg tmp (encrypt_chunk alg ctx md tmp) (enc_step alg ctx md) /\
  ChunkLaws alg tmp (decrypt_chunk alg ctx md tmp) (dec_step alg ctx md).
Proof.
  intros Hctx Hp. destruct (mode_steps_ok alg ctx_wf ctx Hctx md) as (He & Hd & _).
  assert (forall F st, step_ok (cra_blocksize alg) st -> (forall nb r m src dst iv, chunk alg nb r m src dst iv ->
    local_array alg nb m tmp src dst iv -> computes alg nb r m src dst iv tmp (F m (Walk (Z.of_nat nb * bsize alg + r) src dst iv)) st) ->
    ChunkLaws alg tmp F st) as H.
  { intros F st Hst HF. split; [done|]. intros nb r m src dst iv Hc Hl. destruct (HF _ _ _ _ _ _ Hc Hl) as (t & Ht & E).
    destruct (with_typed alg ctx_wf ctx Hctx nb r m src dst iv Hc tmp Hl Hp t Ht st Hst) as [Hb Hlen].
    destruct (with_reads alg ctx_wf ctx Hctx nb r m src dst iv Hc tmp Hl Hp t Ht st Hst) as [R1 R2].
    pose proof (with_frame alg ctx_wf ctx Hctx nb r m src dst iv Hc tmp Hl Hp t Ht st Hst) as Hf.
    unfold chain in R1, R2. rewrite blk_cut in R1, R2 by apply Hc. eexists. split; [exact E|]. do 3 (split; [done|]).
    apply same_out_frame; [unfold blen; lia|]. intros a Ha Hn. rewrite !not_elem_of_app in Hn. destruct Hn as (N1 & N2 & N3).
    pose proof (bsize_pos alg ctx_wf). apply Hf; [unfold in_mem; lia|apply disjoint_1; [done|lia]..]. }
  split; apply H; try done; intros; by apply (chunk_ok alg ctx_wf).
Qed.

(** ** A contiguous part at a cursor *)

Record contiguous (w : scatter_walk) (p n : Z) : Prop := Contiguous {
  co_map : scatterwalk_map w = Some p;
  co_addrs : take (Z.to_nat n) (walk_addrs w) = seqZ p n;
  co_advance x : 0 <= x <= n -> walk_ok (scatterwalk_advance w x) /\
    walk_addrs (scatterwalk_advance w x) = drop (Z.to_nat x) (walk_addrs w);
  co_visited m x : 0 < x <= n -> in_range m (seqZ p x) -> visited m (scatterwalk_advance w x)
}.

Lemma take_seqZ p n n' : 0 <= n' <= n -> take (Z.to_nat n') (seqZ p n) = seqZ p n'.
Proof.
  intros H. replace n with (n' + (n - n')) by lia. rewrite seqZ_app by lia. apply take_app_length'. by rewrite length_seqZ.
Qed.

Lemma contiguous_sub w p n n' : 0 <= n' <= n -> contiguous w p n -> contiguous w p n'.
Proof.
  intros Hn [H1 H2 H3 H4]. split; [done| |intros x Hx; apply H3; lia|intros m x Hx; apply H4; lia].
  rewrite <- (take_seqZ p n) by done. rewrite <- H2, take_take. f_equal. lia.
Qed.

Lemma clamp_ok w n : walk_ok w -> walk_in w -> 0 < n ->
  exists n' p, scatterwalk_clamp w n = Some n' /\ 0 < n' <= n /\ n' <= PAGE_SIZE /\ contiguous w p n'.
Proof.
  intros (s & rest & E & Hsg & Ho) (s' & Es & Hlt) Hn. destruct w as [sg off]. cbn [sw_sg sw_offset] in *. subst sg. injection Es as <-.
  pose proof Hsg as Hs. apply Forall_cons_1 in Hs as [Hs _]. unfold scatterwalk_clamp. rewrite pagelen_ok, bind_Some_eq by done.
  pose proof Hs as (H1 & H2 & H3 & H4). set (n' := if page_rest s off <? n then page_rest s off else n).
  assert (0 < n' <= n /\ n' <= PAGE_SIZE /\ off + n' <= sg_end s) as (Hn1 & Hn2 & Hn3).
  { unfold n', page_rest. pose proof (Z.mod_pos_bound off PAGE_SIZE ltac:(done)).
    destruct (Z.ltb_spec (Z.min (sg_end s - off) (PAGE_SIZE - off mod PAGE_SIZE)) n); lia. }
  exists n', (sg_page s * PAGE_SIZE + off). do 3 (split; [done|]). split.
  - apply map_ok. lia.
  - rewrite (walk_addrs_split s rest off n') by lia. apply take_app_length'. by rewrite length_seqZ.
  - intros x Hx. destruct (advance_ok s rest off x Hsg) as [-> Hok]; [lia..|]. split; [done|].
    rewrite (walk_addrs_split s rest off x) by lia. by rewrite drop_app_length' by (by rewrite length_seqZ).
  - intros m x Hx Hr. destruct (advance_ok s rest off x Hsg) as [-> Hok]; [lia..|]. exists s. split; [done|]. cbn [sw_offset].
    apply in_range_mem in Hr; [|lia]. unfold in_mem in Hr. lia.
Qed.
