(* ===== verification/ModesRequest.v ===== *)
(** * Modes of operation: requests

    The functions of [crypto/cbc.c], [crypto/pcbc.c], [crypto/ecb.c] and
    [crypto/ctr.c] that process a request on scatter lists: they walk over it
    and run the loop of the mode on each chunk.  [walk] is the uninitialised
    local variable, [tmp] the address of the local array of the loop. *)

From S2P Require Import Prelude Bytes Mem LibString Cipher CryptoOps Modes Scatterwalk BlkcipherWalk.
Open Scope c_scope.

Section requests.
Context (alg : crypto_alg) (ctx : cra_ctx alg).
Context (alignmask ctx_alignment info : Z) (irq : bool) (get_free_page : nat -> Z) (kmalloc : nat -> Z -> Z).
Abbreviation bs := (bsize alg).

(** [while ((nbytes = walk.nbytes))]. *)
Definition crypt_loop (blocksize ivsize : Z) (chunk : mem -> blkcipher_walk -> option (mem * Z)) (fuel : nat)
    (st : mem * walk_state * Z) : option (mem * walk_state * Z) :=
  c_loop fuel (fun '(m, walk, err) =>
    if truthy (walk_nbytes (w_cur walk)) then
      '(m, nbytes) ← chunk m (w_cur walk);
      st ← blkcipher_walk_done blocksize ivsize alignmask ctx_alignment info get_free_page kmalloc m walk nbytes;
      Some (inl st)
    else Some (inr (m, walk, err))) st.

(** The template instances have the block size of the cipher. *)
Definition crypt_request (ivsize : Z) (chunk : mem -> blkcipher_walk -> option (mem * Z)) (m : mem) (walk : walk_state)
    (dst src : list scatterlist) (nbytes : Z) : option (mem * walk_state * Z) :=
  st ← blkcipher_walk_virt bs ivsize alignmask ctx_alignment info irq get_free_page kmalloc m (blkcipher_walk_init walk dst src nbytes);
  crypt_loop bs ivsize chunk (count_fuel nbytes) st.

Definition crypto_cbc_encrypt := crypt_request bs (crypto_cbc_encrypt_chunk alg ctx).
Definition crypto_cbc_decrypt (tmp : Z) := crypt_request bs (crypto_cbc_decrypt_chunk alg ctx tmp).
Definition crypto_pcbc_encrypt (tmp : Z) := crypt_request bs (crypto_pcbc_encrypt_chunk alg ctx tmp).
Definition crypto_pcbc_decrypt (tmp : Z) := crypt_request bs (crypto_pcbc_decrypt_chunk alg ctx tmp).

Definition crypto_ecb_crypt (fn : mem -> Z -> Z -> option mem) := crypt_request 0 (crypto_ecb_crypt_chunk alg fn).
Definition crypto_ecb_encrypt := crypto_ecb_crypt (encrypt_fn alg ctx).
Definition crypto_ecb_decrypt := crypto_ecb_crypt (decrypt_fn alg ctx).

(** The counter mode instance has the block size 1. *)
Definition crypto_ctr_crypt (tmp : Z) (m : mem) (walk : walk_state) (dst src : list scatterlist) (nbytes : Z)
    : option (mem * walk_state * Z) :=
  let walk_done := blkcipher_walk_done 1 bs alignmask ctx_alignment info get_free_page kmalloc in
  st ← blkcipher_walk_virt_block 1 bs alignmask ctx_alignment info irq get_free_page kmalloc m
         (blkcipher_walk_init walk dst src nbytes) bs;
  '(m, walk, err) ← c_loop (count_fuel nbytes) (fun '(m, walk, err) =>
    if bs <=? walk_nbytes (w_cur walk) then
      '(m, nbytes) ← crypto_ctr_crypt_chunk alg ctx tmp m (w_cur walk);
      st ← walk_done m walk nbytes;
      Some (inl st)
    else Some (inr (m, walk, err))) st;
  if truthy (walk_nbytes (w_cur walk)) then
    m ← crypto_ctr_crypt_final alg ctx tmp m (w_cur walk);
    walk_done m walk 0
  else Some (m, walk, err).

(** The request of each mode. *)
Definition encrypt_request (md : mode) (tmp : Z) :=
  match md with
  | ECB => crypto_ecb_encrypt | CBC => crypto_cbc_encrypt | PCBC => crypto_pcbc_encrypt tmp | CTR => crypto_ctr_crypt tmp
  end.
Definition decrypt_request (md : mode) (tmp : Z) :=
  match md with
  | ECB => crypto_ecb_decrypt | CBC => crypto_cbc_decrypt tmp | PCBC => crypto_pcbc_decrypt tmp | CTR => crypto_ctr_crypt tmp
  end.

End requests.
