(* ===== verification/ModesRequestCorrect.v ===== *)
(** * Requests: correctness

    A request on scatter lists computes its mode over the bytes of the source
    list, wherever the lists are cut into areas and pages, in place or not. *)

From S2P Require Import Prelude Bytes Mem LibString LibStringCorrect Cipher CryptoOps Modes ModesCorrect ModesLoops ModesTheorems.
From S2P Require Import Scatterwalk ScatterwalkCorrect BlkcipherWalk BlkcipherWalkCorrect ModesRequest.
Open Scope c_scope.

(** ** The memory of a request *)

Section request.
Context (bs : Z) (Hbs : 0 < bs) (tmp : Z).
Context (k : Z) (ctx_alignment info iv ivs : Z) (own : bool) (get_free_page : nat -> Z) (kmalloc : nat -> Z -> Z).
Context (m0 : mem) (sgi sgo : list scatterlist) (total : Z) (scratch : list Z).
Abbreviation alignmask := (2 ^ k - 1).

Definition A : list Z := take (Z.to_nat total) (sgs_addrs sgi).
Definition O : list Z := take (Z.to_nat total) (sgs_addrs sgo).

Definition page_good (p : Z) : Prop :=
  0 < p /\ p mod PAGE_SIZE = 0 /\ p + 3 * PAGE_SIZE <= 2 ^ 32 /\ forall a, a ∈ seqZ p PAGE_SIZE -> a ∈ scratch.
Definition slow_size (bsize : Z) : Z := u32 (ALIGN bsize (2 ^ k) * 3 - 2 ^ k + (alignmask .& .~ (ctx_alignment - 1))).
Definition kbuf_good (b bsize : Z) : Prop :=
  0 < b /\ b mod ctx_alignment = 0 /\ b + 3 * PAGE_SIZE <= 2 ^ 32 /\ forall a, a ∈ seqZ b (slow_size bsize) -> a ∈ scratch.

(** The lists describe [total] bytes, each area of memory is in use for one
    purpose only, and allocations succeed.  [iv] is where the chaining value is
    while the walk goes on, [own] says that the walk begins with a buffer, and
    [scratch] is the memory of the pages and buffers. *)
Record setting : Prop := Setting {
  rq_sgi : Forall sg_ok sgi; rq_sgo : Forall sg_ok sgo;
  rq_total : 0 < total < 2 ^ 32;
  rq_len_i : total <= Z.of_nat (length (sgs_addrs sgi)); rq_len_o : total <= Z.of_nat (length (sgs_addrs sgo));
  rq_bytes : bytes_ok m0; rq_mem : blen m0 <= 2 ^ 32;
  rq_in_A : in_range m0 A; rq_in_O : in_range m0 O; rq_in_S : in_range m0 scratch;
  rq_in_iv : in_mem m0 iv bs; rq_in_tmp : in_mem m0 tmp bs;
  rq_nodup_A : NoDup A; rq_nodup_O : NoDup O; rq_AO : A = O \/ apart A O;
  rq_iv : apart (seqZ iv bs) (A ++ O);
  rq_tmp : apart (seqZ tmp bs) (A ++ O ++ seqZ iv bs);
  rq_scratch : apart scratch (A ++ O ++ seqZ iv bs ++ seqZ tmp bs);
  rq_k : 0 <= k <= PAGE_SHIFT; rq_small : 2 * (bs + 2 ^ k) <= PAGE_SIZE;
  rq_ctx_alignment : exists c, 0 <= c <= PAGE_SHIFT /\ ctx_alignment = 2 ^ c;
  rq_finish : iv <> info -> in_mem m0 info ivs /\ in_mem m0 iv ivs /\ disjoint info ivs iv ivs;
  rq_page i : page_good (get_free_page i);
  rq_kmalloc i bsize : own = false -> 0 < bsize <= bs -> kbuf_good (kmalloc i (slow_size bsize)) bsize
}.
Context (Hrq : setting).

(** ** Buffers *)

Abbreviation dsp b x := (dst_spot alignmask b x).
Abbreviation ssp b x := (src_spot alignmask b x).

(** The spots for up to [y] bytes. *)
Definition buf_good (b y : Z) : Prop := b <> 0 /\ forall x, 0 < x <= y ->
  dsp b x + x <= ssp b x /\ forall a, a ∈ seqZ (dsp b x) x ++ seqZ (ssp b x) x -> a ∈ scratch.

Lemma buf_good_le b y y' : y' <= y -> buf_good b y -> buf_good b y'.
Proof using. intros Hy [H1 H2]. split; [done|]. intros x Hx. apply H2. lia. Qed.

Lemma pow_k : 0 < 2 ^ k.
Proof using Hrq. destruct Hrq. apply Z.pow_pos_nonneg; lia. Qed.

Lemma page_buf p : page_good p -> buf_good p bs.
Proof using Hrq Hbs.
  intros (H1 & H2 & H3 & H4). pose proof (rq_k Hrq) as Hk. pose proof (rq_small Hrq) as Hs. pose proof pow_k as Hp. split; [lia|]. intros x Hx.
  destruct (two_spots p k x) as (S1 & S2 & S3 & S4); [done|lia|lia|lia|done|].
  destruct (page_spots p k x) as (P1 & P2); [done|lia|lia|lia|done|done|].
  split; [lia|]. intros a Ha. apply H4. apply elem_of_seqZ. rewrite elem_of_app, !elem_of_seqZ in Ha. lia.
Qed.

(** The slack for the alignment of the buffer. *)
Lemma slack_ok b c : 0 <= c <= PAGE_SHIFT -> 0 < b -> b + PAGE_SIZE <= 2 ^ 32 -> b mod 2 ^ c = 0 ->
  ALIGN b (2 ^ k) <= b + (alignmask .& .~ (2 ^ c - 1)) /\ 0 <= alignmask .& .~ (2 ^ c - 1) < 2 ^ k.
Proof using Hrq.
  intros Hc Hb Hm Hbc. pose proof pow_k as Hp. pose proof (rq_k Hrq) as Hk. pose proof (Z.pow_pos_nonneg 2 c ltac:(lia) ltac:(lia)) as Hpc.
  assert (2 ^ k <= PAGE_SIZE) as Hkp by (change PAGE_SIZE with (2 ^ 12); apply Z.pow_le_mono_r; unfold PAGE_SHIFT in Hk; lia).
  rewrite land_not32_mask by (unfold is_u32; rewrite page_size in *; lia). destruct (ALIGN_ok b k) as (A1 & A2 & A3); [lia..|].
  destruct (decide (k <= c)) as [Hkc|Hkc].
  - pose proof (Z.pow_le_mono_r 2 k c ltac:(lia) Hkc). rewrite (Z.mod_small (2 ^ k - 1)) by lia. rewrite A3; [lia|].
    apply Z.mod_divide; [lia|]. apply Z.mod_divide in Hbc; [|lia]. eapply Z.divide_trans; [|exact Hbc]. exists (2 ^ (c - k)).
    rewrite <- Z.pow_add_r by lia. f_equal. lia.
  - assert (2 ^ k = 2 ^ (k - c) * 2 ^ c) as Ek by (rewrite <- Z.pow_add_r by lia; f_equal; lia).
    assert ((2 ^ k - 1) mod 2 ^ c = 2 ^ c - 1) as ->.
    { rewrite Ek. replace (2 ^ (k - c) * 2 ^ c - 1) with (2 ^ c - 1 + (2 ^ (k - c) - 1) * 2 ^ c) by lia.
      rewrite Z_mod_plus_full. apply Z.mod_small. lia. }
    assert (ALIGN b (2 ^ k) mod 2 ^ c = 0) as Hac.
    { apply Z.mod_divide; [lia|]. apply Z.mod_divide in A2; [|lia]. eapply Z.divide_trans; [|exact A2]. exists (2 ^ (k - c)). lia. }
    assert ((b + 2 ^ k) mod 2 ^ c = 0) as Hbk by (rewrite Ek; apply mod_plus; [done|apply Z_mod_mult]).
    pose proof (mult_lt _ _ _ Hpc Hac Hbk ltac:(lia)). pose proof (Z.pow_le_mono_r 2 c k ltac:(lia) ltac:(lia)). lia.
Qed.

Lemma kmalloc_buf b y : 0 < y <= bs -> kbuf_good b y -> buf_good b y.
Proof using Hrq Hbs.
  intros Hy (H1 & H2 & H3 & H4). destruct (rq_ctx_alignment Hrq) as (c & Hc & Ec). pose proof (rq_k Hrq) as Hk.
  pose proof (rq_small Hrq) as Hs. pose proof pow_k as Hp. split; [lia|]. intros x Hx.
  destruct (two_spots b k x) as (S1 & S2 & S3 & S4); [done|lia|lia|lia|done|].
  rewrite Ec in H2. rewrite page_size in *. destruct (slack_ok b c Hc H1 ltac:(rewrite page_size; lia) H2) as [K1 K2].
  destruct (ALIGN_ok b k) as (A1 & _ & _); [lia..|]. destruct (ALIGN_ok y k) as (B1 & B2 & _); [lia..|]. pose proof (ALIGN_mono x y k ltac:(lia) ltac:(lia) ltac:(lia)) as Hmono.
  assert (slow_size y = ALIGN y (2 ^ k) * 3 - 2 ^ k + (alignmask .& .~ (ctx_alignment - 1))) as E.
  { unfold slow_size. rewrite Ec. apply u32_small. unfold is_u32. lia. }
  rewrite Ec in E. split; [lia|]. intros a Ha. apply H4. apply elem_of_seqZ. rewrite elem_of_app, !elem_of_seqZ in Ha. lia.
Qed.

(** ** What memory holds after [p] bytes *)

Definition D : list Z := gather m0 A.
Definition others : list Z := seqZ iv bs ++ seqZ tmp bs ++ scratch.
Definition part (X : list Z) (p y : nat) : list Z := take y (drop p X).

(** [spec p] is the output of the first [p] bytes and the chaining value then. *)
Context (spec : nat -> list Z * list Z) (Hspec : spec 0%nat = ([], rd m0 iv bs)).

Record mem_at (m : mem) (p : nat) : Prop := MemAt {
  ma_bytes : bytes_ok m;
  ma_same : same_out (take p O ++ others) m0 m;
  ma_done : gather m (take p O) = fst (spec p);
  ma_chain : rd m iv bs = snd (spec p)
}.

Lemma mem_at_0 : mem_at m0 0.
Proof using Hrq Hspec. split; rewrite ?Hspec; [apply Hrq| |done|done]. by split. Qed.

Lemma in_mem_len m p x : blen m = blen m0 -> in_mem m p x <-> in_mem m0 p x.
Proof using. unfold in_mem. by intros ->. Qed.

Lemma mem_at_len m p : mem_at m p -> blen m = blen m0.
Proof using. by intros [_ [L _] _ _]. Qed.

Lemma take_drop_apart (X : list Z) i : NoDup X -> apart (take i X) (drop i X).
Proof using. intros H. rewrite <- (take_drop i X) in H. apply list.NoDup_app in H as (_ & H & _). exact H. Qed.

Lemma apart_incl X X' Y Y' : (forall a, a ∈ X' -> a ∈ X) -> (forall a, a ∈ Y' -> a ∈ Y) -> apart X Y -> apart X' Y'.
Proof using. intros HX HY H a Ha Hb. apply (H a); auto. Qed.

Lemma elem_take (X : list Z) i a : a ∈ take i X -> a ∈ X.
Proof using. intros H. rewrite <- (take_drop i X). apply elem_of_app. by left. Qed.
Lemma elem_drop (X : list Z) i a : a ∈ drop i X -> a ∈ X.
Proof using. intros H. rewrite <- (take_drop i X). apply elem_of_app. by right. Qed.
Lemma part_in X p y a : a ∈ part X p y -> a ∈ X.
Proof using. intros H. by apply elem_drop with p, elem_take with y. Qed.
Lemma part_range m X p y : in_range m X -> in_range m (part X p y).
Proof using. intros H. by apply Forall_take, Forall_drop. Qed.

Lemma A_others : apart A others /\ apart O others.
Proof using Hrq.
  pose proof (rq_iv Hrq) as [I1 I2]%apart_app_r. pose proof (rq_tmp Hrq) as [T1 [T2 T3]%apart_app_r]%apart_app_r.
  pose proof (rq_scratch Hrq) as [S1 [S2 _]%apart_app_r]%apart_app_r. unfold others. rewrite !apart_app_r.
  auto 10 using apart_sym.
Qed.

Lemma scratch_A : apart scratch A /\ apart scratch O.
Proof using Hrq. pose proof (rq_scratch Hrq) as [S1 [S2 _]%apart_app_r]%apart_app_r. done. Qed.

Lemma A_rest_done p : apart (drop p A) (take p O).
Proof using Hrq.
  destruct (rq_AO Hrq) as [->|H]; [apply apart_sym, take_drop_apart, Hrq|].
  apply (apart_incl A _ O _); [apply elem_drop|apply elem_take|done].
Qed.

(** The data that has not been processed is still there. *)
Lemma part_data m p y : mem_at m p -> gather m (part A p y) = part D p y.
Proof using Hrq.
  intros [_ Hs _ _]. unfold part, D, gather. rewrite <- firstn_map. f_equal. rewrite skipn_map. apply (gather_same _ m0 m _ Hs).
  - apply Forall_drop, Hrq.
  - apply apart_app_r. split; [apply A_rest_done|]. destruct A_others as [H _]. apply (apart_incl A _ others _); [apply elem_drop|done|done].
Qed.

Lemma mem_step m p m' y o : mem_at m p -> bytes_ok m' -> same_out (part O p y ++ others) m m' -> gather m' (part O p y) = o ->
  fst (spec (p + y)) = fst (spec p) ++ o -> rd m' iv bs = snd (spec (p + y)) -> mem_at m' (p + y).
Proof using Hrq.
  intros Hm Hb Hs Hg Ho Hv. pose proof Hm as [_ Hs0 Hd Hc].
  assert (take (p + y) O = take p O ++ part O p y) as ET by (symmetry; apply take_take_drop).
  destruct A_others as [_ HO]. split; [done| | |done].
  - pose proof (same_out_trans _ _ _ _ _ Hs0 Hs) as H. eapply same_out_mono; [|exact H]. intros a. rewrite ET, !elem_of_app. tauto.
  - rewrite ET, gather_app, Ho, Hg. f_equal. rewrite <- Hd. apply (gather_same _ m m' _ Hs).
    + apply (in_range_blen m0); [by apply (mem_at_len m p)|]. apply Forall_take, Hrq.
    + apply apart_app_r. split.
      * apply (apart_incl (take p O) _ (drop p O) _); [done|apply elem_take|]. apply take_drop_apart, Hrq.
      * apply (apart_incl O _ others _); [apply elem_take|done|done].
Qed.

(** ** One chunk *)

(** Between chunks, whole blocks or everything has been processed. *)
Definition stop (p : nat) : Prop := Z.of_nat p mod bs = 0 \/ Z.of_nat p = total.

(** Of a chunk of [x] bytes at position [p] the function [F] processes [y]. *)
Definition works (F : mem -> blkcipher_walk -> option (mem * Z)) (p : nat) (x : Z) (y : nat) : Prop :=
  0 < Z.of_nat y <= x /\ stop (p + y) /\ forall m src dst, bytes_ok m -> blen m = blen m0 -> in_mem m0 src (Z.of_nat y) -> in_mem m0 dst (Z.of_nat y) ->
  disjoint src (Z.of_nat y) iv bs -> disjoint src (Z.of_nat y) tmp bs -> disjoint dst (Z.of_nat y) iv bs ->
  disjoint dst (Z.of_nat y) tmp bs -> src = dst \/ disjoint src (Z.of_nat y) dst (Z.of_nat y) ->
  rd m src (Z.of_nat y) = part D p y -> rd m iv bs = snd (spec p) ->
  exists m', F m (Walk x src dst iv) = Some (m', x - Z.of_nat y) /\ bytes_ok m' /\
    fst (spec (p + y)) = fst (spec p) ++ rd m' dst (Z.of_nat y) /\ rd m' iv bs = snd (spec (p + y)) /\
    same_out (seqZ dst (Z.of_nat y) ++ seqZ iv bs ++ seqZ tmp bs) m m'.

Context (F : mem -> blkcipher_walk -> option (mem * Z)).

Lemma scratch_mem q x : 0 < x -> (forall a, a ∈ seqZ q x -> a ∈ scratch) -> in_mem m0 q x.
Proof using Hrq.
  intros Hx H. apply in_range_mem; [done|]. apply Forall_forall. intros a Ha. pose proof (rq_in_S Hrq) as HS. unfold in_range in HS.
  rewrite Forall_forall in HS. apply HS, list_elem_of_In, H. by apply list_elem_of_In.
Qed.

(** In memory where the data is. *)
Lemma fast_mem m p x y pi po : mem_at m p -> works F p x y ->
  seqZ pi (Z.of_nat y) = part A p y -> seqZ po (Z.of_nat y) = part O p y ->
  exists m', F m (Walk x pi po iv) = Some (m', x - Z.of_nat y) /\ mem_at m' (p + y).
Proof using All.
  intros Hm (Hy & _ & HF) EA EO. pose proof Hm as [Hb _ _ Hch]. pose proof (mem_at_len m p Hm) as Hl.
  destruct A_others as [HA HO]. unfold others in HA, HO. rewrite !apart_app_r in HA, HO. destruct HA as (A1 & A2 & _). destruct HO as (O1 & O2 & _).
  assert (in_mem m0 pi (Z.of_nat y)) as Hi by (apply in_range_mem; [lia|]; rewrite EA; by apply part_range, Hrq).
  assert (in_mem m0 po (Z.of_nat y)) as Ho by (apply in_range_mem; [lia|]; rewrite EO; by apply part_range, Hrq).
  destruct (HF m pi po Hb Hl Hi Ho) as (m' & E & Hb' & Hsp & Hv & Hs).
  - apply apart_disjoint; [lia..|]. rewrite EA. apply (apart_incl A _ (seqZ iv bs) _); [apply part_in|done|done].
  - apply apart_disjoint; [lia..|]. rewrite EA. apply (apart_incl A _ (seqZ tmp bs) _); [apply part_in|done|done].
  - apply apart_disjoint; [lia..|]. rewrite EO. apply (apart_incl O _ (seqZ iv bs) _); [apply part_in|done|done].
  - apply apart_disjoint; [lia..|]. rewrite EO. apply (apart_incl O _ (seqZ tmp bs) _); [apply part_in|done|done].
  - destruct (rq_AO Hrq) as [E|H].
    + left. rewrite E, <- EO in EA. rewrite !(seqZ_cons _ (Z.of_nat y)) in EA by lia. by injection EA.
    + right. apply apart_disjoint; [lia..|]. rewrite EA, EO. apply (apart_incl A _ O _); [apply part_in|apply part_in|done].
  - rewrite <- gather_range, EA by (by apply in_mem_len). by apply part_data.
  - done.
  - exists m'. split; [done|]. apply (mem_step m p m' y (rd m' po (Z.of_nat y)) Hm Hb'); [|rewrite <- EO, gather_range; [done|]|done|done].
    + eapply same_out_mono; [|exact Hs]. intros a. rewrite EO. unfold others. rewrite !elem_of_app. tauto.
    + apply (in_mem_len m'); [|done]. destruct Hs as [-> _]. done.
Qed.

(** Through a page or a buffer in [scratch]: the data has been copied to [src],
    the result will be copied from [dst]. *)
Lemma bounce_mem m p x y m1 src dst : mem_at m p -> works F p x y -> bytes_ok m1 -> same_out scratch m m1 ->
  rd m1 src (Z.of_nat y) = part D p y ->
  (forall a, a ∈ seqZ src (Z.of_nat y) -> a ∈ scratch) -> (forall a, a ∈ seqZ dst (Z.of_nat y) -> a ∈ scratch) ->
  src = dst \/ disjoint src (Z.of_nat y) dst (Z.of_nat y) ->
  exists m2, F m1 (Walk x src dst iv) = Some (m2, x - Z.of_nat y) /\ bytes_ok m2 /\ blen m2 = blen m0 /\
    forall m3, copied (part O p y) (seqZ dst (Z.of_nat y)) m2 m3 -> mem_at m3 (p + y).
Proof using All.
  intros Hm (Hy & _ & HF) Hb1 Hs1 ED Hsrc Hdst Hsd. pose proof (mem_at_len m p Hm) as Hl. pose proof Hm as [_ _ _ Hch]. pose proof Hs1 as [Hl1 _].
  pose proof (rq_scratch Hrq) as [_ [SO [Si St]%apart_app_r]%apart_app_r]%apart_app_r.
  assert (forall q X z, (forall a, a ∈ seqZ q (Z.of_nat y) -> a ∈ scratch) -> 0 < z -> apart scratch (seqZ X z) -> disjoint q (Z.of_nat y) X z) as Hdis.
  { intros q X z Hq Hz Hap. apply apart_disjoint; [lia..|]. apply (apart_incl scratch _ (seqZ X z) _); done. }
  assert (rd m1 iv bs = rd m iv bs) as Ei.
  { rewrite <- !gather_range by (apply in_mem_len; [by rewrite ?Hl1|apply Hrq]).
    apply (gather_same scratch); [done|apply in_range_mem; [done|]; apply in_mem_len; [done|apply Hrq]|]. by apply apart_sym. }
  destruct (HF m1 src dst Hb1) as (m2 & E & Hb2 & Hsp & Hv & Hs2); try (by apply Hdis); try (apply scratch_mem; [lia|done]); try done.
  - by rewrite Hl1.
  - by rewrite Ei.
  - exists m2. split; [done|]. split; [done|]. pose proof Hs2 as [Hl2 _]. split; [by rewrite Hl2, Hl1|]. intros m3 Hc. pose proof Hc as [G Hs3].
    assert (in_range m2 (seqZ dst (Z.of_nat y))) as Hrd.
    { apply in_range_mem; [lia|]; apply in_mem_len; [by rewrite Hl2, Hl1|]. apply scratch_mem; [lia|done]. }
    apply (mem_step m p m3 y (rd m2 dst (Z.of_nat y)) Hm).
    + by apply (copied_bytes (part O p y) _ m2 m3 Hb2 Hrd).
    + pose proof (same_out_trans _ _ _ _ _ Hs1 (same_out_trans _ _ _ _ _ Hs2 Hs3)) as H. eapply same_out_mono; [|exact H].
      intros a. unfold others. rewrite !elem_of_app. intros Ha. destruct_or!; auto 10.
    + rewrite G, gather_range; [done|]. apply in_range_mem; [lia|done].
    + done.
    + rewrite <- Hv. rewrite <- !gather_range by (apply in_mem_len; [rewrite ?(proj1 Hs3); by rewrite Hl2, Hl1|apply Hrq]).
      apply (gather_same _ m2 m3 _ Hs3); [apply in_range_mem; [done|]; apply in_mem_len; [by rewrite Hl2, Hl1|apply Hrq]|].
      pose proof (rq_iv Hrq) as [_ I2]%apart_app_r. apply (apart_incl (seqZ iv bs) _ O _); [done|apply part_in|done].
Qed.

(** ** Where the cursors are *)

(** The block size of the transform; the walk uses [bs]. *)
Context (tbs : Z) (Htbs : 0 < tbs <= bs).
Abbreviation walk_next := (blkcipher_walk_next tbs ivs alignmask ctx_alignment info get_free_page kmalloc).
Abbreviation walk_done := (blkcipher_walk_done tbs ivs alignmask ctx_alignment info get_free_page kmalloc).
Abbreviation left p := (total - Z.of_nat p).
Abbreviation bsz p := (Z.min bs (left p)).

Definition cursor_at (c : scatter_walk) (sg : list scatterlist) (p : nat) : Prop :=
  walk_ok c /\ walk_addrs c = drop p (sgs_addrs sg) /\ (0 < left p -> walk_in c).

Record cur_at (w : walk_state) (p : nat) : Prop := CurAt {
  ca_total : w_total w = left p;
  ca_in : cursor_at (w_in w) sgi p;
  ca_out : cursor_at (w_out w) sgo p;
  ca_bs : w_blocksize w = bs;
  ca_page : w_page w = 0 \/ page_good (w_page w);
  ca_buf : w_buffer w = 0 /\ own = false \/ buf_good (w_buffer w) (bsz p);
  ca_iv : walk_iv (w_cur w) = iv
}.

(** The bytes of a chunk, and that they are apart from [scratch]. *)
Lemma cursor_bytes c sg X p q x : X = take (Z.to_nat total) (sgs_addrs sg) -> in_range m0 X -> apart scratch X ->
  cursor_at c sg p -> contiguous c q x -> 0 < x <= left p ->
  in_mem m0 q x /\ seqZ q x = part X p (Z.to_nat x) /\
  forall q' y, 0 < y -> (forall a, a ∈ seqZ q' y -> a ∈ scratch) -> disjoint q' y q x.
Proof using Hbs.
  intros -> HX Hap (_ & E & _) Hc Hx.
  assert (seqZ q x = part (take (Z.to_nat total) (sgs_addrs sg)) p (Z.to_nat x)) as Ep.
  { rewrite <- (co_addrs _ _ _ Hc), E. unfold part. rewrite skipn_firstn_comm, take_take. f_equal. lia. }
  split; [|split; [done|]].
  - apply in_range_mem; [lia|]. rewrite Ep. by apply part_range.
  - intros q' y Hy Hq. apply apart_disjoint; [done|lia|]. rewrite Ep. eapply apart_incl; [exact Hq|apply part_in|done].
Qed.

Definition flags_clear (f : Z) : Z := f .& .~ (BLKCIPHER_WALK_SLOW .| BLKCIPHER_WALK_COPY .| BLKCIPHER_WALK_DIFF).

Lemma flags_clear_land f g : .~ (BLKCIPHER_WALK_SLOW .| BLKCIPHER_WALK_COPY .| BLKCIPHER_WALK_DIFF) .& g = 0 -> flags_clear f .& g = 0.
Proof using. intros H. unfold flags_clear. by rewrite <- Z.land_assoc, H, Z.land_0_r. Qed.

(** The state of a chunk before its kind is chosen. *)
Record prepared (w : walk_state) (p : nat) (copy : bool) : Prop := Prepared {
  pr_cur : cur_at w p;
  pr_slow : has_walk_flag w BLKCIPHER_WALK_SLOW = false;
  pr_copy : has_walk_flag w BLKCIPHER_WALK_COPY = copy;
  pr_page : copy = true -> page_good (w_page w)
}.

Lemma walk_next_prepared m w p : cur_at w p -> tbs <= left p -> exists w' copy, prepared w' p copy /\
  walk_next m w = (x ← scatterwalk_clamp (w_in w') (left p);
    x ← scatterwalk_clamp (w_out w') x;
    if x <? bsz p then blkcipher_next_slow ivs alignmask ctx_alignment info kmalloc m w' (bsz p)
    else if copy then blkcipher_next_copy m (set_nbytes w' x) else blkcipher_next_fast m (set_nbytes w' x)).
Proof using Hrq.
  intros Hc Hlen. pose proof Hc as [Et Hi Ho Eb Hp Hbuf Ei]. unfold blkcipher_walk_next. rewrite Et.
  destruct (Z.ltb_spec (left p) tbs) as [|_]; [lia|]. cbv zeta.
  set (w0 := set_flags w _). assert (w_flags w0 = flags_clear (w_flags w)) as Ef by done.
  destruct (negb (scatterwalk_aligned (w_in w0) alignmask) || negb (scatterwalk_aligned (w_out w0) alignmask)) eqn:Eal.
  - set (w1 := set_flags w0 _). set (w2 := if truthy (w_page w1) then w1 else _).
    assert (page_good (w_page w2)) as Hpg.
    { unfold w2. change (w_page w1) with (w_page w). destruct (truthy (w_page w)) eqn:Etr.
      - destruct Hp as [Hp|]; [|done]. by rewrite Hp in Etr.
      - apply (rq_page Hrq). }
    assert (truthy (w_page w2) = true) as -> by (apply truthy_true; destruct Hpg; lia).
    assert (w_flags w2 = flags_clear (w_flags w) .| BLKCIPHER_WALK_COPY /\ w_in w2 = w_in w /\ w_out w2 = w_out w /\
      w_blocksize w2 = bs /\ w_total w2 = left p /\ w_buffer w2 = w_buffer w /\ w_cur w2 = w_cur w) as (F2 & I2 & O2 & B2 & T2 & U2 & C2).
    { unfold w2. by destruct (truthy (w_page w1)). }
    clearbody w2. exists w2, true. split.
    + split; [|unfold has_walk_flag; rewrite F2, Z.land_lor_distr_l, flags_clear_land by done; done..|done].
      split; rewrite ?T2, ?I2, ?O2, ?C2, ?U2; try done. by right.
    + rewrite B2. unfold has_walk_flag, set_nbytes, set_cur. cbn [w_flags].
      by rewrite F2, Z.land_lor_distr_l, flags_clear_land by done.
  - exists w0, false. split.
    + split; [|unfold has_walk_flag; rewrite Ef, flags_clear_land by done; done..|done]. by split.
    + change (w_blocksize w0) with (w_blocksize w). rewrite Eb. unfold has_walk_flag, set_nbytes, set_cur. cbn [w_flags].
      by rewrite Ef, flags_clear_land by done.
Qed.

(** *** After a chunk *)

(** The end of [blkcipher_walk_done]. *)
Definition walk_tail (m : mem) (w : walk_state) (nbytes : Z) : option (mem * walk_state * Z) :=
  i ← scatterwalk_done m (w_in w) false nbytes;
  o ← scatterwalk_done m (w_out w) true nbytes;
  let w := set_out (set_in w i) o in
  if truthy nbytes then walk_next m (set_nbytes (set_total w nbytes) nbytes)
  else blkcipher_walk_finish ivs info m w 0.

(** The state when the bytes of a chunk have been accounted for. *)
Record moved (m : mem) (w : walk_state) (p : nat) : Prop := Moved {
  mv_in : walk_ok (w_in w) /\ walk_addrs (w_in w) = drop p (sgs_addrs sgi) /\ visited m (w_in w);
  mv_out : walk_ok (w_out w) /\ walk_addrs (w_out w) = drop p (sgs_addrs sgo) /\ visited m (w_out w);
  mv_bs : w_blocksize w = bs;
  mv_page : w_page w = 0 \/ page_good (w_page w);
  mv_buf : w_buffer w = 0 /\ own = false \/ buf_good (w_buffer w) (bsz p);
  mv_iv : walk_iv (w_cur w) = iv
}.

(** At the end the chaining value goes back to [info]. *)
Definition ended (m m' : mem) : Prop :=
  iv = info /\ m' = m \/ iv <> info /\ copied (seqZ info ivs) (seqZ iv ivs) m m'.

(** Either the walk goes on from the next position or it is over. *)
Definition resumes (m : mem) (p : nat) (r : option (mem * walk_state * Z)) : Prop :=
  0 < left p /\ (exists w, r = walk_next m w /\ cur_at w p) \/
  0 = left p /\ (exists m' w, r = Some (m', w, 0) /\ ended m m' /\ walk_nbytes (w_cur w) = 0).

Lemma rest_nonempty sg p : total <= Z.of_nat (length (sgs_addrs sg)) -> 0 < left p -> drop p (sgs_addrs sg) <> [].
Proof using. intros Hl Hj E. apply (f_equal length) in E. rewrite length_drop in E. cbn in E. lia. Qed.

Lemma finish_ok m w : blen m = blen m0 -> walk_iv (w_cur w) = iv ->
  exists m' w', blkcipher_walk_finish ivs info m w 0 = Some (m', w', 0) /\ ended m m' /\ walk_nbytes (w_cur w') = 0.
Proof using Hrq.
  intros Hl Ei. unfold blkcipher_walk_finish. cbv zeta. cbn [walk_iv w_cur set_nbytes set_cur set_total]. rewrite Ei.
  destruct (Z.eqb_spec iv info) as [E|Hne]; cbn [negb].
  - exists m. eexists. split; [done|]. split; [by left|done].
  - destruct (rq_finish Hrq Hne) as (I1 & I2 & Hd). destruct (copied_memcpy m info iv ivs) as (m' & E & Hc).
    + by apply in_mem_len.
    + by apply in_mem_len.
    + unfold disjoint in Hd. lia.
    + rewrite E, !bind_Some_eq. exists m'. eexists. split; [done|]. split; [by right|done].
Qed.

Lemma walk_tail_ok m w p : blen m = blen m0 -> moved m w p -> 0 <= left p -> resumes m p (walk_tail m w (left p)).
Proof using Hrq.
  intros Hlen [(I1 & I2 & I3) (O1 & O2 & O3) Eb Hp Hbuf Ei] Hj. unfold walk_tail. destruct (decide (0 < left p)) as [Hlt|Hge].
  - left. split; [done|]. assert (left p <> 0) as Hne by lia.
    destruct (done_ok m (w_in w) false (left p) I1 I3) as (i & -> & Hi1 & Hi2 & Hi3);
      [rewrite I2; apply rest_nonempty; [apply Hrq|done]|done|].
    destruct (done_ok m (w_out w) true (left p) O1 O3) as (o & -> & Ho1 & Ho2 & Ho3);
      [rewrite O2; apply rest_nonempty; [apply Hrq|done]|done|].
    rewrite !bind_Some_eq, (proj2 (truthy_true _) Hne). eexists. split; [done|]. split; try done.
    + split; [done|]. cbn. by rewrite Hi3.
    + split; [done|]. cbn. by rewrite Ho3.
  - right. split; [lia|]. replace (left p) with 0 by lia. rewrite (done_last m _ false I1 I3), (done_last m _ true O1 O3), !bind_Some_eq.
    cbn [truthy]. by apply finish_ok.
Qed.

(** ** One turn of the loop *)

(** A chunk is ready, the mode works on it and the walk goes on behind it. *)
Definition gives (R : option (mem * walk_state * Z)) (p : nat) : Prop :=
  exists m1 w1 m2 r m3 p', R = Some (m1, w1, 0) /\ bsz p <= walk_nbytes (w_cur w1) <= left p /\ F m1 (w_cur w1) = Some (m2, r) /\
    (p < p')%nat /\ stop p' /\ Z.of_nat p' <= total /\ mem_at m3 p' /\ resumes m3 p' (walk_done m2 w1 r).

Lemma map_page w p : scatterwalk_map w = Some p -> exists page, scatterwalk_page w = Some page /\
  p = page * PAGE_SIZE + offset_in_page (sw_offset w).
Proof using. unfold scatterwalk_map. destruct (scatterwalk_page w) as [page|]; [|done]. cbn. intros [= <-]. by exists page. Qed.

Lemma u32_sub_0 a b : 0 <= a < 2 ^ 32 -> 0 <= b < 2 ^ 32 -> u32 (a - b) = 0 -> a = b.
Proof using. intros Ha Hb E. unfold u32 in E. clear - Ha Hb E. Z.div_mod_to_equations. lia. Qed.

Lemma next_fast_ok m w pi po : scatterwalk_map (w_in w) = Some pi -> scatterwalk_map (w_out w) = Some po ->
  0 <= pi < 2 ^ 32 -> 0 <= po < 2 ^ 32 ->
  exists f, blkcipher_next_fast m w = Some (m, set_addrs (set_flags w f) pi po, 0) /\
    (f = w_flags w \/ f = w_flags w .| BLKCIPHER_WALK_DIFF).
Proof using.
  intros Ei Eo Hi Ho. destruct (map_page _ _ Ei) as (gi & Gi & Pi). destruct (map_page _ _ Eo) as (go & Go & Po).
  unfold blkcipher_next_fast. rewrite Gi, Go, Ei, !bind_Some_eq. rewrite offset_in_page_mod in *.
  rewrite (offset_in_page_mod (sw_offset (w_out w))) in *. rewrite page_size in *.
  pose proof (Z.mod_pos_bound (sw_offset (w_in w)) 4096 ltac:(lia)). pose proof (Z.mod_pos_bound (sw_offset (w_out w)) 4096 ltac:(lia)).
  destruct (truthy _) eqn:Et.
  - rewrite Eo, bind_Some_eq. exists (w_flags w .| BLKCIPHER_WALK_DIFF). split; [done | by right].
  - apply truthy_false, Z.lor_eq_0_iff in Et as [E1 E2]. apply u32_sub_0 in E1; [|lia..]. apply u32_sub_0 in E2; [|lia..].
    assert (pi = po) as <- by lia. exists (w_flags w). split; [|by left]. by destruct w.
Qed.

(** [blkcipher_walk_done] when the chunk was not a slow one. *)
Lemma done_not_slow m w r x : has_walk_flag w BLKCIPHER_WALK_SLOW = false -> 0 <= r -> walk_nbytes (w_cur w) = x + r -> 0 <= x < 2 ^ 32 ->
  walk_done m w r = ('(m, w, y) ← blkcipher_done_fast m w x; walk_tail m w (u32 (w_total w - y))).
Proof using.
  intros Hs Hr En Hx. unfold blkcipher_walk_done. destruct (Z.leb_spec 0 r); [|lia]. rewrite Hs, En. cbn [andb].
  replace (x + r - r) with x by lia. by rewrite u32_small.
Qed.

Lemma moved_fast m w p y pi po x : cur_at w p -> contiguous (w_in w) pi x -> contiguous (w_out w) po x -> 0 < y <= x ->
  x <= left p -> blen m = blen m0 ->
  moved m (set_out (set_in w (scatterwalk_advance (w_in w) y)) (scatterwalk_advance (w_out w) y)) (p + Z.to_nat y).
Proof using Hbs Hrq.
  intros [Et Hi Ho Eb Hp Hbuf Ei] Ci Co Hy Hx Hl. destruct scratch_A as [SA SO].
  destruct (cursor_bytes _ sgi A p pi y eq_refl (rq_in_A Hrq) SA Hi (contiguous_sub _ pi x y ltac:(lia) Ci) ltac:(lia)) as (Mi & _ & _).
  destruct (cursor_bytes _ sgo O p po y eq_refl (rq_in_O Hrq) SO Ho (contiguous_sub _ po x y ltac:(lia) Co) ltac:(lia)) as (Mo & _ & _).
  assert (in_range m (seqZ pi y) /\ in_range m (seqZ po y)) as [Ri Ro] by (split; apply in_range_mem; try lia; by apply in_mem_len).
  destruct Hi as (_ & Ei' & _). destruct Ho as (_ & Eo & _).
  split; try done; cbn [w_in w_out set_in set_out w_buffer].
  - destruct (co_advance _ _ _ Ci y ltac:(lia)) as [A1 A2]. split; [done|]. split; [|apply (co_visited _ _ _ Ci); [lia|done]].
    by rewrite A2, Ei', drop_drop.
  - destruct (co_advance _ _ _ Co y ltac:(lia)) as [A1 A2]. split; [done|]. split; [|apply (co_visited _ _ _ Co); [lia|done]].
    by rewrite A2, Eo, drop_drop.
  - destruct Hbuf as [|Hbuf]; [by left|right]. apply (buf_good_le _ (bsz p)); [lia|done].
Qed.

Lemma fast_turn m w p x y pi po : mem_at m p -> prepared w p false -> contiguous (w_in w) pi x -> contiguous (w_out w) po x ->
  bsz p <= x -> x <= left p -> works F p x y -> gives (blkcipher_next_fast m (set_nbytes w x)) p.
Proof using All.
  intros Hm [Hc Hs Hcp _] Ci Co Hx Ht Hw. pose proof Hw as [Hy _]. pose proof (rq_total Hrq) as Htot.
  pose proof Hc as [Et Hi Ho Eb Hp Hbuf Ei]. destruct scratch_A as [SA SO].
  destruct (cursor_bytes _ sgi A p pi _ eq_refl (rq_in_A Hrq) SA Hi (contiguous_sub _ pi x (Z.of_nat y) ltac:(lia) Ci) ltac:(lia)) as (Mi & Bi & _).
  destruct (cursor_bytes _ sgo O p po _ eq_refl (rq_in_O Hrq) SO Ho (contiguous_sub _ po x (Z.of_nat y) ltac:(lia) Co) ltac:(lia)) as (Mo & Bo & _).
  rewrite Nat2Z.id in Bi, Bo. pose proof (rq_mem Hrq) as Hmem.
  destruct (next_fast_ok m (set_nbytes w x) pi po (co_map _ _ _ Ci) (co_map _ _ _ Co)) as (f & E & Hf); [unfold in_mem in *; lia..|].
  destruct (fast_mem m p x y pi po Hm Hw Bi Bo) as (m2 & EF & Hm2).
  set (w1 := set_addrs _ pi po) in E. assert (w_cur w1 = Walk x pi po iv) as Ecur by (unfold w1; cbn; by rewrite Ei).
  assert (has_walk_flag w1 BLKCIPHER_WALK_SLOW = false /\ has_walk_flag w1 BLKCIPHER_WALK_COPY = false) as [Hs1 Hc1].
  { unfold has_walk_flag in *. change (w_flags w1) with f. destruct Hf as [->| ->]; [done|]. cbn [set_nbytes set_cur w_flags].
    rewrite !Z.land_lor_distr_l. apply truthy_false in Hs. apply truthy_false in Hcp. by rewrite Hs, Hcp. }
  exists m, w1, m2, (x - Z.of_nat y), m2, (p + y)%nat. split; [done|]. rewrite Ecur. split; [cbn; lia|]. split; [done|]. split; [lia|].
  split; [apply Hw|]. split; [lia|]. split; [done|].
  rewrite (done_not_slow m2 w1 (x - Z.of_nat y) (Z.of_nat y)); [|done|lia|rewrite Ecur; cbn; lia|lia].
  unfold blkcipher_done_fast. rewrite Hc1, !bind_Some_eq. set (w3 := set_out _ _).
  assert (w_total w3 = left p) as -> by exact Et. rewrite u32_small by (unfold is_u32; lia).
  replace (left p - Z.of_nat y) with (left (p + y)) by lia. apply walk_tail_ok; [by apply (mem_at_len _ (p + y))| |lia].
  replace (p + y)%nat with (p + Z.to_nat (Z.of_nat y))%nat by lia. apply (moved_fast m2 w1 p (Z.of_nat y) pi po x); try done. by apply (mem_at_len m2 (p + y)).
Qed.

(** A chunk that is copied to the page. *)
Lemma page_copy m p x y pi pg : mem_at m p -> in_mem m0 pi x -> seqZ pi x = part A p (Z.to_nat x) -> 0 < x -> Z.of_nat y <= x ->
  (forall z, z <= x -> forall a, a ∈ seqZ pg z -> a ∈ scratch) -> disjoint pg x pi x ->
  exists m1, memcpy m pg pi x = Some (m1, pg) /\ bytes_ok m1 /\ same_out scratch m m1 /\ rd m1 pg (Z.of_nat y) = part D p y.
Proof using All.
  intros Hm Mi Bi Hx Hy Hps Hd. pose proof (mem_at_len m p Hm) as Hl. pose proof (ma_bytes m p Hm) as Hb.
  pose proof (scratch_mem pg x Hx (Hps x ltac:(lia))) as Mp.
  destruct (copied_memcpy m pg pi x) as (m1 & E1 & C1); [by apply in_mem_len|by apply in_mem_len|unfold disjoint in Hd; lia|].
  assert (same_out scratch m m1) as S1 by (eapply same_out_mono; [|apply C1]; apply Hps; lia).
  exists m1. split; [done|]. split; [|split; [done|]].
  { apply (copied_bytes (seqZ pg x) (seqZ pi x) m m1 Hb); [apply in_range_mem; [lia|]; by apply in_mem_len|done]. }
  rewrite <- (gather_range m1).
  2: { apply in_mem_len; [by rewrite (proj1 S1)|]. unfold in_mem in *. lia. }
  destruct C1 as [G _]. rewrite <- (take_seqZ pg x (Z.of_nat y)) by lia. unfold gather. rewrite <- firstn_map. fold (gather m1 (seqZ pg x)). rewrite G.
  rewrite Bi, (part_data m p _ Hm). unfold part. rewrite take_take. f_equal. lia.
Qed.

Lemma copy_turn m w p x y pi po : mem_at m p -> prepared w p true -> contiguous (w_in w) pi x -> contiguous (w_out w) po x ->
  bsz p <= x -> x <= left p -> x <= PAGE_SIZE -> works F p x y -> gives (blkcipher_next_copy m (set_nbytes w x)) p.
Proof using All.
  intros Hm [Hc Hs Hcp Hpg] Ci Co Hx Ht Hxp Hw. pose proof Hw as [Hy _]. pose proof (rq_total Hrq) as Htot.
  specialize (Hpg eq_refl). destruct Hpg as (P1 & P2 & P3 & P4). set (pg := w_page w) in *. destruct scratch_A as [SA SO].
  pose proof Hc as [Et Hi Ho Eb Hp Hbuf Ei].
  assert (forall z, z <= x -> forall a, a ∈ seqZ pg z -> a ∈ scratch) as Hps.
  { intros z Hz a Ha. apply P4. rewrite elem_of_seqZ in *. lia. }
  destruct (cursor_bytes _ sgi A p pi x eq_refl (rq_in_A Hrq) SA Hi Ci ltac:(lia)) as (Mi & Bi & Di).
  destruct (cursor_bytes _ sgo O p po _ eq_refl (rq_in_O Hrq) SO Ho (contiguous_sub _ po x (Z.of_nat y) ltac:(lia) Co) ltac:(lia)) as (Mo & Bo & Do).
  rewrite Nat2Z.id in Bo.
  destruct (page_copy m p x y pi pg Hm Mi Bi ltac:(lia) ltac:(lia) Hps) as (m1 & E1 & Hb1 & S1 & ED); [apply Di; [lia|apply Hps; lia]|].
  destruct (bounce_mem m p x y m1 pg pg Hm Hw Hb1 S1 ED) as (m2 & EF & Hb2 & Hl2 & Hm3); [apply Hps; lia|apply Hps; lia|by left|].
  destruct (copied_memcpy m2 po pg (Z.of_nat y)) as (m3 & E3 & C3).
  { by apply in_mem_len. }
  { apply in_mem_len; [done|]. apply scratch_mem; [lia|]. apply Hps; lia. }
  { specialize (Do pg (Z.of_nat y) ltac:(lia) (Hps (Z.of_nat y) ltac:(lia))). unfold disjoint in Do. lia. }
  rewrite Bo in C3. specialize (Hm3 m3 C3).
  set (w1 := set_addrs (set_nbytes w x) pg pg). exists m1, w1, m2, (x - Z.of_nat y), m3, (p + y)%nat.
  assert (w_cur w1 = Walk x pg pg iv) as Ecur by (unfold w1; cbn; by rewrite Ei).
  split. { unfold blkcipher_next_copy. cbn [set_nbytes set_cur w_in w_cur walk_nbytes]. rewrite (co_map _ _ _ Ci), bind_Some_eq.
    change (w_page _) with pg. rewrite E1, bind_Some_eq. done. }
  rewrite Ecur. split; [cbn; lia|]. split; [done|]. split; [lia|]. split; [apply Hw|]. split; [lia|]. split; [done|].
  rewrite (done_not_slow m2 w1 (x - Z.of_nat y) (Z.of_nat y)); [|done|lia|rewrite Ecur; cbn; lia|lia]. unfold blkcipher_done_fast.
  change (has_walk_flag w1 BLKCIPHER_WALK_COPY) with (has_walk_flag w BLKCIPHER_WALK_COPY). rewrite Hcp.
  change (w_out w1) with (w_out w). change (w_page w1) with pg. rewrite (co_map _ _ _ Co), bind_Some_eq, E3, !bind_Some_eq.
  set (w3 := set_out _ _). assert (w_total w3 = left p) as -> by exact Et. rewrite u32_small by (unfold is_u32; lia).
  replace (left p - Z.of_nat y) with (left (p + y)) by lia. apply walk_tail_ok; [by apply (mem_at_len _ (p + y))| |lia].
  replace (p + y)%nat with (p + Z.to_nat (Z.of_nat y))%nat by lia.
  apply (moved_fast m3 w1 p (Z.of_nat y) pi po x); try done. by apply (mem_at_len m3 (p + y)).
Qed.

Lemma visited_blen m m' c : blen m' = blen m -> visited m c -> visited m' c.
Proof using. unfold visited. by intros ->. Qed.

(** Copying [x] bytes at a cursor to or from [scratch]. *)
Lemma copy_block m c sg X p q x out : X = take (Z.to_nat total) (sgs_addrs sg) -> in_range m0 X -> NoDup X -> apart scratch X ->
  total <= Z.of_nat (length (sgs_addrs sg)) -> blen m = blen m0 -> cursor_at c sg p -> 0 < x <= left p ->
  (forall a, a ∈ seqZ q x -> a ∈ scratch) ->
  exists m' c', scatterwalk_copychunks m q c x out = Some (m', c') /\
    copied (fst (dir out (seqZ q x) (part X p (Z.to_nat x)))) (snd (dir out (seqZ q x) (part X p (Z.to_nat x)))) m m' /\
    walk_ok c' /\ walk_addrs c' = drop (p + Z.to_nat x) (sgs_addrs sg) /\ visited m' c'.
Proof using Hbs Hrq.
  intros -> HX Hnd Hap Hlen Hl (Hok & Ea & Hin) Hx Hp. set (X := take _ (sgs_addrs sg)) in *.
  assert (take (Z.to_nat x) (walk_addrs c) = part X p (Z.to_nat x)) as Et.
  { rewrite Ea. unfold part, X. rewrite skipn_firstn_comm, take_take. f_equal. lia. }
  destruct (copychunks_ok m q c x out Hok) as (m' & c' & E & Hc & Hok' & Hv & Ea'); rewrite ?Et.
  - apply Hin. lia.
  - rewrite Ea, length_drop. lia.
  - apply in_mem_len; [done|]. apply scratch_mem; [lia|done].
  - apply (in_range_blen m0); [done|]. by apply part_range.
  - unfold part. apply (sublist_NoDup _ X); [done|]. etransitivity; [apply sublist_take|apply sublist_drop].
  - apply (apart_incl scratch _ X _); [done|apply part_in|done].
  - exists m', c'. rewrite Et in Hc. split; [done|]. split; [done|]. split; [done|]. split; [|done].
    by rewrite Ea', Ea, drop_drop.
Qed.

(** The buffer that a slow chunk uses. *)
Definition slow_buffer (w : walk_state) (x : Z) : walk_state :=
  let w := if truthy (w_buffer w) then w else set_buffer w (w_page w) in
  if truthy (w_buffer w) then w else count_call (set_buffer w (kmalloc (w_calls w) (slow_size x))).

Lemma slow_buffer_ok w p copy : prepared w p copy -> 0 < left p ->
  buf_good (w_buffer (slow_buffer w (bsz p))) (bsz p) /\ prepared (slow_buffer w (bsz p)) p copy.
Proof using Hrq Hbs.
  intros [[Et Hi Ho Eb Hp Hbuf Ei] Hs Hc Hpg] Hlt. unfold slow_buffer. cbv zeta.
  destruct (truthy (w_buffer w)) eqn:Etb.
  - rewrite Etb. assert (buf_good (w_buffer w) (bsz p)) as Hg by (destruct Hbuf as [[E _]|]; [by rewrite E in Etb|done]). done.
  - change (w_buffer (set_buffer w (w_page w))) with (w_page w). destruct (truthy (w_page w)) eqn:Etp.
    + assert (page_good (w_page w)) as Hg by (destruct Hp as [E|]; [by rewrite E in Etp|done]).
      apply page_buf, (buf_good_le _ _ (bsz p)) in Hg; [|lia]. split; [done|]. split; [|done..]. split; try done. by right.
    + assert (own = false) as Hown by (destruct Hbuf as [[_ H]|[H _]]; [done|]; by apply truthy_true in H; rewrite H in Etb).
      pose proof (kmalloc_buf _ (bsz p) ltac:(lia) (rq_kmalloc Hrq (w_calls (set_buffer w (w_page w))) (bsz p) Hown ltac:(lia))) as Hg.
      split; [done|]. split; [|done..]. split; try done. by right.
Qed.

Lemma slow_turn m w p copy : mem_at m p -> prepared w p copy -> 0 < left p -> works F p (bsz p) (Z.to_nat (bsz p)) ->
  gives (blkcipher_next_slow ivs alignmask ctx_alignment info kmalloc m w (bsz p)) p.
Proof using All.
  intros Hm Hpr Hlen Hw. destruct (slow_buffer_ok w p copy Hpr Hlen) as [Hbg [Hc Hs Hcp Hpg]]. unfold blkcipher_next_slow. cbv zeta.
  replace (alignmask + 1) with (2 ^ k) by lia. fold (slow_size (bsz p)). change (if truthy _ then _ else count_call _) with (slow_buffer w (bsz p)).
  set (w0 := slow_buffer w (bsz p)) in *. clearbody w0. assert (exists x, x = bsz p) as [x Ex] by eauto. rewrite <- Ex in *.
  assert (0 < x <= left p /\ x <= bs) as [Hx Hxb] by lia.
  destruct Hbg as (Hb0 & Hbg). destruct (Hbg x ltac:(lia)) as [Hds Hsc]. rewrite (proj2 (truthy_true _) Hb0). cbn [negb].
  assert (blkcipher_get_spot (ALIGN (w_buffer w0) (2 ^ k)) x = dsp (w_buffer w0) x) as Ed by (unfold dst_spot; by replace (alignmask + 1) with (2 ^ k) by lia).
  assert (blkcipher_get_spot (u32 (dsp (w_buffer w0) x + ALIGN x (2 ^ k))) x = ssp (w_buffer w0) x) as Es
    by (unfold src_spot; by replace (alignmask + 1) with (2 ^ k) by lia).
  rewrite Ed, Es. set (d := dsp (w_buffer w0) x) in *. set (s := ssp (w_buffer w0) x) in *.
  assert ((forall a, a ∈ seqZ d x -> a ∈ scratch) /\ forall a, a ∈ seqZ s x -> a ∈ scratch) as [Hd Hss].
  { split; intros a Ha; apply Hsc, elem_of_app; auto. }
  pose proof Hc as [Et Hi Ho Eb Hp Hbuf Ei]. pose proof (mem_at_len m p Hm) as Hl. pose proof (ma_bytes m p Hm) as Hb. destruct scratch_A as [SA SO].
  destruct (copy_block m (w_in w0) sgi A p s x false eq_refl (rq_in_A Hrq) (rq_nodup_A Hrq) SA (rq_len_i Hrq) Hl Hi Hx Hss)
    as (m1 & i & E1 & C1 & I1 & I2 & I3). cbn [dir fst snd] in C1. rewrite E1, bind_Some_eq.
  assert (same_out scratch m m1) as S1 by (eapply same_out_mono; [exact Hss|apply C1]). assert (blen m1 = blen m0) as Hl1 by (by rewrite (proj1 S1)).
  assert (bytes_ok m1) as Hb1 by (apply (copied_bytes (seqZ s x) (part A p (Z.to_nat x)) m m1 Hb); [apply (in_range_blen m0); [done|]; apply part_range, Hrq|done]).
  assert (Z.of_nat (Z.to_nat x) = x) as Exx by lia.
  assert (rd m1 s x = part D p (Z.to_nat x)) as ED.
  { rewrite <- gather_range by (apply in_mem_len; [done|]; apply scratch_mem; [lia|done]). destruct C1 as [-> _]. by apply part_data. }
  pose proof (rq_small Hrq) as Hsmall. pose proof pow_k as Hpk. rewrite page_size in Hsmall.
  destruct (bounce_mem m p x (Z.to_nat x) m1 s d Hm Hw Hb1 S1) as (m2 & EF & Hb2 & Hl2 & Hm3); rewrite ?Exx; try done; [right; unfold disjoint; lia|].
  rewrite Exx in EF, Hm3.
  destruct (copy_block m2 (w_out w0) sgo O p d x true eq_refl (rq_in_O Hrq) (rq_nodup_O Hrq) SO (rq_len_o Hrq) Hl2 Ho Hx Hd)
    as (m3 & o & E3 & C3 & O1 & O2 & O3). cbn [dir fst snd] in C3. specialize (Hm3 m3 C3). rewrite Z.sub_diag in EF.
  eexists m1, _, m2, 0, m3, (p + Z.to_nat x)%nat. split; [done|]. set (w1 := set_flags _ _).
  assert (w_cur w1 = Walk x s d iv) as Ecur by (unfold w1; cbn; by rewrite Ei). rewrite Ecur. split; [cbn; lia|]. split; [done|].
  split; [lia|]. split; [apply Hw|]. split; [lia|]. split; [done|].
  assert (has_walk_flag w1 BLKCIPHER_WALK_SLOW = true) as Hsl.
  { unfold has_walk_flag, w1. cbn [w_flags set_flags]. rewrite Z.land_lor_distr_l. apply truthy_true. intros [_ H]%Z.lor_eq_0_iff. done. }
  unfold blkcipher_walk_done. cbn [Z.leb Z.compare]. rewrite Hsl, Ecur. cbn [andb truthy negb walk_nbytes Z.eqb].
  rewrite Z.sub_0_r, u32_small by (unfold is_u32; lia). unfold blkcipher_done_slow. cbv zeta. replace (alignmask + 1) with (2 ^ k) by lia.
  change (w_buffer w1) with (w_buffer w0). change (w_out w1) with (w_out w0). rewrite Ed, E3, !bind_Some_eq.
  set (w3 := set_out w1 o). change (resumes m3 (p + Z.to_nat x) (walk_tail m3 w3 (u32 (w_total w3 - x)))).
  assert (w_total w3 = left p) as -> by exact Et. rewrite u32_small by (unfold is_u32; pose proof (rq_total Hrq); lia).
  replace (left p - x) with (left (p + Z.to_nat x)) by lia. apply walk_tail_ok; [by apply (mem_at_len _ (p + Z.to_nat x))| |lia].
  assert (blen m3 = blen m1) as L31 by (destruct C3 as (_ & -> & _); by rewrite Hl2).
  split; try done.
  - split; [done|]. split; [done|]. by apply (visited_blen m1).
  - destruct Hbuf as [|Hbuf]; [by left|right]. apply (buf_good_le _ (bsz p)); [lia|]. by rewrite <- Ex.
Qed.

(** The function can work on every chunk that begins at [p]. *)
Definition ready (p : nat) : Prop :=
  (forall x, bsz p <= x <= left p -> exists y, works F p x y) /\ works F p (bsz p) (Z.to_nat (bsz p)).

Lemma next_turn m w p : mem_at m p -> cur_at w p -> tbs <= left p -> ready p -> gives (walk_next m w) p.
Proof using All.
  intros Hm Hc Hlen [Hr1 Hr2]. destruct (walk_next_prepared m w p Hc Hlen) as (w' & copy & Hpr & ->).
  pose proof (pr_cur _ _ _ Hpr) as [_ (I1 & _ & I2) (O1 & _ & O2) _ _ _ _].
  destruct (clamp_ok (w_in w') (left p) I1 (I2 ltac:(lia)) ltac:(lia)) as (x1 & pi & -> & X1 & _ & C1). rewrite bind_Some_eq.
  destruct (clamp_ok (w_out w') x1 O1 (O2 ltac:(lia)) ltac:(lia)) as (x & po & -> & X2 & X3 & C2). rewrite bind_Some_eq.
  pose proof (contiguous_sub _ pi x1 x ltac:(lia) C1) as C1'. destruct (Z.ltb_spec x (bsz p)) as [Hlt|Hge].
  - apply (slow_turn m w' p copy); [done|done|lia|done].
  - destruct (Hr1 x ltac:(lia)) as [y Hy].
    destruct copy; [by apply (copy_turn m w' p x y pi po); try lia | by apply (fast_turn m w' p x y pi po); try lia].
Qed.

(** ** Whole requests *)

Context (Hready : forall p, stop p -> 0 < left p -> ready p /\ tbs <= left p).
Abbreviation loop := (crypt_loop alignmask ctx_alignment info get_free_page kmalloc tbs ivs F).

Lemma walk_on m p R : mem_at m p -> stop p -> resumes m p R -> Z.of_nat p <= total ->
  0 < left p /\ gives R p \/ Z.of_nat p = total /\ exists m' w, R = Some (m', w, 0) /\ ended m m' /\ walk_nbytes (w_cur w) = 0.
Proof using All.
  intros Hm Hp [(Hlt & w & -> & Hc)|(Heq & Hw)] Hle; [left; split; [done|]|right; split; [lia|done]].
  destruct (Hready p Hp Hlt). by apply next_turn.
Qed.

Lemma loop_ok R p fuel : gives R p -> left p < Z.of_nat fuel ->
  exists m' w m, (st ← R; loop fuel st) = Some (m', w, 0) /\ mem_at m (Z.to_nat total) /\ ended m m'.
Proof using All.
  revert R p. induction fuel as [|fuel IH]; intros R p (m1 & w1 & m2 & r & m3 & p' & -> & Hnb & EF & Hj & Hst & Hj' & Hm & Hres) Hf; [lia|].
  rewrite bind_Some_eq. unfold crypt_loop. cbn [c_loop]. rewrite (proj2 (truthy_true _)), EF, bind_Some_eq by lia.
  destruct (walk_on _ _ _ Hm Hst Hres Hj') as [[Hlt' Hg]|(Heq & m' & w & Ew & Hend & Hz)].
  - destruct (IH _ p' Hg) as (m' & w' & m & E & Hm'); [lia|]. exists m', w', m. split; [|done]. unfold crypt_loop in E. destruct (walk_done m2 w1 r) as [s|]; [|done]. exact E.
  - rewrite Ew, bind_Some_eq. destruct fuel as [|fuel]; [lia|]. cbn [c_loop]. rewrite Hz. cbn [truthy negb Z.eqb].
    exists m', w, m3. split; [done|]. by replace (Z.to_nat total) with p' by lia.
Qed.

(** The start of the walk, from where the chaining value is in place. *)
Definition walk_begin (m : mem) (w : walk_state) : option (mem * walk_state * Z) :=
  i ← scatterwalk_start (sw_sg (w_in w));
  o ← scatterwalk_start (sw_sg (w_out w));
  walk_next m (set_page (set_out (set_in w i) o) 0).

Record at_start (w : walk_state) : Prop := AtStart {
  as_total : w_total w = total; as_in : sw_sg (w_in w) = sgi; as_out : sw_sg (w_out w) = sgo; as_bs : w_blocksize w = bs;
  as_iv : walk_iv (w_cur w) = iv; as_buf : w_buffer w = 0 /\ own = false \/ buf_good (w_buffer w) bs
}.

Lemma begin_ok w : at_start w -> gives (walk_begin m0 w) 0.
Proof using All.
  intros [Et Ei Eo Eb Eiv Hbuf]. pose proof (rq_total Hrq) as Ht. unfold walk_begin. rewrite Ei, Eo.
  destruct (start_ok sgi (rq_sgi Hrq)) as (i & -> & I1 & I2 & I3).
  { intros E. pose proof (rq_len_i Hrq) as H. rewrite E in H. cbn in H. lia. }
  destruct (start_ok sgo (rq_sgo Hrq)) as (o & -> & O1 & O2 & O3).
  { intros E. pose proof (rq_len_o Hrq) as H. rewrite E in H. cbn in H. lia. }
  rewrite !bind_Some_eq. destruct (Hready 0) as [Hr Hl]; [by left|lia|]. apply next_turn; [apply mem_at_0| |done|done].
  split; cbn; try done; try lia; try (by left).
  destruct Hbuf as [|Hbuf]; [by left|right]. apply (buf_good_le _ bs); [lia|done].
Qed.

Lemma request_ok w : at_start w -> exists m' w' m,
  (st ← walk_begin m0 w; loop (count_fuel total) st) = Some (m', w', 0) /\ mem_at m (Z.to_nat total) /\ ended m m'.
Proof using All.
  intros Hw. apply (loop_ok _ 0); [by apply begin_ok|]. pose proof (rq_total Hrq). unfold count_fuel. lia.
Qed.

(** The loop that leaves a last chunk of less than a block. *)
Definition final_loop (G : mem -> blkcipher_walk -> option (mem * Z)) (H : mem -> blkcipher_walk -> option mem) (fuel : nat)
    (st : mem * walk_state * Z) : option (mem * walk_state * Z) :=
  '(m, walk, err) ← c_loop fuel (fun '(m, walk, err) =>
    if bs <=? walk_nbytes (w_cur walk) then
      '(m, nbytes) ← G m (w_cur walk);
      st ← walk_done m walk nbytes;
      Some (inl st)
    else Some (inr (m, walk, err))) st;
  if truthy (walk_nbytes (w_cur walk)) then
    m ← H m (w_cur walk);
    walk_done m walk 0
  else Some (m, walk, err).

Definition or_final (G : mem -> blkcipher_walk -> option (mem * Z)) (H : mem -> blkcipher_walk -> option mem) (m : mem) (w : blkcipher_walk) :=
  if bs <=? walk_nbytes w then G m w else m ← H m w; Some (m, 0).

Lemma stop_next p p' : stop p -> (p < p')%nat -> stop p' -> 0 < left p < bs -> Z.of_nat p' <= total -> Z.of_nat p' = total.
Proof using Hbs.
  intros [Hp|Hp] Hlt [Hp'|Hp'] Hb Hle; try lia. pose proof (mult_lt _ _ _ Hbs Hp Hp' ltac:(lia)). lia.
Qed.

Lemma final_loop_ok G H R p fuel : F = or_final G H -> stop p -> 0 < left p -> gives R p -> left p < Z.of_nat fuel ->
  exists m' w m, (st ← R; final_loop G H fuel st) = Some (m', w, 0) /\ mem_at m (Z.to_nat total) /\ ended m m'.
Proof using All.
  intros HF. revert R p. induction fuel as [|fuel IH];
    intros R p Hp Hlt (m1 & w1 & m2 & r & m3 & p' & -> & Hnb & EF & Hj & Hst & Hj' & Hm & Hres) Hf; [lia|].
  rewrite bind_Some_eq. unfold final_loop. cbn [c_loop]. rewrite HF in EF. unfold or_final in EF. destruct (Z.leb_spec bs (walk_nbytes (w_cur w1))) as [Hb|Hb].
  - rewrite EF, bind_Some_eq. destruct (walk_on _ _ _ Hm Hst Hres Hj') as [[Hlt' Hg]|(Heq & m' & w & Ew & Hend & Hz)].
    + destruct (IH _ p' Hst Hlt' Hg) as (m' & w' & m & E & Hm'); [lia|]. exists m', w', m. split; [|done].
      unfold final_loop in E. destruct (walk_done m2 w1 r) as [s|]; [|done]. exact E.
    + exists m', w, m3. rewrite Ew, bind_Some_eq. destruct fuel as [|fuel]; [lia|]. cbn [c_loop]. rewrite Hz. destruct (Z.leb_spec bs 0); [lia|].
      rewrite bind_Some_eq, Hz. cbn [truthy negb Z.eqb]. split; [done|]. by replace (Z.to_nat total) with p' by lia.
  - rewrite bind_Some_eq, (proj2 (truthy_true _)) by lia. destruct (H m1 (w_cur w1)) as [m2'|]; [|done]. cbn in EF. injection EF as -> <-.
    pose proof (stop_next p p' Hp Hj Hst ltac:(lia) Hj') as Hend. rewrite bind_Some_eq.
    destruct Hres as [[? _]|(_ & m' & w & -> & He & Hz)]; [lia|]. exists m', w, m3. split; [done|]. by replace (Z.to_nat total) with p' by lia.
Qed.

Lemma final_request_ok G H w : F = or_final G H -> at_start w -> exists m' w' m,
  (st ← walk_begin m0 w; final_loop G H (count_fuel total) st) = Some (m', w', 0) /\ mem_at m (Z.to_nat total) /\ ended m m'.
Proof using All.
  intros HF Hw. pose proof (rq_total Hrq). apply (final_loop_ok G H _ 0).
  - done.
  - by left.
  - lia.
  - by apply begin_ok.
  - unfold count_fuel. lia.
Qed.
End request.
