(* ===== verification/ModesRequestStart.v ===== *)
(** * Requests: the chaining value

    [blkcipher_walk_first] leaves the chaining value where the request has it
    when it is aligned, and otherwise moves it to a buffer of the walk, from
    which [blkcipher_walk_done] copies it back at the end.  Either way the walk
    begins in a setting as [ModesRequestCorrect] assumes it. *)

From S2P Require Import Prelude Bytes Mem LibString LibStringCorrect Cipher CryptoOps Modes ModesCorrect ModesLoops ModesTheorems.
From S2P Require Import Scatterwalk ScatterwalkCorrect BlkcipherWalk BlkcipherWalkCorrect ModesRequest ModesRequestCorrect.
Open Scope c_scope.

Section start.
Context (bs : Z) (Hbs : 0 < bs) (tmp k ctx_alignment info ivs : Z) (get_free_page : nat -> Z) (kmalloc : nat -> Z -> Z).
Context (m0 : mem) (sgi sgo : list scatterlist) (total : Z) (pages bufs : list Z).
Abbreviation alignmask := (2 ^ k - 1).
Abbreviation A := (A sgi total).
Abbreviation O := (O sgo total).

(** [kmalloc] aligns to [ctx_alignment]. *)
Definition kmalloc_good (b size : Z) : Prop :=
  0 < b /\ b mod ctx_alignment = 0 /\ b + 3 * PAGE_SIZE <= 2 ^ 32 /\ forall a, a ∈ seqZ b size -> a ∈ bufs.

(** A request: the lists describe [total] bytes each, in place or apart; the
    chaining value is at [info], the local array at [tmp]; [pages] and [bufs] is
    the memory from which [get_free_page] and [kmalloc] allocate, and both
    succeed.  An unaligned chaining value has the size of a block. *)
Record request : Prop := Request {
  req_sgi : Forall sg_ok sgi; req_sgo : Forall sg_ok sgo;
  req_total : 0 < total < 2 ^ 32;
  req_len_i : total <= Z.of_nat (length (sgs_addrs sgi)); req_len_o : total <= Z.of_nat (length (sgs_addrs sgo));
  req_bytes : bytes_ok m0; req_mem : blen m0 <= 2 ^ 32;
  req_in_A : in_range m0 A; req_in_O : in_range m0 O; req_in_pages : in_range m0 pages; req_in_bufs : in_range m0 bufs;
  req_in_info : in_mem m0 info bs; req_in_tmp : in_mem m0 tmp bs;
  req_nodup_A : NoDup A; req_nodup_O : NoDup O; req_AO : A = O \/ apart A O;
  req_info : apart (seqZ info bs) (A ++ O);
  req_tmp : apart (seqZ tmp bs) (A ++ O ++ seqZ info bs);
  req_pages : apart pages (A ++ O ++ seqZ info bs ++ seqZ tmp bs);
  req_bufs : apart bufs (A ++ O ++ seqZ info bs ++ seqZ tmp bs ++ pages);
  req_k : 0 <= k <= PAGE_SHIFT; req_small : 4 * (bs + 2 ^ k) <= PAGE_SIZE;
  req_ctx_alignment : exists c, 0 <= c <= PAGE_SHIFT /\ ctx_alignment = 2 ^ c;
  req_page i : page_good pages (get_free_page i);
  req_kmalloc i size : 0 < size <= PAGE_SIZE -> kmalloc_good (kmalloc i size) size;
  req_iv : info .& alignmask = 0 \/ ivs = bs
}.
Context (Hrq : request).

Lemma page_good_incl X Y p : (forall a, a ∈ X -> a ∈ Y) -> page_good X p -> page_good Y p.
Proof using. intros H (P1 & P2 & P3 & P4). split_and!; auto. Qed.

Lemma align_pos : 0 < 2 ^ k /\ 2 ^ k <= PAGE_SIZE.
Proof using Hrq Hbs.
  pose proof (req_k Hrq). pose proof (req_small Hrq). pose proof (Z.pow_pos_nonneg 2 k ltac:(lia) ltac:(lia)). lia.
Qed.

Lemma slack_range : 0 <= alignmask .& .~ (ctx_alignment - 1) < 2 ^ k.
Proof using Hrq Hbs.
  destruct (req_ctx_alignment Hrq) as (c & Hc & ->). destruct align_pos as [Hp Hpp]. rewrite page_size in Hpp.
  rewrite land_not32_mask by (unfold is_u32; lia). pose proof (Z.pow_pos_nonneg 2 c ltac:(lia) ltac:(lia)).
  pose proof (Z.mod_pos_bound (2 ^ k - 1) (2 ^ c) ltac:(lia)). pose proof (Z.mod_le (2 ^ k - 1) (2 ^ c) ltac:(lia) ltac:(lia)). lia.
Qed.

(** The buffer of a slow chunk has a size that [kmalloc] can give. *)
Lemma slow_size_ok bsize : 0 < bsize <= bs -> 0 < slow_size k ctx_alignment bsize <= PAGE_SIZE.
Proof using Hrq Hbs.
  intros Hb. destruct align_pos as [Hp Hpp]. pose proof slack_range. pose proof (req_small Hrq) as Hs. pose proof (req_k Hrq). rewrite page_size in *.
  destruct (ALIGN_ok bsize k) as (B1 & B2 & _); [lia..|]. pose proof (mult_lt 0 _ _ Hp ltac:(done) B2 ltac:(lia)).
  unfold slow_size. rewrite u32_small by (unfold is_u32; lia). lia.
Qed.

(** ** The chaining value is aligned *)

Lemma setting_aligned : setting bs tmp k ctx_alignment info info ivs false get_free_page kmalloc m0 sgi sgo total (pages ++ bufs).
Proof using Hrq Hbs.
  pose proof (req_pages Hrq) as HP. pose proof (req_bufs Hrq) as HB. pose proof (req_small Hrq) as Hs. destruct align_pos.
  destruct Hrq; split; try done; try lia.
  - by apply in_range_app.
  - apply apart_app_l. split; [done|]. rewrite !apart_app_r in HB. rewrite !apart_app_r. tauto.
  - intros i. apply (page_good_incl pages); [|done]. intros a. rewrite elem_of_app. auto.
  - intros i bsize _ Hb. destruct (req_kmalloc0 i (slow_size k ctx_alignment bsize)) as (K1 & K2 & K3 & K4); [by apply slow_size_ok|].
    split_and!; try done. intros a Ha. apply elem_of_app. auto.
Qed.

(** ** What a request leaves *)

(** [out] is at the bytes of the destination list, [v] is the chaining value, and
    nothing else has changed that the caller can see. *)
Record request_done (m : mem) (out v : list Z) : Prop := RequestDone {
  rd_bytes : bytes_ok m;
  rd_out : gather m O = out;
  rd_chain : rd m info bs = v;
  rd_same : same_out (O ++ seqZ info bs ++ seqZ tmp bs ++ pages ++ bufs) m0 m
}.

Lemma take_O : take (Z.to_nat total) O = O.
Proof using. apply take_ge. unfold ModesRequestCorrect.O. rewrite length_take. lia. Qed.

Lemma done_aligned spec m m' : mem_at bs tmp info m0 sgo total (pages ++ bufs) spec m (Z.to_nat total) -> ended info info ivs m m' ->
  request_done m' (fst (spec (Z.to_nat total))) (snd (spec (Z.to_nat total))).
Proof using.
  intros [Hb Hs Hd Hc] [[_ ->]|[? _]]; [|done]. rewrite take_O in Hs, Hd. by split.
Qed.

(** ** The chaining value is moved *)

Section moved.
Context (c : nat).
Abbreviation slack := (alignmask .& .~ (ctx_alignment - 1)).

(** What [blkcipher_copy_iv] allocates, and where it puts the value. *)
Definition iv_size : Z :=
  let ab := ALIGN bs (2 ^ k) in u32 (u32 (ab * 2 + bs + Z.max ab bs - 2 ^ k) + slack).
Definition iv_buf : Z := kmalloc c iv_size.
Definition new_iv : Z := iv_spot alignmask iv_buf bs.
Definition own_scratch : list Z := pages ++ filter (fun a => a ∉ seqZ new_iv bs) bufs.

Lemma iv_buf_good : kmalloc_good iv_buf iv_size /\ new_iv + bs <= iv_buf + iv_size /\ iv_buf <= ALIGN iv_buf (2 ^ k).
Proof using Hrq Hbs.
  destruct align_pos as [Hp Hpp]. pose proof slack_range as Hsl. pose proof (req_small Hrq) as Hs. pose proof (req_k Hrq) as Hk. rewrite page_size in *.
  destruct (ALIGN_ok bs k) as (B1 & B2 & _); [lia..|]. pose proof (mult_lt 0 _ _ Hp ltac:(done) B2 ltac:(lia)) as B3.
  assert (iv_size = ALIGN bs (2 ^ k) * 3 + bs - 2 ^ k + slack) as Es.
  { unfold iv_size. cbv zeta. rewrite Z.max_l, !u32_small by (unfold is_u32; rewrite ?Z.max_l, ?u32_small; unfold is_u32; lia). lia. }
  destruct (req_kmalloc Hrq c iv_size) as (K1 & K2 & K3 & K4); [rewrite page_size; lia|]. split; [done|]. fold iv_buf in K1, K2, K3, K4. rewrite page_size in K3.
  destruct (three_spots iv_buf k bs) as (_ & _ & _ & T); [lia|done|rewrite page_size; lia|lia|rewrite page_size; lia|].
  destruct (req_ctx_alignment Hrq) as (c' & Hc' & Ec). rewrite Ec in K2.
  pose proof (slack_ok _ _ _ _ _ _ _ _ _ _ _ _ _ _ _ setting_aligned iv_buf c' Hc' K1 ltac:(rewrite page_size; lia) K2) as [S1 _]. rewrite <- Ec in S1.
  destruct (ALIGN_ok iv_buf k) as (A1 & _); [lia..|]. unfold new_iv. lia.
Qed.

Lemma new_iv_bufs a : a ∈ seqZ new_iv bs -> a ∈ bufs.
Proof using Hrq Hbs.
  destruct iv_buf_good as ((_ & _ & K3 & K4) & H1 & H2). intros Ha%elem_of_seqZ. apply K4, elem_of_seqZ.
  pose proof (req_small Hrq) as Hs. pose proof (req_k Hrq). destruct (iv_buf_good) as ((K1 & _ & _ & _) & _ & _).
  destruct (spots_before iv_buf k bs ltac:(lia) Hbs Hs ltac:(lia) K3 bs ltac:(lia)) as (T1 & T2 & T3). unfold new_iv in *. lia.
Qed.

(** The spots for the blocks are in the buffer, before the value. *)
Lemma own_buf_good : buf_good k own_scratch iv_buf bs.
Proof using Hrq Hbs.
  destruct iv_buf_good as ((K1 & _ & K3 & K4) & H1 & H2). pose proof (req_small Hrq) as Hs. pose proof (req_k Hrq).
  split; [lia|]. intros x Hx. destruct (spots_before iv_buf k bs ltac:(lia) Hbs Hs ltac:(lia) K3 x Hx) as (T1 & T2 & T3). fold new_iv in T3.
  split; [done|]. intros a Ha. rewrite elem_of_app, !elem_of_seqZ in Ha. unfold own_scratch. apply elem_of_app. right. apply list_elem_of_filter.
  rewrite elem_of_seqZ. split; [lia|]. apply K4, elem_of_seqZ. lia.
Qed.

Lemma own_incl a : a ∈ own_scratch -> a ∈ pages ++ bufs.
Proof using. unfold own_scratch. rewrite !elem_of_app, list_elem_of_filter. tauto. Qed.

(** The memory after the copy. *)
Context (m1 : mem) (Hcp : copied (seqZ new_iv bs) (seqZ info bs) m0 m1).

Lemma bufs_in : in_mem m0 new_iv bs.
Proof using Hrq Hbs.
  apply in_range_mem; [done|]. apply Forall_forall. intros a Ha%list_elem_of_In. pose proof (req_in_bufs Hrq) as H. unfold in_range in H.
  rewrite Forall_forall in H. by apply H, list_elem_of_In, new_iv_bufs.
Qed.

Lemma iv_apart X : apart bufs X -> apart (seqZ new_iv bs) X.
Proof using Hrq Hbs. apply apart_incl; [apply new_iv_bufs|done]. Qed.

Lemma setting_moved : ivs = bs ->
  setting bs tmp k ctx_alignment info new_iv ivs true get_free_page kmalloc m1 sgi sgo total own_scratch.
Proof using All.
  intros Hivs. rewrite Hivs. pose proof (req_pages Hrq) as HP. pose proof (req_bufs Hrq) as HB. pose proof bufs_in as Hv. pose proof (req_small Hrq) as Hs. destruct align_pos as [Hp Hpp].
  assert (blen m1 = blen m0) as El by (destruct Hcp as (_ & L & _); done).
  assert (in_range m0 own_scratch) as Ho.
  { apply Forall_forall. intros a Ha%list_elem_of_In%own_incl. pose proof (proj2 (in_range_app m0 pages bufs) (conj (req_in_pages Hrq) (req_in_bufs Hrq))) as HR.
    unfold in_range in HR. rewrite Forall_forall in HR. by apply HR, list_elem_of_In. }
  rewrite !apart_app_r in HP. rewrite !apart_app_r in HB. destruct HP as (P1 & P2 & P3 & P4). destruct HB as (B1 & B2 & B3 & B4 & B5).
  assert (bytes_ok m1) as Hb1 by (apply (copied_bytes (seqZ new_iv bs) (seqZ info bs) m0 m1 (req_bytes Hrq)); [apply in_range_mem; [done|]; apply Hrq|done]).
  assert (forall X, apart pages X -> apart bufs X -> apart own_scratch X) as Hown.
  { intros X H1 H2. eapply apart_incl; [apply own_incl|done|]. by apply apart_app_l. }
  pose proof (req_tmp Hrq) as HT. rewrite !apart_app_r in HT. destruct HT as (T1 & T2 & T3).
  destruct Hrq; split; try done; try lia; try (by apply (in_range_blen m0)); try (eapply in_mem_len; done).
  - apply apart_app_r. split; by apply iv_apart.
  - rewrite !apart_app_r. split_and!; try done. by apply apart_sym, iv_apart.
  - rewrite !apart_app_r. split_and!; try (by apply Hown). intros a Ha Hi. unfold own_scratch in Ha. rewrite elem_of_app, list_elem_of_filter in Ha.
    destruct Ha as [Ha|[Ha _]]; [|done]. by apply (B5 a); [apply new_iv_bufs|].
  - intros _. split_and!; [by eapply in_mem_len|by eapply in_mem_len|]. apply apart_disjoint; [done..|]. by apply apart_sym, iv_apart.
  - intros i. eapply page_good_incl; [|done]. intros a Ha. apply elem_of_app. by left.
Qed.

Lemma done_moved spec m m' : ivs = bs -> mem_at bs tmp new_iv m1 sgo total own_scratch spec m (Z.to_nat total) -> ended info new_iv ivs m m' ->
  request_done m' (fst (spec (Z.to_nat total))) (snd (spec (Z.to_nat total))).
Proof using All.
  intros Hivs [Hb Hs Hd Hc] He. rewrite take_O in Hs, Hd. pose proof (req_bufs Hrq) as HB. rewrite !apart_app_r in HB.
  destruct HB as (B1 & B2 & B3 & B4 & B5). pose proof (iv_apart _ B3) as Hvi.
  assert (blen m = blen m0) as El by (destruct Hs as [-> _]; by destruct Hcp as (_ & L & _)).
  assert (in_mem m info bs /\ in_mem m new_iv bs) as [Mi Mv] by (split; eapply in_mem_len; try done; [apply Hrq|apply bufs_in]).
  destruct He as [[E _]|[_ He]].
  { exfalso. apply (Hvi info); rewrite elem_of_seqZ; lia. }
  rewrite Hivs in He. pose proof He as [G Hse]. assert (in_range m' (seqZ info bs)) as Ri.
  { apply (in_range_blen m); [apply Hse|]. by apply in_range_mem. }
  split.
  - apply (copied_bytes (seqZ info bs) (seqZ new_iv bs) m m' Hb); [by apply in_range_mem|done].
  - rewrite <- Hd. apply (gather_same _ m m' _ Hse).
    + apply (in_range_blen m0); [done|]. apply Hrq.
    + apply apart_sym. pose proof (req_info Hrq) as [_ H]%apart_app_r. exact H.
  - rewrite <- Hc, <- gather_range, G, gather_range; [done|done|by apply in_range_mem in Ri].
  - pose proof Hcp as [_ Hs1]. pose proof (same_out_trans _ _ _ _ _ Hs1 (same_out_trans _ _ _ _ _ Hs Hse)) as H. eapply same_out_mono; [|exact H].
    intros a. unfold others. rewrite !elem_of_app. pose proof (new_iv_bufs a). pose proof (own_incl a) as Ho. rewrite elem_of_app in Ho. tauto.
Qed.

Lemma moved_values : gather m1 A = gather m0 A /\ rd m1 new_iv bs = rd m0 info bs.
Proof using All.
  pose proof (req_bufs Hrq) as HB. rewrite !apart_app_r in HB. destruct HB as (B1 & _). destruct Hcp as [G Hs]. split.
  - apply (gather_same _ m0 m1 _ Hs); [apply Hrq|]. by apply apart_sym, iv_apart.
  - rewrite <- !gather_range; [done|apply Hrq|]. eapply in_mem_len; [apply Hs|]. apply bufs_in.
Qed.
End moved.

(** ** The beginning *)

Context (tbs : Z).
Abbreviation walk_first := (blkcipher_walk_first tbs ivs alignmask ctx_alignment info false get_free_page kmalloc).
Abbreviation walk_init v f := (set_blocksize (set_flags (blkcipher_walk_init v sgo sgi total) f) bs).

Lemma started v f : exists iv own m1 scratch w,
  setting bs tmp k ctx_alignment info iv ivs own get_free_page kmalloc m1 sgi sgo total scratch /\
  at_start bs k iv own sgi sgo total scratch w /\
  walk_first m0 (walk_init v f) = walk_begin k ctx_alignment info ivs get_free_page kmalloc tbs m1 w /\
  gather m1 A = gather m0 A /\ rd m1 iv bs = rd m0 info bs /\
  forall spec m m', mem_at bs tmp iv m1 sgo total scratch spec m (Z.to_nat total) -> ended info iv ivs m m' ->
    request_done m' (fst (spec (Z.to_nat total))) (snd (spec (Z.to_nat total))).
Proof using All.
  pose proof (req_total Hrq) as Ht. unfold blkcipher_walk_first. cbv zeta.
  cbn [w_total set_nbytes set_cur set_blocksize set_flags blkcipher_walk_init set_total]. rewrite (proj2 (truthy_true total)) by lia. cbn [negb].
  cbn [walk_iv w_cur set_iv set_cur set_buffer]. destruct (decide (info .& alignmask = 0)) as [Hal|Hun].
  - rewrite (proj2 (truthy_false _) Hal), bind_Some_eq. cbn [truthy negb Z.eqb]. set (w := set_iv _ info).
    exists info, false, m0, (pages ++ bufs), w. split; [apply setting_aligned|]. split; [by split; [..|left]|]. split; [done|]. split; [done|].
    split; [done|]. intros spec m m'. apply done_aligned.
  - destruct (req_iv Hrq) as [?|Hivs]; [done|]. rewrite (proj2 (truthy_true _) Hun). set (w := set_iv _ info).
    unfold blkcipher_copy_iv. cbv zeta. replace (alignmask + 1) with (2 ^ k) by lia. change (w_blocksize w) with bs. change (w_calls w) with (w_calls v).
    rewrite Hivs. fold iv_size. fold (iv_buf (w_calls v)). cbn [w_buffer set_buffer count_call].
    destruct (iv_buf_good (w_calls v)) as ((K1 & _) & _). rewrite (proj2 (truthy_true (iv_buf (w_calls v)))) by lia. cbn [negb].
    set (iv := blkcipher_get_spot (u32 (blkcipher_get_spot (u32 _) bs + _)) bs).
    assert (iv = new_iv (w_calls v)) as Eiv by (unfold iv, new_iv, iv_spot, src_spot, dst_spot; by replace (alignmask + 1) with (2 ^ k) by lia).
    rewrite Eiv. change (walk_iv (w_cur _)) with info. pose proof (req_bufs Hrq) as HB. rewrite !apart_app_r in HB. destruct HB as (_ & _ & B3 & _).
    pose proof (apart_disjoint _ _ _ _ Hbs Hbs (iv_apart (w_calls v) _ B3)) as Hd. unfold disjoint in Hd.
    destruct (copied_memcpy m0 (new_iv (w_calls v)) info bs (bufs_in _) (req_in_info Hrq)) as (m1 & E & Hcp); [lia|].
    rewrite E, !bind_Some_eq. cbn [truthy negb Z.eqb]. set (w1 := set_iv _ (new_iv _)).
    exists (new_iv (w_calls v)), true, m1, (own_scratch (w_calls v)), w1. destruct (moved_values _ m1 Hcp) as [V1 V2].
    split; [rewrite <- Hivs at 2; by apply setting_moved|]. split; [split; try done; right; apply own_buf_good|]. split; [done|]. split; [done|]. split; [done|].
    intros spec m m' Hm He. apply (done_moved _ m1 Hcp _ m m' Hivs Hm). by rewrite Hivs.
Qed.
End start.
