(* ===== verification/ModesRequestTheorems.v ===== *)
(** * Requests: what they promise

    A request on scatter lists, whatever areas and pages they are cut into,
    computes the mode over the bytes of the source list: the whole blocks of
    ECB, CBC and PCBC, and every length in counter mode.  Decrypting what was
    encrypted gives the data back.  The copy functions of the scatter walk move
    the bytes of an area. *)

From S2P Require Import Prelude Bytes Mem LibString LibStringCorrect Cipher Tea CryptoOps Modes ModesCorrect ModesLoops ModesTheorems.
From S2P Require Import Scatterwalk ScatterwalkCorrect BlkcipherWalk BlkcipherWalkCorrect ModesRequest ModesRequestCorrect ModesRequestStart.
Open Scope c_scope.

(** ** The key stream of counter mode *)

Section stream.
Context (alg : crypto_alg) (ctx_wf : cra_ctx alg -> Prop) `{!CipherLaws alg ctx_wf} (ctx : cra_ctx alg) (Hctx : ctx_wf ctx).
Context (v : list Z) (Hv : block (cra_blocksize alg) v).
Abbreviation n := (cra_blocksize alg).

(** The blocks of the key stream, and the first [q] of them. *)
Definition key_block (i : nat) : list Z := enc alg ctx (Nat.iter i be_inc v).
Definition key_stream (q : nat) : list Z := concat (map key_block (seq 0 q)).

(** The blocks that [p] bytes need. *)
Definition blocks_for (p : nat) : nat := (p + (n - 1)) / n.

Lemma n_pos : (0 < n)%nat.
Proof using CipherLaws0. pose proof (bsize_pos alg ctx_wf) as H. unfold bsize in H. lia. Qed.

Lemma counter_block i : block n (Nat.iter i be_inc v) /\ block n (key_block i).
Proof using All.
  assert (block n (Nat.iter i be_inc v)) as H.
  { induction i as [|i IH]; [exact Hv|]. by apply be_inc_block. }
  split; [done|]. by apply (enc_ok alg ctx_wf ctx Hctx).
Qed.

Lemma key_stream_S q : key_stream (S q) = key_stream q ++ key_block q.
Proof using. unfold key_stream. rewrite seq_S, map_app, concat_app. cbn. by rewrite app_nil_r. Qed.

Lemma key_stream_length q : length (key_stream q) = (q * n)%nat.
Proof using All.
  induction q as [|q IH]; [done|]. rewrite key_stream_S, length_app, IH. destruct (counter_block q) as [_ [-> _]]. lia.
Qed.

Lemma blocks_for_mul q : blocks_for (q * n) = q.
Proof using CipherLaws0. pose proof n_pos. unfold blocks_for. rewrite Nat.div_add_l by lia. rewrite (Nat.div_small (n - 1)) by lia. lia. Qed.

Lemma blocks_for_rest q r : (0 < r <= n)%nat -> blocks_for (q * n + r) = S q.
Proof using.
  intros Hr. unfold blocks_for. replace (q * n + r + (n - 1))%nat with (S q * n + (r - 1))%nat by lia.
  rewrite Nat.div_add_l by lia. rewrite (Nat.div_small (r - 1)) by lia. lia.
Qed.

Lemma blocks_for_enough p : (p <= blocks_for p * n)%nat.
Proof using CipherLaws0.
  pose proof n_pos. unfold blocks_for. pose proof (Nat.div_mod_eq (p + (n - 1)) n). pose proof (Nat.mod_upper_bound (p + (n - 1)) n ltac:(lia)). lia.
Qed.
End stream.

Section promises.
Context (alg : crypto_alg) (ctx_wf : cra_ctx alg -> Prop) `{!CipherLaws alg ctx_wf} (ctx : cra_ctx alg) (Hctx : ctx_wf ctx).
Context (tmp k ctx_alignment info iv ivs : Z) (own : bool) (get_free_page : nat -> Z) (kmalloc : nat -> Z -> Z).
Context (m0 : mem) (sgi sgo : list scatterlist) (total : Z) (scratch : list Z).
Abbreviation bs := (bsize alg).
Abbreviation n := (cra_blocksize alg).
Context (Hrq : setting bs tmp k ctx_alignment info iv ivs own get_free_page kmalloc m0 sgi sgo total scratch).
Abbreviation alignmask := (2 ^ k - 1).
Abbreviation data := (D m0 sgi total).
Abbreviation v0 := (rd m0 iv bs).

Lemma data_length : Z.of_nat (length data) = total.
Proof using Hrq.
  pose proof (rq_total _ _ _ _ _ _ _ _ _ _ _ _ _ _ _ Hrq). pose proof (rq_len_i _ _ _ _ _ _ _ _ _ _ _ _ _ _ _ Hrq).
  unfold D, gather, A. rewrite length_map, length_take. lia.
Qed.

(** ** Whole blocks *)

Section blocks.
Context (F : mem -> blkcipher_walk -> option (mem * Z)) (st : mode_step) `{HF : !ChunkLaws alg tmp F st}.
Context (spec : nat -> list Z * list Z) (Hspec : forall q, (q * n <= length data)%nat -> spec (q * n)%nat = run st v0 (cut n q data)).
Abbreviation works := (works bs tmp iv m0 sgi total spec).

Lemma spec_step q nb : ((q + nb) * n <= length data)%nat ->
  spec ((q + nb) * n)%nat = let r := run st (snd (spec (q * n)%nat)) (cut n nb (part data (q * n) (nb * n))) in (fst (spec (q * n)%nat) ++ fst r, snd r).
Proof using Hspec.
  intros Hl. rewrite !Hspec by lia. rewrite cut_app, run_app. unfold part.
  rewrite <- (take_drop (nb * n) (drop (q * n) data)) at 1 2. by rewrite !cut_prefix by (rewrite length_take, length_drop; lia).
Qed.

Lemma works_blocks q x : bs <= x -> x <= total - Z.of_nat (q * n) -> works F (q * n) x (Z.to_nat (x / bs) * n).
Proof using All.
  intros Hx Ht. pose proof (bsize_pos alg ctx_wf) as Hbs. pose proof data_length as HD. pose proof (rq_total _ _ _ _ _ _ _ _ _ _ _ _ _ _ _ Hrq) as Htot.
  pose proof (Z.div_mod x bs ltac:(lia)) as Ex. pose proof (Z.mod_pos_bound x bs Hbs) as Hr. assert (1 <= x / bs) as Hq by (apply Z.div_le_lower_bound; lia).
  set (nb := Z.to_nat (x / bs)). assert (Z.of_nat (nb * n) = Z.of_nat nb * bs) as Ey by (unfold bsize; lia).
  assert (x = Z.of_nat nb * bs + x mod bs) as Ex' by (unfold nb; lia). split; [unfold nb in *; nia|]. split.
  { left. rewrite Nat2Z.inj_add, !Nat2Z.inj_mul, <- Z.mul_add_distr_r. fold bs. apply Z_mod_mult. }
  rewrite Ey. intros m src dst Hb Hl Ms Md D1 D2 D3 D4 D5 ED Ei.
  assert (in_mem m iv bs /\ in_mem m tmp bs) as [Mi Mt] by (split; eapply in_mem_len; try done; apply Hrq).
  assert (disjoint tmp bs iv bs) as Dti.
  { apply apart_disjoint; [done..|]. pose proof (rq_tmp _ _ _ _ _ _ _ _ _ _ _ _ _ _ _ Hrq) as [_ [_ H]%apart_app_r]%apart_app_r. done. }
  destruct (chunk_law (ChunkLaws := HF) nb (x mod bs) m src dst iv) as (m' & E & Hb' & R1 & R2 & Hs).
  - split; [done|lia|lia|]. split; try done; eapply in_mem_len; done.
  - split; try done; unfold disjoint in *; lia.
  - exists m'. rewrite <- Ex' in E. split; [rewrite E; do 2 f_equal; lia|]. split; [done|].
    rewrite ED, Ei in R1, R2. rewrite <- Nat.mul_add_distr_r, spec_step by lia. cbv zeta. cbn [fst snd]. by rewrite R1, R2.
Qed.
End blocks.

(** ** Requests of whole blocks *)

Lemma block_request F st w : ChunkLaws alg tmp F st -> total mod bs = 0 -> at_start bs k iv own sgi sgo total scratch w ->
  exists m' w' m spec, (st ← walk_begin k ctx_alignment info ivs get_free_page kmalloc bs m0 w;
      crypt_loop alignmask ctx_alignment info get_free_page kmalloc bs ivs F (count_fuel total) st) = Some (m', w', 0) /\
    mem_at bs tmp iv m0 sgo total scratch spec m (Z.to_nat total) /\ ended info iv ivs m m' /\
    spec (Z.to_nat total) = run st v0 (cut n (Z.to_nat (total / bs)) data).
Proof using All.
  intros HF Hmod Hw0. pose proof (bsize_pos alg ctx_wf) as Hbs. pose proof (n_pos alg ctx_wf) as Hn. pose proof (rq_total _ _ _ _ _ _ _ _ _ _ _ _ _ _ _ Hrq) as Htot.
  set (spec p := run st v0 (cut n (p / n) data)).
  assert (forall q, (q * n <= length data)%nat -> spec (q * n)%nat = run st v0 (cut n q data)) as Hspec.
  { intros q _. unfold spec. by rewrite Nat.div_mul by lia. }
  assert (Z.to_nat total = Z.to_nat (total / bs) * n)%nat as Et.
  { pose proof (Z.div_mod total bs ltac:(lia)). pose proof (Z.div_pos total bs ltac:(lia) Hbs). unfold bsize in *. lia. }
  destruct (request_ok bs Hbs tmp k ctx_alignment info iv ivs own get_free_page kmalloc m0 sgi sgo total scratch Hrq spec) with (F := F) (tbs := bs) (w := w)
    as (m' & w' & m & E & Hm & He).
  - unfold spec. by rewrite Nat.Div0.div_0_l.
  - lia.
  - intros p [Hp|Hp] Hlt; [|lia]. assert (p = Z.to_nat (Z.of_nat p / bs) * n)%nat as Ep.
    { pose proof (Z.div_mod (Z.of_nat p) bs ltac:(lia)). pose proof (Z.div_pos (Z.of_nat p) bs ltac:(lia) Hbs). unfold bsize in *. lia. }
    pose proof (mult_lt _ _ _ Hbs Hp Hmod ltac:(lia)) as Hb.
    assert (forall x, bs <= x <= total - Z.of_nat p -> works bs tmp iv m0 sgi total spec F p x (Z.to_nat (x / bs) * n)) as Hw.
    { intros x Hx. rewrite Ep. apply (works_blocks F st spec Hspec); lia. }
    split; [|lia]. split; [intros x Hx; eexists; apply Hw; lia|]. rewrite Z.min_l by lia. specialize (Hw bs ltac:(lia)). rewrite Z.div_same in Hw by lia.
    replace (Z.to_nat 1 * n)%nat with (Z.to_nat bs) in Hw by (unfold bsize; lia). exact Hw.
  - done.
  - exists m', w', m, spec. split; [exact E|]. split; [done|]. split; [done|]. rewrite Et. apply Hspec. pose proof data_length. lia.
Qed.

(** ** Counter mode *)

Abbreviation kstream := (key_stream alg ctx v0).
Abbreviation kblock := (key_block alg ctx v0).
Abbreviation nblocks := (blocks_for alg).
Definition ctr_spec (p : nat) : list Z * list Z := (xor_bytes (kstream (nblocks p)) (take p data), Nat.iter (nblocks p) be_inc v0).

Lemma v0_block : block n v0.
Proof using Hrq.
  pose proof (rq_in_iv _ _ _ _ _ _ _ _ _ _ _ _ _ _ _ Hrq) as Hi. pose proof (blen_rd _ _ _ Hi) as L. split; [unfold blen, bsize in *; lia|].
  apply bytes_rd, Hrq.
Qed.

(** The next [r] bytes take one more block of the key stream. *)
Lemma ctr_spec_rest q r : (0 < r <= n)%nat -> (q * n + r <= length data)%nat ->
  ctr_spec (q * n + r) = (fst (ctr_spec (q * n)) ++ xor_bytes (kblock q) (part data (q * n) r), be_inc (snd (ctr_spec (q * n)))).
Proof using All.
  intros Hr Hl. unfold ctr_spec. rewrite (blocks_for_mul alg ctx_wf), blocks_for_rest by done. cbn [fst snd]. f_equal.
  rewrite key_stream_S. unfold part. rewrite <- take_take_drop. unfold xor_bytes. apply zip_with_app.
  rewrite (key_stream_length alg ctx_wf ctx Hctx _ v0_block), length_take. lia.
Qed.

Lemma ctr_spec_run q : (q * n <= length data)%nat -> ctr_spec (q * n) = run (ctr_step alg ctx) v0 (cut n q data).
Proof using All.
  induction q as [|q IH]; intros Hl.
  - unfold ctr_spec. rewrite (blocks_for_mul alg ctx_wf 0). done.
  - replace (S q * n)%nat with (q * n + n)%nat by lia. rewrite ctr_spec_rest by (pose proof (n_pos alg ctx_wf); lia).
    replace (S q) with (q + 1)%nat by lia. rewrite cut_app. cbn [cut seq map]. rewrite run_snoc, <- IH by lia. unfold ctr_step.
    do 2 f_equal. unfold part, ctr_spec, key_block. cbn [snd]. by rewrite (blocks_for_mul alg ctx_wf).
Qed.

Lemma xor_take a b : xor_bytes (take (length b) a) b = xor_bytes a b.
Proof using.
  revert b. induction a as [|x a IH]; intros [|y b]; try done. unfold xor_bytes in *. cbn. by rewrite IH.
Qed.

Abbreviation final_fn := (crypto_ctr_crypt_final alg ctx tmp).
Abbreviation ctr_fn := (or_final bs (crypto_ctr_crypt_chunk alg ctx tmp) final_fn).
Abbreviation ctr_works := (works bs tmp iv m0 sgi total ctr_spec ctr_fn).

(** The last bytes, less than a block. *)
Lemma works_final q x : x = total - Z.of_nat (q * n) -> 0 < x < bs -> ctr_works (q * n) x (Z.to_nat x).
Proof using All.
  intros Ex Hx. pose proof data_length as HD. assert (Z.of_nat (Z.to_nat x) = x) as Exx by lia. split; [lia|]. split; [right; lia|].
  rewrite Exx. intros m src dst Hb Hl Ms Md D1 D2 D3 D4 D5 ED Ei. unfold or_final. cbn [walk_nbytes].
  destruct (Z.leb_spec bs x) as [|_]; [lia|]. pose proof (bsize_pos alg ctx_wf) as Hbs.
  assert (disjoint tmp bs iv bs) as Dti.
  { apply apart_disjoint; [done..|]. pose proof (rq_tmp _ _ _ _ _ _ _ _ _ _ _ _ _ _ _ Hrq) as [_ [_ H]%apart_app_r]%apart_app_r. done. }
  assert (final_area alg m src dst iv tmp x) as Hf.
  { split; try done; try lia; try (eapply in_mem_len; done || apply Hrq); unfold disjoint in *; lia. }
  destruct (ctr_final_reads alg ctx_wf ctx Hctx m src dst iv tmp x Hf) as (m' & E & R1 & R2 & Hb' & Hlen & t & Ht & Em).
  rewrite E, bind_Some_eq. exists m'. split; [by rewrite Z.sub_diag|]. split; [done|].
  rewrite ctr_spec_rest by (unfold bsize in *; lia). cbn [fst snd]. rewrite R1, R2, Ei, ED.
  assert (snd (ctr_spec (q * n)) = Nat.iter q be_inc v0) as Ec by (unfold ctr_spec; by rewrite (blocks_for_mul alg ctx_wf)). rewrite Ec. split; [|split; [done|]].
  - f_equal. rewrite <- (xor_take (kblock q)). unfold key_block. do 2 f_equal. unfold part. rewrite length_take, length_drop. lia.
  - assert (blen (rd m' dst x) = x) as Lo by (apply blen_rd; eapply in_mem_len; [|done]; by rewrite Hlen).
    assert (blen (be_inc (rd m iv bs)) = bs) as Li by (apply (blen_block (alg := alg)), be_inc_block; rewrite Ei, Ec; apply (counter_block alg ctx_wf ctx Hctx _ v0_block)).
    assert (in_mem m tmp bs /\ in_mem m dst x /\ in_mem m iv bs) as (W1 & W2 & W3) by (split_and!; (eapply in_mem_len; [exact Hl|]); done || apply Hrq).
    rewrite Em at 1. unfold N.
    assert (in_mem m tmp (blen t)) as W1' by (by rewrite Ht).
    assert (in_mem (wr m tmp t) dst (blen (rd m' dst x))) as W2' by (rewrite Lo; by apply in_mem_wr).
    assert (in_mem (wr (wr m tmp t) dst (rd m' dst x)) iv (blen (be_inc (rd m iv bs)))) as W3' by (rewrite Li; apply in_mem_wr; [done|]; by apply in_mem_wr).
    pose proof (same_out_trans _ _ _ _ _ (same_out_wr _ _ _ W1') (same_out_trans _ _ _ _ _ (same_out_wr _ _ _ W2') (same_out_wr _ _ _ W3'))) as H.
    eapply same_out_mono; [|exact H]. intros a. rewrite Ht, Lo, Li, !elem_of_app. tauto.
Qed.

Lemma ctr_works_blocks q x : is_power_of_2 bs = true -> bs <= x -> x <= total - Z.of_nat (q * n) ->
  ctr_works (q * n) x (Z.to_nat (x / bs) * n).
Proof using All.
  intros Hp Hx Ht. pose proof (proj1 (chunk_laws alg ctx_wf ctx tmp CTR Hctx Hp)) as HF.
  pose proof (works_blocks (crypto_ctr_crypt_chunk alg ctx tmp) (ctr_step alg ctx) (HF := HF) ctr_spec ctr_spec_run q x Hx Ht) as (Hy & Hs & Hw).
  split; [done|]. split; [done|]. intros m src dst. unfold or_final. cbn [walk_nbytes]. destruct (Z.leb_spec bs x); [apply Hw|lia].
Qed.

Lemma ctr_request w : is_power_of_2 bs = true -> at_start bs k iv own sgi sgo total scratch w ->
  exists m' w' m, (st ← walk_begin k ctx_alignment info ivs get_free_page kmalloc 1 m0 w;
      final_loop bs k ctx_alignment info ivs get_free_page kmalloc 1 (crypto_ctr_crypt_chunk alg ctx tmp) final_fn (count_fuel total) st) = Some (m', w', 0) /\
    mem_at bs tmp iv m0 sgo total scratch ctr_spec m (Z.to_nat total) /\ ended info iv ivs m m' /\
    ctr_spec (Z.to_nat total) = (xor_bytes (kstream (nblocks (Z.to_nat total))) data, Nat.iter (nblocks (Z.to_nat total)) be_inc v0).
Proof using All.
  intros Hp Hw0. pose proof (bsize_pos alg ctx_wf) as Hbs. pose proof (rq_total _ _ _ _ _ _ _ _ _ _ _ _ _ _ _ Hrq) as Htot. pose proof data_length as HD.
  destruct (final_request_ok bs Hbs tmp k ctx_alignment info iv ivs own get_free_page kmalloc m0 sgi sgo total scratch Hrq ctr_spec) with (F := ctr_fn) (tbs := 1)
    (G := crypto_ctr_crypt_chunk alg ctx tmp) (H := final_fn) (w := w) as (m' & w' & m & E & Hm & He).
  - exact (ctr_spec_run 0 ltac:(lia)).
  - lia.
  - intros p [Hmod|Hp'] Hlt; [|lia]. assert (p = Z.to_nat (Z.of_nat p / bs) * n)%nat as Ep.
    { pose proof (Z.div_mod (Z.of_nat p) bs ltac:(lia)). pose proof (Z.div_pos (Z.of_nat p) bs ltac:(lia) Hbs). unfold bsize in *. lia. }
    split; [|lia]. rewrite Ep in Hlt |- *. set (q := Z.to_nat _) in *. clearbody q. clear Ep Hmod. split.
    + intros x Hx. destruct (decide (bs <= x)); [eexists; apply ctr_works_blocks; [done|lia..]|].
      exists (Z.to_nat x). apply works_final; lia.
    + destruct (decide (bs <= total - Z.of_nat (q * n))).
      * rewrite Z.min_l by lia. pose proof (ctr_works_blocks q bs Hp ltac:(lia) ltac:(lia)) as Hw. rewrite Z.div_same in Hw by lia.
        replace (Z.to_nat 1 * n)%nat with (Z.to_nat bs) in Hw by (unfold bsize; lia). exact Hw.
      * rewrite Z.min_r by lia. apply works_final; lia.
  - done.
  - done.
  - exists m', w', m. split; [exact E|]. split; [done|]. split; [done|]. unfold ctr_spec. by rewrite take_ge by lia.
Qed.
End promises.

(** ** Whole requests *)

Section requests.
Context (alg : crypto_alg) (ctx_wf : cra_ctx alg -> Prop) `{!CipherLaws alg ctx_wf} (ctx : cra_ctx alg) (Hctx : ctx_wf ctx).
Context (tmp k ctx_alignment info ivs : Z) (get_free_page : nat -> Z) (kmalloc : nat -> Z -> Z).
Context (m0 : mem) (sgi sgo : list scatterlist) (total : Z) (pages bufs : list Z).
Abbreviation bs := (bsize alg).
Abbreviation n := (cra_blocksize alg).
Context (Hrq : request bs tmp k ctx_alignment info ivs get_free_page kmalloc m0 sgi sgo total pages bufs).
Context (Hpow : is_power_of_2 bs = true).
Abbreviation alignmask := (2 ^ k - 1).
Abbreviation data := (D m0 sgi total).
Abbreviation v0 := (rd m0 info bs).
Abbreviation finished := (request_done bs tmp info m0 sgo total pages bufs).

Lemma block_request_done F st v : ChunkLaws alg tmp F st -> total mod bs = 0 ->
  exists m w, crypt_request alg alignmask ctx_alignment info false get_free_page kmalloc ivs F m0 v sgo sgi total = Some (m, w, 0) /\
    let '(out, chain) := run st v0 (cut n (Z.to_nat (total / bs)) data) in finished m out chain.
Proof using CipherLaws0 Hctx Hrq.
  intros HF Hmod. unfold crypt_request, blkcipher_walk_virt. change (w_flags (blkcipher_walk_init v sgo sgi total)) with (w_flags v).
  destruct (started bs (bsize_pos alg ctx_wf) tmp k ctx_alignment info ivs get_free_page kmalloc m0 sgi sgo total pages bufs Hrq bs v
    (w_flags v .& .~ BLKCIPHER_WALK_PHYS)) as (iv & own & m1 & scratch & w & Hset & Hst & -> & ED & Ev & Hdone).
  destruct (block_request alg ctx_wf ctx Hctx tmp k ctx_alignment info iv ivs own get_free_page kmalloc m1 sgi sgo total scratch Hset F st w HF Hmod Hst)
    as (m' & w' & m & spec & E & Hm & He & Es). specialize (Hdone spec m m' Hm He). rewrite Es in Hdone. unfold D in Hdone. rewrite ED, Ev in Hdone.
  exists m', w'. split; [exact E|]. unfold D. by destruct (run st _ _).
Qed.

Lemma ctr_request_done v : ivs = bs ->
  exists m w, crypto_ctr_crypt alg ctx alignmask ctx_alignment info false get_free_page kmalloc tmp m0 v sgo sgi total = Some (m, w, 0) /\
    finished m (xor_bytes (key_stream alg ctx v0 (blocks_for alg (Z.to_nat total))) data) (Nat.iter (blocks_for alg (Z.to_nat total)) be_inc v0).
Proof using All.
  intros Hivs. unfold crypto_ctr_crypt, blkcipher_walk_virt_block. cbv zeta. change (w_flags (blkcipher_walk_init v sgo sgi total)) with (w_flags v).
  destruct (started bs (bsize_pos alg ctx_wf) tmp k ctx_alignment info ivs get_free_page kmalloc m0 sgi sgo total pages bufs Hrq 1 v
    (w_flags v .& .~ BLKCIPHER_WALK_PHYS)) as (iv & own & m1 & scratch & w & Hset & Hst & Ew & ED & Ev & Hdone). rewrite Hivs in *. rewrite Ew.
  destruct (ctr_request alg ctx_wf ctx Hctx tmp k ctx_alignment info iv bs own get_free_page kmalloc m1 sgi sgo total scratch Hset w Hpow Hst)
    as (m' & w' & m & E & Hm & He & Es). specialize (Hdone _ m m' Hm He). rewrite Es in Hdone. unfold D in *. rewrite ED, Ev in Hdone.
  exists m', w'. split; [exact E|exact Hdone].
Qed.

(** The blocks of the data, and the size of the chaining value of a mode. *)
Abbreviation blocks := (cut n (Z.to_nat (total / bs)) data).
Definition iv_bytes (md : mode) : Z := match md with ECB => 0 | _ => bs end.


(** What a request computes: the chaining steps over whole blocks, or the xor with
    as much of the key stream as the data needs. *)
Definition request_result (md : mode) (st : mode_step) : list Z * list Z :=
  match md with
  | CTR => let q := blocks_for alg (Z.to_nat total) in (xor_bytes (key_stream alg ctx v0 q) data, Nat.iter q be_inc v0)
  | _ => run st v0 blocks
  end.

Lemma mode_request md v : ivs = iv_bytes md -> (md <> CTR -> total mod bs = 0) ->
  let result st m := finished m (fst (request_result md st)) (snd (request_result md st)) in
  (exists m w, encrypt_request alg ctx alignmask ctx_alignment info false get_free_page kmalloc md tmp m0 v sgo sgi total = Some (m, w, 0) /\
    result (enc_step alg ctx md) m) /\
  (exists m w, decrypt_request alg ctx alignmask ctx_alignment info false get_free_page kmalloc md tmp m0 v sgo sgi total = Some (m, w, 0) /\
    result (dec_step alg ctx md) m).
Proof using All.
  intros Hivs Hmod result. destruct (chunk_laws alg ctx_wf ctx tmp md Hctx Hpow) as [He Hd].
  assert (md = CTR \/ md <> CTR) as [->|E] by (destruct md; auto).
  - split; by apply ctr_request_done.
  - destruct (block_request_done _ _ v He (Hmod E)) as (me & we & E1 & R1). destruct (block_request_done _ _ v Hd (Hmod E)) as (m & w & E2 & R2).
    unfold result. rewrite (surjective_pairing (run (enc_step _ _ _) _ _)) in R1. rewrite (surjective_pairing (run (dec_step _ _ _) _ _)) in R2.
    rewrite Hivs in E1, E2. destruct md; try done; split; by eauto.
Qed.
End requests.

(** ** Back *)

Lemma xor_back a b : (length b <= length a)%nat -> xor_bytes a (xor_bytes a b) = b.
Proof.
  revert b. induction a as [|x a IH]; intros [|y b] H; cbn in H; try done; [lia|]. unfold xor_bytes in *. cbn. rewrite IH by lia. f_equal.
  by rewrite <- Z.lxor_assoc, Z.lxor_nilpotent, Z.lxor_0_l.
Qed.

Lemma cut_concat n (L : list (list Z)) : Forall (fun b => length b = n) L -> cut n (length L) (concat L) = L.
Proof.
  induction 1 as [|b L Hb HL IH]; [done|]. cbn [length concat]. change (S (length L)) with (1 + length L)%nat. rewrite cut_app.
  cbn [cut seq map app]. rewrite Nat.mul_0_l, Nat.mul_1_l, drop_0, take_app_length', drop_app_length' by done. by rewrite IH.
Qed.

Lemma concat_cut n k L : length L = (k * n)%nat -> concat (cut n k L) = L.
Proof.
  revert L. induction k as [|k IH]; intros L HL; [destruct L; [done|cbn in HL; lia]|]. change (S k) with (1 + k)%nat. rewrite cut_app.
  cbn [cut seq map app concat]. rewrite Nat.mul_0_l, Nat.mul_1_l, drop_0, IH by (rewrite length_drop; lia). apply take_drop.
Qed.

Section back.
Context (alg : crypto_alg) (ctx_wf : cra_ctx alg -> Prop) `{!CipherLaws alg ctx_wf} (ctx : cra_ctx alg) (Hctx : ctx_wf ctx).
Context (tmp k ctx_alignment info ivs : Z) (get_free_page : nat -> Z) (kmalloc : nat -> Z -> Z).
Context (m0 : mem) (sgi sgo : list scatterlist) (total : Z) (pages bufs : list Z).
Abbreviation bs := (bsize alg).
Context (Hrq : request bs tmp k ctx_alignment info ivs get_free_page kmalloc m0 sgi sgo total pages bufs).

(** The destination as the source of the next request, in place. *)
Lemma request_again m : bytes_ok m -> blen m = blen m0 ->
  request bs tmp k ctx_alignment info ivs get_free_page kmalloc m sgo sgo total pages bufs.
Proof using Hrq.
  intros Hb Hl. destruct Hrq as [R1 R2 R3 R4 R5 R6 R7 R8 R9 R10 R11 R12 R13 R14 R15 R16 R17 R18 R19 R20 R21 R22 R23 R24 R25 R26].
  rewrite !apart_app_r in R17. rewrite !apart_app_r in R18. rewrite !apart_app_r in R19. rewrite !apart_app_r in R20.
  split; try done; try (by apply (in_range_blen m0)); try (unfold in_mem in *; lia); try (by left); rewrite !apart_app_r; tauto.
Qed.

Lemma request_data : Z.of_nat (length (D m0 sgi total)) = total.
Proof using Hrq.
  pose proof (req_total _ _ _ _ _ _ _ _ _ _ _ _ _ _ Hrq). pose proof (req_len_i _ _ _ _ _ _ _ _ _ _ _ _ _ _ Hrq).
  unfold D, gather, A. rewrite length_map, length_take. lia.
Qed.

Lemma data_bytes : Forall is_byte (D m0 sgi total).
Proof using Hrq.
  pose proof (req_in_A _ _ _ _ _ _ _ _ _ _ _ _ _ _ Hrq) as H. pose proof (req_bytes _ _ _ _ _ _ _ _ _ _ _ _ _ _ Hrq) as Hb. unfold D, gather.
  apply Forall_map. eapply Forall_impl; [|exact H]. intros a Ha. by apply bytes_zth.
Qed.

(** Decrypting the result of encrypting. *)
Lemma result_back md m : (md <> CTR -> total mod bs = 0) -> rd m info bs = rd m0 info bs ->
  D m sgo total = fst (request_result alg ctx info m0 sgi total md (enc_step alg ctx md)) ->
  request_result alg ctx info m sgo total md (dec_step alg ctx md) =
    (D m0 sgi total, snd (request_result alg ctx info m0 sgi total md (enc_step alg ctx md))).
Proof using All.
  intros Hmod Ei ED. destruct (mode_steps_ok alg ctx_wf ctx Hctx md) as (He & _ & Hinv). pose proof request_data as HD.
  pose proof (bsize_pos alg ctx_wf) as Hbs. set (n := cra_blocksize alg).
  assert (block n (rd m0 info bs)) as Hv.
  { pose proof (req_in_info _ _ _ _ _ _ _ _ _ _ _ _ _ _ Hrq) as Hi. pose proof (blen_rd _ _ _ Hi) as L. split; [unfold blen, bsize in *; lia|].
    apply bytes_rd. apply Hrq. }
  assert (md = CTR \/ md <> CTR) as [->|Hne] by (destruct md; auto).
  - unfold request_result in *. cbn [fst snd] in *. rewrite Ei, ED. f_equal. apply xor_back.
    rewrite (key_stream_length alg ctx_wf ctx Hctx _ Hv). pose proof (blocks_for_enough alg ctx_wf (Z.to_nat total)). lia.
  - assert (forall x y st, request_result alg ctx info x y total md st = run st (rd x info bs) (cut n (Z.to_nat (total / bs)) (D x y total))) as Er by (by destruct md).
    rewrite !Er in *. rewrite Ei, ED, run_outs. specialize (Hmod Hne).
    assert (length (D m0 sgi total) = Z.to_nat (total / bs) * n)%nat as Hl.
    { pose proof (Z.div_mod total bs ltac:(lia)). pose proof (Z.div_pos total bs ltac:(lia) Hbs). unfold n, bsize in *. lia. }
    pose proof (cut_blocks n (Z.to_nat (total / bs)) _ data_bytes ltac:(lia)) as HB.
    destruct (outs_ok alg _ He _ _ Hv HB) as [Ho Hol]. unfold cut in Hol at 2. rewrite length_map, length_seq in Hol. rewrite <- Hol at 1.
    rewrite cut_concat, (run_inverse n _ _ _ _ He Hinv Hv HB), concat_cut by done. done.
Qed.
End back.

(** ** Properties *)

(** C1: a request on scatter lists computes its mode of operation over the bytes of
    the source list: whatever areas the lists are cut into, at whatever page
    borders and alignments, in place or apart, with an aligned or an unaligned
    chaining value.  ECB, CBC and PCBC apply their chaining step to the blocks of
    the data, counter mode xors data of any length with the key stream.  The
    result is at the bytes of the destination list, the next chaining value where
    the first one was, and of the rest of memory only the local array and the
    allocated buffers may change.  The request returns 0, whatever the walk
    structure holds before. *)
Theorem requests_compute alg ctx_wf `{!CipherLaws alg ctx_wf} ctx tmp k ctx_alignment info get_free_page kmalloc m0 sgi sgo total pages bufs md v :
  ctx_wf ctx -> is_power_of_2 (bsize alg) = true -> (md <> CTR -> total mod bsize alg = 0) ->
  request (bsize alg) tmp k ctx_alignment info (iv_bytes alg md) get_free_page kmalloc m0 sgi sgo total pages bufs ->
  let finished st m := let '(out, chain) := request_result alg ctx info m0 sgi total md st in
    request_done (bsize alg) tmp info m0 sgo total pages bufs m out chain in
  (exists m w, encrypt_request alg ctx (2 ^ k - 1) ctx_alignment info false get_free_page kmalloc md tmp m0 v sgo sgi total = Some (m, w, 0) /\
    finished (enc_step alg ctx md) m) /\
  (exists m w, decrypt_request alg ctx (2 ^ k - 1) ctx_alignment info false get_free_page kmalloc md tmp m0 v sgo sgi total = Some (m, w, 0) /\
    finished (dec_step alg ctx md) m).
Proof.
  intros Hctx Hp Hmod Hrq finished.
  destruct (mode_request alg ctx_wf ctx Hctx tmp k ctx_alignment info _ get_free_page kmalloc m0 sgi sgo total pages bufs Hrq Hp md v eq_refl Hmod)
    as [(m1 & w1 & E1 & R1) (m2 & w2 & E2 & R2)].
  unfold finished. rewrite (surjective_pairing (request_result _ _ _ _ _ _ _ (enc_step _ _ _))), (surjective_pairing (request_result _ _ _ _ _ _ _ (dec_step _ _ _))).
  split; eauto.
Qed.

(** C8: decrypting what a request has encrypted gives the data back: encrypt the
    source list to the destination list, restore the chaining value, decrypt the
    destination list in place; its bytes are then the bytes of the source list,
    and the chaining value is the one that encryption left. *)
Theorem requests_roundtrip alg ctx_wf `{!CipherLaws alg ctx_wf} ctx tmp k ctx_alignment info get_free_page kmalloc m0 sgi sgo total pages bufs md v v' :
  ctx_wf ctx -> is_power_of_2 (bsize alg) = true -> (md <> CTR -> total mod bsize alg = 0) ->
  request (bsize alg) tmp k ctx_alignment info (iv_bytes alg md) get_free_page kmalloc m0 sgi sgo total pages bufs ->
  exists me we md' wd,
    encrypt_request alg ctx (2 ^ k - 1) ctx_alignment info false get_free_page kmalloc md tmp m0 v sgo sgi total = Some (me, we, 0) /\
    decrypt_request alg ctx (2 ^ k - 1) ctx_alignment info false get_free_page kmalloc md tmp
      (wr me info (rd m0 info (bsize alg))) v' sgo sgo total = Some (md', wd, 0) /\
    gather md' (O sgo total) = gather m0 (A sgi total) /\ rd md' info (bsize alg) = rd me info (bsize alg).
Proof.
  intros Hctx Hp Hmod Hrq. set (v0 := rd m0 info (bsize alg)).
  pose proof (req_in_info _ _ _ _ _ _ _ _ _ _ _ _ _ _ Hrq) as Hi. pose proof (blen_rd _ _ _ Hi) as Lv. fold v0 in Lv.
  destruct (mode_request alg ctx_wf ctx Hctx tmp k ctx_alignment info _ get_free_page kmalloc m0 sgi sgo total pages bufs Hrq Hp md v eq_refl Hmod)
    as [(me & we & E1 & [Hb Ho Hc Hs]) _]. pose proof Hs as [Hl _].
  assert (in_mem me info (blen v0)) as Hw by (rewrite Lv; unfold in_mem in *; lia).
  pose proof (request_again _ _ _ _ _ _ _ _ _ _ _ _ _ _ Hrq (wr me info v0)) as Hrq'.
  specialize (Hrq' ltac:(apply bytes_wr; [done|]; apply bytes_rd, Hrq) ltac:(by rewrite blen_wr)).
  destruct (mode_request alg ctx_wf ctx Hctx tmp k ctx_alignment info _ get_free_page kmalloc _ sgo sgo total pages bufs Hrq' Hp md v' eq_refl Hmod)
    as [_ (md' & wd & E2 & [_ Ho' Hc' _])].
  assert (rd (wr me info v0) info (bsize alg) = v0) as Ei by (rewrite <- Lv; by apply rd_wr_same).
  assert (D (wr me info v0) sgo total = fst (request_result alg ctx info m0 sgi total md (enc_step alg ctx md))) as ED.
  { rewrite <- Ho. apply (gather_same _ me _ _ (same_out_wr me info v0 Hw)).
    - apply (in_range_blen m0); [done|]. apply Hrq.
    - rewrite Lv. apply apart_sym. pose proof (req_info _ _ _ _ _ _ _ _ _ _ _ _ _ _ Hrq) as [_ H]%apart_app_r. exact H. }
  rewrite (result_back alg ctx_wf ctx Hctx tmp k ctx_alignment info _ get_free_page kmalloc m0 sgi sgo total pages bufs Hrq md _ Hmod Ei ED) in Ho', Hc'.
  exists me, we, md', wd. split; [done|]. split; [done|]. split; [exact Ho'|]. by rewrite Hc, Hc'.
Qed.

(** ** Witnesses: XTEA, three pages of memory *)

(** Data in two areas and a destination in another two, none of them aligned; the
    chaining value at [301], the local array at [320]; the second page is free,
    the third one is what [kmalloc] gives. *)
Definition demo_pages : mem := map Z.of_nat (seq 0 256) ++ replicate (Z.to_nat 12032) 0.
Definition demo_src : list scatterlist := [Sg 0 1 11; Sg 0 50 5].
Definition demo_dst : list scatterlist := [Sg 0 101 3; Sg 0 201 13].
Definition demo_walk : walk_state := blkcipher_walk_init (WalkState (Walk 0 0 0 0) (ScatterWalk [] 0) (ScatterWalk [] 0) 0 0 0 0 0 0 0) [] [] 0.

Lemma demo_pages_ok : bytes_ok demo_pages /\ blen demo_pages = 12288.
Proof.
  split.
  - apply Forall_app. split; [repeat constructor; vm_compute; congruence|]. apply Forall_replicate. by vm_compute.
  - unfold blen, demo_pages. by rewrite length_app, length_map, length_seq, length_replicate.
Qed.

Lemma demo_addrs : A demo_src 16 = seqZ 1 11 ++ seqZ 50 5 /\ O demo_dst 16 = seqZ 101 3 ++ seqZ 201 13.
Proof. split; reflexivity. Qed.

Ltac demo_range := apply Forall_forall; intros a Ha%list_elem_of_In; rewrite ?elem_of_app, !elem_of_seqZ in Ha; rewrite ?(proj2 demo_pages_ok); lia.
Ltac demo_apart :=
  let a := fresh in let Ha := fresh in let Hb := fresh in intros a Ha Hb; rewrite ?elem_of_app in Ha; rewrite ?elem_of_app in Hb;
  rewrite !elem_of_seqZ in Ha; rewrite !elem_of_seqZ in Hb; lia.

Lemma demo_request ivs : ivs = 8 ->
  request 8 320 2 4 301 ivs (fun _ => 4096) (fun _ _ => 8192) demo_pages demo_src demo_dst 16 (seqZ 4096 4096) (seqZ 8192 4096).
Proof.
  intros ->. destruct demo_addrs as [EA EO]. destruct demo_pages_ok as [Hb Hl].
  split; rewrite ?EA, ?EO.
  1-2: repeat constructor; vm_compute; congruence.
  1: lia.
  1-2: vm_compute; congruence.
  1: done.
  1: rewrite Hl; lia.
  1-4: demo_range.
  1-2: unfold in_mem; rewrite Hl; lia.
  1-2: apply list.NoDup_app; split_and!; [apply NoDup_seqZ|demo_apart|apply NoDup_seqZ].
  1: right; demo_apart.
  1-4: demo_apart.
  - done.
  - done.
  - by exists 2.
  - intros i. split_and!; [done..|auto].
  - intros i size Hs. split_and!; [done..|]. intros a. rewrite page_size in Hs. rewrite !elem_of_seqZ. lia.
  - by right.
Qed.

Lemma requests_compute_witness : exists m w,
  encrypt_request xtea_alg demo_ctx 3 4 301 false (fun _ => 4096) (fun _ _ => 8192) CBC 320 demo_pages demo_walk demo_dst demo_src 16 = Some (m, w, 0) /\
  gather m (seqZ 101 3 ++ seqZ 201 13) =
    fst (run (cbc_enc_step xtea_alg demo_ctx) (rd demo_pages 301 8) (cut 8 2 (gather demo_pages (seqZ 1 11 ++ seqZ 50 5)))).
Proof.
  destruct (requests_compute xtea_alg key_wf demo_ctx 320 2 4 301 (fun _ => 4096) (fun _ _ => 8192) demo_pages demo_src demo_dst 16
    (seqZ 4096 4096) (seqZ 8192 4096) CBC demo_walk demo_ctx_wf eq_refl (fun _ => eq_refl) (demo_request _ eq_refl)) as [(m & w & E & H) _].
  exists m, w. split; [exact E|]. unfold request_result in H. rewrite (surjective_pairing (run _ _ _)) in H. destruct H as [_ H _ _].
  destruct demo_addrs as [EA EO]. unfold D in H. rewrite EO, EA in H. exact H.
Defined.

Lemma requests_roundtrip_witness : exists me we md' wd,
  encrypt_request xtea_alg demo_ctx 3 4 301 false (fun _ => 4096) (fun _ _ => 8192) PCBC 320 demo_pages demo_walk demo_dst demo_src 16 = Some (me, we, 0) /\
  decrypt_request xtea_alg demo_ctx 3 4 301 false (fun _ => 4096) (fun _ _ => 8192) PCBC 320 (wr me 301 (rd demo_pages 301 8)) demo_walk demo_dst demo_dst 16
    = Some (md', wd, 0) /\
  gather md' (seqZ 101 3 ++ seqZ 201 13) = gather demo_pages (seqZ 1 11 ++ seqZ 50 5).
Proof.
  destruct (requests_roundtrip xtea_alg key_wf demo_ctx 320 2 4 301 (fun _ => 4096) (fun _ _ => 8192) demo_pages demo_src demo_dst 16
    (seqZ 4096 4096) (seqZ 8192 4096) PCBC demo_walk demo_walk demo_ctx_wf eq_refl (fun _ => eq_refl) (demo_request _ eq_refl))
    as (me & we & md' & wd & E1 & E2 & H & _).
  destruct demo_addrs as [EA EO]. rewrite EO, EA in H. exists me, we, md', wd. split; [exact E1|]. split; [exact E2|exact H].
Defined.
