(* ===== verification/ModesRequestErrors.v ===== *)
(** * Requests: when they fail

    What [blkcipher_walk_first] and [blkcipher_walk_next] do with a request
    that is too short, without memory for a page or a buffer, or in a hard
    interrupt, and what the loop of a mode makes of it. *)

From S2P Require Import Prelude Bytes Mem LibString LibStringCorrect Cipher Tea CryptoOps Modes ModesTheorems.
From S2P Require Import Scatterwalk ScatterwalkCorrect BlkcipherWalk BlkcipherWalkCorrect ModesRequest.
Open Scope c_scope.

Section errors.
Context (alg : crypto_alg) (alignmask ctx_alignment info ivs : Z) (get_free_page : nat -> Z) (kmalloc : nat -> Z -> Z).
Context (F : mem -> blkcipher_walk -> option (mem * Z)) (m0 : mem) (v : walk_state) (total : Z) (Htot : 0 < total).
Abbreviation bs := (bsize alg).
Abbreviation request irq dst src := (crypt_request alg alignmask ctx_alignment info irq get_free_page kmalloc ivs F m0 v dst src total).

Lemma start_first s ss : sg_ok s -> scatterwalk_start (s :: ss) = Some (ScatterWalk (s :: ss) (sg_offset s)).
Proof using. intros (_ & _ & L & _). unfold scatterwalk_start. cbn. destruct (Z.eqb_spec (sg_length s) 0); [lia|done]. Qed.

(** A loop that finds no bytes ends. *)
Lemma loop_none w err fuel : walk_nbytes (w_cur w) = 0 ->
  crypt_loop alignmask ctx_alignment info get_free_page kmalloc bs ivs F (S fuel) (m0, w, err) = Some (m0, w, err).
Proof using. intros E. unfold crypt_loop. cbn [c_loop]. by rewrite E. Qed.

(** The state at the first chunk when the chaining value is aligned. *)
Section first.
Context (s d : scatterlist) (ss ds : list scatterlist) (Hs : Forall sg_ok (s :: ss)) (Hd : Forall sg_ok (d :: ds)) (Hal : info .& alignmask = 0).
Abbreviation w1 := (set_page (set_out (set_in (set_iv (set_buffer (set_nbytes (set_blocksize (set_flags (blkcipher_walk_init v (d :: ds) (s :: ss) total)
  (w_flags v .& .~ BLKCIPHER_WALK_PHYS)) bs) total) 0) info) (ScatterWalk (s :: ss) (sg_offset s))) (ScatterWalk (d :: ds) (sg_offset d))) 0).

Lemma first_chunk : request false (d :: ds) (s :: ss) =
  st ← blkcipher_walk_next bs ivs alignmask ctx_alignment info get_free_page kmalloc m0 w1;
  crypt_loop alignmask ctx_alignment info get_free_page kmalloc bs ivs F (count_fuel total) st.
Proof using All.
  unfold crypt_request, blkcipher_walk_virt, blkcipher_walk_first. cbv zeta.
  cbn [w_total set_nbytes set_cur set_blocksize set_flags blkcipher_walk_init set_total]. rewrite (proj2 (truthy_true total)) by lia. cbn [negb].
  cbn [walk_iv w_cur set_iv set_cur set_buffer]. rewrite (proj2 (truthy_false _) Hal), bind_Some_eq. cbn [truthy negb Z.eqb].
  change (sw_sg (w_in _)) with (s :: ss). change (sw_sg (w_out _)) with (d :: ds).
  by rewrite !(start_first _ _ (Forall_inv Hs)), !(start_first _ _ (Forall_inv Hd)), !bind_Some_eq.
Qed.


(** Less than a block. *)
Lemma next_short w : w_total w < bs -> w_in w = ScatterWalk (s :: ss) (sg_offset s) -> w_out w = ScatterWalk (d :: ds) (sg_offset d) ->
  walk_iv (w_cur w) = info ->
  blkcipher_walk_next bs ivs alignmask ctx_alignment info get_free_page kmalloc m0 w =
  o ← scatterwalk_done m0 (ScatterWalk (d :: ds) (sg_offset d)) true 0;
  Some (m0, set_nbytes (set_total (set_out (set_desc_flags w (desc_flags w .| CRYPTO_TFM_RES_BAD_BLOCK_LEN)) o) 0) 0, - EINVAL).
Proof using Hs.
  intros Hlt Ei Eo Ev. unfold blkcipher_walk_next. destruct (Z.ltb_spec (w_total w) bs) as [_|]; [|lia].
  unfold blkcipher_walk_fail. cbn [w_in w_out set_desc_flags]. rewrite Ei, Eo.
  assert (scatterwalk_done m0 (ScatterWalk (s :: ss) (sg_offset s)) false 0 = Some (ScatterWalk (s :: ss) (sg_offset s))) as ->.
  { pose proof (Forall_inv Hs) as Hs0. unfold scatterwalk_done. rewrite pagelen_ok; [|done|destruct Hs0; unfold sg_end; lia].
    by rewrite bind_Some_eq, orb_true_r. }
  rewrite bind_Some_eq. destruct (scatterwalk_done m0 (ScatterWalk (d :: ds) (sg_offset d)) true 0) as [o|]; [|done]. rewrite !bind_Some_eq.
  unfold blkcipher_walk_finish. cbv zeta. cbn [walk_iv w_cur set_nbytes set_cur set_total set_out set_in set_desc_flags].
  rewrite Ev, Z.eqb_refl. cbn [negb]. rewrite !bind_Some_eq. rewrite <- Ei. by destruct w.
Qed.

Lemma short_fail o : total < bs -> scatterwalk_done m0 (ScatterWalk (d :: ds) (sg_offset d)) true 0 = o ->
  (o = None -> request false (d :: ds) (s :: ss) = None) /\
  (o <> None -> exists w, request false (d :: ds) (s :: ss) = Some (m0, w, - EINVAL) /\
    desc_flags w .& CRYPTO_TFM_RES_BAD_BLOCK_LEN <> 0).
Proof using All.
  intros Hlt Eo. rewrite first_chunk. set (w := w1). rewrite (next_short w Hlt eq_refl eq_refl eq_refl), Eo. clearbody w. split.
  - by intros ->.
  - destruct o as [o|]; [|done]. intros _. rewrite !bind_Some_eq. eexists. unfold count_fuel. rewrite loop_none by done. split; [done|].
    cbn. rewrite Z.land_lor_distr_l. intros [_ H]%Z.lor_eq_0_iff. done.
Qed.

(** The end of the destination, before any byte of it. *)
Lemma done_at_start : scatterwalk_done m0 (ScatterWalk (d :: ds) (sg_offset d)) true 0 =
  if (sg_page d + Z.shiftr (u32 (sg_offset d - 1)) PAGE_SHIFT) * PAGE_SIZE <? blen m0 then Some (ScatterWalk (d :: ds) (sg_offset d)) else None.
Proof using Hd.
  pose proof (Forall_inv Hd) as Hd0. unfold scatterwalk_done. rewrite pagelen_ok; [|done|destruct Hd0; unfold sg_end; lia].
  rewrite bind_Some_eq, orb_true_r. unfold scatterwalk_pagedone, scatterwalk_flush, crypto_kmap. cbn. by destruct (_ <? _).
Qed.

(** No page for unaligned data. *)
Lemma next_no_page w : bs <= w_total w -> 0 < bs -> w_in w = ScatterWalk (s :: ss) (sg_offset s) -> w_out w = ScatterWalk (d :: ds) (sg_offset d) ->
  w_page w = 0 -> get_free_page (w_calls w) = 0 -> w_blocksize w = bs ->
  sg_offset s .& alignmask <> 0 \/ sg_offset d .& alignmask <> 0 -> 
  exists w', blkcipher_walk_next bs ivs alignmask ctx_alignment info get_free_page kmalloc m0 w = Some (m0, w', 0) /\ walk_nbytes (w_cur w') = 0.
Proof using Hs Hd.
  intros Ht Hbs Ei Eo Ep Eg Eb Hun. unfold blkcipher_walk_next. destruct (Z.ltb_spec (w_total w) bs) as [|_]; [lia|]. cbv zeta.
  cbn [w_in w_out set_flags]. rewrite Ei, Eo. assert (negb (scatterwalk_aligned (ScatterWalk (s :: ss) (sg_offset s)) alignmask) ||
    negb (scatterwalk_aligned (ScatterWalk (d :: ds) (sg_offset d)) alignmask) = true) as ->.
  { unfold scatterwalk_aligned. cbn [sw_offset]. rewrite !negb_involutive. apply orb_true_iff. by rewrite !truthy_true. }
  set (wf := set_flags _ (_ .| BLKCIPHER_WALK_COPY)). change (w_page wf) with (w_page w). change (w_calls wf) with (w_calls w). rewrite Ep, Eg.
  cbn [truthy negb Z.eqb]. set (w2 := count_call (set_page wf 0)). change (w_page w2) with 0. cbn [truthy negb Z.eqb].
  assert (w_in w2 = w_in w /\ w_out w2 = w_out w /\ w_blocksize w2 = w_blocksize w /\ has_walk_flag w2 BLKCIPHER_WALK_COPY = true) as (Ei2 & Eo2 & Eb2 & Ef2).
  { do 3 (split; [done|]). unfold has_walk_flag, w2, wf. cbn [w_flags set_flags set_page count_call]. rewrite Z.land_lor_distr_l. apply truthy_true.
    intros [_ H]%Z.lor_eq_0_iff. done. }
  clearbody w2. rewrite Ei in Ei2. rewrite Eo in Eo2. rewrite Ei2, Eo2, Eb2, Eb, Z.min_r by lia.
  assert (forall c r, sg_ok c -> scatterwalk_clamp (ScatterWalk (c :: r) (sg_offset c)) 0 = Some 0) as Hc.
  { intros c r Hc. unfold scatterwalk_clamp. rewrite pagelen_ok; [|done|destruct Hc; unfold sg_end; lia]. rewrite bind_Some_eq. f_equal.
    assert (0 <= page_rest c (sg_offset c)) by (destruct Hc as (? & ? & ? & ?); unfold page_rest, sg_end; pose proof (Z.mod_pos_bound (sg_offset c) PAGE_SIZE ltac:(done)); lia).
    destruct (Z.ltb_spec (page_rest c (sg_offset c)) 0); lia. }
  rewrite (Hc s ss (Forall_inv Hs)), bind_Some_eq, (Hc d ds (Forall_inv Hd)), bind_Some_eq. cbn [Z.ltb Z.compare].
  change (has_walk_flag (set_nbytes w2 0) BLKCIPHER_WALK_COPY) with (has_walk_flag w2 BLKCIPHER_WALK_COPY). rewrite Ef2.
  unfold blkcipher_next_copy. cbv zeta. change (w_in (set_nbytes w2 0)) with (w_in w2). rewrite Ei2. change (walk_nbytes (w_cur (set_nbytes w2 0))) with 0.
  unfold scatterwalk_map, scatterwalk_page. cbn [sw_sg head]. rewrite !bind_Some_eq. unfold memcpy, copy_up. cbn. eauto.
Qed.

Lemma no_page_done : bs <= total -> 0 < bs -> get_free_page (w_calls v) = 0 ->
  sg_offset s .& alignmask <> 0 \/ sg_offset d .& alignmask <> 0 -> exists w, request false (d :: ds) (s :: ss) = Some (m0, w, 0).
Proof using All.
  intros Ht Hbs Hg Hun. rewrite first_chunk. destruct (next_no_page w1 Ht Hbs eq_refl eq_refl eq_refl Hg eq_refl Hun) as (w' & -> & En).
  exists w'. rewrite bind_Some_eq. unfold count_fuel. by rewrite loop_none.
Qed.
End first.

(** The walk does not start. *)
Lemma start_fail dst src : info .& alignmask <> 0 ->
  let ab := ALIGN bs (alignmask + 1) in
  let size := u32 (u32 (ab * 2 + ivs + Z.max ab ivs - (alignmask + 1)) + (alignmask .& .~ (ctx_alignment - 1))) in
  kmalloc (w_calls v) size = 0 ->
  exists w, blkcipher_walk_virt bs ivs alignmask ctx_alignment info false get_free_page kmalloc m0 (blkcipher_walk_init v dst src total)
      = Some (m0, w, - ENOMEM) /\
    w_cur w = Walk total (walk_src (w_cur v)) (walk_dst (w_cur v)) info.
Proof using Htot.
  intros Hun ab size Hk. unfold blkcipher_walk_virt, blkcipher_walk_first. cbv zeta.
  cbn [w_total set_nbytes set_cur set_blocksize set_flags blkcipher_walk_init set_total]. rewrite (proj2 (truthy_true total)) by lia. cbn [negb].
  cbn [walk_iv w_cur set_iv set_cur set_buffer]. rewrite (proj2 (truthy_true _) Hun). set (w := set_iv _ info).
  unfold blkcipher_copy_iv. cbv zeta. change (w_blocksize w) with bs. fold ab. fold size. change (w_calls w) with (w_calls v). rewrite Hk.
  cbn [w_buffer set_buffer count_call truthy negb Z.eqb]. rewrite bind_Some_eq. eexists. split; [done|]. done.
Qed.

Lemma start_fail_loop dst src w : blkcipher_walk_virt bs ivs alignmask ctx_alignment info false get_free_page kmalloc m0 (blkcipher_walk_init v dst src total)
    = Some (m0, w, - ENOMEM) -> walk_nbytes (w_cur w) = total -> F m0 (w_cur w) = None -> request false dst src = None.
Proof using Htot.
  intros E En EF. unfold crypt_request. rewrite E, bind_Some_eq. unfold crypt_loop, count_fuel. cbn [c_loop].
  by rewrite En, (proj2 (truthy_true total)), EF by lia.
Qed.
End errors.

(** ** Properties *)

(** C23: a request of less than a block is refused: it returns [-EINVAL] with
    [CRYPTO_TFM_RES_BAD_BLOCK_LEN] set and leaves memory as it was, provided that
    the destination begins inside a page.  When it begins at a page border the
    error path computes the page of the byte before it from an offset that has
    wrapped around, and looks up the descriptor of a page beyond the memory. *)
Theorem short_requests alg alignmask ctx_alignment info ivs get_free_page kmalloc F m0 v total s ss d ds :
  Forall sg_ok (s :: ss) -> Forall sg_ok (d :: ds) -> info .& alignmask = 0 -> 0 < total < bsize alg ->
  let result := crypt_request alg alignmask ctx_alignment info false get_free_page kmalloc ivs F m0 v (d :: ds) (s :: ss) total in
  (0 < sg_offset d -> sg_page d * PAGE_SIZE + sg_offset d <= blen m0 ->
    exists w, result = Some (m0, w, - EINVAL) /\ desc_flags w .& CRYPTO_TFM_RES_BAD_BLOCK_LEN <> 0) /\
  (sg_offset d = 0 -> blen m0 <= 2 ^ 32 - PAGE_SIZE -> result = None).
Proof.
  intros Hs Hd Hal Ht result. pose proof (Forall_inv Hd) as (D1 & D2 & D3 & D4).
  destruct (short_fail alg alignmask ctx_alignment info ivs get_free_page kmalloc F m0 v total ltac:(lia) s d ss ds Hs Hd Hal _ ltac:(lia) eq_refl) as [H1 H2].
  rewrite (done_at_start m0 d ds Hd) in H1, H2. unfold sg_end in D4. rewrite page_size in *. rewrite Z.shiftr_div_pow2 in H1, H2 by done. change (2 ^ PAGE_SHIFT) with 4096 in *. split.
  - intros Ho Hm. apply H2. rewrite u32_small by (unfold is_u32; lia). destruct (Z.ltb_spec ((sg_page d + (sg_offset d - 1) / 4096) * 4096) (blen m0)) as [|Hge]; [done|].
    Z.div_mod_to_equations. lia.
  - intros E Hm. apply H1. rewrite E. change (u32 (0 - 1) / 4096) with 1048575. destruct (Z.ltb_spec ((sg_page d + 1048575) * 4096) (blen m0)); [lia|done].
Qed.

Definition two_areas : mem := replicate (Z.to_nat 64) 7.
Definition any_walk : walk_state := WalkState (Walk 0 1000 2000 0) (ScatterWalk [] 0) (ScatterWalk [] 0) 0 0 0 0 0 0 0.
Lemma xtea_block : 0 < bsize xtea_alg <= 8.
Proof. change (bsize xtea_alg) with 8. lia. Qed.

Ltac sgs := repeat constructor; vm_compute; congruence.

Lemma short_requests_witness :
  (exists w, crypto_cbc_encrypt xtea_alg demo_ctx 3 4 48 false (fun _ => 0) (fun _ _ => 0) two_areas any_walk [Sg 0 16 8] [Sg 0 0 8] 7 = Some (two_areas, w, - EINVAL)) /\
  crypto_cbc_encrypt xtea_alg demo_ctx 3 4 48 false (fun _ => 0) (fun _ _ => 0) two_areas any_walk [Sg 0 0 8] [Sg 0 0 8] 7 = None.
Proof.
  split.
  - destruct (short_requests xtea_alg 3 4 48 8 (fun _ => 0) (fun _ _ => 0) (crypto_cbc_encrypt_chunk xtea_alg demo_ctx) two_areas any_walk 7 (Sg 0 0 8) [] (Sg 0 16 8) []
      ltac:(sgs) ltac:(sgs) eq_refl (conj eq_refl eq_refl)) as [H _]. destruct (H eq_refl ltac:(vm_compute; congruence)) as (w & E & _). by exists w.
  - exact (proj2 (short_requests xtea_alg 3 4 48 8 (fun _ => 0) (fun _ _ => 0) (crypto_cbc_encrypt_chunk xtea_alg demo_ctx) two_areas any_walk 7 (Sg 0 0 8) [] (Sg 0 0 8) []
      ltac:(sgs) ltac:(sgs) eq_refl (conj eq_refl eq_refl)) eq_refl ltac:(vm_compute; congruence)).
Defined.

(** C24: when the page for unaligned data cannot be allocated, the request returns 0
    although it has processed nothing: [blkcipher_walk_next] sets the number of
    bytes to zero, which also makes the block size zero, so that the chunk of no
    bytes is taken for a whole one and ends the loop.  When the buffer for an
    unaligned chaining value cannot be allocated, [blkcipher_walk_virt] returns
    [-ENOMEM] but leaves the number of bytes in the walk, so that the loop of the
    mode runs on the uninitialised addresses of its local variable. *)
Theorem failed_allocations alg alignmask ctx_alignment info ivs get_free_page kmalloc F m0 v total s ss d ds :
  Forall sg_ok (s :: ss) -> Forall sg_ok (d :: ds) -> 0 < bsize alg <= total ->
  let result := crypt_request alg alignmask ctx_alignment info false get_free_page kmalloc ivs F m0 v (d :: ds) (s :: ss) total in
  let ab := ALIGN (bsize alg) (alignmask + 1) in
  let size := u32 (u32 (ab * 2 + ivs + Z.max ab ivs - (alignmask + 1)) + (alignmask .& .~ (ctx_alignment - 1))) in
  (info .& alignmask = 0 -> sg_offset s .& alignmask <> 0 \/ sg_offset d .& alignmask <> 0 -> get_free_page (w_calls v) = 0 ->
    exists w, result = Some (m0, w, 0)) /\
  (info .& alignmask <> 0 -> kmalloc (w_calls v) size = 0 ->
    F m0 (Walk total (walk_src (w_cur v)) (walk_dst (w_cur v)) info) = None -> result = None).
Proof.
  intros Hs Hd Ht result ab size. split.
  - intros Hal Hun Hg. by apply no_page_done; try lia.
  - intros Hun Hk EF. destruct (start_fail alg alignmask ctx_alignment info ivs get_free_page kmalloc m0 v total ltac:(lia) (d :: ds) (s :: ss) Hun Hk) as (w & E & Ec).
    apply (start_fail_loop alg alignmask ctx_alignment info ivs get_free_page kmalloc F m0 v total ltac:(lia) _ _ w E); by rewrite Ec.
Qed.

Lemma failed_allocations_witness :
  (exists w, crypto_cbc_encrypt xtea_alg demo_ctx 3 4 48 false (fun _ => 0) (fun _ _ => 0) two_areas any_walk [Sg 0 17 8] [Sg 0 1 8] 8 = Some (two_areas, w, 0)) /\
  crypto_cbc_encrypt xtea_alg demo_ctx 3 4 49 false (fun _ => 0) (fun _ _ => 0) two_areas any_walk [Sg 0 16 8] [Sg 0 0 8] 8 = None.
Proof.
  split.
  - apply (failed_allocations xtea_alg 3 4 48 8 (fun _ => 0) (fun _ _ => 0) (crypto_cbc_encrypt_chunk xtea_alg demo_ctx) two_areas any_walk 8 (Sg 0 1 8) [] (Sg 0 17 8) []
      ltac:(sgs) ltac:(sgs) xtea_block); [reflexivity | left; discriminate | reflexivity].
  - apply (failed_allocations xtea_alg 3 4 49 8 (fun _ => 0) (fun _ _ => 0) (crypto_cbc_encrypt_chunk xtea_alg demo_ctx) two_areas any_walk 8 (Sg 0 0 8) [] (Sg 0 16 8) []
      ltac:(sgs) ltac:(sgs) xtea_block); [discriminate | reflexivity | vm_compute; reflexivity].
Defined.
