(* ===== verification/Rbtree.v ===== *)
(** * Red-black trees

    [lib/rbtree.c] and [include/linux/rbtree.h]: the tree that the kernel's
    users embed in their structures.  Searching is left to the users; the
    library links a node that a user has placed, rebalances, removes, replaces
    and iterates.

    The nodes are a finite map from addresses; reading or writing through a
    pointer that is [NULL] or dangling is [None].  The word [rb_parent_color]
    holds the address of the parent and, in its lowest bit, the colour. *)

From stdpp Require Import gmap.
From S2P Require Import Prelude.
Open Scope c_scope.

Record rb_node := RbNode { rb_parent_color : Z; rb_right : Z; rb_left : Z }.

(** The memory of the nodes and [root->rb_node]. *)
Record rb_state := RbState { rb_nodes : gmap Z rb_node; rb_root : Z }.

Definition RB_RED : Z := 0.
Definition RB_BLACK : Z := 1.

(** ** Fields *)

Definition rb_get (s : rb_state) (p : Z) : option rb_node := rb_nodes s !! p.
Definition rb_put (s : rb_state) (p : Z) (n : rb_node) : rb_state := RbState (<[p := n]> (rb_nodes s)) (rb_root s).
Definition set_root (s : rb_state) (p : Z) : rb_state := RbState (rb_nodes s) p.

Definition get_left (s : rb_state) (p : Z) : option Z := n ← rb_get s p; Some (rb_left n).
Definition get_right (s : rb_state) (p : Z) : option Z := n ← rb_get s p; Some (rb_right n).
Definition set_left (s : rb_state) (p v : Z) : option rb_state :=
  n ← rb_get s p; Some (rb_put s p (RbNode (rb_parent_color n) (rb_right n) v)).
Definition set_right (s : rb_state) (p v : Z) : option rb_state :=
  n ← rb_get s p; Some (rb_put s p (RbNode (rb_parent_color n) v (rb_left n))).
Definition set_parent_color (s : rb_state) (p v : Z) : option rb_state :=
  n ← rb_get s p; Some (rb_put s p (RbNode v (rb_right n) (rb_left n))).

Definition rb_parent (s : rb_state) (r : Z) : option Z := n ← rb_get s r; Some (rb_parent_color n .& .~ 3).
Definition rb_color (s : rb_state) (r : Z) : option Z := n ← rb_get s r; Some (rb_parent_color n .& 1).
Definition rb_is_red (s : rb_state) (r : Z) : option bool := c ← rb_color s r; Some (negb (truthy c)).
Definition rb_is_black (s : rb_state) (r : Z) : option bool := c ← rb_color s r; Some (truthy c).
Definition rb_set_red (s : rb_state) (r : Z) : option rb_state :=
  n ← rb_get s r; set_parent_color s r (rb_parent_color n .& .~ 1).
Definition rb_set_black (s : rb_state) (r : Z) : option rb_state :=
  n ← rb_get s r; set_parent_color s r (rb_parent_color n .| 1).
Definition rb_set_parent (s : rb_state) (rb p : Z) : option rb_state :=
  n ← rb_get s rb; set_parent_color s rb (rb_parent_color n .& 3 .| p).
Definition rb_set_color (s : rb_state) (rb color : Z) : option rb_state :=
  n ← rb_get s rb; set_parent_color s rb (rb_parent_color n .& .~ 1 .| color).

Definition RB_ROOT (nodes : gmap Z rb_node) : rb_state := RbState nodes 0.
Definition RB_EMPTY_ROOT (s : rb_state) : bool := rb_root s =? 0.
Definition RB_EMPTY_NODE (s : rb_state) (node : Z) : option bool := p ← rb_parent s node; Some (p =? node).
Definition RB_CLEAR_NODE (s : rb_state) (node : Z) : option rb_state := rb_set_parent s node node.

(** Every loop goes up or down a path of the tree. *)
Definition rb_fuel (s : rb_state) : nat := S (size (rb_nodes s)).

(** ** Rotations *)

Definition __rb_rotate_left (s : rb_state) (node : Z) : option rb_state :=
  right ← get_right s node;
  parent ← rb_parent s node;
  rl ← get_left s right;
  s ← set_right s node rl;
  s ← (if truthy rl then rl ← get_left s right; rb_set_parent s rl node else Some s);
  s ← set_left s right node;
  s ← rb_set_parent s right parent;
  s ← (if truthy parent then
         pl ← get_left s parent;
         if node =? pl then set_left s parent right else set_right s parent right
       else Some (set_root s right));
  rb_set_parent s node right.

Definition __rb_rotate_right (s : rb_state) (node : Z) : option rb_state :=
  left ← get_left s node;
  parent ← rb_parent s node;
  lr ← get_right s left;
  s ← set_left s node lr;
  s ← (if truthy lr then lr ← get_right s left; rb_set_parent s lr node else Some s);
  s ← set_right s left node;
  s ← rb_set_parent s left parent;
  s ← (if truthy parent then
         pr ← get_right s parent;
         if node =? pr then set_right s parent left else set_left s parent left
       else Some (set_root s left));
  rb_set_parent s node left.

(** ** Insertion *)

(** What a [struct rb_node **] points to. *)
Inductive rb_link := RootLink | LeftLink (p : Z) | RightLink (p : Z).
Definition load_link (s : rb_state) (l : rb_link) : option Z :=
  match l with RootLink => Some (rb_root s) | LeftLink p => get_left s p | RightLink p => get_right s p end.
Definition store_link (s : rb_state) (l : rb_link) (v : Z) : option rb_state :=
  match l with RootLink => Some (set_root s v) | LeftLink p => set_left s p v | RightLink p => set_right s p v end.

Definition rb_link_node (s : rb_state) (node parent : Z) (link : rb_link) : option rb_state :=
  s ← set_parent_color s node parent;
  s ← set_right s node 0;
  s ← set_left s node 0;
  store_link s link node.

(** [uncle && rb_is_red(uncle)]. *)
Definition is_red_node (s : rb_state) (p : Z) : option bool := if truthy p then rb_is_red s p else Some false.
(** [!p || rb_is_black(p)]. *)
Definition is_black_node (s : rb_state) (p : Z) : option bool := if truthy p then rb_is_black s p else Some true.

(** The two branches of the loop of [rb_insert_color]. *)
Definition insert_fix_left (s : rb_state) (node parent gparent : Z) : option (rb_state * Z) :=
  uncle ← get_right s gparent;
  red ← is_red_node s uncle;
  if (red : bool) then
    s ← rb_set_black s uncle;
    s ← rb_set_black s parent;
    s ← rb_set_red s gparent;
    Some (s, gparent)
  else
    pr ← get_right s parent;
    '(s, parent, node) ← (if pr =? node then s ← __rb_rotate_left s parent; Some (s, node, parent) else Some (s, parent, node));
    s ← rb_set_black s parent;
    s ← rb_set_red s gparent;
    s ← __rb_rotate_right s gparent;
    Some (s, node).

Definition insert_fix_right (s : rb_state) (node parent gparent : Z) : option (rb_state * Z) :=
  uncle ← get_left s gparent;
  red ← is_red_node s uncle;
  if (red : bool) then
    s ← rb_set_black s uncle;
    s ← rb_set_black s parent;
    s ← rb_set_red s gparent;
    Some (s, gparent)
  else
    pl ← get_left s parent;
    '(s, parent, node) ← (if pl =? node then s ← __rb_rotate_right s parent; Some (s, node, parent) else Some (s, parent, node));
    s ← rb_set_black s parent;
    s ← rb_set_red s gparent;
    s ← __rb_rotate_left s gparent;
    Some (s, node).

Definition rb_insert_color (s : rb_state) (node : Z) : option rb_state :=
  s ← c_loop (rb_fuel s) (fun '(s, node) =>
    parent ← rb_parent s node;
    red ← is_red_node s parent;
    if (red : bool) then
      gparent ← rb_parent s parent;
      gl ← get_left s gparent;
      st ← (if parent =? gl then insert_fix_left s node parent gparent else insert_fix_right s node parent gparent);
      Some (inl st)
    else Some (inr s)) (s, node);
  rb_set_black s (rb_root s).

(** ** Removal *)

(** The two branches of the loop of [__rb_erase_color]: go on with another node
    and parent, or leave the loop with a node.  First what they end
    with when the other child of the parent is black and its far child is red,
    and what follows when that other child is black. *)
Definition erase_turn_left (s : rb_state) (parent other : Z) : option (rb_state * Z * Z + rb_state * Z) :=
  pc ← rb_color s parent;
  s ← rb_set_color s other pc;
  s ← rb_set_black s parent;
  far ← get_right s other;
  s ← rb_set_black s far;
  s ← __rb_rotate_left s parent;
  Some (inr (s, rb_root s)).

Definition erase_black_left (s : rb_state) (parent other : Z) : option (rb_state * Z * Z + rb_state * Z) :=
  ol ← get_left s other;
  lb ← is_black_node s ol;
  or ← get_right s other;
  rb ← (if (lb : bool) then is_black_node s or else Some false);
  if (rb : bool) then
    s ← rb_set_red s other;
    pp ← rb_parent s parent;
    Some (inl (s, parent, pp))
  else
    fb ← is_black_node s or;
    '(s, other) ← (if (fb : bool) then
        s ← rb_set_black s ol;
        s ← rb_set_red s other;
        s ← __rb_rotate_right s other;
        other ← get_right s parent;
        Some (s, other)
      else Some (s, other));
    erase_turn_left s parent other.

Definition erase_fix_left (s : rb_state) (node parent : Z) : option (rb_state * Z * Z + rb_state * Z) :=
  other ← get_right s parent;
  red ← rb_is_red s other;
  if (red : bool) then
    s ← rb_set_black s other;
    s ← rb_set_red s parent;
    s ← __rb_rotate_left s parent;
    other ← get_right s parent;
    erase_black_left s parent other
  else erase_black_left s parent other.

Definition erase_turn_right (s : rb_state) (parent other : Z) : option (rb_state * Z * Z + rb_state * Z) :=
  pc ← rb_color s parent;
  s ← rb_set_color s other pc;
  s ← rb_set_black s parent;
  far ← get_left s other;
  s ← rb_set_black s far;
  s ← __rb_rotate_right s parent;
  Some (inr (s, rb_root s)).

Definition erase_black_right (s : rb_state) (parent other : Z) : option (rb_state * Z * Z + rb_state * Z) :=
  ol ← get_left s other;
  lb ← is_black_node s ol;
  or ← get_right s other;
  rb ← (if (lb : bool) then is_black_node s or else Some false);
  if (rb : bool) then
    s ← rb_set_red s other;
    pp ← rb_parent s parent;
    Some (inl (s, parent, pp))
  else
    fb ← is_black_node s ol;
    '(s, other) ← (if (fb : bool) then
        s ← rb_set_black s or;
        s ← rb_set_red s other;
        s ← __rb_rotate_left s other;
        other ← get_left s parent;
        Some (s, other)
      else Some (s, other));
    erase_turn_right s parent other.

Definition erase_fix_right (s : rb_state) (node parent : Z) : option (rb_state * Z * Z + rb_state * Z) :=
  other ← get_left s parent;
  red ← rb_is_red s other;
  if (red : bool) then
    s ← rb_set_black s other;
    s ← rb_set_red s parent;
    s ← __rb_rotate_right s parent;
    other ← get_left s parent;
    erase_black_right s parent other
  else erase_black_right s parent other.

Definition __rb_erase_color (s : rb_state) (node parent : Z) : option rb_state :=
  '(s, node) ← c_loop (rb_fuel s) (fun '(s, node, parent) =>
    black ← is_black_node s node;
    if (black : bool) && negb (node =? rb_root s) then
      pl ← get_left s parent;
      if pl =? node then erase_fix_left s node parent else erase_fix_right s node parent
    else Some (inr (s, node))) (s, node, parent);
  if truthy node then rb_set_black s node else Some s.

(** Going down to the left or to the right as far as possible. *)
Definition go_left (s : rb_state) (n : Z) : option Z :=
  c_loop (rb_fuel s) (fun n => l ← get_left s n; Some (if truthy l then inl l else inr n)) n.
Definition go_right (s : rb_state) (n : Z) : option Z :=
  c_loop (rb_fuel s) (fun n => r ← get_right s n; Some (if truthy r then inl r else inr n)) n.

(** Make the parent of [old] (or the root) point to [new]. *)
Definition replace_child (s : rb_state) (parent old new : Z) : option rb_state :=
  if truthy parent then
    pl ← get_left s parent;
    if pl =? old then set_left s parent new else set_right s parent new
  else Some (set_root s new).

(** A node with at most one child: what is left is the state, the child that
    moved up, its parent and the colour that went missing. *)
Definition erase_one (s : rb_state) (node child : Z) : option (rb_state * Z * Z * Z) :=
  parent ← rb_parent s node;
  color ← rb_color s node;
  s ← (if truthy child then rb_set_parent s child parent else Some s);
  s ← replace_child s parent node child;
  Some (s, child, parent, color).

(** A node with two children: the next node takes its place. *)
Definition erase_two (s : rb_state) (old right : Z) : option (rb_state * Z * Z * Z) :=
  node ← go_left s right;
  op ← rb_parent s old;
  s ← replace_child s op old node;
  child ← get_right s node;
  parent ← rb_parent s node;
  color ← rb_color s node;
  '(s, parent) ← (if parent =? old then Some (s, node) else
    s ← (if truthy child then rb_set_parent s child parent else Some s);
    s ← set_left s parent child;
    or ← get_right s old;
    s ← set_right s node or;
    s ← rb_set_parent s or node;
    Some (s, parent));
  n ← rb_get s old;
  s ← set_parent_color s node (rb_parent_color n);
  s ← set_left s node (rb_left n);
  s ← rb_set_parent s (rb_left n) node;
  Some (s, child, parent, color).

Definition rb_erase (s : rb_state) (node : Z) : option rb_state :=
  l ← get_left s node;
  r ← get_right s node;
  '(s, child, parent, color) ←
    (if negb (truthy l) then erase_one s node r else if negb (truthy r) then erase_one s node l else erase_two s node r);
  if color =? RB_BLACK then __rb_erase_color s child parent else Some s.

(** ** Iteration *)

Definition rb_first (s : rb_state) : option Z := if truthy (rb_root s) then go_left s (rb_root s) else Some 0.
Definition rb_last (s : rb_state) : option Z := if truthy (rb_root s) then go_right s (rb_root s) else Some 0.

Definition rb_next (s : rb_state) (node : Z) : option Z :=
  p ← rb_parent s node;
  if p =? node then Some 0 else
  r ← get_right s node;
  if truthy r then go_left s r
  else c_loop (rb_fuel s) (fun node =>
    parent ← rb_parent s node;
    if truthy parent then
      r ← get_right s parent; Some (if node =? r then inl parent else inr parent)
    else Some (inr parent)) node.

Definition rb_prev (s : rb_state) (node : Z) : option Z :=
  p ← rb_parent s node;
  if p =? node then Some 0 else
  l ← get_left s node;
  if truthy l then go_right s l
  else c_loop (rb_fuel s) (fun node =>
    parent ← rb_parent s node;
    if truthy parent then
      l ← get_left s parent; Some (if node =? l then inl parent else inr parent)
    else Some (inr parent)) node.

Definition rb_replace_node (s : rb_state) (victim new : Z) : option rb_state :=
  parent ← rb_parent s victim;
  s ← replace_child s parent victim new;
  l ← get_left s victim;
  s ← (if truthy l then rb_set_parent s l new else Some s);
  r ← get_right s victim;
  s ← (if truthy r then rb_set_parent s r new else Some s);
  n ← rb_get s victim;
  _ ← rb_get s new;
  Some (rb_put s new n).

(** ** Augmented trees *)

(** A user that keeps data of its own in the nodes is called back for the nodes
    whose data may be stale; the callback reads the tree and changes the data. *)
Section augmented.
Context {A : Type} (func : rb_state -> Z -> A -> option A).

Definition rb_augment_path (s : rb_state) (node : Z) (data : A) : option A :=
  c_loop (rb_fuel s) (fun '(node, data) =>
    data ← func s node data;
    parent ← rb_parent s node;
    if truthy parent then
      l ← get_left s parent;
      r ← get_right s parent;
      data ← (if (node =? l) && truthy r then func s r data
              else if truthy l then func s l data else Some data);
      Some (inl (parent, data))
    else Some (inr data)) (node, data).

Definition rb_augment_insert (s : rb_state) (node : Z) (data : A) : option A :=
  l ← get_left s node;
  r ← get_right s node;
  let node := if truthy l then l else if truthy r then r else node in
  rb_augment_path s node data.

Definition rb_augment_erase_begin (s : rb_state) (node : Z) : option Z :=
  l ← get_left s node;
  r ← get_right s node;
  if negb (truthy r) && negb (truthy l) then rb_parent s node
  else if negb (truthy r) then Some l
  else if negb (truthy l) then Some r
  else
    deepest ← rb_next s node;
    dr ← get_right s deepest;
    if truthy dr then Some dr
    else
      dp ← rb_parent s deepest;
      Some (if negb (dp =? node) then dp else deepest).

Definition rb_augment_erase_end (s : rb_state) (node : Z) (data : A) : option A :=
  if truthy node then rb_augment_path s node data else Some data.
End augmented.
