(* ===== verification/RbtreeRepr.v ===== *)
(** * Red-black trees: shapes in memory

    A tree with a hole (a zipper) describes the nodes in memory as they are
    seen from the node an operation is at.  [repr] relates it to a state; every
    read, write of a colour and rotation of the code is one step on the shape. *)

From stdpp Require Import gmap.
From S2P Require Import Prelude Rbtree.
Open Scope c_scope.

(** ** Shapes *)

Inductive color := Red | Black.
Inductive tree := Leaf | Node (c : color) (l : tree) (a : Z) (r : tree).

(** One step from a hole to the root: the hole is the left or the right child. *)
Inductive frame := LeftOf (c : color) (a : Z) (r : tree) | RightOf (c : color) (l : tree) (a : Z).

Definition ptr (t : tree) : Z := match t with Leaf => 0 | Node _ _ a _ => a end.
Definition frame_addr (f : frame) : Z := match f with LeftOf _ a _ | RightOf _ _ a => a end.
Definition fill (f : frame) (t : tree) : tree := match f with LeftOf c a r => Node c t a r | RightOf c l a => Node c l a t end.
Fixpoint plug (t : tree) (k : list frame) : tree := match k with [] => t | f :: k => plug (fill f t) k end.

Definition parent_of (k : list frame) : Z := match k with [] => 0 | f :: _ => frame_addr f end.

Fixpoint inorder (t : tree) : list Z := match t with Leaf => [] | Node _ l a r => inorder l ++ a :: inorder r end.

(** ** The word [rb_parent_color] *)

Definition color_bit (c : color) : Z := match c with Red => RB_RED | Black => RB_BLACK end.
Definition word (p : Z) (c : color) : Z := p + color_bit c.

(** Nodes are aligned to the size of a word. *)
Definition aligned (p : Z) : Prop := 0 <= p < 2 ^ 32 /\ p mod 4 = 0.
Definition node_addr (p : Z) : Prop := 0 < p < 2 ^ 32 /\ p mod 4 = 0.

Lemma node_aligned p : node_addr p -> aligned p.
Proof. unfold node_addr, aligned. lia. Qed.

Lemma lor_low p b : p mod 4 = 0 -> 0 <= b < 4 -> p .| b = p + b.
Proof.
  intros Hp Hb. pose proof (Z.add_lor_land p b) as E. assert (Z.land p b = 0) as El; [|lia].
  rewrite <- (Z.mod_small b (2 ^ 2)), <- Z.land_ones, (Z.land_comm b), Z.land_assoc, Z.land_ones by lia. change (2 ^ 2) with 4. by rewrite Hp.
Qed.

Section word.
Context (p q : Z) (c d : color) (Hp : aligned p) (Hq : aligned q).

Lemma word_mod : word p c mod 4 = color_bit c /\ is_u32 (word p c) /\ 0 <= color_bit c <= 1 /\ p + 4 <= 2 ^ 32.
Proof using Hp.
  destruct Hp as [H1 H2]. assert (p + 4 <= 2 ^ 32) by (Z.div_mod_to_equations; lia). unfold word, color_bit, RB_RED, RB_BLACK, is_u32.
  destruct c; rewrite <- Zplus_mod_idemp_l, H2; (split; [done|lia]).
Qed.

Lemma word_parent : word p c .& .~ 3 = p.
Proof using Hp.
  destruct word_mod as (E & Hu & Hb & _). change 3 with (2 ^ 2 - 1). rewrite land_not32_mask by (done || lia). change (2 ^ 2) with 4. rewrite E. unfold word. lia.
Qed.
Lemma word_color : word p c .& 1 = color_bit c.
Proof using Hp.
  destruct word_mod as (E & Hu & Hb & _). change 1 with (Z.ones 1) at 1. rewrite Z.land_ones by lia. change (2 ^ 1) with 2. destruct c; cbn in *; Z.div_mod_to_equations; lia.
Qed.
Lemma word_low : word p c .& 3 = color_bit c.
Proof using Hp. destruct word_mod as (E & _). change 3 with (Z.ones 2). rewrite Z.land_ones by lia. exact E. Qed.
Lemma word_red : word p c .& .~ 1 = p.
Proof using Hp.
  destruct word_mod as (E & Hu & Hb & _). change 1 with (2 ^ 1 - 1) at 1. rewrite land_not32_mask by (done || lia). change (2 ^ 1) with 2.
  unfold word in *. destruct c; cbn in *; Z.div_mod_to_equations; lia.
Qed.
Lemma word_black : word p c .| 1 = word p Black.
Proof using Hp.
  destruct Hp as [_ H]. unfold word. destruct c; cbn [color_bit].
  - unfold RB_RED, RB_BLACK. rewrite Z.add_0_r. by apply lor_low.
  - rewrite <- (lor_low p RB_BLACK) by done. unfold RB_BLACK. by rewrite <- Z.lor_assoc, Z.lor_diag.
Qed.
Lemma word_set_parent : word p c .& 3 .| q = word q c.
Proof using Hp Hq. rewrite word_low, Z.lor_comm. destruct Hq as [_ H]. apply lor_low; [done|]. by destruct c. Qed.
Lemma word_set_color : word p c .& .~ 1 .| color_bit d = word p d.
Proof using Hp. rewrite word_red. destruct Hp as [_ H]. apply lor_low; [done|]. by destruct d. Qed.
End word.

(** ** The nodes of a shape *)

Fixpoint facts (par : Z) (t : tree) : list (Z * rb_node) :=
  match t with
  | Leaf => []
  | Node c l a r => (a, RbNode (word par c) (ptr r) (ptr l)) :: facts a l ++ facts a r
  end.
Fixpoint path_facts (p : Z) (k : list frame) : list (Z * rb_node) :=
  match k with
  | [] => []
  | LeftOf c a r :: k => (a, RbNode (word (parent_of k) c) (ptr r) p) :: facts a r ++ path_facts a k
  | RightOf c l a :: k => (a, RbNode (word (parent_of k) c) p (ptr l)) :: facts a l ++ path_facts a k
  end.
Fixpoint addrs (t : tree) : list Z := match t with Leaf => [] | Node _ l a r => a :: addrs l ++ addrs r end.
Fixpoint path_addrs (k : list frame) : list Z :=
  match k with
  | [] => []
  | LeftOf _ a r :: k => a :: addrs r ++ path_addrs k
  | RightOf _ l a :: k => a :: addrs l ++ path_addrs k
  end.
Fixpoint root_of (p : Z) (k : list frame) : Z := match k with [] => p | f :: k => root_of (frame_addr f) k end.

Definition agree (h : gmap Z rb_node) (F : list (Z * rb_node)) : Prop := forall a n, (a, n) ∈ F -> h !! a = Some n.

Lemma agree_nil h : agree h [] <-> True.
Proof. split; [done|]. intros _ a n H. by apply not_elem_of_nil in H. Qed.
Lemma agree_cons h a n F : agree h ((a, n) :: F) <-> h !! a = Some n /\ agree h F.
Proof.
  split.
  - intros H. split; [apply H; left|]. intros b m Hb. apply H. by right.
  - intros [H1 H2] b m [[= -> ->]|Hb]%elem_of_cons; auto.
Qed.
Lemma agree_app h F G : agree h (F ++ G) <-> agree h F /\ agree h G.
Proof.
  split.
  - intros H. split; intros a n Ha; apply H, elem_of_app; auto.
  - intros [H1 H2] a n [Ha|Ha]%elem_of_app; auto.
Qed.

Lemma facts_addrs par t : map fst (facts par t) = addrs t.
Proof. revert par. induction t as [|c l IHl a r IHr]; intros par; cbn; [done|]. by rewrite map_app, IHl, IHr. Qed.
Lemma path_facts_addrs p k : map fst (path_facts p k) = path_addrs k.
Proof. revert p. induction k as [|[c a r|c l a] k IH]; intros p; cbn; [done|..]; by rewrite map_app, facts_addrs, IH. Qed.

Lemma agree_insert h a n F : a ∉ map fst F -> agree h F -> agree (<[a := n]> h) F.
Proof.
  intros Hn HF b m Hb. rewrite lookup_insert_ne; [by apply HF|]. intros <-. apply Hn, list_elem_of_In, in_map_iff. exists (a, m). by rewrite <- list_elem_of_In.
Qed.
Lemma agree_insert_tree h a n par t : a ∉ addrs t -> agree h (facts par t) -> agree (<[a := n]> h) (facts par t).
Proof. intros H. apply agree_insert. by rewrite facts_addrs. Qed.
Lemma agree_insert_path h a n p k : a ∉ path_addrs k -> agree h (path_facts p k) -> agree (<[a := n]> h) (path_facts p k).
Proof. intros H. apply agree_insert. by rewrite path_facts_addrs. Qed.

(** ** Taking an element out of a list *)

Class Pull (x : Z) (L L' : list Z) : Prop := pull : L ≡ₚ x :: L'.
#[export] Instance pull_here x L : Pull x (x :: L) L | 0.
Proof. unfold Pull. reflexivity. Qed.
#[export] Instance pull_cons x y L L' : Pull x L L' -> Pull x (y :: L) (y :: L') | 2.
Proof. unfold Pull. intros ->. apply Permutation_swap. Qed.
#[export] Instance pull_app_l x L1 L1' L2 : Pull x L1 L1' -> Pull x (L1 ++ L2) (L1' ++ L2) | 1.
Proof. unfold Pull. by intros ->. Qed.
#[export] Instance pull_app_r x L1 L2 L2' : Pull x L2 L2' -> Pull x (L1 ++ L2) (L1 ++ L2') | 3.
Proof. unfold Pull. intros ->. symmetry. apply Permutation_middle. Qed.

Lemma nodup_pull x L L' `{!Pull x L L'} : NoDup L <-> (x ∉ L') /\ NoDup L'.
Proof. rewrite (pull (L := L)). apply list.NoDup_cons. Qed.

(** ** States *)

Section repr.
(** The other nodes are those of [h0], but for some that are in flux. *)
Context (h0 : gmap Z rb_node) (extra : list Z).

Record repr (s : rb_state) (t : tree) (k : list frame) : Prop := Repr {
  re_facts : agree (rb_nodes s) (facts (parent_of k) t ++ path_facts (ptr t) k);
  re_root : rb_root s = root_of (ptr t) k;
  re_nodup : NoDup (addrs t ++ path_addrs k);
  re_good : Forall node_addr (addrs t ++ path_addrs k);
  re_frame q : q ∉ addrs t ++ path_addrs k -> q ∉ extra -> rb_nodes s !! q = h0 !! q
}.

(** The same nodes, seen from the parent. *)
Lemma repr_fill s t f k : repr s t (f :: k) <-> repr s (fill f t) k.
Proof using.
  assert (addrs (fill f t) ++ path_addrs k ≡ₚ addrs t ++ path_addrs (f :: k)) as EA.
  { destruct f; cbn; rewrite <- ?(Permutation_middle (addrs t)), ?app_assoc; [done|]. by rewrite (Permutation_app_comm (addrs l)). }
  assert (agree (rb_nodes s) (facts (parent_of (f :: k)) t ++ path_facts (ptr t) (f :: k)) <->
    agree (rb_nodes s) (facts (parent_of k) (fill f t) ++ path_facts (ptr (fill f t)) k)) as EF.
  { destruct f; cbn; rewrite !agree_app, !agree_cons, !agree_app; tauto. }
  assert (root_of (ptr t) (f :: k) = root_of (ptr (fill f t)) k) as ER by (by destruct f).
  split; intros [H1 H2 H3 H4 H5]; split; try (by rewrite <- ?ER, ?ER in * ); try tauto; try (by rewrite ?EA, <- ?EA in * ).
  - intros q Hq. apply H5. by rewrite <- EA.
  - intros q Hq. apply H5. by rewrite EA.
Qed.

Lemma repr_plug s t k : repr s t k <-> repr s (plug t k) [].
Proof using. revert t. induction k as [|f k IH]; intros t; [done|]. cbn [plug]. by rewrite <- IH, repr_fill. Qed.

Lemma repr_node s c l a r k : repr s (Node c l a r) k -> rb_get s a = Some (RbNode (word (parent_of k) c) (ptr r) (ptr l)).
Proof using. intros [H _ _ _ _]. cbn in H. rewrite agree_cons in H. exact (proj1 H). Qed.

Lemma path_aligned s t k : repr s t k -> aligned (parent_of k).
Proof using.
  intros [_ _ _ H _]. destruct k as [|f k]; [split; [cbn; lia|done]|]. apply node_aligned. rewrite Forall_app in H. destruct H as [_ H].
  destruct f; cbn in *; by apply (Forall_inv H).
Qed.

Lemma tree_addr s c l a r k : repr s (Node c l a r) k -> node_addr a.
Proof using. intros [_ _ _ H _]. exact (Forall_inv H). Qed.

Lemma ptr_zero s t k : repr s t k -> truthy (ptr t) = true <-> t <> Leaf.
Proof using.
  intros H. rewrite truthy_true. destruct t as [|c l a r]; [done|]. pose proof (tree_addr _ _ _ _ _ _ H) as [Ha _]. cbn. split; [done|lia].
Qed.

(** *** Reading *)

Section read.
Context (s : rb_state) (c : color) (l : tree) (a : Z) (r : tree) (k : list frame) (H : repr s (Node c l a r) k).

Lemma get_left_ok : get_left s a = Some (ptr l).
Proof using H. unfold get_left. by rewrite (repr_node _ _ _ _ _ _ H). Qed.
Lemma get_right_ok : get_right s a = Some (ptr r).
Proof using H. unfold get_right. by rewrite (repr_node _ _ _ _ _ _ H). Qed.
Lemma rb_parent_ok : rb_parent s a = Some (parent_of k).
Proof using H. unfold rb_parent. rewrite (repr_node _ _ _ _ _ _ H). cbn. f_equal. by eapply word_parent, path_aligned. Qed.
Lemma rb_color_ok : rb_color s a = Some (color_bit c).
Proof using H. unfold rb_color. rewrite (repr_node _ _ _ _ _ _ H). cbn. f_equal. by eapply word_color, path_aligned. Qed.
Lemma rb_is_red_ok : rb_is_red s a = Some (match c with Red => true | Black => false end).
Proof using H. unfold rb_is_red. rewrite rb_color_ok. by destruct c. Qed.
Lemma rb_is_black_ok : rb_is_black s a = Some (match c with Red => false | Black => true end).
Proof using H. unfold rb_is_black. rewrite rb_color_ok. by destruct c. Qed.

(** *** Colours *)

Lemma put_color d : repr (rb_put s a (RbNode (word (parent_of k) d) (ptr r) (ptr l))) (Node d l a r) k.
Proof using H.
  destruct H as [H1 H2 H3 H4 H5]. cbn in H3. pose proof H3 as [Ha _]%list.NoDup_cons. rewrite !not_elem_of_app in Ha. destruct Ha as [[Hl Hr] Hk].
  split; try done.
  - cbn in H1 |- *. rewrite !agree_cons, !agree_app in *. destruct H1 as (_ & (F1 & F2) & F3). split; [apply lookup_insert_eq|].
    split; [split; by apply agree_insert_tree | by apply agree_insert_path].
  - intros q Hq. cbn. rewrite lookup_insert_ne; [by apply H5|]. intros <-. apply Hq. left.
Qed.

Lemma rb_set_black_ok : exists s', rb_set_black s a = Some s' /\ repr s' (Node Black l a r) k.
Proof using H.
  pose proof (put_color Black) as P. eexists. split; [|exact P]. unfold rb_set_black, set_parent_color. rewrite (repr_node _ _ _ _ _ _ H). cbn.
  by rewrite word_black by (by eapply path_aligned).
Qed.
Lemma rb_set_red_ok : exists s', rb_set_red s a = Some s' /\ repr s' (Node Red l a r) k.
Proof using H.
  pose proof (put_color Red) as P. eexists. split; [|exact P]. unfold rb_set_red, set_parent_color. rewrite (repr_node _ _ _ _ _ _ H). cbn.
  rewrite word_red by (by eapply path_aligned). unfold word. cbn. unfold RB_RED. by rewrite Z.add_0_r.
Qed.
End read.

Lemma rb_set_color_ok d s c l a r k : repr s (Node c l a r) k -> exists s', rb_set_color s a (color_bit d) = Some s' /\ repr s' (Node d l a r) k.
Proof using.
  intros H. pose proof (put_color _ _ _ _ _ _ H d) as P. eexists. split; [|exact P]. unfold rb_set_color, set_parent_color.
  rewrite (repr_node _ _ _ _ _ _ H). cbn. by rewrite word_set_color by (by eapply path_aligned).
Qed.

Definition is_red (t : tree) : bool := match t with Node Red _ _ _ => true | _ => false end.

Lemma is_red_node_ok s t k : repr s t k -> is_red_node s (ptr t) = Some (is_red t).
Proof using.
  intros H. unfold is_red_node. destruct t as [|c l a r]; [done|]. rewrite (proj2 (ptr_zero _ _ _ H)) by done. cbn [ptr].
  rewrite (rb_is_red_ok _ _ _ _ _ _ H). by destruct c.
Qed.
Lemma is_black_node_ok s t k : repr s t k -> is_black_node s (ptr t) = Some (negb (is_red t)).
Proof using.
  intros H. unfold is_black_node. destruct t as [|c l a r]; [done|]. rewrite (proj2 (ptr_zero _ _ _ H)) by done. cbn [ptr].
  rewrite (rb_is_black_ok _ _ _ _ _ _ H). by destruct c.
Qed.
(** The same nodes in another shape. *)
Lemma repr_reshape s t k s' t' k' : repr s t k -> addrs t' ++ path_addrs k' ≡ₚ addrs t ++ path_addrs k ->
  agree (rb_nodes s') (facts (parent_of k') t' ++ path_facts (ptr t') k') -> rb_root s' = root_of (ptr t') k' ->
  (forall q, q ∉ addrs t ++ path_addrs k -> rb_nodes s' !! q = rb_nodes s !! q) -> repr s' t' k'.
Proof using.
  intros [H1 H2 H3 H4 H5] EA HF HR HQ. split; [done|done|by rewrite EA|by rewrite EA|]. intros q Hq Hx. rewrite EA in Hq. rewrite HQ by done. auto.
Qed.
End repr.

(** ** Running the code on known nodes *)

Lemma truthy_addr a : node_addr a -> truthy a = true.
Proof. intros [H _]. apply truthy_true. lia. Qed.

Lemma ptr_differs a t : a ∉ addrs t -> node_addr a -> (a =? ptr t) = false.
Proof. intros Ht [Ha _]. apply Z.eqb_neq. destruct t; cbn in *; [lia|]. intros ->. apply Ht. left. Qed.

(** Nodes that are not the same, from [NoDup]. *)
Ltac differ :=
  match goal with
  | H : ?x <> ?y |- ?x <> ?y => exact H
  | H : ?y <> ?x |- ?x <> ?y => exact (not_eq_sym H)
  | H : ?x ∉ ?L |- ?x ∉ ?L => exact H
  end.
Ltac split_all := repeat match goal with H : _ /\ _ |- _ => destruct H end.
Ltac not_in H := rewrite ?not_elem_of_cons, ?not_elem_of_app, ?not_elem_of_cons, ?not_elem_of_app in H.
Ltac pull_out x H Hx :=
  match type of H with NoDup ?L =>
    let P := fresh in eassert (Pull x L _) as P; [typeclasses eauto|]; apply (nodup_pull x L _ (Pull0 := P)) in H; clear P
  end; destruct H as [Hx H]; not_in Hx.

Ltac look :=
  match goal with
  | |- context [<[?i := ?x]> ?m !! ?j] => first [rewrite (lookup_insert_eq m i x) | rewrite (lookup_insert_ne m i j x) by differ]
  | E : ?h !! ?a = Some _ |- context [?h !! ?a] => rewrite E
  | E : node_addr ?x |- context [truthy ?x] => rewrite (truthy_addr x E)
  | E : ?x ∉ addrs ?t, G : node_addr ?x |- context [?x =? ptr ?t] => rewrite (ptr_differs x t E G)
  | E : ?x ∉ addrs ?t, G : node_addr ?x |- context [ptr ?t =? ?x] => rewrite (Z.eqb_sym (ptr t) x), (ptr_differs x t E G)
  | |- context [?x =? ?x] => rewrite (Z.eqb_refl x)
  | |- context [word ?p ?c .& .~ 3] => rewrite (word_parent p c) by auto using node_aligned
  | |- context [word ?p ?c .& 3 .| ?q] => rewrite (word_set_parent p q c) by auto using node_aligned
  end.
Ltac run := repeat first [look | rewrite bind_Some_eq | progress cbn [rb_nodes rb_root rb_parent_color rb_left rb_right set_root truthy negb Z.eqb]].

(** Facts about explicit nodes. *)
Ltac shape := cbn [facts path_facts addrs path_addrs ptr parent_of frame_addr root_of app].
Ltac shape_in H := cbn [facts path_facts addrs path_addrs ptr parent_of frame_addr root_of app] in H.
Ltac facts_of H :=
  let H1 := fresh in let H2 := fresh in let H3 := fresh in let H4 := fresh in let Hp := fresh in
  pose proof H as [H1 H2 H3 H4 _]; pose proof (path_aligned _ _ _ _ _ H) as Hp; shape_in H1; shape_in H2; shape_in H3; shape_in H4; shape_in Hp;
  repeat (rewrite agree_cons in H1 || rewrite agree_app in H1); repeat (rewrite list.Forall_cons in H4 || rewrite list.Forall_app in H4); split_all;
  repeat match goal with E : _ !! ?y = Some _ |- _ => let N := fresh in pull_out y H3 N end; split_all.
Ltac chunks :=
  repeat (rewrite agree_cons || rewrite agree_app); cbn [rb_nodes set_root];
  repeat match goal with |- _ /\ _ => split end;
  try (run; reflexivity); repeat first [assumption | by apply agree_nil | apply agree_insert_tree; [differ|] | apply agree_insert_path; [differ|]].
Ltac outside :=
  let Hq := fresh in intros Hq; cbn in Hq; not_in Hq; split_all; cbn [rb_nodes set_root];
  repeat (rewrite lookup_insert_ne by differ); reflexivity.
Ltac others := let q := fresh in intros q; outside.

(** ** Rotations *)

Section rotations.
Context (h0 : gmap Z rb_node) (extra : list Z).
Local Abbreviation repr := (repr h0 extra).

Lemma rotate_perm (A B C K : list Z) a b : (b :: (a :: A ++ B) ++ C) ++ K ≡ₚ (a :: A ++ b :: B ++ C) ++ K.
Proof using. f_equiv. cbn. rewrite <- (Permutation_middle A). rewrite app_assoc. apply Permutation_swap. Qed.

Lemma rotate_left_ok s c A a d B b C k : repr s (Node c A a (Node d B b C)) k ->
  exists s', __rb_rotate_left s a = Some s' /\ repr s' (Node d (Node c A a B) b C) k.
Proof using.
  intros H. unfold __rb_rotate_left, get_right, get_left, rb_parent, rb_set_parent, set_left, set_right, set_parent_color, rb_get, rb_put.
  destruct B as [|e B1 x B2]; destruct k as [|[c' p r|c' l p] k]; facts_of H; run; (eexists; split; [reflexivity|]);
    (eapply (repr_reshape _ _ _ _ _ _ _ _ H); [cbn [addrs]; apply rotate_perm|shape; chunks|done|others]).
Qed.

Lemma rotate_right_ok s c A a d B b C k : repr s (Node c (Node d A b B) a C) k ->
  exists s', __rb_rotate_right s a = Some s' /\ repr s' (Node d A b (Node c B a C)) k.
Proof using.
  intros H. unfold __rb_rotate_right, get_right, get_left, rb_parent, rb_set_parent, set_left, set_right, set_parent_color, rb_get, rb_put.
  destruct B as [|e B1 x B2]; destruct k as [|[c' p r|c' l p] k]; facts_of H; run; (eexists; split; [reflexivity|]);
    (eapply (repr_reshape _ _ _ _ _ _ _ _ H); [cbn [addrs]; symmetry; apply rotate_perm|shape; chunks|done|others]).
Qed.
End rotations.

(** ** Moving around *)

Section moving.
Context (h0 : gmap Z rb_node) (extra : list Z).
Local Abbreviation repr := (repr h0 extra).

Lemma repr_left s c l a r k : repr s (Node c l a r) k -> repr s l (LeftOf c a r :: k).
Proof using. by rewrite repr_fill. Qed.
Lemma repr_right s c l a r k : repr s (Node c l a r) k -> repr s r (RightOf c l a :: k).
Proof using. by rewrite repr_fill. Qed.
Lemma repr_up s t f k : repr s t (f :: k) -> repr s (fill f t) k.
Proof using. by rewrite repr_fill. Qed.

Lemma left_not_right s c l a r x k : repr s (Node c l a r) k -> x ∈ addrs l -> (ptr r =? x) = false.
Proof using.
  intros [_ _ H G _] Hx. cbn in H, G. apply list.NoDup_cons in H as [_ H]. apply list.NoDup_app in H as [H _].
  apply list.NoDup_app in H as (_ & H & _). rewrite Z.eqb_sym. apply ptr_differs; [by apply H|].
  rewrite list.Forall_forall in G. apply G. set_solver.
Qed.
Lemma right_not_left s c l a r x k : repr s (Node c l a r) k -> x ∈ addrs r -> (ptr l =? x) = false.
Proof using.
  intros [_ _ H G _] Hx. cbn in H, G. apply list.NoDup_cons in H as [_ H]. apply list.NoDup_app in H as [H _].
  apply list.NoDup_app in H as (_ & H & _). rewrite Z.eqb_sym. apply ptr_differs; [intros E; by apply (H x)|].
  rewrite list.Forall_forall in G. apply G. set_solver.
Qed.

(** The loops have enough fuel for any path. *)
Lemma repr_size s t k : repr s t k -> (length (addrs t) + length k < rb_fuel s)%nat.
Proof using.
  intros [H _ N _ _]. unfold rb_fuel. assert (length (addrs t ++ path_addrs k) <= size (rb_nodes s))%nat as L.
  { rewrite <- size_dom. rewrite <- (size_list_to_set (C := gset Z) _ N). apply subseteq_size. intros a Ha.
    apply elem_of_list_to_set in Ha. rewrite <- (facts_addrs (parent_of k)), <- (path_facts_addrs (ptr t)), <- map_app in Ha.
    apply list_elem_of_In, in_map_iff in Ha as ([b n] & <- & Hn). apply list_elem_of_In, H in Hn. by eapply elem_of_dom_2. }
  assert (length k <= length (path_addrs k))%nat; [|rewrite length_app in L; lia].
  clear. induction k as [|[] k IH]; cbn; rewrite ?length_app; lia.
Qed.
End moving.

(** The next operation of the code, at the node in focus. *)
Ltac up H := apply repr_up in H; cbn [fill] in H.
Ltac down_left H := apply repr_left in H.
Ltac down_right H := apply repr_right in H.
Ltac act lem H :=
  let s := fresh "s" in let E := fresh in
  apply lem in H; destruct H as (s & E & H); rewrite E; clear E; try rewrite bind_Some_eq.
Ltac observe lem H := erewrite (lem _ _ _ _ _ _ _ _ H); rewrite bind_Some_eq.
Ltac observe_tree lem H := erewrite (lem _ _ _ _ _ H); rewrite bind_Some_eq.
