(* ===== verification/RbtreeInsert.v ===== *)
(** * Red-black trees: the colours, and insertion

    The red-black conditions on shapes, with the conditions on the path from a
    hole to the root, and the loop of [rb_insert_color]: it carries a red node
    up a path that is in order but for that node's parent. *)

From stdpp Require Import gmap.
From S2P Require Import Prelude Rbtree RbtreeRepr.
Open Scope c_scope.

(** ** Red-black trees *)

Create HintDb rb.

(** No red node has a red child, and every path has [n] black nodes. *)
Inductive rb : nat -> tree -> Prop :=
| rb_leaf : rb 0 Leaf
| rb_red n l a r : rb n l -> rb n r -> is_red l = false -> is_red r = false -> rb n (Node Red l a r)
| rb_black n l a r : rb n l -> rb n r -> rb (S n) (Node Black l a r).
#[export] Hint Constructors rb : rb.

Definition rb_tree (t : tree) : Prop := is_red t = false /\ exists n, rb n t.

(** The path from a hole for a tree of black height [n], whatever the colour of
    what will fill it; a red node is below a black one. *)
Definition black_frame (f : frame) : bool := match f with LeftOf Black _ _ | RightOf Black _ _ => true | _ => false end.
Definition sibling (f : frame) : tree := match f with LeftOf _ _ t | RightOf _ t _ => t end.

Inductive path_ok : nat -> list frame -> Prop :=
| path_nil n : path_ok n []
| path_black n f k : black_frame f = true -> rb n (sibling f) -> path_ok (S n) k -> path_ok n (f :: k)
| path_red n f g k : black_frame f = false -> rb n (sibling f) -> is_red (sibling f) = false -> black_frame g = true ->
    path_ok n (g :: k) -> path_ok n (f :: g :: k).
#[export] Hint Constructors path_ok : rb.

(** A tree of that height may go there: a red one below a black node. *)
Definition fits (t : tree) (k : list frame) : Prop :=
  is_red t = true -> match k with [] => False | f :: _ => black_frame f = true end.

Lemma fill_black n f t : black_frame f = true -> rb n (sibling f) -> rb n t -> rb (S n) (fill f t) /\ is_red (fill f t) = false.
Proof. destruct f as [[] ? ?|[] ? ?]; cbn; intros; try done; split; auto with rb. Qed.
Lemma fill_red n f t : black_frame f = false -> rb n (sibling f) -> is_red (sibling f) = false -> rb n t -> is_red t = false ->
  rb n (fill f t) /\ is_red (fill f t) = true.
Proof. destruct f as [[] ? ?|[] ? ?]; cbn; intros; try done; split; auto with rb. Qed.

Lemma plug_ok n t k : rb n t -> path_ok n k -> fits t k -> rb_tree (plug t k).
Proof.
  intros Ht Hk. revert t Ht. induction Hk as [n|n f k Hf Hs Hk IH|n f g k Hf Hs Hsr Hg Hk IH]; intros t Ht Hfit.
  - split; [|by exists n]. destruct (is_red t) eqn:E; [by destruct Hfit|done].
  - cbn [plug]. destruct (fill_black n f t Hf Hs Ht) as [Ht' Hr]. apply IH; [done|]. intros E. by rewrite Hr in E.
  - cbn [plug]. assert (is_red t = false) as Htr by (destruct (is_red t) eqn:E; [|done]; specialize (Hfit E); cbn in Hfit; congruence).
    destruct (fill_red n f t Hf Hs Hsr Ht Htr) as [Ht' Hr]. apply IH; [done|]. intros _. done.
Qed.

Lemma plug_inv t k : rb_tree (plug t k) -> exists n, rb n t /\ path_ok n k /\ fits t k.
Proof.
  revert t. induction k as [|f k IH]; intros t H; cbn [plug] in H.
  - destruct H as [Hr [n H]]. exists n. split; [done|]. split; [constructor|]. intros E. by rewrite Hr in E.
  - destruct (IH _ H) as (m & Hm & Hk & Hfit). destruct f as [[] a r|[] l a]; cbn in Hm; inversion Hm; subst; cbn in Hfit.
    all: first [ (specialize (Hfit eq_refl); destruct k as [|g k]; [done|]; eexists; split; [eassumption|]; split; [by apply path_red|]; intros E; cbn; congruence)
               | (eexists; split; [eassumption|]; split; [by apply path_black|done]) ].
Qed.

(** ** The order of the nodes *)

Fixpoint before (k : list frame) : list Z := match k with [] => [] | LeftOf _ _ _ :: k => before k | RightOf _ l a :: k => before k ++ inorder l ++ [a] end.
Fixpoint after (k : list frame) : list Z := match k with [] => [] | LeftOf _ a r :: k => a :: inorder r ++ after k | RightOf _ _ _ :: k => after k end.

Lemma inorder_plug t k : inorder (plug t k) = before k ++ inorder t ++ after k.
Proof.
  revert t. induction k as [|[c a r|c l a] k IH]; intros t; cbn; [by rewrite app_nil_r|..]; rewrite IH; cbn; rewrite <- ?app_assoc; done.
Qed.

Ltac same_order := rewrite !inorder_plug; repeat (progress cbn || rewrite <- app_assoc); reflexivity.

(** ** Insertion *)

Section insert.
Context (h0 : gmap Z rb_node) (extra : list Z).
Local Abbreviation repr := (repr h0 extra).

(** The field that points to the hole. *)
Definition link_of (k : list frame) : rb_link :=
  match k with [] => RootLink | LeftOf _ a _ :: _ => LeftLink a | RightOf _ _ a :: _ => RightLink a end.

Lemma rb_link_node_ok s x k : repr s Leaf k -> x ∉ path_addrs k -> node_addr x -> is_Some (rb_get s x) ->
  exists s', rb_link_node s x (parent_of k) (link_of k) = Some s' /\ repr s' (Node Red Leaf x Leaf) k.
Proof using.
  intros H Hx Ha [nx Hn]. unfold rb_link_node, store_link, set_left, set_right, set_parent_color, rb_put. unfold rb_get in *.
  assert (forall p, word p Red = p) as W by (intros p; unfold word; cbn; unfold RB_RED; lia).
  pose proof Hx as Hx0. destruct k as [|[c p r|c l p] k]; facts_of H; cbn [path_addrs] in Hx; not_in Hx; split_all; shape; cbn [link_of]; run;
    (eexists; split; [reflexivity|]);
    (split; [shape; rewrite W; chunks|done|apply list.NoDup_cons; exact (conj Hx0 (re_nodup _ _ _ _ _ H))
            |apply list.Forall_cons; exact (conj Ha (re_good _ _ _ _ _ H))|]);
    intros q Hq Hq'; cbn in Hq; pose proof (re_frame _ _ _ _ _ H q) as G; cbn in G; rewrite <- G by (done || set_solver);
    cbn; rewrite ?lookup_insert_ne by set_solver; done.
Qed.

(** A red node that may be below a red one, in an otherwise good tree. *)
Definition risen (s : rb_state) (x : Z) (io : list Z) (k : list frame) : Prop :=
  exists n l r, repr s (Node Red l x r) k /\ rb n (Node Red l x r) /\ path_ok n k /\ inorder (plug (Node Red l x r) k) = io.

Ltac rise n H := do 3 eexists; split; [reflexivity|]; split; [exists n; do 2 eexists; split; [exact H|]; split; [|split] |].

Lemma insert_fix_left_ok s n l x r f g u k : let t := Node Red l x r in let k0 := f :: LeftOf Black g u :: k in
  repr s t k0 -> rb n t -> black_frame f = false -> rb n (sibling f) -> is_red (sibling f) = false -> path_ok n (LeftOf Black g u :: k) ->
  exists s' x' k', insert_fix_left s x (frame_addr f) g = Some (s', x') /\ risen s' x' (inorder (plug t k0)) k' /\ (length k' < length k0)%nat.
Proof using.
  intros t k0 H Ht Hf Hs Hsr Hk. inversion Hk as [|? ? ? _ Hu Hk'|]; subst; [|done]. cbn [sibling] in Hu. unfold insert_fix_left.
  inversion Ht as [|? ? ? ? Hl Hr Hlr Hrr|]; subst.
  up H. up H. observe get_right_ok H. down_right H. observe_tree is_red_node_ok H.
  destruct (is_red u) eqn:Eu.
  - destruct u as [|[] ul ua ur]; try done. inversion Hu; subst. cbn [ptr]. act rb_set_black_ok H. up H. down_left H.
    destruct f as [[] p q|[] q p]; try done; cbn [fill frame_addr sibling] in *; act rb_set_black_ok H; up H; act rb_set_red_ok H;
      (rise (S n) H; [by auto 7 with rb|done|subst t k0; same_order|subst k0; cbn; lia]).
  - up H. down_left H. destruct f as [[] p q|[] q p]; try done; cbn [fill frame_addr sibling] in *.
    + observe get_right_ok H. rewrite (left_not_right _ _ _ _ _ _ _ x _ H) by (left). rewrite bind_Some_eq.
      act rb_set_black_ok H. up H. act rb_set_red_ok H. act rotate_right_ok H. down_left H.
      rise n H; [done|apply path_black; cbn; auto with rb|subst t k0; same_order|subst k0; cbn; lia].
    + observe get_right_ok H. cbn [ptr]. rewrite Z.eqb_refl. act rotate_left_ok H. rewrite bind_Some_eq.
      act rb_set_black_ok H. up H. act rb_set_red_ok H. act rotate_right_ok H. down_left H.
      rise n H; [by auto with rb|apply path_black; cbn; auto with rb|subst t k0; same_order|subst k0; cbn; lia].
Qed.

Lemma insert_fix_right_ok s n l x r f g u k : let t := Node Red l x r in let k0 := f :: RightOf Black u g :: k in
  repr s t k0 -> rb n t -> black_frame f = false -> rb n (sibling f) -> is_red (sibling f) = false -> path_ok n (RightOf Black u g :: k) ->
  exists s' x' k', insert_fix_right s x (frame_addr f) g = Some (s', x') /\ risen s' x' (inorder (plug t k0)) k' /\ (length k' < length k0)%nat.
Proof using.
  intros t k0 H Ht Hf Hs Hsr Hk. inversion Hk as [|? ? ? _ Hu Hk'|]; subst; [|done]. cbn [sibling] in Hu. unfold insert_fix_right.
  inversion Ht as [|? ? ? ? Hl Hr Hlr Hrr|]; subst.
  up H. up H. observe get_left_ok H. down_left H. observe_tree is_red_node_ok H.
  destruct (is_red u) eqn:Eu.
  - destruct u as [|[] ul ua ur]; try done. inversion Hu; subst. cbn [ptr]. act rb_set_black_ok H. up H. down_right H.
    destruct f as [[] p q|[] q p]; try done; cbn [fill frame_addr sibling] in *; act rb_set_black_ok H; up H; act rb_set_red_ok H;
      (rise (S n) H; [by auto 7 with rb|done|subst t k0; same_order|subst k0; cbn; lia]).
  - up H. down_right H. destruct f as [[] p q|[] q p]; try done; cbn [fill frame_addr sibling] in *.
    + observe get_left_ok H. cbn [ptr]. rewrite Z.eqb_refl. act rotate_right_ok H. rewrite bind_Some_eq.
      act rb_set_black_ok H. up H. act rb_set_red_ok H. act rotate_left_ok H. down_right H.
      rise n H; [by auto with rb|apply path_black; cbn; auto with rb|subst t k0; same_order|subst k0; cbn; lia].
    + observe get_left_ok H. rewrite (right_not_left _ _ _ _ _ _ _ x _ H) by (left). rewrite bind_Some_eq.
      act rb_set_black_ok H. up H. act rb_set_red_ok H. act rotate_left_ok H. down_right H.
      rise n H; [done|apply path_black; cbn; auto with rb|subst t k0; same_order|subst k0; cbn; lia].
Qed.

(** One iteration. *)
Lemma insert_step_ok s x io f k : risen s x io (f :: k) -> black_frame f = false ->
  exists gp gl s' x' k', rb_parent s (frame_addr f) = Some gp /\ get_left s gp = Some gl /\
    (if frame_addr f =? gl then insert_fix_left s x (frame_addr f) gp else insert_fix_right s x (frame_addr f) gp) = Some (s', x') /\
    risen s' x' io k' /\ (length k' <= length k)%nat.
Proof using.
  intros (n & l & r & H & Ht & Hk & Ho) Hf. inversion Hk as [|? ? ? Hb|n' f' g k' _ Hs Hsr Hg Hk']; subst; [congruence|].
  destruct g as [[] g u|[] u g]; try done.
  - destruct (insert_fix_left_ok _ _ _ _ _ _ _ _ _ H Ht Hf Hs Hsr Hk') as (s' & x' & k2 & E & HR & HL). exists g, (frame_addr f), s', x', k2.
    repeat split; [| |by rewrite Z.eqb_refl|done|cbn in *; lia]; up H.
    + destruct f; cbn [fill frame_addr parent_of] in H |- *; by rewrite (rb_parent_ok _ _ _ _ _ _ _ _ H).
    + up H. rewrite (get_left_ok _ _ _ _ _ _ _ _ H). by destruct f.
  - destruct (insert_fix_right_ok _ _ _ _ _ _ _ _ _ H Ht Hf Hs Hsr Hk') as (s' & x' & k2 & E & HR & HL). exists g, (ptr u), s', x', k2.
    pose proof H as H2. up H. pose proof H as H1. up H. repeat split; [| | |done|cbn in *; lia].
    + destruct f; cbn [fill frame_addr parent_of] in H1 |- *; by rewrite (rb_parent_ok _ _ _ _ _ _ _ _ H1).
    + by rewrite (get_left_ok _ _ _ _ _ _ _ _ H).
    + rewrite Z.eqb_sym, (right_not_left _ _ _ _ _ _ _ (frame_addr f) _ H); [done|]. destruct f; left.
Qed.

(** The whole of [rb_insert_color], from any risen node. *)
Lemma rb_insert_color_risen s x io k : risen s x io k ->
  exists s' t, rb_insert_color s x = Some s' /\ repr s' t [] /\ rb_tree t /\ inorder t = io.
Proof using.
  intros H0. unfold rb_insert_color. set (Q := fun s' : rb_state => exists t n, repr s' t [] /\ rb n t /\ inorder t = io).
  match goal with |- context [c_loop _ ?b _] => set (body := b) end.
  enough (exists s', c_loop (rb_fuel s) body (s, x) = Some s' /\ Q s') as (s' & E & t & n & H & Ht & Ho).
  { rewrite E, bind_Some_eq. destruct t as [|c l a r].
    { destruct H0 as (? & ? & ? & _ & _ & _ & H0). rewrite <- Ho, inorder_plug in H0. cbn in H0. by destruct (before k), (inorder _). }
    rewrite (re_root _ _ _ _ _ H). cbn [ptr root_of].
    act rb_set_black_ok H. exists s0, (Node Black l a r). split; [done|]. split; [done|]. split; [|done]. split; [done|].
    inversion Ht; subst; eexists; by apply rb_black. }
  assert (length k < rb_fuel s)%nat as Hfuel by (destruct H0 as (? & ? & ? & H & _); apply repr_size in H; lia).
  revert x k H0 Hfuel. generalize (rb_fuel s). intros F. revert s. induction F as [|F IH]; intros s x k H0 HF; [lia|].
  pose proof H0 as (n & l & r & H & Ht & Hk & Ho). cbn [c_loop]. subst body. cbn beta iota. observe rb_parent_ok H.
  destruct k as [|f k]; [|destruct (black_frame f) eqn:Ef]; cbn [parent_of].
  - change (is_red_node s 0) with (Some false). rewrite bind_Some_eq. eexists. split; [reflexivity|]. exists (Node Red l x r), n. auto.
  - replace (is_red_node s (frame_addr f)) with (Some false).
    + rewrite bind_Some_eq. eexists. split; [reflexivity|]. destruct (plug_ok _ _ _ Ht Hk (fun _ => Ef)) as [_ [m Hm]].
      exists (plug (Node Red l x r) (f :: k)), m. split; [by apply (proj1 (repr_plug h0 extra s _ _)) in H|done].
    + up H. apply is_red_node_ok in H. by destruct f as [[] ? ?|[] ? ?].
  - replace (is_red_node s (frame_addr f)) with (Some true) by (up H; apply is_red_node_ok in H; by destruct f as [[] ? ?|[] ? ?]).
    rewrite bind_Some_eq. destruct (insert_step_ok _ _ _ _ _ H0 Ef) as (gp & gl & s' & x' & k' & E1 & E2 & E3 & HR & HL).
    rewrite E1, bind_Some_eq, E2, bind_Some_eq, E3, bind_Some_eq. apply (IH s' x' k'); [done|]. cbn in HF. lia.
Qed.
End insert.
