(* ===== verification/RbtreeIter.v ===== *)
(** * Red-black trees: iteration

    [rb_first], [rb_last], [rb_next] and [rb_prev] follow the order of the
    nodes in the tree. *)

From stdpp Require Import gmap.
From S2P Require Import Prelude Rbtree RbtreeRepr RbtreeInsert.
Open Scope c_scope.

(** The first and the last node of a list, or [NULL]. *)
Definition first_of (L : list Z) : Z := match L with [] => 0 | a :: _ => a end.
Definition last_of (L : list Z) : Z := List.last L 0.

Lemma first_of_app a L M : first_of ((L ++ [a]) ++ M) = first_of (L ++ [a]).
Proof. by destruct L. Qed.
Lemma last_of_cons L a M : last_of (L ++ a :: M) = last_of (a :: M).
Proof. unfold last_of. induction L as [|b L IH]; [done|]. cbn [app]. rewrite <- IH. by destruct L. Qed.

(** A path that only goes to the left, or only to the right. *)
Definition lefts (k : list frame) : Prop := Forall (fun f => match f with LeftOf _ _ _ => True | _ => False end) k.
Definition rights (k : list frame) : Prop := Forall (fun f => match f with RightOf _ _ _ => True | _ => False end) k.

Lemma before_lefts k k' : lefts k -> before (k ++ k') = before k'.
Proof. induction 1 as [|[c a r|c l a] k Hf _ IH]; cbn; done. Qed.
Lemma after_rights k k' : rights k -> after (k ++ k') = after k'.
Proof. induction 1 as [|[c a r|c l a] k Hf _ IH]; cbn; done. Qed.

Lemma plug_snoc t k f : plug t (k ++ [f]) = fill f (plug t k).
Proof. revert t. induction k as [|g k IH]; intros t; cbn; auto. Qed.

Section iteration.
Context (h0 : gmap Z rb_node) (extra : list Z).
Local Abbreviation repr := (repr h0 extra).

Lemma go_left_ok s c l a r k : repr s (Node c l a r) k ->
  exists d y yr ky, go_left s a = Some y /\ Node c l a r = plug (Node d Leaf y yr) ky /\ lefts ky.
Proof using.
  intros H. unfold go_left. pose proof (repr_size _ _ _ _ _ H) as HF. cbn in HF. rewrite length_app in HF.
  assert (length (addrs l) < rb_fuel s)%nat as HF' by lia. clear HF. revert HF'. generalize (rb_fuel s). intros F. revert l c a r k H.
  induction F as [|F IH]; intros l c a r k H HF; [lia|]. cbn [c_loop]. observe get_left_ok H. destruct l as [|d l' b r'].
  - exists c, a, r, []. split; [done|]. split; [done|constructor].
  - apply repr_left in H. rewrite (proj2 (ptr_zero _ _ _ _ _ H)) by done. cbn [ptr]. cbn in HF. rewrite length_app in HF.
    destruct (IH _ _ _ _ _ H ltac:(lia)) as (e & y & yr & ky & E & P & L). exists e, y, yr, (ky ++ [LeftOf c a r]).
    rewrite plug_snoc, <- P. split; [done|]. split; [done|]. apply Forall_app. by repeat constructor.
Qed.

Lemma go_right_ok s c l a r k : repr s (Node c l a r) k ->
  exists d y yl ky, go_right s a = Some y /\ Node c l a r = plug (Node d yl y Leaf) ky /\ rights ky.
Proof using.
  intros H. unfold go_right. pose proof (repr_size _ _ _ _ _ H) as HF. cbn in HF. rewrite length_app in HF.
  assert (length (addrs r) < rb_fuel s)%nat as HF' by lia. clear HF. revert HF'. generalize (rb_fuel s). intros F. revert r c a l k H.
  induction F as [|F IH]; intros r c a l k H HF; [lia|]. cbn [c_loop]. observe get_right_ok H. destruct r as [|d l' b r'].
  - exists c, a, l, []. split; [done|]. split; [done|constructor].
  - apply repr_right in H. rewrite (proj2 (ptr_zero _ _ _ _ _ H)) by done. cbn [ptr]. cbn in HF. rewrite length_app in HF.
    destruct (IH _ _ _ _ _ H ltac:(lia)) as (e & y & yl & ky & E & P & L). exists e, y, yl, (ky ++ [RightOf c l a]).
    rewrite plug_snoc, <- P. split; [done|]. split; [done|]. apply Forall_app. by repeat constructor.
Qed.

Lemma go_left_first s c l a r k : repr s (Node c l a r) k -> go_left s a = Some (first_of (inorder (Node c l a r))).
Proof using.
  intros H. destruct (go_left_ok _ _ _ _ _ _ H) as (d & y & yr & ky & -> & -> & L). rewrite inorder_plug. pose proof (before_lefts _ [] L) as B.
  rewrite app_nil_r in B. by rewrite B.
Qed.
Lemma go_right_last s c l a r k : repr s (Node c l a r) k -> go_right s a = Some (last_of (inorder (Node c l a r))).
Proof using.
  intros H. destruct (go_right_ok _ _ _ _ _ _ H) as (d & y & yl & ky & -> & -> & L). rewrite inorder_plug. pose proof (after_rights _ [] L) as B.
  rewrite app_nil_r in B. rewrite B, app_nil_r. cbn [inorder]. by rewrite app_assoc, last_of_cons.
Qed.

(** The ends of the tree. *)
Lemma rb_first_ok s t : repr s t [] -> rb_first s = Some (first_of (inorder t)).
Proof using.
  intros H. unfold rb_first. rewrite (re_root _ _ _ _ _ H). cbn [root_of]. destruct t as [|c l a r]; [done|].
  rewrite (proj2 (ptr_zero _ _ _ _ _ H)) by done. by apply (go_left_first _ c l a r []).
Qed.
Lemma rb_last_ok s t : repr s t [] -> rb_last s = Some (last_of (inorder t)).
Proof using.
  intros H. unfold rb_last. rewrite (re_root _ _ _ _ _ H). cbn [root_of]. destruct t as [|c l a r]; [done|].
  rewrite (proj2 (ptr_zero _ _ _ _ _ H)) by done. by apply (go_right_last _ c l a r []).
Qed.

Lemma rb_climb_next s t k F : repr s t k -> t <> Leaf -> (length k < F)%nat ->
  c_loop F (fun node =>
    parent ← rb_parent s node;
    if truthy parent then r ← get_right s parent; Some (if node =? r then inl parent else inr parent) else Some (inr parent)) (ptr t)
  = Some (first_of (after k)).
Proof using.
  revert F t. induction k as [|f k IH]; intros [|F] t H Ht HF; try (cbn in HF; lia); destruct t as [|c l a r]; try done; cbn [c_loop ptr];
    observe rb_parent_ok H; [done|]. pose proof H as H1. up H1. destruct f as [d p q|d q p]; cbn [fill] in H1; cbn [parent_of frame_addr].
  - rewrite (truthy_addr _ (tree_addr _ _ _ _ _ _ _ _ H1)). observe get_right_ok H1. rewrite Z.eqb_sym.
    by rewrite (left_not_right _ _ _ _ _ _ _ a _ H1) by (left).
  - rewrite (truthy_addr _ (tree_addr _ _ _ _ _ _ _ _ H1)). observe get_right_ok H1. cbn [ptr]. rewrite Z.eqb_refl.
    apply (IH F _ H1); [done|cbn in HF; lia].
Qed.

Lemma rb_climb_prev s t k F : repr s t k -> t <> Leaf -> (length k < F)%nat ->
  c_loop F (fun node =>
    parent ← rb_parent s node;
    if truthy parent then l ← get_left s parent; Some (if node =? l then inl parent else inr parent) else Some (inr parent)) (ptr t)
  = Some (last_of (before k)).
Proof using.
  revert F t. induction k as [|f k IH]; intros [|F] t H Ht HF; try (cbn in HF; lia); destruct t as [|c l a r]; try done; cbn [c_loop ptr];
    observe rb_parent_ok H; [done|]. pose proof H as H1. up H1. destruct f as [d p q|d q p]; cbn [fill] in H1; cbn [parent_of frame_addr].
  - rewrite (truthy_addr _ (tree_addr _ _ _ _ _ _ _ _ H1)). observe get_left_ok H1. cbn [ptr]. rewrite Z.eqb_refl.
    apply (IH F _ H1); [done|cbn in HF; lia].
  - rewrite (truthy_addr _ (tree_addr _ _ _ _ _ _ _ _ H1)). observe get_left_ok H1. rewrite Z.eqb_sym.
    rewrite (right_not_left _ _ _ _ _ _ _ a _ H1) by (left). cbn [before]. by rewrite app_assoc, last_of_cons.
Qed.

Lemma parent_not_self s c l a r k : repr s (Node c l a r) k -> (parent_of k =? a) = false.
Proof using.
  intros [_ _ N G _]. apply Z.eqb_neq. cbn in N, G. apply list.NoDup_cons in N as [N _]. destruct k as [|f k]; cbn.
  - pose proof (Forall_inv G) as [Ha _]. lia.
  - intros E. apply N, elem_of_app. right. rewrite <- E. destruct f; left.
Qed.

(** The next and the previous node in the order of the tree. *)
Lemma rb_next_ok s c l a r k : repr s (Node c l a r) k -> rb_next s a = Some (first_of (inorder r ++ after k)).
Proof using.
  intros H. unfold rb_next. observe rb_parent_ok H. rewrite (parent_not_self _ _ _ _ _ _ H). observe get_right_ok H. destruct r as [|d l' b r'].
  - cbn [ptr]. change (truthy 0) with false. cbn iota. pose proof (repr_size _ _ _ _ _ H). by apply (rb_climb_next s (Node c l a Leaf) k); [| |lia].
  - apply repr_right in H. rewrite (proj2 (ptr_zero _ _ _ _ _ H)) by done. cbn [ptr]. rewrite (go_left_first _ _ _ _ _ _ H).
    cbn [inorder]. by destruct (inorder l').
Qed.
Lemma rb_prev_ok s c l a r k : repr s (Node c l a r) k -> rb_prev s a = Some (last_of (before k ++ inorder l)).
Proof using.
  intros H. unfold rb_prev. observe rb_parent_ok H. rewrite (parent_not_self _ _ _ _ _ _ H). observe get_left_ok H. destruct l as [|d l' b r'].
  - cbn [ptr]. change (truthy 0) with false. cbn iota. pose proof (repr_size _ _ _ _ _ H). rewrite app_nil_r.
    by apply (rb_climb_prev s (Node c Leaf a r) k); [| |lia].
  - apply repr_left in H. rewrite (proj2 (ptr_zero _ _ _ _ _ H)) by done. cbn [ptr]. rewrite (go_right_last _ _ _ _ _ _ H).
    cbn [inorder]. by rewrite app_assoc, !last_of_cons.
Qed.
End iteration.

(** ** Augmented trees *)

(** The nodes a callback is called for on the way up: each node of the path and
    its sibling (the left child, when there is none). *)
Fixpoint path_calls (a : Z) (k : list frame) : list Z :=
  match k with
  | [] => [a]
  | LeftOf _ p r :: k => a :: (if truthy (ptr r) then ptr r else a) :: path_calls p k
  | RightOf _ l p :: k => a :: (if truthy (ptr l) then [ptr l] else []) ++ path_calls p k
  end.

Fixpoint call_all {A} (f : Z -> A -> option A) (L : list Z) (data : A) : option A :=
  match L with [] => Some data | a :: L => data ← f a data; call_all f L data end.

Section augmented.
Context {A : Type} (func : rb_state -> Z -> A -> option A) (h0 : gmap Z rb_node) (extra : list Z).
Local Abbreviation repr := (repr h0 extra).

(** From a node to the root, every ancestor is called after the nodes below it
    on the path and their siblings. *)
Lemma rb_augment_path_ok s c l a r k data : repr s (Node c l a r) k ->
  rb_augment_path func s a data = call_all (func s) (path_calls a k) data.
Proof using.
  intros H. unfold rb_augment_path. assert (length k < rb_fuel s)%nat as HF by (apply repr_size in H; lia). revert HF data. generalize (rb_fuel s).
  intros F. revert F c l a r H. induction k as [|f k IH]; intros [|F] c l a r H HF data; try (cbn in HF; lia); cbn [c_loop path_calls].
  - destruct (func s a data) as [d|] eqn:E; cbn [call_all]; rewrite E; [|done]. rewrite !bind_Some_eq. by observe rb_parent_ok H.
  - pose proof H as H1. apply repr_up in H1. cbn in HF. destruct f as [d p q|d q p]; cbn [fill call_all app] in *;
      (destruct (func s a data) as [d1|]; [|done]); rewrite !bind_Some_eq; observe rb_parent_ok H; cbn [parent_of frame_addr];
      rewrite (truthy_addr _ (tree_addr _ _ _ _ _ _ _ _ H1)); observe get_left_ok H1; observe get_right_ok H1; cbn [ptr].
    + rewrite Z.eqb_refl, (truthy_addr _ (tree_addr _ _ _ _ _ _ _ _ H)). cbn [andb]. destruct (truthy (ptr q)).
      * destruct (func s (ptr q) d1) as [d2|]; [|done]. rewrite !bind_Some_eq. apply (IH F _ _ _ _ H1). lia.
      * destruct (func s a d1) as [d2|]; [|done]. rewrite !bind_Some_eq. apply (IH F _ _ _ _ H1). lia.
    + rewrite Z.eqb_sym, (right_not_left _ _ _ _ _ _ _ a _ H1) by (left). cbn [andb]. destruct (truthy (ptr q)); cbn [app call_all].
      * destruct (func s (ptr q) d1) as [d2|]; [|done]. rewrite !bind_Some_eq. apply (IH F _ _ _ _ H1). lia.
      * rewrite !bind_Some_eq. apply (IH F _ _ _ _ H1). lia.
Qed.
End augmented.
