(* ===== verification/RbtreeErase.v ===== *)
(** * Red-black trees: removal

    The loop of [__rb_erase_color] carries a subtree that is one black node too
    short up its path, and [rb_erase] takes a node out and starts the loop where
    a black node went missing. *)

From stdpp Require Import gmap.
From S2P Require Import Prelude Rbtree RbtreeRepr RbtreeInsert.
Open Scope c_scope.

(** ** Colours *)

Definition blacken (t : tree) : tree := match t with Leaf => Leaf | Node _ l a r => Node Black l a r end.
Definition frame_color (f : frame) : color := match f with LeftOf c _ _ | RightOf c _ _ => c end.

(** A tree that reaches black height [n] only once its root is painted black. *)
Definition short (n : nat) (t : tree) : Prop := match is_red t with true => rb (S n) (blacken t) | false => rb n t end.

Lemma inorder_blacken t : inorder (blacken t) = inorder t.
Proof. by destruct t. Qed.

(** Two black trees of the right height below a node of the old colour. *)
Lemma refill m f k t1 a t2 : path_ok m (f :: k) -> rb m t1 -> rb m t2 -> is_red t1 = false -> is_red t2 = false ->
  rb_tree (plug (Node (frame_color f) t1 a t2) k).
Proof.
  intros H H1 H2 R1 R2. inversion H as [|? ? ? Hf _ Hk|? ? g ? Hf _ _ Hg Hk]; subst.
  - apply (plug_ok (S m)); [|done|]; destruct f as [[] ? ?|[] ? ?]; try done; by apply rb_black.
  - apply (plug_ok m); [|done|by intros _]. destruct f as [[] ? ?|[] ? ?]; try done; by apply rb_red.
Qed.

(** Below a node of the old colour, two trees of height [n] are short. *)
Lemma refill_short n f k t1 a t2 : path_ok (S n) (f :: k) -> rb n t1 -> rb n t2 ->
  exists m, short m (Node (frame_color f) t1 a t2) /\ path_ok (S m) k.
Proof.
  intros H H1 H2. inversion H as [|? ? ? Hf _ Hk|? ? g ? Hf _ _ Hg Hk]; subst.
  - exists (S n). split; [|done]. destruct f as [[] ? ?|[] ? ?]; try done; by apply rb_black.
  - exists n. split; [|done]. destruct f as [[] ? ?|[] ? ?]; try done; by apply rb_black.
Qed.

Section erase.
Context (h0 : gmap Z rb_node) (extra : list Z).
Local Abbreviation repr := (repr h0 extra).

(** A subtree that lacks one black node; at most [m] more iterations end the
    loop, for it ends at a red node. *)
Definition lacking (s : rb_state) (x p : Z) (io : list Z) (m : nat) : Prop :=
  exists n t k, repr s t k /\ x = ptr t /\ p = parent_of k /\ short n t /\ path_ok (S n) k /\ inorder (plug t k) = io /\
    ((if is_red t then 0 else length k) <= m)%nat.

(** A tree that is good once the node is painted black. *)
Definition painted (s : rb_state) (x : Z) (io : list Z) : Prop :=
  exists t k, repr s t k /\ x = ptr t /\ rb_tree (plug (blacken t) k) /\ inorder (plug t k) = io.

Definition fixed (io : list Z) (m : nat) (res : rb_state * Z * Z + rb_state * Z) : Prop :=
  match res with
  | inl (s, x, p) => exists m', lacking s x p io m' /\ (m' < m)%nat
  | inr (s, x) => painted s x io
  end.

Lemma painted_root s t k io : repr s t k -> rb_tree (plug t k) -> inorder (plug t k) = io -> painted s (rb_root s) io.
Proof using.
  intros H Ht Ho. apply (proj1 (repr_plug _ _ _ _ _)) in H. exists (plug t k), []. split; [done|]. split; [apply (re_root _ _ _ _ _ H)|]. split; [|done].
  cbn [plug]. destruct Ht as [Hr Hn]. by destruct (plug t k) as [|[] ? ? ?].
Qed.

(** ** One iteration *)

Lemma erase_turn_left_ok s n t c p A w B v C r k io m : repr s (Node c t p (Node Black A w (Node Red B v C))) k ->
  rb n t -> rb n A -> rb n (Node Red B v C) -> path_ok (S n) (LeftOf c p r :: k) ->
  inorder (plug (Node c t p (Node Black A w (Node Red B v C))) k) = io ->
  wp (erase_turn_left s p w) (fixed io m).
Proof using.
  intros H Ht HA HC Hk <-. inversion HC; subst. unfold erase_turn_left.
  observe rb_color_ok H. down_right H. act (rb_set_color_ok h0 extra c) H. up H. act rb_set_black_ok H. down_right H. observe get_right_ok H. cbn [ptr].
  down_right H. act rb_set_black_ok H. up H. up H. act rotate_left_ok H. apply (painted_root _ _ _ _ H); [|same_order].
  apply (refill (S n) (LeftOf c p r)); auto with rb.
Qed.

Lemma erase_black_left_ok s n t c p wl w wr k m : let k0 := LeftOf c p (Node Black wl w wr) :: k in
  repr s t k0 -> rb n t -> path_ok (S n) k0 -> 
  (match c with Red => 0 | Black => length k end < m)%nat -> wp (erase_black_left s p w) (fixed (inorder (plug t k0)) m).
Proof using.
  intros k0 H Ht Hk Hm. assert (rb (S n) (Node Black wl w wr)) as Hw by (by inversion Hk).
  inversion Hw as [| |? ? ? ? Hl Hr]; subst. unfold erase_black_left.
  up H. down_right H. observe get_left_ok H. down_left H. observe_tree is_black_node_ok H. up H. observe get_right_ok H.
  down_right H. pose proof (is_black_node_ok _ _ _ _ _ H) as Er. up H.
  destruct (is_red wr) eqn:Err; cbn [negb] in *.
  - replace (if negb (is_red wl) then _ else _) with (Some false) by (by destruct (is_red wl); rewrite ?Er).
    rewrite bind_Some_eq, Er, bind_Some_eq, bind_Some_eq. destruct wr as [|[] B v C]; try done. up H.
    eapply (erase_turn_left_ok _ n t c p wl w B v C _ k); try exact Hk; done.
  - rewrite Er. destruct (is_red wl) eqn:El; cbn [negb]; rewrite bind_Some_eq.
    + destruct wl as [|[] A v B]; try done. inversion Hl; subst. rewrite bind_Some_eq. cbn [ptr]. down_left H. act rb_set_black_ok H. up H.
      act rb_set_red_ok H. act rotate_right_ok H. up H. observe get_right_ok H. rewrite bind_Some_eq.
      eapply (erase_turn_left_ok _ n t c p A v B w wr _ k); try exact Hk; auto with rb. subst k0. same_order.
    + act rb_set_red_ok H. up H. observe rb_parent_ok H.
      destruct (refill_short n _ _ t p (Node Red wl w wr) Hk) as (h & Hh & Hk'); [done|by auto with rb|]. cbn [frame_color] in Hh.
      eexists. split; [|exact Hm]. exists h, (Node c t p (Node Red wl w wr)), k. split; [done|]. repeat (split; [done|]). subst k0. split; [same_order|by destruct c].
Qed.

Lemma erase_turn_right_ok s n t c p A w B v C l k io m : repr s (Node c (Node Black (Node Red A v B) w C) p t) k ->
  rb n t -> rb n C -> rb n (Node Red A v B) -> path_ok (S n) (RightOf c l p :: k) ->
  inorder (plug (Node c (Node Black (Node Red A v B) w C) p t) k) = io ->
  wp (erase_turn_right s p w) (fixed io m).
Proof using.
  intros H Ht HA HC Hk <-. inversion HC; subst. unfold erase_turn_right.
  observe rb_color_ok H. down_left H. act (rb_set_color_ok h0 extra c) H. up H. act rb_set_black_ok H. down_left H. observe get_left_ok H. cbn [ptr].
  down_left H. act rb_set_black_ok H. up H. up H. act rotate_right_ok H. apply (painted_root _ _ _ _ H); [|same_order].
  apply (refill (S n) (RightOf c l p)); auto with rb.
Qed.

Lemma erase_black_right_ok s n t c p wl w wr k m : let k0 := RightOf c (Node Black wl w wr) p :: k in
  repr s t k0 -> rb n t -> path_ok (S n) k0 -> 
  (match c with Red => 0 | Black => length k end < m)%nat -> wp (erase_black_right s p w) (fixed (inorder (plug t k0)) m).
Proof using.
  intros k0 H Ht Hk Hm. assert (rb (S n) (Node Black wl w wr)) as Hw by (by inversion Hk).
  inversion Hw as [| |? ? ? ? Hl Hr]; subst. unfold erase_black_right.
  up H. down_left H. observe get_left_ok H. down_left H. pose proof (is_black_node_ok _ _ _ _ _ H) as El. up H. rewrite El, bind_Some_eq.
  observe get_right_ok H. down_right H. pose proof (is_black_node_ok _ _ _ _ _ H) as Er. up H.
  destruct (is_red wl) eqn:Ell; cbn [negb] in *.
  - rewrite !bind_Some_eq. destruct wl as [|[] B v C]; try done. up H.
    eapply (erase_turn_right_ok _ n t c p B w C v wr _ k); try exact Hk; done.
  - rewrite Er. destruct (is_red wr) eqn:Err; cbn [negb]; rewrite bind_Some_eq.
    + destruct wr as [|[] A v B]; try done. inversion Hr; subst. rewrite bind_Some_eq. cbn [ptr]. down_right H. act rb_set_black_ok H. up H.
      act rb_set_red_ok H. act rotate_left_ok H. up H. observe get_left_ok H. rewrite bind_Some_eq.
      eapply (erase_turn_right_ok _ n t c p wl v A w B _ k); try exact Hk; auto with rb. subst k0. same_order.
    + act rb_set_red_ok H. up H. observe rb_parent_ok H.
      destruct (refill_short n _ _ (Node Red wl w wr) p t Hk) as (h & Hh & Hk'); [by auto with rb|done|]. cbn [frame_color] in Hh.
      eexists. split; [|exact Hm]. exists h, (Node c (Node Red wl w wr) p t), k. split; [done|]. repeat (split; [done|]). subst k0. split; [same_order|by destruct c].
Qed.

(** A red sibling is first rotated above the parent, which becomes red. *)
Lemma erase_fix_left_ok s n t c p w k : let k0 := LeftOf c p w :: k in
  repr s t k0 -> rb n t -> path_ok (S n) k0 -> wp (erase_fix_left s (ptr t) p) (fixed (inorder (plug t k0)) (length k0)).
Proof using.
  intros k0 H Ht Hk. assert (rb (S n) w) as Hw by (by inversion Hk). unfold erase_fix_left. pose proof H as HH. up H. observe get_right_ok H.
  destruct w as [|wc wl w wr]; [by inversion Hw|]. down_right H. cbn [ptr]. observe rb_is_red_ok H. destruct wc.
  - inversion Hw as [|? ? ? ? Hwl Hwr Rl Rr|]; subst. inversion Hk as [|? ? ? Hf _ Hk'|]; [|done]; subst. destruct c; [done|].
    act rb_set_black_ok H. up H. act rb_set_red_ok H. act rotate_left_ok H. down_left H. observe get_right_ok H. down_left H.
    destruct wl as [|[] wll wl wlr]; [by inversion Hwl|done|]. cbn [ptr]. subst k0.
    replace (inorder _) with (inorder (plug t (LeftOf Red p (Node Black wll wl wlr) :: LeftOf Black w wr :: k))) by same_order.
    apply (erase_black_left_ok _ n); [done|done| |cbn; lia]. apply path_red; try done. by apply path_black.
  - apply (erase_black_left_ok _ n); try done. destruct c; cbn; lia.
Qed.

Lemma erase_fix_right_ok s n t c p w k : let k0 := RightOf c w p :: k in
  repr s t k0 -> rb n t -> path_ok (S n) k0 -> wp (erase_fix_right s (ptr t) p) (fixed (inorder (plug t k0)) (length k0)).
Proof using.
  intros k0 H Ht Hk. assert (rb (S n) w) as Hw by (by inversion Hk). unfold erase_fix_right. pose proof H as HH. up H. observe get_left_ok H.
  destruct w as [|wc wl w wr]; [by inversion Hw|]. down_left H. cbn [ptr]. observe rb_is_red_ok H. destruct wc.
  - inversion Hw as [|? ? ? ? Hwl Hwr Rl Rr|]; subst. inversion Hk as [|? ? ? Hf _ Hk'|]; [|done]; subst. destruct c; [done|].
    act rb_set_black_ok H. up H. act rb_set_red_ok H. act rotate_right_ok H. down_right H. observe get_left_ok H. down_right H.
    destruct wr as [|[] wrl wr wrr]; [by inversion Hwr|done|]. cbn [ptr]. subst k0.
    replace (inorder _) with (inorder (plug t (RightOf Red (Node Black wrl wr wrr) p :: RightOf Black wl w :: k))) by same_order.
    apply (erase_black_right_ok _ n); [done|done| |cbn; lia]. apply path_red; try done. by apply path_black.
  - apply (erase_black_right_ok _ n); try done. destruct c; cbn; lia.
Qed.

(** ** The loop *)

Lemma root_of_in p f k : root_of p (f :: k) ∈ path_addrs (f :: k).
Proof using. revert p f. induction k as [|g k IH]; intros p f; [destruct f; left|]. destruct f; right; apply elem_of_app; right; apply (IH 0). Qed.

Lemma not_root s t f k : repr s t (f :: k) -> (ptr t =? rb_root s) = false.
Proof using.
  intros [_ E N G _]. rewrite E, Z.eqb_sym. pose proof (root_of_in (ptr t) f k) as Hin. apply list.NoDup_app in N as (_ & N & _).
  apply ptr_differs; [intros Ht; by apply (N _ Ht)|]. rewrite list.Forall_forall in G. apply G. set_solver.
Qed.

Lemma left_other s c w a t k : repr s (Node c w a t) k -> w <> Leaf -> (ptr w =? ptr t) = false.
Proof using.
  intros H Hw. destruct t as [|d l x r]; [|apply (right_not_left _ _ _ _ _ _ _ _ _ H); left].
  apply repr_left, ptr_zero in H. apply Z.eqb_neq. by apply truthy_true, H.
Qed.

Lemma erase_step_ok s n t f k : let k0 := f :: k in repr s t k0 -> rb n t -> path_ok (S n) k0 ->
  wp (pl ← get_left s (frame_addr f); if pl =? ptr t then erase_fix_left s (ptr t) (frame_addr f) else erase_fix_right s (ptr t) (frame_addr f))
     (fixed (inorder (plug t k0)) (length k0)).
Proof using.
  intros k0 H Ht Hk. pose proof H as H1. apply repr_up in H1. destruct f as [c p w|c w p]; cbn [fill frame_addr] in *; observe get_left_ok H1.
  - rewrite Z.eqb_refl. by apply (erase_fix_left_ok _ n).
  - rewrite (left_other _ _ _ _ _ _ H1); [by apply (erase_fix_right_ok _ n)|]. intros ->.
    assert (rb (S n) Leaf) as Hl by (by inversion Hk). inversion Hl.
Qed.

Lemma paint_ok s x io : painted s x io ->
  exists s' t, (if truthy x then rb_set_black s x else Some s) = Some s' /\ repr s' t [] /\ rb_tree t /\ inorder t = io.
Proof using.
  intros (t & k & H & -> & Ht & Ho). destruct t as [|c l a r].
  - exists s, (plug Leaf k). split; [done|]. split; [by apply (proj1 (repr_plug _ _ _ _ _)) in H|done].
  - rewrite (proj2 (ptr_zero _ _ _ _ _ H)) by done. cbn [ptr]. act rb_set_black_ok H. exists s0, (plug (Node Black l a r) k).
    split; [done|]. split; [by apply (proj1 (repr_plug _ _ _ _ _)) in H|]. split; [done|]. rewrite <- Ho. same_order.
Qed.

Lemma rb_erase_color_ok s x p io m : lacking s x p io m -> (m < rb_fuel s)%nat ->
  exists s' t, __rb_erase_color s x p = Some s' /\ repr s' t [] /\ rb_tree t /\ inorder t = io.
Proof using.
  intros H0 HF. unfold __rb_erase_color. match goal with |- context [c_loop _ ?b _] => set (body := b) end.
  enough (exists s' x', c_loop (rb_fuel s) body (s, x, p) = Some (s', x') /\ painted s' x' io) as (s' & x' & E & HP).
  { rewrite E, bind_Some_eq. by apply paint_ok. }
  revert x p m H0 HF. generalize (rb_fuel s). intros F. revert s. induction F as [|F IH]; intros s x p m H0 HF; [lia|].
  destruct H0 as (n & t & k & H & -> & -> & Ht & Hk & Ho & Hm). cbn [c_loop]. subst body. cbn beta iota. observe_tree is_black_node_ok H.
  destruct (is_red t) eqn:Et; [|destruct k as [|f k]]; cbn [negb andb].
  - do 2 eexists. split; [reflexivity|]. exists t, k. split; [done|]. split; [done|]. split; [|done].
    unfold short in Ht. rewrite Et in Ht. apply (plug_ok _ _ _ Ht Hk). by destruct t.
  - rewrite (re_root _ _ _ _ _ H). cbn [root_of]. rewrite Z.eqb_refl. do 2 eexists. split; [reflexivity|]. exists t, []. split; [done|].
    split; [done|]. split; [|done]. unfold short in Ht. rewrite Et in Ht. destruct t as [|[] ? ? ?]; [|done|]; split; eauto.
  - rewrite (not_root _ _ _ _ H). cbn [negb parent_of]. unfold short in Ht. rewrite Et in Ht.
    destruct (wp_elim _ _ (erase_step_ok _ _ _ _ _ H Ht Hk)) as (res & E & HR). rewrite E. destruct res as [[[s' x'] p']|[s' x']].
    + destruct HR as (m' & HL & Hlt). rewrite Ho in HL. apply (IH s' x' p' m' HL). lia.
    + do 2 eexists. split; [reflexivity|]. by rewrite <- Ho.
Qed.
End erase.
