(* ===== verification/RbtreeRemove.v ===== *)
(** * Red-black trees: taking a node out, and putting one in its place

    The writes of [rb_erase] and [rb_replace_node] outside the rebalancing. *)

From stdpp Require Import gmap.
From S2P Require Import Prelude Rbtree RbtreeRepr RbtreeInsert RbtreeIter RbtreeErase.
Open Scope c_scope.

Section remove.
Context (h0 : gmap Z rb_node) (extra : list Z).
Local Abbreviation repr := (repr h0 extra).
Local Abbreviation repr_but a := (RbtreeRepr.repr h0 (a :: extra)).

Ltac code := unfold replace_child, rb_set_parent, set_left, set_right, set_parent_color, get_left, get_right, rb_parent, rb_get, rb_put.

(** A node with one child at most: the child takes its place. *)
Definition splice (s : rb_state) (a child parent : Z) : option rb_state :=
  s ← (if truthy child then rb_set_parent s child parent else Some s);
  replace_child s parent a child.

Lemma repr_drop s t k s' t' k' a : repr s t k -> addrs t ++ path_addrs k ≡ₚ a :: addrs t' ++ path_addrs k' ->
  agree (rb_nodes s') (facts (parent_of k') t' ++ path_facts (ptr t') k') -> rb_root s' = root_of (ptr t') k' ->
  (forall q, q ∉ addrs t ++ path_addrs k -> rb_nodes s' !! q = rb_nodes s !! q) -> repr_but a s' t' k'.
Proof using.
  intros [H1 H2 H3 H4 H5] EA HF HR HQ. rewrite EA in H3, H4. apply list.NoDup_cons in H3 as [H3 H3']. apply list.Forall_cons in H4 as [H4 H4'].
  split; try done. intros q Hq Hx. apply not_elem_of_cons in Hx as [Hqa Hx]. assert (q ∉ addrs t ++ path_addrs k) as Hq' by (rewrite EA; set_solver).
  rewrite HQ by done. auto.
Qed.

(** A node that is out of the tree and was not written. *)
Lemma repr_keep s t k a : repr_but a s t k -> rb_get s a = h0 !! a -> repr s t k.
Proof using.
  intros [H1 H2 H3 H4 H5] Ha. split; try done. intros q Hq Hx. destruct (decide (q = a)) as [->|]; [done|]. apply H5; [done|]. by apply not_elem_of_cons.
Qed.

Lemma splice_ok s c l a r k t : repr s (Node c l a r) k -> l = Leaf /\ t = r \/ r = Leaf /\ t = l ->
  exists s', splice s a (ptr t) (parent_of k) = Some s' /\ repr_but a s' t k /\ rb_get s' a = rb_get s a.
Proof using.
  intros H Ht. unfold splice. code.
  assert (addrs (Node c l a r) ++ path_addrs k ≡ₚ a :: addrs t ++ path_addrs k) as EA by (destruct Ht as [[-> ->]|[-> ->]]; cbn; rewrite ?app_nil_r; done).
  destruct Ht as [[-> ->]|[-> ->]]; [destruct r as [|d tl x tr]|destruct l as [|d tl x tr]]; destruct k as [|[c' p q|c' q p] k]; facts_of H; shape; run;
    (eexists; split; [reflexivity|]); (split; [eapply (repr_drop _ _ _ _ _ _ _ H EA); [shape; chunks|done|others]|run; reflexivity]).
Qed.

(** One node in the place of another. *)
Lemma repr_swap s t k s' t' k' a y M : repr_but y s t k -> addrs t ++ path_addrs k ≡ₚ a :: M -> addrs t' ++ path_addrs k' ≡ₚ y :: M ->
  y ∉ addrs t ++ path_addrs k -> node_addr y ->
  agree (rb_nodes s') (facts (parent_of k') t' ++ path_facts (ptr t') k') -> rb_root s' = root_of (ptr t') k' ->
  (forall q, q <> y -> q ∉ addrs t ++ path_addrs k -> rb_nodes s' !! q = rb_nodes s !! q) -> repr_but a s' t' k'.
Proof using.
  intros [H1 H2 H3 H4 H5] EA EA' Hy Ha HF HR HQ. rewrite EA in H3, H4. apply list.NoDup_cons in H3 as [H3 H3']. apply list.Forall_cons in H4 as [H4 H4'].
  rewrite EA in Hy. apply not_elem_of_cons in Hy as [_ Hy]. split; try done; rewrite ?EA'; [by apply list.NoDup_cons|by apply list.Forall_cons|].
  intros q. rewrite EA', !not_elem_of_cons. intros [Hqy Hq] [Hqa Hx].
  assert (q ∉ addrs t ++ path_addrs k) as Hq' by (rewrite EA; by apply not_elem_of_cons). rewrite HQ by done. apply H5; [done|]. by apply not_elem_of_cons.
Qed.

Lemma rb_replace_node_ok s c l a r k y : repr_but y s (Node c l a r) k -> y ∉ addrs (Node c l a r) ++ path_addrs k -> node_addr y -> is_Some (rb_get s y) ->
  exists s', rb_replace_node s a y = Some s' /\ repr_but a s' (Node c l y r) k /\ rb_get s' a = rb_get s a.
Proof using.
  intros H Hy Ha [ny Hny]. pose proof Hy as Hy0. cbn in Hy. unfold rb_replace_node. code. unfold rb_get in Hny.
  destruct l as [|lc ll lx lr]; destruct r as [|rc rl rx rr]; destruct k as [|[c' p q|c' q p] k]; facts_of H; cbn in Hy; not_in Hy; split_all; shape; run;
    (eexists; split; [reflexivity|]); (split; [|run; reflexivity]);
    (eapply (repr_swap _ _ _ _ _ _ _ _ _ H); [cbn; reflexivity|cbn; reflexivity|exact Hy0|exact Ha|shape; chunks|done|]); intros ? ?; outside.
Qed.

(** What [rb_erase] does with the successor, in the order of the code. *)
Definition unhook (s : rb_state) (child parent : Z) : option rb_state :=
  s ← (if truthy child then rb_set_parent s child parent else Some s);
  set_left s parent child.
Definition take_right (s : rb_state) (old node : Z) : option rb_state :=
  or ← get_right s old; s ← set_right s node or; rb_set_parent s or node.
Definition take_over (s : rb_state) (old node : Z) : option rb_state :=
  n ← rb_get s old;
  s ← set_parent_color s node (rb_parent_color n);
  s ← set_left s node (rb_left n);
  rb_set_parent s (rb_left n) node.

Lemma adjacent_perm (L B K : list Z) a y : (a :: L ++ y :: B) ++ K ≡ₚ a :: (y :: L ++ B) ++ K.
Proof using. cbn. by rewrite <- Permutation_middle. Qed.

(** The successor is the right child. *)
Lemma adjacent_ok s c lc ll lx lr a d y yr k : repr s (Node c (Node lc ll lx lr) a (Node d Leaf y yr)) k ->
  exists s1 s', replace_child s (parent_of k) a y = Some s1 /\ rb_get s1 y = rb_get s y /\ take_over s1 a y = Some s' /\
    repr_but a s' (Node c (Node lc ll lx lr) y yr) k /\ rb_get s' a = rb_get s a.
Proof using.
  intros H. unfold take_over. code. destruct k as [|[c' p q|c' q p] k]; facts_of H; shape; run;
    (do 2 eexists; split; [reflexivity|]); cbn [rb_nodes set_root]; run; (split; [run; reflexivity|]); (split; [reflexivity|]); (split; [|run; reflexivity]);
    (eapply (repr_drop _ _ _ _ _ _ _ H); [apply adjacent_perm|shape; chunks|done|others]).
Qed.

(** The successor is deeper: it leaves its place, and takes the other. *)
Lemma unhook_ok s d y yr fc p fr k : repr s (Node d Leaf y yr) (LeftOf fc p fr :: k) ->
  exists s', unhook s (ptr yr) p = Some s' /\ repr_but y s' yr (LeftOf fc p fr :: k) /\ rb_get s' y = rb_get s y.
Proof using.
  intros H. unfold unhook. code. destruct yr as [|e ll x rr]; facts_of H; shape; run; (eexists; split; [reflexivity|]); (split; [|run; reflexivity]);
    (eapply (repr_drop _ _ _ _ _ _ _ H); [cbn; reflexivity|shape; chunks|done|others]).
Qed.

Lemma take_place_ok s c lc ll lx lr a rc rl rx rr k y : let l := Node lc ll lx lr in let r := Node rc rl rx rr in
  repr_but y s (Node c l a r) k -> y ∉ addrs (Node c l a r) ++ path_addrs k -> node_addr y -> is_Some (rb_get s y) ->
  exists s1 s2 s', replace_child s (parent_of k) a y = Some s1 /\ take_right s1 a y = Some s2 /\ take_over s2 a y = Some s' /\
    repr_but a s' (Node c l y r) k /\ rb_get s' a = rb_get s a.
Proof using.
  intros l r H Hy Ha [ny Hny]. pose proof Hy as Hy0. cbn in Hy. unfold take_right, take_over. code. unfold rb_get in Hny. subst l r.
  destruct k as [|[c' p q|c' q p] k]; facts_of H; cbn in Hy; not_in Hy; split_all; shape; run;
    (do 3 eexists; split; [reflexivity|]); cbn [rb_nodes set_root]; run; (split; [reflexivity|]); cbn [rb_nodes set_root]; run; (split; [reflexivity|]);
    (split; [|run; reflexivity]);
    (eapply (repr_swap _ _ _ _ _ _ _ _ _ H); [cbn; reflexivity|cbn; reflexivity|exact Hy0|exact Ha|shape; chunks|done|]); intros ? ?; outside.
Qed.

(** The parent of the removed node is none of the nodes that [unhook] writes. *)
Lemma replace_child_put s s' p a y : rb_get s' p = rb_get s p -> forall s2, replace_child s p a y = Some s2 ->
  exists f, s2 = f s /\ replace_child s' p a y = Some (f s') /\ (forall z q n, q <> p -> f (rb_put z q n) = rb_put (f z) q n) /\
    (forall z q, q <> p -> rb_get (f z) q = rb_get z q).
Proof using.
  intros E s2. unfold replace_child. destruct (truthy p); [|].
  - unfold get_left, set_left, set_right. rewrite E. destruct (rb_get s p) as [n|]; [|done]. rewrite !bind_Some_eq.
    destruct (rb_left n =? a); intros [= <-].
    all: eexists (fun z => rb_put z p _); split; [reflexivity|]; split; [reflexivity|]; split; unfold rb_get, rb_put; intros z q.
    all: try (intros m Hq; cbn; by rewrite insert_insert_ne). all: intros Hq; cbn; by rewrite lookup_insert_ne.
  - intros [= <-]. by exists (fun z => set_root z y).
Qed.

Lemma unhook_get s child q s' p : unhook s child q = Some s' -> (truthy child = true -> p <> child) -> p <> q -> rb_get s' p = rb_get s p.
Proof using.
  intros E1 Hc Hq. unfold unhook in E1. destruct (truthy child) eqn:Ec; [apply bind_Some in E1 as (z & E0 & E1)|rewrite bind_Some_eq in E1; rename s into z];
    unfold rb_set_parent, set_left, set_parent_color in *; repeat (apply bind_Some in E1 as (? & ? & E1)); injection E1 as <-;
    [repeat (apply bind_Some in E0 as (? & ? & E0)); injection E0 as <-|]; unfold rb_get, rb_put; cbn; by rewrite !lookup_insert_ne by naive_solver.
Qed.

Lemma unhook_later s p a y child q s' s2 : (truthy child = true -> p <> child) -> p <> q -> unhook s child q = Some s' ->
  replace_child s' p a y = Some s2 ->
  exists s1, replace_child s p a y = Some s1 /\ unhook s1 child q = Some s2 /\ (forall z, z <> p -> rb_get s1 z = rb_get s z).
Proof using.
  intros Hc Hq E1 E2. pose proof (unhook_get _ _ _ _ _ E1 Hc Hq) as Ep.
  destruct (replace_child_put s' s p a y (eq_sym Ep) _ E2) as (f & -> & E & Hf & Hg).
  exists (f s). split; [done|]. split; [|auto]. unfold unhook in *. destruct (truthy child) eqn:Ec; [apply bind_Some in E1 as (z & E0 & E1)|rewrite bind_Some_eq in *; rename s into z];
    unfold rb_set_parent, set_left, set_parent_color in *.
  - rewrite Hg by naive_solver. apply bind_Some in E0 as (nc & -> & E0). rewrite bind_Some_eq in E0 |- *. injection E0 as <-.
    rewrite !bind_Some_eq, <- Hf, Hg by naive_solver. apply bind_Some in E1 as (nq & -> & E1). injection E1 as <-. by rewrite bind_Some_eq, <- Hf by naive_solver.
  - rewrite Hg by done. apply bind_Some in E1 as (nq & -> & E1). injection E1 as <-. by rewrite bind_Some_eq, <- Hf.
Qed.
End remove.
