(* ===== verification/RbtreeTheorems.v ===== *)
(** * Red-black trees: the operations

    What the library promises its users: a node that is linked at a place of
    the tree goes there in the order, one that is erased leaves the order as it
    was, one can be replaced, iteration follows the order; the tree stays a
    red-black tree, and its height logarithmic. *)

From stdpp Require Import gmap.
From S2P Require Import Prelude Rbtree RbtreeRepr RbtreeInsert RbtreeIter RbtreeErase RbtreeRemove.
Open Scope c_scope.

(** ** Erasing *)

(** Paths with the same colours and siblings. *)
Definition alike (f g : frame) : Prop := black_frame f = black_frame g /\ sibling f = sibling g.

Lemma path_ok_alike n k k' : Forall2 alike k k' -> path_ok n k -> path_ok n k'.
Proof.
  intros HF Hk. revert k' HF. induction Hk as [n|n f k Hf Hs Hk IH|n f g k Hf Hs Hsr Hg Hk IH]; intros k' HF.
  - inversion HF. constructor.
  - inversion HF as [|? f' ? k2 [E1 E2] HF']; subst. apply path_black; [congruence|by rewrite <- E2|auto].
  - inversion HF as [|? f' ? k2 [E1 E2] HF']; subst. specialize (IH _ HF'). inversion HF' as [|? g' ? k3 [E3 E4] HF'']; subst.
    apply path_red; [congruence|by rewrite <- E2|by rewrite <- E2|congruence|done].
Qed.

Lemma alike_refl k : Forall2 alike k k.
Proof. induction k; by repeat constructor. Qed.

(** A subtree that has moved up, and the colour that went missing. *)
Definition missing (c : color) (t : tree) (k : list frame) : Prop :=
  match c with Red => rb_tree (plug t k) | Black => exists n, short n t /\ path_ok (S n) k end.

Lemma rb_short n t : rb n t -> short n t.
Proof. intros H. unfold short. destruct t as [|[] l a r]; cbn; inversion H; auto with rb. Qed.

Lemma child_missing c l a r k k' t : rb_tree (plug (Node c l a r) k) -> t = l \/ t = r -> Forall2 alike k k' -> missing c t k'.
Proof.
  intros H Ht HF. destruct (plug_inv _ _ H) as (n & Hn & Hk & _). apply (path_ok_alike _ _ _ HF) in Hk. inversion Hn as [|? ? ? ? Hl Hr El Er|? ? ? ? Hl Hr]; subst; cbn.
  - destruct Ht as [->| ->]; apply (plug_ok n); try done; intros E; congruence.
  - eexists. split; [|exact Hk]. apply rb_short. by destruct Ht as [->| ->].
Qed.

(** A tree within a tree. *)
Lemma plug_app t k1 k2 : plug t (k1 ++ k2) = plug (plug t k1) k2.
Proof. revert t. induction k1 as [|f k1 IH]; intros t; cbn; auto. Qed.
Lemma repr_inner h0 extra s t k1 k2 : repr h0 extra s (plug t k1) k2 <-> repr h0 extra s t (k1 ++ k2).
Proof. rewrite (repr_plug _ _ s t), (repr_plug _ _ s (plug t k1)). by rewrite plug_app. Qed.
Lemma ptr_plug t k : ptr (plug t k) = root_of (ptr t) k.
Proof. revert t. induction k as [|f k IH]; intros t; [done|]. cbn. rewrite IH. by destruct f. Qed.
Lemma path_addrs_app k1 k2 : path_addrs (k1 ++ k2) = path_addrs k1 ++ path_addrs k2.
Proof. induction k1 as [|[] k1 IH]; cbn; rewrite ?IH, <- ?app_assoc; done. Qed.
Lemma after_app k1 k2 : after (k1 ++ k2) = after k1 ++ after k2.
Proof. induction k1 as [|[] k1 IH]; cbn; rewrite ?IH, <- ?app_assoc; done. Qed.
Lemma before_app k1 k2 : before (k1 ++ k2) = before k2 ++ before k1.
Proof. induction k1 as [|[] k1 IH]; cbn; rewrite ?IH, ?app_nil_r, <- ?app_assoc; done. Qed.
Lemma plug_node t f k : exists c l a r, plug t (f :: k) = Node c l a r.
Proof. revert t f. induction k as [|g k IH]; intros t f; [destruct f; cbn; eauto|apply IH]. Qed.
Lemma addrs_plug t k : addrs (plug t k) ≡ₚ (addrs t ++ path_addrs k).
Proof.
  revert t. induction k as [|[c a r|c l a] k IH]; intros t; cbn [plug path_addrs]; [by rewrite app_nil_r|..]; rewrite IH; cbn; rewrite <- Permutation_middle, ?app_assoc; [done|].
  by rewrite (Permutation_app_comm (addrs l)).
Qed.

Section erasing.
Context (h0 : gmap Z rb_node) (extra : list Z).
Local Abbreviation repr := (repr h0 extra).

Definition detached (io : list Z) (res : rb_state * Z * Z * Z) : Prop :=
  exists s t k c, res = (s, ptr t, parent_of k, color_bit c) /\ repr s t k /\ missing c t k /\ inorder (plug t k) = io.

Lemma erase_one_ok s c l a r k t : repr s (Node c l a r) k -> rb_tree (plug (Node c l a r) k) -> rb_get s a = h0 !! a ->
  l = Leaf /\ t = r \/ r = Leaf /\ t = l -> wp (erase_one s a (ptr t)) (detached (before k ++ inorder l ++ inorder r ++ after k)).
Proof using.
  intros H Ht Ha Hc. unfold erase_one. observe rb_parent_ok H. observe rb_color_ok H. destruct (splice_ok _ _ _ _ _ _ _ _ _ H Hc) as (s' & E & H' & Ea).
  unfold splice in E. apply bind_Some in E as (z & E1 & E2). rewrite E1, bind_Some_eq, E2, bind_Some_eq. cbn [wp].
  exists s', t, k, c. split; [done|]. split; [apply (repr_keep _ _ _ _ _ a H'); congruence|].
  split; [apply (child_missing _ _ _ _ _ _ _ Ht); [naive_solver|apply alike_refl]|].
  rewrite inorder_plug. destruct Hc as [[-> ->]|[-> ->]]; done.
Qed.

(** The successor and the parent of the removed node are different nodes. *)
Lemma apart (L1 L2 : list Z) x z : NoDup (L1 ++ L2) -> x ∈ L1 -> z ∈ L2 -> z <> x.
Proof using. intros (_ & H & _)%list.NoDup_app Hx Hz ->. by apply (H x). Qed.

Ltac member := repeat (rewrite elem_of_cons || rewrite elem_of_app); tauto.

Lemma successor_apart s d y yr fc p fr ky c l a k : repr s (Node d Leaf y yr) (LeftOf fc p fr :: ky ++ RightOf c l a :: k) ->
  (truthy (ptr yr) = true -> parent_of k <> ptr yr) /\ parent_of k <> p /\ parent_of k <> y /\ node_addr y /\
  (y ∉ addrs (Node c l a (plug yr (LeftOf fc p fr :: ky))) ++ path_addrs k) /\ (truthy (ptr yr) = true -> a <> ptr yr) /\ a <> p.
Proof using.
  intros [_ _ N G _]. cbn in N, G. rewrite path_addrs_app in N, G. cbn in N, G. set (U := addrs yr) in *. set (V := addrs fr) in *.
  assert (truthy (ptr yr) = true -> ptr yr ∈ U) as Hyr by (destruct yr; [done|left]).
  assert (NoDup ((y :: U ++ p :: V ++ path_addrs ky) ++ a :: addrs l ++ path_addrs k)) as Na.
  { cbn. rewrite <- app_assoc. cbn. by rewrite <- app_assoc. }
  assert (NoDup ((y :: U ++ p :: V ++ path_addrs ky ++ a :: addrs l) ++ path_addrs k)) as Nk.
  { cbn. rewrite <- app_assoc. cbn. rewrite <- !app_assoc. done. }
  assert (forall x, node_addr x -> x ∈ (y :: U ++ p :: V ++ path_addrs ky ++ a :: addrs l) -> parent_of k <> x) as K.
  { intros x Hx Hin. destruct k as [|f k]; [destruct Hx; cbn; lia|]. apply (apart _ _ _ _ Nk Hin). destruct f; left. }
  assert (forall x, x ∈ (y :: U ++ p :: V ++ path_addrs ky) -> a <> x) as A by (intros x Hx; apply (apart _ _ _ _ Na Hx); left).
  rewrite list.Forall_forall in G. assert (ptr yr ∈ U -> node_addr (ptr yr)) as Gy by (intros; apply G; member).
  assert (node_addr p /\ node_addr y) as [Gp Gn] by (split; apply G; member). apply list.NoDup_cons in N as [Ny _].
  split; [intros ?%Hyr; apply K; [auto|member]|]. split; [apply K; [done|member]|]. split; [apply K; [done|member]|]. split; [done|].
  split; [|split; [intros ?%Hyr; apply A; member|apply A; member]].
  intros Hy. apply Ny. revert Hy. cbn [addrs]. rewrite addrs_plug. cbn [path_addrs]. fold U V. member.
Qed.

Ltac follow E :=
  repeat (let z := fresh in let G := fresh in apply bind_Some in E as (z & G & E); rewrite G, bind_Some_eq; clear G); rewrite E, bind_Some_eq.

(** What the code reads of the successor, once the parent of the removed node
    points to it. *)
Lemma node_reads s y p d r l : rb_get s y = Some (RbNode (word p d) r l) -> aligned p ->
  get_right s y = Some r /\ rb_parent s y = Some p /\ rb_color s y = Some (color_bit d).
Proof using. intros E Hp. unfold get_right, rb_parent, rb_color. rewrite E, !bind_Some_eq. cbn. by rewrite word_parent, word_color. Qed.

Lemma erase_adjacent_ok s c lc ll lx lr a d y yr k : let l := Node lc ll lx lr in let r := Node d Leaf y yr in
  repr s (Node c l a r) k -> rb_tree (plug (Node c l a r) k) -> rb_get s a = h0 !! a -> go_left s y = Some y ->
  wp (erase_two s a y) (detached (before k ++ inorder l ++ inorder r ++ after k)).
Proof using.
  intros l r H Ht Ha E. unfold erase_two. rewrite E, bind_Some_eq. observe rb_parent_ok H.
  destruct (adjacent_ok _ _ _ _ _ _ _ _ _ _ _ _ _ H) as (s1 & s' & E1 & Ey & E2 & H' & Ea). rewrite E1, bind_Some_eq.
  pose proof (repr_right _ _ _ _ _ _ _ _ H) as Hr. rewrite (repr_node _ _ _ _ _ _ _ _ Hr) in Ey.
  destruct (node_reads _ _ _ _ _ _ Ey (path_aligned _ _ _ _ _ Hr)) as (R1 & R2 & R3). rewrite R1, bind_Some_eq, R2, bind_Some_eq, R3, bind_Some_eq.
  cbn [parent_of frame_addr]. rewrite Z.eqb_refl, bind_Some_eq. unfold take_over in E2.
  follow E2.
  exists s', yr, (RightOf c l y :: k), d. split; [done|].
  split; [apply repr_right, (repr_keep _ _ _ _ _ a H'); congruence|]. split; [|rewrite inorder_plug; cbn; by rewrite <- !app_assoc].
  apply (child_missing d Leaf y yr (RightOf c l a :: k)); [done|auto|]. constructor; [done|apply alike_refl].
Qed.

Lemma erase_distant_ok s c lc ll lx lr a r d y yr f ky k : let l := Node lc ll lx lr in r = plug (Node d Leaf y yr) (f :: ky) -> lefts (f :: ky) ->
  repr s (Node c l a r) k -> rb_tree (plug (Node c l a r) k) -> rb_get s a = h0 !! a -> go_left s (ptr r) = Some y ->
  wp (erase_two s a (ptr r)) (detached (before k ++ inorder l ++ inorder r ++ after k)).
Proof using.
  intros l Er L H Ht Ha E. unfold erase_two. rewrite E, bind_Some_eq. observe rb_parent_ok H. apply list.Forall_cons in L as L'. destruct L' as [Lf _].
  destruct f as [fc p fr|]; [|done]. pose proof (repr_right _ _ _ _ _ _ _ _ H) as Hr. rewrite Er in Hr. apply repr_inner in Hr. cbn [app] in Hr.
  destruct (successor_apart _ _ _ _ _ _ _ _ _ _ _ _ Hr) as (D1 & D2 & D3 & D4 & D5 & D6 & D7).
  destruct (unhook_ok _ _ _ _ _ _ _ _ _ _ Hr) as (s0 & E0 & H0 & Ey). pose proof (unhook_get _ _ _ _ _ E0 D6 D7) as Ea.
  pose proof (repr_node _ _ _ _ _ _ _ _ Hr) as Ny. apply (repr_inner _ _ s0 yr (LeftOf fc p fr :: ky)) in H0. up H0.
  destruct (plug_node yr (LeftOf fc p fr) ky) as (rc' & rl' & rx' & rr' & Er'). rewrite Er' in H0, D5.
  destruct (take_place_ok _ _ _ _ _ _ _ _ _ _ _ _ _ _ _ H0 D5 D4) as (s1' & s2 & s' & F1 & F2 & F3 & H' & Ea'); [by rewrite Ey, Ny|].
  destruct (unhook_later _ _ _ _ _ _ _ _ D1 D2 E0 F1) as (s1 & G1 & G2 & G3). rewrite G1, bind_Some_eq.
  rewrite <- (G3 y (not_eq_sym D3)) in Ny. destruct (node_reads _ _ _ _ _ _ Ny (path_aligned _ _ _ _ _ Hr)) as (R1 & R2 & R3).
  rewrite R1, bind_Some_eq, R2, bind_Some_eq, R3, bind_Some_eq. cbn [parent_of frame_addr]. rewrite Z.eqb_sym, (proj2 (Z.eqb_neq _ _) D7).
  unfold unhook in G2. follow G2. unfold take_right in F2. follow F2. rewrite bind_Some_eq. unfold take_over in F3. follow F3.
  exists s', yr, ((LeftOf fc p fr :: ky) ++ RightOf c l y :: k), d. split; [done|].
  split; [|split].
  - apply repr_inner. rewrite Er'. apply repr_right, (repr_keep _ _ _ _ _ a H'). congruence.
  - apply (child_missing d Leaf y yr ((LeftOf fc p fr :: ky) ++ RightOf c l a :: k)); [by rewrite plug_app, <- Er|auto|].
    apply Forall2_app; [apply alike_refl|]. constructor; [done|apply alike_refl].
  - rewrite Er, !inorder_plug, (before_lefts _ _ L). pose proof (before_lefts _ [] L) as B. rewrite app_nil_r in B. rewrite B, after_app.
    repeat (progress cbn || rewrite <- app_assoc). done.
Qed.

Lemma rb_erase_ok s c l a r k : repr s (Node c l a r) k -> rb_tree (plug (Node c l a r) k) -> rb_get s a = h0 !! a ->
  exists s' t, rb_erase s a = Some s' /\ repr s' t [] /\ rb_tree t /\ inorder t = before k ++ inorder l ++ inorder r ++ after k.
Proof using.
  intros H Ht Ha. unfold rb_erase. observe get_left_ok H. observe get_right_ok H.
  pose proof (repr_left _ _ _ _ _ _ _ _ H) as HL. pose proof (repr_right _ _ _ _ _ _ _ _ H) as HR.
  match goal with |- context [?m ≫= _] => assert (wp m (detached (before k ++ inorder l ++ inorder r ++ after k))) as D end.
  { destruct l as [|lc ll lx lr]; [apply (erase_one_ok _ c Leaf a r k r); auto|]. rewrite (proj2 (ptr_zero _ _ _ _ _ HL)) by done. cbn [negb].
    destruct r as [|rc rl rx rr]; [apply (erase_one_ok _ c _ a Leaf k (Node lc ll lx lr)); auto|].
    rewrite (proj2 (ptr_zero _ _ _ _ _ HR)) by done. cbn [negb].
    destruct (go_left_ok _ _ _ _ _ _ _ _ HR) as (d & y & yr & ky & E & P & L). destruct ky as [|f ky].
    - cbn in P. injection P as -> -> -> ->. by apply (erase_adjacent_ok s c lc ll lx lr a d y yr k).
    - by apply (erase_distant_ok s c lc ll lx lr a (Node rc rl rx rr) d y yr f ky k). }
  destruct (wp_elim _ _ D) as (res & E & s1 & t & K & d & -> & H' & HM & Ho). rewrite E, bind_Some_eq. destruct d; cbn.
  - exists s1, (plug t K). split; [done|]. split; [by apply (proj1 (repr_plug _ _ _ _ _)) in H'|done].
  - destruct HM as (n & Hn & HK). apply (rb_erase_color_ok _ _ _ _ _ _ (length K)).
    + exists n, t, K. repeat (split; [done|]). destruct (is_red t); lia.
    + pose proof (repr_size _ _ _ _ _ H'). lia.
Qed.
End erasing.

(** ** What the users see *)

(** The state holds a red-black tree, of these nodes in this order. *)
Definition is_rbtree (s : rb_state) (L : list Z) : Prop :=
  exists t, repr (rb_nodes s) [] s t [] /\ rb_tree t /\ inorder t = L.

(** A [NULL] link of the tree: its parent, and the nodes on either side. *)
Definition rb_place (s : rb_state) (parent : Z) (link : rb_link) (L1 L2 : list Z) : Prop :=
  exists k, repr (rb_nodes s) [] s Leaf k /\ rb_tree (plug Leaf k) /\ parent = parent_of k /\ link = link_of k /\ before k = L1 /\ after k = L2.

(** Nothing but these nodes has changed. *)
Definition rb_only (L : list Z) (s s' : rb_state) : Prop := forall q, q ∉ L -> rb_get s' q = rb_get s q.

Lemma inorder_addrs t : inorder t ≡ₚ addrs t.
Proof. induction t as [|c l IHl a r IHr]; cbn; [done|]. by rewrite <- Permutation_middle, IHl, IHr. Qed.

(** A node of the order is somewhere in the tree. *)
Lemma inorder_split t L1 a L2 : inorder t = L1 ++ a :: L2 ->
  exists c l r k, t = plug (Node c l a r) k /\ L1 = before k ++ inorder l /\ L2 = inorder r ++ after k.
Proof.
  revert L1 L2. induction t as [|c l IHl b r IHr]; intros L1 L2 E; [by destruct L1|]. cbn in E.
  apply app_eq_app in E as (M & [[E1 E2]|[E1 E2]]).
  - destruct M as [|m M]; cbn in E2; injection E2 as -> ->.
    + exists c, l, r, []. cbn. by rewrite E1, !app_nil_r.
    + destruct (IHl _ _ E1) as (d & l' & r' & k & -> & -> & ->). exists d, l', r', (k ++ [LeftOf c b r]). rewrite plug_snoc, after_app, before_app. cbn.
      by rewrite <- !app_assoc, app_nil_r.
  - destruct M as [|m M]; cbn in E2; injection E2 as -> E2.
    + subst. exists c, l, r, []. cbn. by rewrite !app_nil_r.
    + destruct (IHr _ _ E2) as (d & l' & r' & k & -> & -> & ->). exists d, l', r', (k ++ [RightOf c l m]). rewrite plug_snoc, after_app, before_app. cbn.
      subst. by rewrite <- !app_assoc, app_nil_r.
Qed.

(** The view at a node, and the list seen from a final state. *)
Lemma is_rbtree_at s L1 a L2 : is_rbtree s (L1 ++ a :: L2) ->
  exists c l r k, repr (rb_nodes s) [] s (Node c l a r) k /\ rb_tree (plug (Node c l a r) k) /\ L1 = before k ++ inorder l /\ L2 = inorder r ++ after k.
Proof.
  intros (t & H & Ht & Ho). destruct (inorder_split _ _ _ _ Ho) as (c & l & r & k & -> & E1 & E2). exists c, l, r, k. split; [by apply repr_plug|done].
Qed.

Lemma repr_is_rbtree s s' t : repr (rb_nodes s) [] s' t [] -> rb_tree t -> is_rbtree s' (inorder t) /\ rb_only (inorder t) s s'.
Proof.
  intros [H1 H2 H3 H4 H5] Ht. split.
  - exists t. split; [|done]. split; auto.
  - intros q Hq. apply H5; [|apply not_elem_of_nil]. rewrite inorder_addrs in Hq. cbn. by rewrite app_nil_r.
Qed.

Lemma is_rbtree_nodup s L : is_rbtree s L -> NoDup L /\ Forall node_addr L.
Proof.
  intros (t & [_ _ N G _] & _ & <-). cbn in N, G. rewrite app_nil_r in N, G. split; by rewrite inorder_addrs.
Qed.

(** ** The height *)

Fixpoint height (t : tree) : nat := match t with Leaf => 0 | Node _ l _ r => S (height l `max` height r) end.

(** How many steps [rb_parent] takes from a node to the root. *)
Definition rb_depth (s : rb_state) (node : Z) : option Z :=
  c_loop (rb_fuel s) (fun '(node, d) => p ← rb_parent s node; Some (if truthy p then inl (p, d + 1) else inr d)) (node, 0).

Lemma rb_height n t : rb n t -> (height t <= 2 * n + if is_red t then 1 else 0)%nat.
Proof. induction 1; cbn in *; try (destruct (is_red l), (is_red r)); try done; lia. Qed.
Lemma rb_size n t : rb n t -> 2 ^ Z.of_nat n <= Z.of_nat (length (inorder t)) + 1.
Proof. induction 1; cbn [inorder] in *; rewrite ?length_app in *; cbn [length] in *; [done|lia|]. rewrite Nat2Z.inj_succ, Z.pow_succ_r; lia. Qed.
Lemma height_plug t k : (length k + height t <= height (plug t k))%nat.
Proof. revert t. induction k as [|f k IH]; intros t; cbn; [done|]. specialize (IH (fill f t)). destruct f; cbn in *; lia. Qed.

Lemma rb_depth_ok h0 extra s t k : repr h0 extra s t k -> t <> Leaf -> rb_depth s (ptr t) = Some (Z.of_nat (length k)).
Proof.
  intros H Ht. unfold rb_depth. assert (length k < rb_fuel s)%nat as HF by (apply repr_size in H; lia).
  replace (Z.of_nat (length k)) with (0 + Z.of_nat (length k)) by lia. generalize 0. revert t H Ht HF. generalize (rb_fuel s). intros F. revert F.
  induction k as [|f k IH]; intros [|F] t H Ht HF d; try (cbn in HF; lia); destruct t as [|c l a r]; try done; cbn [c_loop ptr]; observe rb_parent_ok H.
  - cbn. f_equal. lia.
  - up H. assert (exists c' l' r', fill f (Node c l a r) = Node c' l' (frame_addr f) r') as (c' & l' & r' & E) by (destruct f; cbn; eauto).
    rewrite E in H. cbn [parent_of]. rewrite (truthy_addr _ (tree_addr _ _ _ _ _ _ _ _ H)). cbn in HF. rewrite (IH F _ H) by (done || lia). cbn. f_equal. lia.
Qed.

(** No node is deeper than twice the logarithm of the number of nodes. *)
Definition shallow (s : rb_state) (L : list Z) : Prop :=
  forall a, a ∈ L -> exists d, rb_depth s a = Some d /\ d + 1 <= 2 * Z.log2 (Z.of_nat (length L) + 1).

Lemma is_rbtree_shallow s L : is_rbtree s L -> shallow s L.
Proof.
  intros HL a Ha. apply list_elem_of_split in Ha as (L1 & L2 & ->). destruct (is_rbtree_at _ _ _ _ HL) as (c & l & r & k & H & Ht & -> & ->).
  exists (Z.of_nat (length k)). split; [by apply rb_depth_ok in H|]. destruct Ht as [Hr [n Hn]].
  pose proof (rb_height _ _ Hn) as Hh. rewrite Hr in Hh. pose proof (height_plug (Node c l a r) k) as Hp. cbn [height] in Hp.
  pose proof (rb_size _ _ Hn) as Hs. rewrite inorder_plug in Hs. cbn [inorder] in Hs. rewrite <- app_assoc in *. cbn [app] in *.
  apply Z.log2_le_pow2 in Hs; lia.
Qed.

(** ** Insertion, removal and iteration on the list of the nodes *)

Lemma insert_node_ok s x parent link L1 L2 : rb_place s parent link L1 L2 -> node_addr x -> x ∉ L1 ++ L2 -> is_Some (rb_get s x) ->
  exists s1 s2, rb_link_node s x parent link = Some s1 /\ rb_insert_color s1 x = Some s2 /\
    is_rbtree s2 (L1 ++ x :: L2) /\ rb_only (L1 ++ x :: L2) s s2.
Proof.
  intros (k & H & Ht & -> & -> & <- & <-) Ha Hx Hs. destruct (plug_inv _ _ Ht) as (n & Hn & Hk & _). inversion Hn; subst.
  destruct (rb_link_node_ok _ _ s x k H) as (s1 & E1 & H1); [|done|done|].
  - intros Hin. apply Hx. pose proof (inorder_plug Leaf k) as Ei. cbn in Ei. rewrite <- Ei, inorder_addrs, addrs_plug. done.
  - destruct (rb_insert_color_risen (rb_nodes s) [] s1 x (before k ++ x :: after k) k) as (s2 & t & E2 & H2 & Ht2 & Ho).
    + exists 0%nat, Leaf, Leaf. split; [done|]. split; [by auto with rb|]. split; [done|]. by rewrite inorder_plug.
    + exists s1, s2. split; [done|]. split; [done|]. rewrite <- Ho. by apply repr_is_rbtree.
Qed.

Lemma erase_node_ok s a L1 L2 : is_rbtree s (L1 ++ a :: L2) ->
  exists s', rb_erase s a = Some s' /\ is_rbtree s' (L1 ++ L2) /\ rb_only (L1 ++ L2) s s'.
Proof.
  intros (c & l & r & k & H & Ht & -> & ->)%is_rbtree_at. destruct (rb_erase_ok _ _ _ _ _ _ _ _ H Ht eq_refl) as (s' & t & E & H' & Ht' & Ho).
  exists s'. split; [done|]. rewrite <- app_assoc, <- Ho. by apply repr_is_rbtree.
Qed.

Lemma next_node_ok s L1 a L2 : is_rbtree s (L1 ++ a :: L2) -> rb_next s a = Some (first_of L2).
Proof. intros (c & l & r & k & H & _ & _ & ->)%is_rbtree_at. by apply rb_next_ok in H. Qed.

(** A small tree: 8 is black, 4 and 12 are red below it; 16 is not linked. *)
Definition example_nodes : gmap Z rb_node :=
  <[16 := RbNode 5 7 9]> (<[12 := RbNode 8 0 0]> (<[4 := RbNode 8 0 0]> (<[8 := RbNode 1 12 4]> ∅))).
Definition example_tree : rb_state := RbState example_nodes 8.

Lemma example_repr t k : t = Node Red Leaf 4 Leaf -> k = [LeftOf Black 8 (Node Red Leaf 12 Leaf)] -> repr example_nodes [] example_tree t k.
Proof.
  intros -> ->. split.
  - cbn. rewrite !agree_cons, agree_nil. repeat split; reflexivity.
  - reflexivity.
  - apply (bool_decide_unpack _). vm_compute. exact I.
  - cbn. repeat constructor.
  - done.
Qed.
Lemma example_good : rb_tree (Node Black (Node Red Leaf 4 Leaf) 8 (Node Red Leaf 12 Leaf)).
Proof. split; [done|]. exists 1%nat. auto with rb. Qed.
Lemma example_is_rbtree : is_rbtree example_tree [4; 8; 12].
Proof.
  eexists. split; [|split; [exact example_good|done]]. by apply (repr_plug _ _ _ (Node Red Leaf 4 Leaf) [LeftOf Black 8 (Node Red Leaf 12 Leaf)]), example_repr.
Qed.
Lemma example_place : rb_place example_tree 12 (RightLink 12) [4; 8; 12] [].
Proof.
  exists [RightOf Red Leaf 12; RightOf Black (Node Red Leaf 4 Leaf) 8]. split; [|split; [exact example_good|done]].
  apply repr_plug. by apply (repr_plug _ _ _ (Node Red Leaf 4 Leaf) [LeftOf Black 8 (Node Red Leaf 12 Leaf)]), example_repr.
Qed.

(** C10: linking a node at a [NULL] link and rebalancing puts it there in the
    order; the tree stays shallow, and no other memory is touched. *)
Theorem rb_insert_correct s x parent link L1 L2 : rb_place s parent link L1 L2 ->
  node_addr x -> x ∉ L1 ++ L2 -> is_Some (rb_get s x) ->
  exists s1 s2, rb_link_node s x parent link = Some s1 /\ rb_insert_color s1 x = Some s2 /\
    is_rbtree s2 (L1 ++ x :: L2) /\ shallow s2 (L1 ++ x :: L2) /\ rb_only (L1 ++ x :: L2) s s2.
Proof.
  intros HP Ha Hx Hs. destruct (insert_node_ok _ _ _ _ _ _ HP Ha Hx Hs) as (s1 & s2 & E1 & E2 & H & Ho). exists s1, s2. auto 8 using is_rbtree_shallow.
Qed.

Lemma rb_insert_correct_witness : exists s1 s2, rb_link_node example_tree 16 12 (RightLink 12) = Some s1 /\ rb_insert_color s1 16 = Some s2 /\
  is_rbtree s2 [4; 8; 12; 16] /\ shallow s2 [4; 8; 12; 16] /\ rb_only [4; 8; 12; 16] example_tree s2.
Proof.
  apply (rb_insert_correct example_tree 16 12 (RightLink 12) [4; 8; 12] []).
  - exact example_place.
  - split; [lia|reflexivity].
  - apply (bool_decide_unpack _). vm_compute. exact I.
  - vm_compute. eexists. reflexivity.
Defined.

(** C12: erasing a node takes it out of the order and touches only the others;
    the tree stays shallow. *)
Theorem rb_erase_correct s a L1 L2 : is_rbtree s (L1 ++ a :: L2) ->
  exists s', rb_erase s a = Some s' /\ is_rbtree s' (L1 ++ L2) /\ shallow s' (L1 ++ L2) /\ rb_only (L1 ++ L2) s s'.
Proof. intros (s' & E & H & Ho)%erase_node_ok. exists s'. auto 8 using is_rbtree_shallow. Qed.

Lemma rb_erase_correct_witness : exists s', rb_erase example_tree 8 = Some s' /\ is_rbtree s' [4; 12] /\ shallow s' [4; 12] /\ rb_only [4; 12] example_tree s'.
Proof. apply (rb_erase_correct example_tree 8 [4] [12]). exact example_is_rbtree. Defined.

(** C26: iteration follows the order in both directions. *)
Theorem rb_iteration_correct s L : is_rbtree s L ->
  rb_first s = Some (first_of L) /\ rb_last s = Some (last_of L) /\
  forall L1 a L2, L = L1 ++ a :: L2 -> rb_next s a = Some (first_of L2) /\ rb_prev s a = Some (last_of L1).
Proof.
  intros HL. split; [|split].
  - destruct HL as (t & H & _ & <-). by apply rb_first_ok in H.
  - destruct HL as (t & H & _ & <-). by apply rb_last_ok in H.
  - intros L1 a L2 ->. destruct (is_rbtree_at _ _ _ _ HL) as (c & l & r & k & H & _ & -> & ->).
    split; [by apply rb_next_ok in H|by apply rb_prev_ok in H].
Qed.

Lemma rb_iteration_correct_witness : rb_first example_tree = Some 4 /\ rb_last example_tree = Some 12 /\
  forall L1 a L2, [4; 8; 12] = L1 ++ a :: L2 -> rb_next example_tree a = Some (first_of L2) /\ rb_prev example_tree a = Some (last_of L1).
Proof. apply (rb_iteration_correct example_tree [4; 8; 12]). exact example_is_rbtree. Defined.

Lemma rb_tree_rename c l a r k y : rb_tree (plug (Node c l a r) k) -> rb_tree (plug (Node c l y r) k).
Proof. intros (n & Hn & Hk & Hf)%plug_inv. apply (plug_ok n); [inversion Hn; auto with rb|done|done]. Qed.

(** Replacing a node by a new one leaves the order and the colours. *)
Theorem rb_replace_correct s a y L1 L2 : is_rbtree s (L1 ++ a :: L2) -> node_addr y -> y ∉ L1 ++ a :: L2 -> is_Some (rb_get s y) ->
  exists s', rb_replace_node s a y = Some s' /\ is_rbtree s' (L1 ++ y :: L2) /\ rb_only (L1 ++ y :: L2) s s'.
Proof.
  intros (c & l & r & k & H & Ht & -> & ->)%is_rbtree_at Ha Hy Hs.
  destruct (rb_replace_node_ok (rb_nodes s) [] s c l a r k y) as (s' & E & H' & Ea); [|..|done|done|].
  - destruct H as [H1 H2 H3 H4 H5]. split; auto.
  - intros Hin. apply Hy. pose proof (inorder_plug (Node c l a r) k) as Ei. cbn [inorder] in Ei.
    replace (_ ++ a :: _) with (inorder (plug (Node c l a r) k)) by (rewrite Ei; by rewrite <- !app_assoc). by rewrite inorder_addrs, addrs_plug.
  - exists s'. split; [done|]. apply (repr_keep (rb_nodes s) [] _ _ _ a) in H'; [|done]. apply (proj1 (repr_plug _ _ _ _ _)) in H'.
    apply repr_is_rbtree in H'; [|by apply (rb_tree_rename _ _ a)]. rewrite inorder_plug in H'. cbn in H'. by rewrite <- !app_assoc in H' |- *.
Qed.
