(* ===== verification/Timerqueue.v ===== *)
(** * Timer queues

    [lib/timerqueue.c] and [include/linux/timerqueue.h]: timers in a red-black
    tree in the order of their expiry, with a pointer to the earliest.

    [struct timerqueue_node] begins with its [struct rb_node], so that both have
    one address; the field [expires] of the nodes is a second finite map.
    [tq_warned] records that a [WARN_ON_ONCE] was hit: the kernel prints a
    warning and goes on. *)

From stdpp Require Import gmap.
From S2P Require Import Prelude Rbtree.
Open Scope c_scope.

(** The memory of the nodes, and a [struct timerqueue_head]. *)
Record timerqueue := Timerqueue {
  tq_expires : gmap Z Z;
  tq_head : rb_state;
  tq_next : Z;
  tq_warned : bool
}.

Definition get_expires (q : timerqueue) (p : Z) : option Z := tq_expires q !! p.
Definition set_head (q : timerqueue) (s : rb_state) : timerqueue := Timerqueue (tq_expires q) s (tq_next q) (tq_warned q).
Definition set_next (q : timerqueue) (p : Z) : timerqueue := Timerqueue (tq_expires q) (tq_head q) p (tq_warned q).
Definition warn_on (q : timerqueue) (b : bool) : timerqueue := Timerqueue (tq_expires q) (tq_head q) (tq_next q) (tq_warned q || b).

Definition timerqueue_init (q : timerqueue) (node : Z) : option timerqueue := s ← RB_CLEAR_NODE (tq_head q) node; Some (set_head q s).
Definition timerqueue_init_head (q : timerqueue) : timerqueue := set_next (set_head q (RB_ROOT (rb_nodes (tq_head q)))) 0.
Definition timerqueue_getnext (q : timerqueue) : Z := tq_next q.

(** The search for the link to put a node at. *)
Definition find_link (q : timerqueue) (node : Z) : option (Z * rb_link) :=
  c_loop (rb_fuel (tq_head q)) (fun '(parent, p) =>
    cur ← load_link (tq_head q) p;
    if truthy cur then
      let parent := cur in
      e ← get_expires q node;
      pe ← get_expires q parent;
      Some (inl (parent, if e <? pe then LeftLink parent else RightLink parent))
    else Some (inr (parent, p))) (0, RootLink).

Definition timerqueue_add (q : timerqueue) (node : Z) : option timerqueue :=
  empty ← RB_EMPTY_NODE (tq_head q) node;
  let q := warn_on q (negb empty) in
  '(parent, p) ← find_link q node;
  s ← rb_link_node (tq_head q) node parent p;
  s ← rb_insert_color s node;
  let q := set_head q s in
  if negb (truthy (tq_next q)) then Some (set_next q node) else
  e ← get_expires q node;
  ne ← get_expires q (tq_next q);
  Some (if e <? ne then set_next q node else q).

Definition timerqueue_del (q : timerqueue) (node : Z) : option timerqueue :=
  empty ← RB_EMPTY_NODE (tq_head q) node;
  let q := warn_on q empty in
  q ← (if tq_next q =? node then rbn ← rb_next (tq_head q) node; Some (set_next q rbn) else Some q);
  s ← rb_erase (tq_head q) node;
  s ← RB_CLEAR_NODE s node;
  Some (set_head q s).

Definition timerqueue_iterate_next (q : timerqueue) (node : Z) : option Z :=
  if truthy node then rb_next (tq_head q) node else Some 0.
