(* ===== verification/TimerqueueCorrect.v ===== *)
(** * Timer queues: correctness

    A timer queue implements the list of its timers in the order of expiry,
    those that expire together in the order in which they were added, for any
    sequence of additions and removals. *)

From stdpp Require Import gmap.
From S2P Require Import Prelude Rbtree RbtreeRepr RbtreeInsert RbtreeIter RbtreeTheorems Timerqueue.
Open Scope c_scope.

(** ** The abstract queue *)

Section queue.
(** When each timer expires. *)
Context (exp : Z -> Z).

Fixpoint queue_add (x : Z) (L : list Z) : list Z :=
  match L with [] => [x] | a :: L => if exp x <? exp a then x :: a :: L else a :: queue_add x L end.
Fixpoint queue_del (x : Z) (L : list Z) : list Z :=
  match L with [] => [] | a :: L => if a =? x then L else a :: queue_del x L end.

Fixpoint queue_sorted (L : list Z) : Prop :=
  match L with [] => True | a :: L => Forall (fun b => exp a <= exp b) L /\ queue_sorted L end.

Lemma sorted_app L1 L2 : queue_sorted (L1 ++ L2) <-> queue_sorted L1 /\ queue_sorted L2 /\ forall a b, a ∈ L1 -> b ∈ L2 -> exp a <= exp b.
Proof using.
  induction L1 as [|c L1 IH]; cbn.
  - split; [intros H; repeat split; [done|]; by intros a b []%not_elem_of_nil|tauto].
  - rewrite IH, list.Forall_app, !list.Forall_forall. split.
    + intros [[H1 H2] (H3 & H4 & H5)]. repeat split; [done..|]. intros a b [->|Ha]%elem_of_cons Hb; auto.
    + intros ([H1 H2] & H3 & H4). repeat split; try done; [intros b Hb; apply H4; [left|done]|]. intros a b Ha. apply H4. by right.
Qed.

Lemma queue_add_split x L1 L2 : Forall (fun a => exp a <= exp x) L1 -> Forall (fun a => exp x < exp a) L2 -> queue_add x (L1 ++ L2) = L1 ++ x :: L2.
Proof using.
  intros H1 H2. induction H1 as [|a L1 Ha _ IH]; cbn.
  - destruct H2 as [|b L2 Hb _]; [done|]. cbn. by rewrite (proj2 (Z.ltb_lt _ _) Hb).
  - rewrite (proj2 (Z.ltb_ge _ _) Ha). by rewrite IH.
Qed.

Lemma queue_del_split x L1 L2 : x ∉ L1 -> queue_del x (L1 ++ x :: L2) = L1 ++ L2.
Proof using.
  induction L1 as [|a L1 IH]; intros H; cbn; [by rewrite Z.eqb_refl|]. apply not_elem_of_cons in H as [Hn H].
  rewrite (proj2 (Z.eqb_neq a x)) by done. by rewrite IH.
Qed.
End queue.

(** ** The queue in memory *)

Section correct.
(** The timers there are, and when they expire. *)
Context (pool : list Z) (exp : Z -> Z).

Record tq_ok (q : timerqueue) (L : list Z) : Prop := TqOk {
  tq_tree : is_rbtree (tq_head q) L;
  tq_sorted : queue_sorted exp L;
  tq_first : tq_next q = first_of L;
  tq_known x : x ∈ pool -> get_expires q x = Some (exp x) /\ node_addr x;
  tq_pool : L ⊆ pool;
  tq_idle x : x ∈ pool -> x ∉ L -> RB_EMPTY_NODE (tq_head q) x = Some true;
  tq_calm : tq_warned q = false
}.

Lemma load_link_ok h0 extra s t k : repr h0 extra s t k -> load_link s (link_of k) = Some (ptr t).
Proof using.
  intros H. destruct k as [|[c a r|c l a] k]; cbn [link_of load_link]; [by rewrite (re_root _ _ _ _ _ H)|..]; up H.
  - by rewrite (get_left_ok _ _ _ _ _ _ _ _ H).
  - by rewrite (get_right_ok _ _ _ _ _ _ _ _ H).
Qed.

(** The search ends at the link between the timers that do not expire later and
    those that do. *)
Lemma find_link_ok q L x : tq_ok q L -> x ∈ pool ->
  exists parent link L1 L2, find_link q x = Some (parent, link) /\ rb_place (tq_head q) parent link L1 L2 /\ L = L1 ++ L2 /\
    Forall (fun a => exp a <= exp x) L1 /\ Forall (fun a => exp x < exp a) L2.
Proof using.
  intros [(t & H & Ht & Ho) Hs _ Hk Hp _ _] Hx. unfold find_link. set (s := tq_head q) in *.
  assert (length (addrs t) < rb_fuel s)%nat as HF by (apply repr_size in H; cbn in H; lia).
  change (c_loop _ _ _) with (c_loop (rb_fuel s) (fun '(parent, p) => cur ← load_link s p;
    if truthy cur then let parent := cur in e ← get_expires q x; pe ← get_expires q parent;
      Some (inl (parent, if e <? pe then LeftLink parent else RightLink parent)) else Some (inr (parent, p))) (parent_of [], link_of [])).
  assert (Forall (fun a => exp a <= exp x) (before []) /\ Forall (fun a => exp x < exp a) (after [])) as HB by (by repeat constructor).
  change t with (plug t []) in Ht, Ho. revert HF H Ht Ho HB. generalize (@nil frame). generalize (rb_fuel s). intros F. revert t.
  induction F as [|F IH]; intros t k HF H Ht Ho [HB HA]; [lia|].
  match type of IH with context [c_loop F ?b] => set (body := b) in IH |- * end. cbn [c_loop]. unfold body at 1. cbn beta iota. rewrite (load_link_ok _ _ _ _ _ H), bind_Some_eq.
  destruct t as [|c l a r].
  - exists (parent_of k), (link_of k), (before k), (after k). split; [done|]. split; [|split; [|done]].
    + exists k. by repeat (split; [done|]).
    + rewrite <- Ho. by rewrite inorder_plug.
  - cbn [ptr]. rewrite (truthy_addr _ (tree_addr _ _ _ _ _ _ _ _ H)).
    assert (L = (before k ++ inorder l) ++ a :: (inorder r ++ after k)) as EL by (rewrite <- Ho, inorder_plug; cbn; by rewrite <- !app_assoc).
    assert (a ∈ pool) as Ha by (apply Hp; rewrite EL; apply elem_of_app; right; left).
    pose proof Hs as Hs'. rewrite EL in Hs'. apply sorted_app in Hs' as (_ & [H2 _] & H3). cbn [addrs] in HF. cbn in HF. rewrite length_app in HF.
    cbv zeta. rewrite (proj1 (Hk x Hx)), bind_Some_eq, (proj1 (Hk a Ha)), bind_Some_eq. destruct (Z.ltb_spec (exp x) (exp a)) as [Hlt|Hge].
    + apply (IH l (LeftOf c a r :: k)); [lia|by apply repr_left|done|done|]. cbn. split; [done|]. apply list.Forall_cons. split; [done|].
      apply (list.Forall_impl _ _ _ H2). intros b. lia.
    + apply (IH r (RightOf c l a :: k)); [lia|by apply repr_right|done|done|]. cbn. split; [|done]. rewrite !list.Forall_app in *.
      split; [done|]. split; [|by repeat constructor]. apply list.Forall_forall. intros b Hb. specialize (H3 b a).
      assert (exp b <= exp a) by (apply H3; [apply elem_of_app; by right|left]). lia.
Qed.

(** Adding a timer. *)
Lemma is_rbtree_other s s' L : is_rbtree s L -> (forall p, p ∈ L -> rb_get s' p = rb_get s p) -> rb_root s' = rb_root s -> is_rbtree s' L.
Proof using.
  intros (t & [H1 H2 H3 H4 _] & Ht & Ho) HL HR. exists t. split; [|done]. split; [|congruence|done|done|done].
  intros a n Ha. unfold rb_get in HL. rewrite HL; [by apply H1|]. rewrite <- Ho, inorder_addrs.
  cbn in Ha. rewrite app_nil_r in Ha. rewrite <- (facts_addrs 0). apply list_elem_of_In, in_map_iff. exists (a, n). by rewrite <- list_elem_of_In.
Qed.

Lemma empty_node_get s x : RB_EMPTY_NODE s x = Some true -> is_Some (rb_get s x).
Proof using. unfold RB_EMPTY_NODE, rb_parent. by destruct (rb_get s x). Qed.

Lemma empty_node_eq s s' x : rb_get s' x = rb_get s x -> RB_EMPTY_NODE s' x = RB_EMPTY_NODE s x.
Proof using. intros E. unfold RB_EMPTY_NODE, rb_parent. by rewrite E. Qed.

Lemma sorted_insert x L1 L2 : queue_sorted exp (L1 ++ L2) -> Forall (fun a => exp a <= exp x) L1 -> Forall (fun a => exp x < exp a) L2 ->
  queue_sorted exp (L1 ++ x :: L2).
Proof using.
  intros (S1 & S2 & S3)%sorted_app H1 H2. rewrite list.Forall_forall in H1. apply sorted_app. split; [done|]. split.
  - split; [|done]. apply (list.Forall_impl _ _ _ H2). intros b. lia.
  - intros a b Ha [->|Hb]%elem_of_cons; auto.
Qed.

Lemma timerqueue_add_ok q L x : tq_ok q L -> x ∈ pool -> x ∉ L -> exists q', timerqueue_add q x = Some q' /\ tq_ok q' (queue_add exp x L).
Proof using.
  intros H Hx Hn. destruct (find_link_ok _ _ _ H Hx) as (parent & link & L1 & L2 & E & HP & -> & H1 & H2). destruct H as [Ht Hs Hf Hk Hp Hi Hc].
  unfold timerqueue_add. rewrite (Hi x Hx Hn), bind_Some_eq. cbn [negb]. replace (warn_on q false) with q by (destruct q; cbn in *; by subst).
  rewrite E, bind_Some_eq. destruct (Hk x Hx) as [Ex Ax].
  destruct (insert_node_ok _ _ _ _ _ _ HP Ax Hn (empty_node_get _ _ (Hi x Hx Hn))) as (s1 & s2 & E1 & E2 & HT & HO).
  rewrite E1, bind_Some_eq, E2, bind_Some_eq. rewrite (queue_add_split exp x L1 L2 H1 H2).
  assert (forall nx, nx = first_of (L1 ++ x :: L2) -> tq_ok (set_next (set_head q s2) nx) (L1 ++ x :: L2)) as OK.
  { intros nx Enx. split; cbn; try done; [by apply sorted_insert| |].
    - intros y [Hy|[->|Hy]%elem_of_cons]%elem_of_app; [|done|]; apply Hp, elem_of_app; auto.
    - intros y Hy Hyn. rewrite (empty_node_eq _ _ _ (HO y Hyn)). apply Hi; [done|]. rewrite elem_of_app in *. rewrite elem_of_cons in Hyn. tauto. }
  cbn [tq_next set_head]. rewrite Hf. destruct L1 as [|a L1]; [destruct L2 as [|a L2]|]; cbn [app first_of] in *; [by eauto|..].
  all: destruct (Hk a) as [Ea Aa]; [apply Hp; left|]; rewrite (truthy_addr _ Aa); cbn [negb]; unfold get_expires in *; cbn [tq_expires set_head].
  all: rewrite Ex, bind_Some_eq, Ea, bind_Some_eq.
  - apply Forall_inv in H2. rewrite (proj2 (Z.ltb_lt _ _) H2). eauto.
  - apply Forall_inv in H1. rewrite (proj2 (Z.ltb_ge _ _) H1). eexists. split; [reflexivity|]. specialize (OK a eq_refl).
    replace (set_head q s2) with (set_next (set_head q s2) a); [done|]. unfold set_next, set_head. cbn. by rewrite Hf.
Qed.

(** Removing a timer. *)
Lemma clear_node_ok s x p c rt lt : rb_get s x = Some (RbNode (word p c) rt lt) -> aligned p -> node_addr x ->
  exists s', RB_CLEAR_NODE s x = Some s' /\ RB_EMPTY_NODE s' x = Some true /\ rb_root s' = rb_root s /\ forall y, y <> x -> rb_get s' y = rb_get s y.
Proof using.
  intros E Hp Hx. pose proof (node_aligned _ Hx) as Hx'. unfold RB_CLEAR_NODE, rb_set_parent, set_parent_color. rewrite E, !bind_Some_eq. cbn [rb_parent_color rb_right rb_left].
  rewrite word_set_parent by done. eexists. split; [reflexivity|]. unfold RB_EMPTY_NODE, rb_parent, rb_get, rb_put. cbn [rb_nodes]. rewrite lookup_insert_eq, !bind_Some_eq.
  cbn [rb_parent_color]. rewrite word_parent, Z.eqb_refl by done. split; [done|]. split; [done|]. intros y Hy. by rewrite lookup_insert_ne.
Qed.

Lemma next_after_ok q L1 x L2 : is_rbtree (tq_head q) (L1 ++ x :: L2) -> tq_next q = first_of (L1 ++ x :: L2) -> x ∉ L1 ->
  (if tq_next q =? x then rbn ← rb_next (tq_head q) x; Some (set_next q rbn) else Some q) = Some (set_next q (first_of (L1 ++ L2))).
Proof using.
  intros Ht Hf Hx. rewrite Hf. destruct L1 as [|a L1]; cbn [app first_of] in *.
  - by rewrite Z.eqb_refl, (next_node_ok _ [] _ _ Ht).
  - rewrite (proj2 (Z.eqb_neq _ _)); [by destruct q; cbn in *; subst|]. intros ->. apply Hx. left.
Qed.

Lemma timerqueue_del_ok q L1 x L2 : tq_ok q (L1 ++ x :: L2) -> exists q', timerqueue_del q x = Some q' /\ tq_ok q' (L1 ++ L2).
Proof using.
  intros [Ht Hs Hf Hk Hp Hi Hc]. unfold timerqueue_del. destruct (is_rbtree_at _ _ _ _ Ht) as (c & l & r & k & HR & _).
  assert (x ∈ pool) as Hx by (apply Hp; apply elem_of_app; right; left). destruct (Hk x Hx) as [Ex Ax].
  unfold RB_EMPTY_NODE at 1. rewrite (rb_parent_ok _ _ _ _ _ _ _ _ HR), bind_Some_eq, (parent_not_self _ _ _ _ _ _ _ _ HR), bind_Some_eq.
  replace (warn_on q false) with q by (destruct q; cbn in *; by subst).
  pose proof (is_rbtree_nodup _ _ Ht) as [ND _]. apply list.NoDup_app in ND as (_ & ND2 & ND3). apply list.NoDup_cons in ND3 as [ND3 _].
  assert (x ∉ L1) as Hx1 by (intros Hin; apply (ND2 x Hin); left).
  assert (x ∉ L1 ++ L2) as Hxn by (intros [Hin|Hin]%elem_of_app; done).
  rewrite (next_after_ok _ _ _ _ Ht Hf Hx1), bind_Some_eq. destruct (erase_node_ok _ _ _ _ Ht) as (s1 & E1 & HT & HO). cbn [tq_head set_next].
  rewrite E1, bind_Some_eq. pose proof (HO x Hxn) as Gx. rewrite (repr_node _ _ _ _ _ _ _ _ HR) in Gx.
  destruct (clear_node_ok _ _ _ _ _ _ Gx (path_aligned _ _ _ _ _ HR) Ax) as (s2 & E2 & Ee & Er & Eo). rewrite E2, bind_Some_eq.
  eexists. split; [reflexivity|]. split; cbn; try done.
  - apply (is_rbtree_other _ _ _ HT); [|done]. intros y Hy. apply Eo. by intros ->.
  - apply sorted_app in Hs as (S1 & [_ S2] & S3). apply sorted_app. split; [done|]. split; [done|]. intros a b Ha Hb. apply S3; [done|by right].
  - intros y [Hy|Hy]%elem_of_app; apply Hp, elem_of_app; [by left|]. right. by right.
  - intros y Hy Hyn. destruct (decide (y = x)) as [->|Hne]; [done|]. rewrite (empty_node_eq s1) by auto. rewrite (empty_node_eq (tq_head q)) by auto.
    apply Hi; [done|]. rewrite elem_of_app in *. rewrite elem_of_cons. tauto.
Qed.

(** ** Any sequence of operations *)

Inductive timer_op := TimerAdd (x : Z) | TimerDel (x : Z).

Definition run_op (q : timerqueue) (o : timer_op) : option timerqueue :=
  match o with TimerAdd x => timerqueue_add q x | TimerDel x => timerqueue_del q x end.
Fixpoint run_ops (q : timerqueue) (ops : list timer_op) : option timerqueue :=
  match ops with [] => Some q | o :: ops => q ← run_op q o; run_ops q ops end.

(** The same on the list; a timer is added when it is not queued, and removed
    when it is. *)
Definition queue_op (L : list Z) (o : timer_op) : option (list Z) :=
  match o with
  | TimerAdd x => if decide (x ∈ pool /\ x ∉ L) then Some (queue_add exp x L) else None
  | TimerDel x => if decide (x ∈ L) then Some (queue_del x L) else None
  end.
Fixpoint queue_ops (L : list Z) (ops : list timer_op) : option (list Z) :=
  match ops with [] => Some L | o :: ops => L ← queue_op L o; queue_ops L ops end.

Lemma run_ops_ok q L ops L' : tq_ok q L -> queue_ops L ops = Some L' -> exists q', run_ops q ops = Some q' /\ tq_ok q' L'.
Proof using.
  revert q L. induction ops as [|o ops IH]; intros q L H E.
  - injection E as <-. by exists q.
  - cbn [queue_ops run_ops] in *. apply bind_Some in E as (L1 & Eo & E).
    assert (exists q1, run_op q o = Some q1 /\ tq_ok q1 L1) as (q1 & -> & H1); [|rewrite bind_Some_eq; by apply (IH q1 L1)].
    destruct o as [x|x]; cbn in Eo |- *; case_decide as Hd; try done; injection Eo as <-.
    + destruct Hd. by apply timerqueue_add_ok.
    + apply list_elem_of_split_l in Hd as (L1 & L2 & -> & Hn). rewrite queue_del_split by done. by apply timerqueue_del_ok.
Qed.

(** What can be asked of a queue. *)
Lemma tq_observe q L : tq_ok q L -> timerqueue_getnext q = first_of L /\ tq_warned q = false /\
  forall L1 x L2, L = L1 ++ x :: L2 -> timerqueue_iterate_next q x = Some (first_of L2).
Proof using.
  intros [Ht Hs Hf Hk Hp Hi Hc]. split; [done|]. split; [done|]. intros L1 x L2 ->. unfold timerqueue_iterate_next.
  destruct (Hk x) as [_ Ax]; [apply Hp, elem_of_app; right; left|]. by rewrite (truthy_addr _ Ax), (next_node_ok _ _ _ _ Ht).
Qed.

(** Timers that are initialised one by one, and a head. *)
Fixpoint init_timers (q : timerqueue) (xs : list Z) : option timerqueue :=
  match xs with [] => Some q | x :: xs => q ← timerqueue_init q x; init_timers q xs end.

(** Clearing any node, whatever it held. *)
Lemma clear_any_ok s x : is_Some (rb_get s x) -> node_addr x ->
  exists s', RB_CLEAR_NODE s x = Some s' /\ RB_EMPTY_NODE s' x = Some true /\ rb_root s' = rb_root s /\ forall y, y <> x -> rb_get s' y = rb_get s y.
Proof using.
  clear pool exp. intros [n E] Hx. unfold RB_CLEAR_NODE, rb_set_parent, set_parent_color. rewrite E, !bind_Some_eq. eexists. split; [reflexivity|].
  unfold RB_EMPTY_NODE, rb_parent, rb_get, rb_put. cbn [rb_nodes]. rewrite lookup_insert_eq, !bind_Some_eq. cbn [rb_parent_color].
  assert (rb_parent_color n .& 3 .| x = x + rb_parent_color n mod 4) as ->.
  { change 3 with (Z.ones 2). rewrite Z.land_ones, Z.lor_comm by lia. destruct Hx as [_ Hx]. apply lor_low; [done|]. by apply Z.mod_pos_bound. }
  assert (0 <= rb_parent_color n mod 4 < 4) by (by apply Z.mod_pos_bound). destruct Hx as [Hx1 Hx2].
  change 3 with (2 ^ 2 - 1). rewrite land_not32_mask by (first [lia | unfold is_u32; Z.div_mod_to_equations; lia]). change (2 ^ 2) with 4.
  replace ((x + rb_parent_color n mod 4) mod 4) with (rb_parent_color n mod 4) by (Z.div_mod_to_equations; lia).
  replace (_ - _) with x by lia. rewrite Z.eqb_refl. split; [done|]. split; [done|]. intros y Hy. by rewrite lookup_insert_ne.
Qed.

Record fresh_memory (q : timerqueue) : Prop := FreshMemory {
  fm_expires x : x ∈ pool -> tq_expires q !! x = Some (exp x);
  fm_node x : x ∈ pool -> node_addr x /\ is_Some (rb_nodes (tq_head q) !! x);
  fm_calm : tq_warned q = false
}.

Lemma init_timers_ok q xs : fresh_memory q -> xs ⊆ pool -> exists q', init_timers q xs = Some q' /\ fresh_memory q' /\
  rb_root (tq_head q') = rb_root (tq_head q) /\ tq_next q' = tq_next q /\
  (forall x, x ∈ xs -> RB_EMPTY_NODE (tq_head q') x = Some true) /\
  (forall x, RB_EMPTY_NODE (tq_head q) x = Some true -> RB_EMPTY_NODE (tq_head q') x = Some true).
Proof using.
  revert q. induction xs as [|x xs IH]; intros q H Hxs.
  - exists q. split; [done|]. split; [done|]. split; [done|]. split; [done|]. split; [|auto]. by intros x []%not_elem_of_nil.
  - cbn [init_timers]. unfold timerqueue_init. assert (x ∈ pool) as Hx by (apply Hxs; left). destruct (fm_node _ H x Hx) as [Ax Sx].
    destruct (clear_any_ok _ _ Sx Ax) as (s' & E & Ee & Er & Eo). rewrite E, !bind_Some_eq.
    destruct (IH (set_head q s')) as (q' & E' & H' & R & N & A & B); [|intros y Hy; apply Hxs; by right|].
    + destruct H as [H1 H2 H3]. split; [done| |done]. intros y Hy. split; [by apply H2|]. cbn. destruct (decide (y = x)) as [->|Hne].
      * by apply empty_node_get in Ee.
      * unfold rb_get in Eo. rewrite Eo by done. by apply H2.
    + exists q'. split; [done|]. split; [done|]. split; [by rewrite R|]. split; [by rewrite N|]. split.
      * intros y [->|Hy]%elem_of_cons; [by apply B|by apply A].
      * intros y Hy. apply B. cbn. destruct (decide (y = x)) as [->|Hne]; [done|]. by rewrite (empty_node_eq (tq_head q)) by auto.
Qed.

Lemma init_ok q : fresh_memory q -> exists q', init_timers (timerqueue_init_head q) pool = Some q' /\ tq_ok q' [].
Proof using.
  intros H. destruct (init_timers_ok (timerqueue_init_head q) pool) as (q' & E & H' & R & N & A & _); [|done|].
  - destruct H as [H1 H2 H3]. by split.
  - exists q'. split; [done|]. split; [|done|by rewrite N| |by intros x []%not_elem_of_nil|auto|by apply H'].
    + exists Leaf. split; [|split; [|done]]; [split; [by apply agree_nil|by rewrite R|constructor|constructor|done]|]. split; [done|]. exists 0%nat. constructor.
    + intros x Hx. split; [by apply H'|]. by apply (fm_node _ H').
Qed.
End correct.

(** C4: initialised timers and a head, after any sequence of additions of timers
    that are not queued and removals of timers that are, hold the timers in the
    order of expiry, those that expire together in the order in which they were
    added: [timerqueue_getnext] is the first, [timerqueue_iterate_next] the one
    after, and nothing was warned of. *)
Theorem timerqueue_refines pool exp q ops L : fresh_memory pool exp q -> queue_ops pool exp [] ops = Some L ->
  exists q0 q', init_timers (timerqueue_init_head q) pool = Some q0 /\ run_ops q0 ops = Some q' /\
    queue_sorted exp L /\ is_rbtree (tq_head q') L /\ tq_warned q' = false /\ timerqueue_getnext q' = first_of L /\
    forall L1 x L2, L = L1 ++ x :: L2 -> timerqueue_iterate_next q' x = Some (first_of L2).
Proof.
  intros H E. destruct (init_ok _ _ _ H) as (q0 & E0 & H0). destruct (run_ops_ok _ _ _ _ _ _ H0 E) as (q' & E' & H').
  exists q0, q'. destruct (tq_observe _ _ _ _ H') as (O1 & O2 & O3). split; [done|]. split; [done|]. split; [apply H'|]. split; [apply H'|done].
Qed.

(** Three timers, two of which expire together; none has been initialised. *)
Definition example_expiry (x : Z) : Z := if x =? 8 then 50 else 100.
Definition example_queue : timerqueue :=
  Timerqueue (<[4 := 100]> (<[8 := 50]> (<[12 := 100]> ∅)))
    (RbState (<[4 := RbNode 1 2 3]> (<[8 := RbNode 0 0 0]> (<[12 := RbNode 7 7 7]> ∅))) 77) 99 false.

Lemma timerqueue_refines_witness : exists q0 q', init_timers (timerqueue_init_head example_queue) [4; 8; 12] = Some q0 /\
  run_ops q0 [TimerAdd 12; TimerAdd 8; TimerAdd 4; TimerDel 8] = Some q' /\
    queue_sorted example_expiry [12; 4] /\ is_rbtree (tq_head q') [12; 4] /\ tq_warned q' = false /\ timerqueue_getnext q' = 12 /\
    forall L1 x L2, [12; 4] = L1 ++ x :: L2 -> timerqueue_iterate_next q' x = Some (first_of L2).
Proof.
  apply (timerqueue_refines [4; 8; 12] example_expiry).
  - split; [| |reflexivity]; intros x Hx; repeat (apply elem_of_cons in Hx as [->|Hx]; [first [reflexivity | split; [split; [lia|reflexivity]|vm_compute; eexists; reflexivity]]|]);
      by apply not_elem_of_nil in Hx.
  - vm_compute. reflexivity.
Defined.
