(* ===== verification/Kfifo.v ===== *)
(** * Ring buffers

    [kernel/kfifo.c] and [include/linux/kfifo.h]: queues of elements, or of
    records with a length in front, in a buffer whose size is a power of two.
    The counters [in] and [out] only grow and wrap around at 32 bits; their
    lowest bits are the position in the buffer.

    The buffer lies in the byte memory of [Mem]; accesses outside of it are
    [None].  [recsize] is the size of the length field of a record, 0 for a
    queue of elements: the macros of the header choose by it.  What
    [copy_from_user] and [copy_to_user] do is a parameter. *)

From S2P Require Import Prelude Mem Bitops LibString.
Open Scope c_scope.

Record kfifo := Kfifo { f_in : Z; f_out : Z; f_mask : Z; f_esize : Z; f_data : Z }.

Definition set_in (f : kfifo) (i : Z) : kfifo := Kfifo i (f_out f) (f_mask f) (f_esize f) (f_data f).
Definition set_out (f : kfifo) (o : Z) : kfifo := Kfifo (f_in f) o (f_mask f) (f_esize f) (f_data f).

(** ** [include/linux/log2.h] *)

Definition is_power_of_2 (n : Z) : bool := negb (n =? 0) && (n .& u32 (n - 1) =? 0).
Definition fls_long (l : Z) : Z := fls l.
(** A shift by -1, for 0, is undefined. *)
Definition rounddown_pow_of_two (n : Z) : option Z := if n =? 0 then None else Some (1 .<< (fls_long n - 1)).

(** ** Set up *)

Definition kfifo_unused (f : kfifo) : Z := u32 (u32 (f_mask f + 1) - u32 (f_in f - f_out f)).

(** [kmalloc] is a parameter: an address, or 0. *)
Definition __kfifo_alloc (kmalloc : Z -> Z) (size esize : Z) : option (kfifo * Z) :=
  size ← (if is_power_of_2 size then Some size else rounddown_pow_of_two size);
  Some (if size <? 2 then (Kfifo 0 0 0 esize 0, - EINVAL) else
        let data := kmalloc (u32 (size * esize)) in
        if truthy data then (Kfifo 0 0 (size - 1) esize data, 0) else (Kfifo 0 0 0 esize data, - ENOMEM)).

Definition __kfifo_free (f : kfifo) : kfifo := Kfifo 0 0 0 0 0.

Definition __kfifo_init (buffer size esize : Z) : option (kfifo * Z) :=
  size ← (if esize =? 0 then None else Some (size / esize));
  size ← (if is_power_of_2 size then Some size else rounddown_pow_of_two size);
  Some (if size <? 2 then (Kfifo 0 0 0 esize buffer, - EINVAL) else (Kfifo 0 0 (size - 1) esize buffer, 0)).

(** ** Elements *)

(** The offset in the buffer, the number of bytes, and how many of them there
    are before the end of the buffer. *)
Definition kfifo_span (f : kfifo) (len off : Z) : Z * Z * Z :=
  let size := u32 (f_mask f + 1) in
  let esize := f_esize f in
  let off := off .& f_mask f in
  let '(off, size, len) := if negb (esize =? 1) then (u32 (off * esize), u32 (size * esize), u32 (len * esize)) else (off, size, len) in
  let l := Z.min len (u32 (size - off)) in
  (off, len, l).

Definition kfifo_copy_in (m : mem) (f : kfifo) (src len off : Z) : option mem :=
  let '(off, len, l) := kfifo_span f len off in
  '(m, _) ← memcpy m (f_data f + off) src l;
  '(m, _) ← memcpy m (f_data f) (src + l) (u32 (len - l));
  Some m.

Definition __kfifo_in (m : mem) (f : kfifo) (buf len : Z) : option (mem * kfifo * Z) :=
  let l := kfifo_unused f in
  let len := if l <? len then l else len in
  m ← kfifo_copy_in m f buf len (f_in f);
  Some (m, set_in f (u32 (f_in f + len)), len).

Definition kfifo_copy_out (m : mem) (f : kfifo) (dst len off : Z) : option mem :=
  let '(off, len, l) := kfifo_span f len off in
  '(m, _) ← memcpy m dst (f_data f + off) l;
  '(m, _) ← memcpy m (dst + l) (f_data f) (u32 (len - l));
  Some m.

Definition __kfifo_out_peek (m : mem) (f : kfifo) (buf len : Z) : option (mem * Z) :=
  let l := u32 (f_in f - f_out f) in
  let len := if l <? len then l else len in
  m ← kfifo_copy_out m f buf len (f_out f);
  Some (m, len).

Definition __kfifo_out (m : mem) (f : kfifo) (buf len : Z) : option (mem * kfifo * Z) :=
  '(m, len) ← __kfifo_out_peek m f buf len;
  Some (m, set_out f (u32 (f_out f + len)), len).

(** ** To and from user space *)

Definition DIV_ROUND_UP (n d : Z) : option Z := if d =? 0 then None else Some (u32 (u32 (n + d) - 1) / d).

Section user.
(** Memory, destination, source and length; the number of bytes not copied. *)
Context (copy_user : mem -> Z -> Z -> Z -> option (mem * Z)).

(** Memory, the elements that are not copied, and [*copied]. *)
Definition kfifo_copy_from_user (m : mem) (f : kfifo) (from len off : Z) : option (mem * Z * Z) :=
  let '(off, len, l) := kfifo_span f len off in
  '(m, ret) ← copy_user m (f_data f + off) from l;
  '(m, ret) ← (if truthy ret then
      ret ← DIV_ROUND_UP (u32 (u32 (ret + len) - l)) (f_esize f); Some (m, ret)
    else
      '(m, ret) ← copy_user m (f_data f) (from + l) (u32 (len - l));
      ret ← (if truthy ret then DIV_ROUND_UP ret (f_esize f) else Some ret);
      Some (m, ret));
  Some (m, ret, u32 (len - ret)).

Definition __kfifo_from_user (m : mem) (f : kfifo) (from len : Z) : option (mem * kfifo * Z * Z) :=
  len ← (if negb (f_esize f =? 1) then (if f_esize f =? 0 then None else Some (len / f_esize f)) else Some len);
  let l := kfifo_unused f in
  let len := if l <? len then l else len in
  '(m, ret, copied) ← kfifo_copy_from_user m f from len (f_in f);
  let '(len, err) := if truthy ret then (u32 (len - ret), - EFAULT) else (len, 0) in
  Some (m, set_in f (u32 (f_in f + len)), copied, err).

Definition kfifo_copy_to_user (m : mem) (f : kfifo) (to len off : Z) : option (mem * Z * Z) :=
  let '(off, len, l) := kfifo_span f len off in
  '(m, ret) ← copy_user m to (f_data f + off) l;
  '(m, ret) ← (if truthy ret then
      ret ← DIV_ROUND_UP (u32 (u32 (ret + len) - l)) (f_esize f); Some (m, ret)
    else
      '(m, ret) ← copy_user m (to + l) (f_data f) (u32 (len - l));
      ret ← (if truthy ret then DIV_ROUND_UP ret (f_esize f) else Some ret);
      Some (m, ret));
  Some (m, ret, u32 (len - ret)).

Definition __kfifo_to_user (m : mem) (f : kfifo) (to len : Z) : option (mem * kfifo * Z * Z) :=
  len ← (if negb (f_esize f =? 1) then (if f_esize f =? 0 then None else Some (len / f_esize f)) else Some len);
  let l := u32 (f_in f - f_out f) in
  let len := if l <? len then l else len in
  '(m, ret, copied) ← kfifo_copy_to_user m f to len (f_out f);
  let '(len, err) := if truthy ret then (u32 (len - ret), - EFAULT) else (len, 0) in
  Some (m, set_out f (u32 (f_out f + len)), copied, err).
End user.

(** ** Records *)

(** [1 << (recsize << 3)] is an [int]. *)
Definition __kfifo_max_r (len recsize : Z) : option Z :=
  if (recsize .<< 3) <? 31 then
    let max := (1 .<< (recsize .<< 3)) - 1 in
    Some (if max <? len then max else len)
  else None.

Definition __KFIFO_PEEK (m : mem) (data out mask : Z) : option Z := arr_get m (data + (out .& mask)).

Definition __kfifo_peek_n (m : mem) (f : kfifo) (recsize : Z) : option Z :=
  let mask := f_mask f in
  let data := f_data f in
  l ← __KFIFO_PEEK m data (f_out f) mask;
  if truthy (u32 (recsize - 1)) then
    h ← __KFIFO_PEEK m data (u32 (f_out f + 1)) mask;
    Some (l .| (h .<< 8))
  else Some l.

Definition __KFIFO_POKE (m : mem) (data in_ mask val : Z) : option mem := arr_set m (data + (in_ .& mask)) (val .& 0xff).

Definition __kfifo_poke_n (m : mem) (f : kfifo) (n recsize : Z) : option mem :=
  let mask := f_mask f in
  let data := f_data f in
  m ← __KFIFO_POKE m data (f_in f) mask n;
  if 1 <? recsize then __KFIFO_POKE m data (u32 (f_in f + 1)) mask (n .>> 8) else Some m.

Definition __kfifo_len_r (m : mem) (f : kfifo) (recsize : Z) : option Z := __kfifo_peek_n m f recsize.

Definition __kfifo_in_r (m : mem) (f : kfifo) (buf len recsize : Z) : option (mem * kfifo * Z) :=
  if kfifo_unused f <? u32 (len + recsize) then Some (m, f, 0) else
  m ← __kfifo_poke_n m f len recsize;
  m ← kfifo_copy_in m f buf len (u32 (f_in f + recsize));
  Some (m, set_in f (u32 (f_in f + u32 (len + recsize))), len).

Definition kfifo_out_copy_r (m : mem) (f : kfifo) (buf len recsize : Z) : option (mem * Z * Z) :=
  n ← __kfifo_peek_n m f recsize;
  let len := if n <? len then n else len in
  m ← kfifo_copy_out m f buf len (u32 (f_out f + recsize));
  Some (m, len, n).

Definition __kfifo_out_peek_r (m : mem) (f : kfifo) (buf len recsize : Z) : option (mem * Z) :=
  if f_in f =? f_out f then Some (m, 0) else
  '(m, len, _) ← kfifo_out_copy_r m f buf len recsize;
  Some (m, len).

Definition __kfifo_out_r (m : mem) (f : kfifo) (buf len recsize : Z) : option (mem * kfifo * Z) :=
  if f_in f =? f_out f then Some (m, f, 0) else
  '(m, len, n) ← kfifo_out_copy_r m f buf len recsize;
  Some (m, set_out f (u32 (f_out f + u32 (n + recsize))), len).

Definition __kfifo_skip_r (m : mem) (f : kfifo) (recsize : Z) : option kfifo :=
  n ← __kfifo_peek_n m f recsize;
  Some (set_out f (u32 (f_out f + u32 (n + recsize)))).

Section user_records.
Context (copy_user : mem -> Z -> Z -> Z -> option (mem * Z)).

Definition __kfifo_from_user_r (m : mem) (f : kfifo) (from len recsize : Z) : option (mem * kfifo * Z * Z) :=
  len ← __kfifo_max_r len recsize;
  if kfifo_unused f <? u32 (len + recsize) then Some (m, f, 0, 0) else
  m ← __kfifo_poke_n m f len recsize;
  '(m, ret, copied) ← kfifo_copy_from_user copy_user m f from len (u32 (f_in f + recsize));
  Some (if truthy ret then (m, f, 0, - EFAULT) else (m, set_in f (u32 (f_in f + u32 (len + recsize))), copied, 0)).

Definition __kfifo_to_user_r (m : mem) (f : kfifo) (to len recsize : Z) : option (mem * kfifo * Z * Z) :=
  if f_in f =? f_out f then Some (m, f, 0, 0) else
  n ← __kfifo_peek_n m f recsize;
  let len := if n <? len then n else len in
  '(m, ret, copied) ← kfifo_copy_to_user copy_user m f to len (u32 (f_out f + recsize));
  Some (if truthy ret then (m, f, 0, - EFAULT) else (m, set_out f (u32 (f_out f + u32 (n + recsize))), copied, 0)).
End user_records.

Definition __kfifo_dma_in_finish_r (m : mem) (f : kfifo) (len recsize : Z) : option (mem * kfifo) :=
  len ← __kfifo_max_r len recsize;
  m ← __kfifo_poke_n m f len recsize;
  Some (m, set_in f (u32 (f_in f + u32 (len + recsize)))).

Definition __kfifo_dma_out_finish_r (m : mem) (f : kfifo) (recsize : Z) : option kfifo :=
  len ← __kfifo_peek_n m f recsize;
  Some (set_out f (u32 (f_out f + u32 (len + recsize)))).

(** ** The macros *)

Definition kfifo_initialized (f : kfifo) : bool := truthy (f_mask f).
Definition kfifo_size (f : kfifo) : Z := u32 (f_mask f + 1).
Definition kfifo_reset (f : kfifo) : kfifo := set_in (set_out f 0) 0.
Definition kfifo_reset_out (f : kfifo) : kfifo := set_out f (f_in f).
Definition kfifo_len (f : kfifo) : Z := u32 (f_in f - f_out f).
Definition kfifo_is_empty (f : kfifo) : bool := f_in f =? f_out f.
Definition kfifo_is_full (f : kfifo) : bool := f_mask f <? kfifo_len f.

Definition kfifo_avail (f : kfifo) (recsize : Z) : option Z :=
  let avail := u32 (kfifo_size f - kfifo_len f) in
  if truthy recsize then
    if avail <=? recsize then Some 0 else __kfifo_max_r (u32 (avail - recsize)) recsize
  else Some avail.

Definition kfifo_skip (m : mem) (f : kfifo) (recsize : Z) : option kfifo :=
  if truthy recsize then __kfifo_skip_r m f recsize else Some (set_out f (u32 (f_out f + 1))).

Definition kfifo_peek_len (m : mem) (f : kfifo) (recsize : Z) : option Z :=
  if truthy recsize then __kfifo_len_r m f recsize else Some (u32 (kfifo_len f * f_esize f)).

(** One element: [val] is its address. *)
Definition kfifo_put (m : mem) (f : kfifo) (val recsize : Z) : option (mem * kfifo * Z) :=
  if truthy recsize then __kfifo_in_r m f val (f_esize f) recsize
  else if negb (kfifo_is_full f) then
    '(m, _) ← memcpy m (f_data f + (f_in f .& f_mask f) * f_esize f) val (f_esize f);
    Some (m, set_in f (u32 (f_in f + 1)), 1)
  else Some (m, f, 0).

Definition kfifo_get (m : mem) (f : kfifo) (val recsize : Z) : option (mem * kfifo * Z) :=
  if truthy recsize then __kfifo_out_r m f val (f_esize f) recsize
  else if negb (kfifo_is_empty f) then
    '(m, _) ← memcpy m val (f_data f + (f_out f .& f_mask f) * f_esize f) (f_esize f);
    Some (m, set_out f (u32 (f_out f + 1)), 1)
  else Some (m, f, 0).

Definition kfifo_peek (m : mem) (f : kfifo) (val recsize : Z) : option (mem * Z) :=
  if truthy recsize then __kfifo_out_peek_r m f val (f_esize f) recsize
  else if negb (kfifo_is_empty f) then
    '(m, _) ← memcpy m val (f_data f + (f_out f .& f_mask f) * f_esize f) (f_esize f);
    Some (m, 1)
  else Some (m, 0).

Definition kfifo_in (m : mem) (f : kfifo) (buf n recsize : Z) : option (mem * kfifo * Z) :=
  if truthy recsize then __kfifo_in_r m f buf n recsize else __kfifo_in m f buf n.
Definition kfifo_out (m : mem) (f : kfifo) (buf n recsize : Z) : option (mem * kfifo * Z) :=
  if truthy recsize then __kfifo_out_r m f buf n recsize else __kfifo_out m f buf n.
Definition kfifo_out_peek (m : mem) (f : kfifo) (buf n recsize : Z) : option (mem * Z) :=
  if truthy recsize then __kfifo_out_peek_r m f buf n recsize else __kfifo_out_peek m f buf n.
