(* ===== verification/KfifoCorrect.v ===== *)
(** * Ring buffers: the bytes

    Reading and writing a range of a ring, wherever it wraps around, and what
    the copies of [kernel/kfifo.c] do in these terms. *)

From stdpp Require Import list_numbers.
From S2P Require Import Prelude Bytes Mem Bitops LibString LibStringCorrect Kfifo.
Open Scope c_scope.

(** ** The start of a range *)

Lemma rd_app_left a b n : 0 <= n <= blen a -> rd (a ++ b) 0 n = rd a 0 n.
Proof. intros Hn. unfold rd, blen in *. by rewrite !drop_0, take_app_le by lia. Qed.
Lemma rd_all a : rd a 0 (blen a) = a.
Proof. unfold rd, blen. rewrite drop_0. apply take_ge. lia. Qed.
Lemma rd_app_exact a b n : blen a = n -> rd (a ++ b) 0 n = a.
Proof. intros <-. rewrite rd_app_left by (pose proof (blen_nonneg a); lia). apply rd_all. Qed.
Lemma rd_rd0 m p n k : in_mem m p n -> 0 <= k <= n -> rd (rd m p n) 0 k = rd m p k.
Proof. intros Hm Hk. rewrite rd_rd by (done || lia). by rewrite Z.add_0_r. Qed.

(** ** Rings *)

Section ring.
(** [N] bytes from address [d] on, read over and over again. *)
Context (d N : Z) (HN : 0 < N).

Definition ring (m : mem) (i n : Z) : list Z := map (fun j => zth m (d + (i + j) mod N)) (seqZ 0 n).
Definition wring (m : mem) (i : Z) (b : list Z) : mem :=
  let off := i mod N in
  let l := Z.min (blen b) (N - off) in
  wr (wr m (d + off) (rd b 0 l)) d (rd b l (blen b - l)).

Lemma blen_ring m i n : 0 <= n -> blen (ring m i n) = n.
Proof using. intros. unfold blen, ring. rewrite length_map, length_seqZ. lia. Qed.

Lemma get_ring m i n j : 0 <= j < n -> arr_get (ring m i n) j = Some (zth m (d + (i + j) mod N)).
Proof using.
  intros Hj. unfold arr_get, ring. rewrite (proj2 (Z.leb_le 0 j)) by lia. rewrite list_lookup_fmap, (lookup_seqZ_lt 0 n (Z.to_nat j)) by lia.
  cbn. do 4 f_equal. lia.
Qed.

Lemma ring_ext m i n b : blen b = n -> 0 <= n -> (forall j, 0 <= j < n -> zth m (d + (i + j) mod N) = zth b j) -> ring m i n = b.
Proof using.
  intros Hb Hn H. apply mem_ext; [by rewrite blen_ring|]. rewrite blen_ring by done. intros j Hj. rewrite get_ring, H by done.
  symmetry. apply arr_get_zth. unfold blen in Hb. lia.
Qed.

Lemma ring_same m m' i n : 0 <= n -> (forall x, 0 <= x < N -> zth m' (d + x) = zth m (d + x)) -> ring m' i n = ring m i n.
Proof using HN.
  intros Hn H. apply ring_ext; [by apply blen_ring|done|]. intros j Hj. rewrite H by (by apply Z.mod_pos_bound).
  unfold zth at 2. by rewrite get_ring.
Qed.

Lemma ring_app m i a b : 0 <= a -> 0 <= b -> ring m i (a + b) = ring m i a ++ ring m (i + a) b.
Proof using.
  intros Ha Hb. apply ring_ext; [rewrite blen_app, !blen_ring; lia|lia|]. intros j Hj. unfold zth at 2. rewrite arr_get_app, blen_ring by done.
  destruct (Z.ltb_spec j a); rewrite get_ring by lia; cbn; [done|]. do 3 f_equal. lia.
Qed.

Lemma ring_0 m i : ring m i 0 = [].
Proof using. done. Qed.

(** A write of the ring, seen from each of its bytes. *)
Lemma wring_in m i b x : in_mem m d N -> blen b <= N -> 0 <= x < N ->
  zth (wring m i b) (d + x) = if (x - i) mod N <? blen b then zth b ((x - i) mod N) else zth m (d + x).
Proof using HN.
  intros Hm Hb Hx. unfold wring. pose proof (blen_nonneg b) as Hb0. pose proof (Z.mod_pos_bound i N HN) as Hoff. set (off := i mod N) in *.
  set (l := Z.min (blen b) (N - off)) in *. unfold in_mem in Hm.
  assert (blen (rd b 0 l) = l) as B1 by (apply blen_rd; unfold in_mem; lia).
  assert (blen (rd b l (blen b - l)) = blen b - l) as B2 by (apply blen_rd; unfold in_mem; lia).
  assert (in_mem m (d + off) (blen (rd b 0 l))) as M1 by (unfold in_mem; lia).
  assert (in_mem (wr m (d + off) (rd b 0 l)) d (blen (rd b l (blen b - l)))) as M2 by (rewrite in_mem_wr by done; unfold in_mem; lia).
  assert ((x - i) mod N = if x <? off then x - off + N else x - off) as E.
  { unfold off. rewrite <- (Zminus_mod_idemp_r x i N). fold off. destruct (Z.ltb_spec x off).
    - rewrite <- (Z.mod_add _ 1 N), Z.mod_small by lia. lia.
    - by rewrite Z.mod_small by lia. }
  rewrite E. unfold zth. destruct (Z.ltb_spec x (blen b - l)) as [Hlow|Hlow].
  - rewrite arr_get_wr_in by (done || lia). rewrite (proj2 (Z.ltb_lt x off)) by lia. rewrite (proj2 (Z.ltb_lt _ _)) by lia.
    rewrite arr_get_rd by (unfold in_mem; lia). do 2 f_equal. lia.
  - rewrite arr_get_wr_out by (done || lia). destruct (Z.ltb_spec x off) as [H1|H1].
    + rewrite (proj2 (Z.ltb_ge _ _)) by lia. rewrite arr_get_wr_out by (done || lia). done.
    + destruct (Z.ltb_spec (x - off) (blen b)) as [H2|H2].
      * rewrite arr_get_wr_in by (done || lia). rewrite arr_get_rd by (unfold in_mem; lia). do 2 f_equal. lia.
      * rewrite arr_get_wr_out by (done || lia). done.
Qed.

Lemma wring_out m i b p : in_mem m d N -> blen b <= N -> ~ d <= p < d + N -> arr_get (wring m i b) p = arr_get m p.
Proof using HN.
  intros Hm Hb Hp. unfold wring. pose proof (blen_nonneg b). pose proof (Z.mod_pos_bound i N HN). set (off := i mod N) in *.
  set (l := Z.min (blen b) (N - off)) in *. unfold in_mem in Hm.
  assert (blen (rd b 0 l) = l) as B1 by (apply blen_rd; unfold in_mem; lia).
  assert (blen (rd b l (blen b - l)) = blen b - l) as B2 by (apply blen_rd; unfold in_mem; lia).
  rewrite arr_get_wr_out; [rewrite arr_get_wr_out; [done|..]|..]; rewrite ?in_mem_wr; unfold in_mem; lia.
Qed.

Lemma blen_wring m i b : in_mem m d N -> blen b <= N -> blen (wring m i b) = blen m.
Proof using HN.
  intros Hm Hb. unfold wring. pose proof (blen_nonneg b). pose proof (Z.mod_pos_bound i N HN). set (off := i mod N) in *.
  set (l := Z.min (blen b) (N - off)) in *. unfold in_mem in Hm.
  assert (blen (rd b 0 l) = l) as B1 by (apply blen_rd; unfold in_mem; lia).
  assert (blen (rd b l (blen b - l)) = blen b - l) as B2 by (apply blen_rd; unfold in_mem; lia).
  rewrite !blen_wr; rewrite ?in_mem_wr; unfold in_mem; lia.
Qed.

(** What was written is read back; a range that does not meet it is unchanged. *)
Lemma ring_wring m i b : in_mem m d N -> blen b <= N -> ring (wring m i b) i (blen b) = b.
Proof using HN.
  intros Hm Hb. pose proof (blen_nonneg b). apply ring_ext; [done|lia|]. intros j Hj. rewrite wring_in; [|done|done|by apply Z.mod_pos_bound].
  rewrite Zminus_mod_idemp_l. replace (i + j - i) with j by lia. rewrite Z.mod_small by lia. by rewrite (proj2 (Z.ltb_lt _ _)) by lia.
Qed.

Lemma ring_wring_other m i b j n : in_mem m d N -> blen b <= N -> 0 <= n -> j + n <= i -> i + blen b <= j + N ->
  ring (wring m i b) j n = ring m j n.
Proof using HN.
  intros Hm Hb Hn H1 H2. apply ring_ext; [by apply blen_ring|done|]. intros x Hx. rewrite wring_in; [|done|done|by apply Z.mod_pos_bound].
  rewrite Zminus_mod_idemp_l. pose proof (blen_nonneg b). rewrite <- (Z.mod_add (j + x - i) 1 N), Z.mod_small by lia.
  rewrite (proj2 (Z.ltb_ge _ _)) by lia. unfold zth at 2. by rewrite get_ring.
Qed.
End ring.

(** ** The geometry of a queue *)

Definition cap (f : kfifo) : Z := f_mask f + 1.
Definition nbytes (f : kfifo) : Z := cap f * f_esize f.

(** A buffer of a power of two elements; [IN] and [OUT] count all the elements
    that ever went in and out. *)
Record shaped (m : mem) (f : kfifo) (IN OUT : Z) : Prop := Shaped {
  sh_mask : exists k, 0 <= k <= 31 /\ f_mask f = 2 ^ k - 1;
  sh_esize : 0 < f_esize f;
  sh_bytes : nbytes f < 2 ^ 32;
  sh_in : f_in f = u32 IN;
  sh_out : f_out f = u32 OUT;
  sh_len : 0 <= IN - OUT <= cap f;
  sh_mem : in_mem m (f_data f) (nbytes f)
}.

(** The bytes of the elements between two counts. *)
Definition elems (m : mem) (f : kfifo) (i n : Z) : list Z := ring (f_data f) (nbytes f) m (i * f_esize f) (n * f_esize f).

Section shaped.
Context (m : mem) (f : kfifo) (IN OUT : Z) (S : shaped m f IN OUT).

Lemma shaped_bounds : 1 <= cap f <= 2 ^ 31 /\ 0 < nbytes f /\ 0 < f_esize f /\ nbytes f < 2 ^ 32.
Proof using S.
  destruct S as [(k & Hk & Em) He Hb _ _ _ _]. unfold nbytes, cap in *. rewrite Em.
  assert (1 <= 2 ^ k) by (apply (Z.pow_le_mono_r 2 0 k); lia). assert (2 ^ k <= 2 ^ 31) by (apply Z.pow_le_mono_r; lia). nia.
Qed.

Lemma counter_mod X : u32 X .& f_mask f = X mod cap f.
Proof using S.
  destruct S as [(k & Hk & Em) _ _ _ _ _ _]. unfold cap. rewrite Em. replace (2 ^ k - 1 + 1) with (2 ^ k) by lia.
  rewrite Z.sub_1_r, <- Z.ones_equiv, Z.land_ones by lia. unfold u32. rewrite Z.mod_mod_divide; [done|].
  exists (2 ^ (32 - k)). rewrite <- Z.pow_add_r by lia. f_equal. lia.
Qed.

Lemma len_ok : u32 (f_in f - f_out f) = IN - OUT.
Proof using S.
  pose proof shaped_bounds as (Hc & _). destruct S as [_ _ _ Ei Eo Hl _]. rewrite Ei, Eo. unfold u32. rewrite <- Zminus_mod, Z.mod_small; lia.
Qed.
Lemma unused_ok : kfifo_unused f = cap f - (IN - OUT).
Proof using S.
  pose proof shaped_bounds as (Hc & _). pose proof (sh_len _ _ _ _ S). unfold kfifo_unused. rewrite len_ok. unfold cap in *.
  rewrite (u32_small (f_mask f + 1)), u32_small; unfold is_u32; lia.
Qed.

Lemma span_ok len X : 0 <= len <= cap f ->
  kfifo_span f len (u32 X) = ((X * f_esize f) mod nbytes f, len * f_esize f, Z.min (len * f_esize f) (nbytes f - (X * f_esize f) mod nbytes f)).
Proof using S.
  intros Hlen. pose proof shaped_bounds as (Hc & Hn & He & Hb). unfold kfifo_span. rewrite counter_mod.
  pose proof (Z.mod_pos_bound X (cap f) ltac:(lia)) as Hx. fold (cap f).
  assert ((X * f_esize f) mod nbytes f = X mod cap f * f_esize f) as E by (unfold nbytes; rewrite Z.mul_mod_distr_r; lia).
  rewrite E. unfold nbytes in *. assert (X mod cap f * f_esize f < cap f * f_esize f) by nia. assert (len * f_esize f <= cap f * f_esize f) by nia.
  assert (0 <= X mod cap f * f_esize f) by nia. assert (0 <= len * f_esize f) by nia.
  rewrite (u32_small (cap f)) by (unfold is_u32; lia). destruct (Z.eqb_spec (f_esize f) 1) as [E1|E1]; cbn [negb].
  - rewrite E1, !Z.mul_1_r in *. rewrite u32_small by (unfold is_u32; lia). done.
  - rewrite !(u32_small (_ * _)) by (unfold is_u32; lia). rewrite u32_small by (unfold is_u32; lia). done.
Qed.

Lemma copy_in_ok src len X : 0 <= len <= cap f -> in_mem m src (len * f_esize f) -> disjoint src (len * f_esize f) (f_data f) (nbytes f) ->
  kfifo_copy_in m f src len (u32 X) = Some (wring (f_data f) (nbytes f) m (X * f_esize f) (rd m src (len * f_esize f))).
Proof using S.
  intros Hlen Hs Hd. pose proof shaped_bounds as (Hc & Hn & He & Hb). pose proof (sh_mem _ _ _ _ S) as Hm. unfold kfifo_copy_in. rewrite span_ok by done.
  pose proof (Z.mod_pos_bound (X * f_esize f) (nbytes f) Hn) as Hx. unfold wring. rewrite (blen_rd m src) by done.
  set (off := (X * f_esize f) mod nbytes f) in *. set (L := len * f_esize f) in *. set (l := Z.min L (nbytes f - off)).
  assert (0 <= L <= nbytes f) as HL by (unfold L, nbytes; nia). unfold in_mem, disjoint in *.
  assert (0 <= l <= L) by (unfold l; lia). assert (off + l <= nbytes f) by (unfold l; lia).
  rewrite memcpy_ok, bind_Some_eq by (unfold in_mem; lia). rewrite (u32_small (L - l)) by (unfold is_u32; lia).
  assert (blen (rd m src l) = l) as B by (apply blen_rd; unfold in_mem; lia).
  rewrite memcpy_ok, bind_Some_eq; [|rewrite in_mem_wr; unfold in_mem; rewrite ?B; lia..|lia].
  rewrite rd_wr_other by (rewrite ?B; unfold in_mem, disjoint; lia). rewrite !rd_rd by (unfold in_mem; lia). by rewrite Z.add_0_r.
Qed.

(** A write that does not wrap around. *)
Lemma wring_one i b : i mod nbytes f + blen b <= nbytes f -> wr m (f_data f + i mod nbytes f) b = wring (f_data f) (nbytes f) m i b.
Proof using S.
  intros Hb. destruct shaped_bounds as (_ & Hn & _). pose proof (sh_mem _ _ _ _ S) as Hm. pose proof (Z.mod_pos_bound i _ Hn). pose proof (blen_nonneg b).
  unfold wring. rewrite Z.min_l by lia. rewrite rd_all, Z.sub_diag, rd_0. rewrite wr_nil; [done|]. unfold in_mem in *. rewrite blen_wr; unfold in_mem; lia.
Qed.
Lemma wring_nil i : wring (f_data f) (nbytes f) m i [] = m.
Proof using S.
  destruct shaped_bounds as (_ & Hn & _). pose proof (sh_mem _ _ _ _ S) as Hm. pose proof (Z.mod_pos_bound i _ Hn).
  rewrite <- wring_one by (change (blen (@nil Z)) with 0; lia). apply wr_nil. unfold in_mem in *. lia.
Qed.

(** The elements in the one or two pieces in which they lie in memory. *)
Lemma elems_pieces len X : 0 <= len <= cap f -> let off := (X * f_esize f) mod nbytes f in let l := Z.min (len * f_esize f) (nbytes f - off) in
  elems m f X len = rd m (f_data f + off) l ++ rd m (f_data f) (len * f_esize f - l).
Proof using S.
  intros Hlen off l. pose proof shaped_bounds as (Hc & Hn & He & Hb). pose proof (sh_mem _ _ _ _ S) as Hm. unfold elems.
  pose proof (Z.mod_pos_bound (X * f_esize f) (nbytes f) Hn) as Hx. fold off in Hx.
  assert (0 <= len * f_esize f <= nbytes f) as HL by (unfold nbytes; nia). set (L := len * f_esize f) in *. unfold in_mem in *.
  assert (0 <= l <= L) by (unfold l; lia). assert (off + l <= nbytes f) by (unfold l; lia).
  assert (blen (rd m (f_data f + off) l) = l) as B by (apply blen_rd; unfold in_mem; lia).
  apply ring_ext; [rewrite blen_app, B, blen_rd by (unfold in_mem; lia); lia|lia|]. intros j Hj.
  unfold zth. rewrite arr_get_app, B. rewrite <- Zplus_mod_idemp_l. fold off. destruct (Z.ltb_spec j l).
  - rewrite arr_get_rd by (unfold in_mem; lia). rewrite Z.mod_small by lia. do 2 f_equal. lia.
  - rewrite arr_get_rd by (unfold in_mem; lia). do 2 f_equal. rewrite <- (Z.mod_add _ (-1)), Z.mod_small by lia. lia.
Qed.

Lemma copy_out_ok dst len X : 0 <= len <= cap f -> in_mem m dst (len * f_esize f) -> disjoint dst (len * f_esize f) (f_data f) (nbytes f) ->
  kfifo_copy_out m f dst len (u32 X) = Some (wr m dst (elems m f X len)).
Proof using S.
  intros Hlen Hs Hd. pose proof shaped_bounds as (Hc & Hn & He & Hb). pose proof (sh_mem _ _ _ _ S) as Hm. unfold kfifo_copy_out. rewrite span_ok by done.
  rewrite (elems_pieces len X Hlen). pose proof (Z.mod_pos_bound (X * f_esize f) (nbytes f) Hn) as Hx.
  assert (0 <= len * f_esize f <= nbytes f) as HL by (unfold nbytes; nia). set (L := len * f_esize f) in *.
  set (off := (X * f_esize f) mod nbytes f) in *. set (l := Z.min L (nbytes f - off)). unfold in_mem, disjoint in *.
  assert (0 <= l <= L) by (unfold l; lia). assert (off + l <= nbytes f) by (unfold l; lia).
  rewrite memcpy_ok, bind_Some_eq by (unfold in_mem; lia). rewrite (u32_small (L - l)) by (unfold is_u32; lia).
  assert (blen (rd m (f_data f + off) l) = l) as B by (apply blen_rd; unfold in_mem; lia).
  rewrite memcpy_ok, bind_Some_eq; [|rewrite in_mem_wr; unfold in_mem; rewrite ?B; lia..|lia].
  rewrite rd_wr_other by (rewrite ?B; unfold in_mem, disjoint; lia). by rewrite wr_app by (rewrite ?B, ?blen_rd; unfold in_mem; lia).
Qed.
End shaped.

(** ** Elements in the buffer *)

Lemma elems_app m f i a b : 0 < f_esize f -> 0 <= a -> 0 <= b -> elems m f i (a + b) = elems m f i a ++ elems m f (i + a) b.
Proof. intros. unfold elems. rewrite !Z.mul_add_distr_r. apply ring_app; nia. Qed.
Lemma blen_elems m f i n : 0 < f_esize f -> 0 <= n -> blen (elems m f i n) = n * f_esize f.
Proof. intros. unfold elems. apply blen_ring. nia. Qed.
Lemma elems_0 m f i : elems m f i 0 = [].
Proof. done. Qed.

(** A memory that is the same where the buffer is. *)
Definition same_at (p n : Z) (m m' : mem) : Prop := blen m' = blen m /\ forall x, p <= x < p + n -> arr_get m' x = arr_get m x.
Definition same_but (p n : Z) (m m' : mem) : Prop := blen m' = blen m /\ forall x, ~ p <= x < p + n -> arr_get m' x = arr_get m x.

Lemma same_at_wr m p b q n : in_mem m p (blen b) -> disjoint p (blen b) q n -> same_at q n m (wr m p b).
Proof. intros Hm Hd. split; [by apply blen_wr|]. intros x Hx. apply arr_get_wr_out; [done|]. unfold disjoint in Hd. lia. Qed.

Lemma shaped_mem m m' f IN OUT : blen m' = blen m -> shaped m f IN OUT -> shaped m' f IN OUT.
Proof. intros E [H1 H2 H3 H4 H5 H6 H7]. split; try done. unfold in_mem in *. lia. Qed.

Lemma elems_same m m' f IN OUT i n : shaped m f IN OUT -> same_at (f_data f) (nbytes f) m m' -> 0 <= n -> elems m' f i n = elems m f i n.
Proof.
  intros S [_ H] Hn. destruct (shaped_bounds _ _ _ _ S) as (_ & HN & He & _). unfold elems. apply ring_same; [done|nia|].
  intros x Hx. unfold zth. rewrite H; [done|lia].
Qed.

Section write.
Context (m : mem) (f : kfifo) (IN OUT : Z) (S : shaped m f IN OUT) (l : Z) (b : list Z) (Hl : 0 <= l <= cap f - (IN - OUT)) (Hb : blen b = l * f_esize f).
Let m' := wring (f_data f) (nbytes f) m (IN * f_esize f) b.

Lemma write_size : blen b <= nbytes f.
Proof using All. destruct (shaped_bounds _ _ _ _ S) as (_ & _ & He & _). pose proof (sh_len _ _ _ _ S). rewrite Hb. unfold nbytes. nia. Qed.
Lemma write_blen : blen m' = blen m.
Proof using All. destruct (shaped_bounds _ _ _ _ S) as (_ & HN & _). apply blen_wring; [done|apply S|apply write_size]. Qed.
Lemma write_new : elems m' f IN l = b.
Proof using All.
  destruct (shaped_bounds _ _ _ _ S) as (_ & HN & _). unfold elems. rewrite <- Hb. apply ring_wring; [done|apply S|apply write_size].
Qed.
Lemma write_old i n : OUT <= i -> 0 <= n -> i + n <= IN -> elems m' f i n = elems m f i n.
Proof using All.
  intros Hi Hn Hin. destruct (shaped_bounds _ _ _ _ S) as (_ & HN & He & _). pose proof (sh_len _ _ _ _ S) as HL.
  unfold elems. apply ring_wring_other; [done|apply S|apply write_size|nia|nia|]. rewrite Hb. unfold nbytes in *. nia.
Qed.
Lemma write_outside : same_but (f_data f) (nbytes f) m m'.
Proof using All.
  destruct (shaped_bounds _ _ _ _ S) as (_ & HN & _). split; [apply write_blen|]. intros x Hx. apply wring_out; [done|apply S|apply write_size|done].
Qed.
End write.

(** The counters move on. *)
Lemma shaped_in m f IN OUT l : shaped m f IN OUT -> 0 <= l <= cap f - (IN - OUT) -> shaped m (set_in f (u32 (f_in f + l))) (IN + l) OUT.
Proof.
  intros [H1 H2 H3 H4 H5 H6 H7] Hl. split; try done; cbn; [|unfold cap in *; cbn; lia]. rewrite H4. unfold u32. by rewrite Zplus_mod_idemp_l.
Qed.
Lemma shaped_out m f IN OUT l : shaped m f IN OUT -> 0 <= l <= IN - OUT -> shaped m (set_out f (u32 (f_out f + l))) IN (OUT + l).
Proof.
  intros [H1 H2 H3 H4 H5 H6 H7] Hl. split; try done; cbn; [|unfold cap in *; cbn; lia]. rewrite H5. unfold u32. by rewrite Zplus_mod_idemp_l.
Qed.
