(* ===== verification/KfifoTheorems.v ===== *)
(** * Ring buffers: queues

    What goes into a queue comes out of it, in order: for the calls one after
    another, and for one reader and one writer that run at the same time
    without a lock. *)

From stdpp Require Import list_numbers relations.
From S2P Require Import Prelude Bytes Mem Bitops LibString LibStringCorrect Kfifo KfifoCorrect.
Open Scope c_scope.

(** The bytes in the queue, oldest first. *)
Definition kfifo_bytes (m : mem) (f : kfifo) : list Z := elems m f (f_out f) (kfifo_len f).

Lemma elems_counter m f IN OUT X n : shaped m f IN OUT -> elems m f (u32 X) n = elems m f X n.
Proof.
  intros S. destruct (shaped_bounds _ _ _ _ S) as (Hc & HN & He & _). unfold elems, ring. apply map_ext. intros j. do 2 f_equal.
  rewrite <- (Zplus_mod_idemp_l (u32 X * f_esize f)), <- (Zplus_mod_idemp_l (X * f_esize f)). do 2 f_equal.
  unfold nbytes. rewrite !Z.mul_mod_distr_r by lia. f_equal. destruct S as [(k & Hk & Em) _ _ _ _ _ _]. unfold cap. rewrite Em.
  replace (2 ^ k - 1 + 1) with (2 ^ k) by lia. unfold u32. apply Z.mod_mod_divide. exists (2 ^ (32 - k)). rewrite <- Z.pow_add_r by lia. f_equal. lia.
Qed.

Lemma bytes_shaped m f IN OUT : shaped m f IN OUT -> kfifo_bytes m f = elems m f OUT (IN - OUT).
Proof. intros S. unfold kfifo_bytes, kfifo_len. rewrite (len_ok _ _ _ _ S), (sh_out _ _ _ _ S). by apply (elems_counter _ _ IN OUT). Qed.

(** ** One reader and one writer *)

(** The parts of a call that others can see: how many elements are free (or
    there) is read, the elements are copied, the counter is written.  The
    barriers of the code keep that order.  [staged] are the bytes copied. *)
Inductive writer := WIdle | WCopy (buf len : Z) | WPublish (len : Z) (staged : list Z).
Inductive reader := RIdle | RCopy (buf len : Z) | RPublish (len : Z) (staged : list Z).

(** The memory, the queue, and all bytes sent and received so far. *)
Record sys := Sys { y_mem : mem; y_fifo : kfifo; y_writer : writer; y_reader : reader; y_sent : list Z; y_got : list Z }.

(** A caller's buffer. *)
Definition user_buffer (m : mem) (f : kfifo) (buf len : Z) : Prop :=
  in_mem m buf (len * f_esize f) /\ disjoint buf (len * f_esize f) (f_data f) (nbytes f).

Inductive step : sys -> sys -> Prop :=
| step_write m f r sent got buf len : let l := if kfifo_unused f <? len then kfifo_unused f else len in
    0 <= len -> user_buffer m f buf l -> step (Sys m f WIdle r sent got) (Sys m f (WCopy buf l) r sent got)
| step_copy_in m f r sent got buf len m' : kfifo_copy_in m f buf len (f_in f) = Some m' ->
    step (Sys m f (WCopy buf len) r sent got) (Sys m' f (WPublish len (rd m buf (len * f_esize f))) r sent got)
| step_publish m f r sent got len b :
    step (Sys m f (WPublish len b) r sent got) (Sys m (set_in f (u32 (f_in f + len))) WIdle r (sent ++ b) got)
| step_read m f w sent got buf len : let l := if kfifo_len f <? len then kfifo_len f else len in
    0 <= len -> user_buffer m f buf l -> step (Sys m f w RIdle sent got) (Sys m f w (RCopy buf l) sent got)
| step_copy_out m f w sent got buf len m' : kfifo_copy_out m f buf len (f_out f) = Some m' ->
    step (Sys m f w (RCopy buf len) sent got) (Sys m' f w (RPublish len (rd m' buf (len * f_esize f))) sent got)
| step_release m f w sent got len b :
    step (Sys m f w (RPublish len b) sent got) (Sys m (set_out f (u32 (f_out f + len))) w RIdle sent (got ++ b))
| step_others m m' f w r sent got : same_at (f_data f) (nbytes f) m m' -> step (Sys m f w r sent got) (Sys m' f w r sent got).

(** ** The invariant *)

Definition writer_ok (m : mem) (f : kfifo) (IN OUT : Z) (w : writer) : Prop :=
  match w with
  | WIdle => True
  | WCopy buf len => 0 <= len <= cap f - (IN - OUT) /\ user_buffer m f buf len
  | WPublish len b => 0 <= len <= cap f - (IN - OUT) /\ elems m f IN len = b
  end.
Definition reader_ok (m : mem) (f : kfifo) (IN OUT : Z) (r : reader) : Prop :=
  match r with
  | RIdle => True
  | RCopy buf len => 0 <= len <= IN - OUT /\ user_buffer m f buf len
  | RPublish len b => 0 <= len <= IN - OUT /\ elems m f OUT len = b
  end.

Record sys_ok (y : sys) : Prop := SysOk {
  so_counts : exists IN OUT, shaped (y_mem y) (y_fifo y) IN OUT /\
    writer_ok (y_mem y) (y_fifo y) IN OUT (y_writer y) /\ reader_ok (y_mem y) (y_fifo y) IN OUT (y_reader y);
  so_stream : y_sent y = y_got y ++ kfifo_bytes (y_mem y) (y_fifo y)
}.

(** What does not touch the buffer keeps everything. *)
Lemma keep_ok m m' f w r sent got : same_at (f_data f) (nbytes f) m m' -> sys_ok (Sys m f w r sent got) -> sys_ok (Sys m' f w r sent got).
Proof.
  intros Hs [(IN & OUT & S & HW & HR) Hst]. cbn in *. pose proof Hs as [Hbl _]. pose proof (shaped_mem _ _ _ _ _ Hbl S) as S'.
  assert (forall i n, 0 <= n -> elems m' f i n = elems m f i n) as HE by (intros; by eapply elems_same).
  assert (forall b l, user_buffer m f b l -> user_buffer m' f b l) as HU by (unfold user_buffer, in_mem; intros; by rewrite Hbl).
  split; cbn.
  - exists IN, OUT. split; [done|]. split; [destruct w|destruct r]; cbn in *; try done; (split; [tauto|]); try (apply HU; tauto); rewrite HE; tauto.
  - rewrite (bytes_shaped _ _ _ _ S') . rewrite (bytes_shaped _ _ _ _ S) in Hst. rewrite HE; [done|]. apply S.
Qed.

Lemma copy_in_keeps m f r sent got buf len m' : kfifo_copy_in m f buf len (f_in f) = Some m' ->
  sys_ok (Sys m f (WCopy buf len) r sent got) -> sys_ok (Sys m' f (WPublish len (rd m buf (len * f_esize f))) r sent got).
Proof.
  intros E [(IN & OUT & S & [Hl [HB HD]] & HR) Hst]. cbn in *. pose proof (sh_len _ _ _ _ S) as HL.
  rewrite (sh_in _ _ _ _ S), (copy_in_ok _ _ _ _ S) in E by (done || (split; lia)). injection E as <-.
  pose proof (blen_rd _ _ _ HB) as Hb. pose proof (write_blen _ _ _ _ S _ _ Hl Hb) as Hbl. pose proof (shaped_mem _ _ _ _ _ Hbl S) as S'. split; cbn.
  - exists IN, OUT. split; [done|]. split; [split; [done|apply (write_new _ _ _ _ S _ _ Hl Hb)]|]. destruct r as [|b l|l b]; cbn in *; [done|..].
    + split; [tauto|]. unfold user_buffer, in_mem in *. rewrite Hbl. tauto.
    + rewrite (write_old _ _ _ _ S _ _ Hl Hb) by lia. done.
  - rewrite (bytes_shaped _ _ _ _ S'), (write_old _ _ _ _ S _ _ Hl Hb) by lia. by rewrite <- (bytes_shaped _ _ _ _ S).
Qed.

Lemma publish_keeps m f r sent got len b : sys_ok (Sys m f (WPublish len b) r sent got) ->
  sys_ok (Sys m (set_in f (u32 (f_in f + len))) WIdle r (sent ++ b) got).
Proof.
  intros [(IN & OUT & S & [Hl HE] & HR) Hst]. cbn in *. pose proof (sh_len _ _ _ _ S) as HL. pose proof (shaped_in _ _ _ _ _ S Hl) as S'. split; cbn.
  - exists (IN + len), OUT. split; [done|]. split; [done|]. destruct r as [|bf l|l bf]; cbn in *; [done|..]; (split; [lia|tauto]).
  - rewrite (bytes_shaped _ _ _ _ S'). rewrite Hst, (bytes_shaped _ _ _ _ S), <- app_assoc. f_equal. rewrite <- HE.
    replace (IN + len - OUT) with ((IN - OUT) + len) by lia. rewrite elems_app by (first [apply S | lia]). do 2 f_equal. unfold elems. cbn. f_equal. lia.
Qed.

Lemma copy_out_keeps m f w sent got buf len m' : kfifo_copy_out m f buf len (f_out f) = Some m' ->
  sys_ok (Sys m f w (RCopy buf len) sent got) -> sys_ok (Sys m' f w (RPublish len (rd m' buf (len * f_esize f))) sent got).
Proof.
  intros E [(IN & OUT & S & HW & [Hl [HB HD]]) Hst]. cbn in *. pose proof (sh_len _ _ _ _ S) as HL.
  rewrite (sh_out _ _ _ _ S), (copy_out_ok _ _ _ _ S) in E by (done || (split; lia)). injection E as <-. pose proof (sh_esize _ _ _ _ S) as He.
  assert (blen (elems m f OUT len) = len * f_esize f) as Hb by (apply blen_elems; [done|lia]).
  rewrite rd_wr_same by (rewrite ?Hb; done). apply (keep_ok m); [apply same_at_wr; by rewrite Hb|]. split; [|done]. by exists IN, OUT.
Qed.

Lemma release_keeps m f w sent got len b : sys_ok (Sys m f w (RPublish len b) sent got) ->
  sys_ok (Sys m (set_out f (u32 (f_out f + len))) w RIdle sent (got ++ b)).
Proof.
  intros [(IN & OUT & S & HW & [Hl HE]) Hst]. cbn in *. pose proof (sh_len _ _ _ _ S) as HL. pose proof (shaped_out _ _ _ _ _ S Hl) as S'. split; cbn.
  - exists IN, (OUT + len). split; [done|]. split; [|done]. destruct w as [|bf l|l bf]; cbn in *; unfold cap in *; cbn; [done|..]; (split; [lia|tauto]).
  - rewrite (bytes_shaped _ _ _ _ S'), Hst, (bytes_shaped _ _ _ _ S), <- app_assoc. f_equal. rewrite <- HE.
    replace (IN - OUT) with (len + (IN - (OUT + len))) by lia. by rewrite elems_app by (first [apply S | lia]).
Qed.

Lemma step_ok y y' : step y y' -> sys_ok y -> sys_ok y'.
Proof.
  intros [m f r sent got buf len l Hlen HB|m f r sent got buf len m' E|m f r sent got len b|m f w sent got buf len l Hlen HB|m f w sent got buf len m' E
         |m f w sent got len b|m m' f w r sent got Hs];
    [|by apply copy_in_keeps|by apply publish_keeps| |by apply copy_out_keeps|by apply release_keeps|by apply keep_ok];
    intros [(IN & OUT & S & HW & HR) Hst]; cbn in *; (split; [|done]); exists IN, OUT; (split; [done|]); pose proof (sh_len _ _ _ _ S).
  - split; [|done]. cbn [y_mem y_fifo y_writer y_reader writer_ok reader_ok]. split; [|done]. subst l. rewrite (unused_ok _ _ _ _ S) in *. destruct (Z.ltb_spec (cap f - (IN - OUT)) len); lia.
  - split; [done|]. cbn [y_mem y_fifo y_writer y_reader writer_ok reader_ok]. split; [|done]. subst l. unfold kfifo_len in *. rewrite (len_ok _ _ _ _ S) in *. destruct (Z.ltb_spec (IN - OUT) len); lia.
Qed.

Lemma system_steps_ok y y' : rtc step y y' -> sys_ok y -> sys_ok y'.
Proof. induction 1; eauto using step_ok. Qed.

(** A copy that is due does not fail. *)
Definition copies_defined (y : sys) : Prop :=
  match y_writer y with WCopy buf len => is_Some (kfifo_copy_in (y_mem y) (y_fifo y) buf len (f_in (y_fifo y))) | _ => True end /\
  match y_reader y with RCopy buf len => is_Some (kfifo_copy_out (y_mem y) (y_fifo y) buf len (f_out (y_fifo y))) | _ => True end.

Lemma sys_copies_defined y : sys_ok y -> copies_defined y.
Proof.
  intros [(IN & OUT & S & HW & HR) _]. pose proof (sh_len _ _ _ _ S). split.
  - destruct (y_writer y) as [|buf len|]; [done| |done]. destruct HW as [Hl [HB HD]]. rewrite (sh_in _ _ _ _ S), (copy_in_ok _ _ _ _ S) by (done || lia). done.
  - destruct (y_reader y) as [|buf len|]; [done| |done]. destruct HR as [Hl [HB HD]]. rewrite (sh_out _ _ _ _ S), (copy_out_ok _ _ _ _ S) by (done || lia). done.
Qed.

(** A queue of four elements of two bytes whose counters are about to wrap
    around: two elements are in it. *)
Definition example_fifo : kfifo := Kfifo 1 (2 ^ 32 - 1) 3 2 0.
Definition example_mem : mem := map (fun i => Z.of_nat i + 100) (seq 0 24).

Lemma example_shaped : shaped example_mem example_fifo (2 ^ 32 + 1) (2 ^ 32 - 1).
Proof.
  split; [by exists 2|done|done|done|done|unfold cap; cbn; lia|]. unfold in_mem, nbytes, cap, blen. cbn. lia.
Qed.
Lemma example_buffer b l : 8 <= b -> 0 <= l -> b + 2 * l <= 24 -> user_buffer example_mem example_fifo b l.
Proof. intros Hb Hl Hbl. unfold user_buffer, in_mem, disjoint, nbytes, cap, blen. cbn. lia. Qed.

(** C6: one reader and one writer that call [__kfifo_in] and [__kfifo_out] at
    the same time, without a lock and for any interleaving, never lose, repeat
    or reorder a byte: what was sent is what was received followed by what is in
    the queue, which never holds more than its size; and no copy ever leaves the
    buffer or a caller's memory.  The counters may wrap around at any time. *)
Theorem kfifo_lockless m f IN OUT y : shaped m f IN OUT ->
  rtc step (Sys m f WIdle RIdle (kfifo_bytes m f) []) y ->
  y_sent y = y_got y ++ kfifo_bytes (y_mem y) (y_fifo y) /\ 0 <= kfifo_len (y_fifo y) <= kfifo_size (y_fifo y) /\ copies_defined y.
Proof.
  intros S Hr. assert (sys_ok y) as H by (apply (system_steps_ok _ _ Hr); split; [exists IN, OUT; done|done]).
  split; [apply H|]. split; [|by apply sys_copies_defined]. destruct H as [(IN' & OUT' & S' & _) _].
  unfold kfifo_len, kfifo_size. rewrite (len_ok _ _ _ _ S'), u32_small; [apply S'|]. destruct (shaped_bounds _ _ _ _ S') as (Hc & _). unfold cap, is_u32 in *. lia.
Qed.

Lemma kfifo_lockless_witness : let y := Sys example_mem example_fifo (WCopy 10 1) (RCopy 12 2) (kfifo_bytes example_mem example_fifo) [] in
  y_sent y = y_got y ++ kfifo_bytes (y_mem y) (y_fifo y) /\ 0 <= kfifo_len (y_fifo y) <= kfifo_size (y_fifo y) /\ copies_defined y.
Proof.
  intros y. apply (kfifo_lockless example_mem example_fifo (2 ^ 32 + 1) (2 ^ 32 - 1) y); [exact example_shaped|].
  apply (rtc_l _ _ (Sys example_mem example_fifo (WCopy 10 1) RIdle (kfifo_bytes example_mem example_fifo) [])).
  - refine (step_write example_mem example_fifo RIdle _ _ 10 1 _ _); [lia|]. apply (example_buffer 10 1); lia.
  - apply rtc_once. refine (step_read example_mem example_fifo (WCopy 10 1) _ _ 12 5 _ _); [lia|]. apply (example_buffer 12 2); lia.
Defined.

(** ** One call after another *)

Section calls.
Context (m : mem) (f : kfifo) (IN OUT : Z) (S : shaped m f IN OUT).

Lemma bytes_len : blen (kfifo_bytes m f) = kfifo_len f * f_esize f.
Proof using S.
  rewrite (bytes_shaped _ _ _ _ S). pose proof (sh_len _ _ _ _ S). unfold kfifo_len. rewrite (len_ok _ _ _ _ S). apply blen_elems; [apply S|lia].
Qed.

Lemma kfifo_in_ok buf len : let l := if kfifo_unused f <? len then kfifo_unused f else len in 0 <= len -> user_buffer m f buf l ->
  exists m' f', __kfifo_in m f buf len = Some (m', f', l) /\ shaped m' f' (IN + l) OUT /\
    kfifo_bytes m' f' = kfifo_bytes m f ++ rd m buf (l * f_esize f) /\ same_but (f_data f) (nbytes f) m m'.
Proof using S.
  intros l Hlen [HB HD]. pose proof (sh_len _ _ _ _ S) as HL. unfold __kfifo_in. fold l. assert (0 <= l <= cap f - (IN - OUT)) as Hl.
  { subst l. rewrite (unused_ok _ _ _ _ S). destruct (Z.ltb_spec (cap f - (IN - OUT)) len); lia. }
  rewrite (sh_in _ _ _ _ S), (copy_in_ok _ _ _ _ S), bind_Some_eq by (done || lia). rewrite <- (sh_in _ _ _ _ S). pose proof (blen_rd _ _ _ HB) as Hb.
  do 2 eexists. split; [reflexivity|]. pose proof (write_blen _ _ _ _ S _ _ Hl Hb) as Hbl. pose proof (shaped_in _ _ _ _ _ (shaped_mem _ _ _ _ _ Hbl S) Hl) as S'.
  split; [exact S'|]. split; [|apply (write_outside _ _ _ _ S _ _ Hl Hb)]. rewrite (bytes_shaped _ _ _ _ S'), (bytes_shaped _ _ _ _ S).
  replace (IN + l - OUT) with ((IN - OUT) + l) by lia. rewrite elems_app by (first [apply S | lia]). f_equal.
  - by apply (write_old _ _ _ _ S _ _ Hl Hb); lia.
  - replace (OUT + (IN - OUT)) with IN by lia. apply (write_new _ _ _ _ S _ _ Hl Hb).
Qed.

Lemma kfifo_peek_ok buf len : let l := if kfifo_len f <? len then kfifo_len f else len in 0 <= len -> user_buffer m f buf l ->
  __kfifo_out_peek m f buf len = Some (wr m buf (rd (kfifo_bytes m f) 0 (l * f_esize f)), l) /\ 0 <= l <= IN - OUT /\
  elems m f OUT l = rd (kfifo_bytes m f) 0 (l * f_esize f) /\
  elems m f (OUT + l) (IN - OUT - l) = rd (kfifo_bytes m f) (l * f_esize f) (blen (kfifo_bytes m f) - l * f_esize f).
Proof using S.
  intros l Hlen [HB HD]. pose proof (sh_len _ _ _ _ S) as HL. pose proof (sh_esize _ _ _ _ S) as He. unfold __kfifo_out_peek.
  pose proof (len_ok _ _ _ _ S) as EL. assert (0 <= l <= IN - OUT) as Hl by (subst l; unfold kfifo_len; rewrite EL; destruct (Z.ltb_spec (IN - OUT) len); lia).
  unfold kfifo_len in l. fold l. rewrite (sh_out _ _ _ _ S), (copy_out_ok _ _ _ _ S), bind_Some_eq by (done || lia).
  assert (kfifo_bytes m f = elems m f OUT l ++ elems m f (OUT + l) (IN - OUT - l)) as E.
  { rewrite (bytes_shaped _ _ _ _ S). rewrite <- elems_app by lia. f_equal. lia. }
  assert (blen (elems m f OUT l) = l * f_esize f) as B1 by (apply blen_elems; lia).
  assert (blen (elems m f (OUT + l) (IN - OUT - l)) = (IN - OUT - l) * f_esize f) as B2 by (apply blen_elems; lia).
  assert (elems m f OUT l = rd (kfifo_bytes m f) 0 (l * f_esize f)) as E1.
  { rewrite E. unfold rd. rewrite drop_0, take_app_le, take_ge; [done|..]; unfold blen in B1; lia. }
  split; [by rewrite <- E1|]. split; [done|]. split; [done|]. rewrite E, blen_app, B1, B2. unfold rd. rewrite drop_app_ge by (unfold blen in B1; lia).
  replace (Z.to_nat (l * f_esize f) - length (elems m f OUT l))%nat with 0%nat by (unfold blen in B1; lia). rewrite drop_0, take_ge; [done|]. unfold blen in B2. lia.
Qed.
End calls.

Lemma min_if a b : (if a <? b then a else b) = Z.min a b.
Proof. destruct (Z.ltb_spec a b); lia. Qed.

(** C13: [__kfifo_in] appends as many elements as there is room for,
    [__kfifo_out_peek] copies the oldest ones out and [__kfifo_out] also removes
    them; nothing outside the buffer, or the caller's memory, is written. *)
Theorem kfifo_in_out_correct m f IN OUT buf len : shaped m f IN OUT -> 0 <= len ->
  (let l := Z.min (kfifo_unused f) len in user_buffer m f buf l ->
   exists m' f', __kfifo_in m f buf len = Some (m', f', l) /\ shaped m' f' (IN + l) OUT /\
     kfifo_bytes m' f' = kfifo_bytes m f ++ rd m buf (l * f_esize f) /\ same_but (f_data f) (nbytes f) m m') /\
  (let l := Z.min (kfifo_len f) len in let n := l * f_esize f in let q := kfifo_bytes m f in user_buffer m f buf l ->
   __kfifo_out_peek m f buf len = Some (wr m buf (rd q 0 n), l) /\
   exists f', __kfifo_out m f buf len = Some (wr m buf (rd q 0 n), f', l) /\ shaped (wr m buf (rd q 0 n)) f' IN (OUT + l) /\
     kfifo_bytes (wr m buf (rd q 0 n)) f' = rd q n (blen q - n)).
Proof.
  intros S Hlen. split.
  - rewrite <- min_if. intros l HB. by apply (kfifo_in_ok m f IN OUT S).
  - rewrite <- min_if. intros l n q HB. destruct (kfifo_peek_ok m f IN OUT S buf len Hlen HB) as (E & Hl & E1 & E2). fold l n q in E, Hl, E1, E2.
    split; [done|]. unfold __kfifo_out. rewrite E, bind_Some_eq. eexists. split; [reflexivity|]. destruct HB as [HB HD].
    assert (blen (rd q 0 n) = n) as B by (rewrite <- E1; apply blen_elems; [apply S|lia]).
    assert (same_at (f_data f) (nbytes f) m (wr m buf (rd q 0 n))) as HS by (apply same_at_wr; by rewrite B).
    pose proof (shaped_mem _ _ _ _ _ (proj1 HS) S) as S1. pose proof (shaped_out _ _ _ _ _ S1 Hl) as S2. split; [done|].
    rewrite (bytes_shaped _ _ _ _ S2), <- E2. replace (IN - (OUT + l)) with (IN - OUT - l) by lia. by apply (elems_same _ _ f IN OUT); [| |lia].
Qed.

Lemma kfifo_in_out_correct_witness : exists m' f', __kfifo_in example_mem example_fifo 10 3 = Some (m', f', 2) /\ shaped m' f' (2 ^ 32 + 3) (2 ^ 32 - 1) /\
  kfifo_bytes m' f' = [106; 107; 100; 101; 110; 111; 112; 113] /\ same_but 0 8 example_mem m'.
Proof.
  destruct (kfifo_in_out_correct example_mem example_fifo (2 ^ 32 + 1) (2 ^ 32 - 1) 10 3) as [H _]; [exact example_shaped|lia|].
  apply H. apply (example_buffer 10 2); lia.
Defined.

(** A call is one run of the steps that the other side can see. *)
Lemma kfifo_in_steps m f r sent got buf len m' f' l : 0 <= len -> user_buffer m f buf (Z.min (kfifo_unused f) len) ->
  __kfifo_in m f buf len = Some (m', f', l) ->
  rtc step (Sys m f WIdle r sent got) (Sys m' f' WIdle r (sent ++ rd m buf (l * f_esize f)) got).
Proof.
  unfold __kfifo_in. intros Hlen HB E. apply bind_Some in E as (m1 & E1 & E). injection E as <- <- <-. rewrite <- min_if in HB.
  eapply rtc_l; [by apply (step_write _ _ _ _ _ buf len)|]. eapply rtc_l; [by apply step_copy_in|]. eapply rtc_once, step_publish.
Qed.
Lemma kfifo_out_steps m f w sent got buf len m' f' l : 0 <= len -> user_buffer m f buf (Z.min (kfifo_len f) len) ->
  __kfifo_out m f buf len = Some (m', f', l) ->
  rtc step (Sys m f w RIdle sent got) (Sys m' f' w RIdle sent (got ++ rd m' buf (l * f_esize f))).
Proof.
  unfold __kfifo_out, __kfifo_out_peek. intros Hlen HB E. apply bind_Some in E as ([m1 l1] & E1 & E). apply bind_Some in E1 as (m2 & E1 & E2).
  injection E2 as <- <-. injection E as <- <- <-. rewrite <- min_if in HB.
  eapply rtc_l; [by apply (step_read _ _ _ _ _ buf len)|]. eapply rtc_l; [by apply step_copy_out|]. eapply rtc_once, step_release.
Qed.

(** The macros for one element are the calls with the length 1: one element
    never wraps around. *)
Lemma one_in_place m f IN OUT X : shaped m f IN OUT -> f_data f + (u32 X .& f_mask f) * f_esize f = f_data f + (X * f_esize f) mod nbytes f /\
  (X * f_esize f) mod nbytes f + f_esize f <= nbytes f.
Proof.
  intros S. destruct (shaped_bounds _ _ _ _ S) as (Hc & Hn & He & _). rewrite (counter_mod _ _ _ _ S). unfold nbytes. rewrite Z.mul_mod_distr_r by lia.
  pose proof (Z.mod_pos_bound X (cap f) ltac:(lia)). split; [done|]. nia.
Qed.

Lemma kfifo_put_is_in m f IN OUT val : shaped m f IN OUT -> user_buffer m f val 1 -> kfifo_put m f val 0 = __kfifo_in m f val 1.
Proof.
  intros S [HB HD]. destruct (shaped_bounds _ _ _ _ S) as (Hc & Hn & He & Hb). pose proof (sh_len _ _ _ _ S) as HL. pose proof (sh_mem _ _ _ _ S) as Hm.
  unfold kfifo_put. change (truthy 0) with false. cbn iota. unfold kfifo_is_full, kfifo_len, __kfifo_in. rewrite (len_ok _ _ _ _ S), (unused_ok _ _ _ _ S).
  rewrite (sh_in _ _ _ _ S). unfold cap in *. destruct (Z.ltb_spec (f_mask f) (IN - OUT)) as [Hfull|Hfull]; cbn [negb].
  - assert (f_mask f + 1 - (IN - OUT) = 0) as -> by lia. change (0 <? 1) with true. cbn iota. unfold in_mem, disjoint in *.
    rewrite (copy_in_ok _ _ _ _ S), bind_Some_eq by (unfold cap, in_mem, disjoint; lia). rewrite rd_0, (wring_nil _ _ _ _ S), Z.add_0_r, u32_small by apply u32_range.
    rewrite <- (sh_in _ _ _ _ S). by destruct f.
  - rewrite (proj2 (Z.ltb_ge (f_mask f + 1 - (IN - OUT)) 1)) by lia. rewrite (copy_in_ok _ _ _ _ S), bind_Some_eq by (unfold cap; first [done | lia]).
    destruct (one_in_place _ _ _ _ IN S) as [-> Hone]. rewrite Z.mul_1_l in *. pose proof (blen_rd _ _ _ HB) as Bb. unfold in_mem, disjoint in *.
    pose proof (Z.mod_pos_bound (IN * f_esize f) (nbytes f) Hn). rewrite memcpy_ok, bind_Some_eq by (unfold in_mem; lia).
    by rewrite (wring_one _ _ _ _ S) by lia.
Qed.

Lemma kfifo_get_is_out m f IN OUT val : shaped m f IN OUT -> user_buffer m f val 1 -> kfifo_get m f val 0 = __kfifo_out m f val 1.
Proof.
  intros S [HB HD]. destruct (shaped_bounds _ _ _ _ S) as (Hc & Hn & He & Hb). pose proof (sh_len _ _ _ _ S) as HL. pose proof (sh_mem _ _ _ _ S) as Hm.
  unfold kfifo_get. change (truthy 0) with false. cbn iota. unfold __kfifo_out, __kfifo_out_peek. rewrite (len_ok _ _ _ _ S).
  assert (kfifo_is_empty f = (IN - OUT =? 0)) as ->.
  { unfold kfifo_is_empty. rewrite <- (len_ok _ _ _ _ S). destruct (Z.eqb_spec (f_in f) (f_out f)) as [->|Hne]; [by rewrite Z.sub_diag|].
    symmetry. apply Z.eqb_neq. intros E0. apply Hne. rewrite (len_ok _ _ _ _ S) in E0. rewrite (sh_in _ _ _ _ S), (sh_out _ _ _ _ S). f_equal. lia. }
  rewrite (sh_out _ _ _ _ S). destruct (Z.eqb_spec (IN - OUT) 0) as [E0|E0]; cbn [negb].
  - rewrite E0. change (0 <? 1) with true. cbn iota. unfold in_mem, disjoint in *.
    rewrite (copy_out_ok _ _ _ _ S), !bind_Some_eq by (unfold in_mem, disjoint; lia). rewrite elems_0, wr_nil, Z.add_0_r, u32_small by (first [apply u32_range | unfold in_mem; lia]).
    rewrite <- (sh_out _ _ _ _ S). by destruct f.
  - rewrite (proj2 (Z.ltb_ge (IN - OUT) 1)) by lia. rewrite (copy_out_ok _ _ _ _ S), !bind_Some_eq by (first [done | lia]).
    destruct (one_in_place _ _ _ _ OUT S) as [-> Hone]. rewrite (elems_pieces _ _ _ _ S) by lia. rewrite Z.mul_1_l in *. unfold in_mem, disjoint in *.
    pose proof (Z.mod_pos_bound (OUT * f_esize f) (nbytes f) Hn). rewrite memcpy_ok, bind_Some_eq by (unfold in_mem; lia).
    rewrite Z.min_l, Z.sub_diag, rd_0, app_nil_r by lia. done.
Qed.

(** ** Set up *)

Lemma fls_log2 n : is_u32 n -> n <> 0 -> __fls n = Z.log2 n.
Proof.
  intros Hu Hn. destruct (__fls_spec n Hu Hn) as (H1 & H2 & H3). unfold is_u32 in Hu. assert (0 < n) as Hp by lia.
  assert (Z.log2 n < 32) by (apply Z.log2_lt_pow2; lia). pose proof (Z.bit_log2 n Hp) as Hb.
  destruct (Z.lt_trichotomy (__fls n) (Z.log2 n)) as [Hlt|[Heq|Hgt]]; [|done|].
  - rewrite H3 in Hb by lia. done.
  - rewrite Z.bits_above_log2 in H2 by lia. done.
Qed.

Lemma rounddown_ok n : is_u32 n -> n <> 0 -> rounddown_pow_of_two n = Some (2 ^ Z.log2 n).
Proof.
  intros Hu Hn. unfold rounddown_pow_of_two, fls_long. rewrite (proj2 (Z.eqb_neq n 0)) by done. rewrite fls_fls by done.
  rewrite fls_log2 by done. f_equal. unfold is_u32 in Hu. pose proof (Z.log2_nonneg n). assert (Z.log2 n < 32) by (apply Z.log2_lt_pow2; lia).
  replace (Z.log2 n + 1 - 1) with (Z.log2 n) by lia. unfold shl32, u32. rewrite Z.shiftl_1_l. apply Z.mod_small.
  split; [apply Z.pow_nonneg; lia|apply Z.pow_lt_mono_r; lia].
Qed.

Lemma power_of_2_ok n : is_u32 n -> is_power_of_2 n = true -> n = 2 ^ Z.log2 n.
Proof.
  unfold is_power_of_2. intros Hu H. apply andb_prop in H as [Hn H]. apply negb_true_iff, Z.eqb_neq in Hn. apply Z.eqb_eq in H. unfold is_u32 in Hu.
  rewrite u32_small in H by (unfold is_u32; lia). pose proof (Z.log2_spec n ltac:(lia)) as [H1 H2]. destruct (Z.eq_dec n (2 ^ Z.log2 n)) as [|Hne]; [done|].
  assert (Z.log2 (n - 1) = Z.log2 n) as E by (apply Z.log2_unique; [apply Z.log2_nonneg|lia]). apply (f_equal (fun x => Z.testbit x (Z.log2 n))) in H.
  rewrite Z.land_spec, Z.bits_0, Z.bit_log2 in H by lia. rewrite <- E, Z.bit_log2 in H; [done|].
  assert (0 < 2 ^ Z.log2 n) by (apply Z.pow_pos_nonneg; [lia|apply Z.log2_nonneg]). lia.
Qed.

Lemma round_pow_ok n : is_u32 n -> n <> 0 -> (if is_power_of_2 n then Some n else rounddown_pow_of_two n) = Some (2 ^ Z.log2 n).
Proof. intros Hu Hn. destruct (is_power_of_2 n) eqn:E; [|by apply rounddown_ok]. f_equal. by apply power_of_2_ok. Qed.

(** [__kfifo_alloc] makes an empty queue of the largest power of two of
    elements that is not above the size asked for, unless that is less than two
    or there is no memory; [__kfifo_init] the same in a given buffer. *)
Theorem kfifo_setup_correct kmalloc m size esize buffer : 0 < size -> 0 < esize -> size * esize < 2 ^ 32 ->
  let n := 2 ^ Z.log2 size in let p := kmalloc (n * esize) in
  (exists f, __kfifo_alloc kmalloc size esize = Some (f, if size <? 2 then - EINVAL else if p =? 0 then - ENOMEM else 0) /\
     (2 <= size -> p <> 0 -> in_mem m p (n * esize) -> kfifo_size f = n /\ shaped m f 0 0 /\ kfifo_bytes m f = [])) /\
  (exists f, __kfifo_init buffer (size * esize) esize = Some (f, if size <? 2 then - EINVAL else 0) /\
     (2 <= size -> in_mem m buffer (n * esize) -> kfifo_size f = n /\ shaped m f 0 0 /\ kfifo_bytes m f = [])).
Proof.
  intros Hs' He Hb' n p. assert (0 < size < 2 ^ 32) as Hs by nia. assert (0 <= Z.log2 size <= 31) as Hk.
  { split; [apply Z.log2_nonneg|]. assert (Z.log2 size < 32); [apply Z.log2_lt_pow2; lia|lia]. }
  assert (2 ^ Z.log2 size <= size) as Hle by (apply Z.log2_spec; lia). assert (2 ^ Z.log2 size * esize < 2 ^ 32) as Hb by nia.
  assert (n <= 2 ^ 31) as Hn31 by (apply Z.pow_le_mono_r; lia).
  assert ((size <? 2) = (n <? 2)) as E2.
  { destruct (Z.ltb_spec size 2), (Z.ltb_spec n 2) as [H1|H1]; try done; [subst n; lia|].
    assert (2 ^ 1 <= 2 ^ Z.log2 size); [|subst n; lia]. apply Z.pow_le_mono_r; [lia|]. apply Z.log2_le_pow2; lia. }
  assert (forall q, 2 <= size -> in_mem m q (n * esize) -> let f := Kfifo 0 0 (n - 1) esize q in kfifo_size f = n /\ shaped m f 0 0 /\ kfifo_bytes m f = []) as OK.
  { intros q H2 Hq f. assert (2 <= n) as Hn2 by (destruct (Z.ltb_spec size 2), (Z.ltb_spec n 2); lia). split.
    - unfold kfifo_size. cbn. replace (n - 1 + 1) with n by lia. apply u32_small. unfold is_u32. lia.
    - assert (shaped m f 0 0) as S; [|split; [done|by rewrite (bytes_shaped _ _ _ _ S)]].
      split; unfold nbytes, cap; cbn; try done; replace (n - 1 + 1) with n by lia; try done; [by exists (Z.log2 size)|lia]. }
  rewrite E2. split.
  - unfold __kfifo_alloc. rewrite round_pow_ok, bind_Some_eq by (unfold is_u32; lia). fold n. rewrite u32_small by (unfold is_u32; nia). fold p. unfold truthy.
    destruct (Z.ltb_spec n 2) as [Hn|Hn]; [|destruct (Z.eqb_spec p 0) as [Hp|Hp]]; cbn [negb]; (eexists; split; [reflexivity|]); intros H2 Hp' Hm; [|done|by apply OK].
    destruct (Z.ltb_spec size 2); [lia|done].
  - unfold __kfifo_init. rewrite (proj2 (Z.eqb_neq esize 0)) by lia. rewrite bind_Some_eq, Z.div_mul, round_pow_ok, bind_Some_eq by (unfold is_u32; lia). fold n.
    destruct (Z.ltb_spec n 2) as [Hn|Hn]; (eexists; split; [reflexivity|]); intros H2 Hm; [|by apply OK]. destruct (Z.ltb_spec size 2); [lia|done].
Qed.

Lemma kfifo_setup_correct_witness :
  (exists f, __kfifo_alloc (fun _ => 4) 5 2 = Some (f, 0) /\ kfifo_size f = 4 /\ shaped example_mem f 0 0 /\ kfifo_bytes example_mem f = []) /\
  (exists f, __kfifo_init 1 10 2 = Some (f, 0)).
Proof.
  destruct (kfifo_setup_correct (fun _ => 4) example_mem 5 2 1) as [(f & E & H) (g & E' & _)]; [lia..|]. split; [|by exists g].
  exists f. split; [exact E|]. apply H; [lia|done|]. unfold in_mem, blen. cbn. lia.
Defined.
