(* ===== verification/KfifoRecords.v ===== *)
(** * Ring buffers: records

    A queue of records holds each record with its length in front, in one or
    two bytes. *)

From stdpp Require Import list_numbers.
From S2P Require Import Prelude Bytes Mem Bitops LibString LibStringCorrect Kfifo KfifoCorrect KfifoTheorems.
Open Scope c_scope.

Section records.
Context (recsize : Z) (Hrec : recsize = 1 \/ recsize = 2).

(** The length in front of a record, and the record with it. *)
Definition len_bytes (n : Z) : list Z := if recsize =? 1 then [n mod 256] else [n mod 256; n / 256 mod 256].
Definition rec_bytes (r : list Z) : list Z := len_bytes (blen r) ++ r.
Definition rec_max : Z := 2 ^ (8 * recsize).

Lemma blen_len_bytes n : blen (len_bytes n) = recsize.
Proof using Hrec. unfold len_bytes. by destruct Hrec as [-> | ->]. Qed.

(** ** Writing piece by piece *)

Lemma zth_app a b i : 0 <= i < blen a + blen b -> zth (a ++ b) i = if i <? blen a then zth a i else zth b (i - blen a).
Proof using. intros Hi. unfold zth. rewrite arr_get_app. by destruct (i <? blen a). Qed.

Lemma wring_app d N m i a b : 0 < N -> in_mem m d N -> blen a + blen b <= N ->
  wring d N (wring d N m i a) (i + blen a) b = wring d N m i (a ++ b).
Proof using.
  intros HN Hm Hab. pose proof (blen_nonneg a). pose proof (blen_nonneg b). assert (in_mem (wring d N m i a) d N) as Hm1 by (unfold in_mem in *; rewrite blen_wring; [done|done| |]; unfold in_mem; lia).
  assert (blen (wring d N m i (a ++ b)) = blen m) as B0 by (apply blen_wring; [done|done|rewrite blen_app; lia]).
  assert (blen (wring d N m i a) = blen m) as B1 by (apply blen_wring; [done|done|lia]).
  assert (blen (wring d N (wring d N m i a) (i + blen a) b) = blen m) as B2 by (rewrite blen_wring; [done|done|done|lia]).
  apply mem_ext; [congruence|]. rewrite B2. intros p Hp. destruct (decide (d <= p < d + N)) as [Hin|Hout].
  - rewrite !arr_get_zth by (unfold blen in *; lia). f_equal. replace p with (d + (p - d)) by lia. set (x := p - d) in *.
    rewrite !wring_in by (rewrite ?blen_app; first [done | lia]). rewrite blen_app.
    assert ((x - (i + blen a)) mod N = if (x - i) mod N <? blen a then (x - i) mod N - blen a + N else (x - i) mod N - blen a) as E.
    { replace (x - (i + blen a)) with ((x - i) - blen a) by lia. rewrite <- Zminus_mod_idemp_l. pose proof (Z.mod_pos_bound (x - i) N HN).
      destruct (Z.ltb_spec ((x - i) mod N) (blen a)); [rewrite <- (Z.mod_add _ 1 N), Z.mod_small by lia; lia|rewrite Z.mod_small by lia; lia]. }
    rewrite E. set (y := (x - i) mod N) in *. pose proof (Z.mod_pos_bound (x - i) N HN) as Hy. fold y in Hy. destruct (Z.ltb_spec y (blen a)) as [H1|H1].
    + rewrite (proj2 (Z.ltb_ge _ _)) by lia. rewrite (proj2 (Z.ltb_lt _ _)) by lia. rewrite zth_app by lia. by rewrite (proj2 (Z.ltb_lt _ _)) by lia.
    + destruct (Z.ltb_spec (y - blen a) (blen b)) as [H2|H2].
      * rewrite (proj2 (Z.ltb_lt _ _)) by lia. rewrite zth_app by lia. by rewrite (proj2 (Z.ltb_ge y _)) by lia.
      * by rewrite (proj2 (Z.ltb_ge _ _)) by lia.
  - rewrite !wring_out by (rewrite ?blen_app; first [done | lia]). done.
Qed.

Lemma poke_wring d N m X v : 0 < N -> in_mem m d N -> arr_set m (d + X mod N) v = Some (wring d N m X [v]).
Proof using.
  intros HN Hm. pose proof (Z.mod_pos_bound X N HN). unfold in_mem in Hm. rewrite arr_set_wr by (unfold in_mem; lia). f_equal. unfold wring.
  replace (Z.min (blen [v]) (N - X mod N)) with 1 by (change (blen [v]) with 1; lia). change (rd [v] 0 1) with [v]. change (rd [v] 1 (blen [v] - 1)) with (@nil Z).
  rewrite wr_nil; [done|]. change (blen [v]) with 1 in *. rewrite in_mem_wr; unfold in_mem; change (blen [v]) with 1; lia.
Qed.

Lemma rd_wring d N m i b p n : 0 < N -> in_mem m d N -> blen b <= N -> in_mem m p n -> disjoint p n d N -> rd (wring d N m i b) p n = rd m p n.
Proof using.
  intros HN Hm Hb Hp Hd. assert (in_mem (wring d N m i b) p n) as Hp' by (unfold in_mem in *; rewrite blen_wring; done).
  apply mem_ext; [by rewrite !blen_rd|]. rewrite blen_rd by done. intros j Hj. rewrite !arr_get_rd by done. apply wring_out; [done|done|done|].
  unfold disjoint in Hd. lia.
Qed.

Lemma low_byte a b : 0 <= a < 256 -> 0 <= b < 256 -> a .| (b .<< 8) = a + b * 256.
Proof using.
  intros Ha Hb. unfold shl32, u32. rewrite Z.shiftl_mul_pow2, Z.mod_small by lia. change (2 ^ 8) with 256.
  pose proof (Z.add_lor_land a (b * 256)) as E. assert (Z.land a (b * 256) = 0) as E0; [|lia].
  rewrite <- (Z.mod_small a (2 ^ 8)), <- Z.land_ones, <- Z.land_assoc, (Z.land_comm (Z.ones 8)), Z.land_ones by lia.
  change (2 ^ 8) with 256. rewrite Z.mod_mul by lia. apply Z.land_0_r.
Qed.

(** Byte queues. *)
Section queue.
Context (m : mem) (f : kfifo) (IN OUT : Z) (S : shaped m f IN OUT) (E1 : f_esize f = 1).
Local Abbreviation d := (f_data f).
Local Abbreviation N := (nbytes f).

Lemma byte_queue : N = cap f /\ 0 < N <= 2 ^ 31 /\ in_mem m d N.
Proof using S E1.
  destruct (shaped_bounds _ _ _ _ S) as (H1 & H2 & _ & H4). pose proof (sh_mem _ _ _ _ S) as H5. unfold nbytes in *. rewrite E1, Z.mul_1_r in H2, H4, H5 |- *.
  split; [done|]. split; [lia|done].
Qed.

Lemma counter_add X k : u32 (u32 X + k) = u32 (X + k).
Proof using. unfold u32. apply Zplus_mod_idemp_l. Qed.

Lemma poke_ok n : 0 <= n -> recsize <= N -> __kfifo_poke_n m f n recsize = Some (wring d N m IN (len_bytes n)).
Proof using All.
  intros Hn HrN. destruct byte_queue as (EN & HN & Hm). unfold __kfifo_poke_n, __KFIFO_POKE, len_bytes. rewrite (sh_in _ _ _ _ S), !counter_add.
  rewrite !(counter_mod _ _ _ _ S), <- EN.
  assert (forall x, 0 <= x -> x .& 0xff = x mod 256) as L8 by (intros; change 0xff with (Z.ones 8); by rewrite Z.land_ones).
  rewrite (L8 n), poke_wring, bind_Some_eq by (done || lia). destruct Hrec as [->| ->]; cbn [Z.ltb Z.eqb Z.compare Pos.compare Pos.compare_cont Pos.eqb]; [done|].
  assert (in_mem (wring d N m IN [n mod 256]) d N) as Hm1 by (unfold in_mem in *; rewrite blen_wring; [done|lia|unfold in_mem; lia|change (blen [n mod 256]) with 1; lia]).
  rewrite Z.shiftr_div_pow2 by lia. change (2 ^ 8) with 256. rewrite (L8 (n / 256)) by (apply Z.div_pos; lia). rewrite poke_wring by (done || lia). f_equal.
  apply (wring_app d N m IN [n mod 256] [n / 256 mod 256]); [lia|done|]. change (1 + 1 <= N). lia.
Qed.

Lemma in_r_ok buf len : 0 <= len -> len + recsize < 2 ^ 32 -> user_buffer m f buf len ->
  let fits := len + recsize <=? kfifo_unused f in
  exists m' f', __kfifo_in_r m f buf len recsize = Some (m', f', if fits then len else 0) /\
    shaped m' f' (if fits then IN + (len + recsize) else IN) OUT /\ f_esize f' = 1 /\
    kfifo_bytes m' f' = kfifo_bytes m f ++ (if fits then len_bytes len ++ rd m buf len else []) /\ same_but d N m m'.
Proof using All.
  intros Hlen Hov [HB HD] fits. rewrite E1, Z.mul_1_r in HB, HD. destruct byte_queue as (EN & HN & Hm). unfold __kfifo_in_r.
  rewrite u32_small by (unfold is_u32; lia). unfold fits. rewrite Z.leb_antisym. pose proof (unused_ok _ _ _ _ S) as EU. pose proof (sh_len _ _ _ _ S) as HL.
  destruct (Z.ltb_spec (kfifo_unused f) (len + recsize)) as [Hno|Hyes]; cbn [negb].
  - exists m, f. split; [done|]. split; [done|]. split; [done|]. split; [by rewrite app_nil_r|done].
  - rewrite poke_ok, bind_Some_eq by lia. pose proof (blen_len_bytes len) as B0. pose proof (blen_rd _ _ _ HB) as B1.
    set (m1 := wring d N m IN (len_bytes len)). assert (blen m1 = blen m) as Bm by (apply blen_wring; [lia|done|lia]).
    pose proof (shaped_mem _ _ _ _ _ Bm S) as S1. rewrite (sh_in _ _ _ _ S), !counter_add.
    rewrite (copy_in_ok _ _ _ _ S1), bind_Some_eq; rewrite ?E1, ?Z.mul_1_r; [|lia|unfold in_mem in *; lia|done].
    unfold m1. rewrite rd_wring by (done || lia). pose proof (wring_app d N m IN (len_bytes len) (rd m buf len)) as W. rewrite B0, B1 in W. rewrite W by (done || lia).
    set (b := len_bytes len ++ rd m buf len). assert (blen b = (len + recsize) * f_esize f) as Bb by (unfold b; rewrite blen_app, E1; lia).
    assert (0 <= len + recsize <= cap f - (IN - OUT)) as Hl by lia. do 2 eexists. split; [reflexivity|].
    pose proof (write_blen _ _ _ _ S _ _ Hl Bb) as Hbl. rewrite E1, Z.mul_1_r in Hbl. fold b.
    pose proof (shaped_in _ _ _ _ _ (shaped_mem _ _ _ _ _ Hbl S) Hl) as S'. rewrite (sh_in _ _ _ _ S), counter_add in S'.
    split; [exact S'|]. split; [done|]. pose proof (write_outside _ _ _ _ S _ _ Hl Bb) as HW. rewrite E1, Z.mul_1_r in HW. split; [|done].
    rewrite (bytes_shaped _ _ _ _ S'), (bytes_shaped _ _ _ _ S). replace (IN + (len + recsize) - OUT) with ((IN - OUT) + (len + recsize)) by lia.
    rewrite elems_app by (cbn; lia). pose proof (write_old _ _ _ _ S _ _ Hl Bb OUT (IN - OUT) ltac:(lia) ltac:(lia) ltac:(lia)) as W1.
    pose proof (write_new _ _ _ _ S _ _ Hl Bb) as W2. rewrite E1, Z.mul_1_r in W1, W2. replace (OUT + (IN - OUT)) with IN by lia.
    unfold elems in *. cbn [f_data f_esize nbytes cap f_mask set_in]. by f_equal.
Qed.

(** The record at the front. *)
Section front.
Context (r rest : list Z) (Hq : kfifo_bytes m f = rec_bytes r ++ rest) (Hr : blen r < rec_max).

Lemma front_counts : IN - OUT = recsize + blen r + blen rest.
Proof using All.
  pose proof (bytes_len m f IN OUT S) as B. rewrite Hq, E1, Z.mul_1_r in B. unfold kfifo_len in B. rewrite (len_ok _ _ _ _ S) in B.
  unfold rec_bytes in B. rewrite !blen_app, blen_len_bytes in B. lia.
Qed.

Lemma front_parts : elems m f OUT recsize = len_bytes (blen r) /\ elems m f (OUT + recsize) (blen r) = r /\
  elems m f (OUT + (blen r + recsize)) (blen rest) = rest.
Proof using All.
  pose proof front_counts as HC. pose proof (blen_nonneg r). pose proof (blen_nonneg rest). pose proof Hq as Hq'.
  rewrite (bytes_shaped _ _ _ _ S), HC in Hq'. unfold rec_bytes in Hq'. rewrite !elems_app, <- app_assoc in Hq' by lia. rewrite <- app_assoc in Hq'.
  assert (forall i n, 0 <= n -> length (elems m f i n) = Z.to_nat n) as HL.
  { intros i n Hn. pose proof (blen_elems m f i n ltac:(lia) Hn) as B. unfold blen in B. rewrite E1 in B. lia. }
  apply app_inj_1 in Hq' as [-> Hq']; [|rewrite HL by lia; pose proof (blen_len_bytes (blen r)); unfold blen in *; lia].
  apply app_inj_1 in Hq' as [-> Hq']; [|rewrite HL by lia; unfold blen; lia]. split; [done|]. split; [done|]. rewrite <- Hq' at 2. f_equal. lia.
Qed.

Lemma front_byte j : 0 <= j < recsize -> arr_get m (d + (OUT + j) mod N) = Some (zth (len_bytes (blen r)) j).
Proof using All.
  intros Hj. destruct byte_queue as (EN & HN & Hm). destruct front_parts as [<- _]. unfold in_mem in Hm. pose proof (Z.mod_pos_bound (OUT + j) N ltac:(lia)).
  unfold zth, elems. rewrite E1, !Z.mul_1_r, get_ring by done. rewrite arr_get_zth; [done|]. unfold blen in Hm. lia.
Qed.

Lemma peek_n_ok : __kfifo_peek_n m f recsize = Some (blen r).
Proof using All.
  destruct byte_queue as (EN & HN & Hm). pose proof (blen_nonneg r) as Hr0. unfold __kfifo_peek_n, __KFIFO_PEEK. rewrite (sh_out _ _ _ _ S), counter_add.
  rewrite !(counter_mod _ _ _ _ S), <- EN. pose proof (front_byte 0) as F0. rewrite Z.add_0_r in F0. rewrite F0, bind_Some_eq by (destruct Hrec; lia). unfold rec_max in Hr.
  pose proof (front_byte 1) as F1. unfold len_bytes in *. destruct Hrec as [->| ->].
  - change (truthy (u32 (1 - 1))) with false. cbn. f_equal. apply Z.mod_small. cbn in Hr. lia.
  - change (truthy (u32 (2 - 1))) with true. cbn iota. rewrite F1, bind_Some_eq by lia. cbn [Z.eqb Pos.eqb]. f_equal.
    change (zth [blen r mod 256; blen r / 256 mod 256] 0) with (blen r mod 256). change (zth [blen r mod 256; blen r / 256 mod 256] 1) with (blen r / 256 mod 256).
    change (2 ^ (8 * 2)) with 65536 in Hr. assert (0 <= blen r / 256 < 256) as Hh by (split; [apply Z.div_pos; lia|apply Z.div_lt_upper_bound; lia]).
    rewrite (Z.mod_small (blen r / 256)) by lia. pose proof (Z.mod_pos_bound (blen r) 256 ltac:(lia)) as Hlo.
    rewrite low_byte by done. pose proof (Z.div_mod (blen r) 256). lia.
Qed.

Lemma out_copy_r_ok buf len : 0 <= len -> user_buffer m f buf (Z.min len (blen r)) ->
  kfifo_out_copy_r m f buf len recsize = Some (wr m buf (rd r 0 (Z.min len (blen r))), Z.min len (blen r), blen r).
Proof using All.
  intros Hlen [HB HD]. rewrite E1, Z.mul_1_r in HB, HD. pose proof front_counts as HC. pose proof (blen_nonneg r). pose proof (blen_nonneg rest).
  destruct byte_queue as (EN & HN & Hm). pose proof (sh_len _ _ _ _ S) as HL. unfold kfifo_out_copy_r. rewrite peek_n_ok, bind_Some_eq.
  replace (if blen r <? len then blen r else len) with (Z.min len (blen r)) by (rewrite min_if; lia). set (l := Z.min len (blen r)) in *.
  rewrite (sh_out _ _ _ _ S), counter_add, (copy_out_ok _ _ _ _ S), bind_Some_eq; rewrite ?E1, ?Z.mul_1_r; [|lia|done|done].
  assert (rd (elems m f (OUT + recsize) (blen r)) 0 l = elems m f (OUT + recsize) l) as EL.
  { replace (blen r) with (l + (blen r - l)) by lia. rewrite elems_app by lia. pose proof (blen_elems m f (OUT + recsize) l ltac:(lia) ltac:(lia)) as B.
    rewrite E1, Z.mul_1_r in B. unfold rd, blen in *. rewrite drop_0, take_app_le, take_ge by lia. done. }
  destruct front_parts as (_ & F & _). rewrite F in EL. by rewrite EL.
Qed.

Lemma not_empty : (f_in f =? f_out f) = false.
Proof using All.
  apply Z.eqb_neq. intros E. pose proof front_counts as HC. pose proof (blen_nonneg r). pose proof (blen_nonneg rest).
  pose proof (len_ok _ _ _ _ S) as HL. rewrite E, Z.sub_diag in HL. change (u32 0) with 0 in HL. lia.
Qed.

Lemma drop_front : shaped m (set_out f (u32 (f_out f + u32 (blen r + recsize)))) IN (OUT + (blen r + recsize)) /\
  forall m', same_at d N m m' -> kfifo_bytes m' (set_out f (u32 (f_out f + u32 (blen r + recsize)))) = rest.
Proof using All.
  pose proof front_counts as HC. pose proof (blen_nonneg r). pose proof (blen_nonneg rest). pose proof (sh_len _ _ _ _ S).
  destruct byte_queue as (EN & HN & Hm). rewrite (u32_small (blen r + recsize)) by (unfold is_u32; lia).
  pose proof (shaped_out _ _ _ _ (blen r + recsize) S ltac:(lia)) as S'. split; [done|]. intros m' HS.
  rewrite (bytes_shaped _ _ _ _ (shaped_mem _ _ _ _ _ (proj1 HS) S')). destruct front_parts as (_ & _ & F).
  rewrite <- (elems_same m m' f IN OUT _ _ S HS) in F by lia. rewrite <- F. unfold elems. cbn. do 2 f_equal. lia.
Qed.
End front.
End queue.
End records.

(** A queue of records. *)
Definition holds_records (recsize : Z) (m : mem) (f : kfifo) (rs : list (list Z)) : Prop :=
  f_esize f = 1 /\ (exists IN OUT, shaped m f IN OUT) /\ Forall (fun r => blen r < rec_max recsize) rs /\
  kfifo_bytes m f = concat (map (rec_bytes recsize) rs).

(** C27: with lengths in one or two bytes, [__kfifo_in_r] appends a record when
    it fits and otherwise reports 0 and changes nothing; [__kfifo_len_r] is the
    length of the oldest record, [__kfifo_out_peek_r] copies as much of it as
    the caller has room for, [__kfifo_out_r] and [__kfifo_skip_r] remove all of
    it. *)
Theorem kfifo_records_correct recsize m f rs buf len : recsize = 1 \/ recsize = 2 -> holds_records recsize m f rs -> 0 <= len ->
  (len < rec_max recsize -> user_buffer m f buf len -> let fits := len + recsize <=? kfifo_unused f in
   exists m' f', __kfifo_in_r m f buf len recsize = Some (m', f', if fits then len else 0) /\
     holds_records recsize m' f' (if fits then rs ++ [rd m buf len] else rs) /\ same_but (f_data f) (nbytes f) m m') /\
  match rs with
  | [] => __kfifo_out_peek_r m f buf len recsize = Some (m, 0) /\ __kfifo_out_r m f buf len recsize = Some (m, f, 0)
  | r :: rs => let l := Z.min len (blen r) in let m' := wr m buf (rd r 0 l) in user_buffer m f buf l ->
      __kfifo_len_r m f recsize = Some (blen r) /\ __kfifo_out_peek_r m f buf len recsize = Some (m', l) /\
      exists f', __kfifo_out_r m f buf len recsize = Some (m', f', l) /\ holds_records recsize m' f' rs /\
        __kfifo_skip_r m f recsize = Some f' /\ holds_records recsize m f' rs
  end.
Proof.
  intros Hrec (E1 & (IN & OUT & S) & Hlens & Hq) Hlen. split.
  - intros Hmax HB fits. pose proof HB as [HBm _]. rewrite E1, Z.mul_1_r in HBm. assert (rec_max recsize <= 65536) by (unfold rec_max; by destruct Hrec as [->| ->]).
    destruct (in_r_ok recsize Hrec m f IN OUT S E1 buf len Hlen ltac:(lia) HB) as (m' & f' & E & S' & E1' & Hq' & HS). fold fits in E, S', Hq'.
    exists m', f'. split; [done|]. split; [|done]. split; [done|]. split; [by eexists _, _|]. rewrite Hq', Hq. destruct fits; [|by rewrite app_nil_r].
    split; [apply Forall_app; split; [done|]; constructor; [by rewrite blen_rd|constructor]|].
    rewrite map_app, concat_app. cbn [map concat]. unfold rec_bytes at 3. by rewrite blen_rd, app_nil_r by done.
  - destruct rs as [|r rs].
    + assert ((f_in f =? f_out f) = true) as Ee.
      { pose proof (bytes_len m f IN OUT S) as B. rewrite Hq, E1 in B. unfold kfifo_len in B. rewrite (len_ok _ _ _ _ S) in B. change (blen _) with 0 in B.
        apply Z.eqb_eq. rewrite (sh_in _ _ _ _ S), (sh_out _ _ _ _ S). f_equal. lia. }
      unfold __kfifo_out_peek_r, __kfifo_out_r. by rewrite Ee.
    + intros l m' HB. cbn in Hq. pose proof (Forall_inv Hlens) as Hr. pose proof (Forall_inv_tail Hlens) as Hlens'.
      set (rest := concat (map (rec_bytes recsize) rs)) in *. pose proof (peek_n_ok recsize Hrec m f IN OUT S E1 r rest Hq Hr) as EP.
      pose proof (out_copy_r_ok recsize Hrec m f IN OUT S E1 r rest Hq Hr buf len Hlen HB) as EC.
      pose proof (not_empty recsize Hrec m f IN OUT S E1 r rest Hq Hr) as Ee. destruct (drop_front recsize Hrec m f IN OUT S E1 r rest Hq Hr) as [S' HD].
      unfold __kfifo_len_r, __kfifo_out_peek_r, __kfifo_out_r, __kfifo_skip_r. rewrite Ee, EP, EC, !bind_Some_eq. fold l m'.
      assert (same_at (f_data f) (nbytes f) m m') as HS.
      { destruct HB as [HB1 HB2]. fold l in HB1, HB2. rewrite E1, Z.mul_1_r in HB1, HB2.
        assert (blen (rd r 0 l) = l) as B by (apply blen_rd; unfold in_mem in *; lia). apply same_at_wr; by rewrite B. }
      split; [done|]. split; [done|]. eexists. split; [reflexivity|]. split; [|split; [done|]].
      * split; [done|]. split; [exists IN, (OUT + (blen r + recsize)); by apply (shaped_mem m), S'; apply HS|]. split; [done|]. by apply HD.
      * split; [done|]. split; [by eexists _, _|]. split; [done|]. by apply HD.
Qed.

(** A byte queue of 16 with two records, the second across the end. *)
Definition example_records : kfifo := Kfifo 17 11 15 1 0.
Definition example_record_mem : mem := [7] ++ repeat 0 10 ++ [1; 5; 3; 6; 6] ++ repeat 9 16.

Lemma example_records_shaped : shaped example_record_mem example_records 17 11.
Proof. split; [by exists 4|done|done|done|done|unfold cap; cbn; lia|]. unfold in_mem, nbytes, cap, blen. cbn. lia. Qed.

Lemma kfifo_records_correct_witness :
  (exists m' f', __kfifo_in_r example_record_mem example_records 20 4 1 = Some (m', f', 4) /\
     holds_records 1 m' f' [[5]; [6; 6; 7]; [9; 9; 9; 9]] /\ same_but 0 16 example_record_mem m') /\
  __kfifo_len_r example_record_mem example_records 1 = Some 1.
Proof.
  assert (user_buffer example_record_mem example_records 20 4) as HB by (unfold user_buffer, in_mem, disjoint, nbytes, cap, blen; cbn; lia).
  assert (user_buffer example_record_mem example_records 20 1) as HB1 by (unfold user_buffer, in_mem, disjoint, nbytes, cap, blen; cbn; lia).
  destruct (kfifo_records_correct 1 example_record_mem example_records [[5]; [6; 6; 7]] 20 4) as [H1 H2]; [by left| |lia|].
  - split; [reflexivity|]. split; [by eexists _, _; exact example_records_shaped|]. split; [by repeat constructor|reflexivity].
  - split; [by apply H1|]. by apply H2.
Defined.

(** Two limits that are not checked.  A queue whose size is not
    below 2^32 bytes gets a buffer of its size modulo 2^32; a record of [len] bytes is stored
    with the length modulo 2^8 (or 2^16, for length fields of two bytes), so
    that the reader of an empty queue finds a record of that length, and the
    other bytes as further records. *)
Theorem kfifo_limits kmalloc size esize recsize m f IN buf len :
  let n := 2 ^ Z.log2 size in 2 <= size < 2 ^ 32 -> kmalloc (u32 (n * esize)) <> 0 ->
  recsize = 1 \/ recsize = 2 -> shaped m f IN IN -> f_esize f = 1 ->
  0 <= len -> len + recsize <= cap f -> user_buffer m f buf len ->
  (exists g, __kfifo_alloc kmalloc size esize = Some (g, 0) /\
     f_data g = kmalloc (u32 (n * esize)) /\ nbytes g = n * esize) /\
  (let n := len mod 2 ^ (8 * recsize) in
   exists m' f', __kfifo_in_r m f buf len recsize = Some (m', f', len) /\ __kfifo_len_r m' f' recsize = Some n /\
     kfifo_bytes m' f' = rec_bytes recsize (rd m buf n) ++ rd m (buf + n) (len - n)).
Proof.
  intros sz Hk Hd Hrec S E1 Hlen Hc HB. split.
  - exists (Kfifo 0 0 (sz - 1) esize (kmalloc (u32 (sz * esize)))). unfold __kfifo_alloc.
    rewrite round_pow_ok, bind_Some_eq by (unfold is_u32; lia). fold sz.
    assert (2 ^ 1 <= sz) by (apply Z.pow_le_mono_r; [lia|]; apply (Z.log2_le_mono 2); lia).
    rewrite (proj2 (Z.ltb_ge _ _)), (proj2 (truthy_true _) Hd) by lia. split; [done|]. split; [done|].
    unfold nbytes, cap. cbn. f_equal. lia.
  - intros n. destruct (shaped_bounds _ _ _ _ S) as (Hcap & _). assert (cap f <= 2 ^ 31) as Hcm by lia.
    destruct (in_r_ok recsize Hrec m f IN IN S E1 buf len) as (m' & f' & E & S' & E1' & Hq & _); [lia|lia|done|].
    rewrite (unused_ok _ _ _ _ S) in E, S', Hq. rewrite (proj2 (Z.leb_le _ _)) in E, S', Hq by lia.
    assert (kfifo_bytes m f = []) as E0 by (rewrite (bytes_shaped _ _ _ _ S), Z.sub_diag; done). rewrite E0 in Hq. cbn [app] in Hq.
    destruct HB as [HBm _]. rewrite E1, Z.mul_1_r in HBm. assert (0 < 2 ^ (8 * recsize)) as Hp by (apply Z.pow_pos_nonneg; lia).
    pose proof (Z.mod_pos_bound len _ Hp) as Hn. fold n in Hn. assert (n <= len) as Hnl by (apply Z.mod_le; lia).
    assert (blen (rd m buf n) = n) as Bn by (apply blen_rd; unfold in_mem in *; lia).
    assert (len_bytes recsize len = len_bytes recsize n) as EL.
    { unfold len_bytes. subst n. destruct Hrec as [-> | ->]; cbn [Z.eqb Pos.eqb].
      - change (2 ^ (8 * 1)) with 256. by rewrite Z.mod_mod.
      - change (2 ^ (8 * 2)) with (256 * 256). f_equal; [|f_equal]; Z.div_mod_to_equations; lia. }
    assert (kfifo_bytes m' f' = rec_bytes recsize (rd m buf n) ++ rd m (buf + n) (len - n)) as Hq'.
    { rewrite Hq, EL. unfold rec_bytes. rewrite Bn, <- app_assoc. f_equal.
      replace len with (n + (len - n)) at 1 by lia. apply rd_app; unfold in_mem in *; lia. }
    exists m', f'. split; [done|]. split; [|done]. rewrite <- Bn.
    apply (peek_n_ok recsize Hrec m' f' _ _ S' E1' _ _ Hq'). rewrite Bn. apply Hn.
Qed.

Definition example_big_mem : mem := repeat 1 1024.
Lemma kfifo_limits_witness :
  (exists g, __kfifo_alloc (fun _ => 16) (2 ^ 30) 5 = Some (g, 0) /\ f_data g = 16 /\ nbytes g = 2 ^ 32 + 2 ^ 30) /\
  (exists m' f', __kfifo_in_r example_big_mem (Kfifo 3 3 511 1 0) 600 258 1 = Some (m', f', 258) /\ __kfifo_len_r m' f' 1 = Some 2 /\
     kfifo_bytes m' f' = rec_bytes 1 [1; 1] ++ rd example_big_mem 602 256).
Proof.
  apply (kfifo_limits (fun _ => 16) (2 ^ 30) 5 1 example_big_mem (Kfifo 3 3 511 1 0) 3 600 258);
    [lia|done|by left| |done|lia|unfold cap; cbn; lia|].
  - split; [by exists 9|done|done|done|done|unfold cap; cbn; lia|]. unfold in_mem, nbytes, cap, example_big_mem, blen. rewrite repeat_length. cbn. lia.
  - unfold user_buffer, in_mem, disjoint, nbytes, cap, example_big_mem, blen. rewrite repeat_length. cbn. lia.
Defined.
