(* ===== verification/KfifoUser.v ===== *)
(** * Ring buffers: user space

    Copies to and from user space may stop early.  The queue then moves on by
    the elements that were copied completely, but the number of bytes that is
    reported is wrong unless elements are bytes. *)

From stdpp Require Import list_numbers.
From S2P Require Import Prelude Bytes Mem Bitops LibString LibStringCorrect Kfifo KfifoCorrect KfifoTheorems KfifoRecords.
Open Scope c_scope.

(** The documented behaviour of [copy_from_user] and [copy_to_user]: of [n]
    bytes the first [reach to from n] are copied, up to a fault or all of them,
    and the number of the others is returned; what is in their place is left
    open. *)
Class UserCopy (copy : mem -> Z -> Z -> Z -> option (mem * Z)) (reach : Z -> Z -> Z -> Z) : Prop := user_copy m to from n :
  in_mem m to n -> in_mem m from n -> disjoint to n from n ->
  exists ret pad, ret = n - reach to from n /\ 0 <= ret <= n /\ blen pad = ret /\
    copy m to from n = Some (wr m to (rd m from (n - ret) ++ pad), ret).

(** How many of [n] bytes are copied between the user's buffer at [p] and the
    ring, from element [i] on: the bytes before the end of the ring first, and
    those at its beginning only if all of the first arrived. *)
Definition copied_from (reach : Z -> Z -> Z -> Z) (f : kfifo) (i p n : Z) : Z :=
  let off := (i * f_esize f) mod nbytes f in
  let n1 := Z.min n (nbytes f - off) in
  let c1 := reach (f_data f + off) p n1 in
  if c1 <? n1 then c1 else n1 + reach (f_data f) (p + n1) (n - n1).

Definition copied_to (reach : Z -> Z -> Z -> Z) (f : kfifo) (i p n : Z) : Z :=
  let off := (i * f_esize f) mod nbytes f in
  let n1 := Z.min n (nbytes f - off) in
  let c1 := reach p (f_data f + off) n1 in
  if c1 <? n1 then c1 else n1 + reach (p + n1) (f_data f) (n - n1).

Lemma div_up n d : 0 < d -> 0 <= n -> n + d < 2 ^ 32 -> DIV_ROUND_UP n d = Some ((n + d - 1) / d).
Proof.
  intros Hd Hn Hu. unfold DIV_ROUND_UP. rewrite (proj2 (Z.eqb_neq d 0)) by lia. rewrite !u32_small; [done|..]; unfold is_u32; rewrite ?u32_small; unfold is_u32; lia.
Qed.

(** Elements that are not complete: [c] of [l * e] bytes were copied. *)
Lemma incomplete l e c : 0 < e -> 0 <= c <= l * e -> (l * e - c + e - 1) / e = l - c / e.
Proof.
  intros He Hc. pose proof (Z.div_mod c e ltac:(lia)) as D. pose proof (Z.mod_pos_bound c e He) as M.
  symmetry. apply (Z.div_unique_pos _ _ _ (e - 1 - c mod e)); nia.
Qed.

Section user.
Context (copy : mem -> Z -> Z -> Z -> option (mem * Z)) (reach : Z -> Z -> Z -> Z) `{HC : !UserCopy copy reach}.
Context (m : mem) (f : kfifo) (IN OUT : Z) (S : shaped m f IN OUT) (Hov : nbytes f + f_esize f < 2 ^ 32).
Local Abbreviation e := (f_esize f).

(** The part before the end of the buffer is a number of elements too. *)
Lemma first_part len X : exists l1, Z.min (len * e) (nbytes f - (X * e) mod nbytes f) = l1 * e.
Proof using S.
  destruct (shaped_bounds _ _ _ _ S) as (Hc & Hn & He & Hb). exists (Z.min len (cap f - X mod cap f)).
  unfold nbytes. rewrite Z.mul_mod_distr_r by lia. rewrite <- Z.mul_sub_distr_r. by rewrite Z.mul_min_distr_nonneg_r by lia.
Qed.

(** The bytes of a write that wraps around, given in two pieces. *)
Lemma wring_two i a b : blen a = Z.min (blen a + blen b) (nbytes f - i mod nbytes f) ->
  wr (wr m (f_data f + i mod nbytes f) a) (f_data f) b = wring (f_data f) (nbytes f) m i (a ++ b).
Proof using S.
  intros Ha. unfold wring. rewrite blen_app, <- Ha. rewrite rd_app_left by (pose proof (blen_nonneg a); lia). rewrite rd_all. f_equal.
  unfold rd. replace (blen a + blen b - blen a) with (blen b) by lia. unfold blen. rewrite !Nat2Z.id, drop_app_length. symmetry. apply take_ge. lia.
Qed.

Lemma from_user_copy from len : 0 <= len <= cap f - (IN - OUT) -> user_buffer m f from len ->
  exists c B lB, c = copied_from reach f IN from (len * e) /\ 0 <= c <= len * e /\ 0 <= lB <= len /\ blen B = lB * e /\ c <= blen B /\ rd B 0 c = rd m from c /\
    kfifo_copy_from_user copy m f from len (f_in f) =
      Some (wring (f_data f) (nbytes f) m (IN * e) B, len - c / e, u32 (len * e - (len - c / e))).
Proof using All.
  intros Hlen [HB HD]. destruct (shaped_bounds _ _ _ _ S) as (Hc & Hn & He & Hb). pose proof (sh_mem _ _ _ _ S) as Hm. pose proof (sh_len _ _ _ _ S) as HL.
  unfold kfifo_copy_from_user. rewrite (sh_in _ _ _ _ S), (span_ok _ _ _ _ S) by lia. set (off := (IN * e) mod nbytes f).
  pose proof (Z.mod_pos_bound (IN * e) _ Hn) as Ho. fold off in Ho. assert (len * e <= nbytes f) as HLN by (unfold nbytes; nia).
  destruct (first_part len IN) as [e1 El]. fold off in El. rewrite El. assert (0 <= e1 <= len) as He1 by nia.
  assert (e1 * e <= nbytes f - off) by lia. unfold in_mem, disjoint in *.
  destruct (HC m (f_data f + off) from (e1 * e)) as (r1 & p1 & Q1 & Hr1 & Bp1 & E1); [unfold in_mem, disjoint; lia..|]. rewrite E1, bind_Some_eq.
  set (b1 := rd m from (e1 * e - r1) ++ p1). assert (blen b1 = e1 * e) as Bb1 by (unfold b1; rewrite blen_app, blen_rd by (unfold in_mem; lia); lia).
  unfold truthy at 1. destruct (Z.eqb_spec r1 0) as [->|Hr]; cbn [negb].
  - assert (b1 = rd m from (e1 * e)) as Eb1 by (unfold b1; rewrite Z.sub_0_r; destruct p1; [by rewrite app_nil_r|unfold blen in Bp1; cbn in Bp1; lia]).
    rewrite (u32_small (len * e - e1 * e)) by (unfold is_u32; nia).
    destruct (HC (wr m (f_data f + off) b1) (f_data f) (from + e1 * e) (len * e - e1 * e)) as (r2 & p2 & Q2 & Hr2 & Bp2 & E2); [unfold in_mem, disjoint; rewrite ?blen_wr; unfold in_mem; nia..|].
    rewrite E2, bind_Some_eq. rewrite rd_wr_other by (rewrite ?Bb1; unfold in_mem, disjoint; lia).
    set (b2 := rd m (from + e1 * e) (len * e - e1 * e - r2) ++ p2).
    assert (blen b2 = len * e - e1 * e) as Bb2 by (unfold b2; rewrite blen_app, blen_rd by (unfold in_mem; lia); lia).
    exists (len * e - r2), (b1 ++ b2), len. split; [unfold copied_from; fold off; rewrite El, (proj2 (Z.ltb_ge _ _)) by lia; lia|]. split; [lia|]. split; [lia|]. split; [rewrite blen_app; lia|]. split; [rewrite blen_app; lia|]. split.
    + assert (rd m from (len * e - r2) = rd m from (e1 * e) ++ rd m (from + e1 * e) (len * e - e1 * e - r2)) as R by (apply rd_app; unfold in_mem; lia).
      unfold b2. rewrite Eb1, app_assoc, <- R. assert (blen (rd m from (len * e - r2)) = len * e - r2) as BR by (apply blen_rd; unfold in_mem; lia).
      by apply rd_app_exact.
    + rewrite <- wring_two by (fold off; rewrite Bb1, Bb2; lia). fold off.
      assert ((if truthy r2 then DIV_ROUND_UP r2 e else Some r2) = Some (len - (len * e - r2) / e)) as ->; [|done].
      rewrite <- incomplete by lia. unfold truthy. destruct (Z.eqb_spec r2 0) as [->|Hr2']; cbn [negb].
      * f_equal. symmetry. apply Z.div_small. lia.
      * rewrite div_up by lia. do 2 f_equal. lia.
  - assert (u32 (u32 (r1 + len * e) - e1 * e) = len * e - (e1 * e - r1)) as ->.
    { unfold u32. rewrite Zminus_mod_idemp_l, Z.mod_small by lia. lia. }
    rewrite div_up, bind_Some_eq by lia. rewrite incomplete, bind_Some_eq by lia. exists (e1 * e - r1), b1, e1.
    split; [unfold copied_from; fold off; rewrite El, (proj2 (Z.ltb_lt _ _)) by lia; lia|]. split; [lia|]. split; [lia|]. split; [done|]. split; [lia|]. split; [|by rewrite <- (wring_one _ _ _ _ S) by (fold off; lia)].
    unfold b1. assert (blen (rd m from (e1 * e - r1)) = e1 * e - r1) as BR by (apply blen_rd; unfold in_mem; lia).
    by apply rd_app_exact.
Qed.

(** [*copied], and what happens to the queue: [c] is the number of bytes before
    a fault. *)
Lemma from_user_ok from len : 0 <= len -> let l := Z.min (kfifo_unused f) (len / e) in user_buffer m f from l ->
  exists c m' f', c = copied_from reach f IN from (l * e) /\ 0 <= c <= l * e /\
    __kfifo_from_user copy m f from len = Some (m', f', l * e - (l - c / e), if c =? l * e then 0 else - EFAULT) /\
    shaped m' f' (IN + c / e) OUT /\ kfifo_bytes m' f' = kfifo_bytes m f ++ rd m from (c / e * e) /\ same_but (f_data f) (nbytes f) m m'.
Proof using All.
  intros Hlen l HB. destruct (shaped_bounds _ _ _ _ S) as (Hc & Hn & He & Hb). pose proof (sh_len _ _ _ _ S) as HL. unfold __kfifo_from_user.
  replace (if negb (e =? 1) then _ else _) with (Some (len / e)).
  2:{ destruct (Z.eqb_spec e 1) as [->|Hne]; cbn [negb]; [by rewrite Z.div_1_r|]. by rewrite (proj2 (Z.eqb_neq e 0)) by lia. }
  rewrite bind_Some_eq, min_if. fold l. assert (0 <= len / e) by (apply Z.div_pos; lia).
  assert (0 <= l <= cap f - (IN - OUT)) as Hl by (unfold l; rewrite (unused_ok _ _ _ _ S); lia).
  destruct (from_user_copy from l Hl HB) as (c & B & lB & Qc & Hcl & HlB & BB & HcB & HR & ->). rewrite bind_Some_eq.
  assert (0 <= c / e <= l) as Hce by (split; [apply Z.div_pos; lia|apply Z.div_le_upper_bound; lia]). assert (c / e * e <= c) by (rewrite Z.mul_comm; by apply Z.mul_div_le).
  assert (c / e <= lB) by (apply Z.div_le_upper_bound; nia). assert (0 <= lB <= cap f - (IN - OUT)) as HlB' by lia.
  set (m' := wring (f_data f) (nbytes f) m (IN * e) B). pose proof (write_blen _ _ _ _ S _ _ HlB' BB) as Hbl. fold m' in Hbl.
  exists c, m', (set_in f (u32 (f_in f + c / e))). split; [done|]. split; [done|].
  assert (0 <= c / e <= cap f - (IN - OUT)) as Hce' by lia. pose proof (shaped_in _ _ _ _ _ (shaped_mem _ _ _ _ _ Hbl S) Hce') as S'. split; [|split; [done|split]].
  - assert (l * e <= cap f * e) by (apply Z.mul_le_mono_nonneg_r; lia). assert (l * 1 <= l * e) by (apply Z.mul_le_mono_nonneg_l; lia).
    rewrite (u32_small (l * e - _)) by (unfold is_u32; unfold nbytes in *; lia). unfold truthy.
    assert (c = l * e <-> l - c / e = 0) as Hz by (split; [intros ->; rewrite Z.div_mul; lia|intros Hz0; assert (c / e = l) as Ecl by lia; rewrite Ecl in *; lia]).
    destruct (Z.eqb_spec (l - c / e) 0) as [E0|E0], (Z.eqb_spec c (l * e)) as [E1|E1]; cbn [negb]; try tauto.
    + by replace (c / e) with l by lia.
    + rewrite (u32_small (l - (l - c / e))) by (unfold is_u32; lia). by replace (l - (l - c / e)) with (c / e) by lia.
  - rewrite (bytes_shaped _ _ _ _ S'), (bytes_shaped _ _ _ _ S). replace (IN + c / e - OUT) with ((IN - OUT) + c / e) by lia.
    rewrite elems_app by (cbn; lia). f_equal; [by apply (write_old _ _ _ _ S _ _ HlB' BB); lia|]. replace (OUT + (IN - OUT)) with IN by lia.
    pose proof (write_new _ _ _ _ S _ _ HlB' BB) as W. fold m' in W. replace lB with (c / e + (lB - c / e)) in W by lia. rewrite elems_app in W by lia.
    assert (blen (elems m' f IN (c / e)) = c / e * e) as BE by (apply blen_elems; lia).
    assert (rd B 0 (c / e * e) = elems m' f IN (c / e)) as R1 by (rewrite <- W, rd_app_left by lia; rewrite <- BE; apply rd_all).
    change (elems m' (set_in f (u32 (f_in f + c / e))) IN (c / e)) with (elems m' f IN (c / e)). rewrite <- R1.
    destruct HB as [HB _]. unfold in_mem in HB. rewrite <- (rd_rd0 m from c), <- HR by (unfold in_mem; lia). rewrite rd_rd0; [done|unfold in_mem; lia|lia].
  - apply (write_outside _ _ _ _ S _ _ HlB' BB).
Qed.

Lemma to_user_copy to len : 0 <= len <= IN - OUT -> user_buffer m f to len ->
  exists c B, c = copied_to reach f OUT to (len * e) /\ 0 <= c <= len * e /\ c <= blen B <= len * e /\ rd B 0 c = rd (elems m f OUT len) 0 c /\
    kfifo_copy_to_user copy m f to len (f_out f) = Some (wr m to B, len - c / e, u32 (len * e - (len - c / e))).
Proof using All.
  intros Hlen [HB HD]. destruct (shaped_bounds _ _ _ _ S) as (Hc & Hn & He & Hb). pose proof (sh_mem _ _ _ _ S) as Hm. pose proof (sh_len _ _ _ _ S) as HL.
  unfold kfifo_copy_to_user. rewrite (sh_out _ _ _ _ S), (span_ok _ _ _ _ S) by lia. rewrite (elems_pieces _ _ _ _ S) by lia. set (off := (OUT * e) mod nbytes f).
  pose proof (Z.mod_pos_bound (OUT * e) _ Hn) as Ho. fold off in Ho. assert (len * e <= nbytes f) as HLN by (unfold nbytes; nia).
  destruct (first_part len OUT) as [e1 El]. fold off in El. rewrite El. assert (0 <= e1 <= len) as He1 by nia.
  assert (e1 * e <= nbytes f - off) by lia. assert (0 <= e1 * e) by nia. unfold in_mem, disjoint in *.
  set (q1 := rd m (f_data f + off) (e1 * e)). set (q2 := rd m (f_data f) (len * e - e1 * e)).
  assert (blen q1 = e1 * e) as Bq1 by (apply blen_rd; unfold in_mem; lia). assert (blen q2 = len * e - e1 * e) as Bq2 by (apply blen_rd; unfold in_mem; lia).
  destruct (HC m to (f_data f + off) (e1 * e)) as (r1 & p1 & Q1 & Hr1 & Bp1 & E1); [unfold in_mem, disjoint; lia..|]. rewrite E1, bind_Some_eq.
  set (b1 := rd m (f_data f + off) (e1 * e - r1) ++ p1).
  assert (blen (rd m (f_data f + off) (e1 * e - r1)) = e1 * e - r1) as Bc1 by (apply blen_rd; unfold in_mem; lia).
  assert (blen b1 = e1 * e) as Bb1 by (unfold b1; rewrite blen_app; lia). unfold truthy at 1. destruct (Z.eqb_spec r1 0) as [->|Hr]; cbn [negb].
  - assert (b1 = q1) as -> by (unfold b1, q1; rewrite Z.sub_0_r; destruct p1; [by rewrite app_nil_r|unfold blen in Bp1; cbn in Bp1; lia]).
    rewrite (u32_small (len * e - e1 * e)) by (unfold is_u32; lia).
    destruct (HC (wr m to q1) (to + e1 * e) (f_data f) (len * e - e1 * e)) as (r2 & p2 & Q2 & Hr2 & Bp2 & E2); [unfold in_mem, disjoint; rewrite ?blen_wr; unfold in_mem; lia..|].
    rewrite E2, bind_Some_eq. rewrite rd_wr_other by (rewrite ?Bq1; unfold in_mem, disjoint; lia).
    set (b2 := rd m (f_data f) (len * e - e1 * e - r2) ++ p2).
    assert (blen (rd m (f_data f) (len * e - e1 * e - r2)) = len * e - e1 * e - r2) as Bc2 by (apply blen_rd; unfold in_mem; lia).
    assert (blen b2 = len * e - e1 * e) as Bb2 by (unfold b2; rewrite blen_app; lia).
    exists (len * e - r2), (q1 ++ b2). split; [unfold copied_to; fold off; rewrite El, (proj2 (Z.ltb_ge _ _)) by lia; lia|]. split; [lia|]. split; [rewrite blen_app; lia|]. split.
    + assert (forall x, blen x = len * e - e1 * e -> rd (q1 ++ x) 0 (len * e - r2) = q1 ++ rd x 0 (len * e - e1 * e - r2)) as RA.
      { intros x Bx. unfold rd, blen in *. rewrite !drop_0, take_app_ge by lia. f_equal. f_equal. lia. }
      rewrite !RA by done. f_equal. unfold b2. rewrite (rd_app_exact _ _ _ Bc2). unfold q2. symmetry. apply rd_rd0; unfold in_mem; lia.
    + rewrite wr_app by (rewrite ?Bq1, ?Bb2; unfold in_mem; lia).
      assert ((if truthy r2 then DIV_ROUND_UP r2 e else Some r2) = Some (len - (len * e - r2) / e)) as ->; [|done].
      rewrite <- incomplete by lia. unfold truthy. destruct (Z.eqb_spec r2 0) as [->|Hr2']; cbn [negb].
      * f_equal. symmetry. apply Z.div_small. lia.
      * rewrite div_up by lia. do 2 f_equal. lia.
  - assert (u32 (u32 (r1 + len * e) - e1 * e) = len * e - (e1 * e - r1)) as ->.
    { unfold u32. rewrite Zminus_mod_idemp_l, Z.mod_small by lia. lia. }
    rewrite div_up, bind_Some_eq by lia. rewrite incomplete, bind_Some_eq by lia. exists (e1 * e - r1), b1.
    split; [unfold copied_to; fold off; rewrite El, (proj2 (Z.ltb_lt _ _)) by lia; lia|]. split; [lia|]. split; [lia|]. split; [|done]. unfold b1. rewrite (rd_app_exact _ _ _ Bc1).
    rewrite rd_app_left by lia. unfold q1. symmetry. apply rd_rd0; unfold in_mem; lia.
Qed.

Lemma to_user_ok to len : 0 <= len -> let l := Z.min (kfifo_len f) (len / e) in let q := kfifo_bytes m f in user_buffer m f to l ->
  exists c m' f', c = copied_to reach f OUT to (l * e) /\ 0 <= c <= l * e /\
    __kfifo_to_user copy m f to len = Some (m', f', l * e - (l - c / e), if c =? l * e then 0 else - EFAULT) /\
    shaped m' f' IN (OUT + c / e) /\ rd m' to c = rd q 0 c /\
    kfifo_bytes m' f' = rd q (c / e * e) (blen q - c / e * e) /\ same_but to (l * e) m m'.
Proof using All.
  intros Hlen l q HB. destruct (shaped_bounds _ _ _ _ S) as (Hc & Hn & He & Hb). pose proof (sh_len _ _ _ _ S) as HL. unfold __kfifo_to_user.
  replace (if negb (e =? 1) then _ else _) with (Some (len / e)).
  2:{ destruct (Z.eqb_spec e 1) as [->|Hne]; cbn [negb]; [by rewrite Z.div_1_r|]. by rewrite (proj2 (Z.eqb_neq e 0)) by lia. }
  rewrite bind_Some_eq, min_if. fold (kfifo_len f). fold l. assert (0 <= len / e) by (apply Z.div_pos; lia).
  assert (0 <= l <= IN - OUT) as Hl by (unfold l, kfifo_len; rewrite (len_ok _ _ _ _ S); lia).
  destruct (to_user_copy to l Hl HB) as (c & B & Qc & Hcl & BB & HR & ->). rewrite bind_Some_eq. destruct HB as [HBm HBd]. unfold in_mem, disjoint in HBm, HBd.
  assert (0 <= c / e <= l) as Hce by (split; [apply Z.div_pos; lia|apply Z.div_le_upper_bound; lia]). assert (c / e * e <= c) by (rewrite Z.mul_comm; by apply Z.mul_div_le).
  assert (0 <= c / e * e) by (apply Z.mul_nonneg_nonneg; lia). assert (l * e <= cap f * e) by (apply Z.mul_le_mono_nonneg_r; lia). assert (l * 1 <= l * e) by (apply Z.mul_le_mono_nonneg_l; lia).
  assert (same_at (f_data f) (nbytes f) m (wr m to B)) as HS by (apply same_at_wr; unfold in_mem, disjoint; lia).
  exists c, (wr m to B), (set_out f (u32 (f_out f + c / e))). split; [done|]. split; [done|]. pose proof (shaped_mem _ _ _ _ _ (proj1 HS) S) as S1.
  pose proof (shaped_out _ _ _ _ (c / e) S1 ltac:(lia)) as S'. assert (blen q = (IN - OUT) * e) as Bq.
  { unfold q. rewrite (bytes_len _ _ _ _ S). unfold kfifo_len. by rewrite (len_ok _ _ _ _ S). }
  split; [|split; [done|split; [|split]]].
  - rewrite (u32_small (l * e - _)) by (unfold is_u32; unfold nbytes in *; lia). unfold truthy.
    assert (c = l * e <-> l - c / e = 0) as Hz by (split; [intros ->; rewrite Z.div_mul; lia|intros Hz0; assert (c / e = l) as Ecl by lia; rewrite Ecl in *; lia]).
    destruct (Z.eqb_spec (l - c / e) 0) as [E0|E0], (Z.eqb_spec c (l * e)) as [E1|E1]; cbn [negb]; try tauto.
    + by replace (c / e) with l by lia.
    + rewrite (u32_small (l - (l - c / e))) by (unfold is_u32; lia). by replace (l - (l - c / e)) with (c / e) by lia.
  - rewrite rd_wr_sub by (unfold in_mem; lia). rewrite Z.sub_diag, HR. unfold q. rewrite (bytes_shaped _ _ _ _ S). replace (IN - OUT) with (l + (IN - OUT - l)) by lia.
    rewrite elems_app by lia. by rewrite rd_app_left by (rewrite blen_elems; lia).
  - rewrite (bytes_shaped _ _ _ _ S'). change (elems ?a (set_out f ?b) ?i ?n) with (elems a f i n). rewrite (elems_same m _ f IN OUT) by (done || lia).
    unfold q. rewrite (bytes_shaped _ _ _ _ S). replace (IN - OUT) with (c / e + (IN - (OUT + c / e))) by lia.
    rewrite elems_app by lia. rewrite blen_app, !blen_elems by lia. unfold rd.
    assert (length (elems m f OUT (c / e)) = Z.to_nat (c / e * e)) as L1 by (pose proof (blen_elems m f OUT (c / e)); unfold blen in *; lia).
    assert (length (elems m f (OUT + c / e) (IN - (OUT + c / e))) = Z.to_nat ((IN - (OUT + c / e)) * e)) as L2.
    { pose proof (blen_elems m f (OUT + c / e) (IN - (OUT + c / e)) He ltac:(lia)). unfold blen in *. lia. }
    rewrite drop_app_ge by lia. rewrite L1, Nat.sub_diag, drop_0. symmetry. apply take_ge. lia.
  - split; [apply HS|]. intros x Hx. apply arr_get_wr_out; [unfold in_mem; lia|]. lia.
Qed.
End user.

(** C28: copies from and to user space that stop after [c] bytes, where [c] is
    what the user copies of the two parts of the ring reach: the queue takes
    (gives) exactly the elements that were copied completely, [-EFAULT] is
    reported unless all of them were, and nothing else is written.  The number
    of bytes reported in [*copied], however, subtracts elements from bytes: it is
    [c] only when nothing failed or elements are single bytes. *)
Theorem kfifo_user_copies copy reach m f IN OUT p len :
  UserCopy copy reach -> shaped m f IN OUT -> nbytes f + f_esize f < 2 ^ 32 -> 0 <= len ->
  let e := f_esize f in let q := kfifo_bytes m f in
  (let l := Z.min (kfifo_unused f) (len / e) in let c := copied_from reach f IN p (l * e) in
   user_buffer m f p l ->
   0 <= c <= l * e /\ exists m' f',
     __kfifo_from_user copy m f p len = Some (m', f', l * e - (l - c / e), if c =? l * e then 0 else - EFAULT) /\
     shaped m' f' (IN + c / e) OUT /\ kfifo_bytes m' f' = q ++ rd m p (c / e * e) /\ same_but (f_data f) (nbytes f) m m') /\
  (let l := Z.min (kfifo_len f) (len / e) in let c := copied_to reach f OUT p (l * e) in
   user_buffer m f p l ->
   0 <= c <= l * e /\ exists m' f',
     __kfifo_to_user copy m f p len = Some (m', f', l * e - (l - c / e), if c =? l * e then 0 else - EFAULT) /\
     shaped m' f' IN (OUT + c / e) /\ rd m' p c = rd q 0 c /\
     kfifo_bytes m' f' = rd q (c / e * e) (blen q - c / e * e) /\ same_but p (l * e) m m').
Proof.
  intros HC S Hov Hlen e q. split; intros l c HB.
  - destruct (from_user_ok copy reach m f IN OUT S Hov p len Hlen HB) as (? & m' & f' & -> & Hc & H). eauto.
  - destruct (to_user_ok copy reach m f IN OUT S Hov p len Hlen HB) as (? & m' & f' & -> & Hc & H). eauto.
Qed.

(** Copies that fault after three bytes. *)
Definition three_bytes (m : mem) (to from n : Z) : option (mem * Z) :=
  let ret := Z.max 0 (n - 3) in Some (wr m to (rd m from (n - ret) ++ repeat 0 (Z.to_nat ret)), ret).
#[local] Instance three_bytes_copy : UserCopy three_bytes (fun _ _ n => Z.min n 3).
Proof.
  intros m to from n _ [_ [Hn _]] _. exists (Z.max 0 (n - 3)), (repeat 0 (Z.to_nat (Z.max 0 (n - 3)))).
  split; [lia|]. split; [lia|]. split; [unfold blen; rewrite repeat_length; lia|done].
Qed.

(** Of two elements of two bytes, one arrives before the fault. *)
Lemma kfifo_user_copies_witness : exists m' f',
  __kfifo_from_user three_bytes example_mem example_fifo 10 5 = Some (m', f', 3, - EFAULT) /\
  shaped m' f' (2 ^ 32 + 2) (2 ^ 32 - 1) /\ kfifo_bytes m' f' = [106; 107; 100; 101] ++ rd example_mem 10 2 /\
  same_but 0 8 example_mem m'.
Proof.
  destruct (kfifo_user_copies three_bytes (fun _ _ n => Z.min n 3) example_mem example_fifo (2 ^ 32 + 1) (2 ^ 32 - 1) 10 5) as [H _];
    [exact three_bytes_copy|exact example_shaped|reflexivity|lia|]. apply H. apply (example_buffer 10 2); lia.
Defined.
