(* ===== verification/Locks.v ===== *)
(** * File locks

    [fs/locks.c]: the byte-range locks of POSIX ([fcntl]) and the whole-file
    locks of BSD ([flock]), with their queues of blocked requests.

    All [struct file_lock] are in one memory, a finite map from addresses, and
    the locks of an inode are a singly linked list through [fl_next], as in the
    code; for a request that waits, [fl_next] is the lock it waits for.  The
    doubly linked lists are sequences of addresses: [fl_block] of a lock that
    holds is the queue of the requests that wait for it, and [fl_link] puts a
    lock on [file_lock_list] or a request on [blocked_list].  To unlink a node is
    to take it out of the sequences it is in.

    Every function runs under [lock_flocks]; where the code drops the lock, the
    parts are separate definitions.  [wake_up] and the callbacks of file systems
    and lock managers are recorded in the order they are made.  Signals to the
    holders of leases ([fasync]), reference counts of [struct pid] and printing
    are left out. *)

From stdpp Require Import gmap.
From S2P Require Import Prelude.
Open Scope c_scope.

Definition EBADF : Z := 9.
Definition EDEADLK : Z := 35.
Definition ENOLCK : Z := 37.

Definition FL_POSIX : Z := 1.
Definition FL_FLOCK : Z := 2.
Definition FL_ACCESS : Z := 8.
Definition FL_EXISTS : Z := 16.
Definition FL_LEASE : Z := 32.
Definition FL_CLOSE : Z := 64.
Definition FL_SLEEP : Z := 128.
Definition FILE_LOCK_DEFERRED : Z := 1.

Definition F_RDLCK : Z := 0.
Definition F_WRLCK : Z := 1.
Definition F_UNLCK : Z := 2.
Definition F_INPROGRESS : Z := 16.
Definition LOCK_SH : Z := 1.
Definition LOCK_EX : Z := 2.
Definition LOCK_NB : Z := 4.
Definition LOCK_UN : Z := 8.
Definition LOCK_MAND : Z := 32.
Definition LOCK_READ : Z := 64.
Definition LOCK_WRITE : Z := 128.
Definition LOCK_RW : Z := 192.

Definition OFFSET_MAX : Z := 2 ^ 63 - 1.
Definition OFFT_OFFSET_MAX : Z := 2 ^ 31 - 1.

(** ** Data *)

Record file_lock := FileLock {
  fl_next : Z;
  fl_block : list Z;
  fl_owner : Z;
  fl_flags : Z;
  fl_type : Z;
  fl_pid : Z;
  fl_nspid : Z;
  fl_file : Z;
  fl_start : Z;
  fl_end : Z;
  fl_break_time : Z;
  fl_ops : Z;
  fl_lmops : Z
}.

Definition set_next v '(FileLock _ b o f t p n fi s e bt op lm) := FileLock v b o f t p n fi s e bt op lm.
Definition set_block v '(FileLock x _ o f t p n fi s e bt op lm) := FileLock x v o f t p n fi s e bt op lm.
Definition set_flags v '(FileLock x b o _ t p n fi s e bt op lm) := FileLock x b o v t p n fi s e bt op lm.
Definition set_type v '(FileLock x b o f _ p n fi s e bt op lm) := FileLock x b o f v p n fi s e bt op lm.
Definition set_pid v '(FileLock x b o f t _ n fi s e bt op lm) := FileLock x b o f t v n fi s e bt op lm.
Definition set_nspid v '(FileLock x b o f t p _ fi s e bt op lm) := FileLock x b o f t p v fi s e bt op lm.
Definition set_file v '(FileLock x b o f t p n _ s e bt op lm) := FileLock x b o f t p n v s e bt op lm.
Definition set_start v '(FileLock x b o f t p n fi _ e bt op lm) := FileLock x b o f t p n fi v e bt op lm.
Definition set_end v '(FileLock x b o f t p n fi s _ bt op lm) := FileLock x b o f t p n fi s v bt op lm.
Definition set_break_time v '(FileLock x b o f t p n fi s e _ op lm) := FileLock x b o f t p n fi s e v op lm.
Definition set_ops v '(FileLock x b o f t p n fi s e bt _ lm) := FileLock x b o f t p n fi s e bt v lm.
Definition set_lmops v '(FileLock x b o f t p n fi s e bt op _) := FileLock x b o f t p n fi s e bt op v.

(** What [__locks_copy_lock] takes over. *)
Definition set_copy (f : file_lock) '(FileLock x b _ _ _ _ n _ _ _ bt _ _) :=
  FileLock x b (fl_owner f) (fl_flags f) (fl_type f) (fl_pid f) n 0 (fl_start f) (fl_end f) bt 0 0.

Definition IS_POSIX (f : file_lock) : bool := truthy (fl_flags f .& FL_POSIX).
Definition IS_FLOCK (f : file_lock) : bool := truthy (fl_flags f .& FL_FLOCK).
Definition IS_LEASE (f : file_lock) : bool := truthy (fl_flags f .& FL_LEASE).

(** Calls that leave this file. *)
Inductive lock_event :=
  | Wake (waiter : Z)            (** [wake_up(&waiter->fl_wait)] *)
  | Notify (waiter : Z)          (** [fl_lmops->fl_notify] *)
  | Release (ops fl : Z)         (** [fl_release_private] *)
  | Copied (ops new fl : Z)      (** [fl_ops->fl_copy_lock] *)
  | Broken (fl : Z).             (** [fl_lmops->fl_break] *)

Record locks := Locks {
  lk_mem : gmap Z file_lock;
  lk_inodes : gmap Z Z;          (** [i_flock] of the inodes that have locks *)
  file_lock_list : list Z;
  blocked_list : list Z;
  lk_events : list lock_event
}.

(** The operations of a file system or lock manager: which callbacks the table
    at an address has, and its comparison of owners. *)
Class LockOps := {
  has_release : Z -> bool;
  has_copy : Z -> bool;
  has_notify : Z -> bool;
  fl_compare_owner : Z -> option (file_lock -> file_lock -> bool)
}.

Definition get (w : locks) (p : Z) : option file_lock := lk_mem w !! p.
Definition with_mem (w : locks) (m : gmap Z file_lock) : locks :=
  Locks m (lk_inodes w) (file_lock_list w) (blocked_list w) (lk_events w).
Definition put (w : locks) (p : Z) (f : file_lock) : locks := with_mem w (<[p := f]> (lk_mem w)).
Definition upd (w : locks) (p : Z) (g : file_lock -> file_lock) : option locks := f ← get w p; Some (put w p (g f)).
Definition log (w : locks) (e : lock_event) : locks :=
  Locks (lk_mem w) (lk_inodes w) (file_lock_list w) (blocked_list w) (lk_events w ++ [e]).

(** What a [struct file_lock **] points to. *)
Inductive slot := Head (inode : Z) | Next (p : Z).
#[export] Instance slot_eq_dec : EqDecision slot.
Proof. solve_decision. Defined.
Definition i_flock (w : locks) (inode : Z) : Z := default 0 (lk_inodes w !! inode).
Definition load (w : locks) (s : slot) : option Z :=
  match s with Head i => Some (i_flock w i) | Next p => f ← get w p; Some (fl_next f) end.
Definition store (w : locks) (s : slot) (v : Z) : option locks :=
  match s with
  | Head i => Some (Locks (lk_mem w) (<[i := v]> (lk_inodes w)) (file_lock_list w) (blocked_list w) (lk_events w))
  | Next p => upd w p (set_next v)
  end.

(** The loops go along a list of locks without repetition. *)
Definition locks_fuel (w : locks) : nat := S (size (lk_mem w)).

(** ** Lists of locks *)

Definition unlink (p : Z) (l : list Z) : list Z := filter (fun q => q <> p) l.

Definition list_del_link (w : locks) (p : Z) : locks :=
  Locks (lk_mem w) (lk_inodes w) (unlink p (file_lock_list w)) (unlink p (blocked_list w)) (lk_events w).
Definition link_empty (w : locks) (p : Z) : bool :=
  bool_decide (p ∉ file_lock_list w) && bool_decide (p ∉ blocked_list w).

(** [fl_block] of [p] is neither a queue with entries nor an entry. *)
Definition block_empty (w : locks) (p : Z) : option bool :=
  f ← get w p;
  Some (bool_decide (fl_block f = []) && forallb (fun '(_, g) => bool_decide (p ∉ fl_block g)) (map_to_list (lk_mem w))).
(** [list_del_init(&p->fl_block)] for an entry [p]; the head of a queue that has
    entries is never unlinked. *)
Definition list_del_block (w : locks) (p : Z) : option locks :=
  f ← get w p;
  if bool_decide (fl_block f = []) then Some (with_mem w ((fun g => set_block (unlink p (fl_block g)) g) <$> lk_mem w)) else None.

Section Operations.
Context {ops : LockOps}.

(** ** Locks *)

(** [kmem_cache_alloc] gives a new object or [NULL]. *)
Definition locks_alloc_lock (w : locks) (a : option (Z * file_lock)) : locks * Z :=
  match a with Some (p, f) => (put w p f, p) | None => (w, 0) end.

Definition locks_release_private (w : locks) (fl : Z) : option locks :=
  f ← get w fl;
  w ← (if truthy (fl_ops f) then
         let w := if has_release (fl_ops f) then log w (Release (fl_ops f) fl) else w in
         upd w fl (set_ops 0)
       else Some w);
  if truthy (fl_lmops f) then
    let w := if has_release (fl_lmops f) then log w (Release (fl_lmops f) fl) else w in
    upd w fl (set_lmops 0)
  else Some w.

Definition locks_free_lock (w : locks) (fl : Z) : option locks :=
  e ← block_empty w fl;
  if negb e || negb (link_empty w fl) then None else
  w ← locks_release_private w fl;
  Some (with_mem w (delete fl (lk_mem w))).

Definition locks_init_lock (f : file_lock) : file_lock :=
  FileLock 0 [] 0 0 0 0 0 0 0 0 (fl_break_time f) 0 0.

Definition locks_copy_private (w : locks) (new fl : Z) : option locks :=
  f ← get w fl;
  w ← (if truthy (fl_ops f) then
         let w := if has_copy (fl_ops f) then log w (Copied (fl_ops f) new fl) else w in
         upd w new (set_ops (fl_ops f))
       else Some w);
  if truthy (fl_lmops f) then upd w new (set_lmops (fl_lmops f)) else Some w.

Definition __locks_copy_lock (w : locks) (new fl : Z) : option locks := f ← get w fl; upd w new (set_copy f).

Definition locks_copy_lock (w : locks) (new fl : Z) : option locks :=
  w ← locks_release_private w new;
  w ← __locks_copy_lock w new fl;
  f ← get w fl;
  w ← upd w new (set_file (fl_file f));
  w ← upd w new (set_ops (fl_ops f));
  w ← upd w new (set_lmops (fl_lmops f));
  locks_copy_private w new fl.

(** ** Conflicts *)

Definition locks_overlap (fl1 fl2 : file_lock) : bool := (fl_start fl2 <=? fl_end fl1) && (fl_start fl1 <=? fl_end fl2).

Definition posix_same_owner (fl1 fl2 : file_lock) : bool :=
  match (if truthy (fl_lmops fl1) then fl_compare_owner (fl_lmops fl1) else None) with
  | Some cmp => (fl_lmops fl2 =? fl_lmops fl1) && cmp fl1 fl2
  | None => fl_owner fl1 =? fl_owner fl2
  end.

Definition locks_conflict (caller_fl sys_fl : file_lock) : bool :=
  if fl_type sys_fl =? F_WRLCK then true else
  if fl_type caller_fl =? F_WRLCK then true else false.

Definition posix_locks_conflict (caller_fl sys_fl : file_lock) : bool :=
  if negb (IS_POSIX sys_fl) || posix_same_owner caller_fl sys_fl then false else
  if negb (locks_overlap caller_fl sys_fl) then false else
  locks_conflict caller_fl sys_fl.

Definition flock_locks_conflict (caller_fl sys_fl : file_lock) : bool :=
  if negb (IS_FLOCK sys_fl) || (fl_file caller_fl =? fl_file sys_fl) then false else
  if truthy (fl_type caller_fl .& LOCK_MAND) || truthy (fl_type sys_fl .& LOCK_MAND) then false else
  locks_conflict caller_fl sys_fl.

(** ** Blocked requests *)

Definition __locks_delete_block (w : locks) (waiter : Z) : option locks :=
  w ← list_del_block w waiter;
  upd (list_del_link w waiter) waiter (set_next 0).

Definition locks_insert_block (w : locks) (blocker waiter : Z) : option locks :=
  e ← block_empty w waiter;
  if negb e then None else
  b ← get w blocker;
  w ← upd w blocker (set_block (fl_block b ++ [waiter]));
  w ← upd w waiter (set_next blocker);
  Some (if IS_POSIX b then
          Locks (lk_mem w) (lk_inodes w) (file_lock_list w) (waiter :: blocked_list w) (lk_events w)
        else w).

Definition locks_wake_up_blocks (w : locks) (blocker : Z) : option locks :=
  c_loop (locks_fuel w) (fun w =>
    b ← get w blocker;
    match fl_block b with
    | [] => Some (inr w)
    | waiter :: _ =>
        w ← __locks_delete_block w waiter;
        f ← get w waiter;
        Some (inl (log w (if truthy (fl_lmops f) && has_notify (fl_lmops f) then Notify waiter else Wake waiter)))
    end) w.

Definition posix_unblock_lock (w : locks) (waiter : Z) : option (locks * Z) :=
  f ← get w waiter;
  if truthy (fl_next f) then w ← __locks_delete_block w waiter; Some (w, 0) else Some (w, - ENOENT).

(** ** The list of an inode *)

(** [nspid] is [task_tgid(current)]. *)
Definition locks_insert_lock (nspid : Z) (w : locks) (pos : slot) (fl : Z) : option locks :=
  let w := Locks (lk_mem w) (lk_inodes w) (fl :: file_lock_list w) (blocked_list w) (lk_events w) in
  w ← upd w fl (set_nspid nspid);
  v ← load w pos;
  w ← upd w fl (set_next v);
  store w pos fl.

Definition locks_delete_lock (w : locks) (thisfl_p : slot) : option locks :=
  fl ← load w thisfl_p;
  f ← get w fl;
  w ← store w thisfl_p (fl_next f);
  w ← upd w fl (set_next 0);
  let w := list_del_link w fl in
  w ← upd w fl (set_nspid 0);
  w ← locks_wake_up_blocks w fl;
  locks_free_lock w fl.

(** The loops [for_each_lock] that look for a lock: from [s] on, the first slot
    whose lock answers [Some true], before the end and before a lock that answers
    [None]; and whether there is one. *)
Definition find_lock (w : locks) (s : slot) (test : file_lock -> option bool) : option (slot * bool) :=
  c_loop (locks_fuel w) (fun before =>
    fl ← load w before;
    if negb (truthy fl) then Some (inr (before, false)) else
    f ← get w fl;
    match test f with
    | None => Some (inr (before, false))
    | Some true => Some (inr (before, true))
    | Some false => Some (inl (Next fl))
    end) s.

(** ** POSIX locks *)

(** [pid_vnr] translates a [struct pid] to a number. *)
Definition posix_test_lock (pid_vnr : Z -> Z) (w : locks) (inode fl : Z) : option locks :=
  r ← get w fl;
  '(s, hit) ← find_lock w (Head inode) (fun f => Some (IS_POSIX f && posix_locks_conflict r f));
  if (hit : bool) then
    cfl ← load w s;
    c ← get w cfl;
    w ← __locks_copy_lock w fl cfl;
    if truthy (fl_nspid c) then upd w fl (set_pid (pid_vnr (fl_nspid c))) else Some w
  else upd w fl (set_type F_UNLCK).

Definition MAX_DEADLK_ITERATIONS : Z := 10.

(** What the owner of [block_fl] waits for, or 0. *)
Definition what_owner_is_waiting_for (w : locks) (block_fl : Z) : option Z :=
  b ← get w block_fl;
  (fix scan l := match l with
    | [] => Some 0
    | p :: l => f ← get w p; if posix_same_owner f b then Some (fl_next f) else scan l
    end) (blocked_list w).

Definition posix_locks_deadlock (w : locks) (caller_fl block_fl : Z) : option bool :=
  c_loop (Z.to_nat (MAX_DEADLK_ITERATIONS + 3)) (fun '(i, block_fl) =>
    block_fl ← what_owner_is_waiting_for w block_fl;
    if negb (truthy block_fl) then Some (inr false) else
    if MAX_DEADLK_ITERATIONS <? i then Some (inr false) else
    c ← get w caller_fl;
    b ← get w block_fl;
    if posix_same_owner c b then Some (inr true) else Some (inl (i + 1, block_fl))) (0, block_fl).

(** The local variables of [__posix_lock_file] in its second loop. *)
Record posix_scan := PosixScan {
  ps_w : locks;
  ps_before : slot;
  ps_request : Z;
  ps_left : Z;
  ps_right : Z;
  ps_added : bool
}.

(** One iteration over the locks of the owner: [inl] goes on, [inr] leaves. *)
Definition posix_step (s : posix_scan) : option (posix_scan + posix_scan) :=
  let '(PosixScan w before request lft rgt added) := s in
  fl ← load w before;
  if negb (truthy fl) then Some (inr s) else
  r ← get w request;
  f ← get w fl;
  if negb (posix_same_owner r f) then Some (inr s) else
  if fl_type r =? fl_type f then
    if fl_end f <? s64 (fl_start r - 1) then Some (inl (PosixScan w (Next fl) request lft rgt added)) else
    if fl_end r <? s64 (fl_start f - 1) then Some (inr s) else
    w ← (if fl_start r <? fl_start f then upd w fl (set_start (fl_start r)) else upd w request (set_start (fl_start f)));
    w ← (if fl_end f <? fl_end r then upd w fl (set_end (fl_end r)) else upd w request (set_end (fl_end f)));
    if (added : bool) then w ← locks_delete_lock w before; Some (inl (PosixScan w before request lft rgt added))
    else Some (inl (PosixScan w (Next fl) fl lft rgt true))
  else
    if fl_end f <? fl_start r then Some (inl (PosixScan w (Next fl) request lft rgt added)) else
    if fl_end r <? fl_start f then Some (inr s) else
    let added := if fl_type r =? F_UNLCK then true else added in
    let lft := if fl_start f <? fl_start r then fl else lft in
    if fl_end r <? fl_end f then Some (inr (PosixScan w before request lft fl added)) else
    if fl_start r <=? fl_start f then
      if (added : bool) then w ← locks_delete_lock w before; Some (inl (PosixScan w before request lft rgt added))
      else
        w ← locks_wake_up_blocks w fl;
        w ← upd w fl (set_start (fl_start r));
        w ← upd w fl (set_end (fl_end r));
        w ← upd w fl (set_type (fl_type r));
        w ← locks_release_private w fl;
        w ← locks_copy_private w fl request;
        Some (inl (PosixScan w (Next fl) fl lft rgt true))
    else Some (inl (PosixScan w (Next fl) request lft rgt added)).

(** What is left to do when the loop is done: insert the lock and cut the locks
    that it covers in part.  The result is the error and the structures that
    were not used. *)
Definition posix_finish (nspid new_fl new_fl2 : Z) (s : posix_scan) : option (locks * Z * Z * Z) :=
  let '(PosixScan w before request lft rgt added) := s in
  if truthy rgt && (lft =? rgt) && negb (truthy new_fl2) then Some (w, - ENOLCK, new_fl, new_fl2) else
  r ← get w request;
  if negb added && (fl_type r =? F_UNLCK) then
    Some (w, (if truthy (fl_flags r .& FL_EXISTS) then - ENOENT else 0), new_fl, new_fl2)
  else if negb added && negb (truthy new_fl) then Some (w, - ENOLCK, new_fl, new_fl2) else
  '(w, new_fl) ← (if negb added then
                    w ← locks_copy_lock w new_fl request;
                    w ← locks_insert_lock nspid w before new_fl;
                    Some (w, 0)
                  else Some (w, new_fl));
  '(w, lft, new_fl2) ← (if truthy rgt then
      '(w, lft, new_fl2) ← (if lft =? rgt then
           w ← locks_copy_lock w new_fl2 rgt;
           w ← locks_insert_lock nspid w before new_fl2;
           Some (w, new_fl2, 0)
         else Some (w, lft, new_fl2));
      r ← get w request;
      w ← upd w rgt (set_start (s64 (fl_end r + 1)));
      w ← locks_wake_up_blocks w rgt;
      Some (w, lft, new_fl2)
    else Some (w, lft, new_fl2));
  w ← (if truthy lft then
         r ← get w request;
         w ← upd w lft (set_end (s64 (fl_start r - 1)));
         locks_wake_up_blocks w lft
       else Some w);
  Some (w, 0, new_fl, new_fl2).

(** A conflict with the lock of another owner: an error, or the request waits. *)
Definition posix_blocked (w : locks) (request conflock fl : Z) : option (locks * Z) :=
  r ← get w request;
  w ← (if truthy conflock then __locks_copy_lock w conflock fl else Some w);
  if negb (truthy (fl_flags r .& FL_SLEEP)) then Some (w, - EAGAIN) else
  d ← posix_locks_deadlock w request fl;
  if (d : bool) then Some (w, - EDEADLK) else
  w ← locks_insert_block w fl request;
  Some (w, FILE_LOCK_DEFERRED).

Definition free_unused (w : locks) (fl : Z) : option locks := if truthy fl then locks_free_lock w fl else Some w.

(** [a1] and [a2] are the results of the two allocations. *)
Definition __posix_lock_file (nspid : Z) (a1 a2 : option (Z * file_lock)) (w : locks) (inode request conflock : Z)
    : option (locks * Z) :=
  r ← get w request;
  let '(w, new_fl, new_fl2) :=
    if negb (truthy (fl_flags r .& FL_ACCESS)) &&
       (negb (fl_type r =? F_UNLCK) || negb (fl_start r =? 0) || negb (fl_end r =? OFFSET_MAX)) then
      let '(w, new_fl) := locks_alloc_lock w a1 in
      let '(w, new_fl2) := locks_alloc_lock w a2 in
      (w, new_fl, new_fl2)
    else (w, 0, 0) in
  '(before, hit) ← (if negb (fl_type r =? F_UNLCK) then
                      find_lock w (Head inode) (fun f => Some (IS_POSIX f && posix_locks_conflict r f))
                    else Some (Head inode, false));
  '(w, error, new_fl, new_fl2) ←
    (if (hit : bool) then
       fl ← load w before;
       '(w, error) ← posix_blocked w request conflock fl;
       Some (w, error, new_fl, new_fl2)
     else if truthy (fl_flags r .& FL_ACCESS) then Some (w, 0, new_fl, new_fl2)
     else
       '(before, _) ← find_lock w (Head inode) (fun f => Some (negb (negb (IS_POSIX f) || negb (posix_same_owner r f))));
       s ← c_loop (locks_fuel w) posix_step (PosixScan w before request 0 0 false);
       posix_finish nspid new_fl new_fl2 s);
  w ← free_unused w new_fl;
  w ← free_unused w new_fl2;
  Some (w, error).

(** ** BSD locks *)

(** Up to the point where the lock is dropped: [inl] is the result of the call,
    [inr] the allocated structure with which it goes on, and whether the lock is
    dropped in between. *)
Definition flock_first (a : option (Z * file_lock)) (w : locks) (inode filp request : Z) : option (locks * (Z + Z * bool)) :=
  r ← get w request;
  let need := negb (truthy (fl_flags r .& FL_ACCESS)) && negb (fl_type r =? F_UNLCK) in
  let '(w, new_fl) := if need then locks_alloc_lock w a else (w, 0) in
  if need && negb (truthy new_fl) then Some (w, inl (- ENOMEM)) else
  if truthy (fl_flags r .& FL_ACCESS) then Some (w, inr (new_fl, false)) else
  '(before, hit) ← find_lock w (Head inode) (fun f =>
     if IS_POSIX f then None else if IS_LEASE f then Some false else Some (filp =? fl_file f));
  same ← (if (hit : bool) then fl ← load w before; f ← get w fl; Some (fl_type r =? fl_type f) else Some false);
  if (same : bool) then w ← free_unused w new_fl; Some (w, inl 0) else
  w ← (if (hit : bool) then locks_delete_lock w before else Some w);
  if fl_type r =? F_UNLCK then
    w ← free_unused w new_fl;
    Some (w, inl (if truthy (fl_flags r .& FL_EXISTS) && negb hit then - ENOENT else 0))
  else Some (w, inr (new_fl, hit)).

(** From [find_conflict] on. *)
Definition flock_second (nspid : Z) (w : locks) (inode request new_fl : Z) : option (locks * Z) :=
  r ← get w request;
  '(before, hit) ← find_lock w (Head inode) (fun f =>
     if IS_POSIX f then None else if IS_LEASE f then Some false else Some (flock_locks_conflict r f));
  '(w, error, new_fl) ←
    (if (hit : bool) then
       if negb (truthy (fl_flags r .& FL_SLEEP)) then Some (w, - EAGAIN, new_fl) else
       fl ← load w before;
       w ← locks_insert_block w fl request;
       Some (w, FILE_LOCK_DEFERRED, new_fl)
     else if truthy (fl_flags r .& FL_ACCESS) then Some (w, 0, new_fl)
     else
       w ← locks_copy_lock w new_fl request;
       w ← locks_insert_lock nspid w before new_fl;
       Some (w, 0, 0));
  w ← free_unused w new_fl;
  Some (w, error).

(** [cond_resched] is what other tasks do while the lock is dropped. *)
Definition flock_lock_file (cond_resched : locks -> option locks) (nspid : Z) (a : option (Z * file_lock))
    (w : locks) (inode filp request : Z) : option (locks * Z) :=
  '(w, r) ← flock_first a w inode filp request;
  match r with
  | inl error => Some (w, error)
  | inr (new_fl, found) => w ← (if (found : bool) then cond_resched w else Some w); flock_second nspid w inode request new_fl
  end.

End Operations.
