(* ===== verification/LocksIntervals.v ===== *)
(** * File locks: the ranges of one owner

    The locks of one owner on one file as a list of ranges with a type.  [place]
    is what setting a lock does to it; it keeps the list sorted, disjoint and
    merged, and changes exactly the bytes of the lock. *)

From S2P Require Import Prelude Locks.
Open Scope Z_scope.
Open Scope c_scope.

(** Type, first and last byte. *)
Abbreviation range := (Z * Z * Z)%type.

Definition emit (t s e : Z) : list range := if t =? F_UNLCK then [] else [(t, s, e)].

Fixpoint place (t s e : Z) (l : list range) : list range :=
  match l with
  | [] => emit t s e
  | (t', s', e') :: rest =>
      if t =? t' then
        if e' <? s - 1 then (t', s', e') :: place t s e rest
        else if e <? s' - 1 then emit t s e ++ l
        else place t (Z.min s s') (Z.max e e') rest
      else
        if e' <? s then (t', s', e') :: place t s e rest
        else if e <? s' then emit t s e ++ l
        else (if s' <? s then [(t', s', s - 1)] else []) ++
             (if e <? e' then emit t s e ++ (t', e + 1, e') :: rest else place t s e rest)
  end.

(** The lock on byte [x]. *)
Fixpoint held (l : list range) (x : Z) : option Z :=
  match l with
  | [] => None
  | (t, s, e) :: rest => if (s <=? x) && (x <=? e) then Some t else held rest x
  end.

Definition range_ok (r : range) : Prop :=
  let '(t, s, e) := r in (t = F_RDLCK \/ t = F_WRLCK) /\ 0 <= s <= e /\ e <= OFFSET_MAX.

(** Sorted by address, disjoint, and no two neighbours that could be one. *)
Definition follows (prev : option (Z * Z)) (t s : Z) : Prop :=
  match prev with None => True | Some (t', e') => e' < s /\ (t' = t -> e' + 1 < s) end.
Fixpoint ranges_ok (prev : option (Z * Z)) (l : list range) : Prop :=
  match l with
  | [] => True
  | (t, s, e) :: rest => range_ok (t, s, e) /\ follows prev t s /\ ranges_ok (Some (t, e)) rest
  end.

Lemma ranges_weaken prev prev' l : (forall t s e, head l = Some (t, s, e) -> follows prev t s -> follows prev' t s) ->
  ranges_ok prev l -> ranges_ok prev' l.
Proof. destruct l as [|[[t s] e] l]; [done|]. intros H (H1 & H2 & H3). split_and!; [done| |done]. by apply (H t s e). Qed.

(** Everything after [prev] is above it. *)
Lemma ranges_above prev l t s e : ranges_ok prev l -> (t, s, e) ∈ l -> match prev with None => True | Some (_, e') => e' < s end.
Proof.
  revert prev. induction l as [|[[t1 s1] e1] l IH]; intros prev H Hin; [by apply elem_of_nil in Hin|]. destruct H as ((Hr1 & Hr2 & Hr3) & H2 & H3).
  apply elem_of_cons in Hin as [[= -> -> ->] | Hin]; [destruct prev as [[]|]; [by destruct H2 | done]|].
  specialize (IH _ H3 Hin). simpl in IH. destruct prev as [[t0 e0]|]; [|done]. destruct H2. lia.
Qed.

Lemma held_below prev l x : ranges_ok prev l -> match prev with None => False | Some (_, e') => x <= e' end -> held l x = None.
Proof.
  revert prev. induction l as [|[[t s] e] l IH]; intros [[t0 e0]|] H Hx; try done. destruct H as ((Hr1 & Hr2 & Hr3) & [H2 _] & H3). simpl.
  rewrite (proj2 (Z.leb_gt s x)) by lia. simpl. apply (IH (Some (t, e)) H3). lia.
Qed.

Lemma held_emit t s e l x : held (emit t s e ++ l) x =
  if (s <=? x) && (x <=? e) && negb (t =? F_UNLCK) then Some t else held l x.
Proof. unfold emit. destruct (t =? F_UNLCK); simpl; [by rewrite andb_false_r | by rewrite andb_true_r]. Qed.

Lemma ranges_emit prev t s e l : (t = F_UNLCK \/ range_ok (t, s, e)) -> follows prev t s ->
  (t <> F_UNLCK -> ranges_ok (Some (t, e)) l) -> (t = F_UNLCK -> ranges_ok prev l) -> ranges_ok prev (emit t s e ++ l).
Proof.
  intros H1 H2 H3 H4. unfold emit. destruct (Z.eqb_spec t F_UNLCK) as [->|Hn]; [by apply H4|].
  split; [by destruct H1 | split; [done | by apply H3]].
Qed.

Ltac ranges := unfold range_ok, follows, F_UNLCK, F_RDLCK, F_WRLCK in *; simpl in *; intuition lia.

Lemma ranges_skip prev t s e l : ranges_ok prev ((t, s, e) :: l) -> ranges_ok prev l.
Proof.
  intros ((_ & Hr & _) & Hf & H). apply (ranges_weaken (Some (t, e))); [|done]. intros t1 s1 e1 _ [K1 K2].
  destruct prev as [[t0 e0]|]; [|done]. simpl in *. lia.
Qed.

Lemma place_ranges t s e l prev : ranges_ok prev l -> (t = F_UNLCK \/ range_ok (t, s, e)) -> 0 <= s <= e -> follows prev t s ->
  ranges_ok prev (place t s e l).
Proof.
  revert s e prev. induction l as [|[[t' s'] e'] l IH]; intros s e prev H Ht Hs Hf.
  - simpl. rewrite <- (app_nil_r (emit t s e)). by apply ranges_emit.
  - pose proof (ranges_skip _ _ _ _ _ H) as Hl. destruct H as (Hr & Hf' & H). simpl.
    destruct (Z.eqb_spec t t') as [->|Hn].
    + assert (t' <> F_UNLCK) as Hu by ranges.
      destruct (Z.ltb_spec e' (s - 1)); [|destruct (Z.ltb_spec e (s' - 1))].
      * split_and!; [done..|]. apply IH; [done..|]. split; lia.
      * apply ranges_emit; [done..| |done]. intros _. split_and!; [done| |done]. split; lia.
      * apply IH; [done|ranges|ranges|]. destruct prev as [[]|]; ranges.
    + destruct (Z.ltb_spec e' s); [|destruct (Z.ltb_spec e s')].
      * split_and!; [done..|]. apply IH; [done..|]. split; [lia | congruence].
      * apply ranges_emit; [done|done| |done]. intros _. split_and!; [done| |done]. split; [lia | congruence].
      * set (prev1 := if s' <? s then Some (t', s - 1) else prev).
        assert (ranges_ok prev1 (if e <? e' then emit t s e ++ (t', e + 1, e') :: l else place t s e l)) as Hg.
        { assert (follows prev1 t s) as F1 by (unfold prev1; destruct (Z.ltb_spec s' s); [split; [lia | congruence] | done]).
          assert (ranges_ok prev1 l) as R1.
          { unfold prev1. destruct (Z.ltb_spec s' s); [|done]. apply (ranges_weaken (Some (t', e'))); [|done]. intros t1 s1 e1 _ [K1 K2]. split; [lia|]. intros ->. lia. }
          destruct (Z.ltb_spec e e'); [|by apply IH].
          apply ranges_emit; [done..| |]; intros Hu; (split; [ranges | split; [|done]]); [split; [lia|congruence]|].
          unfold prev1. destruct (Z.ltb_spec s' s); [split; [lia|intros; lia]|]. destruct prev as [[]|]; ranges. }
        unfold prev1 in Hg. destruct (Z.ltb_spec s' s); simpl; [|done]. split; [ranges | done].
Qed.

Lemma place_held t s e l x prev : ranges_ok prev l -> s <= e ->
  held (place t s e l) x = if (s <=? x) && (x <=? e) then (if t =? F_UNLCK then None else Some t) else held l x.
Proof.
  revert s e prev. induction l as [|[[t' s'] e'] l IH]; intros s e prev H Hs.
  - simpl. rewrite <- (app_nil_r (emit t s e)), held_emit. simpl. destruct ((s <=? x) && (x <=? e)), (t =? F_UNLCK); done.
  - destruct H as (Hr & Hf' & H). assert (0 <= s' <= e') as Hse by ranges. simpl.
    assert (x <= e' -> held l x = None) as Hlow by (intros Hx; by apply (held_below (Some (t', e')))).
    assert (forall y, held (emit t s e ++ (t', y, e') :: l) x = if (s <=? x) && (x <=? e) && negb (t =? F_UNLCK) then Some t else
       if (y <=? x) && (x <=? e') then Some t' else held l x) as He by (intros y; apply held_emit).
    destruct (Z.eqb_spec t t') as [->|Hn].
    + assert ((t' =? F_UNLCK) = false) as Hu by (apply Z.eqb_neq; ranges).
      destruct (Z.ltb_spec e' (s - 1)); [|destruct (Z.ltb_spec e (s' - 1))]; [simpl; rewrite (IH _ _ _ H Hs)|rewrite He|rewrite (IH _ _ _ H) by lia]; rewrite Hu;
        destruct (Z.leb_spec s' x), (Z.leb_spec x e'), (Z.leb_spec s x), (Z.leb_spec x e), (Z.leb_spec (Z.min s s') x), (Z.leb_spec x (Z.max e e')); simpl; try done; try lia.
    + destruct (Z.ltb_spec e' s); [|destruct (Z.ltb_spec e s')]; [simpl; rewrite (IH _ _ _ H Hs)|rewrite He|].
      * destruct (Z.leb_spec s' x), (Z.leb_spec x e'), (Z.leb_spec s x), (Z.leb_spec x e); simpl; try done; lia.
      * destruct (Z.leb_spec s' x), (Z.leb_spec x e'), (Z.leb_spec s x), (Z.leb_spec x e), (t =? F_UNLCK); simpl; try done; try lia; by rewrite Hlow by lia.
      * assert (held (if e <? e' then emit t s e ++ (t', e + 1, e') :: l else place t s e l) x =
          if (s <=? x) && (x <=? e) then (if t =? F_UNLCK then None else Some t) else if (e + 1 <=? x) && (x <=? e') then Some t' else held l x) as Hg.
        { destruct (Z.ltb_spec e e'); [rewrite He|rewrite (IH _ _ _ H Hs)];
            destruct (Z.leb_spec s x), (Z.leb_spec x e), (t =? F_UNLCK), (Z.leb_spec (e + 1) x), (Z.leb_spec x e'); simpl; try done; try lia; by rewrite Hlow by lia. }
        destruct (Z.ltb_spec s' s); simpl; rewrite Hg;
          destruct (Z.leb_spec s' x), (Z.leb_spec x (s - 1)), (Z.leb_spec s x), (Z.leb_spec x e), (Z.leb_spec (e + 1) x), (Z.leb_spec x e'); simpl; try done; try lia; by rewrite Hlow by lia.
Qed.

(** Only ranges below the lock are passed over, and what they leave is not empty. *)
Lemma place_nil t s e l : place t s e l = [] -> t = F_UNLCK.
Proof.
  assert (forall t s e k, emit t s e ++ k = [] -> t = F_UNLCK) as He.
  { intros t0 s0 e0 k. unfold emit. by destruct (Z.eqb_spec t0 F_UNLCK). }
  revert s e. induction l as [|[[t' s'] e'] l IH]; intros s e; simpl.
  - rewrite <- (app_nil_r (emit t s e)). apply He.
  - destruct (t =? t').
    + destruct (e' <? s - 1); [done|]. destruct (e <? s' - 1); [apply He | apply IH].
    + destruct (e' <? s); [done|]. destruct (e <? s'); [apply He|]. destruct (s' <? s); [done|]. simpl. destruct (e <? e'); [apply He | apply IH].
Qed.
