(* ===== verification/LocksRepr.v ===== *)
(** * File locks: the shape of the lists

    A [shape] is what the memory of [Locks] stands for: for every inode the
    sequence of its locks, for every lock the sequence of the requests that wait
    for it, and the other fields of every structure.  [repr] relates the two;
    each primitive operation of the code is one operation on shapes. *)

From stdpp Require Import gmap functions.
From S2P Require Import Prelude Locks.
From stdpp Require Import list.
Open Scope Z_scope.
Open Scope c_scope.

(** [set_solver] on the facts about membership and identity alone. *)
Ltac list_solver :=
  solve [repeat match goal with
         | H : ?P |- _ =>
           lazymatch type of P with Prop => idtac end;
           lazymatch P with
           | _ ∈ _ => fail | _ ∉ _ => fail | @eq Z _ _ => fail | @eq (list Z) _ _ => fail | ~ @eq Z _ _ => fail | _ \/ _ => fail
           | _ => clear H
           end
         end; set_solver].

(** ** Sequences *)

Lemma elem_of_unlink p q l : q ∈ unlink p l <-> q ∈ l /\ q <> p.
Proof. unfold unlink. rewrite list_elem_of_filter. tauto. Qed.

Lemma unlink_notin p l : p ∉ l -> unlink p l = l.
Proof.
  unfold unlink. induction l as [|x l IH]; [done|]. intros H. rewrite filter_cons_True by set_solver. by rewrite IH by set_solver.
Qed.

Lemma unlink_middle p pre post : p ∉ pre -> p ∉ post -> unlink p (pre ++ p :: post) = pre ++ post.
Proof.
  intros H1 H2. unfold unlink. rewrite list.filter_app, filter_cons_False by tauto.
  change (unlink p pre ++ unlink p post = pre ++ post). by rewrite !unlink_notin.
Qed.

Lemma filter_whole (P : Z -> Prop) `{!forall x, Decision (P x)} (l : list Z) : (forall x, x ∈ l -> P x) -> filter P l = l.
Proof.
  induction l as [|x l IH]; [done|]. intros HP. rewrite filter_cons_True by (apply HP; set_solver). rewrite IH; [done|].
  intros y Hy. apply HP. set_solver.
Qed.

Lemma NoDup_unlink p l : NoDup l -> NoDup (unlink p l).
Proof. apply list.NoDup_filter. Qed.

(** ** Shapes *)

(** The fields that do not belong to a list. *)
Definition strip (f : file_lock) : file_lock := set_next 0 (set_block [] f).

Record shape := Shape {
  sh_info : gmap Z file_lock;
  sh_list : Z -> list Z;
  sh_queue : Z -> list Z;
  sh_blocked : list Z;
  sh_all : list Z;
  sh_events : list lock_event
}.

Definition listed (a : shape) (p : Z) : Prop := exists i, p ∈ sh_list a i.
Definition waits (a : shape) (q : Z) : Prop := exists b, q ∈ sh_queue a b.

Fixpoint chain (w : locks) (s : slot) (l : list Z) : Prop :=
  match l with
  | [] => load w s = Some 0
  | p :: l => load w s = Some p /\ p <> 0 /\ chain w (Next p) l
  end.

Record repr (w : locks) (a : shape) : Prop := {
  r_info p : sh_info a !! p = strip <$> get w p;
  r_queue p f : get w p = Some f -> fl_block f = sh_queue a p;
  r_chain i : chain w (Head i) (sh_list a i);
  r_idle p f : get w p = Some f -> ~ listed a p -> ~ waits a p -> fl_next f = 0;
  r_wait p f b : get w p = Some f -> p ∈ sh_queue a b -> fl_next f = b;
  r_blocked : blocked_list w = sh_blocked a;
  r_all : file_lock_list w = sh_all a;
  r_events : lk_events w = sh_events a
}.

Record wf (a : shape) : Prop := {
  wf_null : sh_info a !! 0 = None;
  wf_listed i p : p ∈ sh_list a i -> is_Some (sh_info a !! p);
  wf_nodup i : NoDup (sh_list a i);
  wf_disj i j p : p ∈ sh_list a i -> p ∈ sh_list a j -> i = j;
  wf_queue b : NoDup (sh_queue a b);
  wf_waiter b q : q ∈ sh_queue a b -> is_Some (sh_info a !! q) /\ ~ listed a q /\ sh_queue a q = [];
  wf_one q b b' : q ∈ sh_queue a b -> q ∈ sh_queue a b' -> b = b';
  wf_blocked : NoDup (sh_blocked a) /\
    forall q, q ∈ sh_blocked a <-> exists b f, sh_info a !! b = Some f /\ IS_POSIX f = true /\ q ∈ sh_queue a b;
  wf_all : NoDup (sh_all a) /\ forall p, p ∈ sh_all a <-> listed a p
}.

(** A structure that is in no list and on which nothing waits. *)
Definition idle (a : shape) (p : Z) : Prop :=
  is_Some (sh_info a !! p) /\ ~ listed a p /\ ~ waits a p /\ sh_queue a p = [].

(** ** Chains *)

Definition slot_after (i : Z) (pre : list Z) : slot := match last pre with Some p => Next p | None => Head i end.

Lemma slot_after_snoc i pre p : slot_after i (pre ++ [p]) = Next p.
Proof. unfold slot_after. by rewrite last_snoc. Qed.

Lemma chain_app w i pre post : chain w (Head i) (pre ++ post) -> chain w (slot_after i pre) post.
Proof.
  enough (forall s, chain w s (pre ++ post) -> chain w (match last pre with Some p => Next p | None => s end) post) as H by apply H.
  induction pre as [|p pre IH]; intros s H; [done|]. destruct H as (_ & _ & H). specialize (IH _ H).
  destruct pre as [|q pre]; [done|]. change (last (p :: q :: pre)) with (last (q :: pre)).
  destruct (last (q :: pre)) eqn:E; [done|]. by apply last_None in E.
Qed.

(** Only the links along the chain matter. *)
Lemma chain_ext w w' s l : load w' s = load w s ->
  (forall p, p ∈ l -> fl_next <$> get w' p = fl_next <$> get w p) -> chain w s l -> chain w' s l.
Proof.
  revert s. induction l as [|p l IH]; intros s E H; simpl; [by rewrite E|]. rewrite E. intros (H1 & H2 & H3).
  split_and!; [done..|]. apply IH; [|set_solver|done]. specialize (H p ltac:(set_solver)). simpl.
  destruct (get w' p), (get w p); simpl in *; congruence.
Qed.

Lemma chain_in w s l p : chain w s l -> p ∈ l -> exists f, get w p = Some f /\ p <> 0.
Proof.
  revert s. induction l as [|q l IH]; intros s H Hp; [by apply elem_of_nil in Hp|]. destruct H as (_ & Hq & H).
  apply elem_of_cons in Hp as [->|Hp]; [|by eapply IH].
  assert (exists v, load w (Next q) = Some v) as [v Ev] by (destruct l as [|x l]; [by exists 0 | by exists x; apply H]).
  simpl in Ev. destruct (get w q) as [f|]; [|done]. by exists f.
Qed.

(** A new value behind the slot at the end of [pre]. *)
Lemma chain_splice w w' i pre post post' : chain w (Head i) (pre ++ post) -> NoDup pre ->
  (forall p, p ∈ pre -> Some p <> last pre -> fl_next <$> get w' p = fl_next <$> get w p) ->
  (pre <> [] -> i_flock w' i = i_flock w i) ->
  chain w' (slot_after i pre) post' -> chain w' (Head i) (pre ++ post').
Proof.
  intros Hc Hnd Hpre Hi Hpost.
  destruct pre as [|p pre _] using rev_ind; [done|]. rewrite slot_after_snoc in Hpost.
  assert (load w' (Head i) = load w (Head i)) as E by (simpl; by rewrite Hi by (by destruct pre)). clear Hi.
  revert E Hc. generalize (Head i). rewrite last_snoc in Hpre.
  induction pre as [|q pre IH]; intros s E Hc.
  - destruct Hc as (H1 & H2 & _). simpl. rewrite E. done.
  - simpl in Hc |- *. destruct Hc as (H1 & H2 & H3). rewrite E. split_and!; [done..|]. inversion Hnd as [|? ? Hq Hnd']; subst. apply IH; [done|..|done].
    + intros x Hx Hxp. apply Hpre; [set_solver | done].
    + simpl. assert (fl_next <$> get w' q = fl_next <$> get w q) as Eq by (apply Hpre; [set_solver | intros [= ->]; set_solver]).
      destruct (get w' q), (get w q); simpl in *; congruence.
Qed.

(** ** Reading and writing *)

Lemma get_put w p f q : get (put w p f) q = if decide (q = p) then Some f else get w q.
Proof. unfold get, put. simpl. destruct (decide (q = p)) as [->|Hn]; [by simplify_map_eq | by rewrite lookup_insert_ne]. Qed.

Lemma upd_Some w p g f : get w p = Some f -> upd w p g = Some (put w p (g f)).
Proof. intros E. unfold upd. by rewrite E. Qed.

Lemma repr_get w a p f : repr w a -> sh_info a !! p = Some f ->
  exists g, get w p = Some g /\ f = strip g /\ fl_block g = sh_queue a p.
Proof.
  intros R E. rewrite (r_info w a R) in E. destruct (get w p) as [g|] eqn:Eg; [|done]. injection E as <-.
  exists g. by rewrite (r_queue w a R p g Eg).
Qed.

Lemma repr_dom w a p g : repr w a -> get w p = Some g -> sh_info a !! p = Some (strip g).
Proof. intros R E. by rewrite (r_info w a R), E. Qed.

(** Shapes that agree pointwise stand for the same memory. *)
Record same_shape (a a' : shape) : Prop := {
  ss_info : sh_info a' = sh_info a;
  ss_list i : sh_list a' i = sh_list a i;
  ss_queue b : sh_queue a' b = sh_queue a b;
  ss_blocked : sh_blocked a' = sh_blocked a;
  ss_all : sh_all a' = sh_all a;
  ss_events : sh_events a' = sh_events a
}.

Lemma repr_same w a a' : same_shape a a' -> repr w a -> repr w a'.
Proof.
  intros [E1 E2 E3 E4 E5 E6] [H1 H2 H3 H4 H5 H6 H7 H8]. split; try congruence.
  - intros p f. rewrite E3. apply H2.
  - intros i. rewrite E2. apply H3.
  - intros p f Hf Hl Hw. apply (H4 p f Hf).
    + intros [i Hi]. apply Hl. exists i. by rewrite E2.
    + intros [b Hb]. apply Hw. exists b. by rewrite E3.
  - intros p f b Hf. rewrite E3. by apply H5.
Qed.

(** ** Fields of a lock *)

(** A change that leaves the lists alone. *)
Definition data_setter (g : file_lock -> file_lock) : Prop :=
  forall f, strip (g f) = g (strip f) /\ fl_next (g f) = fl_next f /\ fl_block (g f) = fl_block f.

Ltac setter := intros []; done.
Lemma data_start v : data_setter (set_start v). Proof. setter. Qed.
Lemma data_end v : data_setter (set_end v). Proof. setter. Qed.
Lemma data_type v : data_setter (set_type v). Proof. setter. Qed.
Lemma data_pid v : data_setter (set_pid v). Proof. setter. Qed.
Lemma data_nspid v : data_setter (set_nspid v). Proof. setter. Qed.
Lemma data_file v : data_setter (set_file v). Proof. setter. Qed.
Lemma data_ops v : data_setter (set_ops v). Proof. setter. Qed.
Lemma data_lmops v : data_setter (set_lmops v). Proof. setter. Qed.
Lemma data_break_time v : data_setter (set_break_time v). Proof. setter. Qed.
Lemma data_copy f : data_setter (set_copy f). Proof. setter. Qed.

Create HintDb setters.
#[export] Hint Resolve data_start data_end data_type data_pid data_nspid data_file data_ops data_lmops data_break_time data_copy : setters.

Definition sh_upd (a : shape) (p : Z) (g : file_lock -> file_lock) : shape :=
  Shape (alter g p (sh_info a)) (sh_list a) (sh_queue a) (sh_blocked a) (sh_all a) (sh_events a).

Lemma listed_upd a p g q : listed (sh_upd a p g) q <-> listed a q. Proof. done. Qed.

Lemma load_put w p f g s : get w p = Some f -> fl_next g = fl_next f -> load (put w p g) s = load w s.
Proof.
  intros Ef E. destruct s as [i|q]; [done|]. simpl. rewrite get_put. destruct (decide (q = p)) as [->|]; [|done].
  rewrite Ef. simpl. by rewrite E.
Qed.

Lemma chain_put w p f g s l : get w p = Some f -> fl_next g = fl_next f -> chain w s l -> chain (put w p g) s l.
Proof.
  intros Ef E. apply chain_ext; [by eapply load_put|]. intros q _. rewrite get_put. destruct (decide (q = p)) as [->|]; [|done].
  rewrite Ef. simpl. by rewrite E.
Qed.

Lemma upd_ok w a p g : repr w a -> is_Some (sh_info a !! p) -> data_setter g ->
  exists w', upd w p g = Some w' /\ repr w' (sh_upd a p g).
Proof.
  intros R [h Hh] Hg. destruct (repr_get w a p h R Hh) as (f & Ef & -> & Hb). rewrite (upd_Some _ _ _ _ Ef). eexists. split; [done|].
  destruct (Hg f) as (G1 & G2 & G3). pose proof R as [H1 H2 H3 H4 H5 H6 H7 H8]. split; simpl; try done.
  - intros q. rewrite get_put. destruct (decide (q = p)) as [->|Hn]; simplify_map_eq; [|apply H1]. by rewrite G1.
  - intros q h. rewrite get_put. destruct (decide (q = p)) as [->|Hn]; [intros [= <-]; congruence | apply H2].
  - intros i. by apply (chain_put _ _ _ _ _ _ Ef).
  - intros q h. rewrite get_put. destruct (decide (q = p)) as [->|Hn]; [intros [= <-]; rewrite G2; by apply H4 | by apply H4].
  - intros q h b. rewrite get_put. destruct (decide (q = p)) as [->|Hn]; [intros [= <-]; rewrite G2; by apply H5 | by apply H5].
Qed.

Lemma is_Some_upd a p g q : is_Some (sh_info a !! q) -> is_Some (sh_info (sh_upd a p g) !! q).
Proof. intros [f Hf]. simpl. destruct (decide (q = p)) as [->|]; simplify_map_eq; eauto. Qed.

Lemma wf_upd a p g : wf a -> (forall f, sh_info a !! p = Some f -> IS_POSIX (g f) = IS_POSIX f) -> wf (sh_upd a p g).
Proof.
  intros [H1 H2 H3 H4 H5 H6 H7 [H8 H8'] H9] Hg. split; simpl; try done.
  - destruct (decide (p = 0)) as [->|]; by simplify_map_eq.
  - intros i q Hq. apply is_Some_upd. by apply (H2 i).
  - intros b q Hq. destruct (H6 b q Hq) as (K1 & K2). split; [by apply is_Some_upd | done].
  - split; [done|]. intros q. rewrite H8'. split; intros (b & f & Ef & Hp & Hq).
    + destruct (decide (b = p)) as [->|Hn]; [|exists b, f; by simplify_map_eq].
      exists p, (g f). simplify_map_eq. by rewrite Hg.
    + destruct (decide (b = p)) as [->|Hn]; simplify_map_eq; [|by exists b, f].
      apply fmap_Some in Ef as (h & Eh & ->). exists p, h. by rewrite <- Hg.
Qed.

(** ** Searching a list *)

Lemma chain_load w s p l : chain w s (p :: l) -> load w s = Some p.
Proof. by intros [H _]. Qed.

Lemma load_after w a i pre post : repr w a -> sh_list a i = pre ++ post ->
  load w (slot_after i pre) = Some (default 0 (head post)).
Proof.
  intros R E. pose proof (r_chain w a R i) as Hc. rewrite E in Hc. apply chain_app in Hc. destruct post; [done | by eapply chain_load].
Qed.

Lemma chain_length w s l : chain w s l -> NoDup l -> (length l <= size (lk_mem w))%nat.
Proof.
  intros Hc Hn. rewrite <- (size_list_to_set (C := gset Z)) by done. rewrite <- size_dom. apply subseteq_size. intros p Hp.
  apply elem_of_list_to_set in Hp. destruct (chain_in w s l p Hc Hp) as (f & Ef & _). apply elem_of_dom. by exists f.
Qed.

(** Where a search stops: after locks that are passed over, at the end or at a
    lock that is not. *)
Inductive found (info : gmap Z file_lock) (test : file_lock -> option bool) (l : list Z) : list Z -> list Z -> bool -> Prop :=
  | found_end : (forall p f, p ∈ l -> info !! p = Some f -> test f = Some false) -> found info test l l [] false
  | found_at pre p post f : l = pre ++ p :: post -> (forall q g, q ∈ pre -> info !! q = Some g -> test g = Some false) ->
      info !! p = Some f -> test f <> Some false -> found info test l pre (p :: post) (bool_decide (test f = Some true)).

Lemma find_lock_ok w a i test : repr w a -> wf a -> (forall f, test f = test (strip f)) ->
  exists pre post hit, found (sh_info a) test (sh_list a i) pre post hit /\ sh_list a i = pre ++ post /\
    find_lock w (Head i) test = Some (slot_after i pre, hit).
Proof.
  intros R W Ht. pose proof (r_chain w a R i) as Hc. unfold find_lock.
  enough (forall post pre fuel, sh_list a i = pre ++ post -> (length post < fuel)%nat ->
    (forall q g, q ∈ pre -> sh_info a !! q = Some g -> test g = Some false) ->
    exists pre' post' hit, found (sh_info a) test (sh_list a i) pre' post' hit /\ sh_list a i = pre' ++ post' /\
      c_loop fuel (fun before =>
        fl ← load w before;
        if negb (truthy fl) then Some (inr (before, false)) else
        f ← get w fl;
        match test f with None => Some (inr (before, false)) | Some true => Some (inr (before, true)) | Some false => Some (inl (Next fl)) end)
        (slot_after i pre) = Some (slot_after i pre', hit)) as H.
  { apply (H (sh_list a i) []); [done| |set_solver]. pose proof (chain_length w _ _ Hc (wf_nodup a W i)). unfold locks_fuel. lia. }
  intros post. induction post as [|p post IH]; intros pre fuel E Hf Hpre; (destruct fuel as [|fuel]; [simpl in Hf; lia|]); simpl.
  - rewrite (load_after w a i pre [] R E). simpl. exists pre, [], false. split_and!; [|done..]. rewrite app_nil_r in E. rewrite E. by constructor.
  - rewrite (load_after w a i pre (p :: post) R E). simpl.
    assert (p ∈ sh_list a i) as Hp by (rewrite E; set_solver). destruct (wf_listed a W i p Hp) as [h Hh].
    destruct (repr_get w a p h R Hh) as (f & Ef & -> & _).
    assert (p <> 0) as Hp0 by (intros ->; by rewrite (wf_null a W) in Hh).
    unfold truthy. rewrite (proj2 (Z.eqb_neq p 0) Hp0). simpl. rewrite Ef. simpl. rewrite (Ht f).
    destruct (test (strip f)) as [[]|] eqn:Et.
    + exists pre, (p :: post), true. split_and!; [|done..].
      replace true with (bool_decide (test (strip f) = Some true)) by (by rewrite bool_decide_eq_true_2).
      econstructor; [done..|congruence].
    + rewrite <- (slot_after_snoc i pre p). apply IH; [by rewrite <- app_assoc | simpl in Hf; lia|].
      intros q g [Hq| ->%list_elem_of_singleton]%elem_of_app; [by apply Hpre | congruence].
    + exists pre, (p :: post), false. split_and!; [|done..].
      replace false with (bool_decide (test (strip f) = Some true)) by (by rewrite bool_decide_eq_false_2 by congruence).
      econstructor; [done..|congruence].
Qed.

(** ** Requests that stop waiting *)

Definition sh_unblock (a : shape) (q : Z) : shape :=
  Shape (sh_info a) (sh_list a) (fun b => unlink q (sh_queue a b)) (unlink q (sh_blocked a)) (sh_all a) (sh_events a).
Definition sh_log (a : shape) (e : lock_event) : shape :=
  Shape (sh_info a) (sh_list a) (sh_queue a) (sh_blocked a) (sh_all a) (sh_events a ++ [e]).

Lemma repr_log w a e : repr w a -> repr (log w e) (sh_log a e).
Proof.
  intros R. pose proof R as [H1 H2 H3 H4 H5 H6 H7 H8]. split; simpl; try done; [|by rewrite H8].
  intros i. apply (chain_ext w); [done..|apply H3].
Qed.
Lemma wf_log a e : wf a -> wf (sh_log a e).
Proof. by intros [H1 H2 H3 H4 H5 H6 H7 H8 H9]. Qed.

Lemma wf_unblock a q : wf a -> wf (sh_unblock a q).
Proof.
  intros [H1 H2 H3 H4 H5 H6 H7 [H8 H8'] H9]. split; simpl; try done.
  - intros b. by apply NoDup_unlink.
  - intros b p [Hp _]%elem_of_unlink. destruct (H6 b p Hp) as (K1 & K2 & K3). by rewrite K3.
  - intros p b b' [Hb _]%elem_of_unlink [Hb' _]%elem_of_unlink. by apply (H7 p).
  - split; [by apply NoDup_unlink|]. intros p. rewrite elem_of_unlink, H8'. split.
    + intros [(b & f & E & Hp & Hb) Hn]. exists b, f. by rewrite elem_of_unlink.
    + intros (b & f & E & Hp & [Hb Hn]%elem_of_unlink). split; [|done]. by exists b, f.
Qed.

Lemma not_listed_all a q : wf a -> ~ listed a q -> unlink q (sh_all a) = sh_all a.
Proof. intros W Hq. apply unlink_notin. by rewrite (proj2 (wf_all a W)). Qed.

Lemma delete_block_ok w a q : repr w a -> wf a -> is_Some (sh_info a !! q) -> ~ listed a q ->
  sh_queue a q = [] -> exists w', __locks_delete_block w q = Some w' /\ repr w' (sh_unblock a q).
Proof.
  intros R W [h Hh] Hl Hq. destruct (repr_get w a q h R Hh) as (f & Ef & -> & Hb).
  pose proof R as [H1 H2 H3 H4 H5 H6 H7 H8].
  unfold __locks_delete_block, list_del_block. rewrite Ef, bind_Some_eq, Hb, Hq, bool_decide_eq_true_2, bind_Some_eq by done.
  set (m := (fun g => set_block (unlink q (fl_block g)) g) <$> lk_mem w).
  set (w1 := list_del_link (with_mem w m) q).
  assert (forall p, get w1 p = (fun g => set_block (unlink q (fl_block g)) g) <$> get w p) as G1
    by (intros p; unfold get, w1, list_del_link, with_mem; cbn [lk_mem]; unfold m; by rewrite lookup_fmap).
  assert (get w1 q = Some (set_block (unlink q (fl_block f)) f)) as Eq by (by rewrite G1, Ef).
  rewrite (upd_Some _ _ _ _ Eq). eexists. split; [done|].
  assert (forall p, get (put w1 q (set_next 0 (set_block (unlink q (fl_block f)) f))) p =
    (fun g => set_block (unlink q (fl_block g)) (if decide (p = q) then set_next 0 g else g)) <$> get w p) as G.
  { intros p. rewrite get_put, G1. destruct (decide (p = q)) as [->|]; [rewrite Ef; by destruct f | done]. }
  split; simpl; try done.
  - intros p. rewrite G, H1. destruct (get w p) as [[]|]; simpl; [|done]. by destruct (decide (p = q)).
  - intros p g. rewrite G. destruct (get w p) as [g0|] eqn:Ep; [|done]. intros [= <-]. rewrite <- (H2 p g0 Ep).
    by destruct g0, (decide (p = q)).
  - intros i. apply (chain_ext w); [done| |apply H3]. intros p Hp. rewrite G.
    assert (p <> q) as Hn by (intros ->; apply Hl; by exists i).
    destruct (get w p) as [[]|]; simpl; [|done]. by rewrite decide_False.
  - intros p g. rewrite G. destruct (get w p) as [g0|] eqn:Ep; [|done]. intros [= <-] Hp Hw.
    destruct (decide (p = q)) as [->|Hn]; [by destruct g0|]. destruct (H4 p g0 Ep Hp); [|by destruct g0].
    intros [b Hb0]. apply Hw. exists b. simpl. by rewrite elem_of_unlink.
  - intros p g b. rewrite G. destruct (get w p) as [g0|] eqn:Ep; [|done]. intros [= <-] [Hp Hn]%elem_of_unlink.
    rewrite decide_False by done. rewrite <- (H5 p g0 b Ep Hp). by destruct g0.
  - by rewrite H6.
  - rewrite H7. by apply not_listed_all.
Qed.

Section Steps.
Context {ops : LockOps}.

(** ** Waking a queue *)

Definition wake_event (a : shape) (q : Z) : lock_event :=
  match sh_info a !! q with
  | Some f => if truthy (fl_lmops f) && has_notify (fl_lmops f) then Notify q else Wake q
  | None => Wake q
  end.

Definition sh_wake (a : shape) (b : Z) : shape :=
  Shape (sh_info a) (sh_list a) (<[b := []]> (sh_queue a)) (filter (fun q => q ∉ sh_queue a b) (sh_blocked a)) (sh_all a)
    (sh_events a ++ (wake_event a <$> sh_queue a b)).

Lemma unlink_others a q b c : wf a -> q ∈ sh_queue a b -> c <> b -> unlink q (sh_queue a c) = sh_queue a c.
Proof. intros W Hq Hc. apply unlink_notin. intros H. apply Hc. by apply (wf_one a W q). Qed.

Lemma queue_length w a b : repr w a -> wf a -> (length (sh_queue a b) <= size (lk_mem w))%nat.
Proof.
  intros R W. rewrite <- (size_list_to_set (C := gset Z)) by apply (wf_queue a W). rewrite <- size_dom. apply subseteq_size. intros q Hq.
  apply elem_of_list_to_set, (wf_waiter a W) in Hq as [[h Hh] _]. destruct (repr_get w a q h R Hh) as (f & Ef & _). apply elem_of_dom. by exists f.
Qed.

Lemma wake_blocks_ok w a b : repr w a -> wf a -> is_Some (sh_info a !! b) ->
  exists w', locks_wake_up_blocks w b = Some w' /\ repr w' (sh_wake a b).
Proof.
  intros R W Hb. unfold locks_wake_up_blocks, locks_fuel. pose proof (queue_length w a b R W) as Hf.
  generalize dependent (size (lk_mem w)). intros fuel Hf.
  remember (sh_queue a b) as l eqn:El. revert w a fuel R W Hb Hf El.
  induction l as [|q l IH]; intros w a fuel R W [hb Hhb] Hf El; destruct (repr_get w a b hb R Hhb) as (f & Ef & -> & Hq); simpl; rewrite Ef, bind_Some_eq, Hq, <- El.
  - exists w. split; [done|]. apply (repr_same w a); [|done]. unfold sh_wake. rewrite <- El. split; simpl; try done.
    + intros c. destruct (decide (c = b)) as [->|]; [by rewrite fn_lookup_insert | by rewrite fn_lookup_insert_ne].
    + apply filter_whole. set_solver.
    + by rewrite app_nil_r.
  - assert (q ∈ sh_queue a b) as Hin by (rewrite <- El; set_solver). destruct (wf_waiter a W b q Hin) as ([hq Hhq] & K2 & K3).
    destruct (delete_block_ok w a q R W (ex_intro _ hq Hhq) K2 K3) as (w1 & E1 & R1). rewrite E1, bind_Some_eq.
    destruct (repr_get w1 _ q hq R1 Hhq) as (fq & Efq & Ehq & _). rewrite Efq, bind_Some_eq.
    set (e := if truthy (fl_lmops fq) && has_notify (fl_lmops fq) then Notify q else Wake q).
    assert (e = wake_event a q) as Ee by (unfold wake_event; rewrite Hhq, Ehq; unfold e; by destruct fq).
    pose proof (wf_queue a W b) as Hnd. rewrite <- El in Hnd. apply NoDup_cons in Hnd as [Hql Hnd].
    assert (unlink q (sh_queue a b) = l) as Eq by (rewrite <- El; apply (unlink_middle q [] l); set_solver).
    destruct fuel as [|fuel]; [simpl in Hf; lia|].
    edestruct (IH (log w1 e) (sh_log (sh_unblock a q) e) fuel) as (w' & E' & R').
    + by apply repr_log.
    + by apply wf_log, wf_unblock.
    + by exists (strip f).
    + simpl in Hf. lia.
    + simpl. by rewrite Eq.
    + exists w'. split; [exact E'|]. apply (repr_same w' _ _) with (2 := R'). unfold sh_wake. simpl. rewrite Eq, <- El. split; simpl; try done.
      * intros c. destruct (decide (c = b)) as [->|Hc]; [by rewrite !fn_lookup_insert|]. rewrite !fn_lookup_insert_ne by done. by rewrite (unlink_others a q b c).
      * unfold unlink. rewrite list_filter_filter. apply list_filter_iff. intros x. set_solver.
      * rewrite <- app_assoc. by rewrite Ee.
Qed.

Lemma wf_wake a b : wf a -> wf (sh_wake a b).
Proof.
  intros W. pose proof W as [H1 H2 H3 H4 H5 H6 H7 [H8 H8'] H9].
  assert (forall c q, q ∈ (<[b := []]> (sh_queue a)) c -> q ∈ sh_queue a c /\ c <> b) as Hin.
  { intros c q. destruct (decide (c = b)) as [->|Hc]; [rewrite fn_lookup_insert; by intros ?%elem_of_nil | rewrite fn_lookup_insert_ne; done]. }
  split; simpl; try done.
  - intros c. destruct (decide (c = b)) as [->|Hc]; [rewrite fn_lookup_insert; constructor | rewrite fn_lookup_insert_ne; done].
  - intros c q [Hq Hc]%Hin. destruct (H6 c q Hq) as (K1 & K2 & K3). split_and!; [done..|].
    destruct (decide (q = b)) as [->|Hn]; [by rewrite fn_lookup_insert | by rewrite fn_lookup_insert_ne].
  - intros q c c' [Hc _]%Hin [Hc' _]%Hin. by apply (H7 q).
  - split; [by apply list.NoDup_filter|]. intros q. rewrite list_elem_of_filter, H8'. split.
    + intros [Hn (c & f & Ef & Hp & Hq)]. exists c, f. rewrite fn_lookup_insert_ne; [done | by intros ->].
    + intros (c & f & Ef & Hp & [Hq Hc]%Hin). split; [|by exists c, f]. intros Hb. apply Hc. by apply (H7 q).
Qed.

(** ** Private data *)

Definition release_events (f : file_lock) (p : Z) : list lock_event :=
  (if truthy (fl_ops f) && has_release (fl_ops f) then [Release (fl_ops f) p] else []) ++
  (if truthy (fl_lmops f) && has_release (fl_lmops f) then [Release (fl_lmops f) p] else []).
Definition sh_set (a : shape) (p : Z) (f : file_lock) : shape :=
  Shape (<[p := f]> (sh_info a)) (sh_list a) (sh_queue a) (sh_blocked a) (sh_all a) (sh_events a).
Definition sh_logs (a : shape) (es : list lock_event) : shape :=
  Shape (sh_info a) (sh_list a) (sh_queue a) (sh_blocked a) (sh_all a) (sh_events a ++ es).
Definition released (f : file_lock) : file_lock := set_lmops 0 (set_ops 0 f).

Lemma set_ops_id f : fl_ops f = 0 -> set_ops 0 f = f.
Proof. destruct f. simpl. by intros ->. Qed.
Lemma set_lmops_id f : fl_lmops f = 0 -> set_lmops 0 f = f.
Proof. destruct f. simpl. by intros ->. Qed.

Lemma upd_set a p f g : sh_info a !! p = Some f -> same_shape (sh_upd a p g) (sh_set a p (g f)).
Proof.
  intros E. split; simpl; try done. apply map_eq. intros q. destruct (decide (q = p)) as [->|]; simplify_map_eq; by rewrite ?E.
Qed.

Lemma set_ok w a p f g : repr w a -> sh_info a !! p = Some f -> data_setter g ->
  exists w', upd w p g = Some w' /\ repr w' (sh_set a p (g f)).
Proof.
  intros R E Hg. destruct (upd_ok w a p g R (ex_intro _ f E) Hg) as (w' & E' & R'). exists w'. split; [done|].
  by apply (repr_same _ _ _ (upd_set a p f g E)).
Qed.

Lemma repr_logs w a es : repr w a -> repr (foldl log w es) (sh_logs a es).
Proof.
  revert w a. induction es as [|e es IH]; intros w a R; simpl.
  - apply (repr_same w a); [|done]. split; try done. simpl. by rewrite app_nil_r.
  - apply (repr_same _ (sh_logs (sh_log a e) es)); [|by apply IH, repr_log]. split; try done. simpl. by rewrite <- app_assoc.
Qed.

Lemma sh_set_set a p f g : same_shape (sh_set (sh_set a p f) p g) (sh_set a p g).
Proof. split; simpl; try done. by rewrite insert_insert_eq. Qed.

Lemma release_ok w a p f : repr w a -> sh_info a !! p = Some f ->
  exists w', locks_release_private w p = Some w' /\ repr w' (sh_logs (sh_set a p (released f)) (release_events f p)).
Proof.
  intros R E. destruct (repr_get w a p f R E) as (h & Eh & -> & _). unfold locks_release_private. rewrite Eh, bind_Some_eq.
  assert (exists w1, (if truthy (fl_ops h) then
       let w := if has_release (fl_ops h) then log w (Release (fl_ops h) p) else w in upd w p (set_ops 0)
     else Some w) = Some w1 /\ repr w1 (sh_logs (sh_set a p (set_ops 0 (strip h))) (if truthy (fl_ops h) && has_release (fl_ops h) then [Release (fl_ops h) p] else [])))
    as (w1 & E1 & R1).
  { destruct (truthy (fl_ops h)) eqn:Et; simpl.
    - destruct (has_release (fl_ops h)).
      + edestruct (set_ok (log w (Release (fl_ops h) p)) (sh_log a (Release (fl_ops h) p)) p) as (w1 & E1 & R1); [by apply repr_log | done | apply (data_ops 0)|].
        exists w1. split; [done|]. by apply (repr_same _ _ _) with (2 := R1).
      + edestruct (set_ok w a p) as (w1 & E1 & R1); [done | done | apply (data_ops 0)|]. exists w1. split; [done|].
        apply (repr_same _ _ _) with (2 := R1). split; try done. simpl. by rewrite app_nil_r.
    - exists w. split; [done|]. apply (repr_same w a); [|done]. split; simpl; try done; [|by rewrite app_nil_r].
      apply insert_id. rewrite E. f_equal. symmetry. apply set_ops_id. apply truthy_false in Et. by destruct h. }
  cbv zeta in E1. rewrite E1, bind_Some_eq. clear E1. set (e1 := if truthy (fl_ops h) && _ then _ else _) in R1.
  assert (sh_info (sh_logs (sh_set a p (set_ops 0 (strip h))) e1) !! p = Some (set_ops 0 (strip h))) as Ei by (simpl; by simplify_map_eq).
  set (a1 := sh_logs (sh_set a p (set_ops 0 (strip h))) e1) in *.
  unfold release_events. replace (fl_ops (strip h)) with (fl_ops h) by (by destruct h). replace (fl_lmops (strip h)) with (fl_lmops h) by (by destruct h).
  fold e1. destruct (truthy (fl_lmops h)) eqn:Et; simpl.
  - destruct (has_release (fl_lmops h)).
    + edestruct (set_ok (log w1 (Release (fl_lmops h) p)) (sh_log a1 (Release (fl_lmops h) p)) p) as (w2 & E2 & R2);
        [by apply repr_log, R1 | exact Ei | apply (data_lmops 0)|].
      exists w2. split; [done|]. apply (repr_same _ _ _) with (2 := R2). split; simpl; try done; [by rewrite insert_insert_eq | by rewrite app_assoc].
    + edestruct (set_ok w1 a1 p) as (w2 & E2 & R2); [exact R1 | exact Ei | apply (data_lmops 0)|]. exists w2. split; [done|].
      apply (repr_same _ _ _) with (2 := R2). split; simpl; try done; [by rewrite insert_insert_eq | by rewrite app_nil_r].
  - exists w1. split; [done|]. apply (repr_same _ _ _) with (2 := R1). split; simpl; try done; [|by rewrite app_nil_r].
    f_equal. apply set_lmops_id. apply truthy_false in Et. by destruct h.
Qed.
End Steps.
