(* ===== verification/LocksSteps.v ===== *)
(** * File locks: operations on the lists

    Allocating, copying and freeing locks, putting them into the list of an
    inode and taking them out, and queueing a request: each function of the code
    takes a memory that stands for a shape to one that stands for the shape after
    the operation. *)

From stdpp Require Import gmap functions.
From S2P Require Import Prelude Locks LocksRepr.
From stdpp Require Import list.
Open Scope Z_scope.
Open Scope c_scope.

Section Steps.
Context {ops : LockOps}.

(** ** Copies *)

Definition copy_of (f n : file_lock) : file_lock :=
  set_lmops (fl_lmops f) (set_ops (fl_ops f) (set_file (fl_file f) (set_copy f n))).
Definition copy_events (f : file_lock) (new p : Z) : list lock_event :=
  if truthy (fl_ops f) && has_copy (fl_ops f) then [Copied (fl_ops f) new p] else [].

Lemma copy_private_ok w a new p f n : repr w a -> sh_info a !! p = Some f -> sh_info a !! new = Some n -> new <> p ->
  (truthy (fl_ops f) = false -> fl_ops n = fl_ops f) -> (truthy (fl_lmops f) = false -> fl_lmops n = fl_lmops f) ->
  exists w', locks_copy_private w new p = Some w' /\
    repr w' (sh_logs (sh_set a new (set_lmops (fl_lmops f) (set_ops (fl_ops f) n))) (copy_events f new p)).
Proof.
  intros R Ep En Hn H1 H2. destruct (repr_get w a p f R Ep) as (h & Eh & -> & _). unfold locks_copy_private. rewrite Eh, bind_Some_eq.
  replace (fl_ops (strip h)) with (fl_ops h) in * by (by destruct h). replace (fl_lmops (strip h)) with (fl_lmops h) in * by (by destruct h).
  assert (exists w1, (if truthy (fl_ops h) then
       upd (if has_copy (fl_ops h) then log w (Copied (fl_ops h) new p) else w) new (set_ops (fl_ops h))
     else Some w) = Some w1 /\ repr w1 (sh_logs (sh_set a new (set_ops (fl_ops h) n)) (copy_events (strip h) new p))) as (w1 & E1 & R1).
  { unfold copy_events. replace (fl_ops (strip h)) with (fl_ops h) by (by destruct h). destruct (truthy (fl_ops h)) eqn:Et; simpl.
    - destruct (has_copy (fl_ops h)).
      + edestruct (set_ok (log w (Copied (fl_ops h) new p)) (sh_log a (Copied (fl_ops h) new p)) new) as (w1 & E1 & R1);
          [by apply repr_log | done | apply (data_ops (fl_ops h))|]. exists w1. split; [done|]. by apply (repr_same _ _ _) with (2 := R1).
      + edestruct (set_ok w a new) as (w1 & E1 & R1); [done | done | apply (data_ops (fl_ops h))|]. exists w1. split; [done|].
        apply (repr_same _ _ _) with (2 := R1). split; try done. simpl. by rewrite app_nil_r.
    - exists w. split; [done|]. apply (repr_same w a); [|done]. split; simpl; try done; [|by rewrite app_nil_r].
      apply insert_id. rewrite En. f_equal. rewrite <- (H1 eq_refl). by destruct n. }
  cbv zeta. rewrite E1, bind_Some_eq. clear E1. set (a1 := sh_logs (sh_set a new (set_ops (fl_ops h) n)) (copy_events (strip h) new p)) in *.
  assert (sh_info a1 !! new = Some (set_ops (fl_ops h) n)) as Ei by (simpl; by simplify_map_eq).
  destruct (truthy (fl_lmops h)) eqn:Et.
  - edestruct (set_ok w1 a1 new) as (w2 & E2 & R2); [done.. | apply (data_lmops (fl_lmops h))|]. exists w2. split; [done|].
    apply (repr_same _ _ _) with (2 := R2). split; simpl; try done. by rewrite insert_insert_eq.
  - exists w1. split; [done|]. apply (repr_same _ _ _) with (2 := R1). split; simpl; try done. f_equal.
    rewrite <- (H2 eq_refl). by destruct n.
Qed.

Lemma copy_ok w a new p f n : repr w a -> sh_info a !! p = Some f -> sh_info a !! new = Some n -> new <> p ->
  exists w', locks_copy_lock w new p = Some w' /\
    repr w' (sh_logs (sh_set a new (copy_of f n)) (release_events n new ++ copy_events f new p)).
Proof.
  intros R Ep En Hn. unfold locks_copy_lock. destruct (release_ok w a new n R En) as (w1 & E1 & R1). rewrite E1, bind_Some_eq. clear E1.
  set (a1 := sh_logs (sh_set a new (released n)) (release_events n new)) in *.
  assert (sh_info a1 !! p = Some f) as Ep1 by (simpl; by simplify_map_eq).
  assert (sh_info a1 !! new = Some (released n)) as En1 by (simpl; by simplify_map_eq).
  destruct (repr_get w1 a1 p f R1 Ep1) as (h & Eh & -> & _). unfold __locks_copy_lock. rewrite Eh, bind_Some_eq.
  destruct (set_ok w1 a1 new _ _ R1 En1 (data_copy h)) as (w2 & E2 & R2). rewrite E2, bind_Some_eq. clear E2.
  set (n2 := set_copy h (released n)) in *. set (a2 := sh_set a1 new n2) in *.
  assert (sh_info a2 !! p = Some (strip h)) as Ep2 by (simpl; by simplify_map_eq).
  assert (sh_info a2 !! new = Some n2) as En2 by (simpl; by simplify_map_eq).
  destruct (repr_get w2 a2 p _ R2 Ep2) as (h2 & Eh2 & Es & _). rewrite Eh2, bind_Some_eq.
  destruct (set_ok w2 a2 new _ _ R2 En2 (data_file (fl_file h2))) as (w3 & E3 & R3). rewrite E3, bind_Some_eq. clear E3.
  set (n3 := set_file (fl_file h2) n2) in *. set (a3 := sh_set a2 new n3) in *.
  assert (sh_info a3 !! new = Some n3) as En3 by (simpl; by simplify_map_eq).
  destruct (set_ok w3 a3 new _ _ R3 En3 (data_ops (fl_ops h2))) as (w4 & E4 & R4). rewrite E4, bind_Some_eq. clear E4.
  set (n4 := set_ops (fl_ops h2) n3) in *. set (a4 := sh_set a3 new n4) in *.
  assert (sh_info a4 !! new = Some n4) as En4 by (simpl; by simplify_map_eq).
  destruct (set_ok w4 a4 new _ _ R4 En4 (data_lmops (fl_lmops h2))) as (w5 & E5 & R5). rewrite E5, bind_Some_eq. clear E5.
  set (n5 := set_lmops (fl_lmops h2) n4) in *. set (a5 := sh_set a4 new n5) in *.
  assert (sh_info a5 !! new = Some n5) as En5 by (simpl; by simplify_map_eq).
  assert (sh_info a5 !! p = Some (strip h)) as Ep5 by (simpl; by simplify_map_eq).
  assert (fl_ops h2 = fl_ops (strip h)) as Eo by (rewrite Es; by destruct h2).
  assert (fl_lmops h2 = fl_lmops (strip h)) as El by (rewrite Es; by destruct h2).
  assert (fl_file h2 = fl_file (strip h)) as Ef by (rewrite Es; by destruct h2).
  assert (n5 = copy_of (strip h) n) as Enew by (unfold n5, n4, n3, n2, copy_of, released; rewrite Eo, El, Ef; by destruct n, h).
  edestruct (copy_private_ok w5 a5 new p (strip h) n5) as (w6 & E6 & R6); [done..| | |].
  { intros _. rewrite Enew. by destruct n. }
  { intros _. rewrite Enew. by destruct n. }
  exists w6. split; [done|]. apply (repr_same _ _ _) with (2 := R6). split; simpl; try done.
  - rewrite !insert_insert_eq. f_equal. rewrite Enew. by destruct n.
  - by rewrite app_assoc.
Qed.

(** ** Allocation *)

(** A structure as [kmem_cache_alloc] hands it out: new, in no list. *)
Definition alloc_ok (a : shape) (p : Z) (f : file_lock) : Prop :=
  p <> 0 /\ sh_info a !! p = None /\ fl_next f = 0 /\ fl_block f = [].

Definition sh_free (a : shape) (p : Z) : shape :=
  Shape (delete p (sh_info a)) (sh_list a) (sh_queue a) (sh_blocked a) (sh_all a) (sh_events a).

Definition queues_in (a : shape) : Prop := forall b, sh_queue a b <> [] -> listed a b.

Lemma fresh_facts a p : wf a -> queues_in a -> sh_info a !! p = None ->
  ~ listed a p /\ ~ waits a p /\ sh_queue a p = [].
Proof.
  intros W Hq E. split_and!.
  - intros [i Hi]. apply (wf_listed a W) in Hi. rewrite E in Hi. by destruct Hi.
  - intros [b Hb]. apply (wf_waiter a W) in Hb as [Hb _]. rewrite E in Hb. by destruct Hb.
  - destruct (sh_queue a p) eqn:Eq; [done|]. destruct (Hq p) as [i Hi]; [by rewrite Eq|].
    apply (wf_listed a W) in Hi. rewrite E in Hi. by destruct Hi.
Qed.

Lemma put_ok w a p f : repr w a -> wf a -> queues_in a -> alloc_ok a p f -> repr (put w p f) (sh_set a p (strip f)).
Proof.
  intros R W Hq (Hp & E & Hn & Hb). destruct (fresh_facts a p W Hq E) as (F1 & F2 & F3).
  pose proof R as [H1 H2 H3 H4 H5 H6 H7 H8]. split; simpl; try done.
  - intros q. rewrite get_put. destruct (decide (q = p)) as [->|]; simplify_map_eq; [done | apply H1].
  - intros q g. rewrite get_put. destruct (decide (q = p)) as [->|]; [intros [= <-]; by rewrite F3 | apply H2].
  - intros i. apply (chain_ext w); [done| |apply H3]. intros q Hq'. rewrite get_put.
    destruct (decide (q = p)) as [->|]; [|done]. destruct F1. by exists i.
  - intros q g. rewrite get_put. destruct (decide (q = p)) as [->|]; [by intros [= <-] | apply H4].
  - intros q g b. rewrite get_put. destruct (decide (q = p)) as [->|]; [|apply H5]. intros _ Hb'. destruct F2. by exists b.
Qed.

Lemma wf_set a p f : wf a -> p <> 0 -> (forall g, sh_info a !! p = Some g -> IS_POSIX f = IS_POSIX g) ->
  (sh_info a !! p = None -> sh_queue a p = []) -> wf (sh_set a p f).
Proof.
  intros [H1 H2 H3 H4 H5 H6 H7 [H8 H8'] H9] Hp Hf Hq.
  assert (forall q, is_Some (sh_info a !! q) -> is_Some (sh_info (sh_set a p f) !! q)) as HS.
  { intros q [g Hg]. simpl. destruct (decide (q = p)) as [->|]; simplify_map_eq; eauto. }
  split; simpl; try done.
  - by rewrite lookup_insert_ne.
  - intros i q Hq'. by apply HS, (H2 i).
  - intros b q Hb. destruct (H6 b q Hb) as (K1 & K2). split; [by apply HS | done].
  - split; [done|]. intros q. rewrite H8'. split; intros (b & g & Eg & Hg & Hb).
    + destruct (decide (b = p)) as [->|]; [|exists b, g; by simplify_map_eq]. exists p, f. simplify_map_eq. by rewrite (Hf g).
    + destruct (decide (b = p)) as [->|]; simplify_map_eq; [|by exists b, g].
      destruct (sh_info a !! p) as [g0|] eqn:E0; [exists p, g0; by rewrite <- (Hf g0) | rewrite Hq in Hb by done; by apply elem_of_nil in Hb].
Qed.

Lemma wf_logs a es : wf a -> wf (sh_logs a es).
Proof. by intros [H1 H2 H3 H4 H5 H6 H7 H8 H9]. Qed.

Lemma not_waits_blocked a p : wf a -> ~ waits a p -> p ∉ sh_blocked a.
Proof. intros W H Hp. apply (wf_blocked a W) in Hp as (b & f & _ & _ & Hb). apply H. by exists b. Qed.

Lemma block_empty_ok w a p : repr w a -> is_Some (sh_info a !! p) -> ~ waits a p -> sh_queue a p = [] -> block_empty w p = Some true.
Proof.
  intros R [h Hh] Hw Hq. destruct (repr_get w a p h R Hh) as (f & Ef & _ & Hb). unfold block_empty. rewrite Ef. simpl.
  rewrite Hb, Hq, bool_decide_eq_true_2 by done. simpl. f_equal. apply forallb_forall. intros [q g] Hin.
  apply bool_decide_eq_true_2. intros Hp. apply Hw. exists q. apply list_elem_of_In, elem_of_map_to_list in Hin.
  by rewrite <- (r_queue w a R q g Hin).
Qed.

Lemma free_ok w a p f : repr w a -> wf a -> sh_info a !! p = Some f -> ~ listed a p -> ~ waits a p -> sh_queue a p = [] ->
  exists w', locks_free_lock w p = Some w' /\ repr w' (sh_logs (sh_free a p) (release_events f p)).
Proof.
  intros R W E Hl Hw Hq. unfold locks_free_lock. rewrite (block_empty_ok w a p R) by (by try eexists). rewrite bind_Some_eq.
  unfold link_empty. rewrite (r_all w a R), (r_blocked w a R), !bool_decide_eq_true_2; [|by apply not_waits_blocked|by rewrite (proj2 (wf_all a W))].
  simpl. destruct (release_ok w a p f R E) as (w1 & E1 & R1). rewrite E1, bind_Some_eq. eexists. split; [done|].
  assert (forall q, get (with_mem w1 (delete p (lk_mem w1))) q = if decide (q = p) then None else get w1 q) as G.
  { intros q. unfold get. simpl. destruct (decide (q = p)) as [->|]; by simplify_map_eq. }
  pose proof R1 as [H1 H2 H3 H4 H5 H6 H7 H8]. split; simpl; try done.
  - intros q. rewrite G. destruct (decide (q = p)) as [->|]; simplify_map_eq; [done|]. rewrite <- H1. simpl. by simplify_map_eq.
  - intros q g. rewrite G. destruct (decide (q = p)) as [->|]; [done | apply H2].
  - intros i. apply (chain_ext w1); [done| |apply H3]. intros q Hq'. rewrite G. destruct (decide (q = p)) as [->|]; [|done]. destruct Hl. by exists i.
  - intros q g. rewrite G. destruct (decide (q = p)) as [->|]; [done | apply H4].
  - intros q g b. rewrite G. destruct (decide (q = p)) as [->|]; [done | apply H5].
Qed.

Lemma wf_free a p : wf a -> ~ listed a p -> ~ waits a p -> sh_queue a p = [] -> wf (sh_free a p).
Proof.
  intros [H1 H2 H3 H4 H5 H6 H7 [H8 H8'] H9] Hl Hw Hq. split; simpl; try done.
  - by rewrite lookup_delete_None; right.
  - intros i q Hi. rewrite lookup_delete_ne; [by apply (H2 i)|]. intros ->. apply Hl. by exists i.
  - intros b q Hb. destruct (H6 b q Hb) as (K1 & K2). split; [|done]. rewrite lookup_delete_ne; [done|]. intros ->. apply Hw. by exists b.
  - split; [done|]. intros q. rewrite H8'. split; intros (b & f & Ef & Hp & Hb); exists b, f; split_and!; try done.
    + rewrite lookup_delete_ne; [done|]. intros ->. rewrite Hq in Hb. by apply elem_of_nil in Hb.
    + by apply lookup_delete_Some in Ef as [_ Ef].
Qed.

(** ** The list of an inode *)

Lemma slot_after_eq i pre : slot_after i pre = Head i /\ pre = [] \/ exists pre' p, pre = pre' ++ [p] /\ slot_after i pre = Next p.
Proof. destruct pre as [|p pre _] using rev_ind; [by left | right]. exists pre, p. by rewrite slot_after_snoc. Qed.

(** Storing through the slot at the end of [pre]. *)
Lemma store_ok w i pre v : (forall p, p ∈ pre -> is_Some (get w p)) ->
  exists w', store w (slot_after i pre) v = Some w' /\ load w' (slot_after i pre) = Some v /\
    (forall p, get w' p = (if decide (Next p = slot_after i pre) then set_next v else id) <$> get w p) /\
    (forall j, i_flock w' j = if decide (Head j = slot_after i pre) then v else i_flock w j) /\
    blocked_list w' = blocked_list w /\ file_lock_list w' = file_lock_list w /\ lk_events w' = lk_events w.
Proof.
  intros Hpre. destruct (slot_after_eq i pre) as [[-> ->] | (pre' & p & -> & ->)].
  - eexists. split_and!; [done|..|done|done|done].
    + simpl. unfold i_flock. simpl. by rewrite lookup_insert_eq.
    + intros p. rewrite decide_False by done. by rewrite option_fmap_id.
    + intros j. unfold i_flock. simpl. destruct (decide (Head j = Head i)) as [[= ->]|Hn]; [by rewrite lookup_insert_eq|].
      rewrite lookup_insert_ne; [done | congruence].
  - destruct (Hpre p ltac:(set_solver)) as [f Ef]. simpl. rewrite (upd_Some _ _ _ _ Ef).
    eexists. split_and!; [done|..|done|done|done].
    + rewrite get_put, decide_True by done. by destruct f.
    + intros q. rewrite get_put. destruct (decide (q = p)) as [->|Hn]; [by rewrite decide_True, Ef by done|].
      rewrite decide_False by congruence. by rewrite option_fmap_id.
    + intros j. done.
Qed.

Definition sh_unlist (a : shape) (i p : Z) : shape :=
  Shape (sh_info a) (<[i := unlink p (sh_list a i)]> (sh_list a)) (sh_queue a) (sh_blocked a) (unlink p (sh_all a)) (sh_events a).

Lemma listed_unlist a i p q : wf a -> p ∈ sh_list a i -> listed (sh_unlist a i p) q <-> listed a q /\ q <> p.
Proof.
  intros W Hp. split.
  - intros [j Hj]. simpl in Hj. destruct (decide (j = i)) as [->|Hn].
    + rewrite fn_lookup_insert in Hj. apply elem_of_unlink in Hj as [Hj Hn]. split; [by exists i | done].
    + rewrite fn_lookup_insert_ne in Hj by done. split; [by exists j|]. intros ->. apply Hn. by apply (wf_disj a W j i p).
  - intros [[j Hj] Hn]. exists j. simpl. destruct (decide (j = i)) as [->|Hji].
    + rewrite fn_lookup_insert. by apply elem_of_unlink.
    + by rewrite fn_lookup_insert_ne.
Qed.

Lemma wf_unlist a i p : wf a -> p ∈ sh_list a i -> wf (sh_unlist a i p).
Proof.
  intros W Hp. pose proof W as [H1 H2 H3 H4 H5 H6 H7 H8 [H9 H9']].
  assert (forall j q, q ∈ sh_list (sh_unlist a i p) j -> q ∈ sh_list a j) as Hin.
  { intros j q. simpl. destruct (decide (j = i)) as [->|]; [rewrite fn_lookup_insert; by intros [? _]%elem_of_unlink | by rewrite fn_lookup_insert_ne]. }
  split; try done.
  - intros j q Hj%Hin. by apply (H2 j).
  - intros j. simpl. destruct (decide (j = i)) as [->|]; [rewrite fn_lookup_insert; by apply NoDup_unlink | by rewrite fn_lookup_insert_ne].
  - intros j k q Hj%Hin Hk%Hin. by apply (H4 j k q).
  - intros b q Hb. destruct (H6 b q Hb) as (K1 & K2 & K3). split_and!; [done| |done]. rewrite (listed_unlist a i p q W Hp). tauto.
  - split; [by apply NoDup_unlink|]. intros q. rewrite (listed_unlist a i p q W Hp). simpl. by rewrite elem_of_unlink, H9'.
Qed.

Lemma list_split a i p pre post : wf a -> sh_list a i = pre ++ p :: post ->
  (p ∉ pre) /\ (p ∉ post) /\ NoDup pre /\ (unlink p (sh_list a i) = pre ++ post) /\ p ∈ sh_list a i.
Proof.
  intros W E. pose proof (wf_nodup a W i) as Hn. rewrite E in Hn. apply NoDup_app in Hn as (N1 & N2 & N3).
  apply NoDup_cons in N3 as [N3 N4]. assert (p ∉ pre) by (intros H; apply (N2 p H); set_solver). split_and!; try done.
  - rewrite E. by apply unlink_middle.
  - rewrite E. set_solver.
Qed.

(** The first half of [locks_delete_lock]. *)
Lemma unlist_ok w a i pre p post : repr w a -> wf a -> sh_list a i = pre ++ p :: post ->
  exists f w1 w2, get w p = Some f /\ store w (slot_after i pre) (fl_next f) = Some w1 /\
    upd w1 p (set_next 0) = Some w2 /\ repr (list_del_link w2 p) (sh_unlist a i p).
Proof.
  intros R W E. destruct (list_split a i p pre post W E) as (N1 & N2 & N3 & Eu & Hp).
  destruct (wf_listed a W i p Hp) as [h Hh]. destruct (repr_get w a p h R Hh) as (f & Ef & _).
  assert (fl_next f = default 0 (head post)) as Enext.
  { pose proof (load_after w a i (pre ++ [p]) post R) as L. rewrite slot_after_snoc, <- app_assoc in L. specialize (L E). simpl in L. rewrite Ef in L. by injection L. }
  edestruct (store_ok w i pre (fl_next f)) as (w1 & E1 & L1 & G1 & I1 & B1 & A1 & V1).
  { intros q Hq. destruct (wf_listed a W i q) as [g Hg]; [rewrite E; set_solver|]. destruct (repr_get w a q g R Hg) as (g' & Eg' & _). by exists g'. }
  assert (Next p <> slot_after i pre) as Hnp.
  { destruct (slot_after_eq i pre) as [[-> _] | (pre' & q & -> & ->)]; [done|]. intros [= ->]. set_solver. }
  assert (get w1 p = Some f) as E1p by (rewrite G1, decide_False by done; by rewrite Ef).
  exists f, w1, (put w1 p (set_next 0 f)). split_and!; [done..|by apply upd_Some|].
  set (w3 := list_del_link _ p).
  assert (forall q, get w3 q = (if decide (q = p) then set_next 0 else if decide (Next q = slot_after i pre) then set_next (fl_next f) else id) <$> get w q) as G.
  { intros q. change (get w3 q) with (get (put w1 p (set_next 0 f)) q). rewrite get_put.
    destruct (decide (q = p)) as [->|]; [by rewrite Ef | apply G1]. }
  pose proof R as [H1 H2 H3 H4 H5 H6 H7 H8].
  assert (forall q, Next q = slot_after i pre -> q ∈ sh_list a i) as Hlast.
  { intros q Hq. destruct (slot_after_eq i pre) as [[K _] | (pre' & q' & -> & K)]; rewrite K in Hq; [done|]. injection Hq as ->. rewrite E. set_solver. }
  assert (~ waits a p) as Hw.
  { intros [b Hb]. apply (wf_waiter a W) in Hb as (_ & Hb & _). apply Hb. by exists i. }
  split; simpl.
  - intros q. rewrite G, H1. destruct (get w q) as [[]|]; simpl; [|done]. destruct (decide (q = p)); [done|]. by destruct (decide (Next q = slot_after i pre)).
  - intros q g. rewrite G. destruct (get w q) as [g0|] eqn:Eq; [|done]. intros [= <-]. rewrite <- (H2 q g0 Eq).
    destruct (decide (q = p)); [by destruct g0|]. destruct (decide (Next q = slot_after i pre)); by destruct g0.
  - intros j. destruct (decide (j = i)) as [->|Hj].
    + rewrite fn_lookup_insert, Eu. pose proof (H3 i) as Hc. rewrite E in Hc. apply (chain_splice w _ i pre (p :: post) post Hc N3).
      * intros q Hq Hl. rewrite G. destruct (decide (q = p)) as [->|_]; [done|]. rewrite decide_False; [by rewrite option_fmap_id|].
        intros K. apply Hl. destruct (slot_after_eq i pre) as [[K' _] | (pre' & q' & -> & K')]; rewrite K' in K; [done|]. rewrite last_snoc. congruence.
      * intros Hne. change (i_flock w3 i) with (i_flock w1 i). rewrite I1, decide_False; [done|].
        destruct (slot_after_eq i pre) as [[_ ->] | (pre' & q' & -> & K')]; [done|]. by rewrite K'.
      * rewrite <- (app_nil_l post) in E. assert (chain w (Next p) post) as Hcp.
        { rewrite <- (slot_after_snoc i pre p). apply chain_app. by rewrite <- app_assoc. }
        assert (load w3 (slot_after i pre) = load w (Next p)) as EL.
        { simpl. rewrite Ef. simpl. rewrite <- L1. destruct (slot_after_eq i pre) as [[-> _] | (pre' & q' & Ep & K')]; [done|]. rewrite K'. simpl.
          change (get w3 q') with (get (put w1 p (set_next 0 f)) q'). rewrite get_put, decide_False; [done|]. intros ->. apply N1. rewrite Ep. set_solver. }
        assert (forall q, q ∈ post -> fl_next <$> get w3 q = fl_next <$> get w q) as EP.
        { intros q Hq. rewrite G. destruct (decide (q = p)) as [->|_]; [done|]. rewrite decide_False; [by rewrite option_fmap_id|].
          intros K. destruct (slot_after_eq i pre) as [[K' _] | (pre' & q' & Ep & K')]; rewrite K' in K; [done|]. injection K as ->.
          pose proof (wf_nodup a W i) as Hn. rewrite E in Hn. apply NoDup_app in Hn as (_ & Hn & _). apply (Hn q'); [rewrite Ep; set_solver | set_solver]. }
        destruct post as [|x post]; simpl in Hcp |- *; [by rewrite EL|]. rewrite EL. destruct Hcp as (C1 & C2 & C3). split_and!; [done..|].
        apply (chain_ext w); [|set_solver|done]. specialize (EP x ltac:(set_solver)). simpl. destruct (get w3 x), (get w x); simpl in *; congruence.
    + rewrite fn_lookup_insert_ne by done. assert (forall q, q ∈ sh_list a j -> q ∉ sh_list a i) as Hdis by (intros q Hq Hq'; apply Hj; by apply (wf_disj a W j i q)).
      apply (chain_ext w); [| |apply H3].
      * simpl. change (i_flock w3 j) with (i_flock w1 j). rewrite I1, decide_False; [done|].
        destruct (slot_after_eq i pre) as [[K' _] | (pre' & q' & _ & K')]; rewrite K'; congruence.
      * intros q Hq. rewrite G. destruct (decide (q = p)) as [->|_]; [by destruct (Hdis p Hq)|]. rewrite decide_False; [by rewrite option_fmap_id|].
        intros K. by apply (Hdis q Hq), Hlast.
  - intros q g. rewrite G. destruct (get w q) as [g0|] eqn:Eq; [|done]. intros [= <-] Hl Hw'.
    destruct (decide (q = p)) as [->|Hn]; [by destruct g0|]. destruct (decide (Next q = slot_after i pre)) as [K|K].
    + destruct Hl. apply (listed_unlist a i p q W Hp). split; [exists i; by apply Hlast | done].
    + apply (H4 q g0 Eq); [|done]. intros Hq. apply Hl. by apply (listed_unlist a i p q W Hp).
  - intros q g b. rewrite G. destruct (get w q) as [g0|] eqn:Eq; [|done]. intros [= <-] Hb.
    destruct (decide (q = p)) as [->|Hn]; [destruct Hw; by exists b|]. rewrite decide_False; [by apply (H5 q g0 b)|].
    intros K%Hlast. apply (wf_waiter a W) in Hb as (_ & Hb & _). apply Hb. by exists i.
  - rewrite B1, H6. apply unlink_notin. by apply not_waits_blocked.
  - by rewrite A1, H7.
  - by rewrite V1.
Qed.

Definition sh_delete (a : shape) (i p : Z) : shape :=
  Shape (delete p (sh_info a)) (<[i := unlink p (sh_list a i)]> (sh_list a)) (<[p := []]> (sh_queue a))
    (filter (fun q => q ∉ sh_queue a p) (sh_blocked a)) (unlink p (sh_all a))
    (sh_events a ++ (wake_event a <$> sh_queue a p) ++ match sh_info a !! p with Some f => release_events f p | None => [] end).

Lemma not_self a p : wf a -> p ∉ sh_queue a p.
Proof. intros W H. pose proof (proj2 (proj2 (wf_waiter a W p p H))) as E. rewrite E in H. by apply elem_of_nil in H. Qed.

Lemma wake_event_alter a p g q : q <> p -> wake_event (sh_upd a p g) q = wake_event a q.
Proof. intros H. unfold wake_event. simpl. by simplify_map_eq. Qed.

Lemma listed_not_waits a p : wf a -> listed a p -> ~ waits a p.
Proof. intros W Hl [b Hb]. by apply (wf_waiter a W) in Hb as (_ & Hb & _). Qed.

Lemma delete_ok w a i pre p post : repr w a -> wf a -> sh_list a i = pre ++ p :: post ->
  exists w', locks_delete_lock w (slot_after i pre) = Some w' /\ repr w' (sh_delete a i p) /\ wf (sh_delete a i p).
Proof.
  intros R W E. destruct (list_split a i p pre post W E) as (N1 & N2 & N3 & Eu & Hp).
  assert (p <> 0) as Hp0. { intros ->. apply (wf_listed a W) in Hp. rewrite (wf_null a W) in Hp. by destruct Hp. }
  unfold locks_delete_lock. rewrite (load_after w a i pre (p :: post) R E), bind_Some_eq. simpl.
  destruct (unlist_ok w a i pre p post R W E) as (f & w1 & w2 & Ef & E1 & E2 & R2). rewrite Ef, bind_Some_eq, E1, bind_Some_eq, E2, bind_Some_eq.
  pose proof (repr_dom w a p f R Ef) as Ei. pose proof (wf_unlist a i p W Hp) as W2.
  destruct (set_ok (list_del_link w2 p) (sh_unlist a i p) p (strip f) (set_nspid 0) R2 Ei (data_nspid 0)) as (w3 & E3 & R3). rewrite E3, bind_Some_eq.
  set (a3 := sh_set (sh_unlist a i p) p (set_nspid 0 (strip f))) in *.
  assert (sh_info a3 !! p = Some (set_nspid 0 (strip f))) as Ei3 by (simpl; by simplify_map_eq).
  assert (wf a3) as W3. { apply wf_set; [done..| |simpl; by rewrite Ei]. simpl. rewrite Ei. intros g [= <-]. by destruct f. }
  destruct (wake_blocks_ok w3 a3 p R3 W3 (ex_intro _ _ Ei3)) as (w4 & E4 & R4). rewrite E4, bind_Some_eq.
  pose proof (wf_wake a3 p W3) as W4.
  assert (~ listed (sh_wake a3 p) p) as L1. { change (~ listed (sh_unlist a i p) p). rewrite (listed_unlist a i p p W Hp). tauto. }
  assert (~ waits (sh_wake a3 p) p) as L2.
  { intros [b Hb]. simpl in Hb. destruct (decide (b = p)) as [->|Hb']; [rewrite fn_lookup_insert in Hb; by apply elem_of_nil in Hb|].
    rewrite fn_lookup_insert_ne in Hb by done. apply (listed_not_waits a p W); [by exists i | by exists b]. }
  assert (sh_queue (sh_wake a3 p) p = []) as L3 by (simpl; by rewrite fn_lookup_insert).
  destruct (free_ok w4 (sh_wake a3 p) p _ R4 W4 Ei3 L1 L2 L3) as (w5 & E5 & R5). exists w5. split; [done|].
  assert (same_shape (sh_logs (sh_free (sh_wake a3 p) p) (release_events (set_nspid 0 (strip f)) p)) (sh_delete a i p)) as S.
  { split; simpl; try done.
    - by rewrite delete_insert_eq.
    - rewrite Ei, <- app_assoc. do 2 f_equal; [|by destruct f]. apply list_fmap_ext. intros k q Hq%list_elem_of_lookup_2.
      unfold wake_event. simpl. rewrite lookup_insert_ne; [done|]. intros ->. by apply (not_self a q W). }
  split; [by apply (repr_same _ _ _ S)|].
  pose proof (wf_logs _ (release_events (set_nspid 0 (strip f)) p) (wf_free _ p W4 L1 L2 L3)) as [H1 H2 H3 H4 H5 H6 H7 H8 H9].
  destruct S as [S1 S2 S3 S4 S5 S6]. simpl in *. split; simpl; try done; by rewrite ?S1.
Qed.

Definition sh_insert (nspid : Z) (a : shape) (i : Z) (pre : list Z) (p : Z) (post : list Z) : shape :=
  Shape (alter (set_nspid nspid) p (sh_info a)) (<[i := pre ++ p :: post]> (sh_list a)) (sh_queue a) (sh_blocked a) (p :: sh_all a) (sh_events a).

Lemma listed_insert nspid a i pre p post q : sh_list a i = pre ++ post ->
  listed (sh_insert nspid a i pre p post) q <-> listed a q \/ q = p.
Proof.
  intros E. split.
  - intros [j Hj]. simpl in Hj. destruct (decide (j = i)) as [->|Hn].
    + rewrite fn_lookup_insert in Hj. destruct (decide (q = p)) as [->|]; [by right|]. left. exists i. rewrite E. set_solver.
    + rewrite fn_lookup_insert_ne in Hj by done. left. by exists j.
  - intros [[j Hj] | ->].
    + exists j. simpl. destruct (decide (j = i)) as [->|Hn]; [rewrite fn_lookup_insert; rewrite E in Hj; set_solver | by rewrite fn_lookup_insert_ne].
    + exists i. simpl. rewrite fn_lookup_insert. set_solver.
Qed.

Lemma insert_ok nspid w a i pre p post : repr w a -> wf a -> sh_list a i = pre ++ post -> idle a p ->
  exists w', locks_insert_lock nspid w (slot_after i pre) p = Some w' /\ repr w' (sh_insert nspid a i pre p post).
Proof.
  intros R W E (Hp & Hl & Hw & Hq). unfold locks_insert_lock. cbv zeta.
  assert (p <> 0) as Hp0. { intros ->. rewrite (wf_null a W) in Hp. by destruct Hp. }
  set (w0 := Locks _ _ _ _ _). set (a0 := Shape (sh_info a) (sh_list a) (sh_queue a) (sh_blocked a) (p :: sh_all a) (sh_events a)).
  assert (repr w0 a0) as R0.
  { destruct R as [H1 H2 H3 H4 H5 H6 H7 H8]. split; try done; [|by simpl; rewrite H7]. intros i'. by apply (chain_ext w); [..|apply H3]. }
  destruct (upd_ok w0 a0 p (set_nspid nspid) R0 Hp (data_nspid nspid)) as (w1 & E1 & R1). rewrite E1, bind_Some_eq.
  rewrite (load_after w1 _ i pre post R1 E), bind_Some_eq.
  assert (is_Some (sh_info (sh_upd a0 p (set_nspid nspid)) !! p)) as [h1 Hh1] by (by apply is_Some_upd).
  destruct (repr_get w1 _ p h1 R1 Hh1) as (f1 & Ef1 & -> & _). rewrite (upd_Some _ _ _ _ Ef1), bind_Some_eq.
  set (w2 := put w1 p _). set (v := default 0 (head post)) in *. clear E1 Hh1.
  assert (forall q, q ∈ sh_list a i -> q <> p) as Hne by (intros q Hq' ->; apply Hl; by exists i).
  edestruct (store_ok w2 i pre p) as (w3 & E3 & L3 & G3 & I3 & B3 & A3 & V3).
  { intros q Hq'. assert (q ∈ sh_list a i) as Hqi by (rewrite E; set_solver). destruct (wf_listed a W i q Hqi) as [g Hg].
    unfold w2. rewrite get_put, decide_False by (by apply Hne).
    destruct (repr_get w1 _ q g R1) as (g' & Eg' & _); [|by exists g']. simpl. rewrite lookup_alter_ne; [done | by apply not_eq_sym, Hne]. }
  exists w3. split; [done|]. pose proof R1 as [H1 H2 H3 H4 H5 H6 H7 H8].
  assert (forall q, Next q = slot_after i pre -> q ∈ sh_list a i) as Hlast.
  { intros q K. destruct (slot_after_eq i pre) as [[K' _] | (pre' & q' & Ep & K')]; rewrite K' in K; [done|]. injection K as ->. rewrite E, Ep. set_solver. }
  assert (forall q, get w3 q = (if decide (q = p) then set_next v else if decide (Next q = slot_after i pre) then set_next p else id) <$> get w1 q) as G.
  { intros q. rewrite G3. unfold w2. rewrite get_put. destruct (decide (q = p)) as [->|Hn]; [|done].
    rewrite decide_False; [by rewrite Ef1|]. intros K%Hlast. by apply (Hne p). }
  assert (forall q, q ∈ sh_list a i -> Next q <> slot_after i pre -> fl_next <$> get w3 q = fl_next <$> get w1 q) as Hsame.
  { intros q Hq' K. rewrite G, decide_False by (by apply Hne). rewrite decide_False by done. by rewrite option_fmap_id. }
  pose proof (wf_nodup a W i) as Hnd. rewrite E in Hnd. apply NoDup_app in Hnd as (Hnd1 & Hnd2 & _).
  split.
  - intros q. rewrite G. change (sh_info (sh_upd a0 p (set_nspid nspid)) !! q = strip <$> ((if decide (q = p) then set_next v else if decide (Next q = slot_after i pre) then set_next p else id) <$> get w1 q)).
    rewrite H1. destruct (get w1 q) as [[]|]; simpl; [|done]. destruct (decide (q = p)); [done|]. by destruct (decide (Next q = slot_after i pre)).
  - intros q g. rewrite G. destruct (get w1 q) as [g0|] eqn:Eq; [|done]. intros [= <-]. pose proof (H2 q g0 Eq) as K. simpl in K |- *. rewrite <- K.
    destruct (decide (q = p)); [by destruct g0|]. destruct (decide (Next q = slot_after i pre)); by destruct g0.
  - intros j. simpl. destruct (decide (j = i)) as [->|Hj].
    + rewrite fn_lookup_insert. pose proof (H3 i) as Hc. simpl in Hc. rewrite E in Hc. apply (chain_splice w1 _ i pre post _ Hc Hnd1).
      * intros q Hq' Hlq. apply Hsame; [rewrite E; set_solver|]. intros K. apply Hlq.
        destruct (slot_after_eq i pre) as [[K' _] | (pre' & q' & -> & K')]; rewrite K' in K; [done|]. rewrite last_snoc. congruence.
      * intros Hne'. rewrite I3, decide_False; [done|]. destruct (slot_after_eq i pre) as [[_ ->] | (pre' & q' & -> & K')]; [done|]. by rewrite K'.
      * simpl. split_and!; [done..|]. apply chain_app in Hc.
        assert (load w3 (Next p) = load w1 (slot_after i pre)) as EL.
        { rewrite (load_after w1 _ i pre post R1 E). simpl. rewrite G, decide_True, Ef1 by done. simpl. by destruct f1. }
        destruct post as [|x post]; simpl in Hc |- *; simpl in EL; rewrite EL; [done|]. destruct Hc as (C1 & C2 & C3). split_and!; [done..|].
        assert (forall q, q ∈ x :: post -> fl_next <$> get w3 q = fl_next <$> get w1 q) as EP.
        { intros q Hq'. apply Hsame; [rewrite E; set_solver|]. intros K.
          destruct (slot_after_eq i pre) as [[K' _] | (pre' & q' & Ep & K')]; rewrite K' in K; [done|]. injection K as ->. apply (Hnd2 q'); [rewrite Ep; set_solver | done]. }
        apply (chain_ext w1); [|set_solver|done]. specialize (EP x ltac:(set_solver)). simpl. destruct (get w3 x), (get w1 x); simpl in *; congruence.
    + rewrite fn_lookup_insert_ne by done. apply (chain_ext w1); [| |apply H3].
      * simpl. rewrite I3, decide_False; [done|]. destruct (slot_after_eq i pre) as [[K' _] | (pre' & q' & _ & K')]; rewrite K'; congruence.
      * intros q Hq'. rewrite G. rewrite decide_False by (intros ->; apply Hl; by exists j). rewrite decide_False; [by rewrite option_fmap_id|].
        intros K%Hlast. apply Hj. by apply (wf_disj a W j i q).
  - intros q g. rewrite G. destruct (get w1 q) as [g0|] eqn:Eq; [|done]. intros [= <-] Hl' Hw'. rewrite (listed_insert nspid a i pre p post q E) in Hl'.
    rewrite decide_False by tauto. rewrite decide_False; [apply (H4 q g0 Eq); [tauto | done]|]. intros K%Hlast. apply Hl'. left. by exists i.
  - intros q g b. rewrite G. destruct (get w1 q) as [g0|] eqn:Eq; [|done]. intros [= <-] Hb. simpl in Hb.
    rewrite decide_False by (intros ->; apply Hw; by exists b). rewrite decide_False; [by apply (H5 q g0 b)|].
    intros K%Hlast. apply (wf_waiter a W) in Hb as (_ & Hb & _). apply Hb. by exists i.
  - by rewrite B3.
  - by rewrite A3.
  - by rewrite V3.
Qed.

Lemma wf_insert nspid a i pre p post : wf a -> sh_list a i = pre ++ post -> idle a p -> wf (sh_insert nspid a i pre p post).
Proof.
  intros W E (Hp & Hl & Hw & Hq). pose proof (listed_insert nspid a i pre p post) as HL.
  destruct (wf_upd a p (set_nspid nspid) W) as [H1 H2 H3 H4 H5 H6 H7 H8 H9]; [by intros []|].
  assert (forall j q, q ∈ sh_list (sh_insert nspid a i pre p post) j -> q ∈ sh_list a j \/ q = p /\ j = i) as Hin.
  { intros j q. simpl. destruct (decide (j = i)) as [->|]; [rewrite fn_lookup_insert, E; set_solver | rewrite fn_lookup_insert_ne by done; tauto]. }
  split; try done.
  - intros j q [Hj|[-> ->]]%Hin; [by apply (H2 j) | by apply is_Some_upd].
  - intros j. simpl. destruct (decide (j = i)) as [->|]; [|rewrite fn_lookup_insert_ne by done; apply H3]. rewrite fn_lookup_insert.
    pose proof (wf_nodup a W i) as Hn. rewrite E in Hn. rewrite <- Permutation_middle. apply NoDup_cons. split; [|done]. rewrite <- E. intros Hpi. apply Hl. by exists i.
  - intros j k q [Hj|[-> ->]]%Hin [Hk|[? ->]]%Hin; subst; try done; [by apply (H4 j k q)| |].
    + destruct Hl. by exists j.
    + destruct Hl. by exists k.
  - intros b q Hb. destruct (H6 b q Hb) as (K1 & K2 & K3). split_and!; [done| |done]. rewrite HL by done. intros [K| ->]; [by apply K2|]. apply Hw. by exists b.
  - destruct H9 as [H9 H9']. split.
    + simpl. apply NoDup_cons. split; [|done]. by rewrite (proj2 (wf_all a W)).
    + intros q. rewrite HL by done. simpl. rewrite elem_of_cons, (proj2 (wf_all a W)). tauto.
Qed.

(** ** Queueing a request *)

Definition sh_block (a : shape) (b q : Z) : shape :=
  Shape (sh_info a) (sh_list a) (<[b := sh_queue a b ++ [q]]> (sh_queue a))
    (match sh_info a !! b with Some f => if IS_POSIX f then q :: sh_blocked a else sh_blocked a | None => sh_blocked a end) (sh_all a) (sh_events a).

Lemma waits_block a b q x : waits (sh_block a b q) x <-> waits a x \/ x = q.
Proof.
  split.
  - intros [c Hc]. simpl in Hc. destruct (decide (c = b)) as [->|]; [rewrite fn_lookup_insert in Hc | rewrite fn_lookup_insert_ne in Hc by done; left; by exists c].
    apply elem_of_app in Hc as [Hc| ->%list_elem_of_singleton]; [left; by exists b | by right].
  - intros [[c Hc]| ->].
    + exists c. simpl. destruct (decide (c = b)) as [->|]; [rewrite fn_lookup_insert; set_solver | by rewrite fn_lookup_insert_ne].
    + exists b. simpl. rewrite fn_lookup_insert. set_solver.
Qed.

Lemma insert_block_ok w a b q : repr w a -> wf a -> listed a b -> idle a q ->
  exists w', locks_insert_block w b q = Some w' /\ repr w' (sh_block a b q).
Proof.
  intros R W Hb (Hi & Hl & Hw & Hq). unfold locks_insert_block. rewrite (block_empty_ok w a q R Hi Hw Hq), bind_Some_eq. simpl.
  assert (is_Some (sh_info a !! b)) as [hb Hhb] by (destruct Hb as [i Hb]; by apply (wf_listed a W i)).
  destruct (repr_get w a b hb R Hhb) as (fb & Efb & -> & Hbq). rewrite Efb, bind_Some_eq, (upd_Some _ _ _ _ Efb), bind_Some_eq.
  assert (q <> b) as Hqb by (intros ->; done). destruct Hi as [hq Hhq]. destruct (repr_get w a q hq R Hhq) as (fq & Efq & -> & Hqq).
  assert (get (put w b (set_block (fl_block fb ++ [q]) fb)) q = Some fq) as Eq by (by rewrite get_put, decide_False).
  rewrite (upd_Some _ _ _ _ Eq), bind_Some_eq. eexists. split; [done|].
  set (w2 := put _ q _).
  assert (forall x, get w2 x = (fun f => if decide (x = q) then set_next b f else if decide (x = b) then set_block (fl_block fb ++ [q]) f else f) <$> get w x) as G.
  { intros x. unfold w2. rewrite !get_put. destruct (decide (x = q)) as [->|]; [by rewrite Efq|]. destruct (decide (x = b)) as [->|]; [by rewrite Efb|]. by destruct (get w x). }
  set (w3 := if IS_POSIX fb then _ else _). assert (forall x, get w3 x = get w2 x) as G3 by (intros x; unfold w3; by destruct (IS_POSIX fb)).
  pose proof R as [H1 H2 H3 H4 H5 H6 H7 H8]. split.
  - intros x. rewrite G3, G. simpl. rewrite H1. destruct (get w x) as [[]|]; simpl; [|done]. destruct (decide (x = q)); [done|]. by destruct (decide (x = b)).
  - intros x g. rewrite G3, G. destruct (get w x) as [g0|] eqn:Ex; [|done]. intros [= <-]. simpl. destruct (decide (x = b)) as [->|Hn].
    + rewrite fn_lookup_insert, decide_False by done. rewrite Hbq. by destruct g0.
    + rewrite fn_lookup_insert_ne by done. rewrite <- (H2 x g0 Ex). destruct (decide (x = q)); by destruct g0.
  - intros i. apply (chain_ext w); [unfold w3; by destruct (IS_POSIX fb)| |apply H3]. intros x Hx. rewrite G3, G.
    destruct (get w x) as [g0|]; simpl; [|done]. f_equal. rewrite decide_False by (intros ->; apply Hl; by exists i). by destruct (decide (x = b)), g0.
  - intros x g. rewrite G3, G. destruct (get w x) as [g0|] eqn:Ex; [|done]. intros [= <-] Hlx Hwx. rewrite waits_block in Hwx.
    rewrite decide_False by tauto. rewrite <- (H4 x g0 Ex) by tauto. by destruct (decide (x = b)), g0.
  - intros x g c. rewrite G3, G. destruct (get w x) as [g0|] eqn:Ex; [|done]. intros [= <-]. simpl. destruct (decide (c = b)) as [->|Hn].
    + rewrite fn_lookup_insert. intros [Hx| ->%list_elem_of_singleton]%elem_of_app.
      * rewrite decide_False by (intros ->; apply Hw; by exists b). rewrite <- (H5 x g0 b Ex Hx) at 3. by destruct (decide (x = b)), g0.
      * rewrite decide_True by done. by destruct g0.
    + rewrite fn_lookup_insert_ne by done. intros Hx. rewrite decide_False by (intros ->; apply Hw; by exists c).
      rewrite <- (H5 x g0 c Ex Hx). by destruct (decide (x = b)), g0.
  - simpl. rewrite Hhb. replace (IS_POSIX (strip fb)) with (IS_POSIX fb) by (by destruct fb). unfold w3. destruct (IS_POSIX fb); simpl; by rewrite H6.
  - unfold w3. destruct (IS_POSIX fb); simpl; by rewrite H7.
  - unfold w3. destruct (IS_POSIX fb); simpl; by rewrite H8.
Qed.

Lemma wf_block a b q : wf a -> listed a b -> idle a q -> wf (sh_block a b q).
Proof.
  intros W Hb (Hi & Hl & Hw & Hq). pose proof W as [H1 H2 H3 H4 H5 H6 H7 [H8 H8'] H9].
  assert (is_Some (sh_info a !! b)) as [hb Hhb] by (destruct Hb as [i Hb]; by apply (H2 i)).
  assert (q <> b) as Hqb by (intros ->; done).
  assert (forall c x, x ∈ sh_queue (sh_block a b q) c -> x ∈ sh_queue a c \/ x = q /\ c = b) as Hin.
  { intros c x. simpl. destruct (decide (c = b)) as [->|]; [rewrite fn_lookup_insert; set_solver | rewrite fn_lookup_insert_ne by done; tauto]. }
  assert (forall c x, x ∈ sh_queue a c -> x ∈ sh_queue (sh_block a b q) c) as Hout.
  { intros c x. simpl. destruct (decide (c = b)) as [->|]; [rewrite fn_lookup_insert; set_solver | by rewrite fn_lookup_insert_ne]. }
  split; try done.
  - intros c. simpl. destruct (decide (c = b)) as [->|]; [|by rewrite fn_lookup_insert_ne]. rewrite fn_lookup_insert. rewrite Permutation_app_comm. apply NoDup_cons.
    split; [intros K; apply Hw; by exists b | done].
  - intros c x [Hx|[-> ->]]%Hin.
    + destruct (H6 c x Hx) as (K1 & K2 & K3). split_and!; [done..|]. simpl. rewrite fn_lookup_insert_ne; [done|]. intros ->. by apply K2.
    + split_and!; [done..|]. simpl. by rewrite fn_lookup_insert_ne.
  - intros x c c' [Hc|[-> ->]]%Hin [Hc'|[? ->]]%Hin; subst; try done; [by apply (H7 x)| |]; destruct Hw; by eexists.
  - simpl. rewrite Hhb. destruct (IS_POSIX hb) eqn:Ep.
    + split; [apply NoDup_cons; split; [by apply not_waits_blocked | done]|]. intros x. rewrite elem_of_cons, H8'. split.
      * intros [-> | (c & f & Ec & Hf & Hx)]; [exists b, hb | exists c, f]; split_and!; try done; [|by apply Hout]. simpl. rewrite fn_lookup_insert. set_solver.
      * intros (c & f & Ec & Hf & [Hx|[-> ->]]%Hin); [right; by exists c, f | by left].
    + split; [done|]. intros x. rewrite H8'. split; intros (c & f & Ec & Hf & Hx); exists c, f; split_and!; try done; [by apply Hout|].
      apply Hin in Hx as [Hx|[-> ->]]; [done | congruence].
Qed.
End Steps.
