(* ===== verification/LocksEvolve.v ===== *)
(** * File locks: what happens to those who wait

    [evolves]: from one shape to the next no request is lost.  A lock keeps its
    queue only when it still covers what it covered; otherwise everybody in the
    queue is woken, and nobody else. *)

From stdpp Require Import gmap functions.
From S2P Require Import Prelude Locks LocksRepr LocksSteps.
From stdpp Require Import list.
Open Scope Z_scope.
Open Scope c_scope.

(** A lock that has grown at most. *)
Definition kept (f f' : file_lock) : Prop :=
  fl_owner f' = fl_owner f /\ fl_flags f' = fl_flags f /\ fl_type f' = fl_type f /\ fl_file f' = fl_file f /\ fl_lmops f' = fl_lmops f /\
  fl_start f' <= fl_start f /\ fl_end f <= fl_end f'.

Lemma kept_refl f : kept f f.
Proof. unfold kept. split_and!; done || lia. Qed.
Lemma kept_trans f g h : kept f g -> kept g h -> kept f h.
Proof. unfold kept. intros (A1 & A2 & A3 & A4 & A5 & A6 & A7) (B1 & B2 & B3 & B4 & B5 & B6 & B7). split_and!; congruence || lia. Qed.

Section Evolve.
Context {ops : LockOps}.

Record evolves (a a' : shape) : Prop := {
  ev_queue b : sh_queue a' b = [] \/
    sh_queue a' b = sh_queue a b /\ exists f f', sh_info a !! b = Some f /\ sh_info a' !! b = Some f' /\ kept f f';
  ev_info q : waits a' q -> sh_info a' !! q = sh_info a !! q;
  ev_events : exists ws, sh_events a' = sh_events a ++ (wake_event a <$> ws) /\ forall q, q ∈ ws <-> waits a q /\ ~ waits a' q
}.

Lemma ev_waits a a' q : evolves a a' -> waits a' q -> waits a q.
Proof. intros [H _ _] [b Hb]. exists b. destruct (H b) as [E | [E _]]; rewrite E in Hb; [by apply elem_of_nil in Hb | done]. Qed.

Lemma evolves_trans a1 a2 a3 : evolves a1 a2 -> evolves a2 a3 -> evolves a1 a3.
Proof.
  intros E12 E23. pose proof (ev_waits a1 a2) as V12. pose proof (ev_waits a2 a3) as V23.
  pose proof E12 as [Q12 I12 (ws & W12 & M12)]. pose proof E23 as [Q23 I23 (ws' & W23 & M23)]. split.
  - intros b. destruct (Q23 b) as [E | (E & f & f' & Ef & Ef' & K)]; [by left|]. destruct (Q12 b) as [E' | (E' & g & g' & Eg & Eg' & K')].
    + left. by rewrite E, E'.
    + right. rewrite E, E'. split; [done|]. exists g, f'. rewrite Eg' in Ef. injection Ef as ->. split_and!; [done..|]. by eapply kept_trans.
  - intros q Hq. rewrite (I23 q Hq). apply I12. by apply V23.
  - exists (ws ++ ws'). split.
    + rewrite W23, W12, fmap_app, app_assoc. f_equal. apply list_fmap_ext. intros k q Hq%list_elem_of_lookup_2. apply M23 in Hq as [Hq _].
      unfold wake_event. by rewrite I12.
    + intros q. rewrite elem_of_app, M12, M23. split.
      * intros [[H1 H2] | [H1 H2]]; (split; [|done || by auto]); [done | by apply V12].
      * intros [H1 H2]. destruct (decide (q ∈ ws)) as [Hin|Hin]; [left; by apply M12|]. right. split; [|done].
        destruct (M12 q) as [_ K]. destruct (decide (q ∈ ws')) as [Hin'|Hin']; [by apply M23|].
        exfalso. apply Hin, M12. split; [done|]. intros H3. apply Hin', M23. done.
Qed.

(** What all the steps below have in common: the queues are those of before, or
    the queue of [p] alone is woken. *)
Lemma evolves_same a a' : wf a -> queues_in a -> (forall b, sh_queue a' b = sh_queue a b) -> sh_events a' = sh_events a ->
  (forall q, waits a q -> sh_info a' !! q = sh_info a !! q) ->
  (forall b f, sh_info a !! b = Some f -> sh_queue a b <> [] -> exists f', sh_info a' !! b = Some f' /\ kept f f') -> evolves a a'.
Proof.
  intros W Hq Eq Ee Hi Hk. assert (forall q, waits a' q <-> waits a q) as Hw.
  { intros q. split; intros [b Hb]; exists b; by rewrite Eq in *. }
  split.
  - intros b. rewrite Eq. destruct (sh_queue a b) eqn:E; [by left | right]. split; [done|].
    destruct (Hq b) as [i Hb]; [by rewrite E|]. apply (wf_listed a W) in Hb as [f Hf]. exists f.
    destruct (Hk b f Hf) as (f' & Ef' & K); [by rewrite E|]. by exists f'.
  - intros q Hq'. by apply Hi, Hw.
  - exists []. split; [by rewrite Ee, app_nil_r|]. intros q. rewrite Hw. split; [by intros ?%elem_of_nil | tauto].
Qed.

Lemma evolves_refl a : wf a -> queues_in a -> evolves a a.
Proof. intros W Hq. apply evolves_same; try done. intros b f E _. exists f. split; [done | apply kept_refl]. Qed.

Lemma evolves_upd a p g : wf a -> queues_in a -> ~ waits a p ->
  (sh_queue a p = [] \/ forall f, sh_info a !! p = Some f -> kept f (g f)) -> evolves a (sh_upd a p g).
Proof.
  intros W Hq Hw Hk. apply evolves_same; try done; simpl.
  - intros q Hq'. rewrite lookup_alter_ne; [done|]. by intros ->.
  - intros b f E Hb. destruct (decide (b = p)) as [->|Hn]; [|exists f; simplify_map_eq; split; [done | apply kept_refl]].
    exists (g f). simplify_map_eq. split; [done|]. destruct Hk as [Hk|Hk]; [done | by apply Hk].
Qed.

Lemma evolves_set a p f : wf a -> queues_in a -> ~ waits a p -> sh_queue a p = [] -> evolves a (sh_set a p f).
Proof.
  intros W Hq Hw Hk. apply evolves_same; try done; simpl.
  - intros q Hq'. rewrite lookup_insert_ne; [done|]. by intros ->.
  - intros b h E Hb. exists h. rewrite lookup_insert_ne by (by intros ->). split; [done | apply kept_refl].
Qed.

Lemma evolves_free a p : wf a -> queues_in a -> ~ waits a p -> sh_queue a p = [] -> evolves a (sh_free a p).
Proof.
  intros W Hq Hw Hk. apply evolves_same; try done; simpl.
  - intros q Hq'. rewrite lookup_delete_ne; [done|]. by intros ->.
  - intros b h E Hb. exists h. rewrite lookup_delete_ne by (by intros ->). split; [done | apply kept_refl].
Qed.

Lemma evolves_insert nspid a i pre p post : wf a -> queues_in a -> idle a p -> evolves a (sh_insert nspid a i pre p post).
Proof.
  intros W Hq (H1 & H2 & H3 & H4). apply evolves_same; try done; simpl.
  - intros q Hq'. rewrite lookup_alter_ne; [done|]. by intros ->.
  - intros b h E Hb. exists h. rewrite lookup_alter_ne by (by intros ->). split; [done | apply kept_refl].
Qed.

Lemma waits_cleared a a' p q : wf a -> (forall b, sh_queue a' b = (<[p := []]> (sh_queue a)) b) ->
  waits a' q <-> waits a q /\ q ∉ sh_queue a p.
Proof.
  intros W E. split.
  - intros [b Hb]. rewrite E in Hb. destruct (decide (b = p)) as [->|Hn]; [rewrite fn_lookup_insert in Hb; by apply elem_of_nil in Hb|].
    rewrite fn_lookup_insert_ne in Hb by done. split; [by exists b|]. intros Hp. apply Hn. by apply (wf_one a W q).
  - intros [[b Hb] Hp]. exists b. rewrite E. rewrite fn_lookup_insert_ne; [done|]. by intros ->.
Qed.

Lemma evolves_clear a a' p : wf a -> queues_in a -> (forall b, sh_queue a' b = (<[p := []]> (sh_queue a)) b) ->
  sh_events a' = sh_events a ++ (wake_event a <$> sh_queue a p) ->
  (forall q, q <> p -> sh_info a' !! q = sh_info a !! q) -> ~ waits a p -> evolves a a'.
Proof.
  intros W Hq Eq Ee Hi Hp. pose proof (fun q => waits_cleared a a' p q W Eq) as Hw. split.
  - intros b. rewrite Eq. destruct (decide (b = p)) as [->|Hn]; [left; by rewrite fn_lookup_insert|]. rewrite fn_lookup_insert_ne by done.
    destruct (sh_queue a b) eqn:E; [by left | right]. split; [done|]. destruct (Hq b) as [i Hb]; [by rewrite E|].
    apply (wf_listed a W) in Hb as [f Hf]. exists f, f. rewrite Hi by done. split_and!; [done..|apply kept_refl].
  - intros q [Hq' _]%Hw. apply Hi. by intros ->.
  - exists (sh_queue a p). split; [done|]. intros q. rewrite Hw. destruct (decide (q ∈ sh_queue a p)) as [Hin|Hin]; [|tauto].
    split; [|tauto]. intros _. split; [by exists p | tauto].
Qed.

Lemma evolves_wake a p : wf a -> queues_in a -> ~ waits a p -> evolves a (sh_wake a p).
Proof. intros W Hq Hp. by apply (evolves_clear a _ p). Qed.

Definition plain (f : file_lock) : Prop := fl_ops f = 0 /\ fl_lmops f = 0.

Lemma plain_release f p : plain f -> release_events f p = [].
Proof. unfold release_events. by intros [-> ->]. Qed.
Lemma plain_copy f p q : plain f -> copy_events f p q = [].
Proof. unfold copy_events. by intros [-> _]. Qed.

Lemma evolves_delete a i p f : wf a -> queues_in a -> p ∈ sh_list a i -> sh_info a !! p = Some f -> plain f -> evolves a (sh_delete a i p).
Proof.
  intros W Hq Hp Ef Hf. apply (evolves_clear a _ p); try done; simpl.
  - rewrite Ef, (plain_release f p Hf). by rewrite app_nil_r.
  - intros q Hn. by simplify_map_eq.
  - apply (listed_not_waits a p W). by exists i.
Qed.

(** ** Queues belong to locks of an inode *)

Lemma queues_delete a i p : wf a -> queues_in a -> p ∈ sh_list a i -> queues_in (sh_delete a i p).
Proof.
  intros W Hq Hp b. simpl. destruct (decide (b = p)) as [->|Hn]; [by rewrite fn_lookup_insert|]. rewrite fn_lookup_insert_ne by done. intros Hb.
  change (listed (sh_unlist a i p) b). apply (listed_unlist a i p b W Hp). split; [by apply Hq | done].
Qed.
Lemma queues_insert nspid a i pre p post : queues_in a -> sh_list a i = pre ++ post -> queues_in (sh_insert nspid a i pre p post).
Proof. intros Hq E b Hb. apply (listed_insert nspid a i pre p post b E). left. by apply Hq. Qed.
Lemma queues_wake a p : queues_in a -> queues_in (sh_wake a p).
Proof.
  intros Hq b. simpl. destruct (decide (b = p)) as [->|Hn]; [by rewrite fn_lookup_insert|]. rewrite fn_lookup_insert_ne by done. apply Hq.
Qed.
Lemma queues_block a b q : queues_in a -> listed a b -> queues_in (sh_block a b q).
Proof.
  intros Hq Hb c. simpl. destruct (decide (c = b)) as [->|Hn]; [done|]. rewrite fn_lookup_insert_ne by done. apply Hq.
Qed.
Lemma queues_unblock a q : queues_in a -> queues_in (sh_unblock a q).
Proof. intros Hq b Hb. apply (Hq b). intros E. apply Hb. simpl. by rewrite E. Qed.

(** ** Steps of the code *)

Definition good (w : locks) (a : shape) : Prop := repr w a /\ wf a /\ queues_in a.

Definition keeps_kind (g : file_lock -> file_lock) : Prop := forall f, fl_flags (g f) = fl_flags f.

Lemma keeps_posix g f : keeps_kind g -> IS_POSIX (g f) = IS_POSIX f.
Proof. intros H. unfold IS_POSIX. by rewrite H. Qed.

Lemma step_upd w a p g : good w a -> is_Some (sh_info a !! p) -> data_setter g -> keeps_kind g -> ~ waits a p ->
  (sh_queue a p = [] \/ forall f, sh_info a !! p = Some f -> kept f (g f)) ->
  exists w', upd w p g = Some w' /\ good w' (sh_upd a p g) /\ evolves a (sh_upd a p g).
Proof.
  intros (R & W & Q) Hp Hg Hk Hw Hq. destruct (upd_ok w a p g R Hp Hg) as (w' & E & R'). exists w'. split; [done|]. split; [|by apply evolves_upd].
  split_and!; [done| |done]. apply wf_upd; [done|]. intros f _. by apply keeps_posix.
Qed.

Lemma step_wake w a p : good w a -> is_Some (sh_info a !! p) -> ~ waits a p ->
  exists w', locks_wake_up_blocks w p = Some w' /\ good w' (sh_wake a p) /\ evolves a (sh_wake a p).
Proof.
  intros (R & W & Q) Hp Hw. destruct (wake_blocks_ok w a p R W Hp) as (w' & E & R'). exists w'. split; [done|]. split; [|by apply evolves_wake].
  split_and!; [done|by apply wf_wake|by apply queues_wake].
Qed.

(** A change of a lock that others may wait for, and the wake-up that follows. *)
Definition sh_change (a : shape) (p : Z) (g : file_lock -> file_lock) : shape := sh_wake (sh_upd a p g) p.

Lemma step_change w a p g : good w a -> is_Some (sh_info a !! p) -> data_setter g -> keeps_kind g -> ~ waits a p ->
  exists w1 w', upd w p g = Some w1 /\ locks_wake_up_blocks w1 p = Some w' /\ good w' (sh_change a p g) /\ evolves a (sh_change a p g).
Proof.
  intros (R & W & Q) Hp Hg Hk Hw. destruct (upd_ok w a p g R Hp Hg) as (w1 & E1 & R1).
  assert (wf (sh_upd a p g)) as W1 by (apply wf_upd; [done|]; intros f _; by apply keeps_posix).
  destruct (wake_blocks_ok w1 _ p R1 W1 (is_Some_upd a p g p Hp)) as (w' & E & R'). exists w1, w'. split; [done|]. split; [done|].
  split; [split_and!; [done | by apply wf_wake | by apply queues_wake]|].
  apply (evolves_clear a _ p); try done; simpl.
  - f_equal. apply list_fmap_ext. intros k q Hq%list_elem_of_lookup_2. apply wake_event_alter. intros ->. by apply (not_self a p W).
  - intros q Hn. by simplify_map_eq.
Qed.

Lemma step_delete w a i pre p post f : good w a -> sh_list a i = pre ++ p :: post -> sh_info a !! p = Some f -> plain f ->
  exists w', locks_delete_lock w (slot_after i pre) = Some w' /\ good w' (sh_delete a i p) /\ evolves a (sh_delete a i p).
Proof.
  intros (R & W & Q) E Ef Hf. destruct (list_split a i p pre post W E) as (_ & _ & _ & _ & Hp).
  destruct (delete_ok w a i pre p post R W E) as (w' & E' & R' & W'). exists w'. split; [done|]. split; [|by eapply evolves_delete].
  split_and!; [done | done | by apply queues_delete].
Qed.

Lemma step_copy w a new p f n : good w a -> sh_info a !! p = Some f -> sh_info a !! new = Some n -> new <> p -> plain f -> plain n ->
  idle a new -> exists w', locks_copy_lock w new p = Some w' /\ good w' (sh_set a new (copy_of f n)) /\ evolves a (sh_set a new (copy_of f n)).
Proof.
  intros (R & W & Q) Ep En Hn Pf Pn (_ & Hl & Hw & Hq). destruct (copy_ok w a new p f n R Ep En Hn) as (w' & E & R').
  rewrite (plain_release n new Pn), (plain_copy f new p Pf) in R'. exists w'. split; [done|].
  assert (repr w' (sh_set a new (copy_of f n))) as R2 by (apply (repr_same _ _ _) with (2 := R'); split; simpl; try done; by rewrite app_nil_r).
  assert (new <> 0) as Hn0 by (intros ->; by rewrite (wf_null a W) in En).
  split; [|by apply evolves_set]. split_and!; [done| |done]. split; simpl.
  all: pose proof W as [H1 H2 H3 H4 H5 H6 H7 [H8 H8'] H9]; try done.
  - by rewrite lookup_insert_ne.
  - intros i q Hq'. destruct (decide (q = new)) as [->|]; simplify_map_eq; [eauto | by apply (H2 i)].
  - intros b q Hb. destruct (H6 b q Hb) as (K1 & K2). split; [|done]. destruct (decide (q = new)) as [->|]; simplify_map_eq; eauto.
  - split; [done|]. intros q. rewrite H8'. split; intros (b & g & Eg & Hg & Hb); exists b, g; (assert (b <> new) by (intros ->; rewrite Hq in Hb; by apply elem_of_nil in Hb)); by simplify_map_eq.
Qed.

Lemma step_insert nspid w a i pre p post : good w a -> sh_list a i = pre ++ post -> idle a p ->
  exists w', locks_insert_lock nspid w (slot_after i pre) p = Some w' /\ good w' (sh_insert nspid a i pre p post) /\ evolves a (sh_insert nspid a i pre p post).
Proof.
  intros (R & W & Q) E Hp. destruct (insert_ok nspid w a i pre p post R W E Hp) as (w' & E' & R'). exists w'. split; [done|].
  split; [|by apply evolves_insert]. split_and!; [done|by apply wf_insert|by apply queues_insert].
Qed.

Lemma step_free w a p f : good w a -> sh_info a !! p = Some f -> plain f -> idle a p ->
  exists w', locks_free_lock w p = Some w' /\ good w' (sh_free a p) /\ evolves a (sh_free a p).
Proof.
  intros (R & W & Q) E Pf (_ & Hl & Hw & Hq). destruct (free_ok w a p f R W E Hl Hw Hq) as (w' & E' & R').
  rewrite (plain_release f p Pf) in R'. exists w'. split; [done|]. split; [|by apply evolves_free]. split_and!; [|by apply wf_free|done].
  apply (repr_same _ _ _) with (2 := R'). split; simpl; try done. by rewrite app_nil_r.
Qed.
End Evolve.
