(* ===== verification/LocksPosix.v ===== *)
(** * File locks: setting a POSIX lock

    The second half of [__posix_lock_file], after the search for conflicts: the
    loop over the locks of the owner and what follows it turn the ranges of the
    owner into [place], wake everybody who waits for a lock that got smaller, and
    leave everything else alone. *)

From stdpp Require Import gmap functions.
From S2P Require Import Prelude Locks LocksIntervals LocksRepr LocksSteps LocksEvolve.
From stdpp Require Import list.
Open Scope Z_scope.
Open Scope c_scope.

Lemma s64_small x : - 2 ^ 63 <= x < 2 ^ 63 -> s64 x = x.
Proof. intros H. unfold s64. rewrite Z.mod_small by lia. lia. Qed.

Definition rng (f : file_lock) : range := (fl_type f, fl_start f, fl_end f).
Definition rng_at (a : shape) (p : Z) : range := match sh_info a !! p with Some f => rng f | None => (0, 0, 0) end.

Lemma rngs_ext a a' (l : list Z) : (forall p, p ∈ l -> sh_info a' !! p = sh_info a !! p) -> rng_at a' <$> l = rng_at a <$> l.
Proof. intros H. apply list_fmap_ext. intros k p Hp%list_elem_of_lookup_2. unfold rng_at. by rewrite H. Qed.

(** A POSIX lock or request of owner [o], without callbacks. *)
Definition lock_of (o : Z) (f : file_lock) : Prop := IS_POSIX f = true /\ fl_owner f = o /\ plain f.
Definition owned (a : shape) (o p : Z) : Prop := exists f, sh_info a !! p = Some f /\ lock_of o f.

Lemma owned_ext a a' o p : sh_info a' !! p = sh_info a !! p -> owned a o p -> owned a' o p.
Proof. unfold owned. by intros ->. Qed.

Lemma same_owner {ops : LockOps} r f o : lock_of o r -> posix_same_owner r f = (o =? fl_owner f).
Proof. intros (_ & <- & _ & E). unfold posix_same_owner. by rewrite E. Qed.

Section Scan.
Context {ops : LockOps}.
Context (i o t nspid : Z) (post : list Z).

(** A structure that was allocated, or 0. *)
Definition spare (a : shape) (n : Z) : Prop := n = 0 \/ idle a n /\ exists f, sh_info a !! n = Some f /\ plain f.
(** The structure is in a list now or still to be freed. *)
Definition left_over (a' : shape) (n n' : Z) : Prop := n' = 0 /\ (n = 0 \/ listed a' n) \/ n' = n /\ spare a' n.

(** ** Cutting the lock to the left *)

Definition cut (a : shape) (lft s : Z) : shape := if lft =? 0 then a else sh_change a lft (set_end (s - 1)).

Lemma cut_info a lft s p : sh_info a !! 0 = None ->
  sh_info (cut a lft s) !! p = if decide (p = lft) then set_end (s - 1) <$> sh_info a !! p else sh_info a !! p.
Proof.
  intros H0. unfold cut. destruct (Z.eqb_spec lft 0) as [->|Hn].
  - destruct (decide (p = 0)) as [->|]; [by rewrite H0 | done].
  - simpl. destruct (decide (p = lft)) as [->|]; by simplify_map_eq.
Qed.
Lemma cut_list a lft s j : sh_list (cut a lft s) j = sh_list a j.
Proof. unfold cut. by destruct (lft =? 0). Qed.
Lemma cut_queue a lft s b : b <> lft -> sh_queue (cut a lft s) b = sh_queue a b.
Proof. unfold cut. intros Hb. destruct (lft =? 0); [done|]. simpl. by rewrite fn_lookup_insert_ne. Qed.
Lemma cut_waits a lft s q : waits (cut a lft s) q -> waits a q.
Proof.
  unfold cut. destruct (lft =? 0); [done|]. intros [b Hb]. simpl in Hb. exists b.
  destruct (decide (b = lft)) as [->|Hn]; [rewrite fn_lookup_insert in Hb; by apply elem_of_nil in Hb | by rewrite fn_lookup_insert_ne in Hb].
Qed.
Lemma cut_idle a lft s p : sh_info a !! 0 = None -> p <> lft -> idle a p -> idle (cut a lft s) p.
Proof.
  intros H0 Hp (H1 & H2 & H3 & H4). split_and!.
  - by rewrite cut_info, decide_False.
  - intros [j Hj]. rewrite cut_list in Hj. apply H2. by exists j.
  - intros Hw. by apply H3, (cut_waits a lft s).
  - by rewrite cut_queue.
Qed.
Lemma cut_spare a lft s n : sh_info a !! 0 = None -> (n = 0 \/ n <> lft) -> spare a n -> spare (cut a lft s) n.
Proof.
  intros H0 Hn [->|[Hi (f & Ef & Pf)]]; [by left|]. assert (n <> lft) as Hl by (destruct Hn as [->|]; [by rewrite H0 in Ef | done]).
  right. split; [by apply cut_idle|]. exists f. by rewrite cut_info, decide_False.
Qed.

Lemma cut_ok w a lft rq r s : good w a -> (lft = 0 \/ is_Some (sh_info a !! lft) /\ ~ waits a lft) ->
  sh_info a !! rq = Some r -> fl_start r = s -> 0 <= s <= OFFSET_MAX ->
  exists w', (if truthy lft then
                r ← get w rq;
                w ← upd w lft (set_end (s64 (fl_start r - 1)));
                locks_wake_up_blocks w lft
              else Some w) = Some w' /\ good w' (cut a lft s) /\ evolves a (cut a lft s).
Proof.
  intros G Hl Er <- Hs. pose proof G as (R & W & Q). unfold cut, truthy. destruct (Z.eqb_spec lft 0) as [->|Hn]; simpl.
  - exists w. split_and!; [done..|by apply evolves_refl].
  - destruct Hl as [|[Hi Hw]]; [done|]. destruct (repr_get w a rq r R Er) as (h & Eh & -> & _). rewrite Eh. simpl.
    assert (fl_start (strip h) = fl_start h) as E by (by destruct h). rewrite E in Hs |- *. unfold OFFSET_MAX in Hs. rewrite s64_small by lia.
    edestruct (step_change w a lft (set_end (fl_start h - 1)) G Hi (data_end _)) as (w1 & w' & E1 & E' & G' & V'); [by intros []|done|].
    exists w'. rewrite E1. simpl. done.
Qed.

(** ** The end of the scan *)

Definition posix_tail (fuel : nat) (n1 n2 : Z) (s : posix_scan) : option (locks * Z * Z * Z) :=
  s ← c_loop fuel posix_step s;
  posix_finish nspid n1 n2 s.

(** What is known at the beginning of an iteration.  [inl] tells that the request
    stands for a lock that is in the list, behind [pre]. *)
Record scanning (w : locks) (a : shape) (pre rest : list Z) (rq lft : Z) (inl added : bool) (r : file_lock) (n1 n2 : Z) : Prop := {
  sn_good : good w a;
  sn_list : sh_list a i = pre ++ (if inl then [rq] else []) ++ rest ++ post;
  sn_req : sh_info a !! rq = Some r;
  sn_of : lock_of o r;
  sn_type : fl_type r = t;
  sn_range : 0 <= fl_start r <= fl_end r /\ fl_end r <= OFFSET_MAX;
  sn_idle : inl = false -> idle a rq;
  sn_rest p : p ∈ rest -> owned a o p;
  sn_ranges : ranges_ok None (rng_at a <$> rest);
  sn_post p : head post = Some p -> exists f, sh_info a !! p = Some f /\ fl_owner f <> o;
  sn_left : lft = 0 \/ lft ∈ pre /\ owned a o lft;
  sn_spare1 : spare a n1;
  sn_spare2 : spare a n2;
  sn_new : (n1 = 0 \/ n1 <> n2 /\ n1 <> rq) /\ (n2 = 0 \/ n2 <> rq);
  sn_added : (t = F_UNLCK -> inl = false /\ (lft <> 0 -> added = true)) /\ (t <> F_UNLCK -> added = inl)
}.

#[local] Arguments sn_good {_ _ _ _ _ _ _ _ _ _ _}.
#[local] Arguments sn_list {_ _ _ _ _ _ _ _ _ _ _}.
#[local] Arguments sn_req {_ _ _ _ _ _ _ _ _ _ _}.
#[local] Arguments sn_of {_ _ _ _ _ _ _ _ _ _ _}.
#[local] Arguments sn_type {_ _ _ _ _ _ _ _ _ _ _}.
#[local] Arguments sn_range {_ _ _ _ _ _ _ _ _ _ _}.
#[local] Arguments sn_idle {_ _ _ _ _ _ _ _ _ _ _}.
#[local] Arguments sn_rest {_ _ _ _ _ _ _ _ _ _ _}.
#[local] Arguments sn_ranges {_ _ _ _ _ _ _ _ _ _ _}.
#[local] Arguments sn_post {_ _ _ _ _ _ _ _ _ _ _}.
#[local] Arguments sn_left {_ _ _ _ _ _ _ _ _ _ _}.
#[local] Arguments sn_spare1 {_ _ _ _ _ _ _ _ _ _ _}.
#[local] Arguments sn_spare2 {_ _ _ _ _ _ _ _ _ _ _}.
#[local] Arguments sn_new {_ _ _ _ _ _ _ _ _ _ _}.
#[local] Arguments sn_added {_ _ _ _ _ _ _ _ _ _ _}.

(** The result of a scan over [rest], behind [pre]. *)
Record scanned (a : shape) (pre rest : list Z) (rq lft s n1 n2 : Z) (rs : list range) (a' : shape) : Prop := {
  sd_list : exists news, sh_list a' i = pre ++ news ++ post /\ rng_at a' <$> news = rs /\ forall p, p ∈ news -> owned a' o p;
  sd_other j : j <> i -> sh_list a' j = sh_list a j;
  sd_left f : lft <> 0 -> sh_info a !! lft = Some f -> sh_info a' !! lft = Some (set_end (s - 1) f);
  sd_frame p : p ∉ [rq; lft; n1; n2] -> p ∉ rest -> sh_info a' !! p = sh_info a !! p;
  sd_new p : p ∈ sh_list a' i -> p <> 0 -> p ∈ sh_list a i \/ p = n1 \/ p = n2;
  sd_req : ~ listed a rq -> owned a o rq -> owned a' o rq
}.

Definition overlap (s e : Z) (l : list range) : bool := existsb (fun '(_, s', e') => (s' <=? e) && (s <=? e')) l.
Definition scan_error (added : bool) (r : file_lock) (l : list range) : Z :=
  if (t =? F_UNLCK) && negb (added || overlap (fl_start r) (fl_end r) l) && truthy (fl_flags r .& FL_EXISTS) then - ENOENT else 0.

Definition scan_ends (a : shape) (pre rest : list Z) (rq lft : Z) (inl added : bool) (r : file_lock) (n1 n2 : Z)
    (res : option (locks * Z * Z * Z)) : Prop :=
  exists w' err n1' n2' a', res = Some (w', err, n1', n2') /\ good w' a' /\ evolves a a' /\
    left_over a' n1 n1' /\ left_over a' n2 n2' /\
    (err = - ENOLCK /\ a' = a /\ (n1 = 0 /\ t <> F_UNLCK \/ n2 = 0 /\ 0 < fl_start r) /\ inl = false /\ added = false \/
     err = scan_error added r (rng_at a <$> rest) /\
     scanned a pre rest rq lft (fl_start r) n1 n2 (place t (fl_start r) (fl_end r) (rng_at a <$> rest)) a').

Lemma owned_some a p : owned a o p -> is_Some (sh_info a !! p).
Proof. intros (f & Ef & _). by exists f. Qed.

Section Facts.
Context w a pre rest rq lft inl added r n1 n2 (S : scanning w a pre rest rq lft inl added r n1 n2).

Lemma sn_null : sh_info a !! 0 = None.
Proof using S. apply wf_null, S. Qed.
Lemma sn_in p : p ∈ pre \/ inl = true /\ p = rq \/ p ∈ rest \/ p ∈ post -> p ∈ sh_list a i.
Proof using S. rewrite (sn_list S). destruct inl; list_solver. Qed.
Lemma sn_listed_ne p q : p ∈ sh_list a i -> idle a q -> p <> q.
Proof using. intros Hp (_ & Hq & _) ->. apply Hq. by exists i. Qed.
Lemma sn_nowait p : p ∈ sh_list a i -> ~ waits a p.
Proof using S. intros Hp. apply listed_not_waits; [apply S | by exists i]. Qed.
Lemma sn_spare_ne p n : p ∈ sh_list a i -> spare a n -> p <> n.
Proof using S.
  intros Hp [->|[Hn _]]; [|by apply sn_listed_ne]. intros ->. destruct (sn_good S) as (_ & W & _).
  apply (wf_listed a W) in Hp. rewrite sn_null in Hp. by destruct Hp.
Qed.
Lemma sn_nodup : NoDup (pre ++ (if inl then [rq] else []) ++ rest ++ post).
Proof using S. rewrite <- (sn_list S). apply wf_nodup, S. Qed.
Lemma sn_left_ok : lft = 0 \/ is_Some (sh_info a !! lft) /\ ~ waits a lft.
Proof using S.
  destruct (sn_left S) as [E0|[Hl Ho]]; [by left | right]. split; [by eapply owned_some|]. apply sn_nowait, sn_in. by left.
Qed.
Lemma sn_left_rest p : p ∈ rest -> p <> lft.
Proof using S.
  intros Hp E. destruct (sn_left S) as [E0|[Hl _]].
  - destruct (owned_some a p (sn_rest S p Hp)) as [f Hf]. by rewrite E, E0, sn_null in Hf.
  - pose proof sn_nodup as N. apply NoDup_app in N as (_ & N & _). apply (N lft Hl). rewrite <- E. list_solver.
Qed.
Lemma sn_rest_rq p : p ∈ rest -> p <> rq.
Proof using S.
  intros Hp E. destruct (bool_dec inl true) as [Ei|Ei%not_true_is_false].
  - pose proof sn_nodup as N. apply NoDup_app in N as (_ & _ & N). rewrite Ei in N. apply NoDup_cons in N as [N _]. apply N. rewrite <- E. list_solver.
  - eapply sn_listed_ne; [apply sn_in; right; right; left; exact Hp | by apply (sn_idle S) | done].
Qed.
Lemma sn_left_rq : lft <> rq.
Proof using S.
  intros E. destruct (sn_left S) as [E0|[Hl _]].
  - pose proof (sn_req S) as Er. by rewrite <- E, E0, sn_null in Er.
  - destruct (bool_dec inl true) as [Ei|Ei%not_true_is_false].
    + pose proof sn_nodup as N. apply NoDup_app in N as (_ & N & _). apply (N lft Hl). rewrite Ei, E. list_solver.
    + eapply sn_listed_ne; [apply sn_in; left; exact Hl | by apply (sn_idle S) | done].
Qed.
End Facts.
#[local] Arguments sn_null {_ _ _ _ _ _ _ _ _ _ _}.
#[local] Arguments sn_in {_ _ _ _ _ _ _ _ _ _ _}.
#[local] Arguments sn_nowait {_ _ _ _ _ _ _ _ _ _ _}.
#[local] Arguments sn_spare_ne {_ _ _ _ _ _ _ _ _ _ _}.
#[local] Arguments sn_nodup {_ _ _ _ _ _ _ _ _ _ _}.
#[local] Arguments sn_left_ok {_ _ _ _ _ _ _ _ _ _ _}.
#[local] Arguments sn_left_rest {_ _ _ _ _ _ _ _ _ _ _}.
#[local] Arguments sn_rest_rq {_ _ _ _ _ _ _ _ _ _ _}.
#[local] Arguments sn_left_rq {_ _ _ _ _ _ _ _ _ _ _}.

Lemma owned_upd a p g q : (forall f, lock_of o f -> lock_of o (g f)) -> owned a o q -> owned (sh_upd a p g) o q.
Proof.
  intros Hg (f & Ef & Hf). simpl. destruct (decide (q = p)) as [->|].
  - exists (g f). simpl. simplify_map_eq. split; [done | by apply Hg].
  - exists f. simpl. by simplify_map_eq.
Qed.
Lemma lock_of_end v f : lock_of o f -> lock_of o (set_end v f).
Proof. by destruct f. Qed.

Lemma left_over_same a' n : spare a' n -> left_over a' n n.
Proof. by right. Qed.

Lemma cut_spare_ok w a pre rest rq lft inl added r n1 n2 n : scanning w a pre rest rq lft inl added r n1 n2 ->
  spare a n -> spare (cut a lft (fl_start r)) n.
Proof.
  intros S Hn. apply cut_spare; [by eapply sn_null | | done]. destruct (decide (n = 0)) as [|Hn0]; [by left | right].
  destruct (sn_left S) as [->|[Hl _]]; [done|]. apply not_eq_sym. eapply (sn_spare_ne S); [|done]. eapply sn_in; [done | by left].
Qed.

#[local] Arguments cut_spare_ok {_ _ _ _ _ _ _ _ _ _ _ _}.

(** Only the lock to the left is cut: the list and the other locks stay. *)
Lemma cut_scanned w a pre rest rq lft inl added r n1 n2 news rs :
  scanning w a pre rest rq lft inl added r n1 n2 ->
  sh_list a i = pre ++ news ++ post -> rng_at a <$> news = rs -> (forall p, p ∈ news -> owned a o p /\ p <> lft) ->
  scanned a pre rest rq lft (fl_start r) n1 n2 rs (cut a lft (fl_start r)).
Proof.
  intros S El Er Hn. pose proof (sn_null S) as H0. split.
  - exists news. split_and!.
    + by rewrite cut_list.
    + rewrite <- Er. apply rngs_ext. intros p Hp. destruct (Hn p Hp) as [_ Hp']. by rewrite cut_info, decide_False.
    + intros p Hp. destruct (Hn p Hp) as [Ho Hp']. apply (owned_ext a); [by rewrite cut_info, decide_False | done].
  - intros j _. by rewrite cut_list.
  - intros f _ Ef. by rewrite cut_info, decide_True, Ef.
  - intros p Hp _. rewrite cut_info by done. rewrite decide_False; [done | list_solver].
  - intros p. rewrite cut_list. tauto.
  - intros Hl Ho. apply (owned_ext a); [|done]. rewrite cut_info, decide_False; [done| |done]. intros ->. destruct (sn_left S) as [->|[Hp _]].
    + apply owned_some in Ho. rewrite H0 in Ho. by destruct Ho.
    + apply Hl. exists i. apply (sn_in S). tauto.
Qed.

(** The new lock is put behind [pre]: from then on it is the request. *)
Lemma insert_new w a pre rest rq lft r n1 n2 : scanning w a pre rest rq lft false false r n1 n2 -> t <> F_UNLCK -> n1 <> 0 ->
  exists w1 w2 a2 r2, locks_copy_lock w n1 rq = Some w1 /\ locks_insert_lock nspid w1 (slot_after i pre) n1 = Some w2 /\
    scanning w2 a2 pre rest n1 lft true true r2 0 n2 /\ evolves a a2 /\ rng r2 = rng r /\
    (forall p, p <> n1 -> sh_info a2 !! p = sh_info a !! p) /\ (forall j, j <> i -> sh_list a2 j = sh_list a j).
Proof.
  intros S Hu Hn1. pose proof (sn_good S) as (R & W & Q). pose proof (sn_idle S eq_refl) as Irq.
  destruct (sn_spare1 S) as [|[I1 (f1 & E1 & P1)]]; [done|]. destruct (sn_new S) as [[|[N1 N2]] N3]; [done|].
  destruct (sn_of S) as (Q1 & Q2 & Q3).
  destruct (step_copy w a n1 rq r f1 (sn_good S) (sn_req S) E1 N2 Q3 P1 I1) as (w1 & Ec & G1 & V1).
  set (a1 := sh_set a n1 (copy_of r f1)) in *.
  assert (sh_list a1 i = pre ++ rest ++ post) as El1 by (simpl; by rewrite (sn_list S)).
  assert (idle a1 n1) as I1'. { destruct I1 as (_ & K). split; [simpl; simplify_map_eq; eauto | done]. }
  destruct (step_insert nspid w1 a1 i pre n1 (rest ++ post) G1 El1 I1') as (w2 & Ei & G2 & V2).
  set (a2 := sh_insert nspid a1 i pre n1 (rest ++ post)) in *.
  exists w1, w2, a2, (set_nspid nspid (copy_of r f1)).
  assert (forall p, p <> n1 -> sh_info a2 !! p = sh_info a !! p) as F by (intros p Hp; simpl; by simplify_map_eq).
  assert (forall p, p ∈ sh_list a i -> p <> n1) as Hne by (intros p Hp; by apply (sn_listed_ne a p n1)).
  assert (rng (set_nspid nspid (copy_of r f1)) = rng r) as Er by (by destruct f1).
  split; [done|]. split; [done|]. split_and!; [|by eapply evolves_trans|done|done|].
  - split; try done.
    + simpl. by rewrite fn_lookup_insert.
    + simpl. by simplify_map_eq.
    + destruct Q3 as [Q3 Q4]. by destruct f1, r.
    + rewrite <- (sn_type S). by destruct f1.
    + injection Er as _ -> ->. apply (sn_range S).
    + intros p Hp. apply (owned_ext a); [|by apply (sn_rest S)]. apply F, Hne, (sn_in S). tauto.
    + rewrite (rngs_ext a); [apply (sn_ranges S)|]. intros p Hp. apply F, Hne, (sn_in S). tauto.
    + intros p Hp. destruct (sn_post S p Hp) as (f & Ef & Hf). exists f. rewrite F; [done|]. apply Hne, (sn_in S). destruct post; [done|]. injection Hp as ->. list_solver.
    + destruct (sn_left S) as [->|[Hl Ho]]; [by left | right]. split; [done|]. apply (owned_ext a); [|done]. apply F, Hne, (sn_in S). tauto.
    + by left.
    + destruct (sn_spare2 S) as [->|[I2 (f2 & E2 & P2)]]; [by left | right]. split; [|exists f2; by rewrite F].
      destruct I2 as (K1 & K2 & K3 & K4). split_and!; try done; [by rewrite F|].
      unfold a2. rewrite (listed_insert nspid a1 i pre n1 (rest ++ post) n2 El1). intros [K| ->]; [by apply K2 | done].
    + split; [by left|]. right. by apply not_eq_sym.
  - intros j Hj. simpl. by rewrite fn_lookup_insert_ne.
Qed.

(** Frames compose. *)
Lemma scanned_from a a1 pre rest rq rq1 lft s n1 n2 m1 m2 rs a' : scanned a1 pre rest rq1 lft s m1 m2 rs a' ->
  sh_info a !! 0 = None -> sh_info a' !! 0 = None ->
  (forall p, p <> 0 -> p ∉ [rq; lft; n1; n2] -> p ∉ rest -> (p ∉ [rq1; lft; m1; m2]) /\ sh_info a1 !! p = sh_info a !! p) ->
  (lft <> 0 -> sh_info a1 !! lft = sh_info a !! lft) -> (forall j, j <> i -> sh_list a1 j = sh_list a j) ->
  (forall p, p <> 0 -> p ∈ sh_list a1 i \/ p = m1 \/ p = m2 -> p ∈ sh_list a i \/ p = n1 \/ p = n2) ->
  (~ listed a rq -> owned a o rq -> owned a' o rq) -> scanned a pre rest rq lft s n1 n2 rs a'.
Proof.
  intros [H1 H2 H3 H4 H5 H6] E0 E0' Hf Hl Hj Hnew Hreq. split; [done|..].
  - intros j Hn. rewrite H2 by done. by apply Hj.
  - intros f Hn Ef. apply H3; [done|]. by rewrite Hl.
  - intros p Hp Hr. destruct (decide (p = 0)) as [->|Hp0]; [congruence|]. destruct (Hf p Hp0 Hp Hr) as [K1 K2]. by rewrite H4.
  - intros p Hp Hp0. by apply Hnew, H5.
  - done.
Qed.

Lemma finish_plain w a pre rest rq lft inl added r n1 n2 : scanning w a pre rest rq lft inl added r n1 n2 ->
  place t (fl_start r) (fl_end r) (rng_at a <$> rest) = emit t (fl_start r) (fl_end r) ++ (rng_at a <$> rest) ->
  overlap (fl_start r) (fl_end r) (rng_at a <$> rest) = false ->
  scan_ends a pre rest rq lft inl added r n1 n2
    (posix_finish nspid n1 n2 (PosixScan w (slot_after i (pre ++ if inl then [rq] else [])) rq lft 0 added)).
Proof.
  intros S HP HO. pose proof (sn_good S) as (R & W & Q). pose proof (sn_null S) as H0.
  destruct (repr_get w a rq r R (sn_req S)) as (h & Eh & Er & _).
  assert (fl_type h = t) as Et by (rewrite <- (sn_type S), Er; by destruct h).
  assert (fl_flags h = fl_flags r) as Efl by (rewrite Er; by destruct h).
  unfold posix_finish. cbn [truthy]. change (truthy 0) with false. cbn [andb]. rewrite Eh, bind_Some_eq, Et.
  unfold scan_ends, scan_error. rewrite HP, HO.
  destruct added; cbn [negb andb orb].
  - rewrite bind_Some_eq, bind_Some_eq, andb_false_r.
    destruct (cut_ok w a lft rq r _ (sn_good S) (sn_left_ok S) (sn_req S) eq_refl) as (w' & E' & G' & V'); [by pose proof (sn_range S); lia|].
    rewrite E', bind_Some_eq. exists w', 0, n1, n2, (cut a lft (fl_start r)). split; [done|]. split; [done|]. split; [done|].
    split; [by apply left_over_same, (cut_spare_ok S (sn_spare1 S))|].
    split; [by apply left_over_same, (cut_spare_ok S (sn_spare2 S))|]. right. split; [done|].
    destruct (decide (t = F_UNLCK)) as [Hu|Hu].
    + destruct (proj1 (sn_added S) Hu) as [Hi _]. apply (cut_scanned _ _ _ _ _ _ _ _ _ _ _ rest _ S).
      * by rewrite (sn_list S), Hi.
      * unfold emit. by rewrite Hu.
      * intros p Hp. split; [by apply (sn_rest S) | by apply (sn_left_rest S)].
    + pose proof (proj2 (sn_added S) Hu) as Hi. apply (cut_scanned _ _ _ _ _ _ _ _ _ _ _ (rq :: rest) _ S).
      * by rewrite (sn_list S), <- Hi.
      * unfold emit. rewrite (proj2 (Z.eqb_neq t F_UNLCK) Hu). simpl. f_equal. unfold rng_at. rewrite (sn_req S). unfold rng. by rewrite (sn_type S).
      * intros p [->|Hp]%elem_of_cons; [split; [exists r; split; [apply (sn_req S) | apply (sn_of S)] | by apply not_eq_sym, (sn_left_rq S)]|].
        split; [by apply (sn_rest S) | by apply (sn_left_rest S)].
  - destruct (Z.eqb_spec t F_UNLCK) as [Hu|Hu]; cbn [negb andb orb].
    + destruct (proj1 (sn_added S) Hu) as [Hi Hl]. rewrite Efl. eexists w, _, n1, n2, a. split; [done|]. split; [apply (sn_good S)|].
      split; [by apply evolves_refl|]. split; [by apply left_over_same, (sn_spare1 S)|]. split; [by apply left_over_same, (sn_spare2 S)|]. right. split; [done|].
      assert (lft = 0) as Hl0 by (destruct (decide (lft = 0)); [done | by specialize (Hl n)]).
      assert (cut a lft (fl_start r) = a) as Ec by (by rewrite Hl0).
      enough (scanned a pre rest rq lft (fl_start r) n1 n2 (emit t (fl_start r) (fl_end r) ++ (rng_at a <$> rest)) (cut a lft (fl_start r))) as K by (by rewrite Ec in K).
      apply (cut_scanned _ _ _ _ _ _ _ _ _ _ _ rest _ S).
      * by rewrite (sn_list S), Hi.
      * unfold emit. by rewrite Hu.
      * intros p Hp. split; [by apply (sn_rest S) | by apply (sn_left_rest S)].
    + pose proof (proj2 (sn_added S) Hu) as Hi. subst inl. rewrite app_nil_r. destruct (truthy n1) eqn:En1; cbn [negb].
      2: { apply truthy_false in En1. exists w, (- ENOLCK), n1, n2, a. split; [done|]. split; [apply (sn_good S)|]. split; [by apply evolves_refl|].
           split; [by apply left_over_same, (sn_spare1 S)|]. split; [by apply left_over_same, (sn_spare2 S)|]. left. split_and!; try done. by left. }
      apply truthy_true in En1. destruct (insert_new w a pre rest rq lft r n1 n2 S Hu En1) as (w1 & w2 & a2 & r2 & E1 & E2 & S2 & V2 & Er2 & F2 & L2).
      rewrite E1, bind_Some_eq, E2, bind_Some_eq, bind_Some_eq, bind_Some_eq.
      assert (n1 <> rq) as Hnq by (destruct (sn_new S) as [[|[]] _]; done).
      assert (sh_info a2 !! rq = Some r) as Erq by (rewrite F2 by done; apply (sn_req S)).
      destruct (cut_ok w2 a2 lft rq r _ (sn_good S2) (sn_left_ok S2) Erq eq_refl) as (w' & E' & G' & V'); [by pose proof (sn_range S); lia|].
      rewrite E', bind_Some_eq. injection Er2 as Et2 Es2 Ee2. rewrite <- Es2 in *.
      exists w', 0, 0, n2, (cut a2 lft (fl_start r2)). split; [done|]. split; [done|]. split; [by eapply evolves_trans|].
      split; [left; split; [done | right; exists i; rewrite cut_list, (sn_list S2); list_solver]|].
      split; [by apply left_over_same, (cut_spare_ok S2 (sn_spare2 S2))|]. right. split; [done|].
      eapply (scanned_from a a2 pre rest rq n1 lft _ n1 n2 0 n2).
      * apply (cut_scanned _ _ _ _ _ _ _ _ _ _ _ (n1 :: rest) _ S2); [by rewrite (sn_list S2)| |].
        -- unfold emit. rewrite (proj2 (Z.eqb_neq t F_UNLCK) Hu). simpl. f_equal.
           ++ unfold rng_at. rewrite (sn_req S2). unfold rng. by rewrite (sn_type S2), Ee2.
           ++ apply rngs_ext. intros p Hp. apply F2. eapply (sn_spare_ne S), (sn_spare1 S). apply (sn_in S). tauto.
        -- intros p [->|Hp]%elem_of_cons; [split; [eexists; split; [apply (sn_req S2) | apply (sn_of S2)] | by apply not_eq_sym, (sn_left_rq S2)]|].
           split; [by apply (sn_rest S2) | by apply (sn_left_rest S2)].
      * done.
      * apply (wf_null _ (proj1 (proj2 G'))).
      * intros p Hp0 Hp Hr. split; [list_solver | apply F2; list_solver].
      * intros Hl. apply F2. destruct (sn_left S) as [->|[Hl' _]]; [done|]. eapply (sn_spare_ne S), (sn_spare1 S). apply (sn_in S). tauto.
      * done.
      * intros p Hp0. rewrite (sn_list S2), (sn_list S). list_solver.
      * intros Hnl Ho. apply (owned_ext a); [|done]. rewrite cut_info by apply (sn_null S2). rewrite decide_False; [by apply F2 | by apply not_eq_sym, (sn_left_rq S)].
Qed.

(** ** Cutting the lock to the right *)

Lemma rng_at_Some a p f : sh_info a !! p = Some f -> rng_at a p = rng f.
Proof. unfold rng_at. by intros ->. Qed.

Lemma spare_frame a a' n : (forall j, sh_list a' j = sh_list a j) -> (forall q, waits a' q -> waits a q) ->
  (sh_queue a n = [] -> sh_queue a' n = []) -> (n <> 0 -> sh_info a' !! n = sh_info a !! n) -> spare a n -> spare a' n.
Proof.
  intros HL HW HQ HI [->|[(I1 & I2 & I3 & I4) (f & Ef & Pf)]]; [by left|]. destruct (decide (n = 0)) as [->|Hn]; [by left | right].
  rewrite (HI Hn) in *. split; [|by exists f]. split_and!; [by rewrite HI | | |by apply HQ].
  - intros [j Hj]. rewrite HL in Hj. apply I2. by exists j.
  - intros Hw. by apply I3, HW.
Qed.

Lemma change_waits a p g q : wf a -> waits (sh_change a p g) q -> waits a q.
Proof.
  intros W [b Hb]. simpl in Hb. exists b.
  destruct (decide (b = p)) as [->|Hn]; [rewrite fn_lookup_insert in Hb; by apply elem_of_nil in Hb | by rewrite fn_lookup_insert_ne in Hb].
Qed.

Lemma change_right w a pre p rest rq lft inl added r n1 n2 f req : scanning w a pre (p :: rest) rq lft inl added r n1 n2 ->
  sh_info a !! p = Some f ->
  (exists h, get w req = Some h /\ fl_end h = fl_end r) -> fl_end r < fl_end f ->
  exists w1 w2 a2, (exists h, get w req = Some h /\ upd w p (set_start (s64 (fl_end h + 1))) = Some w1) /\ locks_wake_up_blocks w1 p = Some w2 /\
    scanning w2 a2 pre (p :: rest) rq lft inl added r n1 n2 /\ evolves a a2 /\ sh_info a2 !! p = Some (set_start (fl_end r + 1) f) /\
    (forall q, q <> p -> sh_info a2 !! q = sh_info a !! q) /\ (forall j, sh_list a2 j = sh_list a j).
Proof.
  intros S Ef (h & Eh & Ee) He. pose proof (sn_good S) as (R & W & Q).
  assert (p ∈ sh_list a i) as Hp by (apply (sn_in S); list_solver).
  destruct (sn_range S) as [[Hs He1] He2]. unfold OFFSET_MAX in He2.
  pose proof (sn_ranges S) as Hrg. cbn [fmap list_fmap] in Hrg. rewrite (rng_at_Some _ _ _ Ef) in Hrg. destruct Hrg as ((Ht & Hse & Hm) & _ & Hrest).
  assert (s64 (fl_end h + 1) = fl_end r + 1) as E64 by (rewrite Ee; apply s64_small; unfold OFFSET_MAX in Hm; lia).
  destruct (step_change w a p (set_start (fl_end r + 1)) (sn_good S) (ex_intro _ f Ef) (data_start _)) as (w1 & w2 & E1 & E2 & G2 & V2);
    [by intros [] | by apply (sn_nowait S)|].
  exists w1, w2, (sh_change a p (set_start (fl_end r + 1))). split; [exists h; by rewrite E64|]. split; [done|].
  set (a2 := sh_change a p (set_start (fl_end r + 1))) in *.
  assert (forall q, q <> p -> sh_info a2 !! q = sh_info a !! q) as F by (intros q Hq; simpl; by simplify_map_eq).
  assert (sh_info a2 !! p = Some (set_start (fl_end r + 1) f)) as Fp by (simpl; by simplify_map_eq).
  assert (forall n, spare a n -> spare a2 n) as HS.
  { intros n Hn. apply (spare_frame a); try done.
    - intros q. by apply change_waits.
    - intros E. simpl. destruct (decide (n = p)) as [->|Hnp]; [by rewrite fn_lookup_insert | by rewrite fn_lookup_insert_ne].
    - intros Hn0. apply F. apply not_eq_sym. by apply (sn_spare_ne S). }
  assert (forall q, owned a o q -> owned a2 o q) as HO.
  { intros q (g & Eg & Hg). destruct (decide (q = p)) as [->|Hq].
    - exists (set_start (fl_end r + 1) f). split; [done|]. replace g with f in Hg by congruence. by destruct f.
    - exists g. by rewrite F. }
  split_and!; try done. split; try done.
  - simpl. apply (sn_list S).
  - rewrite F; [apply (sn_req S)|]. apply not_eq_sym, (sn_rest_rq S). list_solver.
  - apply (sn_of S).
  - apply (sn_type S).
  - intros Hi. destruct (sn_idle S Hi) as (I1 & I2 & I3 & I4). assert (rq <> p) as Hrp by (apply not_eq_sym, (sn_rest_rq S); list_solver). split_and!; try done.
    + by rewrite F.
    + intros Hw. apply I3. by apply (change_waits a p (set_start (fl_end r + 1))).
    + simpl. by rewrite fn_lookup_insert_ne.
  - intros q Hq. apply HO. by apply (sn_rest S).
  - cbn [fmap list_fmap]. rewrite (rng_at_Some _ _ _ Fp). rewrite (rngs_ext a).
    2: { intros q Hq. apply F. intros ->. pose proof (sn_nodup S) as N. apply NoDup_app in N as (_ & _ & N). apply NoDup_app in N as (_ & _ & N).
         simpl in N. apply NoDup_cons in N as [N _]. list_solver. }
    replace (rng (set_start (fl_end r + 1) f)) with (fl_type f, fl_end r + 1, fl_end f) by (by destruct f).
    split; [|done]. split; [exact Ht|]. lia.
  - intros q Hq. destruct (sn_post S q Hq) as (g & Eg & Hg). exists g. rewrite F; [done|]. intros ->. destruct (sn_rest S p ltac:(list_solver)) as (g' & Eg' & _ & Ho & _). congruence.
  - destruct (sn_left S) as [->|[Hl Ho]]; [by left | right]. split; [done | by apply HO].
  - apply HS, (sn_spare1 S).
  - apply HS, (sn_spare2 S).
  - apply (sn_new S).
  - apply (sn_added S).
Qed.

(** The lock is inside another one: the part to the left becomes a lock of its own. *)
Lemma insert_left w a pre p rest rq inl added r n1 n2 f : scanning w a pre (p :: rest) rq 0 inl added r n1 n2 ->
  sh_info a !! p = Some f -> n2 <> 0 -> (t = F_UNLCK -> added = true) ->
  exists w1 w2 a2 g, locks_copy_lock w n2 p = Some w1 /\ locks_insert_lock nspid w1 (slot_after i pre) n2 = Some w2 /\
    scanning w2 a2 (pre ++ [n2]) (p :: rest) rq n2 inl added r n1 0 /\ evolves a a2 /\ sh_info a2 !! n2 = Some g /\ rng g = rng f /\
    (forall q, q <> n2 -> sh_info a2 !! q = sh_info a !! q) /\ (forall j, j <> i -> sh_list a2 j = sh_list a j).
Proof.
  intros S Ef Hn2 Hadd. pose proof (sn_good S) as (R & W & Q).
  destruct (sn_spare2 S) as [|[I2 (f2 & E2 & P2)]]; [done|].
  assert (forall q, q ∈ sh_list a i -> q <> n2) as Hne by (intros q Hq; by apply (sn_listed_ne a q n2)).
  assert (p ∈ sh_list a i) as Hp by (apply (sn_in S); list_solver).
  destruct (sn_rest S p ltac:(list_solver)) as (f' & Ef' & Q1 & Q2 & Q3). rewrite Ef in Ef'. injection Ef' as <-.
  destruct (step_copy w a n2 p f f2 (sn_good S) Ef E2 (not_eq_sym (Hne p Hp)) Q3 P2 I2) as (w1 & Ec & G1 & V1).
  set (a1 := sh_set a n2 (copy_of f f2)) in *. set (tl := (if inl then [rq] else []) ++ (p :: rest) ++ post).
  assert (sh_list a1 i = pre ++ tl) as El1 by (simpl; by rewrite (sn_list S)).
  assert (idle a1 n2) as I2'. { destruct I2 as (_ & K). split; [simpl; simplify_map_eq; eauto | done]. }
  destruct (step_insert nspid w1 a1 i pre n2 tl G1 El1 I2') as (w2 & Ei & G2 & V2).
  set (a2 := sh_insert nspid a1 i pre n2 tl) in *.
  exists w1, w2, a2, (set_nspid nspid (copy_of f f2)).
  assert (forall q, q <> n2 -> sh_info a2 !! q = sh_info a !! q) as F by (intros q Hq; simpl; by simplify_map_eq).
  assert (sh_info a2 !! n2 = Some (set_nspid nspid (copy_of f f2))) as Fn by (simpl; by simplify_map_eq).
  assert (n2 <> rq) as Hnq by (destruct (sn_new S) as [_ [|]]; done).
  assert (forall n, n <> n2 -> idle a n -> idle a2 n) as HI.
  { intros n Hn (I1 & K1 & K2 & K3). split_and!; try done; [by rewrite F|]. unfold a2. rewrite (listed_insert nspid a1 i pre n2 tl n El1). intros [K| ->]; [by apply K1 | done]. }
  split; [done|]. split; [done|]. split_and!; [|by eapply evolves_trans|done|by destruct f2|done|].
  - split; try done.
    + simpl. rewrite fn_lookup_insert. unfold tl. by rewrite <- app_assoc.
    + rewrite F by done. apply (sn_req S).
    + apply (sn_of S).
    + apply (sn_type S).
    + apply (sn_range S).
    + intros Hi. apply HI; [by apply not_eq_sym | by apply (sn_idle S)].
    + intros q Hq. apply (owned_ext a); [|by apply (sn_rest S)]. apply F, Hne, (sn_in S). tauto.
    + rewrite (rngs_ext a); [apply (sn_ranges S)|]. intros q Hq. apply F, Hne, (sn_in S). tauto.
    + intros q Hq. destruct (sn_post S q Hq) as (g & Eg & Hg). exists g. rewrite F; [done|]. apply Hne, (sn_in S). destruct post; [done|]. injection Hq as ->. list_solver.
    + right. split; [list_solver|]. eexists. split; [done|]. destruct Q3. by destruct f2, f.
    + destruct (sn_spare1 S) as [->|[I1 (f1 & E1 & P1)]]; [by left|]. destruct (sn_new S) as [[->|[N1 N2]] _]; [by left|]. right. split; [by apply HI|].
      exists f1. by rewrite F.
    + by left.
    + destruct (sn_new S) as [[->|[N1 N2]] _]; split; [by left|by left| |by left]. destruct (decide (n1 = 0)); [by left | by right].
    + destruct (sn_added S) as [A1 A2]. split; [|done]. intros Hu. split; [by apply A1 | by intros _; apply Hadd].
  - intros j Hj. simpl. by rewrite fn_lookup_insert_ne.
Qed.

(** What is left to do with a lock [p] that goes on behind the request. *)
Lemma right_then_cut w a pre p rest rq req lft inl added r n1 n2 f : scanning w a pre (p :: rest) rq lft inl added r n1 n2 ->
  sh_info a !! p = Some f -> (exists g, sh_info a !! req = Some g /\ rng g = rng r) -> req <> p -> req <> lft ->
  fl_end r < fl_end f -> (t = F_UNLCK -> inl = false) -> (t <> F_UNLCK -> inl = true) ->
  exists h w1 w2 w', get w req = Some h /\ upd w p (set_start (s64 (fl_end h + 1))) = Some w1 /\ locks_wake_up_blocks w1 p = Some w2 /\
    (if truthy lft then
       r ← get w2 req;
       w ← upd w2 lft (set_end (s64 (fl_start r - 1)));
       locks_wake_up_blocks w lft
     else Some w2) = Some w' /\
    exists a', good w' a' /\ evolves a a' /\ spare a' n1 /\ spare a' n2 /\ (forall j, sh_list a' j = sh_list a j) /\
      scanned a pre (p :: rest) rq lft (fl_start r) n1 n2
        (emit t (fl_start r) (fl_end r) ++ (fl_type f, fl_end r + 1, fl_end f) :: (rng_at a <$> rest)) a'.
Proof.
  intros S Ef (g & Eg & Erg) Hqp Hql He Hu1 Hu2. pose proof (sn_good S) as (R & W & Q). injection Erg as _ Egs Ege.
  destruct (repr_get w a req g R Eg) as (hq & Ehq & Ehg & _).
  assert (fl_end hq = fl_end r) as Ehe by (rewrite <- Ege, Ehg; by destruct hq).
  destruct (change_right w a pre p rest rq lft inl added r n1 n2 f req S Ef) as (w1 & w2 & a2 & (h & Eh & E1) & E2 & S2 & V2 & Fp & F2 & L2); [by exists hq|done|].
  assert (sh_info a2 !! req = Some g) as Eg2 by (by rewrite F2).
  destruct (cut_ok w2 a2 lft req g (fl_start r) (sn_good S2) (sn_left_ok S2) Eg2 Egs) as (w' & E' & G' & V'); [by pose proof (sn_range S); lia|].
  exists h, w1, w2, w'. do 4 (split; [done|]). exists (cut a2 lft (fl_start r)). split; [done|]. split; [by eapply evolves_trans|].
  split; [apply (cut_spare_ok S2 (sn_spare1 S2))|]. split; [apply (cut_spare_ok S2 (sn_spare2 S2))|].
  split; [intros j; by rewrite cut_list|].
  assert (rng_at a2 p = (fl_type f, fl_end r + 1, fl_end f)) as Erp by (rewrite (rng_at_Some _ _ _ Fp); by destruct f).
  assert (rng_at a2 <$> rest = rng_at a <$> rest) as Err.
  { apply rngs_ext. intros q Hq. apply F2. intros ->. pose proof (sn_nodup S) as N. apply NoDup_app in N as (_ & _ & N). apply NoDup_app in N as (_ & _ & N).
    simpl in N. apply NoDup_cons in N as [N _]. list_solver. }
  assert (forall q, q ∈ p :: rest -> owned a2 o q /\ q <> lft) as HR by (intros q Hq; split; [by apply (sn_rest S2) | by apply (sn_left_rest S2)]).
  eapply (scanned_from a a2 pre (p :: rest) rq rq lft _ n1 n2 n1 n2).
  - destruct (decide (t = F_UNLCK)) as [Hu|Hu].
    + apply (cut_scanned _ _ _ _ _ _ _ _ _ _ _ (p :: rest) _ S2); [by rewrite (sn_list S2), (Hu1 Hu)| |done].
      unfold emit. rewrite Hu. cbn. by rewrite Erp, Err.
    + apply (cut_scanned _ _ _ _ _ _ _ _ _ _ _ (rq :: p :: rest) _ S2); [by rewrite (sn_list S2), (Hu2 Hu)| |].
      * unfold emit. rewrite (proj2 (Z.eqb_neq t F_UNLCK) Hu). cbn. rewrite Erp, Err. f_equal. rewrite (rng_at_Some _ _ _ (sn_req S2)). unfold rng. by rewrite (sn_type S2).
      * intros q [->|Hq]%elem_of_cons; [|by apply HR]. split; [exists r; split; [apply (sn_req S2) | apply (sn_of S2)] | by apply not_eq_sym, (sn_left_rq S2)].
  - apply (sn_null S).
  - apply (wf_null _ (proj1 (proj2 G'))).
  - intros q _ Hq Hr. split; [done|]. apply F2. list_solver.
  - intros Hl. apply F2. apply not_eq_sym, (sn_left_rest S). list_solver.
  - intros j _. apply L2.
  - intros q _. by rewrite L2.
  - intros Hnl Ho. apply (owned_ext a2).
    + rewrite cut_info by apply (sn_null S2). by rewrite decide_False by (by apply not_eq_sym, (sn_left_rq S)).
    + apply (owned_ext a); [apply F2; by apply not_eq_sym, (sn_rest_rq S); list_solver | done].
Qed.

Lemma scanning_unlock w a pre rest rq lft inl added r n1 n2 : t = F_UNLCK -> scanning w a pre rest rq lft inl added r n1 n2 ->
  scanning w a pre rest rq lft inl true r n1 n2.
Proof.
  intros Hu [H1 H2 H3 H4 H5 H6 H7 H8 H9 H10 H11 H12 H13 H14 [A1 A2]]. split; try done. split; [|done]. intros _. by destruct (A1 Hu).
Qed.

Lemma split_scanned a a2 pre rest rq rq2 s n1 m1 n2 g t' s' e' rs a' : scanned a2 (pre ++ [n2]) rest rq2 n2 s m1 0 rs a' ->
  sh_info a2 !! n2 = Some g -> rng g = (t', s', e') -> lock_of o g -> n2 <> 0 -> sh_info a !! 0 = None -> sh_info a' !! 0 = None ->
  (forall p, p <> 0 -> p ∉ [rq; 0; n1; n2] -> p ∉ rest -> (p ∉ [rq2; n2; m1; 0]) /\ sh_info a2 !! p = sh_info a !! p) ->
  (forall j, j <> i -> sh_list a2 j = sh_list a j) ->
  (forall p, p <> 0 -> p ∈ sh_list a2 i \/ p = m1 \/ p = 0 -> p ∈ sh_list a i \/ p = n1 \/ p = n2) ->
  (~ listed a rq -> owned a o rq -> owned a' o rq) -> scanned a pre rest rq 0 s n1 n2 ((t', s', s - 1) :: rs) a'.
Proof.
  intros [(news & E1 & E2 & E3) H2 H3 H4 H5 H6] Eg Er Hg Hn E0 E0' Hf Hj Hnew Hreq. pose proof (H3 g Hn Eg) as Eg'. split.
  - exists (n2 :: news). split; [by rewrite E1, <- app_assoc|]. split.
    + cbn. rewrite E2, (rng_at_Some _ _ _ Eg'). f_equal. injection Er as <- <- <-. by destruct g.
    + intros q [->|Hq]%elem_of_cons; [|by apply E3]. exists (set_end (s - 1) g). split; [done | by apply lock_of_end].
  - intros j Hn'. rewrite H2 by done. by apply Hj.
  - done.
  - intros q Hq Hr. destruct (decide (q = 0)) as [->|Hq0]; [congruence|]. destruct (Hf q Hq0 Hq Hr) as [K1 K2]. by rewrite H4.
  - intros p Hp Hp0. by apply Hnew, H5.
  - done.
Qed.

Lemma finish_right w a pre p rest rq lft inl added r n1 n2 f : scanning w a pre (p :: rest) rq lft inl added r n1 n2 ->
  sh_info a !! p = Some f -> fl_type f <> t -> fl_start f <= fl_end r -> fl_start r <= fl_end f -> fl_end r < fl_end f ->
  (inl = true \/ added = true \/ lft <> 0 -> fl_start r < fl_start f) ->
  scan_ends a pre (p :: rest) rq lft inl added r n1 n2
    (posix_finish nspid n1 n2 (PosixScan w (slot_after i (pre ++ if inl then [rq] else [])) rq (if fl_start f <? fl_start r then p else lft) p
                                (if t =? F_UNLCK then true else added))).
Proof.
  intros S Ef Ht Hs1 Hs2 He Hab. pose proof (sn_good S) as (R & W & Q). pose proof (sn_null S) as H0.
  assert (p ∈ sh_list a i) as Hp by (apply (sn_in S); list_solver).
  assert (p <> 0) as Hp0. { intros ->. congruence. }
  assert (p <> rq) as Hpq by (apply (sn_rest_rq S); list_solver).
  assert (p <> lft) as Hpl by (apply (sn_left_rest S); list_solver).
  destruct (repr_get w a rq r R (sn_req S)) as (h & Eh & Er & _).
  assert (fl_type h = t) as Et by (rewrite <- (sn_type S), Er; by destruct h).
  assert (overlap (fl_start r) (fl_end r) (rng_at a <$> p :: rest) = true) as HO.
  { cbn. rewrite (rng_at_Some _ _ _ Ef). simpl. by rewrite (proj2 (Z.leb_le _ _) Hs1), (proj2 (Z.leb_le _ _) Hs2). }
  unfold scan_ends, scan_error. rewrite HO, orb_true_r, andb_false_r. cbn [andb].
  assert (place t (fl_start r) (fl_end r) (rng_at a <$> p :: rest) =
    (if fl_start f <? fl_start r then [(fl_type f, fl_start f, fl_start r - 1)] else []) ++
    emit t (fl_start r) (fl_end r) ++ (fl_type f, fl_end r + 1, fl_end f) :: (rng_at a <$> rest)) as ->.
  { cbn. rewrite (rng_at_Some _ _ _ Ef). simpl. rewrite (proj2 (Z.eqb_neq t (fl_type f))) by congruence.
    rewrite (proj2 (Z.ltb_ge _ _) Hs2), (proj2 (Z.ltb_ge _ _) Hs1), (proj2 (Z.ltb_lt _ _) He). done. }
  unfold posix_finish. rewrite (proj2 (truthy_true p) Hp0). cbn [andb].
  assert (forall b, Some (w, - ENOLCK, n1, n2) = b -> (n1 = 0 /\ t <> F_UNLCK \/ n2 = 0 /\ 0 < fl_start r) -> inl = false -> added = false ->
    exists w' err n1' n2' a', b = Some (w', err, n1', n2') /\ good w' a' /\ evolves a a' /\ left_over a' n1 n1' /\ left_over a' n2 n2' /\
    (err = - ENOLCK /\ a' = a /\ (n1 = 0 /\ t <> F_UNLCK \/ n2 = 0 /\ 0 < fl_start r) /\ inl = false /\ added = false \/ err = 0 /\
     scanned a pre (p :: rest) rq lft (fl_start r) n1 n2 ((if fl_start f <? fl_start r then [(fl_type f, fl_start f, fl_start r - 1)] else []) ++
       emit t (fl_start r) (fl_end r) ++ (fl_type f, fl_end r + 1, fl_end f) :: (rng_at a <$> rest)) a')) as Hfail.
  { intros b <- Hn Hi Ha. exists w, (- ENOLCK), n1, n2, a. split; [done|]. split; [apply (sn_good S)|]. split; [by apply evolves_refl|].
    split; [by apply left_over_same, (sn_spare1 S)|]. split; [by apply left_over_same, (sn_spare2 S)|]. by left. }
  assert (0 <= fl_start f) as Hf0.
  { pose proof (sn_ranges S) as Hrg. cbn in Hrg. rewrite (rng_at_Some _ _ _ Ef) in Hrg. destruct Hrg as ((_ & K & _) & _). lia. }
  destruct (Z.ltb_spec (fl_start f) (fl_start r)) as [Hlt|Hge].
  - (* the lock breaks [p] in two *)
    assert (inl = false /\ added = false /\ lft = 0) as (-> & -> & ->).
    { destruct inl; [specialize (Hab ltac:(tauto)); lia|]. destruct added; [specialize (Hab ltac:(tauto)); lia|]. destruct (decide (lft = 0)) as [->|]; [done|]. specialize (Hab ltac:(tauto)); lia. }
    rewrite Z.eqb_refl, app_nil_r. cbn [andb]. destruct (truthy n2) eqn:En2; cbn [negb]; [|apply truthy_false in En2; apply Hfail; [done|right; split; [done | lia]|done|done]].
    apply truthy_true in En2. rewrite Eh, bind_Some_eq, Et. destruct (Z.eqb_spec t F_UNLCK) as [Hu|Hu]; cbn [negb andb].
    + rewrite bind_Some_eq. pose proof (scanning_unlock _ _ _ _ _ _ _ _ _ _ _ Hu S) as S1.
      destruct (insert_left w a pre p rest rq false true r n1 n2 f S1 Ef En2) as (w1 & w2 & a2 & g & E1 & E2 & S2 & V2 & Eg & Erg & F2 & L2); [done|].
      rewrite E1, bind_Some_eq, E2, bind_Some_eq, bind_Some_eq.
      assert (n2 <> rq /\ n2 <> p) as [Hnq Hnp] by (split; [destruct (sn_new S) as [_ [|]]; done | apply not_eq_sym, (sn_spare_ne S p n2 Hp (sn_spare2 S))]).
      destruct (right_then_cut w2 a2 (pre ++ [n2]) p rest rq rq n2 false true r n1 0 f S2) as (h2 & w3 & w4 & w' & K1 & K2 & K3 & K4 & a' & G' & V' & P1 & _ & LL & D);
        [by rewrite F2 | exists r; rewrite F2 by done; split; [apply (sn_req S) | done] | done..|].
      rewrite K1, bind_Some_eq, K2, bind_Some_eq, K3, bind_Some_eq, bind_Some_eq, K4, bind_Some_eq.
      exists w', 0, n1, 0, a'. split; [done|]. split; [done|]. split; [by eapply evolves_trans|]. split; [by right|].
      split; [left; split; [done | right; exists i; rewrite LL, (sn_list S2); list_solver]|]. right. split; [done|].
      rewrite (rngs_ext a) in D.
      2: { intros q Hq. apply F2, (sn_spare_ne S q n2), (sn_spare2 S). apply (sn_in S). list_solver. }
      eapply (split_scanned a a2 pre (p :: rest) rq rq _ n1 n1 n2 g _ _ _ _ a' D Eg Erg); try done.
      * destruct (sn_left S2) as [|[_ (g' & Eg' & Hg')]]; [done|]. rewrite Eg in Eg'. by injection Eg' as <-.
      * apply (wf_null _ (proj1 (proj2 G'))).
      * intros q Hq0 Hq Hr. split; [list_solver | apply F2; list_solver].
      * intros q Hq0. rewrite (sn_list S2), (sn_list S). list_solver.
      * intros Hnl Ho. apply (sd_req _ _ _ _ _ _ _ _ _ _ D); [|apply (owned_ext a); [by apply F2, not_eq_sym | done]].
        intros [j Hj]. apply Hnl. destruct (decide (j = i)) as [->|Hji]; [exists i | exists j; by rewrite <- L2].
        rewrite (sn_list S2) in Hj. rewrite (sn_list S). list_solver.
    + destruct (truthy n1) eqn:En1; cbn [negb]; [|apply truthy_false in En1; apply Hfail; [done|by left|done|done]]. apply truthy_true in En1.
      destruct (insert_new w a pre (p :: rest) rq 0 r n1 n2 S Hu En1) as (w1 & w2 & a2 & r2 & E1 & E2 & S2 & V2 & Er2 & F2 & L2).
      rewrite E1, bind_Some_eq, E2, bind_Some_eq, bind_Some_eq.
      assert (n1 <> rq /\ n1 <> n2) as [Hnq Hnn] by (destruct (sn_new S) as [[|[]] _]; done).
      assert (n2 <> rq /\ n2 <> p) as [Hnq2 Hnp2] by (split; [destruct (sn_new S) as [_ [|]]; done | apply not_eq_sym, (sn_spare_ne S p n2 Hp (sn_spare2 S))]).
      assert (n1 <> p) as Hnp by (apply not_eq_sym, (sn_spare_ne S p n1 Hp (sn_spare1 S))).
      assert (sh_info a2 !! p = Some f) as Ef2 by (by rewrite F2 by done).
      destruct (insert_left w2 a2 pre p rest n1 true true r2 0 n2 f S2 Ef2 En2) as (w3 & w4 & a4 & g & E3 & E4 & S4 & V4 & Eg & Erg & F4 & L4); [done|].
      rewrite E3, bind_Some_eq, E4, bind_Some_eq, bind_Some_eq.
      injection Er2 as Et2 Es2 Ee2.
      destruct (right_then_cut w4 a4 (pre ++ [n2]) p rest n1 rq n2 true true r2 0 0 f S4) as (h2 & w5 & w6 & w' & K1 & K2 & K3 & K4 & a' & G' & V' & P1 & _ & LL & D).
      { by rewrite F4. }
      { exists r. rewrite F4, F2 by done. split; [apply (sn_req S)|]. unfold rng. congruence. }
      { done. } { done. } { lia. } { done. } { done. }
      rewrite K1, bind_Some_eq, K2, bind_Some_eq, K3, bind_Some_eq, bind_Some_eq, K4, bind_Some_eq.
      exists w', 0, 0, 0, a'. split; [done|]. split; [done|]. split; [eapply evolves_trans; [done | by eapply evolves_trans]|].
      do 2 (split; [left; split; [done | right; exists i; rewrite LL, (sn_list S4); list_solver]|]). right. split; [done|].
      rewrite Es2, Ee2 in D. rewrite (rngs_ext a) in D.
      2: { intros q Hq. assert (q ∈ sh_list a i) as Hqi by (apply (sn_in S); list_solver). rewrite F4, F2; [done | by apply (sn_spare_ne S), (sn_spare1 S) | by apply (sn_spare_ne S), (sn_spare2 S)]. }
      eapply (split_scanned a a4 pre (p :: rest) rq n1 _ n1 0 n2 g _ _ _ _ a' D Eg Erg); try done.
      * destruct (sn_left S4) as [|[_ (g' & Eg' & Hg')]]; [done|]. rewrite Eg in Eg'. by injection Eg' as <-.
      * apply (wf_null _ (proj1 (proj2 G'))).
      * intros q Hq0 Hq Hr. split; [list_solver | rewrite F4, F2; [done | list_solver..]].
      * intros j Hj. rewrite L4 by done. by apply L2.
      * intros q Hq0. rewrite (sn_list S4), (sn_list S). list_solver.
      * intros Hnl Ho. pose proof (sn_null S) as H0'. assert (rq <> 0) as Hrq0 by (intros ->; apply owned_some in Ho; rewrite H0' in Ho; by destruct Ho).
        apply (owned_ext a); [|done]. rewrite (sd_frame _ _ _ _ _ _ _ _ _ _ D); [rewrite F4, F2; [done|by apply not_eq_sym..] |list_solver|].
        intros Hrr. by apply (sn_rest_rq S) in Hrr.
  - rewrite (proj2 (Z.eqb_neq lft p)) by (by apply not_eq_sym). cbn [andb negb app].
    rewrite Eh, bind_Some_eq, Et. destruct (decide (t = F_UNLCK)) as [Hu|Hu].
    + rewrite Hu, Z.eqb_refl. cbn [negb andb]. rewrite !bind_Some_eq. pose proof (scanning_unlock _ _ _ _ _ _ _ _ _ _ _ Hu S) as S1.
      destruct (proj1 (sn_added S) Hu) as [Hi _].
      destruct (right_then_cut w a pre p rest rq rq lft inl true r n1 n2 f S1 Ef) as (h2 & w3 & w4 & w' & K1 & K2 & K3 & K4 & a' & G' & V' & P1 & P2 & LL & D);
        [exists r; split; [apply (sn_req S) | done] | done | by apply not_eq_sym, (sn_left_rq S) | done..|].
      rewrite K1 in Eh. injection Eh as <-. rewrite K1, bind_Some_eq, K2, bind_Some_eq, K3, bind_Some_eq, bind_Some_eq, K4, bind_Some_eq. rewrite <- Hu.
      exists w', 0, n1, n2, a'. split; [done|]. split; [done|]. split; [done|]. split; [by right|]. split; [by right|]. by right.
    + rewrite (proj2 (Z.eqb_neq t F_UNLCK) Hu). pose proof (proj2 (sn_added S) Hu) as Hi. subst added. destruct inl; cbn [negb andb].
      * rewrite !bind_Some_eq.
        destruct (right_then_cut w a pre p rest rq rq lft true true r n1 n2 f S Ef) as (h2 & w3 & w4 & w' & K1 & K2 & K3 & K4 & a' & G' & V' & P1 & P2 & LL & D);
          [exists r; split; [apply (sn_req S) | done] | done | by apply not_eq_sym, (sn_left_rq S) | done..|].
        rewrite K1 in Eh. injection Eh as <-. rewrite K1, bind_Some_eq, K2, bind_Some_eq, K3, bind_Some_eq, bind_Some_eq, K4, bind_Some_eq.
        exists w', 0, n1, n2, a'. split; [done|]. split; [done|]. split; [done|]. split; [by right|]. split; [by right|]. by right.
      * destruct (truthy n1) eqn:En1; cbn [negb]; [|apply truthy_false in En1; apply Hfail; [done|by left|done|done]]. apply truthy_true in En1.
        destruct (insert_new w a pre (p :: rest) rq lft r n1 n2 S Hu En1) as (w1 & w2 & a2 & r2 & E1 & E2 & S2 & V2 & Er2 & F2 & L2).
        rewrite app_nil_r. rewrite E1, bind_Some_eq, E2, !bind_Some_eq.
        assert (n1 <> rq) as Hnq by (destruct (sn_new S) as [[|[]] _]; done).
        assert (n1 <> p) as Hnp by (apply not_eq_sym, (sn_spare_ne S p n1 Hp (sn_spare1 S))).
        injection Er2 as Et2 Es2 Ee2.
        destruct (right_then_cut w2 a2 pre p rest n1 rq lft true true r2 0 n2 f S2) as (h2 & w5 & w6 & w' & K1 & K2 & K3 & K4 & a' & G' & V' & P1 & P2 & LL & D).
        { by rewrite F2. }
        { exists r. rewrite F2 by done. split; [apply (sn_req S)|]. unfold rng. congruence. }
        { by apply not_eq_sym. } { by apply not_eq_sym, (sn_left_rq S). } { lia. } { done. } { done. }
        rewrite K1, bind_Some_eq, K2, bind_Some_eq, K3, bind_Some_eq, bind_Some_eq, K4, bind_Some_eq.
        exists w', 0, 0, n2, a'. split; [done|]. split; [done|]. split; [by eapply evolves_trans|].
        split; [left; split; [done | right; exists i; rewrite LL, (sn_list S2); list_solver]|]. split; [by right|]. right. split; [done|].
        rewrite Es2, Ee2 in D. rewrite (rngs_ext a) in D.
        2: { intros q Hq. apply F2, (sn_spare_ne S q n1), (sn_spare1 S). apply (sn_in S). list_solver. }
        eapply (scanned_from a a2 pre (p :: rest) rq n1 lft _ n1 n2 0 n2 _ a' D); [done|apply (wf_null _ (proj1 (proj2 G')))|..].
        -- intros q Hq0 Hq Hr. split; [list_solver | apply F2; list_solver].
        -- intros Hl. apply F2. destruct (sn_left S) as [->|[Hl' _]]; [done|]. apply (sn_spare_ne S), (sn_spare1 S). apply (sn_in S). tauto.
        -- done.
        -- intros q Hq0. rewrite (sn_list S2), (sn_list S). list_solver.
        -- intros Hnl Ho. apply (owned_ext a); [|done]. assert (rq <> 0) as Hrq0 by (intros ->; apply owned_some in Ho; rewrite (sn_null S) in Ho; by destruct Ho).
           assert (rq <> lft) by (by apply not_eq_sym, (sn_left_rq S)). assert (n2 = 0 \/ n2 <> rq) as Hn2 by apply (sn_new S).
           rewrite (sd_frame _ _ _ _ _ _ _ _ _ _ D); [apply F2; by apply not_eq_sym|destruct Hn2 as [->|]; list_solver|]. intros Hrr. by apply (sn_rest_rq S) in Hrr.
Qed.

(** ** The loop *)

Lemma tail_step fuel n1 n2 s : posix_tail (S fuel) n1 n2 s =
  match posix_step s with
  | None => None
  | Some (inl s') => posix_tail fuel n1 n2 s'
  | Some (inr s') => posix_finish nspid n1 n2 s'
  end.
Proof. unfold posix_tail. simpl. by destruct (posix_step s) as [[]|]. Qed.

Lemma overlap_above s e l t0 x : ranges_ok (Some (t0, x)) l -> e <= x -> overlap s e l = false.
Proof.
  revert t0 x. induction l as [|[[t1 s1] e1] l IH]; intros t0 x H Hx; [done|]. destruct H as ((_ & Hr & _) & [Hf _] & H). cbn.
  rewrite (proj2 (Z.leb_gt s1 e)) by lia. cbn. apply (IH _ _ H). lia.
Qed.

(** The next lock is passed over, or remembered as the one to the left. *)
Lemma scanning_next w a pre p rest rq lft r n1 n2 lft' added added' : scanning w a pre (p :: rest) rq lft false added r n1 n2 ->
  (lft' = lft \/ lft' = p) -> (if t =? F_UNLCK then lft' = 0 \/ added' = true else added' = false) ->
  scanning w a (pre ++ [p]) rest rq lft' false added' r n1 n2.
Proof.
  intros S Hl Ha. pose proof S as [H1 H2 H3 H4 H5 H6 H7 H8 H9 H10 H11 H12 H13 H14 [A1 A2]]. split; try done.
  - rewrite H2. by rewrite <- app_assoc.
  - intros q Hq. apply H8. list_solver.
  - cbn in H9. destruct (sn_rest S p ltac:(list_solver)) as (f & Ef & _). rewrite (rng_at_Some _ _ _ Ef) in H9. by apply (ranges_skip None (fl_type f) (fl_start f) (fl_end f)).
  - destruct Hl as [->| ->].
    + destruct H11 as [->|[Hl Ho]]; [by left | right]. split; [list_solver | done].
    + right. split; [list_solver | apply H8; list_solver].
  - destruct (Z.eqb_spec t F_UNLCK) as [Hu|Hu]; split; try done. intros _. split; [done|]. intros Hn. by destruct Ha.
Qed.

Lemma scan_ends_next w a pre p rest rq r n1 n2 lft' added added' f hd res : scanning w a pre (p :: rest) rq 0 false added r n1 n2 ->
  scan_ends a (pre ++ [p]) rest rq lft' false added' r n1 n2 res -> sh_info a !! p = Some f ->
  place t (fl_start r) (fl_end r) (rng_at a <$> p :: rest) = hd :: place t (fl_start r) (fl_end r) (rng_at a <$> rest) ->
  scan_error added r (rng_at a <$> p :: rest) = scan_error added' r (rng_at a <$> rest) -> (added' = false -> added = false) ->
  (lft' = 0 /\ hd = rng f \/ lft' = p /\ hd = rng (set_end (fl_start r - 1) f)) ->
  scan_ends a pre (p :: rest) rq 0 false added r n1 n2 res.
Proof.
  intros S (w' & err & n1' & n2' & a' & E & G & V & L1 & L2 & H) Ef EP EE HA Hl. exists w', err, n1', n2', a'. do 5 (split; [done|]).
  destruct H as [(-> & -> & H1 & H2 & H3) | (-> & [(news & N1 & N2 & N3) O1 O2 O3 O4 O5])]; [left; split_and!; auto|]. right. split; [done|]. rewrite EP.
  assert (p ∈ sh_list a i) as Hp by (apply (sn_in S); list_solver).
  assert (p <> rq) as Hpq by (apply (sn_rest_rq S); list_solver).
  assert (p <> 0) as Hp0 by (intros ->; by rewrite (sn_null S) in Ef).
  assert (p ∉ rest) as Hpr. { pose proof (sn_nodup S) as N. apply NoDup_app in N as (_ & _ & N). simpl in N. apply NoDup_cons in N as [N _]. list_solver. }
  assert (exists f', sh_info a' !! p = Some f' /\ rng f' = hd /\ lock_of o f') as (f' & Ef' & Ehd & Hf').
  { destruct (sn_rest S p ltac:(list_solver)) as (f0 & Ef0 & Hf0). rewrite Ef in Ef0. injection Ef0 as <-. destruct Hl as [[-> ->]|[-> ->]].
    - exists f. split; [|done]. rewrite O3; [done| |done].
      assert (p <> n1) by (apply (sn_spare_ne S), (sn_spare1 S); done). assert (p <> n2) by (apply (sn_spare_ne S), (sn_spare2 S); done). list_solver.
    - exists (set_end (fl_start r - 1) f). split_and!; [by apply O2 | done | by apply lock_of_end..]. }
  split.
  - exists (p :: news). split; [by rewrite N1, <- app_assoc|]. split; [cbn; by rewrite (rng_at_Some _ _ _ Ef'), Ehd, N2|].
    intros q [->|Hq]%elem_of_cons; [by exists f' | by apply N3].
  - done.
  - done.
  - intros q Hq Hr. apply O3; [|list_solver]. destruct Hl as [[-> _]|[-> _]]; list_solver.
  - done.
  - done.
Qed.

(** ** Merging *)

(** The lock [p] and the request become one range; both structures hold it. *)
Lemma merge_step w a pre p rest rq lft inl added r n1 n2 f : scanning w a pre (p :: rest) rq lft inl added r n1 n2 ->
  sh_info a !! p = Some f -> fl_type f = t ->
  exists w1 w2 a2 f2 r2,
    (if fl_start r <? fl_start f then upd w p (set_start (fl_start r)) else upd w rq (set_start (fl_start f))) = Some w1 /\
    (if fl_end f <? fl_end r then upd w1 p (set_end (fl_end r)) else upd w1 rq (set_end (fl_end f))) = Some w2 /\
    good w2 a2 /\ evolves a a2 /\ (forall j, sh_list a2 j = sh_list a j) /\ (forall b, sh_queue a2 b = sh_queue a b) /\
    sh_info a2 !! p = Some f2 /\ sh_info a2 !! rq = Some r2 /\ lock_of o f2 /\ lock_of o r2 /\
    rng f2 = (t, Z.min (fl_start r) (fl_start f), Z.max (fl_end r) (fl_end f)) /\
    rng r2 = (t, Z.min (fl_start r) (fl_start f), Z.max (fl_end r) (fl_end f)) /\ fl_flags r2 = fl_flags r /\
    (forall q, q <> p -> q <> rq -> sh_info a2 !! q = sh_info a !! q).
Proof.
  intros S Ef Ht. pose proof (sn_good S) as (R & W & Q).
  assert (p ∈ sh_list a i) as Hp by (apply (sn_in S); list_solver). assert (p <> rq) as Hpq by (apply (sn_rest_rq S); list_solver).
  assert (~ waits a p) as Hwp by (by apply (sn_nowait S)).
  assert (~ waits a rq) as Hwq.
  { destruct (bool_dec inl true) as [->|Hi%not_true_is_false]; [apply (sn_nowait S), (sn_in S); tauto | apply (sn_idle S Hi)]. }
  destruct (sn_rest S p ltac:(list_solver)) as (f0 & Ef0 & Hf0). rewrite Ef in Ef0. injection Ef0 as <-.
  pose proof (sn_req S) as Er. pose proof (sn_of S) as Hr. pose proof (sn_type S) as Htr.
  set (g1 := if fl_start r <? fl_start f then set_start (fl_start r) else id).
  set (h1 := if fl_start r <? fl_start f then id else set_start (fl_start f)).
  set (g2 := if fl_end f <? fl_end r then set_end (fl_end r) else id).
  set (h2 := if fl_end f <? fl_end r then id else set_end (fl_end f)).
  assert (exists w1 a1, (if fl_start r <? fl_start f then upd w p (set_start (fl_start r)) else upd w rq (set_start (fl_start f))) = Some w1 /\
    good w1 a1 /\ evolves a a1 /\ (forall j, sh_list a1 j = sh_list a j) /\ (forall b, sh_queue a1 b = sh_queue a b) /\
    sh_info a1 !! p = Some (g1 f) /\ sh_info a1 !! rq = Some (h1 r) /\ (forall q, q <> p -> q <> rq -> sh_info a1 !! q = sh_info a !! q))
    as (w1 & a1 & E1 & G1 & V1 & L1 & Q1 & F1 & R1 & O1).
  { unfold g1, h1. destruct (Z.ltb_spec (fl_start r) (fl_start f)).
    - destruct (step_upd w a p (set_start (fl_start r)) (sn_good S) (ex_intro _ f Ef) (data_start _)) as (w1 & E1 & G1 & V1);
        [by intros [] | done | right; rewrite Ef; intros ? [= <-]; destruct f; unfold kept; simpl in *; split_and!; done || lia|].
      exists w1, (sh_upd a p (set_start (fl_start r))). split_and!; try done; simpl; try (intros; by simplify_map_eq).
    - destruct (step_upd w a rq (set_start (fl_start f)) (sn_good S) (ex_intro _ r Er) (data_start _)) as (w1 & E1 & G1 & V1);
        [by intros [] | done | right; rewrite Er; intros ? [= <-]; destruct r; unfold kept; simpl in *; split_and!; done || lia|].
      exists w1, (sh_upd a rq (set_start (fl_start f))). split_and!; try done; simpl; try (intros; by simplify_map_eq). }
  pose proof (proj1 (proj2 G1)) as W1. pose proof (proj2 (proj2 G1)) as Qi1.
  assert (forall q, ~ waits a q -> ~ waits a1 q) as HW by (intros q Hq Hq'; by apply Hq, (ev_waits a a1)).
  assert (exists w2 a2, (if fl_end f <? fl_end r then upd w1 p (set_end (fl_end r)) else upd w1 rq (set_end (fl_end f))) = Some w2 /\
    good w2 a2 /\ evolves a1 a2 /\ (forall j, sh_list a2 j = sh_list a1 j) /\ (forall b, sh_queue a2 b = sh_queue a1 b) /\
    sh_info a2 !! p = Some (g2 (g1 f)) /\ sh_info a2 !! rq = Some (h2 (h1 r)) /\ (forall q, q <> p -> q <> rq -> sh_info a2 !! q = sh_info a1 !! q))
    as (w2 & a2 & E2 & G2 & V2 & L2 & Q2 & F2 & R2 & O2).
  { assert (fl_end (g1 f) = fl_end f) as Ke by (unfold g1; destruct (fl_start r <? fl_start f); by destruct f).
    assert (fl_end (h1 r) = fl_end r) as Kr by (unfold h1; destruct (fl_start r <? fl_start f); by destruct r).
    unfold g2, h2. destruct (Z.ltb_spec (fl_end f) (fl_end r)).
    - destruct (step_upd w1 a1 p (set_end (fl_end r)) G1 (ex_intro _ _ F1) (data_end _)) as (w2 & E2 & G2 & V2);
        [by intros [] | by apply HW | right; rewrite F1; intros ? [= <-]; destruct (g1 f); unfold kept; simpl in *; split_and!; done || lia|].
      exists w2, (sh_upd a1 p (set_end (fl_end r))). split_and!; try done; simpl; try (intros; by simplify_map_eq).
    - destruct (step_upd w1 a1 rq (set_end (fl_end f)) G1 (ex_intro _ _ R1) (data_end _)) as (w2 & E2 & G2 & V2);
        [by intros [] | by apply HW | right; rewrite R1; intros ? [= <-]; destruct (h1 r); unfold kept; simpl in *; split_and!; done || lia|].
      exists w2, (sh_upd a1 rq (set_end (fl_end f))). split_and!; try done; simpl; try (intros; by simplify_map_eq). }
  exists w1, w2, a2, (g2 (g1 f)), (h2 (h1 r)). split; [done|]. split; [done|]. split; [done|]. split; [by eapply evolves_trans|].
  split; [intros j; by rewrite L2|]. split; [intros b; by rewrite Q2|]. split; [done|]. split; [done|].
  assert (rng (g2 (g1 f)) = (t, Z.min (fl_start r) (fl_start f), Z.max (fl_end r) (fl_end f))) as Rf.
  { unfold g2, g1. rewrite <- Ht. clear -S. destruct (Z.ltb_spec (fl_start r) (fl_start f)), (Z.ltb_spec (fl_end f) (fl_end r)); destruct f; unfold rng; simpl in *; repeat f_equal; lia. }
  assert (rng (h2 (h1 r)) = (t, Z.min (fl_start r) (fl_start f), Z.max (fl_end r) (fl_end f))) as Rr.
  { unfold h2, h1. rewrite <- Htr. clear. destruct (Z.ltb_spec (fl_start r) (fl_start f)), (Z.ltb_spec (fl_end f) (fl_end r)); destruct r; unfold rng; simpl in *; repeat f_equal; lia. }
  split_and!; try done; try (by unfold g2, g1, h2, h1; destruct (fl_start r <? fl_start f), (fl_end f <? fl_end r), f, r).
  intros q Hq1 Hq2. by rewrite O2, O1.
Qed.

(** ** Deleting and replacing *)

Lemma sn_tail_facts w a pre p rest rq lft inl added r n1 n2 : scanning w a pre (p :: rest) rq lft inl added r n1 n2 ->
  p ∈ sh_list a i /\ p <> rq /\ p <> lft /\ p <> n1 /\ p <> n2 /\ p <> 0 /\ (p ∉ rest).
Proof.
  intros S. assert (p ∈ sh_list a i) as Hp by (apply (sn_in S); list_solver). split_and!; [done|..].
  - apply (sn_rest_rq S). list_solver.
  - apply (sn_left_rest S). list_solver.
  - apply (sn_spare_ne S), (sn_spare1 S). done.
  - apply (sn_spare_ne S), (sn_spare2 S). done.
  - apply (sn_spare_ne S); [done | by left].
  - pose proof (sn_nodup S) as N. apply NoDup_app in N as (_ & _ & N). apply NoDup_app in N as (_ & _ & N). simpl in N. apply NoDup_cons in N as [N _]. list_solver.
Qed.

(** The request is none of the structures of the scan while it is in no list. *)
Lemma sn_apart w a pre p rest rq lft added r n1 n2 : scanning w a pre (p :: rest) rq lft false added r n1 n2 -> (rq ∉ [p; lft; n1; n2]) /\ rq ∉ rest.
Proof.
  intros S. split; [|intros Hr; by apply (sn_rest_rq S rq ltac:(by apply elem_of_cons; right))].
  assert (p <> rq) by (apply (sn_rest_rq S); list_solver). assert (lft <> rq) by apply (sn_left_rq S).
  assert (forall n, spare a n -> (n = 0 \/ n <> rq) -> n <> rq) as Hn.
  { intros n _ [->|]; [|done]. intros <-. pose proof (sn_req S) as E. by rewrite (sn_null S) in E. }
  assert (n1 <> rq) by (apply Hn; [apply (sn_spare1 S) | destruct (sn_new S) as [[|[]] _]; auto]).
  assert (n2 <> rq) by (apply Hn; [apply (sn_spare2 S) | apply (sn_new S)]). list_solver.
Qed.
#[local] Arguments sn_apart {_ _ _ _ _ _ _ _ _ _ _}.

Lemma scanning_delete w a pre p rest rq lft inl added r n1 n2 : scanning w a pre (p :: rest) rq lft inl added r n1 n2 ->
  exists w' a', locks_delete_lock w (slot_after i (pre ++ if inl then [rq] else [])) = Some w' /\
    scanning w' a' pre rest rq lft inl added r n1 n2 /\ evolves a a' /\
    (forall q, q <> p -> sh_info a' !! q = sh_info a !! q) /\ (forall j, j <> i -> sh_list a' j = sh_list a j).
Proof.
  intros S. destruct (sn_tail_facts _ _ _ _ _ _ _ _ _ _ _ _ S) as (Hp & Hpq & Hpl & Hp1 & Hp2 & Hp0 & Hpr). pose proof (sn_good S) as (R & W & Q).
  destruct (sn_rest S p ltac:(list_solver)) as (f & Ef & Hf1 & Hf2 & Hf).
  assert (sh_list a i = (pre ++ (if inl then [rq] else [])) ++ p :: rest ++ post) as El by (rewrite (sn_list S); by rewrite <- app_assoc).
  destruct (step_delete w a i _ p (rest ++ post) f (sn_good S) El Ef Hf) as (w' & E & G & V). exists w', (sh_delete a i p). split; [done|].
  destruct (list_split a i p _ _ W El) as (_ & _ & _ & Eu & _).
  assert (forall q, q <> p -> sh_info (sh_delete a i p) !! q = sh_info a !! q) as F by (intros q Hq; simpl; by simplify_map_eq).
  assert (forall q, waits (sh_delete a i p) q -> waits a q) as HW by (intros q; by apply ev_waits).
  assert (forall n, n <> p -> idle a n -> idle (sh_delete a i p) n) as HI.
  { intros n Hn (I1 & I2 & I3 & I4). split_and!; [by rewrite F| | |simpl; by rewrite fn_lookup_insert_ne].
    - intros K. apply I2. change (listed (sh_unlist a i p) n) in K. by apply (listed_unlist a i p n W Hp) in K as [K _].
    - intros K. by apply I3, HW. }
  assert (forall n, n <> p -> spare a n -> spare (sh_delete a i p) n) as HS.
  { intros n Hn [->|[In (g & Eg & Pg)]]; [by left | right]. split; [by apply HI|]. exists g. by rewrite F. }
  split_and!; [|done|done|intros j Hj; simpl; by rewrite fn_lookup_insert_ne].
  pose proof S as [H1 H2 H3 H4 H5 H6 H7 H8 H9 H10 H11 H12 H13 H14 H15]. split; try done.
  - simpl. rewrite fn_lookup_insert, Eu. by rewrite <- app_assoc.
  - rewrite F; [done | by apply not_eq_sym].
  - intros Hi. apply HI; [by apply not_eq_sym | by apply H7].
  - intros q Hq. apply (owned_ext a); [|apply H8; list_solver]. apply F. list_solver.
  - rewrite (rngs_ext a); [|intros q Hq; apply F; list_solver]. cbn in H9. rewrite (rng_at_Some _ _ _ Ef) in H9. by apply (ranges_skip None (fl_type f) (fl_start f) (fl_end f)).
  - intros q Hq. destruct (H10 q Hq) as (g & Eg & Hg). exists g. rewrite F; [done|]. intros ->. congruence.
  - destruct H11 as [->|[Hl Ho]]; [by left | right]. split; [done|]. apply (owned_ext a); [|done]. apply F. by apply not_eq_sym.
  - apply HS; [by apply not_eq_sym | done].
  - apply HS; [by apply not_eq_sym | done].
Qed.

(** The lock [p] takes over the request's range and type. *)
Lemma replace_step w a pre p rest rq lft r n1 n2 f : scanning w a pre (p :: rest) rq lft false false r n1 n2 -> sh_info a !! p = Some f ->
  exists w1 w2 w3 w4 w5 w6 a' f', locks_wake_up_blocks w p = Some w1 /\ upd w1 p (set_start (fl_start r)) = Some w2 /\
    upd w2 p (set_end (fl_end r)) = Some w3 /\ upd w3 p (set_type (fl_type r)) = Some w4 /\ locks_release_private w4 p = Some w5 /\
    locks_copy_private w5 p rq = Some w6 /\ good w6 a' /\ evolves a a' /\ sh_info a' !! p = Some f' /\ rng f' = rng r /\ lock_of o f' /\
    (forall q, q <> p -> sh_info a' !! q = sh_info a !! q) /\ (forall j, sh_list a' j = sh_list a j) /\
    (forall q, q <> p -> sh_queue a' q = sh_queue a q).
Proof.
  intros S Ef. destruct (sn_tail_facts _ _ _ _ _ _ _ _ _ _ _ _ S) as (Hp & Hpq & Hpl & Hp1 & Hp2 & Hp0 & Hpr). pose proof (sn_good S) as (R & W & Q).
  destruct (sn_rest S p ltac:(list_solver)) as (f0 & Ef0 & Hf1 & Hf2 & [Hf3 Hf4]). rewrite Ef in Ef0. injection Ef0 as <-.
  assert (~ waits a p) as Hwp by (by apply (sn_nowait S)).
  destruct (step_wake w a p (sn_good S) (ex_intro _ f Ef) Hwp) as (w1 & E1 & G1 & V1). set (a1 := sh_wake a p) in *.
  assert (sh_queue a1 p = []) as Eq1 by (simpl; by rewrite fn_lookup_insert).
  assert (~ waits a1 p) as Hw1 by (intros K; by apply Hwp, (ev_waits a a1)).
  assert (sh_info a1 !! p = Some f) as F1 by done.
  destruct (step_upd w1 a1 p (set_start (fl_start r)) G1 (ex_intro _ _ F1) (data_start _)) as (w2 & E2 & G2 & V2); [by intros [] | done | by left|].
  set (a2 := sh_upd a1 p _) in *. assert (sh_info a2 !! p = Some (set_start (fl_start r) f)) as F2 by (simpl; by simplify_map_eq).
  destruct (step_upd w2 a2 p (set_end (fl_end r)) G2 (ex_intro _ _ F2) (data_end _)) as (w3 & E3 & G3 & V3); [by intros [] | done | by left|].
  set (a3 := sh_upd a2 p _) in *. assert (sh_info a3 !! p = Some (set_end (fl_end r) (set_start (fl_start r) f))) as F3 by (simpl; by simplify_map_eq).
  destruct (step_upd w3 a3 p (set_type (fl_type r)) G3 (ex_intro _ _ F3) (data_type _)) as (w4 & E4 & G4 & V4); [by intros [] | done | by left|].
  set (a4 := sh_upd a3 p _) in *. set (f4 := set_type (fl_type r) (set_end (fl_end r) (set_start (fl_start r) f))).
  assert (sh_info a4 !! p = Some f4) as F4 by (simpl; by simplify_map_eq).
  assert (plain f4) as P4 by (by destruct f).
  assert (sh_info a4 !! rq = Some r) as Fr by (simpl; simplify_map_eq; apply (sn_req S)).
  destruct (release_ok w4 a4 p f4 (proj1 G4) F4) as (w5 & E5 & R5). rewrite (plain_release f4 p P4) in R5.
  assert (released f4 = f4) as Erl by (destruct P4; unfold released; by destruct f4; simpl in *; subst).
  assert (repr w5 a4) as R5'. { apply (repr_same _ _ _) with (2 := R5). split; simpl; try done; [|by rewrite app_nil_r]. rewrite Erl. symmetry. by apply insert_id. }
  destruct (sn_of S) as (_ & _ & [Pr1 Pr2]). destruct P4 as [Pf1 Pf2].
  destruct (copy_private_ok w5 a4 p rq r f4 R5' Fr F4 Hpq) as (w6 & E6 & R6); [congruence..|].
  assert (repr w6 a4) as R6'.
  { apply (repr_same _ _ _) with (2 := R6). split; simpl; try done; [|unfold copy_events; by rewrite Pr1, app_nil_r]. symmetry. apply insert_id. rewrite Pr1, Pr2.
    change (sh_info a4 !! p = Some (released f4)). by rewrite Erl. }
  exists w1, w2, w3, w4, w5, w6, a4, f4. do 6 (split; [done|]). destruct G4 as (_ & W4 & Q4). split; [done|].
  split; [eapply evolves_trans, evolves_trans, evolves_trans; eassumption|]. split; [done|]. split; [by destruct f|]. split; [by destruct f|].
  split_and!; simpl; try done; intros q Hq; [by simplify_map_eq | by rewrite fn_lookup_insert_ne].
Qed.

Lemma scan_ends_step a a2 pre p rest rq rq2 lft inl inl2 added r r2 n1 n2 res : scan_ends a2 pre rest rq2 lft inl2 true r2 n1 n2 res ->
  evolves a a2 -> (forall j, j <> i -> sh_list a2 j = sh_list a j) -> sh_info a !! 0 = None ->
  place t (fl_start r) (fl_end r) (rng_at a <$> p :: rest) = place t (fl_start r2) (fl_end r2) (rng_at a2 <$> rest) ->
  (lft <> 0 -> fl_start r2 = fl_start r /\ sh_info a2 !! lft = sh_info a !! lft) ->
  scan_error added r (rng_at a <$> p :: rest) = 0 ->
  (forall q, q <> 0 -> q ∉ [rq; lft; n1; n2] -> q ∉ p :: rest -> (q ∉ [rq2; lft; n1; n2]) /\ sh_info a2 !! q = sh_info a !! q) ->
  (forall q, q ∈ sh_list a2 i -> q ∈ sh_list a i) ->
  (~ listed a rq -> owned a2 o rq /\ (rq2 = rq /\ ~ listed a2 rq \/ (rq ∉ [rq2; lft; n1; n2]) /\ rq ∉ rest)) ->
  scan_ends a pre (p :: rest) rq lft inl added r n1 n2 res.
Proof.
  intros (w' & err & n1' & n2' & a' & E & G & V & L1 & L2 & H) V2 HL H0 EP Hl EE HF HN HR. exists w', err, n1', n2', a'. split; [done|]. split; [done|].
  split; [by eapply evolves_trans|]. split; [done|]. split; [done|]. destruct H as [(_ & _ & _ & _ & K) | (-> & [N1 N2 N3 N4 N5 N6])]; [done|]. right.
  rewrite EE. split; [unfold scan_error; by rewrite andb_false_r|]. rewrite EP. split; [done|..].
  - intros j Hj. rewrite N2 by done. by apply HL.
  - intros f Hn Ef. destruct (Hl Hn) as [Es Ei]. rewrite <- Es. apply N3; [done|]. by rewrite Ei.
  - intros q Hq Hr. destruct (decide (q = 0)) as [->|Hq0]; [rewrite H0; apply (wf_null _ (proj1 (proj2 G)))|].
    destruct (HF q Hq0 Hq Hr) as [K1 K2]. rewrite N4; [done | done | list_solver].
  - intros q Hq Hq0. destruct (N5 q Hq Hq0) as [|]; [left; by apply HN | by right].
  - intros Hnl _. destruct (HR Hnl) as [Ho [[-> Hnl2]|[Hq Hr]]]; [by apply N6|]. apply (owned_ext a2); [by apply N4 | done].
Qed.

(** ** The whole loop *)

Definition above (a : shape) (r : file_lock) (rest : list Z) : Prop := forall p f, p ∈ rest -> sh_info a !! p = Some f -> fl_start r < fl_start f.

Lemma strip_fields f : fl_type (strip f) = fl_type f /\ fl_start (strip f) = fl_start f /\ fl_end (strip f) = fl_end f /\ fl_owner (strip f) = fl_owner f /\
  fl_flags (strip f) = fl_flags f /\ fl_lmops (strip f) = fl_lmops f /\ fl_ops (strip f) = fl_ops f /\ fl_file (strip f) = fl_file f.
Proof. by destruct f. Qed.

(** At a lock of the owner, the code depends on the two ranges. *)
Lemma step_at w a pre p rest rq lft inl added r n1 n2 f : scanning w a pre (p :: rest) rq lft inl added r n1 n2 -> sh_info a !! p = Some f ->
  let before := slot_after i (pre ++ if inl then [rq] else []) in
  let s := PosixScan w before rq lft 0 added in
  posix_step s =
    if t =? fl_type f then
      if fl_end f <? fl_start r - 1 then Some (Datatypes.inl (PosixScan w (Next p) rq lft 0 added)) else
      if fl_end r <? fl_start f - 1 then Some (inr s) else
      w ← (if fl_start r <? fl_start f then upd w p (set_start (fl_start r)) else upd w rq (set_start (fl_start f)));
      w ← (if fl_end f <? fl_end r then upd w p (set_end (fl_end r)) else upd w rq (set_end (fl_end f)));
      if added then w ← locks_delete_lock w before; Some (Datatypes.inl (PosixScan w before rq lft 0 added))
      else Some (Datatypes.inl (PosixScan w (Next p) p lft 0 true))
    else
      if fl_end f <? fl_start r then Some (Datatypes.inl (PosixScan w (Next p) rq lft 0 added)) else
      if fl_end r <? fl_start f then Some (inr s) else
      let added := if t =? F_UNLCK then true else added in
      let lft := if fl_start f <? fl_start r then p else lft in
      if fl_end r <? fl_end f then Some (inr (PosixScan w before rq lft p added)) else
      if fl_start r <=? fl_start f then
        if added then w ← locks_delete_lock w before; Some (Datatypes.inl (PosixScan w before rq lft 0 added))
        else
          w ← locks_wake_up_blocks w p;
          w ← upd w p (set_start (fl_start r));
          w ← upd w p (set_end (fl_end r));
          w ← upd w p (set_type (fl_type r));
          w ← locks_release_private w p;
          w ← locks_copy_private w p rq;
          Some (Datatypes.inl (PosixScan w (Next p) p lft 0 true))
      else Some (Datatypes.inl (PosixScan w (Next p) rq lft 0 added)).
Proof.
  intros S Ef. cbv zeta. pose proof (sn_good S) as (R & W & Q). destruct (sn_tail_facts _ _ _ _ _ _ _ _ _ _ _ _ S) as (Hp & Hpq & Hpl & Hp1 & Hp2 & Hp0 & Hpr).
  unfold posix_step. rewrite (load_after w a i _ ((p :: rest) ++ post) R) by (rewrite (sn_list S); by rewrite <- app_assoc).
  change (default 0 (head ((p :: rest) ++ post))) with p. rewrite bind_Some_eq, (proj2 (truthy_true p) Hp0). cbn [negb].
  destruct (repr_get w a rq r R (sn_req S)) as (hr & Ehr & Er & _). destruct (repr_get w a p f R Ef) as (hf & Ehf & Ef' & _).
  rewrite Ehr, bind_Some_eq, Ehf, bind_Some_eq.
  destruct (strip_fields hr) as (A1 & A2 & A3 & A4 & A5 & A6 & A7 & A8). destruct (strip_fields hf) as (B1 & B2 & B3 & B4 & _). rewrite <- Er in *. rewrite <- Ef' in *.
  destruct (sn_rest S p ltac:(list_solver)) as (f0 & Ef0 & Hf1 & Hf2 & Hf3). rewrite Ef in Ef0. injection Ef0 as <-.
  assert (posix_same_owner hr hf = true) as ->.
  { unfold posix_same_owner. destruct (sn_of S) as (_ & Ho & _ & Hl). rewrite <- A6, Hl. cbn. rewrite <- A4, <- B4, Ho, Hf2. apply Z.eqb_refl. }
  cbn [negb]. rewrite <- A1, <- A2, <- A3, <- B1, <- B2, <- B3. rewrite (sn_type S).
  destruct (sn_range S) as [Hr1 Hr2]. unfold OFFSET_MAX in Hr2. pose proof (sn_ranges S) as Hrg. cbn in Hrg. rewrite (rng_at_Some _ _ _ Ef) in Hrg.
  destruct Hrg as ((_ & Hf4 & Hf5) & _). unfold OFFSET_MAX in Hf5. rewrite !s64_small by lia. done.
Qed.

(** The state after [p] has been taken out of [rest], whether it is deleted or
    has become the request. *)
Lemma scanning_after w a pre p rest rq lft inl added r n1 n2 w' a' rq' (inl' added' : bool) r' : scanning w a pre (p :: rest) rq lft inl added r n1 n2 ->
  good w' a' -> evolves a a' -> sh_list a' i = pre ++ (if inl' then [rq'] else []) ++ rest ++ post -> (forall j, j <> i -> sh_list a' j = sh_list a j) ->
  (forall q, q <> p -> q <> rq -> sh_info a' !! q = sh_info a !! q) -> (forall q, q <> p -> sh_queue a q = [] -> sh_queue a' q = []) ->
  sh_info a' !! rq' = Some r' -> lock_of o r' -> fl_type r' = t -> 0 <= fl_start r' <= fl_end r' /\ fl_end r' <= OFFSET_MAX -> (rq' = rq \/ rq' = p) ->
  (inl' = false -> idle a' rq') -> (t = F_UNLCK -> inl' = false /\ (lft <> 0 -> added' = true)) /\ (t <> F_UNLCK -> added' = inl') ->
  scanning w' a' pre rest rq' lft inl' added' r' n1 n2.
Proof.
  intros S G V EL EJ F FQ Er Hr Ht Hrg Hq' Hi Had. destruct (sn_tail_facts _ _ _ _ _ _ _ _ _ _ _ _ S) as (Hp & Hpq & Hpl & Hp1 & Hp2 & Hp0 & Hpr).
  destruct (sn_rest S p ltac:(list_solver)) as (f & Ef & Hf).
  assert (forall n, n <> 0 -> n <> p -> n <> rq -> spare a n -> spare a' n) as HS.
  { intros n Hn0 Hnp Hnq [->|[(I1 & I2 & I3 & I4) (g & Eg & Pg)]]; [by left | right]. split; [|exists g; by rewrite F]. split_and!.
    - by rewrite F.
    - intros [j Hj]. destruct (decide (j = i)) as [->|Hj']; [|rewrite EJ in Hj by done; apply I2; by exists j]. rewrite EL in Hj.
      apply I2. exists i. apply (sn_in S). destruct Hq' as [-> | ->], inl'; list_solver.
    - intros K. by apply I3, (ev_waits a a').
    - by apply FQ. }
  pose proof S as [H1 H2 H3 H4 H5 H6 H7 H8 H9 H10 H11 H12 H13 [H14 H14'] H15].
  assert (n1 = 0 \/ n1 <> rq) as Hn1 by (destruct H14 as [|[]]; tauto).
  split; try done.
  - intros q Hq. apply (owned_ext a); [|apply H8; list_solver]. apply F; [list_solver | apply (sn_rest_rq S); list_solver].
  - rewrite (rngs_ext a); [|intros q Hq; apply F; [list_solver | apply (sn_rest_rq S); list_solver]].
    cbn in H9. rewrite (rng_at_Some _ _ _ Ef) in H9. by apply (ranges_skip None (fl_type f) (fl_start f) (fl_end f)).
  - intros q Hq. destruct (H10 q Hq) as (g & Eg & Hg). exists g. rewrite F; [done | |]; intros ->; [destruct Hf as (_ & Hf & _); congruence|].
    rewrite H3 in Eg. injection Eg as <-. by apply Hg, (sn_of S).
  - destruct H11 as [->|[Hl Ho]]; [by left | right]. split; [done|]. apply (owned_ext a); [|done]. apply F; [by apply not_eq_sym | by apply (sn_left_rq S)].
  - destruct (decide (n1 = 0)) as [->|Hn0]; [by left|]. apply HS; [done | by apply not_eq_sym | by destruct Hn1 | done].
  - destruct (decide (n2 = 0)) as [->|Hn0]; [by left|]. apply HS; [done | by apply not_eq_sym | by destruct H14' | done].
  - destruct (decide (n1 = 0)) as [->|Hn0], (decide (n2 = 0)) as [->|Hn0']; (split; [first [by left | right] | first [by left | right]]);
      destruct H14 as [|[]], H14' as [|], Hq' as [-> | ->]; try done; split; done || (by apply not_eq_sym).
Qed.

Lemma scan_ok rest : forall w a pre rq lft inl added r n1 n2 fuel,
  scanning w a pre rest rq lft inl added r n1 n2 -> (inl = true \/ added = true \/ lft <> 0 -> above a r rest) -> (length rest < fuel)%nat ->
  scan_ends a pre rest rq lft inl added r n1 n2
    (posix_tail fuel n1 n2 (PosixScan w (slot_after i (pre ++ if inl then [rq] else [])) rq lft 0 added)).
Proof.
  induction rest as [|p rest IH]; intros w a pre rq lft inl added r n1 n2 fuel S Hab Hf; (destruct fuel as [|fuel]; [simpl in Hf; lia|]); rewrite tail_step.
  - (* the end of the owner's locks *)
    pose proof (sn_good S) as (R & W & Q).
    assert (posix_step (PosixScan w (slot_after i (pre ++ if inl then [rq] else [])) rq lft 0 added) =
      Some (Datatypes.inr (PosixScan w (slot_after i (pre ++ if inl then [rq] else [])) rq lft 0 added))) as ->.
    { unfold posix_step. rewrite (load_after w a i _ post R) by (rewrite (sn_list S); by rewrite <- app_assoc). rewrite bind_Some_eq.
      destruct post as [|q l] eqn:Epost; [done|]. change (default 0 (head (q :: l))) with q. destruct (truthy q) eqn:Eq; [|done]. cbn [negb].
      destruct (repr_get w a rq r R (sn_req S)) as (hr & Ehr & Er & _). destruct (sn_post S q) as (g & Eg & Hg); [by rewrite Epost|].
      destruct (repr_get w a q g R Eg) as (hg & Ehg & Eg' & _). rewrite Ehr, bind_Some_eq, Ehg, bind_Some_eq.
      assert (posix_same_owner hr hg = false) as ->; [|done].
      unfold posix_same_owner. destruct (sn_of S) as (_ & Ho & _ & Hl). destruct (strip_fields hr) as (_ & _ & _ & A4 & _ & A6 & _). destruct (strip_fields hg) as (_ & _ & _ & B4 & _).
      rewrite <- Er in *. rewrite <- Eg' in *. rewrite <- A6, Hl. cbn. rewrite <- A4, <- B4, Ho. by apply Z.eqb_neq, not_eq_sym. }
    apply finish_plain; [done| |done]. cbn. by rewrite app_nil_r.
  - destruct (sn_tail_facts _ _ _ _ _ _ _ _ _ _ _ _ S) as (Hp & Hpq & Hpl & Hp1 & Hp2 & Hp0 & Hpr). pose proof (sn_good S) as (R & W & Q).
    destruct (sn_rest S p ltac:(list_solver)) as (f & Ef & Hof). rewrite (step_at w a pre p rest rq lft inl added r n1 n2 f S Ef).
    destruct (sn_range S) as [Hr1 Hr2]. pose proof (sn_ranges S) as Hrg. cbn in Hrg. rewrite (rng_at_Some _ _ _ Ef) in Hrg.
    destruct Hrg as ((Hf1 & Hf2 & Hf3) & _ & Hrest).
    assert (fl_type f <> F_UNLCK) as Hfu by (unfold F_UNLCK, F_RDLCK, F_WRLCK in *; lia).
    assert (forall q g, q ∈ rest -> sh_info a !! q = Some g -> fl_end f < fl_start g) as Hafter.
    { intros q g Hq Eg. apply (ranges_above _ _ (fl_type g) (fl_start g) (fl_end g) Hrest). apply list_elem_of_fmap. exists q. split; [|done]. by rewrite (rng_at_Some _ _ _ Eg). }
    assert (rng_at a <$> p :: rest = (fl_type f, fl_start f, fl_end f) :: (rng_at a <$> rest)) as Erg by (cbn; by rewrite (rng_at_Some _ _ _ Ef)).
    assert (fl_end f < fl_start r -> inl = false /\ added = false /\ lft = 0) as Hlow.
    { intros Hlt. assert (~ (inl = true \/ added = true \/ lft <> 0)) as K by (intros K; specialize (Hab K p f ltac:(list_solver) Ef); lia).
      destruct inl, added, (decide (lft = 0)); tauto. }
    assert (above a r rest -> forall a', (forall q, q ∈ rest -> sh_info a' !! q = sh_info a !! q) -> forall r', fl_start r' <= fl_start r -> above a' r' rest) as Habove.
    { intros K a' F r' Hle q g Hq Eg. rewrite F in Eg by done. specialize (K q g Hq Eg). lia. }
    assert (fl_start r <= fl_end f -> above a r rest) as Habf by (intros K q g Hq Eg; specialize (Hafter q g Hq Eg); lia).
    assert (forall q, q ∈ rest -> q <> p /\ q <> rq) as Hne by (intros q Hq; split; [list_solver | apply (sn_rest_rq S); list_solver]).
    assert (length rest < fuel)%nat as Hfu' by (simpl in Hf; lia).
    assert (scan_error added r (rng_at a <$> p :: rest) = 0 \/ (fl_end r < fl_start f \/ fl_end f < fl_start r) /\ t = F_UNLCK) as Herr.
    { rewrite Erg. unfold scan_error. cbn [overlap existsb]. destruct (Z.eqb_spec t F_UNLCK); [|by left].
      destruct (Z.leb_spec (fl_start f) (fl_end r)), (Z.leb_spec (fl_start r) (fl_end f)); cbn; rewrite ?orb_true_r; [by left|right; split; [lia|done]..]. }
    destruct (Z.eqb_spec t (fl_type f)) as [Et|Et].
    + assert (t <> F_UNLCK) as Hu by congruence. pose proof (proj2 (sn_added S) Hu) as Hadd. destruct Herr as [Herr|[_ ?]]; [|done].
      destruct (Z.ltb_spec (fl_end f) (fl_start r - 1)) as [L1|L1]; [|destruct (Z.ltb_spec (fl_end r) (fl_start f - 1)) as [L2|L2]].
      * destruct (Hlow ltac:(lia)) as (-> & -> & ->). assert (if t =? F_UNLCK then 0 = 0 \/ false = true else false = false) as Hn by (by rewrite (proj2 (Z.eqb_neq t F_UNLCK) Hu)).
        pose proof (scanning_next _ _ _ _ _ _ _ _ _ _ 0 false false S (or_introl eq_refl) Hn) as S'. rewrite <- (slot_after_snoc i pre p), <- (app_nil_r (pre ++ [p])).
        eapply (scan_ends_next w a pre p rest rq r n1 n2 0 false false f (rng f) _ S); [apply (IH _ _ _ _ _ _ _ _ _ _ _ S'); [by intros [|[]]|done]|done| | |done|by left].
        -- rewrite Erg. simpl. rewrite Et, Z.eqb_refl, (proj2 (Z.ltb_lt _ _) L1). done.
        -- rewrite Herr. unfold scan_error. by rewrite (proj2 (Z.eqb_neq t F_UNLCK) Hu).
      * apply finish_plain; [done|..]; rewrite Erg.
        -- simpl. by rewrite Et, Z.eqb_refl, (proj2 (Z.ltb_ge _ _) L1), (proj2 (Z.ltb_lt _ _) L2).
        -- cbn. rewrite (proj2 (Z.leb_gt (fl_start f) (fl_end r))) by lia. cbn. apply (overlap_above _ _ _ (fl_type f) (fl_end f)); [done | lia].
      * destruct (merge_step w a pre p rest rq lft inl added r n1 n2 f S Ef (eq_sym Et)) as (w1 & w2 & a2 & f2 & r2 & E1 & E2 & G2 & V2 & EL & EQ & F2 & R2 & O1 & O2 & Gf & Gr & Efl & Fr).
        rewrite E1, bind_Some_eq, E2, bind_Some_eq. injection Gf as Gf1 Gf2 Gf3. injection Gr as Gr1 Gr2 Gr3.
        assert (place t (fl_start r) (fl_end r) (rng_at a <$> p :: rest) = place t (Z.min (fl_start r) (fl_start f)) (Z.max (fl_end r) (fl_end f)) (rng_at a <$> rest)) as EP.
        { rewrite Erg. simpl. by rewrite Et, Z.eqb_refl, (proj2 (Z.ltb_ge _ _) L1), (proj2 (Z.ltb_ge _ _) L2). }
        assert (lft <> 0 -> fl_start r < fl_start f) as Hls by (intros Hl; apply (Hab ltac:(tauto) p f); [list_solver | done]).
        destruct inl; subst added.
        -- destruct (step_delete w2 a2 i (pre ++ [rq]) p (rest ++ post) f2 G2) as (w3 & E3 & G3 & V3); [rewrite EL, (sn_list S); by rewrite <- app_assoc | done | apply O1|].
           rewrite E3, bind_Some_eq. set (a3 := sh_delete a2 i p) in *.
           assert (forall q, q <> p -> sh_info a3 !! q = sh_info a2 !! q) as F3 by (intros q Hq; simpl; by simplify_map_eq).
           assert (scanning w3 a3 pre rest rq lft true true r2 n1 n2) as S3.
           { apply (scanning_after w a pre p rest rq lft true true r n1 n2); try done; try lia; [by eapply evolves_trans|..].
             - simpl. rewrite fn_lookup_insert. destruct (list_split a2 i p (pre ++ [rq]) (rest ++ post)) as (_ & _ & _ & -> & _); [apply G2 | rewrite EL, (sn_list S); by rewrite <- app_assoc | by rewrite <- app_assoc].
             - intros j Hj. simpl. rewrite fn_lookup_insert_ne by done. apply EL.
             - intros q Hq Hq'. rewrite F3 by done. by apply Fr.
             - intros q Hq E. simpl. rewrite fn_lookup_insert_ne by done. by rewrite EQ.
             - rewrite F3; [done | by apply not_eq_sym]. }
           eapply (scan_ends_step a a3 pre p rest rq rq lft true true true r r2); [apply (IH _ _ _ _ _ _ _ _ _ _ _ S3)|..].
           ++ intros _. apply Habove; [intros q g Hq Eg; apply (Hab (or_introl eq_refl) q g); [list_solver | done]| |lia]. intros q Hq. destruct (Hne q Hq). by rewrite F3, Fr.
           ++ done.
           ++ by eapply evolves_trans.
           ++ intros j Hj. simpl. rewrite fn_lookup_insert_ne by done. apply EL.
           ++ apply (sn_null S).
           ++ rewrite EP, Gr2, Gr3. f_equal. symmetry. apply rngs_ext. intros q Hq. destruct (Hne q Hq). by rewrite F3, Fr.
           ++ intros Hl. specialize (Hls Hl). split; [lia|]. rewrite F3 by (by apply not_eq_sym). apply Fr; [by apply not_eq_sym | by apply (sn_left_rq S)].
           ++ done.
           ++ intros q Hq0 Hq Hr. split; [done|]. rewrite F3 by list_solver. apply Fr; list_solver.
           ++ intros q. rewrite (sn_list S3), (sn_list S). list_solver.
           ++ intros Hnl. exfalso. apply Hnl. exists i. apply (sn_in S). tauto.
        -- assert (scanning w2 a2 pre rest p lft true true f2 n1 n2) as S3.
           { apply (scanning_after w a pre p rest rq lft false false r n1 n2); try done; try lia.
             - by rewrite EL, (sn_list S).
             - intros q Hq E. by rewrite EQ. }
           rewrite <- (slot_after_snoc i pre p).
           eapply (scan_ends_step a a2 pre p rest rq p lft false true false r f2); [apply (IH _ _ _ _ _ _ _ _ _ _ _ S3)|..]; try done.
           ++ intros _. intros q g Hq Eg. destruct (Hne q Hq). rewrite Fr in Eg by done. specialize (Hafter q g Hq Eg). lia.
           ++ apply (sn_null S).
           ++ rewrite EP, Gf2, Gf3. f_equal. symmetry. apply rngs_ext. intros q Hq. destruct (Hne q Hq). by rewrite Fr.
           ++ intros Hl. specialize (Hls Hl). split; [lia|]. apply Fr; [by apply not_eq_sym | by apply (sn_left_rq S)].
           ++ intros q Hq0 Hq Hr. split; [list_solver|]. apply Fr; list_solver.
           ++ intros q. rewrite (sn_list S3), (sn_list S). list_solver.
           ++ intros Hnl. split; [by exists r2 | right]. apply (sn_apart S).
    + assert ((t =? fl_type f) = false) as Etb by (by apply Z.eqb_neq).
      destruct (Z.ltb_spec (fl_end f) (fl_start r)) as [L1|L1]; [|destruct (Z.ltb_spec (fl_end r) (fl_start f)) as [L2|L2]].
      * destruct (Hlow L1) as (-> & -> & ->). assert (if t =? F_UNLCK then 0 = 0 \/ false = true else false = false) as Hn by (destruct (t =? F_UNLCK); [by left | done]).
        pose proof (scanning_next _ _ _ _ _ _ _ _ _ _ 0 false false S (or_introl eq_refl) Hn) as S'. rewrite <- (slot_after_snoc i pre p), <- (app_nil_r (pre ++ [p])).
        eapply (scan_ends_next w a pre p rest rq r n1 n2 0 false false f (rng f) _ S); [apply (IH _ _ _ _ _ _ _ _ _ _ _ S'); [by intros [|[]]|done]|done| | |done|by left].
        -- rewrite Erg. simpl. by rewrite Etb, (proj2 (Z.ltb_lt _ _) L1).
        -- rewrite Erg. unfold scan_error. cbn [overlap existsb]. rewrite (proj2 (Z.leb_gt (fl_start r) (fl_end f))) by lia. by rewrite andb_false_r.
      * apply finish_plain; [done|..]; rewrite Erg.
        -- simpl. by rewrite Etb, (proj2 (Z.ltb_ge _ _) L1), (proj2 (Z.ltb_lt _ _) L2).
        -- cbn. rewrite (proj2 (Z.leb_gt (fl_start f) (fl_end r))) by lia. cbn. apply (overlap_above _ _ _ (fl_type f) (fl_end f)); [done | lia].
      * destruct Herr as [Herr|[[]]]; [|lia..].
        assert (place t (fl_start r) (fl_end r) (rng_at a <$> p :: rest) = (if fl_start f <? fl_start r then [(fl_type f, fl_start f, fl_start r - 1)] else []) ++
          (if fl_end r <? fl_end f then emit t (fl_start r) (fl_end r) ++ (fl_type f, fl_end r + 1, fl_end f) :: (rng_at a <$> rest) else place t (fl_start r) (fl_end r) (rng_at a <$> rest))) as EP.
        { rewrite Erg. simpl. by rewrite Etb, (proj2 (Z.ltb_ge _ _) L1), (proj2 (Z.ltb_ge _ _) L2). }
        assert (inl = true \/ added = true \/ lft <> 0 -> fl_start r < fl_start f) as Hls by (intros K; apply (Hab K p f); [list_solver | done]).
        cbv zeta. destruct (Z.ltb_spec (fl_end r) (fl_end f)) as [L3|L3]; [by apply finish_right|].
        destruct (Z.leb_spec (fl_start r) (fl_start f)) as [L4|L4].
        -- rewrite (proj2 (Z.ltb_ge (fl_start f) (fl_start r))) in EP |- * by lia. cbn [app] in EP. destruct (if t =? F_UNLCK then true else added) eqn:Eadd.
           ++ assert (scanning w a pre (p :: rest) rq lft inl true r n1 n2) as S1.
              { destruct (Z.eqb_spec t F_UNLCK) as [Hu|Hu]; [by eapply scanning_unlock | by subst]. }
              destruct (scanning_delete _ _ _ _ _ _ _ _ _ _ _ _ S1) as (w3 & a3 & E3 & S3 & V3 & F3 & L5). rewrite E3, bind_Some_eq.
              assert (rng_at a3 <$> rest = rng_at a <$> rest) as Er3 by (apply rngs_ext; intros q Hq; apply F3; by apply Hne).
              eapply (scan_ends_step a a3 pre p rest rq rq lft inl inl added r r); [apply (IH _ _ _ _ _ _ _ _ _ _ _ S3)|..]; try done.
              ** intros _. apply Habove; [by apply Habf| |lia]. intros q Hq. apply F3. by apply Hne.
              ** apply (sn_null S).
              ** by rewrite EP, Er3.
              ** intros _. split; [done|]. apply F3. by apply not_eq_sym.
              ** intros q Hq0 Hq Hr. split; [done|]. apply F3. list_solver.
              ** intros q. rewrite (sn_list S3), (sn_list S). list_solver.
              ** intros Hnl. split; [exists r; split; [rewrite F3; [apply (sn_req S) | by apply not_eq_sym] | apply (sn_of S)] | left]. split; [done|].
                 intros [j Hj]. apply Hnl. destruct (decide (j = i)) as [->|Hji]; [exists i | exists j; by rewrite <- L5].
                 rewrite (sn_list S3) in Hj. rewrite (sn_list S). list_solver.
           ++ destruct (Z.eqb_spec t F_UNLCK) as [Hu|Hu]; [done|]. pose proof (proj2 (sn_added S) Hu) as Hi. subst added. subst inl.
              destruct (replace_step w a pre p rest rq lft r n1 n2 f S Ef) as (w1 & w2 & w3 & w4 & w5 & w6 & a6 & f6 & E1 & E2 & E3 & E4 & E5 & E6 & G6 & V6 & Ef6 & Er6 & O6 & F6 & L6 & Q6).
              rewrite E1, bind_Some_eq, E2, bind_Some_eq, E3, bind_Some_eq, E4, bind_Some_eq, E5, bind_Some_eq, E6, bind_Some_eq.
              injection Er6 as Er1 Er2 Er3.
              assert (scanning w6 a6 pre rest p lft true true f6 n1 n2) as S3.
              { apply (scanning_after w a pre p rest rq lft false false r n1 n2); try done; try lia.
                - by rewrite L6, (sn_list S).
                - intros q Hq _. by apply F6.
                - intros q Hq E. by rewrite Q6.
                - rewrite Er1. apply (sn_type S). }
              rewrite <- (slot_after_snoc i pre p).
              eapply (scan_ends_step a a6 pre p rest rq p lft false true false r f6); [apply (IH _ _ _ _ _ _ _ _ _ _ _ S3)|..]; try done.
              ** intros _. apply Habove; [by apply Habf| |lia]. intros q Hq. apply F6. by apply Hne.
              ** apply (sn_null S).
              ** rewrite EP, Er2, Er3. f_equal. symmetry. apply rngs_ext. intros q Hq. apply F6. by apply Hne.
              ** intros _. split; [done|]. apply F6. by apply not_eq_sym.
              ** intros q Hq0 Hq Hr. split; [list_solver|]. apply F6. list_solver.
              ** intros q. rewrite (sn_list S3), (sn_list S). list_solver.
              ** intros Hnl. split; [exists r; split; [rewrite F6; [apply (sn_req S) | by apply not_eq_sym] | apply (sn_of S)] | right]. apply (sn_apart S).
        -- rewrite (proj2 (Z.ltb_lt (fl_start f) (fl_start r))) in EP |- * by lia. cbn [app] in EP.
           assert (inl = false /\ added = false /\ lft = 0) as (-> & -> & ->).
           { destruct inl; [specialize (Hls ltac:(tauto)); lia|]. destruct added; [specialize (Hls ltac:(tauto)); lia|].
             destruct (decide (lft = 0)) as [->|]; [done | specialize (Hls ltac:(tauto)); lia]. }
           set (added' := if t =? F_UNLCK then true else false).
           assert (if t =? F_UNLCK then p = 0 \/ added' = true else added' = false) as Hn by (unfold added'; destruct (t =? F_UNLCK); [by right | done]).
           pose proof (scanning_next _ _ _ _ _ _ _ _ _ _ p false added' S (or_intror eq_refl) Hn) as S'. rewrite <- (slot_after_snoc i pre p), <- (app_nil_r (pre ++ [p])).
           eapply (scan_ends_next w a pre p rest rq r n1 n2 p false added' f (rng (set_end (fl_start r - 1) f)) _ S); [apply (IH _ _ _ _ _ _ _ _ _ _ _ S'); [by intros _; apply Habf|done]|done|..].
           ++ rewrite EP. by destruct f.
           ++ rewrite Herr. unfold scan_error, added'. by destruct (t =? F_UNLCK).
           ++ done.
           ++ by right.
Qed.
End Scan.
