(* ===== verification/LocksState.v ===== *)
(** * File locks: what the lists of the inodes mean

    [held_by] is the abstract state of the POSIX locks of a file: which lock an
    owner holds on a byte.  [table_ok] is the invariant of all lists and queues:
    the locks of an owner are together, sorted and merged, no two owners hold
    conflicting locks, and every request that waits conflicts with the lock it
    waits for. *)

From stdpp Require Import gmap functions.
From S2P Require Import Prelude Locks LocksIntervals LocksRepr LocksSteps LocksEvolve LocksPosix.
From stdpp Require Import list.
Open Scope Z_scope.
Open Scope c_scope.

(** ** Ranges *)

Lemma held_in l prev t s e x : ranges_ok prev l -> (t, s, e) ∈ l -> s <= x <= e -> held l x = Some t.
Proof.
  revert prev. induction l as [|[[t1 s1] e1] l IH]; intros prev H Hin Hx; [by apply elem_of_nil in Hin|]. destruct H as (Hr & _ & H).
  apply elem_of_cons in Hin as [[= <- <- <-] | Hin]; simpl.
  - rewrite (proj2 (Z.leb_le s x)), (proj2 (Z.leb_le x e)) by lia. done.
  - pose proof (ranges_above _ _ _ _ _ H Hin) as K. simpl in K. rewrite (proj2 (Z.leb_gt x e1)) by lia. rewrite andb_false_r. by apply (IH _ H).
Qed.

Lemma held_inv l x t : held l x = Some t -> exists s e, (t, s, e) ∈ l /\ s <= x <= e.
Proof.
  induction l as [|[[t1 s1] e1] l IH]; [done|]. simpl. destruct (Z.leb_spec s1 x), (Z.leb_spec x e1); simpl.
  1: { intros [= ->]. exists s1, e1. split; [list_solver | lia]. }
  all: intros K; destruct (IH K) as (s & e & K1 & K2); exists s, e; split; [list_solver | done].
Qed.

(** ** Locks of an owner *)

Definition owner_is (a : shape) (o p : Z) : bool :=
  match sh_info a !! p with Some f => IS_POSIX f && (fl_owner f =? o) | None => false end.

(** The ranges an owner has locked on a file. *)
Definition owner_ranges (a : shape) (i o : Z) : list range := rng_at a <$> filter (fun p => owner_is a o p = true) (sh_list a i).
Definition held_by (a : shape) (i o x : Z) : option Z := held (owner_ranges a i o) x.

Lemma owned_is a o p o' : owned a o p -> owner_is a o' p = (o =? o').
Proof. intros (f & Ef & H1 & H2 & _). unfold owner_is. by rewrite Ef, H1, H2. Qed.

(** Owners with their locks, in the order of the list. *)
Definition groups_ok (a : shape) (G : list (Z * list Z)) : Prop :=
  NoDup (fst <$> G) /\ forall o S, (o, S) ∈ G -> S <> [] /\ (forall p, p ∈ S -> owned a o p) /\ ranges_ok None (rng_at a <$> S).

Definition group_locks (G : list (Z * list Z)) : list Z := concat (snd <$> G).

Lemma group_locks_app G1 G2 : group_locks (G1 ++ G2) = group_locks G1 ++ group_locks G2.
Proof. unfold group_locks. by rewrite fmap_app, concat_app. Qed.

Lemma elem_group G p : p ∈ group_locks G <-> exists o S, (o, S) ∈ G /\ p ∈ S.
Proof.
  unfold group_locks. induction G as [|[o S] G IH]; cbn [fmap list_fmap concat snd].
  - split; [by intros ?%elem_of_nil | intros (o & S & H & _); by apply elem_of_nil in H].
  - rewrite elem_of_app, IH. split.
    + intros [H|(o' & S' & H1 & H2)]; [exists o, S; list_solver | exists o', S'; list_solver].
    + intros (o' & S' & [[= -> ->]|H1]%elem_of_cons & H2); [by left | right; by exists o', S'].
Qed.

Lemma filter_none {A} (P : A -> Prop) `{!forall x, Decision (P x)} (l : list A) : (forall x, x ∈ l -> ~ P x) -> filter P l = [].
Proof.
  induction l as [|x l IH]; [done|]. intros HP. rewrite filter_cons_False by (apply HP; list_solver). apply IH. intros y Hy. apply HP. list_solver.
Qed.

Lemma filter_all {A} (P : A -> Prop) `{!forall x, Decision (P x)} (l : list A) : (forall x, x ∈ l -> P x) -> filter P l = l.
Proof.
  induction l as [|x l IH]; [done|]. intros HP. rewrite filter_cons_True by (apply HP; list_solver). rewrite IH; [done|]. intros y Hy. apply HP. list_solver.
Qed.

Lemma filter_group a G o S G1 G2 : groups_ok a G -> G = G1 ++ (o, S) :: G2 ->
  filter (fun p => owner_is a o p = true) (group_locks G) = S.
Proof.
  intros [Hn Hg] E. rewrite E, group_locks_app, list.filter_app. rewrite E, fmap_app in Hn. cbn in Hn. apply NoDup_app in Hn as (_ & N1 & N2). apply NoDup_cons in N2 as [N2 _].
  change (group_locks ((o, S) :: G2)) with (S ++ group_locks G2). rewrite list.filter_app.
  rewrite (filter_none _ (group_locks G1)), (filter_none _ (group_locks G2)), app_nil_r.
  - cbn. apply filter_all. intros p Hp. destruct (Hg o S) as (_ & K & _); [rewrite E; list_solver|]. rewrite (owned_is a o p) by (by apply K). apply Z.eqb_refl.
  - intros p (o' & S' & H1 & H2)%elem_group. destruct (Hg o' S') as (_ & K & _); [rewrite E; list_solver|]. rewrite (owned_is a o' p) by (by apply K).
    rewrite (proj2 (Z.eqb_neq o' o)); [done|]. intros ->. apply N2. apply list_elem_of_fmap. by exists (o, S').
  - intros p (o' & S' & H1 & H2)%elem_group. destruct (Hg o' S') as (_ & K & _); [rewrite E; list_solver|]. rewrite (owned_is a o' p) by (by apply K).
    rewrite (proj2 (Z.eqb_neq o' o)); [done|]. intros ->. apply (N1 o); [apply list_elem_of_fmap; by exists (o, S') | list_solver].
Qed.

Lemma filter_no_group a G o : groups_ok a G -> o ∉ G.*1 -> filter (fun p => owner_is a o p = true) (group_locks G) = [].
Proof.
  intros [Hn Hg] Ho. apply filter_none. intros p (o' & S' & H1 & H2)%elem_group. destruct (Hg o' S' H1) as (_ & K & _). rewrite (owned_is a o' p) by (by apply K).
  rewrite (proj2 (Z.eqb_neq o' o)); [done|]. intros ->. apply Ho. apply list_elem_of_fmap. by exists (o, S').
Qed.

Lemma groups_ext a a' G : (forall p, p ∈ group_locks G -> sh_info a' !! p = sh_info a !! p) -> groups_ok a G -> groups_ok a' G.
Proof.
  intros F [Hn Hg]. split; [done|]. intros o S H. destruct (Hg o S H) as (H1 & H2 & H3).
  assert (forall p, p ∈ S -> sh_info a' !! p = sh_info a !! p) as FS by (intros p Hp; apply F, elem_group; by exists o, S).
  split_and!; [done| |by rewrite (rngs_ext a)]. intros p Hp. apply (owned_ext a); [by apply FS | by apply H2].
Qed.

(** Replacing the locks of one owner. *)
Lemma groups_replace a a' G1 o S G2 news : groups_ok a (G1 ++ (o, S) :: G2) ->
  (forall p, p ∈ group_locks G1 \/ p ∈ group_locks G2 -> sh_info a' !! p = sh_info a !! p) ->
  (forall p, p ∈ news -> owned a' o p) -> ranges_ok None (rng_at a' <$> news) ->
  exists G', groups_ok a' G' /\ group_locks G' = group_locks G1 ++ news ++ group_locks G2 /\
    (news = [] -> G' = G1 ++ G2) /\ (news <> [] -> G' = G1 ++ (o, news) :: G2).
Proof.
  intros [Hn Hg] F Hnews Hr. rewrite fmap_app in Hn. cbn in Hn.
  assert (groups_ok a' (G1 ++ G2)) as G12.
  { apply (groups_ext a); [intros p; rewrite group_locks_app, elem_of_app; apply F|]. split; [|intros o' S' H; apply Hg; list_solver].
    rewrite fmap_app. apply NoDup_app in Hn as (N1 & N2 & N3). apply NoDup_cons in N3 as [N3 N4]. apply NoDup_app. split_and!; [done| |done]. set_solver. }
  destruct (decide (news = [])) as [->|Hne].
  - exists (G1 ++ G2). split_and!; [done|by rewrite group_locks_app|done|done].
  - exists (G1 ++ (o, news) :: G2). split_and!; [|by rewrite group_locks_app|done|done]. split; [by rewrite fmap_app|].
    intros o' S' [H|[[= -> ->]|H]%elem_of_cons]%elem_of_app; [|done|]; apply G12; list_solver.
Qed.

Lemma groups_add a a' G1 o news : groups_ok a G1 -> o ∉ G1.*1 -> (forall p, p ∈ group_locks G1 -> sh_info a' !! p = sh_info a !! p) ->
  (forall p, p ∈ news -> owned a' o p) -> ranges_ok None (rng_at a' <$> news) ->
  exists G', groups_ok a' G' /\ group_locks G' = group_locks G1 ++ news /\ (news = [] -> G' = G1) /\ (news <> [] -> G' = G1 ++ [(o, news)]).
Proof.
  intros HG Ho F Hnews Hr. pose proof (groups_ext a a' G1 F HG) as G1'. destruct (decide (news = [])) as [->|Hne].
  - exists G1. by rewrite app_nil_r.
  - exists (G1 ++ [(o, news)]). split_and!; [|rewrite group_locks_app; cbn; by rewrite app_nil_r|done|done]. split.
    + rewrite fmap_app. apply NoDup_app. split_and!; [apply G1'|list_solver|apply NoDup_singleton].
    + intros o' S' [H|[= -> ->]%list_elem_of_singleton]%elem_of_app; [by apply G1' | done].
Qed.

(** ** The invariant *)

(** BSD locks and leases come before the POSIX locks; BSD locks of different files
    do not conflict. *)
Definition flock_ok (f : file_lock) : Prop :=
  IS_POSIX f = false /\ (IS_LEASE f = true \/ IS_LEASE f = false /\ IS_FLOCK f = true /\ plain f /\ fl_type f <> F_UNLCK).

Section Table.
Context {ops : LockOps}.

Record inode_ok (a : shape) (i : Z) : Prop := {
  in_split : exists N G, sh_list a i = N ++ group_locks G /\ groups_ok a G /\ forall p, p ∈ N -> exists f, sh_info a !! p = Some f /\ flock_ok f;
  in_posix o o' x t t' : o <> o' -> held_by a i o x = Some t -> held_by a i o' x = Some t' -> t = F_RDLCK /\ t' = F_RDLCK;
  in_flock p q f g : p ∈ sh_list a i -> q ∈ sh_list a i -> sh_info a !! p = Some f -> sh_info a !! q = Some g ->
    IS_POSIX f = false -> IS_POSIX g = false -> IS_LEASE f = false -> IS_LEASE g = false -> p <> q -> flock_locks_conflict f g = false
}.

(** The lock [b] is in the way of the request [q]. *)
Definition blocks (q b : file_lock) : Prop :=
  (IS_POSIX b = true -> plain q /\ IS_POSIX q = true /\ posix_locks_conflict q b = true) /\
  (IS_POSIX b = false -> IS_POSIX q = false /\ IS_LEASE q = IS_LEASE b /\ (IS_LEASE b = false -> flock_locks_conflict q b = true)).

Record table_ok (a : shape) : Prop := {
  tb_inode i : inode_ok a i;
  tb_blocks b q fb fq : q ∈ sh_queue a b -> sh_info a !! b = Some fb -> sh_info a !! q = Some fq -> blocks fq fb
}.

Definition locks_inv (w : locks) (a : shape) : Prop := good w a /\ table_ok a.

(** Conflicts only depend on what a lock keeps when it grows. *)
Lemma blocks_kept q b b' : kept b b' -> blocks q b -> blocks q b'.
Proof.
  intros (K1 & K2 & K3 & K4 & K5 & K6 & K7) [H1 H2]. unfold blocks, IS_POSIX, IS_LEASE in *. rewrite K2. split.
  - intros Hp. destruct (H1 Hp) as ([Pq1 Pq2] & Hq & Hc). split; [done|]. split; [done|]. unfold posix_locks_conflict, posix_same_owner, locks_overlap, locks_conflict, IS_POSIX in *.
    rewrite K1, K2, K3, Hp, Pq2 in *. cbn [negb orb truthy] in *. change (truthy 0) with false in *. cbn [negb orb] in *.
    destruct (fl_owner q =? fl_owner b); [done|]. destruct (Z.leb_spec (fl_start b) (fl_end q)), (Z.leb_spec (fl_start q) (fl_end b)); try done.
    by rewrite (proj2 (Z.leb_le (fl_start b') (fl_end q))), (proj2 (Z.leb_le (fl_start q) (fl_end b'))) by lia.
  - intros Hp. destruct (H2 Hp) as (Hq & Hl & Hc). split_and!; [done|done|]. intros Hl'. specialize (Hc Hl'). unfold flock_locks_conflict, IS_FLOCK, locks_conflict in *. by rewrite K2, K3, K4.
Qed.

(** The queues stay right when the shape evolves. *)
Lemma blocks_evolve a a' : evolves a a' ->
  (forall b q fb fq, q ∈ sh_queue a b -> sh_info a !! b = Some fb -> sh_info a !! q = Some fq -> blocks fq fb) ->
  forall b q fb fq, q ∈ sh_queue a' b -> sh_info a' !! b = Some fb -> sh_info a' !! q = Some fq -> blocks fq fb.
Proof.
  intros [V1 V2 _] H b q fb fq Hq Eb Eq. destruct (V1 b) as [E | (E & f & f' & Ef & Ef' & K)]; [rewrite E in Hq; by apply elem_of_nil in Hq|].
  rewrite Eb in Ef'. injection Ef' as <-. rewrite V2 in Eq by (by exists b). rewrite E in Hq. apply (blocks_kept fq f fb K). by apply (H b q).
Qed.

Lemma owner_ranges_ext a a' i o : sh_list a' i = sh_list a i -> (forall p, p ∈ sh_list a i -> sh_info a' !! p = sh_info a !! p) -> owner_ranges a' i o = owner_ranges a i o.
Proof.
  intros EL F. unfold owner_ranges. rewrite EL.
  assert (forall l : list Z, (forall p, p ∈ l -> sh_info a' !! p = sh_info a !! p) -> filter (fun p => owner_is a' o p = true) l = filter (fun p => owner_is a o p = true) l) as E.
  { intros l Fl. induction l as [|p l IH]; [done|].
    assert (owner_is a' o p = owner_is a o p) as Eo by (unfold owner_is; rewrite Fl; [done | list_solver]).
    specialize (IH ltac:(intros q Hq; apply Fl; list_solver)).
    destruct (owner_is a o p) eqn:Ep; [rewrite !filter_cons_True by congruence | rewrite !filter_cons_False by congruence]; by rewrite IH. }
  rewrite E by done. apply rngs_ext. intros p Hp. apply list_elem_of_filter in Hp as [_ Hp]. by apply F.
Qed.

Lemma inode_ext a a' i : sh_list a' i = sh_list a i -> (forall p, p ∈ sh_list a i -> sh_info a' !! p = sh_info a !! p) -> inode_ok a i -> inode_ok a' i.
Proof.
  intros EL F [(N & G & E & HG & HN) HP HF]. split.
  - exists N, G. split; [by rewrite EL|]. split.
    + apply (groups_ext a); [|done]. intros p Hp. apply F. rewrite E. list_solver.
    + intros p Hp. destruct (HN p Hp) as (f & Ef & Hf). exists f. rewrite F; [done|]. rewrite E. list_solver.
  - intros o o' x t t' Ho. unfold held_by. rewrite !(owner_ranges_ext a a') by done. by apply HP.
  - intros p q f g. rewrite EL. intros Hp Hq. rewrite !F by done. by apply HF.
Qed.

Lemma table_same a a' : same_shape a a' -> table_ok a -> table_ok a'.
Proof.
  intros [S1 S2 S3 S4 S5 S6] [T1 T2]. split.
  - intros i. apply (inode_ext a); [apply S2 | by rewrite S1 | apply T1].
  - intros b q fb fq. rewrite S1, S3. apply T2.
Qed.

(** ** Conflicts and bytes *)

(** Another owner holds a byte of the request in a way that excludes it. *)
Definition conflicting (a : shape) (i : Z) (r : file_lock) : Prop :=
  exists o x t, o <> fl_owner r /\ fl_start r <= x <= fl_end r /\ held_by a i o x = Some t /\ (t = F_WRLCK \/ fl_type r = F_WRLCK).

Lemma held_lock a i o x t : inode_ok a i -> held_by a i o x = Some t ->
  exists p f, p ∈ sh_list a i /\ sh_info a !! p = Some f /\ lock_of o f /\ fl_type f = t /\ fl_start f <= x <= fl_end f.
Proof.
  intros [(N & G & E & HG & HN) _ _] (s & e & Hin & Hx)%held_inv. unfold owner_ranges in Hin. apply list_elem_of_fmap in Hin as (p & Er & Hp). apply list_elem_of_filter in Hp as [Ho Hp].
  exists p. unfold owner_is in Ho. destruct (sh_info a !! p) as [f|] eqn:Ef; [|done]. exists f. rewrite (rng_at_Some _ _ _ Ef) in Er. injection Er as -> -> ->.
  apply andb_true_iff in Ho as [Ho1 Ho2]. split_and!; try done; try lia. rewrite E in Hp. apply elem_of_app in Hp as [Hp|Hp].
  - destruct (HN p Hp) as (g & Eg & Hg & _). rewrite Ef in Eg. injection Eg as <-. congruence.
  - apply elem_group in Hp as (o' & S & H1 & H2). destruct HG as [_ HG]. destruct (HG o' S H1) as (_ & K & _). destruct (K p H2) as (g & Eg & Hg1 & Hg2 & Hg3).
    rewrite Ef in Eg. injection Eg as <-. apply Z.eqb_eq in Ho2. by split_and!.
Qed.

Lemma lock_held a i p f o x : inode_ok a i -> p ∈ sh_list a i -> sh_info a !! p = Some f -> IS_POSIX f = true -> fl_owner f = o -> fl_start f <= x <= fl_end f ->
  held_by a i o x = Some (fl_type f) /\ lock_of o f.
Proof.
  intros [(N & G & E & HG & HN) _ _] Hp Ef Hf Ho Hx. rewrite E in Hp. apply elem_of_app in Hp as [Hp|Hp].
  { destruct (HN p Hp) as (g & Eg & Hg & _). rewrite Ef in Eg. injection Eg as <-. congruence. }
  apply elem_group in Hp as (o' & S & H1 & H2). pose proof HG as [_ HG']. destruct (HG' o' S H1) as (_ & K & KR). destruct (K p H2) as (g & Eg & Hg1 & Hg2 & Hg3).
  rewrite Ef in Eg. injection Eg as <-. assert (o' = o) as -> by congruence. split; [|done].
  apply list_elem_of_split in H1 as (G1 & G2 & EG). unfold held_by, owner_ranges. rewrite E, list.filter_app.
  rewrite (filter_none _ N); [|intros q Hq; destruct (HN q Hq) as (g & Eg & Hg & _); unfold owner_is; by rewrite Eg, Hg].
  cbn. rewrite (filter_group a G o S G1 G2 HG EG). apply (held_in _ None _ (fl_start f) (fl_end f)); [done| |done].
  apply list_elem_of_fmap. exists p. by rewrite (rng_at_Some _ _ _ Ef).
Qed.

Lemma posix_range a i p f : inode_ok a i -> p ∈ sh_list a i -> sh_info a !! p = Some f -> IS_POSIX f = true -> fl_start f <= fl_end f.
Proof.
  intros [(N & G & E & [_ HG] & HN) _ _] Hp Ef Hf. rewrite E in Hp. apply elem_of_app in Hp as [Hp|Hp]; [destruct (HN p Hp) as (g & Eg & Hg & _); congruence|].
  apply elem_group in Hp as (o & S & H1 & H2). destruct (HG o S H1) as (_ & _ & K).
  assert (rng f ∈ rng_at a <$> S) as Hin by (apply list_elem_of_fmap; exists p; by rewrite (rng_at_Some _ _ _ Ef)).
  revert K Hin. generalize (rng_at a <$> S), (@None (Z * Z)). intros l. induction l as [|[[t s] e] l IH]; intros prev K Hin; [by apply elem_of_nil in Hin|].
  destruct K as ((_ & Hr & _) & _ & K). apply elem_of_cons in Hin as [[= <- <- <-]|Hin]; [lia | by eapply IH].
Qed.

Lemma conflict_iff a i r : inode_ok a i -> plain r -> fl_start r <= fl_end r ->
  (exists p f, p ∈ sh_list a i /\ sh_info a !! p = Some f /\ IS_POSIX f = true /\ posix_locks_conflict r f = true) <-> conflicting a i r.
Proof.
  intros HI [Pr1 Pr2] Hr. unfold posix_locks_conflict, posix_same_owner, locks_overlap, locks_conflict. rewrite Pr2. change (truthy 0) with false. cbn [orb]. split.
  - intros (p & f & Hp & Ef & Hf & Hc). rewrite Hf in Hc. cbn [negb orb] in Hc. destruct (Z.eqb_spec (fl_owner r) (fl_owner f)) as [|Ho]; [done|].
    destruct (Z.leb_spec (fl_start f) (fl_end r)), (Z.leb_spec (fl_start r) (fl_end f)); try done. cbn [negb andb] in Hc.
    pose proof (posix_range a i p f HI Hp Ef Hf) as Hse.
    exists (fl_owner f), (Z.max (fl_start f) (fl_start r)), (fl_type f). destruct (lock_held a i p f (fl_owner f) (Z.max (fl_start f) (fl_start r)) HI Hp Ef Hf eq_refl) as [HH _]; [lia|].
    split_and!; [by apply not_eq_sym|lia|lia|done|]. destruct (Z.eqb_spec (fl_type f) F_WRLCK); [by left|]. destruct (Z.eqb_spec (fl_type r) F_WRLCK); [by right | done].
  - intros (o & x & t & Ho & Hx & HH & Ht). destruct (held_lock a i o x t HI HH) as (p & f & Hp & Ef & (H1 & H2 & H3) & H4 & H5). exists p, f. split_and!; [done..|].
    rewrite H1, H2. cbn [negb orb]. rewrite (proj2 (Z.eqb_neq (fl_owner r) o)) by (by apply not_eq_sym).
    rewrite (proj2 (Z.leb_le (fl_start f) (fl_end r))), (proj2 (Z.leb_le (fl_start r) (fl_end f))) by lia. cbn [negb andb].
    destruct Ht as [-> | ->]; [by rewrite H4, Z.eqb_refl|]. rewrite Z.eqb_refl. by destruct (fl_type f =? F_WRLCK).
Qed.
End Table.
