(* ===== verification/LocksFile.v ===== *)
(** * File locks: setting a range

    The part of [__posix_lock_file] that no lock of another owner stands in the
    way of, from a table that is in order: which bytes the owner holds when it is
    done, what becomes of the other locks, and that the table stays in order. *)

From stdpp Require Import gmap functions.
From S2P Require Import Prelude Locks LocksIntervals LocksRepr LocksSteps LocksEvolve LocksPosix LocksState.
From stdpp Require Import list.
Open Scope Z_scope.
Open Scope c_scope.

(** Two splits of a list at the first element of a kind are the same. *)
Lemma first_split {A} (P : A -> Prop) (l1 l1' : list A) x y l2 l2' : l1 ++ x :: l2 = l1' ++ y :: l2' ->
  P x -> P y -> (forall z, z ∈ l1 -> ~ P z) -> (forall z, z ∈ l1' -> ~ P z) -> l1 = l1' /\ x = y /\ l2 = l2'.
Proof.
  revert l1'. induction l1 as [|z l1 IH]; intros [|z' l1'] E Hx Hy H1 H2; cbn in E; injection E.
  - by intros -> ->.
  - intros _ ->. destruct (H2 z'); [list_solver | done].
  - intros _ <-. destruct (H1 z); [list_solver | done].
  - intros E' ->. destruct (IH l1' E' Hx Hy) as (-> & -> & ->); [set_solver | set_solver | done].
Qed.

Section Calls.
Context {ops : LockOps}.

Lemma owner_ranges_split a i o N G : sh_list a i = N ++ group_locks G -> groups_ok a G ->
  (forall p, p ∈ N -> exists f, sh_info a !! p = Some f /\ flock_ok f) ->
  (forall G1 S G2, G = G1 ++ (o, S) :: G2 -> owner_ranges a i o = rng_at a <$> S) /\ (o ∉ G.*1 -> owner_ranges a i o = []).
Proof.
  intros E HG HN. unfold owner_ranges. rewrite E, list.filter_app.
  rewrite (filter_none _ N); [|intros q Hq; destruct (HN q Hq) as (g & Eg & Hg & _); unfold owner_is; by rewrite Eg, Hg]. split.
  - intros G1 S G2 EG. cbn. by rewrite (filter_group a G o S G1 G2 HG EG).
  - intros Ho. cbn. by rewrite (filter_no_group a G o HG Ho).
Qed.

(** A request as the callers make it. *)
Record request (a : shape) (rq : Z) (r : file_lock) : Prop := {
  rq_info : sh_info a !! rq = Some r;
  rq_idle : idle a rq;
  rq_posix : IS_POSIX r = true;
  rq_plain : plain r;
  rq_type : fl_type r = F_RDLCK \/ fl_type r = F_WRLCK \/ fl_type r = F_UNLCK;
  rq_range : 0 <= fl_start r <= fl_end r /\ fl_end r <= OFFSET_MAX
}.

Lemma test_owner r f : plain r -> negb (negb (IS_POSIX f) || negb (posix_same_owner r f)) = IS_POSIX f && (fl_owner f =? fl_owner r).
Proof.
  intros [_ E]. unfold posix_same_owner. rewrite E. change (truthy 0) with false. rewrite negb_orb, !negb_involutive. by rewrite Z.eqb_sym.
Qed.

(** Where the owner's locks are: the slot that the search finds. *)
Lemma scan_start w a i rq r n1 n2 : locks_inv w a -> request a rq r -> spare a n1 -> spare a n2 -> (n1 = 0 \/ n1 <> n2 /\ n1 <> rq) -> (n2 = 0 \/ n2 <> rq) ->
  exists N G1 S G2 hit, sh_list a i = (N ++ group_locks G1) ++ S ++ group_locks G2 /\
    (forall p, p ∈ N -> exists f, sh_info a !! p = Some f /\ flock_ok f) /\
    (S = [] /\ G2 = [] /\ (fl_owner r ∉ G1.*1) /\ groups_ok a G1 \/ groups_ok a (G1 ++ (fl_owner r, S) :: G2)) /\
    find_lock w (Head i) (fun f => Some (negb (negb (IS_POSIX f) || negb (posix_same_owner r f)))) = Some (slot_after i (N ++ group_locks G1), hit) /\
    scanning i (fl_owner r) (fl_type r) (group_locks G2) w a (N ++ group_locks G1) S rq 0 false false r n1 n2.
Proof.
  intros [Gd T] RQ Sp1 Sp2 Hn1 Hn2. pose proof Gd as (R & W & Q). destruct (tb_inode a T i) as [(N & G & E & HG & HN) _ _].
  set (o := fl_owner r). set (test := fun f => Some (negb (negb (IS_POSIX f) || negb (posix_same_owner r f)))).
  assert (forall f, test f = Some (IS_POSIX f && (fl_owner f =? o))) as Et by (intros f; unfold test; by rewrite (test_owner r f (rq_plain _ _ _ RQ))).
  destruct (find_lock_ok w a i test R W) as (pre & post & hit & Hf & Epp & Efind). { intros f. rewrite !Et. by destruct f. }
  assert (forall p f, sh_info a !! p = Some f -> test f = Some true <-> owner_is a o p = true) as Hto.
  { intros p f Ef. rewrite Et. unfold owner_is. rewrite Ef. split; congruence. }
  assert (forall p, p ∈ N -> owner_is a o p = false) as HNo by (intros p Hp; destruct (HN p Hp) as (g & Eg & Hg & _); unfold owner_is; by rewrite Eg, Hg).
  assert (forall G', (forall x, x ∈ G' -> x ∈ G) -> o ∉ G'.*1 -> forall p, p ∈ group_locks G' -> owner_is a o p = false) as HGo.
  { intros G' Hsub Ho p (o' & S' & H1 & H2)%elem_group. destruct (proj2 HG o' S') as (_ & K & _); [by apply Hsub|]. rewrite (owned_is a o' p) by (by apply K).
    apply Z.eqb_neq. intros ->. apply Ho. apply list_elem_of_fmap. by exists (o, S'). }
  assert (forall pre S G2 hit', sh_list a i = pre ++ S ++ group_locks G2 -> (forall p, p ∈ S -> owned a o p) -> ranges_ok None (rng_at a <$> S) ->
    (forall p, head (group_locks G2) = Some p -> exists f, sh_info a !! p = Some f /\ fl_owner f <> o) ->
    find_lock w (Head i) test = Some (slot_after i pre, hit') ->
    scanning i o (fl_type r) (group_locks G2) w a pre S rq 0 false false r n1 n2) as Hscan.
  { intros pre' S G2 hit' El HS HR HP _. destruct RQ as [Q1 Q2 Q3 Q4 Q5 Q6]. split; try done; by left. }
  destruct (decide (o ∈ G.*1)) as [Ho|Ho].
  - apply list_elem_of_fmap in Ho as ([o' S] & Eo & Hin). cbn in Eo. subst o'. apply list_elem_of_split in Hin as (G1 & G2 & EG).
    pose proof HG as [HGn HGs]. destruct (HGs o S) as (S1 & S2 & S3); [rewrite EG; list_solver|].
    rewrite EG, fmap_app in HGn. cbn in HGn. apply NoDup_app in HGn as (_ & D1 & D2). apply NoDup_cons in D2 as [D2 _].
    assert (sh_list a i = (N ++ group_locks G1) ++ S ++ group_locks G2) as El by (rewrite E, EG, group_locks_app, <- app_assoc; done).
    destruct S as [|p0 S0] eqn:ES; [done|].
    assert (pre = N ++ group_locks G1) as Epre.
    { assert (owner_is a o p0 = true) as Hp0 by (rewrite (owned_is a o p0) by (apply S2; list_solver); apply Z.eqb_refl).
      assert (forall p, p ∈ N ++ group_locks G1 -> ~ owner_is a o p = true) as Hno.
      { intros p [Hp|Hp]%elem_of_app; [by rewrite HNo|]. rewrite (HGo G1); [done| |set_solver|done]. intros x Hx. rewrite EG. set_solver. }
      inversion Hf as [Hall Epr|pre' p post' f Es Hpre Ef Htf Epr]; subst.
      - exfalso. destruct (S2 p0 ltac:(list_solver)) as (f & Ef & _). assert (p0 ∈ sh_list a i) as Hin by (rewrite El; list_solver).
        pose proof (Hall p0 f Hin Ef) as K. apply (Hto p0 f Ef) in Hp0. congruence.
      - assert (test f = Some true) as Htf' by (rewrite Et in Htf |- *; destruct (IS_POSIX f && (fl_owner f =? o)); congruence).
        destruct (first_split (fun p => owner_is a o p = true) pre (N ++ group_locks G1) p p0 post' (S0 ++ group_locks G2)) as (K & _); try done.
        + rewrite <- Es. by rewrite El.
        + by apply (Hto p f Ef).
        + intros z Hz Hoz. assert (is_Some (sh_info a !! z)) as [g Eg] by (apply (wf_listed a W i); rewrite Es; list_solver). pose proof (Hpre z g Hz Eg) as K. apply (Hto z g Eg) in Hoz. congruence. }
    subst pre. exists N, G1, (p0 :: S0), G2, hit. split; [done|]. split; [done|]. split; [right; by rewrite <- EG|]. split; [done|].
    eapply Hscan; try done. intros p Hp. assert (p ∈ group_locks G2) as Hp2 by (destruct (group_locks G2); [done | injection Hp as ->; list_solver]).
    apply elem_group in Hp2 as (o' & S' & H1 & H2). destruct (HGs o' S') as (_ & K & _); [rewrite EG; list_solver|]. destruct (K p H2) as (f & Ef & _ & Hof & _). exists f. split; [done|].
    intros Eo. apply D2. apply list_elem_of_fmap. exists (o', S'). split; [cbn; congruence | done].
  - assert (pre = sh_list a i) as Epre.
    { inversion Hf as [Hall Epr|pre' p post' f Es Hpre Ef Htf Epr]; subst; [done|]. exfalso. apply Htf. rewrite Et. f_equal.
      assert (p ∈ sh_list a i) as Hp by (rewrite Es; list_solver). rewrite E in Hp. apply elem_of_app in Hp as [Hp|Hp].
      - specialize (HNo p Hp). unfold owner_is in HNo. by rewrite Ef in HNo.
      - specialize (HGo G ltac:(done) Ho p Hp). unfold owner_is in HGo. by rewrite Ef in HGo. }
    subst pre. exists N, G, [], [], hit. split; [by rewrite E; cbn; rewrite app_nil_r|]. split; [done|]. split; [by left|]. rewrite <- E. split; [done|].
    eapply (Hscan (sh_list a i) [] []); try done; [by rewrite !app_nil_r | by intros ? ?%elem_of_nil].
Qed.

Lemma overlap_held l s e prev : ranges_ok prev l -> s <= e ->
  overlap s e l = true <-> exists x t, s <= x <= e /\ held l x = Some t.
Proof.
  intros H Hs. unfold overlap. rewrite existsb_exists. split.
  - intros ([[t s'] e'] & Hin%list_elem_of_In & [K1%Z.leb_le K2%Z.leb_le]%andb_true_iff). exists (Z.max s s'), t.
    assert (s' <= e').
    { clear -H Hin. revert prev H. induction l as [|[[t1 s1] e1] l IH]; intros prev H; [by apply elem_of_nil in Hin|]. destruct H as ((_ & Hr & _) & _ & H).
      apply elem_of_cons in Hin as [[= -> -> ->]|Hin]; [lia | by eapply IH]. }
    split; [lia|]. apply (held_in l prev t s' e'); [done..|lia].
  - intros (x & t & Hx & (s' & e' & Hin & Hx')%held_inv). exists (t, s', e'). split; [by apply list_elem_of_In|]. apply andb_true_iff. rewrite !Z.leb_le. lia.
Qed.

Lemma held_type a i o x t : inode_ok a i -> held_by a i o x = Some t -> t = F_RDLCK \/ t = F_WRLCK.
Proof.
  intros [(N & G & E & HG & HN) _ _] H. destruct (owner_ranges_split a i o N G E HG HN) as [H1 H2]. unfold held_by in H.
  assert (ranges_ok None (owner_ranges a i o)) as K.
  { destruct (decide (o ∈ G.*1)) as [Ho|Ho]; [|by rewrite (H2 Ho)]. apply list_elem_of_fmap in Ho as ([o' S] & Eo & Hin). cbn in Eo. subst o'.
    destruct (proj2 HG o S Hin) as (_ & _ & KR). apply list_elem_of_split in Hin as (G1 & G2 & EG). by rewrite (H1 G1 S G2 EG). }
  destruct (held_inv _ _ _ H) as (s & e & Hin & _). revert K Hin. generalize (owner_ranges a i o), (@None (Z * Z)). intros l. induction l as [|[[t1 s1] e1] l IH]; intros prev K Hin; [by apply elem_of_nil in Hin|].
  destruct K as ((Hr & _) & _ & K). apply elem_of_cons in Hin as [[= -> -> ->]|Hin]; [done | by eapply IH].
Qed.

(** The request's bytes in the abstract state. *)
Definition covers (r : file_lock) (o x : Z) : bool := (o =? fl_owner r) && (fl_start r <=? x) && (x <=? fl_end r).
Definition set_bytes (r : file_lock) (h : Z -> Z -> option Z) (o x : Z) : option Z :=
  if covers r o x then (if fl_type r =? F_UNLCK then None else Some (fl_type r)) else h o x.

(** Setting or clearing a lock that nobody is in the way of. *)
Lemma posix_set_ok w a i nspid rq r n1 n2 : locks_inv w a -> request a rq r -> spare a n1 -> spare a n2 -> (n1 = 0 \/ n1 <> n2 /\ n1 <> rq) -> (n2 = 0 \/ n2 <> rq) ->
  (fl_type r = F_UNLCK \/ ~ conflicting a i r) ->
  exists w' err n1' n2' a',
    ('(before, _) ← find_lock w (Head i) (fun f => Some (negb (negb (IS_POSIX f) || negb (posix_same_owner r f))));
     s ← c_loop (locks_fuel w) posix_step (PosixScan w before rq 0 0 false);
     posix_finish nspid n1 n2 s) = Some (w', err, n1', n2') /\
    locks_inv w' a' /\ evolves a a' /\ left_over a' n1 n1' /\ left_over a' n2 n2' /\
    (err = - ENOLCK /\ a' = a /\ (n1 = 0 /\ fl_type r <> F_UNLCK \/ n2 = 0 /\ 0 < fl_start r) \/
     err = scan_error (fl_type r) false r (owner_ranges a i (fl_owner r)) /\
     owner_ranges a' i (fl_owner r) = place (fl_type r) (fl_start r) (fl_end r) (owner_ranges a i (fl_owner r)) /\
     (forall o x, held_by a' i o x = set_bytes r (held_by a i) o x) /\
     (forall j o, j <> i \/ o <> fl_owner r -> owner_ranges a' j o = owner_ranges a j o) /\
     (forall p, p ∉ [rq; n1; n2] -> ~ listed a p -> sh_info a' !! p = sh_info a !! p) /\ (forall p, listed a' p -> listed a p \/ p = n1 \/ p = n2) /\
     (exists r', sh_info a' !! rq = Some r' /\ plain r')).
Proof.
  intros INV RQ Sp1 Sp2 Hn1 Hn2 Hc. pose proof INV as [Gd T]. pose proof Gd as (R & W & Q).
  destruct (scan_start w a i rq r n1 n2 INV RQ Sp1 Sp2 Hn1 Hn2) as (N & G1 & S & G2 & hit & El & HN & HG & Efind & SC). rewrite Efind, bind_Some_eq.
  set (o := fl_owner r) in *. set (t := fl_type r) in *. set (pre := N ++ group_locks G1) in *.
  pose proof (scan_ok i o t nspid (group_locks G2) S w a pre rq 0 false false r n1 n2 (locks_fuel w) SC) as HS. rewrite app_nil_r in HS.
  destruct HS as (w' & err & n1' & n2' & a' & E & G' & V & L1 & L2 & H).
  { intros [|[]]; done. }
  { unfold locks_fuel. pose proof (chain_length w _ _ (r_chain w a R i) (wf_nodup a W i)) as K. rewrite El, !length_app in K. lia. }
  exists w', err, n1', n2', a'. split; [exact E|].
  destruct (rq_range _ _ _ RQ) as [Hr1 Hr2].
  assert (exists G, G = G1 ++ (match S with [] => [] | _ => [(o, S)] end) ++ G2 /\ groups_ok a G /\ sh_list a i = N ++ group_locks G) as (G & EG & HGG & ElG).
  { exists (G1 ++ (match S with [] => [] | _ => [(o, S)] end) ++ G2). split; [done|]. destruct HG as [(-> & -> & Ho & HG)|HG].
    - cbn in El |- *. rewrite app_nil_r in El |- *. by split.
    - destruct S as [|p0 S0] eqn:ES; [destruct (proj2 HG o []) as (K & _); [list_solver | done]|]. split; [done|]. rewrite El. unfold pre. by rewrite group_locks_app, <- app_assoc. }
  destruct (owner_ranges_split a i o N G ElG HGG HN) as [OR1 OR2].
  assert (owner_ranges a i o = rng_at a <$> S) as ORo.
  { destruct HG as [(-> & -> & Ho & HG)|HG]; [apply OR2; rewrite EG; cbn; by rewrite app_nil_r|].
    destruct S as [|p0 S0] eqn:ES; [destruct (proj2 HG o []) as (K & _); [list_solver | done]|]. by apply (OR1 G1 _ G2). }
  destruct H as [(-> & -> & Hnn & _ & _) | (-> & [(news & N1 & N2 & N3) O1 _ O3 O4 O5])].
  { split; [by split|]. split; [done|]. split; [done|]. split; [done|]. by left. }
  rewrite ORo.
  assert (forall p, p ∉ [rq; n1; n2] -> p ∉ S -> sh_info a' !! p = sh_info a !! p) as F.
  { intros p Hp HpS. destruct (decide (p = 0)) as [->|]; [rewrite (wf_null a W); apply (wf_null _ (proj1 (proj2 G')))|]. apply O3; [list_solver | done]. }
  assert (forall p, listed a p -> p ∉ [rq; n1; n2]) as Hli.
  { intros p [j Hj] Hp. assert (forall n, spare a n -> p <> n) as K.
    { intros n [->|[(_ & K & _) _]] ->; [apply (wf_listed a W) in Hj; rewrite (wf_null a W) in Hj; by destruct Hj | apply K; by exists j]. }
    destruct (rq_idle _ _ _ RQ) as (_ & Kr & _). rewrite !elem_of_cons in Hp. destruct Hp as [->|[->|[->|Hp%elem_of_nil]]]; [apply Kr; by exists j | by destruct (K n1) | by destruct (K n2) | done]. }
  assert (forall p, p ∈ pre -> sh_info a' !! p = sh_info a !! p) as Fpre.
  { intros p Hp. apply F; [apply Hli; exists i; rewrite El; list_solver|]. intros HpS. pose proof (wf_nodup a W i) as Nd. rewrite El in Nd. apply NoDup_app in Nd as (_ & Nd & _). apply (Nd p Hp). list_solver. }
  assert (forall p, p ∈ group_locks G2 -> sh_info a' !! p = sh_info a !! p) as Fpost.
  { intros p Hp. apply F; [apply Hli; exists i; rewrite El; list_solver|]. intros HpS. pose proof (wf_nodup a W i) as Nd. rewrite El in Nd. apply NoDup_app in Nd as (_ & _ & Nd).
    apply NoDup_app in Nd as (_ & Nd & _). by apply (Nd p HpS). }
  assert (ranges_ok None (rng_at a' <$> news)) as HRn.
  { rewrite N2. apply place_ranges; [apply (sn_ranges _ _ _ _ _ _ _ _ _ _ _ _ _ _ _ SC)| |lia|done]. destruct (rq_type _ _ _ RQ) as [K|[K|K]]; unfold t; rewrite K; [right|right|by left]; split; auto; by left + right. }
  assert (exists G', groups_ok a' G' /\ sh_list a' i = N ++ group_locks G' /\ (news = [] -> o ∉ G'.*1) /\ (news <> [] -> exists G1' G2', G' = G1' ++ (o, news) :: G2'))
    as (GG & HGG' & ElG' & Hg0 & Hg1).
  { destruct HG as [(ES & EG2 & Ho & HG)|HG].
    - subst S G2. destruct (groups_add a a' G1 o news HG Ho) as (G0 & K1 & K2 & K3 & K4); [intros p Hp; apply Fpre; unfold pre; list_solver|done..|].
      exists G0. split; [done|]. split; [rewrite N1, K2; unfold pre; cbn; by rewrite app_nil_r, <- app_assoc|]. split; [intros K; by rewrite K3|]. intros K. exists G1, []. by apply K4.
    - destruct (groups_replace a a' G1 o S G2 news HG) as (G0 & K1 & K2 & K3 & K4); [intros p [Hp|Hp]; [apply Fpre; unfold pre; list_solver | by apply Fpost]|done..|].
      exists G0. split; [done|]. split; [rewrite N1, K2; unfold pre; by rewrite <- app_assoc|]. split; [|intros K; exists G1, G2; by apply K4].
      intros K. rewrite (K3 K). destruct HG as [HG _]. rewrite fmap_app in HG |- *. cbn in HG. apply NoDup_app in HG as (_ & M1 & M2). apply NoDup_cons in M2 as [M2 _]. set_solver. }
  assert (forall p, p ∈ N -> exists f, sh_info a' !! p = Some f /\ flock_ok f) as HN'.
  { intros p Hp. rewrite Fpre by (unfold pre; list_solver). by apply HN. }
  destruct (owner_ranges_split a' i o N GG ElG' HGG' HN') as [OR1' OR2'].
  assert (owner_ranges a' i o = rng_at a' <$> news) as ORo'.
  { destruct (decide (news = [])) as [->|Hne]; [by apply OR2', Hg0|]. destruct (Hg1 Hne) as (G1' & G2' & K). by apply (OR1' G1' news G2'). }
  assert (forall p, p ∈ S -> owned a o p) as HSo by apply (sn_rest _ _ _ _ _ _ _ _ _ _ _ _ _ _ _ SC).
  assert (forall o', o' <> o -> owner_ranges a' i o' = owner_ranges a i o') as ORi.
  { intros o' Ho'. unfold owner_ranges. rewrite N1, El, !list.filter_app.
    rewrite (filter_none _ news), (filter_none _ S); [|intros p Hp; rewrite (owned_is a o p) by (by apply HSo); rewrite (proj2 (Z.eqb_neq o o')); [done | by apply not_eq_sym]|
      intros p Hp; rewrite (owned_is a' o p) by (by apply N3); rewrite (proj2 (Z.eqb_neq o o')); [done | by apply not_eq_sym]].
    assert (forall l : list Z, (forall p, p ∈ l -> sh_info a' !! p = sh_info a !! p) -> rng_at a' <$> filter (fun p => owner_is a' o' p = true) l = rng_at a <$> filter (fun p => owner_is a o' p = true) l) as Ef.
    { intros l Fl. induction l as [|p l IH]; [done|]. assert (owner_is a' o' p = owner_is a o' p) as Eo by (unfold owner_is; rewrite Fl; [done | list_solver]).
      specialize (IH ltac:(intros q Hq; apply Fl; list_solver)). destruct (owner_is a o' p) eqn:Ep; [rewrite !filter_cons_True by congruence | rewrite !filter_cons_False by congruence; done].
      cbn. rewrite IH. unfold rng_at at 1 3. by rewrite Fl by list_solver. }
    cbn. rewrite !fmap_app. by rewrite !Ef. }
  assert (forall j p, j <> i -> p ∈ sh_list a j -> sh_info a' !! p = sh_info a !! p) as Fj.
  { intros j p Hj Hp. apply F; [apply Hli; by exists j|]. intros HpS. apply Hj. apply (wf_disj a W j i p Hp). rewrite El. list_solver. }
  assert (forall j o', j <> i -> owner_ranges a' j o' = owner_ranges a j o') as ORj.
  { intros j o' Hj. apply owner_ranges_ext; [by apply O1 | intros p Hp; by apply (Fj j)]. }
  assert (forall o' x, held_by a' i o' x = set_bytes r (held_by a i) o' x) as HB.
  { intros o' x. unfold held_by, set_bytes, covers. fold o t. destruct (Z.eqb_spec o' o) as [->|Hn]; cbn [andb]; [|by rewrite ORi].
    rewrite ORo', N2, ORo. apply (place_held t _ _ _ x None); [apply (sn_ranges _ _ _ _ _ _ _ _ _ _ _ _ _ _ _ SC) | lia]. }
  split.
  - split; [done|]. split.
    + intros j. destruct (decide (j = i)) as [->|Hj]; [|apply (inode_ext a); [by apply O1 | intros p Hp; by apply (Fj j) | apply T]].
      pose proof (tb_inode a T i) as IO. destruct IO as [_ IP IF]. split.
      * by exists N, GG.
      * intros o1 o2 x t1 t2 Ho. rewrite !HB. unfold set_bytes. destruct (covers r o1 x) eqn:C1, (covers r o2 x) eqn:C2.
        -- unfold covers in *. apply andb_true_iff in C1 as [[C1%Z.eqb_eq _]%andb_true_iff _]. apply andb_true_iff in C2 as [[C2%Z.eqb_eq _]%andb_true_iff _]. congruence.
        -- fold t. destruct (Z.eqb_spec t F_UNLCK) as [|Hu]; [done|]. intros [= <-] H2. unfold covers in C1. apply andb_true_iff in C1 as [[C1%Z.eqb_eq C3%Z.leb_le]%andb_true_iff C4%Z.leb_le].
           destruct Hc as [|Hc]; [done|]. assert (t2 = F_RDLCK \/ t2 = F_WRLCK) as Ht2 by (apply (held_type a i o2 x t2 (tb_inode a T i) H2)).
           destruct (decide (t2 = F_WRLCK)) as [K|K]; [destruct Hc; exists o2, x, t2; split_and!; try done; [congruence | by left]|].
           destruct (decide (t = F_WRLCK)) as [K'|K']; [destruct Hc; exists o2, x, t2; split_and!; try done; [congruence | by right]|].
           destruct (rq_type _ _ _ RQ) as [K2|[K2|K2]]; fold t in K2; tauto.
        -- fold t. destruct (Z.eqb_spec t F_UNLCK) as [|Hu]; [done|]. intros H1 [= <-]. unfold covers in C2. apply andb_true_iff in C2 as [[C2%Z.eqb_eq C3%Z.leb_le]%andb_true_iff C4%Z.leb_le].
           destruct Hc as [|Hc]; [done|]. assert (t1 = F_RDLCK \/ t1 = F_WRLCK) as Ht1 by (apply (held_type a i o1 x t1 (tb_inode a T i) H1)).
           destruct (decide (t1 = F_WRLCK)) as [K|K]; [destruct Hc; exists o1, x, t1; split_and!; try done; [congruence | by left]|].
           destruct (decide (t = F_WRLCK)) as [K'|K']; [destruct Hc; exists o1, x, t1; split_and!; try done; [congruence | by right]|].
           destruct (rq_type _ _ _ RQ) as [K2|[K2|K2]]; fold t in K2; tauto.
        -- by apply IP.
      * assert (forall p f, p ∈ sh_list a' i -> sh_info a' !! p = Some f -> IS_POSIX f = false -> p ∈ sh_list a i /\ sh_info a !! p = Some f) as Hin.
        { intros p f Hp Ef Hf. rewrite ElG' in Hp. apply elem_of_app in Hp as [Hp|Hp].
          - split; [rewrite El; unfold pre; list_solver|]. rewrite Fpre in Ef by (unfold pre; list_solver). done.
          - apply elem_group in Hp as (o' & S' & M1 & M2). destruct (proj2 HGG' o' S' M1) as (_ & K & _). destruct (K p M2) as (g & Eg & Hg & _). congruence. }
        intros p q f g Hp Hq Ef Eg Hf Hg. destruct (Hin p f Hp Ef Hf), (Hin q g Hq Eg Hg). by apply (IF p q).
    + apply (blocks_evolve a); [done | apply T].
  - split; [done|]. split; [done|]. split; [done|]. right. split; [done|]. split; [by rewrite ORo', N2|]. split; [done|]. split.
    + intros j o' [Hj|Ho']; [by apply ORj|]. destruct (decide (j = i)) as [->|]; [by apply ORi | by apply ORj].
    + split; [intros p Hp Hl; apply F; [done|]; intros HpS; apply Hl; exists i; rewrite El; list_solver|]. split.
      * intros p [j Hj]. assert (p <> 0) as Hp0 by (intros ->; apply (wf_listed a' (proj1 (proj2 G'))) in Hj; rewrite (wf_null a' (proj1 (proj2 G'))) in Hj; by destruct Hj).
        destruct (decide (j = i)) as [->|Hji]; [destruct (O4 p Hj Hp0) as [|]; [left; by exists i | by right] | left; exists j; by rewrite <- O1].
      * destruct O5 as (f & Ef & _ & _ & Pf); [apply (rq_idle _ _ _ RQ)|exists r; split; [apply RQ | split_and!; [apply RQ | done | apply RQ]] | by exists f].
Qed.
End Calls.
