(* ===== verification/LocksCalls.v ===== *)
(** * File locks: around the scan of [__posix_lock_file]

    The search for deadlocks, and the allocation and release of structures. *)

From stdpp Require Import gmap functions.
From S2P Require Import Prelude Locks LocksIntervals LocksRepr LocksSteps LocksEvolve LocksPosix LocksState LocksFile.
From stdpp Require Import list.
Open Scope Z_scope.
Open Scope c_scope.

Section Calls.
Context {ops : LockOps}.

(** ** Idle structures *)

Lemma idle_get w a p f : repr w a -> idle a p -> sh_info a !! p = Some f -> get w p = Some f.
Proof.
  intros R (_ & Hl & Hw & Hq) Ef. destruct (repr_get w a p f R Ef) as (h & Eh & -> & Hb). rewrite Eh. f_equal.
  pose proof (r_idle w a R p h Eh Hl Hw) as Hn. rewrite Hq in Hb. destruct h. cbn in *. by subst.
Qed.

Lemma spare_listed w a n p : locks_inv w a -> spare a n -> listed a p -> p <> n.
Proof.
  intros [(_ & W & _) _] [->|[(_ & K & _) _]] Hp ->; [|done]. destruct Hp as [i Hi]. apply (wf_listed a W) in Hi. rewrite (wf_null a W) in Hi. by destruct Hi.
Qed.

(** Changes to structures that are in no list leave the table in order. *)
Lemma table_frame a a' : table_ok a -> evolves a a' -> (forall i, sh_list a' i = sh_list a i) -> (forall p, listed a p -> sh_info a' !! p = sh_info a !! p) -> table_ok a'.
Proof.
  intros [T1 T2] V EL F. split.
  - intros i. apply (inode_ext a); [apply EL | intros p Hp; apply F; by exists i | apply T1].
  - by apply (blocks_evolve a).
Qed.

Lemma free_unused_ok w a n : locks_inv w a -> spare a n ->
  exists w' a', free_unused w n = Some w' /\ locks_inv w' a' /\ evolves a a' /\ (forall i, sh_list a' i = sh_list a i) /\
    (forall p, p <> n -> sh_info a' !! p = sh_info a !! p) /\ (forall m, m <> n -> spare a m -> spare a' m) /\ sh_info a' !! n = None /\
    (forall b, sh_queue a' b = sh_queue a b) /\ sh_blocked a' = sh_blocked a /\ sh_all a' = sh_all a /\ sh_events a' = sh_events a.
Proof.
  intros INV Sp. pose proof INV as [G T]. pose proof G as (R & W & Q). unfold free_unused. destruct (truthy n) eqn:En.
  - apply truthy_true in En. destruct Sp as [|[I (f & Ef & Pf)]]; [done|]. destruct (step_free w a n f G Ef Pf I) as (w' & E & G' & V).
    assert (forall p, p <> n -> sh_info (sh_free a n) !! p = sh_info a !! p) as F by (intros p Hp; simpl; by simplify_map_eq).
    exists w', (sh_free a n). split; [done|]. split; [split; [done|]|].
    { apply (table_frame a); try done. intros p Hp. apply F. by apply (spare_listed w a n p INV); [right; split; [done | by exists f] | done]. }
    split_and!; try done; [|simpl; by simplify_map_eq].
    intros m Hm [->|[(I1 & I2) (g & Eg & Pg)]]; [by left | right]. split; [|exists g; by rewrite F]. split; [by rewrite F | done].
  - apply truthy_false in En. exists w, a. split_and!; try done; [by apply evolves_refl|]. subst. apply (wf_null a W).
Qed.

(** ** Allocation *)

Definition alloc_result (a : shape) (x : option (Z * file_lock)) : Prop :=
  match x with Some (p, f) => alloc_ok a p f /\ plain f | None => True end.

Definition alloc_ptr (x : option (Z * file_lock)) : Z := match x with Some (p, _) => p | None => 0 end.

Lemma alloc_step w a x : locks_inv w a -> alloc_result a x ->
  exists w' a', locks_alloc_lock w x = (w', alloc_ptr x) /\ locks_inv w' a' /\ evolves a a' /\ spare a' (alloc_ptr x) /\
    (forall i, sh_list a' i = sh_list a i) /\ (forall b, sh_queue a' b = sh_queue a b) /\ sh_blocked a' = sh_blocked a /\ sh_all a' = sh_all a /\ sh_events a' = sh_events a /\
    (forall p, alloc_ptr x = 0 \/ p <> alloc_ptr x -> sh_info a' !! p = sh_info a !! p) /\ (alloc_ptr x <> 0 -> sh_info a !! alloc_ptr x = None).
Proof.
  intros INV Hx. pose proof INV as [G T]. pose proof G as (R & W & Q). destruct x as [[p f]|]; cbn.
  - destruct Hx as [Ha Pf]. pose proof Ha as (Hp & En & Hn & Hb). destruct (fresh_facts a p W Q En) as (F1 & F2 & F3).
    assert (evolves a (sh_set a p (strip f))) as V by (by apply evolves_set).
    assert (forall q, q <> p -> sh_info (sh_set a p (strip f)) !! q = sh_info a !! q) as F by (intros q Hq; simpl; by simplify_map_eq).
    exists (put w p f), (sh_set a p (strip f)). split; [done|]. split; [split|].
    + split; [by apply put_ok|]. split; [|done]. apply wf_set; try done. intros g Eg. congruence.
    + apply (table_frame a); try done. intros q Hq. apply F. intros ->. done.
    + split_and!; try done; [|intros q [->|Hq]; [done | by apply F]]. right. split; [split_and!; try done; simpl; simplify_map_eq; eauto|]. exists (strip f). simpl. simplify_map_eq. split; [done|]. by destruct f.
  - exists w, a. split_and!; try done; [by apply evolves_refl | by left].
Qed.

(** ** Deadlocks *)

Fixpoint first_blocked (w : locks) (o : Z) (l : list Z) : option Z :=
  match l with
  | [] => None
  | p :: l => match get w p with Some f => if fl_owner f =? o then Some (fl_next f) else first_blocked w o l | None => None end
  end.

(** The owner that [o] waits for, by the first of its requests on the list. *)
Definition waits_for (w : locks) (o : Z) : option Z := b ← first_blocked w o (blocked_list w); f ← get w b; Some (fl_owner f).

Fixpoint reaches (w : locks) (n : nat) (o target : Z) : bool :=
  match n with
  | O => false
  | S n => match waits_for w o with Some o' => (o' =? target) || reaches w n o' target | None => false end
  end.

Lemma blocked_facts w a q : locks_inv w a -> q ∈ blocked_list w ->
  exists f b fb, get w q = Some f /\ plain f /\ fl_next f = b /\ b <> 0 /\ get w b = Some fb /\ plain fb /\ IS_POSIX fb = true.
Proof.
  intros [(R & W & Q) T] Hq. rewrite (r_blocked w a R) in Hq. apply (wf_blocked a W) in Hq as (b & gb & Eb & Hb & Hin).
  destruct (wf_waiter a W b q Hin) as ([gq Eq] & _ & _). destruct (tb_blocks a T b q gb gq Hin Eb Eq) as [K _]. destruct (K Hb) as [Pq _].
  destruct (repr_get w a q gq R Eq) as (f & Ef & -> & _). destruct (repr_get w a b gb R Eb) as (fb & Efb & -> & _).
  exists f, b, fb. assert (listed a b) as [i Hi] by (apply Q; intros E; rewrite E in Hin; by apply elem_of_nil in Hin).
  assert (plain fb) as Pb.
  { destruct (tb_inode a T i) as [(N & G & E & [_ HG] & HN) _ _]. rewrite E in Hi. apply elem_of_app in Hi as [Hi|Hi].
    - destruct (HN b Hi) as (g & Eg & Hg & _). rewrite Eb in Eg. injection Eg as <-. by destruct fb; cbn in *; congruence.
    - apply elem_group in Hi as (o' & S & H1 & H2). destruct (HG o' S H1) as (_ & K' & _). destruct (K' b H2) as (g & Eg & _ & _ & Pg). rewrite Eb in Eg. injection Eg as <-. by destruct fb. }
  split_and!; try done; [by destruct f|by apply (r_wait w a R q)|intros ->; by rewrite (wf_null a W) in Eb|by destruct fb].
Qed.

Lemma what_owner_ok w a b fb : locks_inv w a -> get w b = Some fb -> plain fb ->
  what_owner_is_waiting_for w b = Some (default 0 (first_blocked w (fl_owner fb) (blocked_list w))) /\
  (forall c, first_blocked w (fl_owner fb) (blocked_list w) = Some c -> c <> 0 /\ exists fc, get w c = Some fc /\ plain fc).
Proof.
  intros INV Eb Pb. unfold what_owner_is_waiting_for. rewrite Eb, bind_Some_eq.
  assert (forall q, q ∈ blocked_list w -> exists f b fb, get w q = Some f /\ plain f /\ fl_next f = b /\ b <> 0 /\ get w b = Some fb /\ plain fb /\ IS_POSIX fb = true)
    as HB by (intros q; by apply blocked_facts with a). revert HB. generalize (blocked_list w). intros l. induction l as [|p l IH]; intros HB; cbn; [done|].
  destruct (HB p ltac:(list_solver)) as (f & c & fc & Ef & [_ Pf] & En & Hc & Ec & Pc & _). rewrite Ef. cbn.
  unfold posix_same_owner. rewrite Pf. change (truthy 0) with false. cbn. destruct (Z.eqb_spec (fl_owner f) (fl_owner fb)) as [Eo|No].
  - rewrite En. split; [done|]. intros c' [= <-]. split; [done | by exists fc].
  - apply IH. intros q Hq. apply HB. list_solver.
Qed.

Lemma deadlock_ok w a rq r b fb : locks_inv w a -> get w rq = Some r -> plain r -> get w b = Some fb -> plain fb ->
  posix_locks_deadlock w rq b = Some (reaches w 11 (fl_owner fb) (fl_owner r)).
Proof.
  intros INV Er Pr Eb Pb. unfold posix_locks_deadlock. match goal with |- c_loop _ ?B _ = _ => set (body := B) end.
  assert (forall k b fb, get w b = Some fb -> plain fb -> body (k, b) =
    match first_blocked w (fl_owner fb) (blocked_list w) with
    | None => Some (inr false)
    | Some c => if MAX_DEADLK_ITERATIONS <? k then Some (inr false) else
        f ← get w c; if fl_owner f =? fl_owner r then Some (inr true) else Some (inl (k + 1, c))
    end) as Hbody.
  { intros k c fc Ec Pc. destruct (what_owner_ok w a c fc INV Ec Pc) as [E1 E2]. unfold body. rewrite E1, bind_Some_eq.
    destruct (first_blocked w (fl_owner fc) (blocked_list w)) as [d|]; [|done]. destruct (E2 d eq_refl) as (Hd & fd & Ed & Pd).
    change (default 0 (Some d)) with d. rewrite (proj2 (truthy_true d) Hd). cbn [negb]. rewrite Er, bind_Some_eq, Ed, !bind_Some_eq.
    unfold posix_same_owner. destruct Pr as [_ Pr]. rewrite Pr. change (truthy 0) with false. cbv iota. by rewrite Z.eqb_sym. }
  clearbody body.
  enough (forall n k b fb fuel, get w b = Some fb -> plain fb -> k = 11 - Z.of_nat n -> (n < fuel)%nat ->
    c_loop fuel body (k, b) = Some (reaches w n (fl_owner fb) (fl_owner r))) as H.
  { apply (H 11%nat 0 b fb); try done. unfold MAX_DEADLK_ITERATIONS. lia. }
  clear b fb Eb Pb. unfold MAX_DEADLK_ITERATIONS in Hbody.
  induction n as [|n IH]; intros k b fb fuel Eb Pb Hk Hf; (destruct fuel as [|fuel]; [lia|]); cbn [c_loop reaches]; rewrite (Hbody k b fb Eb Pb); unfold waits_for;
    pose proof (proj2 (what_owner_ok w a b fb INV Eb Pb)) as E2; destruct (first_blocked w (fl_owner fb) (blocked_list w)) as [c|]; try done.
  - by rewrite (proj2 (Z.ltb_lt 10 k)) by lia.
  - rewrite (proj2 (Z.ltb_ge 10 k)) by lia. destruct (E2 c eq_refl) as (Hc & fc & Ec & Pc). cbn. rewrite Ec. cbn.
    destruct (fl_owner fc =? fl_owner r); [done|]. apply (IH (k + 1) c fc fuel Ec Pc); lia.
Qed.

(** ** Around the scan *)

(** Both structures that were not used are freed. *)
Lemma free_both w a n1 n2 : locks_inv w a -> spare a n1 -> spare a n2 -> (n1 = 0 \/ n1 <> n2) ->
  exists w1 w' a', free_unused w n1 = Some w1 /\ free_unused w1 n2 = Some w' /\ locks_inv w' a' /\ evolves a a' /\
    (forall i, sh_list a' i = sh_list a i) /\ (forall b, sh_queue a' b = sh_queue a b) /\ sh_blocked a' = sh_blocked a /\ sh_all a' = sh_all a /\
    sh_events a' = sh_events a /\ (forall p, sh_info a' !! p = if decide (p = n1 \/ p = n2) then None else sh_info a !! p).
Proof.
  intros INV S1 S2 Hn. destruct (free_unused_ok w a n1 INV S1) as (w1 & a1 & E1 & I1 & V1 & L1 & F1 & M1 & N1 & Q1 & B1 & A1 & C1).
  assert (spare a1 n2) as S2' by (destruct (decide (n2 = n1)) as [->|Hne]; [destruct Hn as [->|]; [by left | done] | by apply M1]).
  destruct (free_unused_ok w1 a1 n2 I1 S2') as (w2 & a2 & E2 & I2 & V2 & L2 & F2 & M2 & N2 & Q2 & B2 & A2 & C2).
  exists w1, w2, a2. split; [done|]. split; [done|]. split; [done|]. split; [by eapply evolves_trans|].
  split_and!; try congruence.
  intros p. destruct (decide (p = n1 \/ p = n2)) as [[->| ->]|Hp]; [|done|rewrite F2 by tauto; apply F1; tauto].
  destruct (decide (n1 = n2)) as [->|]; [done|]. by rewrite F2.
Qed.

Lemma listed_same a a' p : (forall i, sh_list a' i = sh_list a i) -> listed a' p <-> listed a p.
Proof. intros E. split; intros [i Hi]; exists i; by rewrite E in *. Qed.
Lemma waits_same a a' p : (forall b, sh_queue a' b = sh_queue a b) -> waits a' p <-> waits a p.
Proof. intros E. split; intros [b Hb]; exists b; by rewrite E in *. Qed.

Lemma request_frame a a' rq r : (forall i, sh_list a' i = sh_list a i) -> (forall b, sh_queue a' b = sh_queue a b) -> sh_info a' !! rq = sh_info a !! rq ->
  request a rq r -> request a' rq r.
Proof.
  intros EL EQ EI [Q1 (I1 & I2 & I3 & I4) Q3 Q4 Q5 Q6]. split; try done; [congruence|]. split_and!; [by rewrite EI| | |by rewrite EQ].
  - by rewrite (listed_same a a').
  - by rewrite (waits_same a a').
Qed.

Lemma held_frame a a' i o x : (forall i, sh_list a' i = sh_list a i) -> (forall p, listed a p -> sh_info a' !! p = sh_info a !! p) -> held_by a' i o x = held_by a i o x.
Proof. intros EL F. unfold held_by. rewrite (owner_ranges_ext a); [done | apply EL | intros p Hp; apply F; by exists i]. Qed.

Lemma conflicting_frame a a' i r : (forall i, sh_list a' i = sh_list a i) -> (forall p, listed a p -> sh_info a' !! p = sh_info a !! p) -> conflicting a' i r <-> conflicting a i r.
Proof. intros EL F. unfold conflicting. split; intros (o & x & t & H); exists o, x, t; by rewrite (held_frame a a') in *. Qed.

Lemma reaches_frame w w' a n o target : locks_inv w a -> blocked_list w' = blocked_list w -> (forall p f, get w p = Some f -> get w' p = Some f) ->
  reaches w' n o target = reaches w n o target.
Proof.
  intros INV EB F. assert (forall o, waits_for w' o = waits_for w o) as E.
  { intros o'. unfold waits_for. rewrite EB.
    assert (forall q, q ∈ blocked_list w -> exists f b fb, get w q = Some f /\ plain f /\ fl_next f = b /\ b <> 0 /\ get w b = Some fb /\ plain fb /\ IS_POSIX fb = true)
      as HB by (intros q; by apply blocked_facts with a). revert HB. generalize (blocked_list w). intros l. induction l as [|p l IH]; intros HB; [done|]. cbn.
    destruct (HB p ltac:(list_solver)) as (f & b & fb & Ef & _ & En & _ & Eb & _). rewrite (F p f Ef), Ef. destruct (fl_owner f =? o'); [|apply IH; intros q Hq; apply HB; list_solver].
    cbn. rewrite En. by rewrite Eb, (F b fb Eb). }
  revert o. induction n as [|n IH]; intros o; [done|]. cbn. rewrite E. destruct (waits_for w o); [|done]. by rewrite IH.
Qed.
End Calls.
