(* ===== verification/LocksLockFile.v ===== *)
(** * File locks: [__posix_lock_file] as a whole

    Allocation, the test for conflicts, the search for deadlocks, the scan and
    the release of what was not used, composed as the code composes them. *)

From stdpp Require Import gmap functions.
From S2P Require Import Prelude Locks LocksIntervals LocksRepr LocksSteps LocksEvolve LocksPosix LocksState LocksFile LocksCalls.
From stdpp Require Import list.
Open Scope Z_scope.
Open Scope c_scope.

Section LockFile.
Context {ops : LockOps}.

(** ** Structures that come and go *)

(** Two shapes that differ in the data of the structures of [N] alone. *)
Record frame (N : list Z) (a a' : shape) : Prop := {
  fr_list i : sh_list a' i = sh_list a i;
  fr_queue b : sh_queue a' b = sh_queue a b;
  fr_blocked : sh_blocked a' = sh_blocked a;
  fr_all : sh_all a' = sh_all a;
  fr_events : sh_events a' = sh_events a;
  fr_info p : p ∉ N -> sh_info a' !! p = sh_info a !! p
}.

(** The two allocations: the structures are fresh and everything else stays. *)
Record allocated (w : locks) (a : shape) (w' : locks) (a' : shape) (n1 n2 : Z) : Prop := {
  al_inv : locks_inv w' a';
  al_evolves : evolves a a';
  al_frame : frame [n1; n2] a a';
  al_spare1 : spare a' n1;
  al_spare2 : spare a' n2;
  al_new1 : sh_info a !! n1 = None;
  al_new2 : sh_info a !! n2 = None;
  al_ne : n1 = 0 \/ n1 <> n2;
  al_get p f : get w p = Some f -> get w' p = Some f
}.

Lemma alloc_get w a x p f : repr w a -> alloc_result a x -> get w p = Some f -> get (locks_alloc_lock w x).1 p = Some f.
Proof.
  intros R Hx E. destruct x as [[q g]|]; [|done]. cbn. rewrite get_put, decide_False; [done|]. intros ->.
  destruct Hx as [(_ & K & _) _]. by rewrite (repr_dom w a _ f R E) in K.
Qed.

Lemma alloc_both w a x1 x2 : locks_inv w a -> alloc_result a x1 -> alloc_result a x2 -> (alloc_ptr x1 = 0 \/ alloc_ptr x1 <> alloc_ptr x2) ->
  exists w1 w2 a2, locks_alloc_lock w x1 = (w1, alloc_ptr x1) /\ locks_alloc_lock w1 x2 = (w2, alloc_ptr x2) /\ allocated w a w2 a2 (alloc_ptr x1) (alloc_ptr x2).
Proof.
  intros INV X1 X2 Hne. pose proof INV as [(R & W & Q) _].
  destruct (alloc_step w a x1 INV X1) as (w1 & a1 & E1 & I1 & V1 & S1 & L1 & Q1 & B1 & A1 & C1 & F1 & N1).
  assert (alloc_result a1 x2) as X2'.
  { destruct x2 as [[p f]|]; [|done]. destruct X2 as [(Y1 & Y2 & Y3) Pf]. split; [|done]. split; [done|]. split; [|done]. rewrite F1; [done|].
    destruct Hne as [->|Hne]; [by left | right]. by apply not_eq_sym. }
  destruct (alloc_step w1 a1 x2 I1 X2') as (w2 & a2 & E2 & I2 & V2 & S2 & L2 & Q2 & B2 & A2 & C2 & F2 & N2).
  assert (forall x, alloc_result a x -> sh_info a !! alloc_ptr x = None) as HN.
  { intros [[p f]|] Hx; [by destruct Hx as [(_ & ? & _) _] | apply (wf_null a W)]. }
  exists w1, w2, a2. split; [done|]. split; [done|]. split; try done; auto.
  - by eapply evolves_trans.
  - split; try congruence. intros p Hp. rewrite F2, F1; [done|right; list_solver|right; list_solver].
  - destruct S1 as [->|[(K1 & K2 & K3 & K4) (f & Ef & Pf)]]; [by left|]. destruct Hne as [->|Hne]; [by left|right].
    rewrite <- (F2 (alloc_ptr x1)) in K1, Ef by (by right). split; [|by exists f]. split_and!; [done| | |by rewrite Q2].
    + by rewrite (listed_same a1 a2).
    + by rewrite (waits_same a1 a2).
  - intros p f Ep. pose proof (alloc_get w a x1 p f R X1 Ep) as K. rewrite E1 in K. pose proof (alloc_get w1 a1 x2 p f ltac:(by destruct I1 as [(? & _) _]) X2' K) as K'. by rewrite E2 in K'.
Qed.

Lemma no_alloc w a : locks_inv w a -> allocated w a w a 0 0.
Proof.
  intros INV. pose proof INV as [(R & W & Q) _]. split; try done; try (by left); try apply (wf_null a W). by apply evolves_refl.
Qed.

Lemma allocated_known w a w' a' n1 n2 p : allocated w a w' a' n1 n2 -> is_Some (sh_info a !! p) -> p ∉ [n1; n2] /\ sh_info a' !! p = sh_info a !! p.
Proof.
  intros AL Hp. assert (p ∉ [n1; n2]) as Hn.
  { intros H. assert (p = n1 \/ p = n2) as [->| ->] by list_solver; [rewrite (al_new1 _ _ _ _ _ _ AL) in Hp | rewrite (al_new2 _ _ _ _ _ _ AL) in Hp]; by destruct Hp. }
  split; [done | by apply (fr_info _ _ _ (al_frame _ _ _ _ _ _ AL))].
Qed.

Lemma allocated_listed w a w' a' n1 n2 p : locks_inv w a -> allocated w a w' a' n1 n2 -> listed a p -> sh_info a' !! p = sh_info a !! p.
Proof. intros [(R & W & Q) _] AL [i Hi]. eapply allocated_known; [done|]. by apply (wf_listed a W i). Qed.

(** What was done between the allocations and the release of both structures
    is the same as without them. *)
Lemma release_both w a w' a' n1 n2 wb ab b : locks_inv w a -> allocated w a w' a' n1 n2 -> locks_inv wb b -> spare b n1 -> spare b n2 ->
  sh_info b = sh_info a' -> sh_info ab = sh_info a -> (forall i, sh_list b i = sh_list ab i) -> (forall p, sh_queue b p = sh_queue ab p) ->
  sh_blocked b = sh_blocked ab -> sh_all b = sh_all ab -> sh_events b = sh_events ab ->
  exists w1 w2 a2, free_unused wb n1 = Some w1 /\ free_unused w1 n2 = Some w2 /\ locks_inv w2 a2 /\ same_shape ab a2.
Proof.
  intros INV AL Ib S1 S2 EI EI' EL EQ EB EA EE. destruct (free_both wb b n1 n2 Ib S1 S2 (al_ne _ _ _ _ _ _ AL)) as (w1 & w2 & a2 & E1 & E2 & I2 & V2 & L2 & Q2 & B2 & A2 & C2 & F2).
  exists w1, w2, a2. split_and!; try done. split; try congruence. rewrite EI'. apply map_eq. intros p. rewrite F2. destruct (decide (p = n1 \/ p = n2)) as [[->| ->]|Hp].
  - by rewrite (al_new1 _ _ _ _ _ _ AL).
  - by rewrite (al_new2 _ _ _ _ _ _ AL).
  - rewrite EI. apply (fr_info _ _ _ (al_frame _ _ _ _ _ _ AL)). set_solver.
Qed.

(** ** Conflicts *)

(** The lock [b] is the first in the list that conflicts with [r]. *)
Definition first_conflict (a : shape) (i : Z) (r : file_lock) (b : Z) : Prop :=
  exists pre post, sh_list a i = pre ++ b :: post /\ (forall p f, p ∈ pre -> sh_info a !! p = Some f -> posix_locks_conflict r f = false).

Lemma first_conflict_in a i r b : first_conflict a i r b -> b ∈ sh_list a i.
Proof. intros (pre & post & -> & _). list_solver. Qed.

Lemma first_conflict_frame a a' i r b : (forall i, sh_list a' i = sh_list a i) -> (forall p, listed a p -> sh_info a' !! p = sh_info a !! p) ->
  first_conflict a' i r b -> first_conflict a i r b.
Proof.
  intros EL F (pre & post & E & HN). rewrite EL in E. exists pre, post. split; [done|]. intros p f Hp Ef. apply (HN p f Hp). rewrite F; [done|].
  exists i. rewrite E. apply elem_of_app. by left.
Qed.

Lemma posix_conflict_test r f : IS_POSIX f && posix_locks_conflict r f = posix_locks_conflict r f.
Proof. unfold posix_locks_conflict. by destruct (IS_POSIX f). Qed.

Lemma conflict_test w a i r : locks_inv w a -> plain r -> fl_start r <= fl_end r ->
  exists before hit, find_lock w (Head i) (fun f => Some (IS_POSIX f && posix_locks_conflict r f)) = Some (before, hit) /\
    (hit = false -> ~ conflicting a i r) /\
    (hit = true -> conflicting a i r /\ exists b fb, load w before = Some b /\ first_conflict a i r b /\ sh_info a !! b = Some fb /\ IS_POSIX fb = true /\ posix_locks_conflict r fb = true).
Proof.
  intros [(R & W & Q) T] Pr Hr. pose proof (conflict_iff a i r (tb_inode a T i) Pr Hr) as HC.
  destruct (find_lock_ok w a i (fun f => Some (IS_POSIX f && posix_locks_conflict r f)) R W) as (pre & post & hit & HF & El & E).
  { intros []. unfold posix_locks_conflict, posix_same_owner. by destruct Pr as [_ ->]. }
  exists (slot_after i pre), hit. split; [done|]. inversion HF as [HN | pre' b post' fb El' HN Eb Hb]; subst.
  - split; [|done]. intros _ (p & f & Hp & Ef & Hf & Hc)%HC. specialize (HN p f Hp Ef). by rewrite Hf, Hc in HN.
  - assert (IS_POSIX fb = true /\ posix_locks_conflict r fb = true) as [H1 H2].
    { destruct (IS_POSIX fb && posix_locks_conflict r fb) eqn:K; [by apply andb_true_iff in K | done]. }
    rewrite bool_decide_true by (by rewrite H1, H2). split; [done|]. intros _.
    assert (b ∈ sh_list a i) as Hin by (rewrite El; list_solver). split; [apply HC; by exists b, fb|].
    exists b, fb. split_and!; try done; [pose proof (r_chain w a R i) as Hch; rewrite El in Hch; apply chain_app in Hch; by destruct Hch|].
    exists pre, post'. split; [done|]. intros p f Hp Ef. specialize (HN p f Hp Ef). cbv beta in HN. rewrite posix_conflict_test in HN. congruence.
Qed.

(** A request that starts to wait for a lock in its way leaves the table in order. *)
Lemma wait_step w a i rq r b fb : locks_inv w a -> idle a rq -> sh_info a !! rq = Some r -> b ∈ sh_list a i -> sh_info a !! b = Some fb -> blocks r fb ->
  exists w', locks_insert_block w b rq = Some w' /\ locks_inv w' (sh_block a b rq).
Proof.
  intros [(R & W & Q) [T1 T2]] Hi Er Hb Eb HB. assert (listed a b) as Hl by (by exists i).
  destruct (insert_block_ok w a b rq R W Hl Hi) as (w' & E & R'). exists w'. split; [done|]. split.
  - split; [done|]. split; [by apply wf_block | by apply queues_block].
  - split; [intros j; by apply (inode_ext a)|]. intros c q fc fq. simpl. destruct (decide (c = b)) as [->|Hc]; [|rewrite fn_lookup_insert_ne by done; apply T2].
    rewrite fn_lookup_insert. intros [Hq| ->%list_elem_of_singleton]%elem_of_app; [by apply T2|]. congruence.
Qed.

Lemma idle_block a b q n : idle a n -> n <> q -> listed a b -> idle (sh_block a b q) n.
Proof.
  intros (H1 & H2 & H3 & H4) Hn Hb. split_and!; try done.
  - rewrite waits_block. tauto.
  - simpl. rewrite fn_lookup_insert_ne; [done|]. by intros ->.
Qed.

Lemma posix_lock_of a i p f : inode_ok a i -> p ∈ sh_list a i -> sh_info a !! p = Some f -> IS_POSIX f = true -> lock_of (fl_owner f) f.
Proof.
  intros [(N & G & E & [_ HG] & HN) _ _] Hp Ef Hf. rewrite E in Hp. apply elem_of_app in Hp as [Hp|Hp].
  - destruct (HN p Hp) as (g & Eg & Hg & _). congruence.
  - apply elem_group in Hp as (o & S & H1 & H2). destruct (HG o S H1) as (_ & K & _). destruct (K p H2) as (g & Eg & K1 & K2 & K3). rewrite Ef in Eg. injection Eg as <-. by split_and!.
Qed.

(** The branch of [__posix_lock_file] for a lock that is in the way, up to its end. *)
Lemma blocked_step w a w' a' n1 n2 i rq r b fb : locks_inv w a -> allocated w a w' a' n1 n2 -> request a rq r ->
  b ∈ sh_list a i -> sh_info a !! b = Some fb -> IS_POSIX fb = true -> posix_locks_conflict r fb = true ->
  exists w1 err w2 w3 a3, posix_blocked w' rq 0 b = Some (w1, err) /\ free_unused w1 n1 = Some w2 /\ free_unused w2 n2 = Some w3 /\ locks_inv w3 a3 /\
    (truthy (fl_flags r .& FL_SLEEP) = false /\ err = - EAGAIN /\ same_shape a a3 \/
     truthy (fl_flags r .& FL_SLEEP) = true /\
      (reaches w 11 (fl_owner fb) (fl_owner r) = true /\ err = - EDEADLK /\ same_shape a a3 \/
       reaches w 11 (fl_owner fb) (fl_owner r) = false /\ err = FILE_LOCK_DEFERRED /\ same_shape (sh_block a b rq) a3)).
Proof.
  intros INV AL RQ Hb Eb Pb Hc. pose proof AL as [INV' V' FR S1 S2 N1 N2 NE GET]. pose proof INV as [(R & W & Q) T]. pose proof INV' as [(R' & W' & Q') T'].
  destruct (allocated_known w a w' a' n1 n2 rq AL) as [Hrq Erq']; [by rewrite (rq_info _ _ _ RQ)|].
  destruct (allocated_known w a w' a' n1 n2 b AL) as [Hbn Eb']; [by rewrite Eb|].
  assert (request a' rq r) as RQ' by (apply (request_frame a); [apply FR|apply FR|done|done]).
  assert (get w' rq = Some r) as Er by (apply (idle_get w' a'); [done|apply RQ'|apply RQ']).
  assert (b ∈ sh_list a' i) as Hb' by (by rewrite (fr_list _ _ _ FR)). rewrite <- Eb' in Eb.
  destruct (repr_get w' a' b fb R' Eb) as (f & Ef & Efs & Hfq).
  assert (plain f) as Pf by (destruct (posix_lock_of a' i b fb (tb_inode a' T' i) Hb' Eb Pb) as (_ & _ & Pf); subst fb; by destruct f).
  assert (fl_owner f = fl_owner fb) as Eo by (rewrite Efs; by destruct f).
  unfold posix_blocked. rewrite Er, bind_Some_eq. change (truthy 0) with false. cbv iota. rewrite bind_Some_eq.
  destruct (release_both w a w' a' n1 n2 w' a a' INV AL INV' S1 S2 eq_refl eq_refl) as (w2 & w3 & a3 & F1 & F2 & I3 & SS3); try apply FR.
  destruct (truthy (fl_flags r .& FL_SLEEP)); cbn [negb]; [|exists w', (- EAGAIN), w2, w3, a3; split_and!; try done; by left].
  rewrite (deadlock_ok w' a' rq r b f INV' Er (rq_plain _ _ _ RQ) Ef Pf), bind_Some_eq, Eo.
  rewrite (reaches_frame w w' a) by (done || by rewrite (r_blocked w a R), (r_blocked w' a' R'), (fr_blocked _ _ _ FR)).
  destruct (reaches w 11 (fl_owner fb) (fl_owner r)); [exists w', (- EDEADLK), w2, w3, a3; split_and!; try done; right; split; [done | by left]|].
  destruct (wait_step w' a' i rq r b fb INV' (rq_idle _ _ _ RQ') (rq_info _ _ _ RQ') Hb' Eb) as (wb & Ewb & Ib); [split; [intros _; split; [apply RQ | split; [apply RQ | done]] | congruence]|].
  rewrite Ewb, bind_Some_eq.
  assert (listed a' b) as Hlb by (by exists i).
  assert (forall n, n ∈ [n1; n2] -> spare a' n -> spare (sh_block a' b rq) n) as SP.
  { intros n Hn [->|[Hi (g & Eg & Pg)]]; [by left | right]. split; [apply idle_block; [done|set_solver|done] | by exists g]. }
  destruct (release_both w a w' a' n1 n2 wb (sh_block a b rq) (sh_block a' b rq) INV AL Ib) as (w4 & w5 & a5 & F3 & F4 & I5 & SS5); try (by apply SP; set_solver); try done; try apply FR.
  { intros p. simpl. destruct (decide (p = b)) as [->|]; [rewrite !fn_lookup_insert | rewrite !fn_lookup_insert_ne by done]; by rewrite (fr_queue _ _ _ FR). }
  { simpl. by rewrite Eb', (fr_blocked _ _ _ FR). }
  exists wb, FILE_LOCK_DEFERRED, w4, w5, a5. split_and!; try done. right. split; [done | by right].
Qed.

(** ** The call *)

(** From a table in order, a request in the way of which another owner's lock
    is fails or waits; otherwise the owner's bytes change and nothing else. *)
Record posix_result (w : locks) (a : shape) (i rq : Z) (r : file_lock) (x1 x2 : option (Z * file_lock)) (a' : shape) (err : Z) : Prop := {
  pr_blocked : fl_type r <> F_UNLCK -> conflicting a i r ->
    truthy (fl_flags r .& FL_SLEEP) = false /\ err = - EAGAIN /\ same_shape a a' \/
    truthy (fl_flags r .& FL_SLEEP) = true /\
    exists b fb, first_conflict a i r b /\ sh_info a !! b = Some fb /\ IS_POSIX fb = true /\ posix_locks_conflict r fb = true /\
      (reaches w 11 (fl_owner fb) (fl_owner r) = true /\ err = - EDEADLK /\ same_shape a a' \/
       reaches w 11 (fl_owner fb) (fl_owner r) = false /\ err = FILE_LOCK_DEFERRED /\ same_shape (sh_block a b rq) a');
  pr_test : fl_type r = F_UNLCK \/ ~ conflicting a i r -> truthy (fl_flags r .& FL_ACCESS) = true -> err = 0 /\ same_shape a a';
  pr_set : fl_type r = F_UNLCK \/ ~ conflicting a i r -> truthy (fl_flags r .& FL_ACCESS) = false ->
    evolves a a' /\
    (err = - ENOLCK /\ same_shape a a' /\ (x1 = None /\ fl_type r <> F_UNLCK \/ x2 = None /\ 0 < fl_start r) \/
     err = scan_error (fl_type r) false r (owner_ranges a i (fl_owner r)) /\
     owner_ranges a' i (fl_owner r) = place (fl_type r) (fl_start r) (fl_end r) (owner_ranges a i (fl_owner r)) /\
     (forall o x, held_by a' i o x = set_bytes r (held_by a i) o x) /\
     (forall j o, j <> i \/ o <> fl_owner r -> owner_ranges a' j o = owner_ranges a j o) /\
     (forall p, p <> rq -> ~ listed a p -> is_Some (sh_info a !! p) -> sh_info a' !! p = sh_info a !! p) /\
     (forall p, sh_info a !! p = None -> is_Some (sh_info a' !! p) -> listed a' p) /\
     (forall p, listed a' p -> listed a p \/ sh_info a !! p = None) /\ (exists r', sh_info a' !! rq = Some r' /\ plain r'))
}.

Lemma alloc_null a x : alloc_result a x -> alloc_ptr x = 0 -> x = None.
Proof. destruct x as [[p f]|]; [|done]. cbn. by intros [(Hp & _) _] ->. Qed.

(** The branch that changes the owner's locks, up to its end. *)
Lemma set_step w a w' a' n1 n2 i nspid rq r : locks_inv w a -> allocated w a w' a' n1 n2 -> request a rq r -> (fl_type r = F_UNLCK \/ ~ conflicting a i r) ->
  exists w1 err m1 m2 w2 w3 a3,
    ('(before, _) ← find_lock w' (Head i) (fun f => Some (negb (negb (IS_POSIX f) || negb (posix_same_owner r f))));
     s ← c_loop (locks_fuel w') posix_step (PosixScan w' before rq 0 0 false);
     posix_finish nspid n1 n2 s) = Some (w1, err, m1, m2) /\
    free_unused w1 m1 = Some w2 /\ free_unused w2 m2 = Some w3 /\ locks_inv w3 a3 /\ evolves a a3 /\
    (err = - ENOLCK /\ same_shape a a3 /\ (n1 = 0 /\ fl_type r <> F_UNLCK \/ n2 = 0 /\ 0 < fl_start r) \/
     err = scan_error (fl_type r) false r (owner_ranges a i (fl_owner r)) /\
     owner_ranges a3 i (fl_owner r) = place (fl_type r) (fl_start r) (fl_end r) (owner_ranges a i (fl_owner r)) /\
     (forall o x, held_by a3 i o x = set_bytes r (held_by a i) o x) /\
     (forall j o, j <> i \/ o <> fl_owner r -> owner_ranges a3 j o = owner_ranges a j o) /\
     (forall p, p <> rq -> ~ listed a p -> is_Some (sh_info a !! p) -> sh_info a3 !! p = sh_info a !! p) /\
     (forall p, sh_info a !! p = None -> is_Some (sh_info a3 !! p) -> listed a3 p) /\
     (forall p, listed a3 p -> listed a p \/ sh_info a !! p = None) /\ (exists r', sh_info a3 !! rq = Some r' /\ plain r')).
Proof.
  intros INV AL RQ HC. pose proof AL as [INV' V' FR S1 S2 N1 N2 NE GET]. pose proof INV as [(R & W & Q) T]. pose proof INV' as [(R' & W' & Q') T'].
  destruct (allocated_known w a w' a' n1 n2 rq AL) as [Hrq Erq']; [by rewrite (rq_info _ _ _ RQ)|].
  assert (request a' rq r) as RQ' by (apply (request_frame a); [apply FR|apply FR|done|done]).
  pose proof (fun p => allocated_listed w a w' a' n1 n2 p INV AL) as FL.
  assert (forall j o, owner_ranges a' j o = owner_ranges a j o) as OR by (intros j o; apply owner_ranges_ext; [apply FR | intros p Hp; apply FL; by exists j]).
  assert (forall j o x, held_by a' j o x = held_by a j o x) as HH by (intros j o x; unfold held_by; by rewrite OR).
  destruct (posix_set_ok w' a' i nspid rq r n1 n2 INV' RQ' S1 S2) as (w1 & err & m1 & m2 & a1 & E & I1 & V1 & L1 & L2 & K).
  { destruct NE as [|NE]; [by left | right]. split; [done | list_solver]. }
  { right. list_solver. }
  { destruct HC as [|HC]; [by left | right]. rewrite (conflicting_frame a a'); [done | apply FR | done]. }
  exists w1, err, m1, m2.
  assert (spare a1 m1 /\ spare a1 m2 /\ (m1 = 0 \/ m1 <> m2)) as (P1 & P2 & P3).
  { destruct L1 as [[-> _]|[-> L1]], L2 as [[-> _]|[-> L2]]; split_and!; try done; try (by left). destruct (decide (n1 = 0)); [by left | by right]. }
  destruct (free_both w1 a1 m1 m2 I1 P1 P2 P3) as (w2 & w3 & a3 & E1 & E2 & I3 & V3 & G1 & G2 & G3 & G4 & G5 & G6).
  exists w2, w3, a3. do 4 (split; [done|]). split; [eapply evolves_trans; [done | by eapply evolves_trans]|].
  assert (forall p, p <> m1 -> p <> m2 -> sh_info a3 !! p = sh_info a1 !! p) as F3 by (intros p Hp1 Hp2; rewrite G6; by rewrite decide_False by tauto).
  destruct K as [(-> & -> & K)|(-> & K1 & K2 & K3 & K4 & K5 & r' & Er' & Pr')]; [left; split_and!; try done|right; split; [by rewrite OR|]].
  - assert (m1 = n1 /\ m2 = n2) as [-> ->].
    { split; [destruct L1 as [[-> [->|L1]]|[-> _]]|destruct L2 as [[-> [->|L2]]|[-> _]]]; try done; [by destruct (spare_listed w' a' n1 n1 INV' S1 L1) | by destruct (spare_listed w' a' n2 n2 INV' S2 L2)]. }
    destruct FR as [J1 J2 J3 J4 J5 J6]. split; try congruence. apply map_eq. intros p. rewrite G6.
    destruct (decide (p = n1 \/ p = n2)) as [[->| ->]|Hp]; [done|done|]. apply J6. set_solver.
  - assert (forall j o, owner_ranges a3 j o = owner_ranges a1 j o) as OR3.
    { intros j o. apply owner_ranges_ext; [apply G1|]. intros p Hp. assert (listed a1 p) as Hl by (by exists j). apply F3; by apply (spare_listed w1 a1). }
    split; [by rewrite OR3, K1, OR|]. split; [intros o x; unfold held_by; rewrite OR3; fold (held_by a1 i o x); rewrite K2; unfold set_bytes; by rewrite HH|].
    split; [intros j o Ho; by rewrite OR3, K3, OR|].
    assert (forall p, p = m1 -> p = n1 \/ p = 0) as M1 by (intros p ->; destruct L1 as [[-> _]|[-> _]]; tauto).
    assert (forall p, p = m2 -> p = n2 \/ p = 0) as M2 by (intros p ->; destruct L2 as [[-> _]|[-> _]]; tauto).
    split; [|split; [|split]].
    + intros p Hp Hl Hk. destruct (allocated_known w a w' a' n1 n2 p AL Hk) as [Hpn Ep]. assert (p <> 0) as Hp0 by (intros ->; rewrite (wf_null a W) in Hk; by destruct Hk).
      rewrite F3, K4; [done|list_solver|by rewrite (listed_same a a') by apply FR| |]; intros ->; [destruct (M1 _ eq_refl) | destruct (M2 _ eq_refl)]; list_solver.
    + intros p Hp Hk. rewrite (listed_same a1 a3) by done. rewrite G6 in Hk. destruct (decide (p = m1 \/ p = m2)) as [|Hm]; [by destruct Hk|].
      assert (p <> 0) as Hp0 by (intros ->; rewrite (wf_null a1 (proj1 (proj2 (proj1 I1)))) in Hk; by destruct Hk).
      destruct (decide (p = n1)) as [->|Hp1]; [by destruct L1 as [[_ [|]]|[-> _]]; [..|tauto]|]. destruct (decide (p = n2)) as [->|Hp2]; [by destruct L2 as [[_ [|]]|[-> _]]; [..|tauto]|].
      exfalso. assert (p <> rq) as Hpr by (intros ->; by rewrite (rq_info _ _ _ RQ) in Hp).
      rewrite K4, (fr_info _ _ _ FR), Hp in Hk; [by destruct Hk|list_solver|list_solver|]. rewrite (listed_same a a') by apply FR.
      intros [j Hj]. apply (wf_listed a W) in Hj. rewrite Hp in Hj. by destruct Hj.
    + intros p. rewrite (listed_same a1 a3) by done. intros [K| [->| ->]]%K5; [left; by rewrite <- (listed_same a a') by apply FR | by right | by right].
    + assert (rq <> 0) as Hrq0 by (intros ->; pose proof (rq_info _ _ _ RQ) as Er; by rewrite (wf_null a W) in Er).
      exists r'. split; [|done]. rewrite F3; [done|intros ->; destruct (M1 _ eq_refl); set_solver | intros ->; destruct (M2 _ eq_refl); set_solver].
Qed.

(** The structures the call starts with. *)
Lemma alloc_ready w a rq r x1 x2 : locks_inv w a -> request a rq r -> alloc_result a x1 -> alloc_result a x2 -> (alloc_ptr x1 = 0 \/ alloc_ptr x1 <> alloc_ptr x2) ->
  exists w' a' n1 n2,
    (if negb (truthy (fl_flags r .& FL_ACCESS)) && (negb (fl_type r =? F_UNLCK) || negb (fl_start r =? 0) || negb (fl_end r =? OFFSET_MAX)) then
       let '(w, new_fl) := locks_alloc_lock w x1 in
       let '(w, new_fl2) := locks_alloc_lock w x2 in
       (w, new_fl, new_fl2)
     else (w, 0, 0)) = (w', n1, n2) /\
    allocated w a w' a' n1 n2 /\
    (truthy (fl_flags r .& FL_ACCESS) = false -> n1 = 0 /\ fl_type r <> F_UNLCK \/ n2 = 0 /\ 0 < fl_start r -> x1 = None /\ fl_type r <> F_UNLCK \/ x2 = None /\ 0 < fl_start r).
Proof.
  intros INV RQ X1 X2 Hne. destruct (negb (truthy (fl_flags r .& FL_ACCESS)) && _) eqn:E.
  - destruct (alloc_both w a x1 x2 INV X1 X2 Hne) as (w1 & w2 & a2 & E1 & E2 & AL). exists w2, a2, (alloc_ptr x1), (alloc_ptr x2). rewrite E1, E2.
    split_and!; try done. intros _ [[H H']|[H H']]; [left | right]; split; try done; by eapply alloc_null.
  - exists w, a, 0, 0. split_and!; [done|by apply no_alloc|]. intros EA. rewrite EA in E. cbn in E. apply orb_false_iff in E as [[E1%negb_false_iff E2%negb_false_iff]%orb_false_iff _].
    apply Z.eqb_eq in E1, E2. intros [[_ ?]|[_ ?]]; [done | lia].
Qed.

Lemma posix_lock_file_ok nspid x1 x2 w a i rq r : locks_inv w a -> request a rq r -> alloc_result a x1 -> alloc_result a x2 -> (alloc_ptr x1 = 0 \/ alloc_ptr x1 <> alloc_ptr x2) ->
  exists w' err a', __posix_lock_file nspid x1 x2 w i rq 0 = Some (w', err) /\ locks_inv w' a' /\ posix_result w a i rq r x1 x2 a' err.
Proof.
  intros INV RQ X1 X2 Hne. pose proof INV as [(R & W & Q) T]. unfold __posix_lock_file.
  rewrite (idle_get w a rq r R (rq_idle _ _ _ RQ) (rq_info _ _ _ RQ)), bind_Some_eq.
  destruct (alloc_ready w a rq r x1 x2 INV RQ X1 X2 Hne) as (w0 & a0 & n1 & n2 & -> & AL & HE). pose proof AL as [INV0 V0 FR S1 S2 N1 N2 NE GET].
  pose proof (fun p => allocated_listed w a w0 a0 n1 n2 p INV AL) as FL.
  destruct (rq_range _ _ _ RQ) as [[Hr0 Hr1] Hr2].
  destruct (conflict_test w0 a0 i r INV0 (rq_plain _ _ _ RQ) Hr1) as (before & hit & Efind & H1 & H2).
  rewrite (conflicting_frame a a0 i r (fr_list _ _ _ FR) FL) in H1, H2.
  assert (fl_type r = F_UNLCK \/ ~ conflicting a i r ->
    exists w' err a', (
      '(w, error, new_fl, new_fl2) ←
         (if truthy (fl_flags r .& FL_ACCESS) then Some (w0, 0, n1, n2)
          else
            '(before, _) ← find_lock w0 (Head i) (fun f => Some (negb (negb (IS_POSIX f) || negb (posix_same_owner r f))));
            s ← c_loop (locks_fuel w0) posix_step (PosixScan w0 before rq 0 0 false);
            posix_finish nspid n1 n2 s);
      w ← free_unused w new_fl;
      w ← free_unused w new_fl2;
      Some (w, error)) = Some (w', err) /\ locks_inv w' a' /\ posix_result w a i rq r x1 x2 a' err) as Hfree.
  { intros HC. destruct (truthy (fl_flags r .& FL_ACCESS)) eqn:EA.
    - rewrite bind_Some_eq. destruct (release_both w a w0 a0 n1 n2 w0 a a0 INV AL INV0 S1 S2 eq_refl eq_refl) as (w2 & w3 & a3 & F1 & F2 & I3 & SS3); try apply FR.
      rewrite F1, bind_Some_eq, F2, bind_Some_eq. exists w3, 0, a3. split_and!; try done. split; [tauto|done|congruence].
    - destruct (set_step w a w0 a0 n1 n2 i nspid rq r INV AL RQ HC) as (w1 & err & m1 & m2 & w2 & w3 & a3 & E & F1 & F2 & I3 & V3 & K).
      rewrite E, bind_Some_eq, F1, bind_Some_eq, F2, bind_Some_eq. exists w3, err, a3. split_and!; try done. split; [tauto|congruence|]. intros _ _. split; [done|].
      destruct K as [(-> & K1 & K2)|K]; [left; split_and!; try done; by apply HE | by right]. }
  destruct (Z.eqb_spec (fl_type r) F_UNLCK) as [Hu|Hu]; cbn [negb].
  { rewrite bind_Some_eq. cbv iota beta. apply Hfree. by left. }
  rewrite Efind, bind_Some_eq. destruct hit; [|apply Hfree; right; by apply H1].
  destruct (H2 eq_refl) as (HC & b & fb & El & Hb & Eb & Pb & Hc). rewrite El, bind_Some_eq.
  apply (first_conflict_frame a a0 i r b (fr_list _ _ _ FR) FL) in Hb. pose proof (first_conflict_in a i r b Hb) as Hin. rewrite FL in Eb by (by exists i).
  destruct (blocked_step w a w0 a0 n1 n2 i rq r b fb INV AL RQ Hin Eb Pb Hc) as (w1 & err & w2 & w3 & a3 & E & F1 & F2 & I3 & K).
  rewrite E, bind_Some_eq, bind_Some_eq, F1, bind_Some_eq, F2, bind_Some_eq. exists w3, err, a3. split_and!; try done. split; [|tauto..].
  intros _ _. destruct K as [K|[K1 K2]]; [by left | right]. split; [done|]. by exists b, fb.
Qed.
End LockFile.
