(* ===== verification/LocksFlock.v ===== *)
(** * File locks: [flock_lock_file]

    BSD locks belong to an open file and cover the whole of it.  [flock_types] is
    their abstract state: the types of the locks of an open file. *)

From stdpp Require Import gmap functions.
From S2P Require Import Prelude Locks LocksIntervals LocksRepr LocksSteps LocksEvolve LocksPosix LocksState LocksFile LocksCalls LocksLockFile.
From stdpp Require Import list.
Open Scope Z_scope.
Open Scope c_scope.

Section Flock.
Context {ops : LockOps}.

(** The types of the locks that an open file has, in the order of the list. *)
Definition flock_type (a : shape) (file p : Z) : option Z :=
  f ← sh_info a !! p; if negb (IS_POSIX f) && negb (IS_LEASE f) && (fl_file f =? file) then Some (fl_type f) else None.

Definition flock_types (a : shape) (i file : Z) : list Z := omap (flock_type a file) (sh_list a i).

Lemma omap_same (f g : Z -> option Z) (l : list Z) : (forall p, p ∈ l -> f p = g p) -> omap f l = omap g l.
Proof. induction l as [|p l IH]; [done|]. intros H. cbn. rewrite (H p), IH; [done | set_solver | set_solver]. Qed.

Lemma omap_none (f : Z -> option Z) (l : list Z) : (forall p, p ∈ l -> f p = None) -> omap f l = [].
Proof. induction l as [|p l IH]; [done|]. intros H. cbn. rewrite (H p), IH; [done | set_solver | set_solver]. Qed.

Lemma flock_types_ext a a' i g : sh_list a' i = sh_list a i -> (forall p, p ∈ sh_list a i -> sh_info a' !! p = sh_info a !! p) -> flock_types a' i g = flock_types a i g.
Proof. intros E F. unfold flock_types. rewrite E. apply omap_same. intros p Hp. unfold flock_type. by rewrite F. Qed.

Lemma flock_types_delete a i pre p post f j g : wf a -> sh_list a i = pre ++ p :: post -> sh_info a !! p = Some f -> IS_POSIX f = false -> IS_LEASE f = false ->
  (forall q h, q ∈ pre -> sh_info a !! q = Some h -> IS_LEASE h = true \/ fl_file h <> fl_file f) ->
  flock_types (sh_delete a i p) j g = if (j =? i) && (g =? fl_file f) then tail (flock_types a j g) else flock_types a j g.
Proof.
  intros W E Ef F1 F2 Hpre. destruct (list_split a i p pre post W E) as (N1 & N2 & _ & Eu & Hp).
  assert (forall q, q <> p -> flock_type (sh_delete a i p) g q = flock_type a g q) as F by (intros q Hq; unfold flock_type; simpl; by simplify_map_eq).
  destruct (Z.eqb_spec j i) as [->|Hj]; cbn [andb].
  - assert (flock_types (sh_delete a i p) i g = omap (flock_type a g) (pre ++ post)) as E1.
    { unfold flock_types. simpl. rewrite fn_lookup_insert, Eu. apply omap_same. intros q Hq. apply F. list_solver. }
    assert (flock_type a g p = if g =? fl_file f then Some (fl_type f) else None) as Ep.
    { unfold flock_type. rewrite Ef. cbn. by rewrite F1, F2, Z.eqb_sym. }
    rewrite E1. unfold flock_types. rewrite E, !omap_app. cbn [omap list_omap]. rewrite Ep. destruct (Z.eqb_spec g (fl_file f)) as [->|]; [|done].
    rewrite (omap_none _ pre); [done|]. intros q Hq. unfold flock_type. destruct (sh_info a !! q) as [h|] eqn:Eh; [|done]. cbn.
    destruct (Hpre q h Hq Eh) as [->|K]; [by rewrite andb_false_r|]. by rewrite (proj2 (Z.eqb_neq _ _) K), andb_false_r.
  - unfold flock_types. simpl. rewrite fn_lookup_insert_ne by done. apply omap_same. intros q Hq. apply F. intros ->. apply Hj. by apply (wf_disj a W j i p).
Qed.

Lemma flock_types_insert nspid a i pre p post f j g : sh_list a i = pre ++ post -> ~ listed a p -> sh_info a !! p = Some f -> IS_POSIX f = false -> IS_LEASE f = false ->
  (forall q h, q ∈ post -> sh_info a !! q = Some h -> IS_POSIX h = true) ->
  flock_types (sh_insert nspid a i pre p post) j g = flock_types a j g ++ (if (j =? i) && (g =? fl_file f) then [fl_type f] else []).
Proof.
  intros E Hp Ef F1 F2 Hpost.
  assert (forall q, q <> p -> flock_type (sh_insert nspid a i pre p post) g q = flock_type a g q) as F by (intros q Hq; unfold flock_type; simpl; by rewrite lookup_alter_ne).
  assert (forall q, listed a q -> q <> p) as Hne by (by intros q Hq ->).
  destruct (Z.eqb_spec j i) as [->|Hj]; cbn [andb].
  - unfold flock_types. simpl. rewrite fn_lookup_insert, E, !omap_app. cbn [omap list_omap].
    assert (flock_type (sh_insert nspid a i pre p post) g p = if g =? fl_file f then Some (fl_type f) else None) as ->.
    { unfold flock_type. simpl. rewrite lookup_alter_eq, Ef. cbn.
      assert (IS_POSIX (set_nspid nspid f) = false /\ IS_LEASE (set_nspid nspid f) = false /\ fl_file (set_nspid nspid f) = fl_file f /\ fl_type (set_nspid nspid f) = fl_type f)
        as (-> & -> & -> & ->) by (by destruct f). by rewrite (Z.eqb_sym g). }
    rewrite (omap_none (flock_type a g) post), (omap_none (flock_type (sh_insert _ _ _ _ _ _) g) post), app_nil_r.
    + rewrite (omap_same _ (flock_type a g) pre) by (intros q Hq; apply F, Hne; exists i; rewrite E; list_solver). f_equal. by destruct (g =? fl_file f).
    + intros q Hq. rewrite F by (apply Hne; exists i; rewrite E; list_solver). unfold flock_type. destruct (sh_info a !! q) eqn:Eq; [|done]. cbn. by rewrite (Hpost q _ Hq Eq).
    + intros q Hq. unfold flock_type. destruct (sh_info a !! q) eqn:Eq; [|done]. cbn. by rewrite (Hpost q _ Hq Eq).
  - unfold flock_types. simpl. rewrite fn_lookup_insert_ne, app_nil_r by done. apply omap_same. intros q Hq. apply F, Hne. by exists j.
Qed.

Lemma flock_conflict_sym f g : IS_FLOCK f = true -> IS_FLOCK g = true -> flock_locks_conflict f g = flock_locks_conflict g f.
Proof.
  intros Hf Hg. unfold flock_locks_conflict, locks_conflict. rewrite Hf, Hg, (Z.eqb_sym (fl_file f)). cbn [negb orb].
  destruct (fl_file g =? fl_file f); [done|]. rewrite orb_comm. destruct (_ || _); [done|]. by destruct (fl_type f =? F_WRLCK), (fl_type g =? F_WRLCK).
Qed.

(** ** Changes in front of the POSIX locks *)

Lemma posix_kept a a' i o N N' G : sh_list a i = N ++ group_locks G -> groups_ok a G -> (forall p, p ∈ N -> exists f, sh_info a !! p = Some f /\ flock_ok f) ->
  sh_list a' i = N' ++ group_locks G -> (forall p, p ∈ N' -> exists f, sh_info a' !! p = Some f /\ flock_ok f) ->
  (forall p, p ∈ group_locks G -> sh_info a' !! p = sh_info a !! p) -> owner_ranges a' i o = owner_ranges a i o.
Proof.
  intros E HG HN E' HN' F. pose proof (groups_ext a a' G F HG) as HG'.
  destruct (owner_ranges_split a i o N G E HG HN) as [H1 H2], (owner_ranges_split a' i o N' G E' HG' HN') as [H1' H2'].
  destruct (decide (o ∈ G.*1)) as [Ho|Ho]; [|by rewrite (H2 Ho), (H2' Ho)].
  apply list_elem_of_fmap in Ho as ([o' S] & Eo & Hin). cbn in Eo. subst o'. apply list_elem_of_split in Hin as (G1 & G2 & EG).
  rewrite (H1 G1 S G2 EG), (H1' G1 S G2 EG). apply rngs_ext. intros p Hp. apply F, elem_group. exists o, S. split; [rewrite EG; list_solver | done].
Qed.

Record front_change (a a' : shape) (i : Z) (N' : list Z) (G : list (Z * list Z)) : Prop := {
  fc_list : sh_list a' i = N' ++ group_locks G;
  fc_other j : j <> i -> sh_list a' j = sh_list a j;
  fc_info p : p ∈ group_locks G -> sh_info a' !! p = sh_info a !! p;
  fc_info_other j p : j <> i -> p ∈ sh_list a j -> sh_info a' !! p = sh_info a !! p;
  fc_front p : p ∈ N' -> exists f, sh_info a' !! p = Some f /\ flock_ok f;
  fc_flock p q f g : p ∈ N' -> q ∈ N' -> sh_info a' !! p = Some f -> sh_info a' !! q = Some g -> IS_LEASE f = false -> IS_LEASE g = false -> p <> q ->
    flock_locks_conflict f g = false
}.

Lemma front_ok w a a' i N N' G : locks_inv w a -> sh_list a i = N ++ group_locks G -> groups_ok a G -> (forall p, p ∈ N -> exists f, sh_info a !! p = Some f /\ flock_ok f) ->
  front_change a a' i N' G -> evolves a a' -> table_ok a' /\ forall j o, owner_ranges a' j o = owner_ranges a j o.
Proof.
  intros [(R & W & Q) T] E HG HN [C1 C2 C3 C3' C4 C5] V. pose proof (groups_ext a a' G C3 HG) as HG'.
  assert (forall j o, owner_ranges a' j o = owner_ranges a j o) as OR.
  { intros j o. destruct (decide (j = i)) as [->|Hj]; [by eapply posix_kept | apply owner_ranges_ext; [by apply C2 | intros p; by apply C3']]. }
  split; [|done]. split; [|by apply (blocks_evolve a); [|apply T]].
  intros j. destruct (decide (j = i)) as [->|Hj]; [|apply (inode_ext a); [by apply C2 | intros p; by apply C3' | apply T]]. split.
  - by exists N', G.
  - intros o o' x t t' Ho. unfold held_by. rewrite !OR. by apply (in_posix a i (tb_inode a T i)).
  - assert (forall p f, p ∈ sh_list a' i -> sh_info a' !! p = Some f -> IS_POSIX f = false -> p ∈ N') as HN'.
    { intros p f Hp Ef Hf. rewrite C1 in Hp. apply elem_of_app in Hp as [Hp|Hp]; [done|].
      apply elem_group in Hp as (o & S & H1 & H2). destruct (proj2 HG' o S H1) as (_ & K & _). destruct (K p H2) as (g & Eg & Hg & _). congruence. }
    intros p q f g Hp Hq Ef Eg Hf Hg Lf Lg Hpq. apply (C5 p q); eauto.
Qed.

(** The lists with the structure [p] taken out of the front, or put at its end. *)
Lemma delete_front w a i pre p post f : locks_inv w a -> sh_list a i = pre ++ p :: post -> sh_info a !! p = Some f -> IS_POSIX f = false -> plain f ->
  exists w', locks_delete_lock w (slot_after i pre) = Some w' /\ locks_inv w' (sh_delete a i p) /\ evolves a (sh_delete a i p) /\
    forall j o, owner_ranges (sh_delete a i p) j o = owner_ranges a j o.
Proof.
  intros INV El Ef Hf Pf. pose proof INV as [Gd T]. pose proof Gd as (R & W & Q).
  destruct (step_delete w a i pre p post f Gd El Ef Pf) as (w' & E' & G' & V). exists w'. split; [done|].
  destruct (list_split a i p pre post W El) as (P1 & P2 & P3 & P4 & P5). pose proof (in_flock a i (tb_inode a T i)) as HF.
  destruct (tb_inode a T i) as [(N & G & E & HG & HN) _ _].
  assert (p ∈ N) as HpN.
  { rewrite E in P5. apply elem_of_app in P5 as [|Hp]; [done|]. apply elem_group in Hp as (o & S & H1 & H2). destruct (proj2 HG o S H1) as (_ & K & _).
    destruct (K p H2) as (g & Eg & Hg & _). congruence. }
  pose proof (wf_nodup a W i) as Nd. rewrite E in Nd. apply NoDup_app in Nd as (Nd1 & Nd2 & Nd3).
  assert (forall q, q ∈ group_locks G -> q <> p) as HpG by (intros q Hq ->; by apply (Nd2 p)).
  assert (front_change a (sh_delete a i p) i (unlink p N) G) as FC.
  { assert (forall q, q ∈ unlink p N -> q ∈ N /\ q <> p) as Hu by (intros q [??]%list_elem_of_filter; done).
    assert (forall q, q <> p -> sh_info (sh_delete a i p) !! q = sh_info a !! q) as F by (intros q Hq; simpl; by simplify_map_eq). split.
    - simpl. rewrite fn_lookup_insert, E. unfold unlink. rewrite list.filter_app. f_equal. by apply filter_whole.
    - intros j Hj. simpl. by rewrite fn_lookup_insert_ne.
    - intros q Hq. by apply F, HpG.
    - intros j q Hj Hq. apply F. intros ->. apply Hj. by apply (wf_disj a W j i p).
    - intros q [H1 H2]%Hu. rewrite F by done. by apply HN.
    - intros q q' g g' [H1 H2]%Hu [H1' H2']%Hu. rewrite !F by done. intros Eg Eg'.
      destruct (HN q H1) as (? & E1 & K1 & _), (HN q' H1') as (? & E2 & K2 & _). apply (HF q q' g g'); try done; [rewrite E; list_solver..|congruence|congruence]. }
  destruct (front_ok w a _ i N (unlink p N) G INV E HG HN FC V) as [T' OR]. by split_and!.
Qed.

Lemma insert_front nspid w a i pre post p f : locks_inv w a -> sh_list a i = pre ++ post -> (forall q g, q ∈ pre -> sh_info a !! q = Some g -> IS_POSIX g = false) ->
  (forall q g, head post = Some q -> sh_info a !! q = Some g -> IS_POSIX g = true) -> idle a p -> sh_info a !! p = Some f ->
  IS_POSIX f = false -> IS_FLOCK f = true -> IS_LEASE f = false -> plain f -> fl_type f <> F_UNLCK ->
  (forall q g, q ∈ pre -> sh_info a !! q = Some g -> IS_LEASE g = false -> flock_locks_conflict f g = false) ->
  exists w', locks_insert_lock nspid w (slot_after i pre) p = Some w' /\ locks_inv w' (sh_insert nspid a i pre p post) /\ evolves a (sh_insert nspid a i pre p post) /\
    forall j o, owner_ranges (sh_insert nspid a i pre p post) j o = owner_ranges a j o.
Proof.
  intros INV El Hpre Hpost Ip Ef F1 F2 F3 Pf Tf HC. pose proof INV as [Gd T]. pose proof Gd as (R & W & Q).
  destruct (step_insert nspid w a i pre p post Gd El Ip) as (w' & E' & G' & V). exists w'. split; [done|].
  pose proof (in_flock a i (tb_inode a T i)) as HF. destruct (tb_inode a T i) as [(N & G & E & HG & HN) _ _].
  assert (forall q, q ∈ group_locks G -> exists g, sh_info a !! q = Some g /\ IS_POSIX g = true) as HGP.
  { intros q Hq. apply elem_group in Hq as (o & S & H1 & H2). destruct (proj2 HG o S H1) as (_ & K & _). destruct (K q H2) as (g & Eg & Hg & _). by exists g. }
  assert (pre = N /\ post = group_locks G) as [-> ->].
  { set (P := fun q => exists g, sh_info a !! q = Some g /\ IS_POSIX g = true).
    assert (forall q, q ∈ pre -> ~ P q) as Kp by (intros q Hq (g & Eg & Hg); rewrite (Hpre q g Hq Eg) in Hg; done).
    assert (forall q, q ∈ N -> ~ P q) as Kn by (intros q Hq (g & Eg & Hg); destruct (HN q Hq) as (g' & Eg' & Hg' & _); congruence).
    rewrite El in E. destruct post as [|q post], (group_locks G) as [|q' L] eqn:EL.
    - by rewrite !app_nil_r in E.
    - exfalso. apply (Kp q'); [rewrite app_nil_r in E; rewrite E; list_solver | apply HGP; list_solver].
    - exfalso. rewrite app_nil_r in E. apply (Kn q); [rewrite <- E; list_solver|]. destruct (wf_listed a W i q) as [g Eg]; [rewrite El; list_solver|]. exists g. split; [done | by apply (Hpost q)].
    - destruct (first_split P pre N q q' post L) as (-> & -> & ->); try done; [|apply HGP; list_solver].
      destruct (wf_listed a W i q) as [g Eg]; [rewrite El; list_solver|]. exists g. split; [done | by apply (Hpost q)]. }
  destruct Ip as (_ & Ip & _).
  assert (forall q, listed a q -> sh_info (sh_insert nspid a i N p (group_locks G)) !! q = sh_info a !! q) as F.
  { intros q Hq. simpl. rewrite lookup_alter_ne; [done|]. by intros <-. }
  assert (sh_info (sh_insert nspid a i N p (group_locks G)) !! p = Some (set_nspid nspid f)) as Fp by (simpl; by rewrite lookup_alter_eq, Ef).
  assert (forall q, q ∈ sh_list a i -> listed a q) as HL by (intros q Hq; by exists i).
  assert (forall g h, flock_locks_conflict (set_nspid nspid g) h = flock_locks_conflict g h /\ flock_locks_conflict h (set_nspid nspid g) = flock_locks_conflict h g) as FCn by (by intros [] []).
  assert (forall q, q ∈ N -> sh_info (sh_insert nspid a i N p (group_locks G)) !! q = sh_info a !! q) as FN by (intros q Hq; apply F, HL; rewrite El; list_solver).
  assert (front_change a (sh_insert nspid a i N p (group_locks G)) i (N ++ [p]) G) as FC.
  { split.
    - simpl. by rewrite fn_lookup_insert, <- app_assoc.
    - intros j Hj. simpl. by rewrite fn_lookup_insert_ne.
    - intros q Hq. apply F, HL. rewrite El. list_solver.
    - intros j q Hj Hq. apply F. by exists j.
    - intros q [Hq| ->%list_elem_of_singleton]%elem_of_app; [rewrite FN by done; by apply HN|]. exists (set_nspid nspid f). split; [done|]. destruct f. split; [done | by right].
    - intros q q' g g' Hq Hq' Eg Eg' L L' Hne.
      apply elem_of_app in Hq as [Hq| ->%list_elem_of_singleton], Hq' as [Hq'| ->%list_elem_of_singleton]; try done.
      + rewrite FN in Eg, Eg' by done. destruct (HN q Hq) as (? & E1 & K1 & _), (HN q' Hq') as (? & E2 & K2 & _). apply (HF q q'); try done; [rewrite El; list_solver..|congruence|congruence].
      + rewrite FN in Eg by done. rewrite Fp in Eg'. injection Eg' as <-. rewrite (proj2 (FCn _ _)).
        destruct (HN q Hq) as (g' & E1 & _ & Kg). rewrite Eg in E1. injection E1 as <-. rewrite flock_conflict_sym; [by apply (HC q) | by destruct Kg as [|(_ & ? & _)]; [congruence|] | done].
      + rewrite FN in Eg' by done. rewrite Fp in Eg. injection Eg as <-. rewrite (proj1 (FCn _ _)). by apply (HC q'). }
  destruct (front_ok w a _ i N (N ++ [p]) G INV El HG HN FC V) as [T' OR]. by split_and!.
Qed.

(** ** The searches *)

Lemma posix_after a i pre p post f q g : inode_ok a i -> sh_list a i = pre ++ p :: post -> sh_info a !! p = Some f -> IS_POSIX f = true ->
  q ∈ post -> sh_info a !! q = Some g -> IS_POSIX g = true.
Proof.
  intros [(N & G & E & HG & HN) _ _] El Ef Hf Hq Eg. rewrite El in E.
  enough (q ∈ group_locks G) as Hin.
  { apply elem_group in Hin as (o & S & H1 & H2). destruct (proj2 HG o S H1) as (_ & K & _). destruct (K q H2) as (g' & Eg' & Hg' & _). congruence. }
  apply app_eq_inv in E as [(k & E1 & E2)|(k & E1 & E2)].
  - rewrite E2. list_solver.
  - destruct k as [|x k]; cbn in E2; [rewrite <- E2; list_solver|]. injection E2 as <- E2.
    destruct (HN p) as (f' & Ef' & Hf' & _); [rewrite E1; list_solver|]. congruence.
Qed.

Definition front_test (t : file_lock -> bool) (f : file_lock) : option bool :=
  if IS_POSIX f then None else if IS_LEASE f then Some false else Some (t f).

Lemma front_search w a i t : locks_inv w a -> (forall f, t f = t (strip f)) ->
  exists pre post hit, find_lock w (Head i) (front_test t) = Some (slot_after i pre, hit) /\ sh_list a i = pre ++ post /\
    (forall q g, q ∈ pre -> sh_info a !! q = Some g -> IS_POSIX g = false /\ (IS_LEASE g = true \/ t g = false)) /\
    (hit = true -> exists p post' f, post = p :: post' /\ sh_info a !! p = Some f /\ IS_POSIX f = false /\ IS_LEASE f = false /\ t f = true) /\
    (hit = false -> forall q g, q ∈ post -> sh_info a !! q = Some g -> IS_POSIX g = true).
Proof.
  intros [(R & W & Q) T] Ht. destruct (find_lock_ok w a i (front_test t) R W) as (pre & post & hit & HF & El & E).
  { intros f. unfold front_test. rewrite (Ht f). by destruct f. }
  assert (forall g, front_test t g = Some false -> IS_POSIX g = false /\ (IS_LEASE g = true \/ t g = false)) as Htest.
  { intros g. unfold front_test. destruct (IS_POSIX g); [done|]. destruct (IS_LEASE g); [by auto|]. intros [= ->]. by auto. }
  exists pre, post, hit. split; [done|]. split; [done|]. inversion HF as [HN | pre' p post' f El' HN Ef Hf]; subst.
  - split; [intros q g Hq Eg; by apply Htest, (HN q)|]. split; [done|]. intros _ q g Hq. by apply elem_of_nil in Hq.
  - split; [intros q g Hq Eg; by apply Htest, (HN q)|]. unfold front_test in Hf |- *. destruct (IS_POSIX f) eqn:HP.
    + split; [done|]. intros _ q g [->|Hq]%elem_of_cons Eg; [congruence | by apply (posix_after a i pre p post' f q g (tb_inode a T i))].
    + destruct (IS_LEASE f) eqn:HL; [done|]. destruct (t f) eqn:Etf; [|done]. split; [|done]. intros _. by exists p, post', f.
Qed.

Record flock_request (a : shape) (rq : Z) (r : file_lock) (filp : Z) : Prop := {
  fq_info : sh_info a !! rq = Some r;
  fq_idle : idle a rq;
  fq_posix : IS_POSIX r = false;
  fq_lease : IS_LEASE r = false;
  fq_flock : IS_FLOCK r = true;
  fq_plain : plain r;
  fq_file : fl_file r = filp
}.

Lemma flock_request_frame a a' rq r filp : (forall i, sh_list a' i = sh_list a i) -> (forall b, sh_queue a' b = sh_queue a b) -> sh_info a' !! rq = sh_info a !! rq ->
  flock_request a rq r filp -> flock_request a' rq r filp.
Proof.
  intros EL EQ EI [Q1 (I1 & I2 & I3 & I4) Q3 Q4 Q5 Q6 Q7]. split; try done; [congruence|]. split_and!; [by rewrite EI| | |by rewrite EQ].
  - by rewrite (listed_same a a').
  - by rewrite (waits_same a a').
Qed.

(** Another open file has a lock that excludes the request. *)
Definition flock_conflicting (a : shape) (i : Z) (r : file_lock) : Prop :=
  exists g t, g <> fl_file r /\ t ∈ flock_types a i g /\ truthy (fl_type r .& LOCK_MAND) = false /\ truthy (t .& LOCK_MAND) = false /\ (t = F_WRLCK \/ fl_type r = F_WRLCK).

Lemma elem_flock_types a i g t : t ∈ flock_types a i g <->
  exists p f, p ∈ sh_list a i /\ sh_info a !! p = Some f /\ IS_POSIX f = false /\ IS_LEASE f = false /\ fl_file f = g /\ fl_type f = t.
Proof.
  unfold flock_types. rewrite list_elem_of_omap. unfold flock_type. split.
  - intros (p & Hp & E). destruct (sh_info a !! p) as [f|] eqn:Ef; [|done]. cbn in E. exists p, f.
    destruct (IS_POSIX f), (IS_LEASE f), (Z.eqb_spec (fl_file f) g); try done. cbn in E. split_and!; try done. congruence.
  - intros (p & f & Hp & Ef & F1 & F2 & F3 & F4). exists p. split; [done|]. rewrite Ef. cbn. by rewrite F1, F2, (proj2 (Z.eqb_eq _ _) F3), F4.
Qed.

Lemma flock_conflict_iff a i r : inode_ok a i ->
  flock_conflicting a i r <->
  exists p f, p ∈ sh_list a i /\ sh_info a !! p = Some f /\ IS_POSIX f = false /\ IS_LEASE f = false /\ flock_locks_conflict r f = true.
Proof.
  intros [(N & G & E & HG & HN) _ _]. unfold flock_conflicting, flock_locks_conflict, locks_conflict. split.
  - intros (g & t & Hg & (p & f & Hp & Ef & F1 & F2 & F3 & F4)%elem_flock_types & M1 & M2 & K). exists p, f. split_and!; try done.
    assert (IS_FLOCK f = true) as ->.
    { rewrite E in Hp. apply elem_of_app in Hp as [Hp|Hp].
      - destruct (HN p Hp) as (f' & Ef' & _ & [|(_ & ? & _)]); congruence.
      - apply elem_group in Hp as (o & S & H1 & H2). destruct (proj2 HG o S H1) as (_ & K' & _). destruct (K' p H2) as (f' & Ef' & Hf' & _). congruence. }
    rewrite (proj2 (Z.eqb_neq (fl_file r) (fl_file f))) by congruence. cbn. rewrite M1, F4, M2. cbn.
    destruct K as [->| ->]; [done | by destruct (t =? F_WRLCK)].
  - intros (p & f & Hp & Ef & F1 & F2 & F3). destruct (IS_FLOCK f); [|done]. destruct (Z.eqb_spec (fl_file r) (fl_file f)); [done|]. cbn in F3.
    destruct (truthy (fl_type r .& LOCK_MAND)) eqn:M1, (truthy (fl_type f .& LOCK_MAND)) eqn:M2; try done. cbn in F3.
    exists (fl_file f), (fl_type f). split_and!; try done; [apply elem_flock_types; by exists p, f|].
    destruct (Z.eqb_spec (fl_type f) F_WRLCK); [by left|]. destruct (Z.eqb_spec (fl_type r) F_WRLCK); [by right | done].
Qed.

(** ** After the conversion: [find_conflict] *)

Lemma copy_lock_step w a new rq r n : locks_inv w a -> idle a rq -> sh_info a !! rq = Some r -> plain r -> idle a new -> sh_info a !! new = Some n -> plain n -> new <> rq ->
  exists w', locks_copy_lock w new rq = Some w' /\ locks_inv w' (sh_set a new (copy_of r n)) /\ evolves a (sh_set a new (copy_of r n)) /\ idle (sh_set a new (copy_of r n)) new.
Proof.
  intros [Gd T] Irq Er Pr In En Pn Hne. destruct (step_copy w a new rq r n Gd Er En Hne Pr Pn In) as (w' & E & G' & V). exists w'. split; [done|].
  destruct In as (I1 & I2 & I3 & I4). split; [split; [done|]|split; [done|]].
  - apply (table_frame a); try done. intros p Hp. simpl. rewrite lookup_insert_ne; [done|]. by intros ->.
  - split_and!; try done. simpl. rewrite lookup_insert_eq. by eexists.
Qed.

Lemma copy_facts r n : let c := copy_of r n in IS_POSIX c = IS_POSIX r /\ IS_FLOCK c = IS_FLOCK r /\ IS_LEASE c = IS_LEASE r /\ fl_type c = fl_type r /\ fl_file c = fl_file r /\
  fl_ops c = fl_ops r /\ fl_lmops c = fl_lmops r /\ forall g, flock_locks_conflict c g = flock_locks_conflict r g.
Proof. by destruct r, n. Qed.

(** What [find_conflict] and the rest make of the request; [new] is gone, or in the list. *)
Inductive flock_outcome (a : shape) (i rq : Z) (r : file_lock) (new : Z) (a' : shape) : Z -> Prop :=
  | fo_again : flock_conflicting a i r -> truthy (fl_flags r .& FL_SLEEP) = false -> frame [new] a a' -> flock_outcome a i rq r new a' (- EAGAIN)
  | fo_wait b fb : flock_conflicting a i r -> truthy (fl_flags r .& FL_SLEEP) = true -> b ∈ sh_list a i -> sh_info a !! b = Some fb -> flock_locks_conflict r fb = true ->
      frame [new] (sh_block a b rq) a' -> flock_outcome a i rq r new a' FILE_LOCK_DEFERRED
  | fo_test : ~ flock_conflicting a i r -> truthy (fl_flags r .& FL_ACCESS) = true -> frame [new] a a' -> flock_outcome a i rq r new a' 0
  | fo_set : ~ flock_conflicting a i r -> truthy (fl_flags r .& FL_ACCESS) = false -> evolves a a' -> listed a' new ->
      (forall p, p <> new -> sh_info a' !! p = sh_info a !! p) -> (forall p, listed a' p -> listed a p \/ p = new) ->
      (forall j o, owner_ranges a' j o = owner_ranges a j o) ->
      (forall j g, flock_types a' j g = flock_types a j g ++ (if (j =? i) && (g =? fl_file r) then [fl_type r] else [])) -> flock_outcome a i rq r new a' 0.

Lemma free_frame w a n : locks_inv w a -> spare a n ->
  exists w' a', free_unused w n = Some w' /\ locks_inv w' a' /\ frame [n] a a' /\ sh_info a' !! n = None.
Proof.
  intros INV Sp. destruct (free_unused_ok w a n INV Sp) as (w' & a' & E & I & V & L & F & M & N & Q & B & A & C). exists w', a'. split_and!; try done.
  split; try done. intros p Hp. apply F. list_solver.
Qed.

Lemma flock_second_ok nspid w a i rq r filp new : locks_inv w a -> flock_request a rq r filp -> spare a new -> new <> rq ->
  (truthy (fl_flags r .& FL_ACCESS) = false -> new <> 0 /\ fl_type r <> F_UNLCK) ->
  exists w' err a', flock_second nspid w i rq new = Some (w', err) /\ locks_inv w' a' /\ flock_outcome a i rq r new a' err /\ (listed a' new \/ sh_info a' !! new = None).
Proof.
  intros INV FQ Sp Hne Hnew. pose proof INV as [Gd T]. pose proof Gd as (R & W & Q). unfold flock_second.
  rewrite (idle_get w a rq r R (fq_idle _ _ _ _ FQ) (fq_info _ _ _ _ FQ)), bind_Some_eq.
  pose proof (flock_conflict_iff a i r (tb_inode a T i)) as HC.
  destruct (front_search w a i (flock_locks_conflict r) INV ltac:(by intros [])) as (pre & post & hit & E & El & Hpre & Hhit & Hmiss).
  unfold front_test in E. rewrite E, bind_Some_eq. destruct hit.
  - destruct (Hhit eq_refl) as (b & post' & fb & -> & Eb & F1 & F2 & F3). assert (b ∈ sh_list a i) as Hb by (rewrite El; list_solver).
    assert (flock_conflicting a i r) as Hc by (apply HC; by exists b, fb).
    destruct (truthy (fl_flags r .& FL_SLEEP)) eqn:ES; cbn [negb].
    + rewrite (load_after w a i pre (b :: post') R El), bind_Some_eq. change (default 0 (head (b :: post'))) with b.
      destruct (wait_step w a i rq r b fb INV (fq_idle _ _ _ _ FQ) (fq_info _ _ _ _ FQ) Hb Eb) as (wb & Ewb & Ib); [split; [congruence|]; intros _; split_and!; [apply FQ|by rewrite (fq_lease _ _ _ _ FQ)|done]|].
      rewrite Ewb, !bind_Some_eq. assert (spare (sh_block a b rq) new) as Sp'.
      { destruct Sp as [->|[Hi (g & Eg & Pg)]]; [by left | right]. split; [apply idle_block; [done|done|by exists i] | by exists g]. }
      destruct (free_frame wb (sh_block a b rq) new Ib Sp') as (w' & a' & Ef & I' & FR & Fn). rewrite Ef, bind_Some_eq.
      exists w', FILE_LOCK_DEFERRED, a'. split_and!; try done; [|by right]. by apply (fo_wait _ _ _ _ _ _ b fb).
    + rewrite bind_Some_eq. destruct (free_frame w a new INV Sp) as (w' & a' & Ef & I' & FR & Fn). rewrite Ef, bind_Some_eq.
      exists w', (- EAGAIN), a'. split_and!; try done; [|by right]. by apply fo_again.
  - assert (~ flock_conflicting a i r) as Hc.
    { intros (p & f & Hp & Ef & F1 & F2 & F3)%HC. rewrite El in Hp. apply elem_of_app in Hp as [Hp|Hp]; [|by rewrite (Hmiss eq_refl p f Hp Ef) in F1].
      destruct (Hpre p f Hp Ef) as [_ [|]]; congruence. }
    destruct (truthy (fl_flags r .& FL_ACCESS)) eqn:EA.
    + rewrite bind_Some_eq. destruct (free_frame w a new INV Sp) as (w' & a' & Ef & I' & FR & Fn). rewrite Ef, bind_Some_eq.
      exists w', 0, a'. split_and!; try done; [|by right]. by apply fo_test.
    + destruct (Hnew eq_refl) as [Hn0 Ht]. destruct Sp as [|[In (n & En & Pn)]]; [done|].
      destruct (copy_lock_step w a new rq r n INV (fq_idle _ _ _ _ FQ) (fq_info _ _ _ _ FQ) (fq_plain _ _ _ _ FQ) In En Pn Hne) as (w1 & E1 & I1 & V1 & In1).
      rewrite E1, bind_Some_eq. destruct (copy_facts r n) as (C1 & C2 & C3 & C4 & C5 & C6 & C7 & C8). set (c := copy_of r n) in *. set (a1 := sh_set a new c) in *.
      assert (forall q, q <> new -> sh_info a1 !! q = sh_info a !! q) as F by (intros q Hq; simpl; by rewrite lookup_insert_ne).
      assert (forall q, listed a q -> q <> new) as Hl by (intros q Hq ->; by destruct In as (_ & K & _)).
      assert (forall q, q ∈ pre \/ q ∈ post -> sh_info a1 !! q = sh_info a !! q) as Fl by (intros q Hq; apply F, Hl; exists i; rewrite El; list_solver).
      assert (sh_info a1 !! new = Some c) as Ec by (simpl; by rewrite lookup_insert_eq).
      assert (forall q g, q ∈ post -> sh_info a1 !! q = Some g -> IS_POSIX g = true) as Hp1 by (intros q g Hq; rewrite Fl by tauto; by apply (Hmiss eq_refl)).
      destruct (insert_front nspid w1 a1 i pre post new c I1 El) as (w' & E' & I' & V' & OR); try done.
      { intros q g Hq. rewrite Fl by tauto. apply Hpre, Hq. }
      { intros q g Hq. apply Hp1. destruct post; [done|]. injection Hq as ->. list_solver. }
      { rewrite C1. apply FQ. } { rewrite C2. apply FQ. } { rewrite C3. apply FQ. } { split; [rewrite C6 | rewrite C7]; apply FQ. } { by rewrite C4. }
      { intros q g Hq. rewrite Fl by tauto. intros Eg Hlg. rewrite C8. destruct (Hpre q g Hq Eg) as [_ [|]]; [congruence | done]. }
      rewrite E', !bind_Some_eq. exists w', 0, (sh_insert nspid a1 i pre new post). split; [done|]. split; [done|].
      assert (listed (sh_insert nspid a1 i pre new post) new) as Hln by (apply (listed_insert nspid a1 i pre new post new El); by right).
      split; [|by left]. apply fo_set; try done.
      * by eapply evolves_trans.
      * intros p Hp. simpl. by rewrite lookup_alter_ne, lookup_insert_ne.
      * intros p. apply (listed_insert nspid a1 i pre new post p El).
      * intros j o. rewrite OR. apply owner_ranges_ext; [done|]. intros p Hp. apply F, Hl. by exists j.
      * intros j g. rewrite (flock_types_insert nspid a1 i pre new post c j g El); try done; [|apply In|rewrite C1; apply FQ|rewrite C3; apply FQ].
        rewrite C4, C5. f_equal. apply flock_types_ext; [done|]. intros p Hp. apply F, Hl. by exists j.
Qed.

(** ** The conversion *)

(** The first lock of the open file is gone. *)
Definition dropped_types (a : shape) (i filp : Z) (a' : shape) : Prop :=
  (forall j g, flock_types a' j g = if (j =? i) && (g =? filp) then tail (flock_types a j g) else flock_types a j g).

Inductive flock_progress (a : shape) (i filp : Z) (r : file_lock) (x : option (Z * file_lock)) (a' : shape) : Z + Z * bool -> Prop :=
  | fp_nomem : x = None -> truthy (fl_flags r .& FL_ACCESS) = false -> fl_type r <> F_UNLCK -> same_shape a a' -> flock_progress a i filp r x a' (inl (- ENOMEM))
  | fp_same : truthy (fl_flags r .& FL_ACCESS) = false -> head (flock_types a i filp) = Some (fl_type r) -> same_shape a a' -> flock_progress a i filp r x a' (inl 0)
  | fp_unlock : truthy (fl_flags r .& FL_ACCESS) = false -> fl_type r = F_UNLCK -> evolves a a' -> dropped_types a i filp a' ->
      (forall p, ~ listed a p -> sh_info a' !! p = sh_info a !! p) -> (forall p, listed a' p -> listed a p) ->
      flock_progress a i filp r x a' (inl (if truthy (fl_flags r .& FL_EXISTS) && negb (bool_decide (flock_types a i filp <> [])) then - ENOENT else 0))
  | fp_access : truthy (fl_flags r .& FL_ACCESS) = true -> a' = a -> flock_progress a i filp r x a' (inr (0, false))
  | fp_go new : truthy (fl_flags r .& FL_ACCESS) = false -> fl_type r <> F_UNLCK -> head (flock_types a i filp) <> Some (fl_type r) ->
      evolves a a' -> dropped_types a i filp a' -> spare a' new -> new = alloc_ptr x -> new <> 0 -> sh_info a !! new = None ->
      (forall p, ~ listed a p -> p <> new -> sh_info a' !! p = sh_info a !! p) -> (forall p, listed a' p -> listed a p) ->
      flock_progress a i filp r x a' (inr (new, bool_decide (flock_types a i filp <> []))).

(** The search for the lock of the open file and what it does to it. *)
Lemma drop_step w a i filp : locks_inv w a ->
  exists before hit, find_lock w (Head i) (front_test (fun f => filp =? fl_file f)) = Some (before, hit) /\
    hit = bool_decide (flock_types a i filp <> []) /\
    (hit = true -> exists p f, load w before = Some p /\ p ∈ sh_list a i /\ get w p = Some f /\ head (flock_types a i filp) = Some (fl_type f) /\
      exists w', locks_delete_lock w before = Some w' /\ locks_inv w' (sh_delete a i p) /\ evolves a (sh_delete a i p) /\ dropped_types a i filp (sh_delete a i p) /\
        forall j o, owner_ranges (sh_delete a i p) j o = owner_ranges a j o) /\
    (hit = false -> flock_types a i filp = []).
Proof.
  intros INV. pose proof INV as [Gd T]. pose proof Gd as (R & W & Q).
  destruct (front_search w a i (fun f => filp =? fl_file f) INV ltac:(by intros [])) as (pre & post & hit & E & El & Hpre & Hhit & Hmiss).
  exists (slot_after i pre), hit. split; [done|].
  assert (omap (flock_type a filp) pre = []) as Epre.
  { apply omap_none. intros q Hq. unfold flock_type. destruct (sh_info a !! q) as [g|] eqn:Eg; [|done]. cbn. destruct (Hpre q g Hq Eg) as [-> [->|K]]; [done|].
    by rewrite Z.eqb_sym, K, andb_false_r. }
  destruct hit.
  - destruct (Hhit eq_refl) as (p & post' & f & -> & Ef & F1 & F2 & F3%Z.eqb_eq).
    assert (flock_types a i filp = fl_type f :: omap (flock_type a filp) post') as Et.
    { unfold flock_types. rewrite El, omap_app, Epre. cbn. unfold flock_type at 1. rewrite Ef. cbn. by rewrite F1, F2, <- F3, Z.eqb_refl. }
    split; [by rewrite bool_decide_true by (by rewrite Et)|]. split; [|done]. intros _.
    assert (p ∈ sh_list a i) as Hp by (rewrite El; list_solver). destruct (repr_get w a p f R Ef) as (f' & Ef' & Efs & _).
    assert (plain f) as Pf.
    { destruct (tb_inode a T i) as [(N & G & En & HG & HN) _ _]. pose proof Hp as Hp'. rewrite En in Hp'. apply elem_of_app in Hp' as [Hp'|Hp'].
      - destruct (HN p Hp') as (g & Eg & _ & [|(_ & _ & ? & _)]); congruence.
      - apply elem_group in Hp' as (o & S & H1 & H2). destruct (proj2 HG o S H1) as (_ & K & _). destruct (K p H2) as (g & Eg & Hg & _). congruence. }
    exists p, f'. split_and!; [apply (load_after w a i pre (p :: post') R El)|done|done|rewrite Et, Efs; by destruct f'|].
    destruct (delete_front w a i pre p post' f INV El Ef F1 Pf) as (w' & E' & I' & V' & OR). exists w'. split_and!; try done.
    intros j g. rewrite (flock_types_delete a i pre p post' f j g W El Ef F1 F2), F3; [done|]. intros q h Hq Eh. destruct (Hpre q h Hq Eh) as [_ [|K%Z.eqb_neq]]; [by left | right; congruence].
  - assert (flock_types a i filp = []) as Et.
    { unfold flock_types. rewrite El, omap_app, Epre. cbn. apply omap_none. intros q Hq. unfold flock_type. destruct (sh_info a !! q) as [g|] eqn:Eg; [|done]. cbn. by rewrite (Hmiss eq_refl q g Hq Eg). }
    split; [by rewrite Et|]. done.
Qed.

Lemma idle_delete a i p n : wf a -> p ∈ sh_list a i -> idle a n -> idle (sh_delete a i p) n.
Proof.
  intros W Hp (H1 & H2 & H3 & H4). assert (n <> p) as Hn by (intros ->; apply H2; by exists i). split_and!.
  - simpl. by rewrite lookup_delete_ne.
  - change (~ listed (sh_unlist a i p) n). rewrite (listed_unlist a i p n W Hp). tauto.
  - rewrite (waits_cleared a (sh_delete a i p) p n W) by done. tauto.
  - simpl. by rewrite fn_lookup_insert_ne.
Qed.

Lemma request_delete a i p rq r filp : wf a -> p ∈ sh_list a i -> flock_request a rq r filp -> flock_request (sh_delete a i p) rq r filp.
Proof.
  intros W Hp [Q1 Q2 Q3 Q4 Q5 Q6 Q7]. assert (rq <> p) as Hn by (intros ->; destruct Q2 as (_ & K & _); apply K; by exists i).
  split; try done; [simpl; by rewrite lookup_delete_ne | by apply idle_delete].
Qed.

(** From the search on, with the structure that was allocated. *)
Lemma flock_drop_ok w a i filp rq r new : locks_inv w a -> flock_request a rq r filp -> spare a new -> (fl_type r = F_UNLCK -> new = 0) ->
  exists w' res a',
    ('(before, hit) ← find_lock w (Head i) (front_test (fun f => filp =? fl_file f));
     same ← (if (hit : bool) then fl ← load w before; f ← get w fl; Some (fl_type r =? fl_type f) else Some false);
     if (same : bool) then w ← free_unused w new; Some (w, inl 0) else
     w ← (if (hit : bool) then locks_delete_lock w before else Some w);
     if fl_type r =? F_UNLCK then
       w ← free_unused w new;
       Some (w, inl (if truthy (fl_flags r .& FL_EXISTS) && negb hit then - ENOENT else 0))
     else Some (w, inr (new, hit))) = Some (w', res) /\ locks_inv w' a' /\ (forall j o, owner_ranges a' j o = owner_ranges a j o) /\
    match res with
    | inl e => head (flock_types a i filp) = Some (fl_type r) /\ e = 0 /\ frame [new] a a' /\ sh_info a' !! new = None \/
        fl_type r = F_UNLCK /\ e = (if truthy (fl_flags r .& FL_EXISTS) && negb (bool_decide (flock_types a i filp <> [])) then - ENOENT else 0) /\
        evolves a a' /\ dropped_types a i filp a' /\ (forall p, ~ listed a p -> sh_info a' !! p = sh_info a !! p) /\ (forall p, listed a' p -> listed a p)
    | inr (new', d) => new' = new /\ d = bool_decide (flock_types a i filp <> []) /\ fl_type r <> F_UNLCK /\ head (flock_types a i filp) <> Some (fl_type r) /\
        evolves a a' /\ dropped_types a i filp a' /\ spare a' new /\ flock_request a' rq r filp /\ (forall p, ~ listed a p -> sh_info a' !! p = sh_info a !! p) /\ (forall p, listed a' p -> listed a p)
    end.
Proof.
  intros INV FQ Sp Hu. pose proof INV as [Gd T]. pose proof Gd as (R & W & Q).
  destruct (drop_step w a i filp INV) as (before & hit & E & Ehit & Hhit & Hmiss). rewrite E, bind_Some_eq. destruct hit.
  - destruct (Hhit eq_refl) as (p & f & El & Hp & Ef & Et & w1 & E1 & I1 & V1 & D1 & OR). rewrite El, bind_Some_eq, Ef, bind_Some_eq, bind_Some_eq.
    destruct (Z.eqb_spec (fl_type r) (fl_type f)) as [Ht|Ht].
    + destruct (free_frame w a new INV Sp) as (w' & a' & Ef' & I' & FR & Fn). rewrite Ef', bind_Some_eq. exists w', (inl 0), a'. split_and!; try done.
      * intros j o. apply owner_ranges_ext; [apply FR|]. intros q Hq. apply (fr_info _ _ _ FR). intros ->%list_elem_of_singleton.
        destruct Sp as [->|[(_ & K & _) _]]; [apply (wf_listed a W) in Hq; rewrite (wf_null a W) in Hq; by destruct Hq | apply K; by exists j].
      * left. by rewrite Et, Ht.
    + rewrite E1, bind_Some_eq.
      assert (forall q, ~ listed a q -> sh_info (sh_delete a i p) !! q = sh_info a !! q) as F by (intros q Hq; simpl; rewrite lookup_delete_ne; [done|]; intros ->; apply Hq; by exists i).
      assert (forall q, listed (sh_delete a i p) q -> listed a q) as HL by (intros q Hq; change (listed (sh_unlist a i p) q) in Hq; by apply (listed_unlist a i p q W Hp) in Hq as [? _]).
      destruct (Z.eqb_spec (fl_type r) F_UNLCK) as [Hty|Hty].
      * rewrite (Hu Hty). change (free_unused w1 0) with (Some w1). rewrite bind_Some_eq. eexists w1, _, (sh_delete a i p). split; [done|]. split_and!; try done. right.
        by rewrite <- Ehit.
      * exists w1, (inr (new, true)), (sh_delete a i p). split_and!; try done; [rewrite Et; congruence| |by apply request_delete].
        destruct Sp as [->|[Hi (g & Eg & Pg)]]; [by left | right]. split; [by apply idle_delete|]. exists g. rewrite F; [done | by destruct Hi as (_ & ? & _)].
  - rewrite !bind_Some_eq. pose proof (Hmiss eq_refl) as Em.
    assert (dropped_types a i filp a) as D by (intros j g; destruct (Z.eqb_spec j i) as [->|]; [|done]; destruct (Z.eqb_spec g filp) as [->|]; [by rewrite Em | done]).
    destruct (Z.eqb_spec (fl_type r) F_UNLCK) as [Hty|Hty].
    + rewrite (Hu Hty). change (free_unused w 0) with (Some w). rewrite bind_Some_eq. eexists w, _, a. split; [done|]. split_and!; try done. right. rewrite <- Ehit. split_and!; try done. by apply evolves_refl.
    + exists w, (inr (new, false)), a. split_and!; try done; [by rewrite Em | by apply evolves_refl].
Qed.

(** Both parts start from one allocation. *)
Lemma alloc_one w a p f : locks_inv w a -> alloc_result a (Some (p, f)) ->
  exists w' a', locks_alloc_lock w (Some (p, f)) = (w', p) /\ allocated w a w' a' p 0.
Proof.
  intros INV Hx. destruct (alloc_both w a (Some (p, f)) None INV Hx) as (w1 & w2 & a2 & E1 & E2 & AL); [done|right; by destruct Hx as [(? & _) _]|].
  exists w1, a2. split; [done|]. injection E2 as <-. done.
Qed.

Lemma flock_first_ok w a i filp rq r x : locks_inv w a -> flock_request a rq r filp -> alloc_result a x ->
  exists w' res a', flock_first x w i filp rq = Some (w', res) /\ locks_inv w' a' /\ (forall j o, owner_ranges a' j o = owner_ranges a j o) /\
    flock_progress a i filp r x a' res /\ (forall d, res = inr d -> flock_request a' rq r filp).
Proof.
  intros INV FQ Hx. pose proof INV as [Gd T]. pose proof Gd as (R & W & Q). unfold flock_first.
  rewrite (idle_get w a rq r R (fq_idle _ _ _ _ FQ) (fq_info _ _ _ _ FQ)), bind_Some_eq. cbv zeta.
  destruct (truthy (fl_flags r .& FL_ACCESS)) eqn:EA; cbn [negb andb].
  { exists w, (inr (0, false)), a. split_and!; try done. by apply fp_access. }
  destruct (Z.eqb_spec (fl_type r) F_UNLCK) as [Hty|Hty]; cbn [negb andb].
  - destruct (flock_drop_ok w a i filp rq r 0 INV FQ) as (w' & res & a' & E & I' & OR & K); [by left|done|].
    rewrite (proj2 (Z.eqb_eq _ _) Hty) in E. exists w', res, a'. split; [exact E|]. split; [done|]. split; [done|].
    destruct res as [e|[new' d]]; [|by destruct K as (_ & _ & ? & _)]. split; [|done].
    destruct K as [(K1 & -> & FR & _)|(K1 & -> & K2 & K3 & K4 & K5)]; [apply fp_same; try done|by apply fp_unlock].
    destruct FR as [J1 J2 J3 J4 J5 J6]. split; try done. apply map_eq. intros p. destruct (decide (p = 0)) as [->|]; [|apply J6; list_solver].
    by rewrite (wf_null a W), (wf_null a' (proj1 (proj2 (proj1 I')))).
  - destruct x as [[new f]|]; [|exists w, (inl (- ENOMEM)), a; split_and!; try done; by apply fp_nomem].
    destruct (alloc_one w a new f INV Hx) as (w0 & a0 & E0 & AL). pose proof AL as [I0 V0 FR S1 S2 N1 N2 NE GET]. rewrite E0.
    assert (new <> 0) as Hn0 by (by destruct Hx as [(? & _) _]). rewrite (proj2 (truthy_true new) Hn0). cbn [negb].
    destruct (allocated_known w a w0 a0 new 0 rq AL) as [Hrq Erq]; [by rewrite (fq_info _ _ _ _ FQ)|].
    assert (flock_request a0 rq r filp) as FQ0 by (apply (flock_request_frame a); [apply FR|apply FR|done|done]).
    pose proof (fun p => allocated_listed w a w0 a0 new 0 p INV AL) as FL.
    assert (forall j g, flock_types a0 j g = flock_types a j g) as FT by (intros j g; apply flock_types_ext; [apply FR | intros p Hp; apply FL; by exists j]).
    assert (forall j o, owner_ranges a0 j o = owner_ranges a j o) as OR0 by (intros j o; apply owner_ranges_ext; [apply FR | intros p Hp; apply FL; by exists j]).
    destruct (flock_drop_ok w0 a0 i filp rq r new I0 FQ0 S1) as (w' & res & a' & E & I' & OR & K); [done|].
    rewrite (proj2 (Z.eqb_neq _ _) Hty) in E. exists w', res, a'. split; [exact E|]. split; [done|]. split; [intros j o; by rewrite OR|].
    assert (forall p, p <> new -> sh_info a0 !! p = sh_info a !! p) as F0.
    { intros p Hp. destruct (decide (p = 0)) as [->|]; [|apply (fr_info _ _ _ FR); list_solver]. by rewrite (wf_null a W), (wf_null a0 (proj1 (proj2 (proj1 I0)))). }
    destruct res as [e|[new' d]]; rewrite FT in K.
    + split; [|done]. destruct K as [(K1 & -> & FR' & Fn)|(? & _)]; [|done]. apply fp_same; try done. destruct FR as [J1 J2 J3 J4 J5 J6], FR' as [L1 L2 L3 L4 L5 L6].
      split; try congruence. apply map_eq. intros p. destruct (decide (p = new)) as [->|]; [by rewrite Fn, N1|]. rewrite L6 by list_solver. by apply F0.
    + destruct K as (-> & -> & _ & K1 & K2 & K3 & K4 & K5 & K6 & K7). split; [|done]. apply fp_go; try done.
      * by eapply evolves_trans.
      * intros j g. rewrite K3. by rewrite FT.
      * intros p Hp Hpn. rewrite K6, F0; [done..|]. by rewrite (listed_same a a0) by apply FR.
      * intros p Hp. rewrite <- (listed_same a a0) by apply FR. by apply K7.
Qed.
End Flock.
