(* ===== verification/LocksSystem.v ===== *)
(** * File locks: tasks that lock files together

    [posix_lock_file_wait] and [flock_lock_file_wait] as the steps of a task: it
    makes a request, calls the lock function, sleeps while the request is
    deferred and calls again when it is woken, or takes the request off the
    queue when a signal comes first, and frees it in the end.  Steps of
    different tasks interleave where the code drops [file_lock_lock]; between
    the two halves of [flock_lock_file] they do so as well. *)

From stdpp Require Import gmap functions.
From S2P Require Import Prelude Locks LocksIntervals LocksRepr LocksSteps LocksEvolve LocksPosix LocksState LocksFile LocksCalls LocksLockFile LocksFlock.
From stdpp Require Import list.
Open Scope Z_scope.
Open Scope c_scope.

Inductive request_kind := Posix | Flock (filp : Z).

Inductive task :=
  | Asking (k : request_kind) (inode fl : Z)
  | Dropped (inode filp fl new_fl : Z)
  | Waiting (k : request_kind) (inode fl : Z)
  | Returning (fl error : Z).

Record system := System { sys_locks : locks; sys_tasks : gmap Z task }.

Section System.
Context {ops : LockOps}.

(** What the slab allocator hands out. *)
Definition new_lock (w : locks) (p : Z) (f : file_lock) : Prop :=
  p <> 0 /\ get w p = None /\ fl_next f = 0 /\ fl_block f = [] /\ plain f.
Definition alloc_fresh (w : locks) (x : option (Z * file_lock)) : Prop := match x with Some (p, f) => new_lock w p f | None => True end.

(** The requests that callers make. *)
Definition posix_valid (r : file_lock) : Prop :=
  IS_POSIX r = true /\ (fl_type r = F_RDLCK \/ fl_type r = F_WRLCK \/ fl_type r = F_UNLCK) /\ 0 <= fl_start r <= fl_end r /\ fl_end r <= OFFSET_MAX.
Definition flock_valid (r : file_lock) (filp : Z) : Prop := IS_POSIX r = false /\ IS_LEASE r = false /\ IS_FLOCK r = true /\ fl_file r = filp.
Definition valid (k : request_kind) (r : file_lock) : Prop := match k with Posix => posix_valid r | Flock filp => flock_valid r filp end.

Definition answered (k : request_kind) (inode fl error : Z) : task := if error =? FILE_LOCK_DEFERRED then Waiting k inode fl else Returning fl error.

Inductive step : system -> system -> Prop :=
  | step_request w T t k i p r : T !! t = None -> new_lock w p r -> valid k r -> step (System w T) (System (put w p r) (<[t := Asking k i p]> T))
  | step_posix w T t i fl nspid x1 x2 w' error : T !! t = Some (Asking Posix i fl) -> alloc_fresh w x1 -> alloc_fresh w x2 ->
      (alloc_ptr x1 = 0 \/ alloc_ptr x1 <> alloc_ptr x2) ->
      __posix_lock_file nspid x1 x2 w i fl 0 = Some (w', error) -> step (System w T) (System w' (<[t := answered Posix i fl error]> T))
  | step_flock w T t i filp fl nspid x w' error : T !! t = Some (Asking (Flock filp) i fl) -> alloc_fresh w x ->
      (flock_first x w i filp fl = Some (w', inl error) \/
       exists w1 new_fl, flock_first x w i filp fl = Some (w1, inr (new_fl, false)) /\ flock_second nspid w1 i fl new_fl = Some (w', error)) ->
      step (System w T) (System w' (<[t := answered (Flock filp) i fl error]> T))
  | step_flock_drop w T t i filp fl new_fl x w' : T !! t = Some (Asking (Flock filp) i fl) -> alloc_fresh w x ->
      flock_first x w i filp fl = Some (w', inr (new_fl, true)) -> step (System w T) (System w' (<[t := Dropped i filp fl new_fl]> T))
  | step_flock_resume w T t i filp fl new_fl nspid w' error : T !! t = Some (Dropped i filp fl new_fl) ->
      flock_second nspid w i fl new_fl = Some (w', error) -> step (System w T) (System w' (<[t := answered (Flock filp) i fl error]> T))
  | step_woken w T t k i fl f : T !! t = Some (Waiting k i fl) -> get w fl = Some f -> fl_next f = 0 -> step (System w T) (System w (<[t := Asking k i fl]> T))
  | step_signal w T t k i fl w' error : T !! t = Some (Waiting k i fl) -> __locks_delete_block w fl = Some w' ->
      step (System w T) (System w' (<[t := Returning fl error]> T))
  | step_return w T t fl error w' : T !! t = Some (Returning fl error) -> locks_free_lock w fl = Some w' -> step (System w T) (System w' (delete t T)).

Definition no_locks : locks := Locks ∅ ∅ [] [] [].
Definition initial : system := System no_locks ∅.

Inductive reachable : system -> Prop :=
  | reach_initial : reachable initial
  | reach_step s s' : reachable s -> step s s' -> reachable s'.

(** ** The invariant *)

(** A structure that is in no list of locks and on which nothing waits; it may
    wait itself. *)
Definition loose (a : shape) (p : Z) : Prop := is_Some (sh_info a !! p) /\ ~ listed a p /\ sh_queue a p = [].

Definition task_ok (a : shape) (k : task) : Prop :=
  match k with
  | Asking k _ fl => idle a fl /\ exists r, sh_info a !! fl = Some r /\ plain r /\ valid k r
  | Dropped _ filp fl new_fl => (exists r, flock_request a fl r filp /\ truthy (fl_flags r .& FL_ACCESS) = false /\ fl_type r <> F_UNLCK) /\
      spare a new_fl /\ new_fl <> 0 /\ new_fl <> fl
  | Waiting k _ fl => loose a fl /\ exists r, sh_info a !! fl = Some r /\ plain r /\ valid k r
  | Returning fl _ => idle a fl /\ exists r, sh_info a !! fl = Some r /\ plain r
  end.

Definition structs (k : task) : list Z :=
  match k with Asking _ _ fl => [fl] | Dropped _ _ fl new_fl => [fl; new_fl] | Waiting _ _ fl => [fl] | Returning fl _ => [fl] end.

Record system_ok (s : system) (a : shape) : Prop := {
  so_locks : locks_inv (sys_locks s) a;
  so_task t k : sys_tasks s !! t = Some k -> task_ok a k;
  so_apart t t' k k' p : sys_tasks s !! t = Some k -> sys_tasks s !! t' = Some k' -> p ∈ structs k -> p ∈ structs k' -> t = t'
}.

(** ** What a call leaves alone *)

Definition quiet (N : list Z) (a a' : shape) : Prop :=
  forall p, p ∉ N -> loose a p -> sh_info a' !! p = sh_info a !! p /\ loose a' p /\ (waits a' p -> waits a p).

Lemma loose_idle a p : idle a p <-> loose a p /\ ~ waits a p.
Proof. unfold idle, loose. tauto. Qed.

Lemma task_quiet N a a' k : quiet N a a' -> (forall p, p ∈ structs k -> p ∉ N) -> task_ok a k -> task_ok a' k.
Proof.
  intros HQ HN. assert (forall p, p ∉ N -> idle a p -> idle a' p /\ sh_info a' !! p = sh_info a !! p) as HI.
  { intros p Hp [Hl Hw]%loose_idle. destruct (HQ p Hp Hl) as (E & Hl' & Hw'). split; [|done]. apply loose_idle. split; [done|]. tauto. }
  destruct k as [k i fl|i filp fl new|k i fl|fl e]; cbn [task_ok structs] in *.
  - intros [H1 (r & Er & Hr)]. destruct (HI fl ltac:(apply HN; set_solver) H1) as [H2 E]. split; [done|]. exists r. by rewrite E.
  - intros ((r & [Q1 Q2 Q3 Q4 Q5 Q6 Q7] & K1 & K2) & Sp & Hn & Hne). destruct (HI fl ltac:(apply HN; set_solver) Q2) as [H2 E].
    split; [exists r; split; [split; try done; congruence | done]|]. split; [|done]. destruct Sp as [|[Hi (g & Eg & Pg)]]; [by left | right].
    destruct (HI new ltac:(apply HN; set_solver) Hi) as [H3 E']. split; [done|]. exists g. by rewrite E'.
  - intros [H1 (r & Er & Hr)]. destruct (HQ fl ltac:(apply HN; set_solver) H1) as (E & Hl' & _). split; [done|]. exists r. by rewrite E.
  - intros [H1 (r & Er & Hr)]. destruct (HI fl ltac:(apply HN; set_solver) H1) as [H2 E]. split; [done|]. exists r. by rewrite E.
Qed.

Lemma quiet_trans N M a b c : quiet N a b -> quiet M b c -> quiet (N ++ M) a c.
Proof.
  intros H1 H2 p Hp Hl. destruct (H1 p ltac:(set_solver) Hl) as (E1 & L1 & W1). destruct (H2 p ltac:(set_solver) L1) as (E2 & L2 & W2). split; [congruence|]. tauto.
Qed.

Lemma quiet_frame N a a' : frame N a a' -> quiet N a a'.
Proof.
  intros [F1 F2 F3 F4 F5 F6] p Hp (H1 & H2 & H3). rewrite F6 by done. split; [done|]. unfold loose. rewrite F6, F2, (listed_same a a'), (waits_same a a') by done. by split_and!.
Qed.

Lemma quiet_same a a' : same_shape a a' -> quiet [] a a'.
Proof. intros [S1 S2 S3 S4 S5 S6]. apply quiet_frame. split; try done. intros p _. by rewrite S1. Qed.

Lemma quiet_block a b q : listed a b -> quiet [q] a (sh_block a b q).
Proof.
  intros Hb p Hp (H1 & H2 & H3). split; [done|]. assert (p <> q) as Hpq by set_solver. split.
  - split_and!; try done. simpl. rewrite fn_lookup_insert_ne; [done|]. by intros ->.
  - rewrite waits_block. tauto.
Qed.

Lemma quiet_evolves N a a' : evolves a a' -> (forall p, p ∉ N -> ~ listed a p -> is_Some (sh_info a !! p) -> sh_info a' !! p = sh_info a !! p) ->
  (forall p, p ∉ N -> listed a' p -> listed a p \/ sh_info a !! p = None) -> quiet N a a'.
Proof.
  intros V F L p Hp (H1 & H2 & H3). rewrite F by done. split; [done|]. split; [|by apply ev_waits]. split_and!; [by rewrite F| |].
  - intros [K|K]%L; [done| |done]. rewrite K in H1. by destruct H1.
  - destruct (ev_queue a a' V p) as [|[-> _]]; done.
Qed.

(** One task moves, and what it touches is its own. *)
Lemma system_move N w T a t w' a' k : system_ok (System w T) a -> locks_inv w' a' -> quiet N a a' ->
  (forall p, p ∈ N -> (exists k0, T !! t = Some k0 /\ p ∈ structs k0) \/ sh_info a !! p = None) -> task_ok a' k ->
  (forall p, p ∈ structs k -> (exists k0, T !! t = Some k0 /\ p ∈ structs k0) \/ sh_info a !! p = None) ->
  system_ok (System w' (<[t := k]> T)) a'.
Proof.
  intros [S1 S2 S3] INV HQ HN Hk Hs. cbn in *.
  assert (forall t' k' p, T !! t' = Some k' -> p ∈ structs k' -> is_Some (sh_info a !! p)) as Hknown.
  { intros t' k' p Ht' Hp. specialize (S2 t' k' Ht'). destruct k' as [? ? fl|? ? fl new|? ? fl|fl ?]; cbn [task_ok structs] in *.
    - apply list_elem_of_singleton in Hp as ->. destruct S2 as [_ (r & -> & _)]. by eexists.
    - destruct S2 as ((r & FQ & _) & Sp & Hn & _). assert (p = fl \/ p = new) as [->| ->] by set_solver; [rewrite (fq_info _ _ _ _ FQ); by eexists|].
      destruct Sp as [|[(K & _) _]]; done.
    - apply list_elem_of_singleton in Hp as ->. destruct S2 as [_ (r & -> & _)]. by eexists.
    - apply list_elem_of_singleton in Hp as ->. destruct S2 as [_ (r & -> & _)]. by eexists. }
  assert (forall t' k' p, t' <> t -> T !! t' = Some k' -> p ∈ structs k' -> (exists k0, T !! t = Some k0 /\ p ∈ structs k0) \/ sh_info a !! p = None -> False) as Hclash.
  { intros t' k' p Ht' E Hp [(k0 & Ht & Hp0)|Hp0]; [by apply Ht', (S3 t' t k' k0 p) | destruct (Hknown t' k' p E Hp); congruence]. }
  split; [done|..]; cbn.
  - intros t' k'. destruct (decide (t' = t)) as [->|Hne]; [rewrite lookup_insert_eq; by intros [= <-]|]. rewrite lookup_insert_ne by done. intros E.
    apply (task_quiet N a); [done| |by apply (S2 t')]. intros p Hp HpN. eapply Hclash; eauto.
  - intros t1 t2 k1 k2 p. destruct (decide (t1 = t)) as [->|H1], (decide (t2 = t)) as [->|H2]; rewrite ?lookup_insert_eq, ?lookup_insert_ne by done; try done.
    + intros [= <-] E2 Hp1 Hp2. exfalso. eapply (Hclash t2); eauto.
    + intros E1 [= <-] Hp1 Hp2. exfalso. eapply (Hclash t1); eauto.
    + apply S3.
Qed.

(** ** The calls *)

Lemma fresh_result w a x : repr w a -> alloc_fresh w x -> alloc_result a x.
Proof.
  intros R. destruct x as [[p f]|]; [|done]. intros (H1 & H2 & H3 & H4 & H5). split; [|done]. split_and!; try done. by rewrite (r_info w a R), H2.
Qed.

Lemma request_valid a fl r : idle a fl -> sh_info a !! fl = Some r -> plain r -> posix_valid r -> request a fl r.
Proof. intros Hi E P (H1 & H2 & H3 & H4). by split. Qed.
Lemma flock_request_valid a fl r filp : idle a fl -> sh_info a !! fl = Some r -> plain r -> flock_valid r filp -> flock_request a fl r filp.
Proof. intros Hi E P (H1 & H2 & H3 & H4). by split. Qed.

Lemma idle_same a a' p : same_shape a a' -> idle a p -> idle a' p.
Proof.
  intros SS [Hl Hw]%loose_idle. destruct (quiet_same a a' SS p ltac:(set_solver) Hl) as (_ & Hl' & Hw'). apply loose_idle. tauto.
Qed.

(** After a call of [__posix_lock_file], the request waits or can be freed. *)
Lemma posix_answer w a i fl r x1 x2 a' err : locks_inv w a -> request a fl r ->
  posix_result w a i fl r x1 x2 a' err -> quiet [fl] a a' /\ task_ok a' (answered Posix i fl err).
Proof.
  intros INV RQ [P1 P2 P3].
  assert (posix_valid r) as Hv by (split; [apply RQ|split; [apply RQ | apply (rq_range _ _ _ RQ)]]).
  assert (forall e, e <> FILE_LOCK_DEFERRED -> same_shape a a' -> quiet [fl] a a' /\ task_ok a' (answered Posix i fl e)) as Hsame.
  { intros e He SS. split; [apply (quiet_trans [] [fl] a a' a'); [by apply quiet_same | by intros p _ Hl]|].
    unfold answered. rewrite (proj2 (Z.eqb_neq e _) He). split; [apply (idle_same a); [done | apply RQ]|]. exists r. rewrite (ss_info a a' SS). split; apply RQ. }
  destruct (conflict_test w a i r INV (rq_plain _ _ _ RQ) (proj2 (proj1 (rq_range _ _ _ RQ)))) as (before & hit & _ & H1 & H2).
  destruct (Z.eq_dec (fl_type r) F_UNLCK) as [Hu|Hu]; [|destruct hit].
  3: pose proof (H1 eq_refl) as Hc.
  2: { destruct (P1 Hu (proj1 (H2 eq_refl))) as [(_ & -> & SS)|(_ & b & fb & Hb & Eb & _ & _ & [(_ & -> & SS)|(_ & -> & SS)])]; [by apply Hsame..|].
       apply first_conflict_in in Hb. assert (listed a b) as Hlb by (by exists i). split.
       - apply (quiet_trans [fl] [] a (sh_block a b fl) a'); [by apply quiet_block | by apply quiet_same].
       - split; [|exists r; rewrite (ss_info _ _ SS); split; [apply RQ | split; [apply RQ | done]]].
         destruct (quiet_same _ _ SS fl ltac:(set_solver)) as (_ & K & _); [|done]. destruct (rq_idle _ _ _ RQ) as (I1 & I2 & I3 & I4). split_and!; try done.
         simpl. rewrite fn_lookup_insert_ne; [done|]. by intros ->. }
  all: assert (fl_type r = F_UNLCK \/ ~ conflicting a i r) as HC by tauto.
  all: destruct (truthy (fl_flags r .& FL_ACCESS)) eqn:EA; [destruct (P2 HC eq_refl) as [-> SS]; by apply Hsame|].
  all: destruct (P3 HC eq_refl) as (V & [(-> & SS & _)|(-> & _ & _ & _ & F & _ & L & r' & Er' & Pr')]); [by apply Hsame|].
  all: assert (answered Posix i fl (scan_error (fl_type r) false r (owner_ranges a i (fl_owner r))) = Returning fl (scan_error (fl_type r) false r (owner_ranges a i (fl_owner r)))) as ->
    by (unfold answered, scan_error; destruct (_ && truthy _); done).
  all: assert (quiet [fl] a a') as HQ by (apply quiet_evolves; [done|intros p Hp; apply F; set_solver|intros p _; apply L]).
  all: split; [done|]; split; [|by exists r'].
  all: destruct (rq_idle _ _ _ RQ) as (I1 & I2 & I3 & I4); split_and!; [by exists r'| |intros K; by apply I3, (ev_waits a a')|].
  all: try (intros [K|K]%L; [done | rewrite K in I1; by destruct I1]).
  all: destruct (ev_queue a a' V fl) as [|[-> _]]; done.
Qed.

Lemma idle_quiet N a a' p : quiet N a a' -> p ∉ N -> idle a p -> idle a' p /\ sh_info a' !! p = sh_info a !! p.
Proof. intros HQ Hp [Hl Hw]%loose_idle. destruct (HQ p Hp Hl) as (E & Hl' & Hw'). split; [|done]. apply loose_idle. tauto. Qed.

Lemma quiet_weaken N M a a' : (forall p, p ∈ N -> p ∈ M) -> quiet N a a' -> quiet M a a'.
Proof. intros H HQ p Hp. apply HQ. by intros K%H. Qed.

(** The same for the second part of [flock_lock_file]. *)
Lemma flock_answer a i fl r filp new a' err : flock_request a fl r filp -> new <> fl -> flock_outcome a i fl r new a' err ->
  quiet [fl; new] a a' /\ task_ok a' (answered (Flock filp) i fl err).
Proof.
  intros FQ Hne HO. assert (flock_valid r filp) as Hv by (split_and!; apply FQ).
  assert (forall e, e <> FILE_LOCK_DEFERRED -> quiet [new] a a' -> quiet [fl; new] a a' /\ task_ok a' (answered (Flock filp) i fl e)) as Hret.
  { intros e He HQ. split; [apply (quiet_weaken [new]); [set_solver | done]|]. unfold answered. rewrite (proj2 (Z.eqb_neq e _) He).
    destruct (idle_quiet [new] a a' fl HQ ltac:(set_solver) (fq_idle _ _ _ _ FQ)) as [Hi E]. split; [done|]. exists r. rewrite E. split; apply FQ. }
  destruct HO as [_ _ FR|b fb _ _ Hb Eb _ FR|_ _ FR|_ _ V _ F L _ _].
  - apply Hret; [done | by apply quiet_frame].
  - assert (listed a b) as Hlb by (by exists i). apply quiet_frame in FR as HQ. split; [apply (quiet_trans [fl] [new] a (sh_block a b fl)); [by apply quiet_block | done]|].
    cbn. destruct (fq_idle _ _ _ _ FQ) as (I1 & I2 & I3 & I4). assert (loose (sh_block a b fl) fl) as Hl.
    { split_and!; try done. simpl. rewrite fn_lookup_insert_ne; [done|]. by intros ->. }
    destruct (HQ fl ltac:(set_solver) Hl) as (E & Hl' & _). split; [done|]. exists r. rewrite E. split; [apply FQ|split; [apply FQ | done]].
  - apply Hret; [done | by apply quiet_frame].
  - apply Hret; [done|]. apply quiet_evolves; [done|intros p Hp _ _; apply F; set_solver|]. intros p Hp [K| ->]%L; [by left | set_solver].
Qed.

(** The first part. *)
Lemma flock_first_quiet a i filp r x a' res : flock_progress a i filp r x a' res -> quiet [alloc_ptr x] a a'.
Proof.
  destruct 1 as [_ _ _ SS|_ _ SS|_ _ V _ F L|_ E|new _ _ _ V _ _ -> _ _ F L].
  - apply (quiet_weaken []); [by intros p ?%elem_of_nil | by apply quiet_same].
  - apply (quiet_weaken []); [by intros p ?%elem_of_nil | by apply quiet_same].
  - apply quiet_evolves; [done|intros p _ Hp _; by apply F|intros p _ Hp; left; by apply L].
  - subst. by intros p _ Hl.
  - apply quiet_evolves; [done|intros p Hp Hl _; apply F; [done | set_solver]|intros p _ Hp; left; by apply L].
Qed.

Lemma flock_first_answer a i filp fl r x a' err : flock_request a fl r filp -> fl <> alloc_ptr x -> flock_progress a i filp r x a' (inl err) ->
  task_ok a' (answered (Flock filp) i fl err).
Proof.
  intros FQ Hne HP. pose proof (flock_first_quiet _ _ _ _ _ _ _ HP) as HQ. assert (err <> FILE_LOCK_DEFERRED) as He.
  { inversion HP; subst; try done. by destruct (_ && negb _). }
  unfold answered. rewrite (proj2 (Z.eqb_neq err _) He).
  destruct (idle_quiet _ a a' fl HQ ltac:(set_solver) (fq_idle _ _ _ _ FQ)) as [Hi E]. split; [done|]. exists r. rewrite E. split; apply FQ.
Qed.

(** ** Every step keeps the invariant *)

Lemma strip_valid k r : valid k (strip r) <-> valid k r.
Proof. by destruct k, r. Qed.

Lemma ok_request w T a t k i p r : system_ok (System w T) a -> T !! t = None -> new_lock w p r -> valid k r ->
  exists a', system_ok (System (put w p r) (<[t := Asking k i p]> T)) a'.
Proof.
  intros S Ht Hf Hv. pose proof (so_locks _ _ S) as INV. cbn in INV. pose proof INV as [(R & W & Q) _].
  destruct (alloc_step w a (Some (p, r)) INV (fresh_result w a (Some (p, r)) R Hf)) as (w' & a' & [= <-] & I' & V & Sp & L & Q' & B & A & E & F & N).
  destruct Hf as (Hp & Hg & Hn & Hb & Pr). cbn in *. specialize (N Hp). exists a'. pose proof I' as [(R' & _ & _) _].
  apply (system_move [p] w T a t); try done.
  - apply quiet_frame. split; try done. intros q Hq. apply F. right. set_solver.
  - intros q ->%list_elem_of_singleton. by right.
  - destruct Sp as [|[Hi _]]; [done|]. cbn. split; [done|]. exists (strip r). split; [by rewrite (r_info _ _ R'), get_put, decide_True|]. split; [by destruct r | by apply strip_valid].
  - intros q ->%list_elem_of_singleton. by right.
Qed.

Lemma ok_posix w T a t i fl nspid x1 x2 w' err : system_ok (System w T) a -> T !! t = Some (Asking Posix i fl) -> alloc_fresh w x1 -> alloc_fresh w x2 ->
  (alloc_ptr x1 = 0 \/ alloc_ptr x1 <> alloc_ptr x2) -> __posix_lock_file nspid x1 x2 w i fl 0 = Some (w', err) ->
  exists a', system_ok (System w' (<[t := answered Posix i fl err]> T)) a'.
Proof.
  intros S Ht X1 X2 Hne E. pose proof (so_locks _ _ S) as INV. cbn in INV. pose proof INV as [(R & W & Q) _].
  destruct (so_task _ _ S t _ Ht) as [Hi (r & Er & Pr & Hv)]. pose proof (request_valid a fl r Hi Er Pr Hv) as RQ.
  destruct (posix_lock_file_ok nspid x1 x2 w a i fl r INV RQ (fresh_result w a x1 R X1) (fresh_result w a x2 R X2) Hne) as (w1 & e1 & a' & E1 & I' & PR).
  rewrite E in E1. injection E1 as <- <-. destruct (posix_answer w a i fl r x1 x2 a' err INV RQ PR) as [HQ Hk]. exists a'.
  apply (system_move [fl] w T a t); try done.
  - intros q ->%list_elem_of_singleton. left. eexists. split; [done|]. cbn. set_solver.
  - intros q Hq. left. eexists. split; [done|]. unfold answered in Hq. by destruct (err =? FILE_LOCK_DEFERRED).
Qed.

Lemma alloc_ptr_new a x : wf a -> alloc_result a x -> sh_info a !! alloc_ptr x = None.
Proof. intros W. destruct x as [[p f]|]; [by intros [(_ & ? & _) _] | intros _; apply (wf_null a W)]. Qed.

Lemma ok_flock w T a t i filp fl nspid x w' err : system_ok (System w T) a -> T !! t = Some (Asking (Flock filp) i fl) -> alloc_fresh w x ->
  (flock_first x w i filp fl = Some (w', inl err) \/
   exists w1 new_fl, flock_first x w i filp fl = Some (w1, inr (new_fl, false)) /\ flock_second nspid w1 i fl new_fl = Some (w', err)) ->
  exists a', system_ok (System w' (<[t := answered (Flock filp) i fl err]> T)) a'.
Proof.
  intros S Ht X HE. pose proof (so_locks _ _ S) as INV. cbn in INV. pose proof INV as [(R & W & Q) _].
  destruct (so_task _ _ S t _ Ht) as [Hi (r & Er & Pr & Hv)]. pose proof (flock_request_valid a fl r filp Hi Er Pr Hv) as FQ.
  pose proof (fresh_result w a x R X) as HX. pose proof (alloc_ptr_new a x W HX) as Hnew. assert (fl <> alloc_ptr x) as Hfx by congruence.
  destruct (flock_first_ok w a i filp fl r x INV FQ HX) as (w1 & res & a1 & E1 & I1 & OR & PR & FQ1). pose proof (flock_first_quiet _ _ _ _ _ _ _ PR) as HQ1.
  assert (forall q, q ∈ structs (answered (Flock filp) i fl err) -> q = fl) as Hst by (intros q; unfold answered; destruct (err =? _); cbn; set_solver).
  assert (forall q, q ∈ structs (answered (Flock filp) i fl err) -> (exists k0, T !! t = Some k0 /\ q ∈ structs k0) \/ sh_info a !! q = None) as Hst'.
  { intros q ->%Hst. left. eexists. split; [done|]. cbn. set_solver. }
  assert (forall q, q ∈ [fl; alloc_ptr x] -> (exists k0, T !! t = Some k0 /\ q ∈ structs k0) \/ sh_info a !! q = None) as Hown.
  { intros q Hq. assert (q = fl \/ q = alloc_ptr x) as [->| ->] by set_solver; [|by right]. left. eexists. split; [done|]. cbn. set_solver. }
  destruct HE as [E|(w2 & new & E & E2)]; rewrite E in E1.
  - injection E1 as <- <-. exists a1. apply (system_move [alloc_ptr x] w T a t); try done; [|by apply (flock_first_answer a i filp fl r x)]. intros q Hq. apply Hown. set_solver.
  - injection E1 as <- <-. pose proof (FQ1 _ eq_refl) as FQ'.
    assert (spare a1 new /\ (new = alloc_ptr x \/ new = 0) /\ (truthy (fl_flags r .& FL_ACCESS) = false -> new <> 0 /\ fl_type r <> F_UNLCK)) as (Sp & Hn & Hna).
    { inversion PR; subst; [split_and!; [by left|by right|congruence] | split_and!; [done|by left|done]]. }
    assert (new <> fl) as Hnf by (destruct Hn as [->| ->]; [congruence | intros <-; by rewrite (wf_null a W) in Er]).
    destruct (flock_second_ok nspid w2 a1 i fl r filp new I1 FQ' Sp Hnf Hna) as (w3 & e & a2 & E3 & I2 & HO & _). rewrite E2 in E3. injection E3 as <- <-.
    destruct (flock_answer a1 i fl r filp new a2 err FQ' Hnf HO) as [HQ2 Hk]. exists a2. pose proof (quiet_trans _ _ _ _ _ HQ1 HQ2) as HQ.
    apply (system_move ([alloc_ptr x] ++ [fl; new]) w T a t); try done. intros q Hq. destruct Hn as [->| ->]; [apply Hown; set_solver|].
    destruct (decide (q = 0)) as [->|]; [right; apply (wf_null a W) | apply Hown; set_solver].
Qed.

Lemma ok_flock_drop w T a t i filp fl new x w' : system_ok (System w T) a -> T !! t = Some (Asking (Flock filp) i fl) -> alloc_fresh w x ->
  flock_first x w i filp fl = Some (w', inr (new, true)) -> exists a', system_ok (System w' (<[t := Dropped i filp fl new]> T)) a'.
Proof.
  intros S Ht X E. pose proof (so_locks _ _ S) as INV. cbn in INV. pose proof INV as [(R & W & Q) _].
  destruct (so_task _ _ S t _ Ht) as [Hi (r & Er & Pr & Hv)]. pose proof (flock_request_valid a fl r filp Hi Er Pr Hv) as FQ.
  pose proof (fresh_result w a x R X) as HX. pose proof (alloc_ptr_new a x W HX) as Hnew.
  destruct (flock_first_ok w a i filp fl r x INV FQ HX) as (w1 & res & a1 & E1 & I1 & OR & PR & FQ1). rewrite E in E1. injection E1 as <- <-.
  pose proof (FQ1 _ eq_refl) as FQ'. pose proof (flock_first_quiet _ _ _ _ _ _ _ PR) as HQ1.
  inversion PR as [| | | |n A1 A2 A3 V D Sp Hn Hn0 Hni F L En]; subst. exists a1. apply (system_move [alloc_ptr x] w T a t); try done.
  - intros q ->%list_elem_of_singleton. by right.
  - cbn. split; [by exists r|]. split_and!; [done|done|congruence].
  - cbn. intros q Hq. assert (q = fl \/ q = alloc_ptr x) as [->| ->] by set_solver; [|by right]. left. eexists. split; [done|]. cbn. set_solver.
Qed.

Lemma ok_flock_resume w T a t i filp fl new nspid w' err : system_ok (System w T) a -> T !! t = Some (Dropped i filp fl new) ->
  flock_second nspid w i fl new = Some (w', err) -> exists a', system_ok (System w' (<[t := answered (Flock filp) i fl err]> T)) a'.
Proof.
  intros S Ht E. pose proof (so_locks _ _ S) as INV. cbn in INV. destruct (so_task _ _ S t _ Ht) as ((r & FQ & A1 & A2) & Sp & Hn & Hne).
  destruct (flock_second_ok nspid w a i fl r filp new INV FQ Sp Hne ltac:(done)) as (w1 & e & a' & E1 & I' & HO & _). rewrite E in E1. injection E1 as <- <-.
  destruct (flock_answer a i fl r filp new a' err FQ Hne HO) as [HQ Hk]. exists a'. apply (system_move [fl; new] w T a t); try done.
  - intros q Hq. left. eexists. split; [done|]. cbn. set_solver.
  - intros q Hq. left. eexists. split; [done|]. cbn. unfold answered in Hq. destruct (err =? FILE_LOCK_DEFERRED); cbn in Hq; set_solver.
Qed.

Lemma loose_woken w a fl f : repr w a -> wf a -> queues_in a -> loose a fl -> get w fl = Some f -> fl_next f = 0 -> idle a fl.
Proof.
  intros R W Q Hl Ef Hn. apply loose_idle. split; [done|]. intros [b Hb]. pose proof (r_wait w a R fl f b Ef Hb) as E. rewrite Hn in E. subst b.
  destruct (Q 0) as [i Hi]; [intros K; rewrite K in Hb; by apply elem_of_nil in Hb|]. apply (wf_listed a W) in Hi. rewrite (wf_null a W) in Hi. by destruct Hi.
Qed.

Lemma ok_woken w T a t k i fl f : system_ok (System w T) a -> T !! t = Some (Waiting k i fl) -> get w fl = Some f -> fl_next f = 0 ->
  system_ok (System w (<[t := Asking k i fl]> T)) a.
Proof.
  intros S Ht Ef Hn. pose proof (so_locks _ _ S) as INV. cbn in INV. pose proof INV as [(R & W & Q) _]. destruct (so_task _ _ S t _ Ht) as [Hl (r & Er & Pr & Hv)].
  apply (system_move [] w T a t); try done.
  - intros q Hq. by apply elem_of_nil in Hq.
  - split; [by apply (loose_woken w a fl f) | by exists r].
  - intros q Hq. left. by eexists.
Qed.

Lemma unblock_step w a fl : locks_inv w a -> loose a fl ->
  exists w', __locks_delete_block w fl = Some w' /\ locks_inv w' (sh_unblock a fl) /\ idle (sh_unblock a fl) fl /\ quiet [] a (sh_unblock a fl).
Proof.
  intros [(R & W & Q) [T1 T2]] (H1 & H2 & H3). destruct (delete_block_ok w a fl R W H1 H2 H3) as (w' & E & R'). exists w'. split; [done|].
  assert (forall b q, q ∈ sh_queue (sh_unblock a fl) b -> q ∈ sh_queue a b /\ q <> fl) as Hq by (intros b q; apply elem_of_unlink).
  split; [split; [split; [done|split; [by apply wf_unblock | by apply queues_unblock]]|split; [intros i; by apply (inode_ext a)|]]|split].
  - intros b q fb fq [Hb _]%Hq. by apply T2.
  - split_and!; try done; [intros [b [_ ?]%Hq]; done|]. simpl. by rewrite H3.
  - intros p _ (L1 & L2 & L3). split; [done|]. split; [split_and!; try done; simpl; by rewrite L3|]. intros [b [Hb _]%Hq]. by exists b.
Qed.

Lemma ok_signal w T a t k i fl w' err : system_ok (System w T) a -> T !! t = Some (Waiting k i fl) -> __locks_delete_block w fl = Some w' ->
  exists a', system_ok (System w' (<[t := Returning fl err]> T)) a'.
Proof.
  intros S Ht E. destruct (so_task _ _ S t _ Ht) as [Hl (r & Er & Pr & Hv)]. destruct (unblock_step w a fl (so_locks _ _ S) Hl) as (w1 & E1 & I' & Hi & HQ).
  rewrite E in E1. injection E1 as <-. exists (sh_unblock a fl). apply (system_move [] w T a t); try done.
  - intros q Hq. by apply elem_of_nil in Hq.
  - split; [done | by exists r].
  - intros q Hq. left. by eexists.
Qed.

Lemma ok_return w T a t fl err w' : system_ok (System w T) a -> T !! t = Some (Returning fl err) -> locks_free_lock w fl = Some w' ->
  exists a', system_ok (System w' (delete t T)) a'.
Proof.
  intros S Ht E. pose proof (so_locks _ _ S) as INV. cbn in INV. destruct (so_task _ _ S t _ Ht) as [Hi (r & Er & Pr)].
  assert (spare a fl) as Sp by (right; split; [done | by exists r]). pose proof INV as [(R & W & Q) _].
  destruct (free_frame w a fl INV Sp) as (w1 & a' & E1 & I' & FR & Fn). unfold free_unused in E1.
  assert (fl <> 0) as Hf0 by (intros ->; by rewrite (wf_null a W) in Er). rewrite (proj2 (truthy_true fl) Hf0), E in E1. injection E1 as <-.
  exists a'. destruct S as [S1 S2 S3]. cbn in *. split; [done|..]; cbn.
  - intros t' k' [Hne E']%lookup_delete_Some. apply (task_quiet [fl] a); [by apply quiet_frame| |by apply (S2 t')].
    intros p Hp ->%list_elem_of_singleton. apply Hne. apply (S3 t t' (Returning fl err) k' fl); try done. cbn. set_solver.
  - intros t1 t2 k1 k2 p [_ E1]%lookup_delete_Some [_ E2]%lookup_delete_Some. by apply S3.
Qed.

Lemma system_step_ok s s' a : system_ok s a -> step s s' -> exists a', system_ok s' a'.
Proof.
  intros S H. destruct H; eauto using ok_request, ok_posix, ok_flock, ok_flock_drop, ok_flock_resume, ok_woken, ok_signal, ok_return.
Qed.

Lemma initial_ok : system_ok initial (Shape ∅ (fun _ => []) (fun _ => []) [] [] []).
Proof.
  set (a := Shape _ _ _ _ _ _). assert (forall p, ~ listed a p) as Hl by (by intros p [i ?%elem_of_nil]). assert (forall p, ~ waits a p) as Hw by (by intros p [i ?%elem_of_nil]).
  assert (forall p, sh_info a !! p = None) as Hi by (intros p; apply lookup_empty).
  assert (forall p, get no_locks p = None) as Hg by (intros p; apply lookup_empty).
  split; [split|by intros t k|by intros t t' k k' p].
  - split; [|split; [|by intros b []]].
    + split; [intros p; by rewrite Hi, Hg|..]; try done; cbn; intros p f; by rewrite Hg.
    + assert (NoDup (@nil Z)) as ND by constructor. split; cbn; try done; try (by intros i p ?%elem_of_nil); try (by intros i j p ?%elem_of_nil).
      * split; [done|]. intros q. split; [by intros ?%elem_of_nil|]. intros (b & f & E & _). by rewrite lookup_empty in E.
      * split; [done|]. intros q. split; [by intros ?%elem_of_nil | by intros ?%Hl].
  - split; [|by intros b q fb fq ?%elem_of_nil]. intros i. split; [|done|by intros p q f g ?%elem_of_nil].
    exists [], []. split; [done|]. split; [split; [constructor|] | ]; by intros * ?%elem_of_nil.
Qed.

Theorem reachable_ok s : reachable s -> exists a, system_ok s a.
Proof. induction 1 as [|s s' _ [a IH] H]; [eexists; apply initial_ok | by apply (system_step_ok s s' a)]. Qed.
End System.
