(* ===== verification/LocksRuns.v ===== *)
(** * File locks: runs of the system

    A run is a list of actions; [run] checks that each of them is a step, so that
    states can be reached by computation. *)

From stdpp Require Import gmap functions.
From S2P Require Import Prelude Locks LocksIntervals LocksRepr LocksSteps LocksEvolve LocksPosix LocksState LocksFile LocksCalls LocksLockFile LocksFlock LocksSystem.
From stdpp Require Import list.
Open Scope Z_scope.
Open Scope c_scope.

Inductive action :=
  | Request (t : Z) (k : request_kind) (i p : Z) (r : file_lock)
  | Call (t : Z) (x1 x2 : option (Z * file_lock))
  | Resume (t : Z)
  | Woken (t : Z)
  | Return (t : Z).

Section Runs.
Context {ops : LockOps}.

Definition freshb (w : locks) (p : Z) (f : file_lock) : bool :=
  negb (p =? 0) && bool_decide (get w p = None) && (fl_next f =? 0) && bool_decide (fl_block f = []) && (fl_ops f =? 0) && (fl_lmops f =? 0).
Definition allocb (w : locks) (x : option (Z * file_lock)) : bool := match x with Some (p, f) => freshb w p f | None => true end.
Definition validb (k : request_kind) (r : file_lock) : bool :=
  match k with
  | Posix => IS_POSIX r && ((fl_type r =? F_RDLCK) || (fl_type r =? F_WRLCK) || (fl_type r =? F_UNLCK)) && (0 <=? fl_start r) && (fl_start r <=? fl_end r) && (fl_end r <=? OFFSET_MAX)
  | Flock filp => negb (IS_POSIX r) && negb (IS_LEASE r) && IS_FLOCK r && (fl_file r =? filp)
  end.

Definition act (s : system) (x : action) : option system :=
  let '(System w T) := s in
  match x with
  | Request t k i p r =>
      if bool_decide (T !! t = None) && freshb w p r && validb k r then Some (System (put w p r) (<[t := Asking k i p]> T)) else None
  | Call t x1 x2 =>
      if negb (allocb w x1 && allocb w x2 && ((alloc_ptr x1 =? 0) || negb (alloc_ptr x1 =? alloc_ptr x2))) then None else
      match T !! t with
      | Some (Asking Posix i fl) => '(w', e) ← __posix_lock_file 0 x1 x2 w i fl 0; Some (System w' (<[t := answered Posix i fl e]> T))
      | Some (Asking (Flock filp) i fl) =>
          '(w', res) ← flock_first x1 w i filp fl;
          match res with
          | inl e => Some (System w' (<[t := answered (Flock filp) i fl e]> T))
          | inr (new, true) => Some (System w' (<[t := Dropped i filp fl new]> T))
          | inr (new, false) => '(w'', e) ← flock_second 0 w' i fl new; Some (System w'' (<[t := answered (Flock filp) i fl e]> T))
          end
      | _ => None
      end
  | Resume t =>
      match T !! t with
      | Some (Dropped i filp fl new) => '(w', e) ← flock_second 0 w i fl new; Some (System w' (<[t := answered (Flock filp) i fl e]> T))
      | _ => None
      end
  | Woken t =>
      match T !! t with
      | Some (Waiting k i fl) => f ← get w fl; if fl_next f =? 0 then Some (System w (<[t := Asking k i fl]> T)) else None
      | _ => None
      end
  | Return t =>
      match T !! t with
      | Some (Returning fl e) => w' ← locks_free_lock w fl; Some (System w' (delete t T))
      | _ => None
      end
  end.

Fixpoint run (s : system) (l : list action) : option system := match l with [] => Some s | x :: l => s' ← act s x; run s' l end.

Lemma freshb_true w p f : freshb w p f = true -> new_lock w p f.
Proof.
  unfold freshb. rewrite !andb_true_iff, negb_true_iff, !bool_decide_eq_true, Z.eqb_neq, !Z.eqb_eq. intros (((((H1 & H2) & H3) & H4) & H5) & H6). by split_and!.
Qed.
Lemma allocb_true w x : allocb w x = true -> alloc_fresh w x.
Proof. destruct x as [[p f]|]; [apply freshb_true | done]. Qed.
Lemma validb_true k r : validb k r = true -> valid k r.
Proof.
  destruct k; cbn; rewrite !andb_true_iff.
  - rewrite !orb_true_iff, !Z.eqb_eq, !Z.leb_le. intros ((((H1 & H2) & H3) & H4) & H5). split_and!; try done; try lia.
  - rewrite !negb_true_iff, Z.eqb_eq. intros (((H1 & H2) & H3) & H4). by split_and!.
Qed.

Lemma act_step s x s' : act s x = Some s' -> step s s'.
Proof.
  destruct s as [w T], x as [t k i p r|t x1 x2|t|t|t]; cbn [act].
  - destruct (_ && _) eqn:E; [|done]. intros [= <-]. rewrite !andb_true_iff, bool_decide_eq_true in E. destruct E as ((E1 & E2) & E3).
    apply step_request; [done|by apply freshb_true|by apply validb_true].
  - destruct (negb _) eqn:E; [done|]. apply negb_false_iff in E. rewrite !andb_true_iff, orb_true_iff, negb_true_iff, Z.eqb_neq, Z.eqb_eq in E. destruct E as ((X1 & X2) & Hne).
    apply allocb_true in X1, X2. destruct (T !! t) as [[[|filp] i fl| | |]|] eqn:Et; try done.
    + destruct (__posix_lock_file 0 x1 x2 w i fl 0) as [[w' e]|] eqn:Ec; [|done]. intros [= <-]. eapply (step_posix w T t i fl 0 x1 x2); try done.
    + destruct (flock_first x1 w i filp fl) as [[w' [e|[new []]]]|] eqn:Ec; [| | |done]; cbn [mbind option_bind].
      * intros [= <-]. apply (step_flock w T t i filp fl 0 x1); [done|done|by left].
      * intros [= <-]. by apply (step_flock_drop w T t i filp fl new x1).
      * destruct (flock_second 0 w' i fl new) as [[w'' e]|] eqn:Es; [|done]. intros [= <-]. apply (step_flock w T t i filp fl 0 x1); [done|done|]. right. by exists w', new.
  - destruct (T !! t) as [[|i filp fl new| |]|] eqn:Et; try done. destruct (flock_second 0 w i fl new) as [[w' e]|] eqn:Es; [|done]. intros [= <-]. by apply (step_flock_resume w T t i filp fl new 0).
  - destruct (T !! t) as [[| |k i fl|]|] eqn:Et; try done. destruct (get w fl) as [f|] eqn:Ef; [|done]. cbn. destruct (Z.eqb_spec (fl_next f) 0); [|done]. intros [= <-]. by eapply step_woken.
  - destruct (T !! t) as [[| | |fl e]|] eqn:Et; try done. destruct (locks_free_lock w fl) as [w'|] eqn:Ef; [|done]. intros [= <-]. by eapply step_return.
Qed.

Lemma run_reachable l s s' : reachable s -> run s l = Some s' -> reachable s'.
Proof.
  revert s. induction l as [|x l IH]; intros s R; [by intros [= <-]|]. cbn. destruct (act s x) as [s1|] eqn:E; [|done]. apply IH. eapply reach_step; [done | by apply act_step in E].
Qed.
Lemma run_witness (P : system -> bool) l : match run initial l with Some s => P s | None => false end = true -> exists s, reachable s /\ P s = true.
Proof. destruct (run initial l) as [s|] eqn:E; [|done]. intros H. exists s. split; [|done]. apply (run_reachable l initial); [apply reach_initial | done]. Qed.
End Runs.

(** ** Requests *)

#[local] Instance no_callbacks : LockOps := { has_release := fun _ => false; has_copy := fun _ => false; has_notify := fun _ => false; fl_compare_owner := fun _ => None }.

Definition blank : file_lock := FileLock 0 [] 0 0 0 0 0 0 0 0 0 0 0.
Definition posix_request (o s e t flags : Z) : file_lock := FileLock 0 [] o (FL_POSIX .| flags) t 0 0 0 s e 0 0 0.
Definition flock_request_for (filp t flags : Z) : file_lock := FileLock 0 [] 0 (FL_FLOCK .| flags) t 0 0 filp 0 OFFSET_MAX 0 0 0.
