(* ===== verification/LocksTheorems.v ===== *)
(** * File locks: theorems

    What holds in every state that tasks can reach together, said of the memory
    of the kernel: the lists are read by following [fl_next]. *)

From stdpp Require Import gmap functions.
From S2P Require Import Prelude Locks LocksIntervals LocksRepr LocksSteps LocksEvolve LocksPosix LocksState LocksFile LocksCalls LocksLockFile LocksFlock LocksSystem LocksRuns.
From stdpp Require Import list.
Open Scope Z_scope.
Open Scope c_scope.

(** ** Reading the lists *)

Fixpoint walk (fuel : nat) (w : locks) (s : slot) : option (list Z) :=
  match fuel with
  | O => None
  | S fuel => p ← load w s; if negb (truthy p) then Some [] else l ← walk fuel w (Next p); Some (p :: l)
  end.

Definition inode_locks (w : locks) (i : Z) : option (list Z) := walk (locks_fuel w) w (Head i).

(** The lock that an owner has on a byte. *)
Definition covering (w : locks) (o x p : Z) : option Z :=
  f ← get w p; if IS_POSIX f && (fl_owner f =? o) && ((fl_start f <=? x) && (x <=? fl_end f)) then Some (fl_type f) else None.
Definition held_bytes (w : locks) (i o x : Z) : option Z := l ← inode_locks w i; head (omap (covering w o x) l).

(** The BSD locks of an open file. *)
Definition flock_at (w : locks) (file p : Z) : option Z :=
  f ← get w p; if negb (IS_POSIX f) && negb (IS_LEASE f) && (fl_file f =? file) then Some (fl_type f) else None.
Definition file_flocks (w : locks) (i file : Z) : list Z := omap (flock_at w file) (default [] (inode_locks w i)).

(** ** What a call is to do *)

(** On the bytes of all files: [h i o x] is the lock of the owner [o] on the byte
    [x] of the file [i]. *)
Definition excluded (h : Z -> Z -> Z -> option Z) (i : Z) (r : file_lock) : Prop :=
  exists o x t, o <> fl_owner r /\ fl_start r <= x <= fl_end r /\ h i o x = Some t /\ (t = F_WRLCK \/ fl_type r = F_WRLCK).
Definition unheld (h : Z -> Z -> Z -> option Z) (i : Z) (r : file_lock) : Prop := forall x, fl_start r <= x <= fl_end r -> h i (fl_owner r) x = None.
Definition locked (h : Z -> Z -> Z -> option Z) (i : Z) (r : file_lock) (j o x : Z) : option Z :=
  if (j =? i) && covers r o x then (if fl_type r =? F_UNLCK then None else Some (fl_type r)) else h j o x.

Inductive posix_outcome (h h' : Z -> Z -> Z -> option Z) (i : Z) (r : file_lock) (x1 x2 : option (Z * file_lock)) : Z -> Prop :=
  | po_again : fl_type r <> F_UNLCK -> excluded h i r -> truthy (fl_flags r .& FL_SLEEP) = false ->
      (forall j o x, h' j o x = h j o x) -> posix_outcome h h' i r x1 x2 (- EAGAIN)
  | po_wait e : fl_type r <> F_UNLCK -> excluded h i r -> truthy (fl_flags r .& FL_SLEEP) = true -> e = - EDEADLK \/ e = FILE_LOCK_DEFERRED ->
      (forall j o x, h' j o x = h j o x) -> posix_outcome h h' i r x1 x2 e
  | po_test : fl_type r = F_UNLCK \/ ~ excluded h i r -> truthy (fl_flags r .& FL_ACCESS) = true ->
      (forall j o x, h' j o x = h j o x) -> posix_outcome h h' i r x1 x2 0
  | po_nolock : fl_type r = F_UNLCK \/ ~ excluded h i r -> truthy (fl_flags r .& FL_ACCESS) = false ->
      x1 = None /\ fl_type r <> F_UNLCK \/ x2 = None /\ 0 < fl_start r ->
      (forall j o x, h' j o x = h j o x) -> posix_outcome h h' i r x1 x2 (- ENOLCK)
  | po_missing : fl_type r = F_UNLCK -> truthy (fl_flags r .& FL_ACCESS) = false -> truthy (fl_flags r .& FL_EXISTS) = true -> unheld h i r ->
      (forall j o x, h' j o x = h j o x) -> posix_outcome h h' i r x1 x2 (- ENOENT)
  | po_set : fl_type r = F_UNLCK \/ ~ excluded h i r -> truthy (fl_flags r .& FL_ACCESS) = false ->
      (fl_type r = F_UNLCK -> truthy (fl_flags r .& FL_EXISTS) = true -> ~ unheld h i r) ->
      (forall j o x, h' j o x = locked h i r j o x) -> posix_outcome h h' i r x1 x2 0.




Section Theorems.
Context {ops : LockOps}.

Lemma walk_chain w l s fuel : chain w s l -> (length l < fuel)%nat -> walk fuel w s = Some l.
Proof.
  revert s fuel. induction l as [|p l IH]; intros s fuel Hc Hf; (destruct fuel as [|fuel]; [cbn in Hf; lia|]); cbn in *.
  - by rewrite Hc.
  - destruct Hc as (-> & Hp & Hc). cbn. rewrite (proj2 (truthy_true p) Hp). cbn. rewrite (IH (Next p) fuel Hc) by lia. done.
Qed.

Lemma inode_locks_ok w a i : locks_inv w a -> inode_locks w i = Some (sh_list a i).
Proof.
  intros [(R & W & Q) _]. apply walk_chain; [apply (r_chain w a R)|]. pose proof (chain_length w _ _ (r_chain w a R i) (wf_nodup a W i)). unfold locks_fuel. lia.
Qed.

Lemma held_bytes_ok w a i o x : locks_inv w a -> held_bytes w i o x = held_by a i o x.
Proof.
  intros INV. unfold held_bytes. rewrite (inode_locks_ok w a i INV). cbn. destruct INV as [(R & W & Q) _]. unfold held_by, owner_ranges.
  pose proof (wf_listed a W i) as HK. induction (sh_list a i) as [|p l IH]; [done|]. cbn [omap list_omap].
  destruct (HK p ltac:(set_solver)) as [h Eh]. destruct (repr_get w a p h R Eh) as (f & Ef & -> & _). specialize (IH ltac:(set_solver)).
  assert (owner_is a o p = IS_POSIX f && (fl_owner f =? o)) as Eo by (unfold owner_is; rewrite Eh; by destruct f).
  assert (covering w o x p = if IS_POSIX f && (fl_owner f =? o) && ((fl_start f <=? x) && (x <=? fl_end f)) then Some (fl_type f) else None) as ->
    by (unfold covering; by rewrite Ef).
  destruct (IS_POSIX f && (fl_owner f =? o)); cbn [andb].
  - rewrite filter_cons_True by done. cbn. rewrite (rng_at_Some _ _ _ Eh). unfold rng. destruct f; cbn. destruct (_ && _); [done | apply IH].
  - rewrite filter_cons_False by congruence. apply IH.
Qed.


(** ** POSIX locks *)

Lemma same_held a a' j o x : same_shape a a' -> held_by a' j o x = held_by a j o x.
Proof. intros SS. apply held_frame; [apply SS|]. intros p _. by rewrite (ss_info a a' SS). Qed.
Lemma block_held a b q j o x : held_by (sh_block a b q) j o x = held_by a j o x.
Proof. done. Qed.

Lemma scan_error_bytes w a i r : locks_inv w a -> 0 <= fl_start r <= fl_end r ->
  let e := scan_error (fl_type r) false r (owner_ranges a i (fl_owner r)) in
  e = - ENOENT /\ fl_type r = F_UNLCK /\ truthy (fl_flags r .& FL_EXISTS) = true /\ unheld (held_by a) i r \/
  e = 0 /\ (fl_type r = F_UNLCK -> truthy (fl_flags r .& FL_EXISTS) = true -> ~ unheld (held_by a) i r).
Proof.
  intros [_ T] Hr. cbv zeta. unfold scan_error. cbn [orb].
  assert (overlap (fl_start r) (fl_end r) (owner_ranges a i (fl_owner r)) = true <-> ~ unheld (held_by a) i r) as HO.
  { destruct (tb_inode a T i) as [(N & G & E & HG & HN) _ _]. destruct (owner_ranges_split a i (fl_owner r) N G E HG HN) as [O1 O2].
    assert (ranges_ok None (owner_ranges a i (fl_owner r))) as RO.
    { destruct (decide (fl_owner r ∈ G.*1)) as [Ho|Ho]; [|by rewrite (O2 Ho)]. apply list_elem_of_fmap in Ho as ([o S] & Eo & Hin). cbn in Eo. subst o.
      destruct (proj2 HG _ S Hin) as (_ & _ & K). apply list_elem_of_split in Hin as (G1 & G2 & EG). by rewrite (O1 G1 S G2 EG). }
    pose proof (overlap_held _ (fl_start r) (fl_end r) None RO ltac:(lia)) as OH. split.
    - intros (x & t & Hx & Ht)%OH Hu. specialize (Hu x Hx). unfold held_by in Hu. congruence.
    - intros Hu. destruct (overlap _ _ _) eqn:EO; [done|]. exfalso. apply Hu. intros x Hx. destruct (held_by a i (fl_owner r) x) as [t|] eqn:Eh; [|done].
      enough (false = true) by done. apply OH. by exists x, t. }
  destruct (Z.eqb_spec (fl_type r) F_UNLCK), (overlap _ _ _), (truthy (fl_flags r .& FL_EXISTS)); cbn; try (right; split; [done | by try tauto]).
  left. split_and!; try done. intros x Hx. destruct (held_by a i (fl_owner r) x) eqn:Eh; [|done]. exfalso.
  assert (false = true) by (apply HO; intros K; specialize (K x Hx); congruence). done.
Qed.

Lemma posix_refines w a i fl r x1 x2 w' a' err : locks_inv w a -> request a fl r -> locks_inv w' a' -> posix_result w a i fl r x1 x2 a' err ->
  posix_outcome (held_by a) (held_by a') i r x1 x2 err.
Proof.
  intros INV RQ INV' [P1 P2 P3]. pose proof (conflict_test w a i r INV (rq_plain _ _ _ RQ) (proj2 (proj1 (rq_range _ _ _ RQ)))) as (before & hit & _ & H1 & H2).
  destruct (Z.eq_dec (fl_type r) F_UNLCK) as [Hu|Hu]; [|destruct hit].
  3: pose proof (H1 eq_refl) as Hc.
  2: { pose proof (proj1 (H2 eq_refl)) as Hc. destruct (P1 Hu Hc) as [(Hs & -> & SS)|(Hs & b & fb & Hb & Eb & _ & _ & [(_ & -> & SS)|(_ & -> & SS)])].
       - apply po_again; try done. intros j o x. by apply same_held.
       - apply po_wait; try done; [by left|]. intros j o x. by apply same_held.
       - apply po_wait; try done; [by right|]. intros j o x. rewrite (same_held _ _ _ _ _ SS). apply block_held. }
  all: assert (fl_type r = F_UNLCK \/ ~ conflicting a i r) as HC by tauto.
  all: destruct (truthy (fl_flags r .& FL_ACCESS)) eqn:EA; [destruct (P2 HC eq_refl) as [-> SS]; apply po_test; try done; intros j o x; by apply same_held|].
  all: destruct (P3 HC eq_refl) as (V & [(-> & SS & Hn)|(-> & _ & HB & HO & _)]); [apply po_nolock; try done; intros j o x; by apply same_held|].
  all: assert (forall j o x, held_by a' j o x = locked (held_by a) i r j o x) as HL by (intros j o x; unfold locked; destruct (Z.eqb_spec j i) as [->|Hj]; cbn [andb];
    [by rewrite HB | unfold held_by; rewrite HO; [done | by left]]).
  all: destruct (scan_error_bytes w a i r INV (proj1 (rq_range _ _ _ RQ))) as [(-> & Hu' & He & Hh)|[-> Hh]]; [|by apply po_set].
  all: apply po_missing; try done.
  intros j o x. rewrite HL. unfold locked. destruct (Z.eqb_spec j i) as [->|]; cbn [andb]; [|done].
  destruct (covers r o x) eqn:EC; [|done]. rewrite (proj2 (Z.eqb_eq _ _) Hu').
  unfold covers in EC. apply andb_true_iff in EC as [[->%Z.eqb_eq ?%Z.leb_le]%andb_true_iff ?%Z.leb_le]. symmetry. by apply Hh.
Qed.

Lemma outcome_ext h1 h1' h2 h2' i r x1 x2 e : (forall j o x, h2 j o x = h1 j o x) -> (forall j o x, h2' j o x = h1' j o x) ->
  posix_outcome h1 h1' i r x1 x2 e -> posix_outcome h2 h2' i r x1 x2 e.
Proof.
  intros E E'. assert (excluded h2 i r <-> excluded h1 i r) as HE by (unfold excluded; setoid_rewrite E; done).
  assert (unheld h2 i r <-> unheld h1 i r) as HU by (unfold unheld; setoid_rewrite E; done).
  destruct 1; [apply po_again|apply po_wait|apply po_test|apply po_nolock|apply po_missing|apply po_set]; rewrite ?HE, ?HU; try done;
    intros j o x; rewrite E', ?E; [done..|]. unfold locked. by rewrite E.
Qed.

(** C2: POSIX locks, in any state that tasks reach together.  A call of
    [__posix_lock_file] returns, and it does to the bytes of the files exactly
    what its result says: the whole request is locked or unlocked for its
    owner and no byte of another owner or file changes, or nothing changes. *)
Theorem posix_lock_file_bytes w T t i fl r nspid x1 x2 :
  reachable (System w T) -> T !! t = Some (Asking Posix i fl) -> get w fl = Some r ->
  alloc_fresh w x1 -> alloc_fresh w x2 -> (alloc_ptr x1 = 0 \/ alloc_ptr x1 <> alloc_ptr x2) ->
  exists w' err, __posix_lock_file nspid x1 x2 w i fl 0 = Some (w', err) /\ posix_outcome (held_bytes w) (held_bytes w') i r x1 x2 err.
Proof.
  intros [a S]%reachable_ok Ht Er X1 X2 Hne. pose proof (so_locks _ _ S) as INV. cbn in INV. pose proof INV as [(R & W & Q) _].
  destruct (so_task _ _ S t _ Ht) as [Hi (r' & Er' & Pr & Hv)]. pose proof (idle_get w a fl r' R Hi Er') as E. rewrite Er in E. injection E as <-.
  pose proof (request_valid a fl r Hi Er' Pr Hv) as RQ.
  destruct (posix_lock_file_ok nspid x1 x2 w a i fl r INV RQ (fresh_result w a x1 R X1) (fresh_result w a x2 R X2) Hne) as (w' & err & a' & E & I' & PR).
  exists w', err. split; [done|]. apply (outcome_ext (held_by a) (held_by a')); [intros j o x; by apply held_bytes_ok..|]. by apply (posix_refines w a i fl r x1 x2 w' a').
Qed.






(** ** Locks in the lists *)

Lemma posix_apart a i p q f g : inode_ok a i -> p ∈ sh_list a i -> q ∈ sh_list a i -> sh_info a !! p = Some f -> sh_info a !! q = Some g ->
  IS_POSIX f = true -> posix_locks_conflict f g = false.
Proof.
  intros HI Hp Hq Ef Eg Hf. destruct (posix_locks_conflict f g) eqn:Hc; [exfalso|done]. pose proof (posix_lock_of a i p f HI Hp Ef Hf) as (_ & _ & Pf).
  pose proof (posix_range a i p f HI Hp Ef Hf) as Hr. assert (IS_POSIX g = true) as Hg by (unfold posix_locks_conflict in Hc; by destruct (IS_POSIX g)).
  pose proof (proj1 (conflict_iff a i f HI Pf Hr) ltac:(by exists q, g)) as (o & x & t & Ho & Hx & Hh & Ht).
  destruct (lock_held a i p f (fl_owner f) x HI Hp Ef Hf eq_refl Hx) as [Hhf _]. destruct (in_posix a i HI o (fl_owner f) x t (fl_type f) Ho Hh Hhf) as [-> E].
  rewrite E in Ht. by destruct Ht.
Qed.

(** C5: at any time, the list of a file ends, holds no lock twice, and no lock in
    it conflicts with another: write locks of POSIX owners and exclusive BSD
    locks are exclusive. *)
Theorem locks_never_conflict s i : reachable s ->
  exists l, inode_locks (sys_locks s) i = Some l /\ NoDup l /\
    forall p q f g, p ∈ l -> q ∈ l -> p <> q -> get (sys_locks s) p = Some f -> get (sys_locks s) q = Some g ->
      (IS_POSIX f = true -> posix_locks_conflict f g = false) /\
      (IS_POSIX f = false -> IS_POSIX g = false -> IS_LEASE f = false -> IS_LEASE g = false -> flock_locks_conflict f g = false).
Proof.
  intros [a S]%reachable_ok. pose proof (so_locks _ _ S) as INV. pose proof INV as [(R & W & Q) T]. exists (sh_list a i).
  split; [by apply inode_locks_ok|]. split; [apply (wf_nodup a W)|]. intros p q f g Hp Hq Hne Ef Eg.
  pose proof (repr_dom _ a p f R Ef) as Ef'. pose proof (repr_dom _ a q g R Eg) as Eg'. split.
  - intros Hf. pose proof (posix_apart a i p q (strip f) (strip g) (tb_inode a T i) Hp Hq Ef' Eg' ltac:(by destruct f)) as K.
    destruct (posix_lock_of a i p (strip f) (tb_inode a T i) Hp Ef' ltac:(by destruct f)) as (_ & _ & _ & Pf).
    rewrite <- K. unfold posix_locks_conflict, posix_same_owner. rewrite Pf. assert (fl_lmops f = 0) as -> by (rewrite <- Pf; by destruct f). by destruct f, g.
  - intros H1 H2 H3 H4. pose proof (in_flock a i (tb_inode a T i) p q (strip f) (strip g) Hp Hq Ef' Eg') as K. destruct f, g. by apply K.
Qed.


(** ** Progress *)



(** ** BSD locks *)








End Theorems.

(** ** Runs *)

#[local] Existing Instance no_callbacks.

(** Owner [o] of thirteen takes the byte [o]; then each asks for the next one's. *)
Definition owners : list Z := [1; 2; 3; 4; 5; 6; 7; 8; 9; 10; 11; 12; 13].
Definition next_owner (o : Z) : Z := o mod 13 + 1.
Definition take (o : Z) : list action :=
  [Request o Posix 7 (100 + o) (posix_request o o o F_WRLCK 0); Call o (Some (200 + o, blank)) (Some (300 + o, blank)); Return o].
Definition await (o : Z) : list action :=
  [Request o Posix 7 (400 + o) (posix_request o (next_owner o) (next_owner o) F_WRLCK FL_SLEEP); Call o (Some (500 + o, blank)) (Some (600 + o, blank))].
Definition ring : list action := concat (take <$> owners) ++ concat (await <$> owners).

(** The task [o] sleeps until the owner [next_owner o] gives a byte back. *)
Definition waits_for_next (s : system) (o : Z) : bool :=
  match sys_tasks s !! o with
  | Some (Waiting Posix 7 fl) =>
      match get (sys_locks s) fl with
      | Some f => match get (sys_locks s) (fl_next f) with Some b => (fl_owner f =? o) && (fl_owner b =? next_owner o) | None => false end
      | None => false
      end
  | _ => false
  end.

(** The search for deadlocks gives up after eleven steps: thirteen tasks that
    each have one lock can all be put to sleep in a ring, each waiting for the
    lock of the next. *)
Theorem deadlock_missed : exists s, reachable s /\ forallb (waits_for_next s) owners = true.
Proof. apply (run_witness (fun s => forallb (waits_for_next s) owners) ring). vm_compute. reflexivity. Qed.

(** Two threads share the open file 9: the first converts its shared lock to an
    exclusive one, the second takes a shared lock while the first has dropped
    [file_lock_lock], and unlocks when both are done. *)
Definition race : list action :=
  [Request 1 (Flock 9) 7 101 (flock_request_for 9 F_RDLCK 0); Call 1 (Some (201, blank)) None; Return 1;
   Request 1 (Flock 9) 7 102 (flock_request_for 9 F_WRLCK 0); Call 1 (Some (202, blank)) None;
   Request 2 (Flock 9) 7 103 (flock_request_for 9 F_RDLCK 0); Call 2 (Some (203, blank)) None; Return 2;
   Resume 1; Return 1].
Definition unlock : list action := [Request 2 (Flock 9) 7 104 (flock_request_for 9 F_UNLCK 0); Call 2 None None; Return 2].
Definition idle_with (l : list Z) (s : system) : bool := bool_decide (sys_tasks s = ∅) && bool_decide (file_flocks (sys_locks s) 7 9 = l).

(** An open file can get two BSD locks when one thread converts a lock while
    another takes one: the conversion drops the spin lock between the removal
    of the old lock and the insertion of the new one and does not look for
    locks of its own file again.  An unlock removes one of the two, and the
    file stays locked although it was unlocked. *)
Theorem flock_conversion_race :
  exists s s', reachable s /\ idle_with [F_RDLCK; F_WRLCK] s = true /\ run s unlock = Some s' /\ idle_with [F_WRLCK] s' = true.
Proof.
  destruct (run_witness (fun s => idle_with [F_RDLCK; F_WRLCK] s && match run s unlock with Some s' => idle_with [F_WRLCK] s' | None => false end) race) as (s & R & H).
  { vm_compute. reflexivity. }
  apply andb_true_iff in H as [H1 H2]. destruct (run s unlock) as [s'|] eqn:E; [|done]. by exists s, s'.
Qed.

(** ** Witnesses *)

(** Owner 1 has byte 1 and owner 2 asks for bytes 0 to 5; the open file 9 has a
    shared BSD lock and asks for an exclusive one. *)
Definition demo_run : list action :=
  take 1 ++ [Request 2 Posix 7 109 (posix_request 2 0 5 F_RDLCK FL_SLEEP);
             Request 3 (Flock 9) 7 111 (flock_request_for 9 F_RDLCK 0); Call 3 (Some (251, blank)) None; Return 3;
             Request 3 (Flock 9) 7 119 (flock_request_for 9 F_WRLCK 0)].
Definition demo : system := default initial (run initial demo_run).

Lemma run_default l s : reachable s -> is_Some (run s l) -> reachable (default initial (run s l)).
Proof. intros R [s' E]. rewrite E. by apply (run_reachable l s). Qed.
Lemma demo_reachable : reachable demo.
Proof. apply run_default; [apply reach_initial|]. vm_compute. by eexists. Qed.

Lemma posix_lock_file_bytes_witness : exists w' err,
  __posix_lock_file 0 (Some (901, blank)) (Some (902, blank)) (sys_locks demo) 7 109 0 = Some (w', err) /\
  posix_outcome (held_bytes (sys_locks demo)) (held_bytes w') 7 (posix_request 2 0 5 F_RDLCK FL_SLEEP) (Some (901, blank)) (Some (902, blank)) err.
Proof.
  apply (posix_lock_file_bytes (sys_locks demo) (sys_tasks demo) 2).
  - exact demo_reachable.
  - vm_compute. reflexivity.
  - vm_compute. reflexivity.
  - apply allocb_true. vm_compute. reflexivity.
  - apply allocb_true. vm_compute. reflexivity.
  - right. vm_compute. discriminate.
Defined.


Lemma locks_never_conflict_witness : exists l, inode_locks (sys_locks demo) 7 = Some l /\ length l = 2%nat /\ NoDup l.
Proof.
  destruct (locks_never_conflict demo 7 demo_reachable) as (l & H1 & H2 & _). exists l. split; [exact H1|]. split; [|exact H2].
  assert (inode_locks (sys_locks demo) 7 = Some [251; 201]) as E by (vm_compute; reflexivity). rewrite H1 in E. injection E as ->. reflexivity.
Defined.



